(* ===== verification/_CoqProject ===== *)
-Q . S2P
Prelude.v
CModel.v
BitStream.v
RSCode.v
RSTheory.v
QRSpec.v
MQRSpec.v
FrameFiller.v
Mask.v
MaskTheory.v
MMask.v
Caches.v
QRInput.v
QRInputTheory.v
QRDecode.v
QREncode.v
Blocks.v
Symbols.v
Reader.v
MicroInput.v
MicroSymbols.v
Split.v
SplitTheory.v
Lengths.v
MicroReader.v
QRStruct.v
QRApi.v
ApiTheory.v
StructTheory.v
InputState.v
CodesProps.v
FrameProps.v
InputProps.v
SymbolProps.v
MicroProps.v
StructProps.v
LimitsProps.v
SphTypes.v
SphBuffer.v
GroestlTables.v
Groestl.v
GroestlSpec.v
GroestlTheory.v
GroestlContext.v
GroestlProps.v
Keccak.v
KeccakSpec.v
KeccakTheory.v
KeccakContext.v
KeccakProps.v
JBase.v
JUtf.v
JStrbuf.v
JHash.v
JHashTheory.v
JValue.v
JArray.v
JReal.v
JLex.v
JScan.v
JLoad.v
JDump.v
JSpec.v
JLexTheory.v
JFile.v
JStringTheory.v
JTokenTheory.v
JHeap.v
JBuild.v
JLoadTheory.v
JParseTheory.v
JSound.v
JAccept.v
JRender.v
JDumpTheory.v
JCycles.v
JHashProps.v
JValueProps.v
JTextProps.v
JsonProps.v
