(* ===== verification/Prelude.v ===== *)
(** * Verification of the vendored libqrencode, Jansson and hash functions

    [src/] collects the third-party libraries that a wallet is built with. This
    development models one of them completely, the QR code encoder libqrencode
    ([src/qrencode/], public interface [src/qrencode.h]), and proves that what it
    draws can be read: for every input it accepts, the modules of the symbol
    alone, looked at by a decoder that follows the standard, give the data back.
    A second part models the JSON library Jansson ([src/jansson/], public
    interface [src/jansson.h]) with its heap of reference-counted values, and
    proves that it loads what a grammar of JSON describes and that what it dumps
    is loaded back as the same value. A third part models the hash functions
    Groestl and Keccak of [src/sphlib/] and proves them equal to specifications
    on bytes and bits. The parts are independent of each other.

    ** The program and its model

    An input object holds a list of entries (a mode and its bytes). It is turned
    into a bit stream, padded to the data code words of a version, divided into
    blocks that get Reed-Solomon parity, interleaved, written along a zigzag
    walk into the frame of the version, masked, and labelled with the format
    information. Files of the model, in the order of their use:

    - [Prelude], [CModel]: outcomes of C code, integers at their width, loops,
      the state (allocator, errno, static caches), enumerations of
      [qrencode.h], and two judgements, [spec] and [sm_spec], for routines
      that return, fail with an errno or run into undefined behaviour.
    - [BitStream]: bitstream.c. [RSCode]: rscode.c; [RSTheory]: the field and
      the code it encodes.
    - [QRSpec], [MQRSpec]: qrspec.c and mqrspec.c, tables, frames and their
      caches, with the reference drawing of the frames. [FrameFiller]: the
      walk of qrencode.c. [Caches]: the invariant of the three static caches.
    - [Mask], [MMask]: mask.c and mmask.c; [MaskTheory]: masks, penalty, choice.
    - [QRInput]: qrinput.c up to the byte stream; [QRInputTheory]: its
      reference encoding; [QRDecode]: the decoder of bit streams;
      [MicroInput]: padding of Micro QR; [Lengths]: lengths and estimates;
      [InputState]: the calls of a client and the invariant of the object.
    - [QREncode]: the raw codes and entry points of qrencode.c for one symbol;
      [Blocks], [Symbols], [MicroSymbols]: blocks, interleaving, placement;
      [Reader], [MicroReader]: readers of symbols.
    - [Split], [SplitTheory]: split.c. [QRStruct]: structured append of
      qrinput.c; [QRApi]: entry points of qrencode.c for strings and structured
      messages; [ApiTheory], [StructTheory]: their contracts.
    - The files named [...Props] state the properties, each with a witness that
      applies it to a concrete input where it has hypotheses.

    Jansson keeps values as cells with a reference count, among them arrays (a
    block of pointers) and objects (a hash table whose pairs form a circular
    list). A text is loaded by a recursive descent parser over a lexer, which
    reads characters of UTF-8 from a source of bytes and saves the text of the
    current token in a string buffer; values are dumped through a callback.

    - [JBase]: memory.c, error returns that are examined, and the judgement [wp]
      (with memory, a routine ends in an outcome and a state of the given set;
      [wpr]: it returns). [JUtf]: utf.c and the encoding of the standard.
      [JStrbuf]: strbuffer.c and buffers as lists of bytes.
    - [JHash]: hashtable.c, a table with the links and pairs of its own;
      [JHashTheory]: the circular list and the buckets it is divided into, and
      the view of clients, a list of pairs with distinct keys ([table]).
    - [JValue], [JArray]: value.c; the values released by a table and the heap
      they live in are one state. [JReal]: strconv.c, with models of [strtod]
      and ["%.17g"] by exact arithmetic.
    - [JLex]: sources (class [Source]), the stream with its lines and columns,
      the messages of error.c; [JScan]: tokens; [JLoad]: the parser and the entry
      points; [JFile]: those for files. [JDump]: dump.c over any callback.
    - [JSpec]: values and texts of JSON as inductive relations. [JLexTheory]: what
      a source promises (class [SourceLaws]) and characters; [JStringTheory],
      [JTokenTheory]: strings, numbers and the other tokens; [JHeap]: trees of
      cells that belong to one owner ([owned], [built]) and their release, and
      values whose parts are shared ([unfolds]);
      [JBuild]: appending to arrays and setting members; [JLoadTheory],
      [JParseTheory]: the parser and its entry points on a text of the grammar.
    - [JSound], [JAccept]: the lexer and the parser on any text. What the reader
      sees is text up to its end or up to bytes that are no UTF-8 (class [Tail]
      of [JLexTheory]), and each routine reads a phrase of the grammar or gives up.
    - [JRender]: the text of a value and its place in the grammar; [JDumpTheory]:
      the encoder writes it and restores the flags against cycles; [JCycles]: the
      encoder on any graph of values, with the heap while a set of containers is
      being written ([during]).
    - [JHashProps], [JTextProps], [JValueProps], [JsonProps]: the properties.

    A hash function keeps a context: a buffer with its fill level, a state of
    words of 64 bits, sometimes the number of blocks. Feeding bytes fills the
    buffer and absorbs it whenever it is full; closing pads the message,
    extracts the digest and initialises the context again.

    - [SphTypes]: words of 64 bits and their bytes (sph_types.h). [SphBuffer]:
      the buffering that the hash functions have in common and its invariant.
    - [GroestlTables], [Groestl]: groestl.c, the tables and everything else, on
      the path for 64-bit little-endian machines; both variants share the
      functions [core] and [close] over a record of their macros and sizes.
    - [GroestlSpec]: the hash function of the submission on matrices of bytes,
      with the S-box computed in the field. [GroestlTheory]: words and bytes,
      tables, rounds, permutations, compression. [GroestlContext]: the class
      [Implements] that a variant offers to the functions, and the invariant
      [absorbed] of contexts. [GroestlProps]: the properties.
    - [Keccak]: keccak.c, the in-place permutation over words that are renamed
      from round to round, six of them complemented, and the functions of
      sph_keccak.h. [KeccakSpec]: Keccak-f[1600] and the sponge with the
      padding on bits. [KeccakTheory]: views of the words under a list of names
      and rounds on them. [KeccakContext], [KeccakProps]: blocks, padding,
      contexts, properties.

    Definitions carry the names of the C functions. A pointer to an object that
    is updated in place is a state monad over the object ([SM]); a list of C is
    a list, an array of modules a finite map with its length ([carray]), so that
    an access out of bounds or of a cell that was never written is [Undef].
    Allocations are requests to an arbitrary allocator that may refuse any of
    them; the theorems in [sm_spec] form say what happens when it grants them
    all, and [InputState] and [allocation_failures_reported] what happens when
    it does not.

    ** What the properties show

    - Round trips: strings, data, input objects and structured messages come
      back from the symbols ([SymbolProps], [MicroProps], [StructProps]); byte
      streams decode to their segments ([InputProps]).
    - Refinement: [QRcode_encodeMask] and its Micro QR counterpart return the
      symbol that the specification [qr_symbol], [micro_symbol] describes, under
      the mask of the fewest penalty points or the highest score; the stream of
      an entry is the reference encoding, the frames are the reference drawings,
      penalties from run lengths are those of the features of the standard.
    - Codes: the parity is that of the generator polynomial, every block in a
      symbol is a code word, version and format words are BCH words of the
      distance that the standard gives.
    - Invariants: input objects stay well formed under all sequences of calls;
      the caches are transparent; block structures fit code words.
    - Splits: the splitter of strings and the split of objects into symbols
      end, lose nothing and respect the limits of segments and symbols.
    - JSON: every text of the grammar is loaded, from any of the sources, as a
      tree of fresh cells that denotes its value, and everything else in the
      heap stays ([JsonProps]); nothing else is loaded, and on an error all that
      was allocated is freed ([json_loads_decides]); dumping a value and loading the text gives a tree
      of the same value, members of objects compared as sets; cycles are reported and
      leave no trace ([json_dump_any_graph]); releasing the last
      reference frees exactly the tree ([JValueProps]); a hash table under any
      calls is a finite map ([JHashProps]), a string buffer a list, and the
      check of UTF-8 exact ([JTextProps], also the messages of errors); integers that do not
      fit are rejected.
    - Hashing: tables, rounds, permutations and compression are those of the
      specifications; for all digest sizes, feeding any pieces and closing returns the
      specified digest of the whole message, and every sequence of calls stays
      within the buffers and leaves a context that can be reused.
    - Errors: what is rejected and with which errno; and in [LimitsProps] the
      inputs for which the library does something else than the standard or its
      documentation says.

    ** Fuel and bounds

    Recursion that is not structural carries fuel, and running out of it is
    undefined behaviour, which the theorems exclude: the selection of the
    version needs at most 41 rounds since the version grows ([version_fuel]);
    an entry is cut at most once per byte; the splitters consume a byte, an
    entry or an object in every round ([split_measure]); the walk of the
    filler is followed for as many steps as there are data modules; the loop of
    [feed] consumes a byte in every round and has as much fuel as bytes. The
    loops of the JSON lexer and the recursion of its parser read a byte in every
    round, and the fuel is the length of the text; searches in a table have the
    number of pairs; releasing and dumping a tree go down at most as many levels
    as there are cells. Texts and tables are bounded by the largest table
    ([MAX_PAIRS]) and buffers by [LIMIT], which no machine of 64 bits reaches. Frames,
    tables and block structures are checked for all 40 (and 4) versions by
    evaluation.

    ** Not modelled

    Routines that only release memory (their effect is not observable here), the
    pthread mutexes around the caches, the version strings of the API (macros of
    the build), drivers compiled only for tests ([Mask_makeMaskedFrame] and the
    like). Of the hash functions, the 32-bit paths, the paths for big-endian
    machines and the builds with other tables or unrollings. Of Jansson, locales
    with another decimal point, [json_set_alloc_funcs], and packing, whose source
    is not in [src/]; that the reals of a value survive a round trip is a
    condition on each of them ([survives]) that evaluation decides. The other
    libraries under [src/] (databases, networking, cryptography, C++ headers) are
    left aside: vendored code whose logic does not interact with the encoder. *)

From stdpp Require Export base tactics list list_numbers numbers zmap.
From Stdlib Require Export Lia.

#[global] Open Scope Z_scope.

(** ** Outcomes of C code

    A C function of the library returns a value, reports an error (a [NULL]
    pointer or a negative return code), or runs into undefined behaviour
    (an access outside a buffer, a null dereference, a read of an
    uninitialised cell). *)

Inductive outcome (A : Type) : Type :=
  | Ret (a : A)
  | Fail
  | Undef.
Arguments Ret {A} a.
Arguments Fail {A}.
Arguments Undef {A}.

#[export] Instance outcome_ret : MRet outcome := @Ret.

#[export] Instance outcome_bind : MBind outcome := λ A B f m,
  match m with Ret a => f a | Fail => Fail | Undef => Undef end.

#[export] Instance outcome_eq_dec `{EqDecision A} : EqDecision (outcome A).
Proof. solve_decision. Defined.

(** A pointer or table access that must succeed. *)
Definition deref {A} (o : option A) : outcome A :=
  match o with Some a => Ret a | None => Undef end.

(** The value of an outcome, for computations on concrete inputs. *)
Definition outcome_value {A} (o : outcome A) : option A :=
  match o with Ret a => Some a | _ => None end.

(** ** Loops

    [for(i = lo; i < hi; i++) body] with the loop-carried state explicit. *)

Fixpoint foldM {M : Type → Type} {R : MRet M} {B : MBind M} {A S : Type}
    (f : A → S → M S) (l : list A) (s : S) : M S :=
  match l with
  | [] => mret s
  | x :: l => s' ← f x s; foldM f l s'
  end.

(** The integers from [lo] to [hi - 1]. *)
Fixpoint count_up (n : nat) (lo : Z) : list Z :=
  match n with O => [] | S n => lo :: count_up n (lo + 1) end.

Definition range (lo hi : Z) : list Z := count_up (Z.to_nat (hi - lo)) lo.

Definition for_range {M : Type → Type} {R : MRet M} {B : MBind M} {S : Type}
    (lo hi : Z) (f : Z → S → M S) (s : S) : M S :=
  foldM f (range lo hi) s.

Definition for_pure {S : Type} (lo hi : Z) (f : Z → S → S) (s : S) : S :=
  foldl (λ s i, f i s) s (range lo hi).

(** ** Machine integers *)

(** [(unsigned char)x], [(signed char)x] and [(unsigned int)x]. *)
Definition u8 (x : Z) : Z := x `mod` 256.
Definition s8 (x : Z) : Z := if u8 x <? 128 then u8 x else u8 x - 256.
Definition u32 (x : Z) : Z := x `mod` 2 ^ 32.

(** The C conversion of a truth value to [int]. *)
Definition b2z (b : bool) : Z := if b then 1 else 0.

(** The C test [if(x)] and the operators [&] and [^] on it. *)
Definition truth (x : Z) : bool := negb (x =? 0).

Definition is_byte (x : Z) : Prop := 0 ≤ x < 256.
Definition is_bit (x : Z) : Prop := x = 0 ∨ x = 1.

#[export] Instance is_byte_dec x : Decision (is_byte x).
Proof. unfold is_byte. apply _. Defined.
#[export] Instance is_bit_dec x : Decision (is_bit x).
Proof. unfold is_bit. apply _. Defined.

(** ** Tables and buffers

    A [static const] table or a buffer whose size is fixed by construction is
    a list; [nthZ] reads it at an index the code keeps in range. *)
Definition nthZ (l : list Z) (i : Z) : Z := l !!! Z.to_nat i.
Definition nthL (l : list (list Z)) (i : Z) : list Z := l !!! Z.to_nat i.

(** Reading a buffer of the caller at an index that the code does not check. *)
Definition readZ (l : list Z) (i : Z) : outcome Z :=
  if 0 <=? i then deref (l !! Z.to_nat i) else Undef.

(** A heap block of [alen] bytes. A cell that was not written yet holds no
    value, so reading it is undefined, and so is every access outside the
    block. *)
Record carray := CArray { alen : Z; acells : Zmap Z }.

#[export] Instance carray_eq_dec : EqDecision carray.
Proof. solve_decision. Defined.

Definition anew (n : Z) : carray := CArray n ∅.

Definition aget (a : carray) (i : Z) : outcome Z := deref (acells a !! i).

Definition aset (i v : Z) (a : carray) : outcome carray :=
  if (0 <=? i) && (i <? alen a) then Ret (CArray (alen a) (<[i := v]> (acells a)))
  else Undef.

(** [memset(a + off, v, n)]. *)
Definition amemset (off v n : Z) (a : carray) : outcome carray :=
  for_range 0 n (λ k, aset (off + k) v) a.

(** [memcpy(fresh, a, n)] into a fresh block of [n] bytes. *)
Definition amemcpy (a : carray) (n : Z) : outcome carray :=
  for_range 0 n (λ k b, v ← aget a k; aset k v b) (anew n).

(** ** Bit strings, most significant bit first *)

Fixpoint to_bits (n : nat) (v : Z) : list Z :=
  match n with
  | O => []
  | S n => b2z (Z.testbit v (Z.of_nat n)) :: to_bits n v
  end.

Definition of_bits (l : list Z) : Z := foldl (λ acc b, 2 * acc + b) 0 l.

(** ** Automation of the development *)

Create HintDb qr.
Create Rewrite HintDb qr_simpl.

(** Split a hypothesis or a goal on the C comparisons it contains. *)
Ltac case_bool :=
  match goal with
  | |- context [?a <? ?b] => destruct (Z.ltb_spec a b)
  | |- context [?a <=? ?b] => destruct (Z.leb_spec a b)
  | |- context [?a =? ?b] => destruct (Z.eqb_spec a b)
  | H : context [?a <? ?b] |- _ => destruct (Z.ltb_spec a b)
  | H : context [?a <=? ?b] |- _ => destruct (Z.leb_spec a b)
  | H : context [?a =? ?b] |- _ => destruct (Z.eqb_spec a b)
  end.

(** Finite case analysis of an integer variable between two constants. *)
Ltac enum_Z x lo hi :=
  let rec go k :=
    lazymatch k with
    | hi => idtac
    | _ => let k' := eval vm_compute in (k + 1)%Z in
           destruct (decide (x = k)) as [->|?]; [|go k']
    end in go lo.

(** A property of every integer of a range, decided by evaluation. *)
Definition all_range (lo hi : Z) (p : Z → bool) : bool := forallb p (range lo hi).

Lemma count_up_seqZ n lo : count_up n lo = seqZ lo (Z.of_nat n).
Proof.
  revert lo. induction n as [|n IH]; intros lo; [done|]. simpl.
  rewrite IH, (seqZ_cons lo) by lia. f_equal. f_equal; lia.
Qed.

Lemma range_seqZ lo hi : range lo hi = seqZ lo (hi - lo).
Proof.
  unfold range. rewrite count_up_seqZ. destruct (decide (lo ≤ hi)).
  - f_equal. lia.
  - rewrite !seqZ_nil by lia. done.
Qed.

Lemma elem_of_range lo hi x : x ∈ range lo hi ↔ lo ≤ x < hi.
Proof. rewrite range_seqZ, elem_of_seqZ. lia. Qed.

Lemma all_range_spec lo hi p :
  all_range lo hi p = true → ∀ x, lo ≤ x < hi → p x = true.
Proof.
  unfold all_range. rewrite forallb_forall. intros H x Hx.
  by apply H, list_elem_of_In, elem_of_range.
Qed.

(** ** Loops *)

(** Running the first statement of a sequence. *)
Lemma bind_ret_eq {A B} (m : outcome A) (f : A → outcome B) a r :
  m = Ret a → f a = r → m ≫= f = r.
Proof. by intros ->. Qed.

Section foldM_outcome.
Context {A S : Type} (f : A → S → outcome S).

Lemma foldM_app l1 l2 s :
  foldM f (l1 ++ l2) s = (s' ← foldM f l1 s; foldM f l2 s').
Proof. revert s. induction l1 as [|x l1 IH]; intros s; simpl; [done|]. destruct (f x s); simpl; auto. Qed.

(** Loop invariant rule for loops whose body never fails. *)
Lemma foldM_inv (I : list A → S → Prop) l s :
  I [] s →
  (∀ l1 x l2 s, l = l1 ++ x :: l2 → I l1 s → ∃ s', f x s = Ret s' ∧ I (l1 ++ [x]) s') →
  ∃ s', foldM f l s = Ret s' ∧ I l s'.
Proof.
  induction l as [|x l IH] using rev_ind; intros H0 Hstep; [by exists s|].
  destruct IH as (s1 & E1 & H1); [done| |].
  { intros l1 y l2 t -> HI. apply (Hstep l1 y (l2 ++ [x])); [|done].
    by rewrite <- app_assoc. }
  destruct (Hstep l x [] s1) as (s2 & E2 & H2); [done|done|].
  exists s2. split; [|done]. rewrite foldM_app, E1. simpl. by rewrite E2.
Qed.
End foldM_outcome.

Lemma for_pure_inv {S} (I : Z → S → Prop) lo hi f s :
  lo ≤ hi → I lo s →
  (∀ i s, lo ≤ i < hi → I i s → I (i + 1) (f i s)) →
  I hi (for_pure lo hi f s).
Proof.
  intros Hle H0 Hstep. unfold for_pure. rewrite range_seqZ.
  replace hi with (lo + Z.of_nat (Z.to_nat (hi - lo))) at 1 by lia.
  assert (Hn : Z.of_nat (Z.to_nat (hi - lo)) ≤ hi - lo) by lia.
  replace (seqZ lo (hi - lo)) with (seqZ lo (Z.of_nat (Z.to_nat (hi - lo))))
    by (f_equal; lia).
  revert Hn. generalize (Z.to_nat (hi - lo)). intros n.
  induction n as [|n IH]; intros Hn; [by rewrite Z.add_0_r|].
  rewrite seqZ_S, foldl_app. simpl.
  replace (lo + Z.of_nat (Datatypes.S n)) with (lo + Z.of_nat n + 1) by lia.
  apply Hstep; [lia|]. apply IH. lia.
Qed.

Lemma for_pure_S {S} lo hi (f : Z → S → S) s :
  lo ≤ hi → for_pure lo (hi + 1) f s = f hi (for_pure lo hi f s).
Proof.
  intros H. unfold for_pure. rewrite !range_seqZ.
  replace (seqZ lo (hi + 1 - lo)) with (seqZ lo (Z.of_nat (Datatypes.S (Z.to_nat (hi - lo)))))
    by (f_equal; lia).
  rewrite seqZ_S, foldl_app. simpl. f_equal; [lia|].
  do 2 f_equal. lia.
Qed.

(** ** Bit strings *)

Lemma b2z_bit b : is_bit (b2z b).
Proof. destruct b; [by right | by left]. Qed.

Lemma length_to_bits n v : length (to_bits n v) = n.
Proof. induction n; simpl; congruence. Qed.

Lemma to_bits_bits n v : Forall is_bit (to_bits n v).
Proof. induction n; simpl; constructor; auto using b2z_bit. Qed.

Lemma foldl_bits_shift l acc :
  foldl (λ acc b, 2 * acc + b) acc l = acc * 2 ^ Z.of_nat (length l) + of_bits l.
Proof.
  unfold of_bits. revert acc. induction l as [|b l IH]; intros acc; cbn [foldl length].
  - rewrite Z.pow_0_r. lia.
  - rewrite IH, (IH (2 * 0 + b)). rewrite Nat2Z.inj_succ, Z.pow_succ_r by lia. ring.
Qed.

Lemma of_bits_cons b l : of_bits (b :: l) = b * 2 ^ Z.of_nat (length l) + of_bits l.
Proof. unfold of_bits at 1. cbn [foldl]. rewrite foldl_bits_shift. lia. Qed.

Lemma of_bits_app l1 l2 :
  of_bits (l1 ++ l2) = of_bits l1 * 2 ^ Z.of_nat (length l2) + of_bits l2.
Proof. unfold of_bits at 1. by rewrite foldl_app, foldl_bits_shift. Qed.

Lemma of_bits_range l : Forall is_bit l → 0 ≤ of_bits l < 2 ^ Z.of_nat (length l).
Proof.
  induction 1 as [|b l Hb _ IH]; [unfold of_bits; simpl; lia|].
  rewrite of_bits_cons. cbn [length].
  rewrite Nat2Z.inj_succ, Z.pow_succ_r by lia. destruct Hb; subst; lia.
Qed.

(** Writing a number with [n] bits and reading it back reduces it modulo [2^n]. *)
Lemma of_to_bits n v : of_bits (to_bits n v) = v `mod` 2 ^ Z.of_nat n.
Proof.
  induction n as [|n IH]; [by rewrite Z.mod_1_r|].
  cbn [to_bits]. rewrite of_bits_cons, length_to_bits, IH, Nat2Z.inj_succ.
  rewrite Z.pow_succ_r by lia.
  replace (2 * 2 ^ Z.of_nat n) with (2 ^ Z.of_nat n * 2) by ring.
  rewrite Z.rem_mul_r by lia.
  replace (b2z (Z.testbit v (Z.of_nat n))) with ((v `div` 2 ^ Z.of_nat n) `mod` 2); [ring|].
  rewrite <- Z.testbit_spec' by lia. by destruct (Z.testbit _ _).
Qed.

Lemma of_to_bits_small n v : 0 ≤ v < 2 ^ Z.of_nat n → of_bits (to_bits n v) = v.
Proof. intros H. by rewrite of_to_bits, Z.mod_small. Qed.

Lemma to_of_bits l : Forall is_bit l → to_bits (length l) (of_bits l) = l.
Proof.
  induction 1 as [|b l Hb Hl IH]; [done|].
  cbn [length to_bits]. pose proof (of_bits_range l Hl) as Hr.
  rewrite of_bits_cons. f_equal.
  - rewrite Z.testbit_eqb by lia.
    rewrite Z.div_add_l, (Z.div_small (of_bits l)), Z.add_0_r by lia.
    by destruct Hb; subst.
  - transitivity (to_bits (length l) (of_bits l)); [|done]. clear IH Hb.
    assert (H : ∀ m : nat, (m ≤ length l)%nat →
      to_bits m (b * 2 ^ Z.of_nat (length l) + of_bits l) = to_bits m (of_bits l)).
    { induction m as [|m IHm]; intros Hm; [done|]. cbn [to_bits].
      rewrite IHm by lia. do 2 f_equal.
      rewrite <- (Z.mod_pow2_bits_low _ (Z.of_nat (length l))) by lia.
      rewrite Z.add_comm, Z.mod_add by lia.
      by rewrite Z.mod_pow2_bits_low by lia. }
    by apply H.
Qed.

#[export] Hint Resolve b2z_bit to_bits_bits : qr.
#[export] Hint Rewrite length_to_bits : qr_simpl.

Lemma lookup_to_bits n v i :
  (i < n)%nat → to_bits n v !! i = Some (b2z (Z.testbit v (Z.of_nat (n - 1 - i)))).
Proof.
  revert i. induction n as [|n IH]; intros i Hi; [lia|]. cbn [to_bits].
  destruct i as [|i]; cbn [lookup list_lookup].
  - do 3 f_equal. lia.
  - rewrite IH by lia. do 3 f_equal. lia.
Qed.

(** The C idiom [num & mask] with a one-bit mask. *)
Lemma truth_land_pow2 v k : 0 ≤ k → truth (Z.land v (2 ^ k)) = Z.testbit v k.
Proof.
  intros Hk. unfold truth.
  assert (E : Z.land v (2 ^ k) = if Z.testbit v k then 2 ^ k else 0).
  { apply Z.bits_inj'. intros n Hn. rewrite Z.land_spec, Z.pow2_bits_eqb by lia.
    destruct (Z.eqb_spec k n) as [->|Hne].
    - destruct (Z.testbit v n); simpl; [|by rewrite Z.testbit_0_l].
      by rewrite Z.pow2_bits_true by lia.
    - rewrite andb_false_r. destruct (Z.testbit v k); [|by rewrite Z.testbit_0_l].
      by rewrite Z.pow2_bits_false by lia. }
  rewrite E. destruct (Z.testbit v k); [|done].
  destruct (Z.eqb_spec (2 ^ k) 0); [|done]. pose proof (Z.pow_pos_nonneg 2 k). lia.
Qed.

Lemma truth_land_1 x : truth (Z.land x 1) = Z.odd x.
Proof. change 1 with (2 ^ 0). by rewrite truth_land_pow2, Z.bit0_odd by lia. Qed.

Lemma shiftr_pow2 a i : 0 ≤ i ≤ a → Z.shiftr (2 ^ a) i = 2 ^ (a - i).
Proof.
  intros H. rewrite Z.shiftr_div_pow2 by lia.
  replace a with (a - i + i) at 1 by lia.
  by rewrite Z.pow_add_r, Z.div_mul by lia.
Qed.

(** ** Buffers filled from the left *)

Lemma fill_step {A} (l : list A) i n d x :
  length l = n → l !! i = Some x →
  <[i := x]> (take i l ++ replicate (n - i) d) = take (S i) l ++ replicate (n - S i) d.
Proof.
  intros <- Hx. pose proof (lookup_lt_Some _ _ _ Hx).
  rewrite (take_S_r _ _ _ Hx), insert_app_r_alt by (rewrite length_take; lia).
  rewrite length_take, Nat.min_l, Nat.sub_diag by lia.
  destruct (length l - i)%nat as [|k] eqn:E; [lia|].
  replace (length l - S i)%nat with k by lia. simpl. by rewrite <- app_assoc.
Qed.

Lemma fill_done {A} (l : list A) n d : length l = n → take n l ++ replicate (n - n) d = l.
Proof. intros <-. rewrite firstn_all, Nat.sub_diag. apply app_nil_r. Qed.

Lemma of_bits_snoc l b : of_bits (l ++ [b]) = 2 * of_bits l + b.
Proof. unfold of_bits. by rewrite foldl_app. Qed.

(** Appending one bit with [v = (v << 1) | b], as the byte packers do. *)
Lemma shift_in_bit v b : 0 ≤ v < 128 → is_bit b → Z.lor (u8 (Z.shiftl v 1)) b = 2 * v + b.
Proof.
  intros Hv Hb. unfold u8. rewrite Z.shiftl_mul_pow2, Z.pow_1_r by lia.
  rewrite Z.mod_small by lia.
  destruct Hb as [->| ->]; [rewrite Z.lor_0_r; lia|].
  destruct v as [|p|p]; [done|by rewrite (Z.mul_comm _ 2)|lia].
Qed.

(** Invariant rule for a C loop whose body is defined in every iteration. *)
Lemma for_range_inv {S} (I : Z → S → Prop) lo hi (f : Z → S → outcome S) s :
  lo ≤ hi → I lo s →
  (∀ i s, lo ≤ i < hi → I i s → ∃ s', f i s = Ret s' ∧ I (i + 1) s') →
  ∃ s', for_range lo hi f s = Ret s' ∧ I hi s'.
Proof.
  intros Hle H0 Hstep. unfold for_range. rewrite range_seqZ.
  destruct (foldM_inv f (λ l s, I (lo + Z.of_nat (length l)) s)
    (seqZ lo (hi - lo)) s) as (s' & E & HI).
  - by rewrite Z.add_0_r.
  - intros l1 x l2 t Hl HI.
    assert (Hx : seqZ lo (hi - lo) !! length l1 = Some x).
    { rewrite Hl, lookup_app_r, Nat.sub_diag by lia. done. }
    apply lookup_seqZ in Hx as [-> Hx].
    destruct (Hstep (lo + Z.of_nat (length l1)) t) as (t' & Et & Ht); [lia|done|].
    exists t'. split; [done|]. rewrite length_app. simpl.
    by replace (lo + Z.of_nat (length l1 + 1)) with (lo + Z.of_nat (length l1) + 1) by lia.
  - exists s'. split; [done|]. rewrite length_seqZ in HI.
    by replace (lo + Z.of_nat (Z.to_nat (hi - lo))) with hi in HI by lia.
Qed.

(** Invariant rule for a loop over the modules of a square, row by row. *)
Lemma raster_inv {S} (I : Z → S → Prop) w (f : Z → Z → S → outcome S) s :
  0 ≤ w → I 0 s →
  (∀ x y s, 0 ≤ x < w → 0 ≤ y < w → I (y * w + x) s →
    ∃ s', f y x s = Ret s' ∧ I (y * w + x + 1) s') →
  ∃ s', for_range 0 w (λ y st, for_range 0 w (f y) st) s = Ret s' ∧ I (w * w) s'.
Proof.
  intros Hw H0 Hstep. apply (for_range_inv (λ y, I (y * w))); [lia|done|].
  intros y t Hy Ht.
  replace ((y + 1) * w) with (y * w + w) by ring.
  apply (for_range_inv (λ x, I (y * w + x))); [lia|by rewrite Z.add_0_r|].
  intros x t' Hx Ht'. replace (y * w + (x + 1)) with (y * w + x + 1) by lia.
  by apply Hstep.
Qed.

Lemma range_snoc lo hi : lo ≤ hi → range lo (hi + 1) = range lo hi ++ [hi].
Proof.
  intros H. rewrite !range_seqZ. replace (hi + 1 - lo) with (Z.of_nat (S (Z.to_nat (hi - lo)))) by lia.
  rewrite seqZ_S. f_equal; [f_equal; lia|f_equal; lia].
Qed.

(** Sums over a range of integers. *)
Definition zsum (f : Z → Z) (lo hi : Z) : Z := for_pure lo hi (λ i acc, acc + f i) 0.

Lemma zsum_nil f lo : zsum f lo lo = 0.
Proof. unfold zsum, for_pure, range. by rewrite Z.sub_diag. Qed.

Lemma zsum_S f lo hi : lo ≤ hi → zsum f lo (hi + 1) = zsum f lo hi + f hi.
Proof. intros H. unfold zsum. by rewrite for_pure_S. Qed.

Lemma zsum_ext f g lo hi : lo ≤ hi → (∀ i, lo ≤ i < hi → f i = g i) → zsum f lo hi = zsum g lo hi.
Proof.
  intros Hle H. unfold zsum.
  apply (for_pure_inv (λ i r, r = for_pure lo i (λ i acc, acc + g i) 0) lo hi).
  - done.
  - unfold for_pure. by rewrite range_seqZ, Z.sub_diag.
  - intros i s Hi ->. rewrite for_pure_S by lia. by rewrite H.
Qed.

(** Changing one term. *)
Lemma zsum_update f g lo hi k :
  lo ≤ k < hi → (∀ i, lo ≤ i < hi → i ≠ k → f i = g i) →
  zsum f lo hi = zsum g lo hi - g k + f k.
Proof.
  intros Hk H.
  assert (Hgen : ∀ n : nat, lo + Z.of_nat n ≤ hi →
    zsum f lo (lo + Z.of_nat n) = zsum g lo (lo + Z.of_nat n)
      + if decide (k < lo + Z.of_nat n) then f k - g k else 0).
  { induction n as [|n IH]; intros Hn.
    - rewrite Z.add_0_r, decide_False by lia. unfold zsum, for_pure.
      rewrite range_seqZ, Z.sub_diag. done.
    - replace (lo + Z.of_nat (Datatypes.S n)) with (lo + Z.of_nat n + 1) by lia.
      rewrite !zsum_S, IH by lia.
      destruct (decide (k = lo + Z.of_nat n)) as [->|Hne].
      + rewrite decide_False, decide_True by lia. lia.
      + rewrite (H (lo + Z.of_nat n)) by lia.
        destruct (decide (k < lo + Z.of_nat n)).
        * rewrite decide_True by lia. lia.
        * rewrite decide_False by lia. lia. }
  specialize (Hgen (Z.to_nat (hi - lo)) ltac:(lia)).
  replace (lo + Z.of_nat (Z.to_nat (hi - lo))) with hi in Hgen by lia.
  rewrite Hgen, decide_True by lia. lia.
Qed.

Lemma zsum_bounds f lo hi a b :
  lo ≤ hi → (∀ i, lo ≤ i < hi → a ≤ f i ≤ b) →
  a * (hi - lo) ≤ zsum f lo hi ≤ b * (hi - lo).
Proof.
  intros Hle H. unfold zsum.
  apply (for_pure_inv (λ i r, a * (i - lo) ≤ r ≤ b * (i - lo)) lo hi); [done|lia|].
  intros i s Hi Hs. specialize (H i Hi). lia.
Qed.

(** Successful accesses to a heap block. *)
Lemma aget_Some n m i v : m !! i = Some v → aget (CArray n m) i = Ret v.
Proof. intros H. unfold aget. simpl. by rewrite H. Qed.

Lemma aset_in n m i v : 0 ≤ i < n → aset i v (CArray n m) = Ret (CArray n (<[i := v]> m)).
Proof. intros H. unfold aset. simpl. by replace ((0 <=? i) && (i <? n)) with true by lia. Qed.

Lemma readZ_lookup l i x : 0 ≤ i → l !! Z.to_nat i = Some x → readZ l i = Ret x.
Proof. intros Hi Hx. unfold readZ. destruct (Z.leb_spec 0 i); [|lia]. by rewrite Hx. Qed.

Lemma readZ_lt (l : list Z) i :
  0 ≤ i < Z.of_nat (length l) → ∃ x, l !! Z.to_nat i = Some x ∧ readZ l i = Ret x.
Proof.
  intros Hi. destruct (lookup_lt_is_Some_2 l (Z.to_nat i)) as [x Hx]; [lia|].
  exists x. split; [done|]. apply readZ_lookup; [lia|done].
Qed.

(** In-place update of the cells of a range of a buffer. *)
Lemma for_pure_update lo hi (F : Z → Z → Z) (l : list Z) k :
  0 ≤ lo ≤ hi →
  for_pure lo hi (λ j p, <[Z.to_nat j := F j (nthZ p j)]> p) l !! k
  = if decide (lo ≤ Z.of_nat k < hi) then F (Z.of_nat k) <$> l !! k else l !! k.
Proof.
  intros Hlo. revert k.
  apply (for_pure_inv (λ (i : Z) (p : list Z), ∀ k : nat,
    p !! k = if decide (lo ≤ Z.of_nat k < i) then F (Z.of_nat k) <$> l !! k else l !! k)
    lo hi); [lia| |].
  { intros k. by rewrite decide_False by lia. }
  intros i p Hi IH k. destruct (decide (k = Z.to_nat i)) as [->|Hne].
  - rewrite Z2Nat.id by lia. rewrite decide_True by lia. unfold nthZ.
    rewrite list_lookup_total_alt. rewrite IH, decide_False by lia.
    destruct (l !! Z.to_nat i) as [x|] eqn:E; simpl.
    + rewrite list_lookup_insert_eq; [done|].
      apply lookup_lt_is_Some. rewrite IH, decide_False, E by lia. eauto.
    + rewrite list_insert_ge; [by rewrite IH, decide_False, E by lia|].
      apply lookup_ge_None. by rewrite IH, decide_False by lia.
  - rewrite list_lookup_insert_ne by done. rewrite IH.
    repeat case_decide; done || lia.
Qed.

Lemma nthZ_lookup l i x : l !! Z.to_nat i = Some x → nthZ l i = x.
Proof. intros H. unfold nthZ. by rewrite list_lookup_total_alt, H. Qed.

(** Cancellation in sums modulo 2. *)
Ltac xor_cancel :=
  apply Z.bits_inj'; intros ? ?; rewrite ?Z.lxor_spec, ?Z.bits_0;
  repeat match goal with |- context [Z.testbit ?a ?n] => destruct (Z.testbit a n) end;
  reflexivity.
