(* ===== verification/CModel.v ===== *)
(** * The C environment of the library

    The enumerations and the control structures that several components
    share, the state of the C runtime that the code observes ([malloc],
    [errno] and the [static] caches of the library), the state-and-error monad
    in which every fallible routine is written, and the judgement [spec] with
    which the components specify their routines. *)

From S2P Require Import Prelude.

(** ** Enumerations of qrencode.h *)

Inductive QRencodeMode :=
  | QR_MODE_NUL | QR_MODE_NUM | QR_MODE_AN | QR_MODE_8 | QR_MODE_KANJI
  | QR_MODE_STRUCTURE | QR_MODE_ECI | QR_MODE_FNC1FIRST | QR_MODE_FNC1SECOND.

#[export] Instance QRencodeMode_eq_dec : EqDecision QRencodeMode.
Proof. solve_decision. Defined.

(** The numeric value of a mode, used by the code to index its tables. *)
Definition mode_Z (m : QRencodeMode) : Z :=
  match m with
  | QR_MODE_NUL => -1 | QR_MODE_NUM => 0 | QR_MODE_AN => 1 | QR_MODE_8 => 2
  | QR_MODE_KANJI => 3 | QR_MODE_STRUCTURE => 4 | QR_MODE_ECI => 5
  | QR_MODE_FNC1FIRST => 6 | QR_MODE_FNC1SECOND => 7
  end.

Inductive QRecLevel := QR_ECLEVEL_L | QR_ECLEVEL_M | QR_ECLEVEL_Q | QR_ECLEVEL_H.

#[export] Instance QRecLevel_eq_dec : EqDecision QRecLevel.
Proof. solve_decision. Defined.

Definition level_Z (l : QRecLevel) : Z :=
  match l with
  | QR_ECLEVEL_L => 0 | QR_ECLEVEL_M => 1 | QR_ECLEVEL_Q => 2 | QR_ECLEVEL_H => 3
  end.

Definition QRSPEC_VERSION_MAX : Z := 40.
Definition MQRSPEC_VERSION_MAX : Z := 4.

Definition all_levels : list QRecLevel :=
  [QR_ECLEVEL_L; QR_ECLEVEL_M; QR_ECLEVEL_Q; QR_ECLEVEL_H].

(** ** The Reed-Solomon control block of rscode.c *)

Record RS := MkRS {
  rs_mm : Z;                (* bits per symbol *)
  rs_nn : Z;                (* symbols per block, (1<<mm)-1 *)
  rs_alpha_to : list Z;     (* log lookup table *)
  rs_index_of : list Z;     (* antilog lookup table *)
  rs_genpoly : list Z;      (* generator polynomial, index form *)
  rs_nroots : Z;
  rs_fcr : Z;
  rs_prim : Z;
  rs_iprim : Z;
  rs_pad : Z;
  rs_gfpoly : Z
}.

(** ** State of the C runtime *)

Inductive errno_t := EINVAL | ENOMEM | ERANGE.

#[export] Instance errno_eq_dec : EqDecision errno_t.
Proof. solve_decision. Defined.

(** The [static] variables of the library: [rslist] of rscode.c and the frame
    caches of qrspec.c and mqrspec.c. *)
Record statics := Statics {
  rslist : list RS;
  qr_frames : Zmap carray;
  mqr_frames : Zmap carray
}.

(** [alloc_ok i] says whether the [i]-th call of the allocator succeeds. *)
Record world := World {
  alloc_ok : nat → bool;
  allocs : nat;
  errno : option errno_t;
  globals : statics
}.

Definition set_allocs (n : nat) (w : world) : world :=
  World (alloc_ok w) n (errno w) (globals w).
Definition set_errno (e : errno_t) (w : world) : world :=
  World (alloc_ok w) (allocs w) (Some e) (globals w).
Definition set_globals (g : statics) (w : world) : world :=
  World (alloc_ok w) (allocs w) (errno w) g.

(** ** The monad of the library routines *)

Definition M (A : Type) : Type := world → outcome A * world.

#[export] Instance M_ret : MRet M := λ A a w, (Ret a, w).

#[export] Instance M_bind : MBind M := λ A B f m w,
  match m w with
  | (Ret a, w') => f a w'
  | (Fail, w') => (Fail, w')
  | (Undef, w') => (Undef, w')
  end.

(** Return [NULL] or [-1] without touching [errno]. *)
Definition fail {A} : M A := λ w, (Fail, w).

(** [errno = e; return NULL]. *)
Definition raise {A} (e : errno_t) : M A := λ w, (Fail, set_errno e w).

Definition undef {A} : M A := λ w, (Undef, w).

Definition liftO {A} (o : outcome A) : M A := λ w, (o, w).

(** [malloc(n)], which fails with [ENOMEM] on a negative size (a huge value
    once it is converted to [size_t]) and when the allocator refuses. *)
Definition malloc (n : Z) : M unit := λ w,
  let w' := set_allocs (S (allocs w)) w in
  if (0 <=? n) && alloc_ok w (allocs w) then (Ret tt, w')
  else (Fail, set_errno ENOMEM w').

(** A [malloc] whose caller goes on when it fails. *)
Definition try_malloc (n : Z) : M bool := λ w,
  match malloc n w with
  | (Ret _, w') => (Ret true, w')
  | (_, w') => (Ret false, w')
  end.

Definition get_globals : M statics := λ w, (Ret (globals w), w).
Definition put_globals (g : statics) : M unit := λ w, (Ret tt, set_globals g w).

(** A statement whose error return is ignored: the state it works on keeps
    the value [a]. *)
Definition ignore_failure {A} (a : A) (m : M A) : M A := λ w,
  match m w with
  | (Fail, w') => (Ret a, w')
  | r => r
  end.

(** Routines that update an object in place keep the update when they fail. *)
Definition SM (S A : Type) : Type := S → world → (outcome A * S) * world.

#[export] Instance SM_ret {S} : MRet (SM S) := λ A a s w, ((Ret a, s), w).

#[export] Instance SM_bind {S} : MBind (SM S) := λ A B f m s w,
  match m s w with
  | ((Ret a, s'), w') => f a s' w'
  | ((Fail, s'), w') => ((Fail, s'), w')
  | ((Undef, s'), w') => ((Undef, s'), w')
  end.

Definition lift {S A} (m : M A) : SM S A := λ s w,
  let '(o, w') := m w in ((o, s), w').

Definition get {S} : SM S S := λ s w, ((Ret s, s), w).
Definition put {S} (s : S) : SM S unit := λ _ w, ((Ret tt, s), w).

(** Run an updating routine on an object and keep only its result, as a
    caller does that owns the object and frees it. *)
Definition run_on {S A} (s : S) (m : SM S A) : M (A * S) := λ w,
  match m s w with
  | ((Ret a, s'), w') => (Ret (a, s'), w')
  | ((Fail, _), w') => (Fail, w')
  | ((Undef, _), w') => (Undef, w')
  end.

(** Run a routine on a part of an object. *)
Definition zoom {S T A} (view : S → T) (update : T → S → S) (m : SM T A) : SM S A := λ s w,
  let '((o, t), w') := m (view s) w in ((o, update t s), w').

(** Walk along a linked list with a routine that updates each node in place;
    the walk stops at the first node where it fails. *)
Fixpoint walk_list {S A} (body : A → SM S A) (l : list S) (acc : A) (w : world)
    : (outcome A * list S) * world :=
  match l with
  | [] => ((Ret acc, []), w)
  | s :: l =>
    match body acc s w with
    | ((Ret acc, s'), w') =>
      let '((o, l'), w'') := walk_list body l acc w' in ((o, s' :: l'), w'')
    | ((Fail, s'), w') => ((Fail, s' :: l), w')
    | ((Undef, s'), w') => ((Undef, s' :: l), w')
    end
  end.

Definition for_each {S A} (body : A → SM S A) (acc : A) : SM (list S) A := λ l w,
  walk_list body l acc w.

(** ** Specifications of routines

    [plenty w]: the allocator grants every request from [w] on.
    [spec Inv m Q E]: from a state with memory whose caches satisfy [Inv], [m]
    meets no undefined behaviour; it returns a value in [Q] and leaves [errno]
    alone, or fails with an [errno] in [E] ([None]: [errno] is left alone);
    the caches satisfy [Inv] again. *)

Definition plenty (w : world) : Prop := ∀ i, alloc_ok w i = true.

Definition spec (Inv : statics → Prop) {A} (m : M A) (Q : A → Prop)
    (E : option errno_t → Prop) : Prop :=
  ∀ w, plenty w → Inv (globals w) →
  match m w with
  | (Ret a, w') => Q a ∧ errno w' = errno w ∧ plenty w' ∧ Inv (globals w')
  | (Fail, w') => (∃ e, E e ∧ errno w' = match e with Some _ => e | None => errno w end)
                  ∧ plenty w' ∧ Inv (globals w')
  | (Undef, _) => False
  end.

(** No failure: with memory available the routine returns. *)
Definition no_failure (e : option errno_t) : Prop := False.
Abbreviation returns Inv m Q := (spec Inv m Q no_failure).

Definition refused (w w' : world) : Prop :=
  ∃ i, (allocs w ≤ i < allocs w')%nat ∧ alloc_ok w i = false.

(** [honest m]: a refused allocation makes [m] fail with [ENOMEM]. *)
Definition honest {A} (m : M A) : Prop :=
  ∀ w, let '(r, w') := m w in
  (allocs w ≤ allocs w')%nat ∧ alloc_ok w' = alloc_ok w ∧
  (refused w w' → r = Undef ∨ (r = Fail ∧ errno w' = Some ENOMEM)).

Section spec_rules.
Context {Inv : statics → Prop}.

Lemma spec_ret {A} (a : A) (Q : A → Prop) E : Q a → spec Inv (mret a) Q E.
Proof. intros HQ w Hp HI. by repeat split. Qed.

Lemma spec_bind {A B} (m : M A) (f : A → M B) (P : A → Prop) Q E :
  spec Inv m P E → (∀ a, P a → spec Inv (f a) Q E) → spec Inv (m ≫= f) Q E.
Proof.
  intros Hm Hf w Hp HI. specialize (Hm w Hp HI).
  unfold mbind, M_bind. destruct (m w) as [[a| |] w'].
  - destruct Hm as (HP & He & Hp' & HI'). specialize (Hf a HP w' Hp' HI').
    destruct (f a w') as [[b| |] w'']; rewrite <- ?He; naive_solver.
  - done.
  - done.
Qed.

Lemma spec_ret_bind {A B} (a : A) (f : A → M B) (Q : B → Prop) E :
  spec Inv (f a) Q E → spec Inv (mret a ≫= f) Q E.
Proof. done. Qed.

Lemma spec_mono {A} (m : M A) (P Q : A → Prop) (E E' : option errno_t → Prop) :
  spec Inv m P E → (∀ a, P a → Q a) → (∀ e, E e → E' e) → spec Inv m Q E'.
Proof.
  intros Hm HQ HE w Hp HI. specialize (Hm w Hp HI).
  destruct (m w) as [[a| |] w']; [|destruct Hm as [(e & ? & ?) ?]|done]; eauto 10.
  destruct Hm as (? & ? & ?). auto.
Qed.

Lemma spec_malloc n Q E : 0 ≤ n → Q tt → spec Inv (malloc n) Q E.
Proof.
  intros Hn HQ w Hp HI. unfold malloc. rewrite Hp.
  destruct (Z.leb_spec 0 n); [|lia]. by repeat split.
Qed.

Lemma spec_try_malloc n Q E : 0 ≤ n → Q true → spec Inv (try_malloc n) Q E.
Proof.
  intros Hn HQ w Hp HI. unfold try_malloc, malloc. rewrite Hp.
  destruct (Z.leb_spec 0 n); [|lia]. by repeat split.
Qed.

Lemma spec_raise {A} (e : errno_t) (Q : A → Prop) (E : option errno_t → Prop) :
  E (Some e) → spec Inv (raise e) Q E.
Proof. intros HE w Hp HI. simpl. eauto. Qed.

Lemma spec_fail {A} (Q : A → Prop) (E : option errno_t → Prop) :
  E None → spec Inv fail Q E.
Proof. intros HE w Hp HI. simpl. eauto. Qed.

Lemma spec_liftO {A} (o : outcome A) a (Q : A → Prop) E :
  o = Ret a → Q a → spec Inv (liftO o) Q E.
Proof. intros -> HQ w Hp HI. by repeat split. Qed.

Lemma spec_get_globals {A} (f : statics → M A) (Q : A → Prop) E :
  (∀ g, Inv g → spec Inv (f g) Q E) → spec Inv (get_globals ≫= f) Q E.
Proof. intros H w Hp HI. by apply (H (globals w) HI w). Qed.

Lemma spec_put_globals g (Q : unit → Prop) E : Inv g → Q tt → spec Inv (put_globals g) Q E.
Proof. intros Hg HQ w Hp HI. by repeat split. Qed.

Lemma spec_ignore_failure {A} (a : A) (m : M A) (Q : A → Prop) E :
  returns Inv m Q → spec Inv (ignore_failure a m) Q E.
Proof.
  intros H w Hp HI. specialize (H w Hp HI). unfold ignore_failure.
  destruct (m w) as [[x| |] w']; [done| |done]. by destruct H as [(? & [] & _) _].
Qed.

(** A loop with an invariant indexed by the iterations done so far. *)
Lemma spec_foldM {A S} (f : A → S → M S) (I : list A → S → Prop) l s E :
  I [] s →
  (∀ l1 x l2 s, l = l1 ++ x :: l2 → I l1 s → spec Inv (f x s) (I (l1 ++ [x])) E) →
  spec Inv (foldM f l s) (I l) E.
Proof.
  intros H0 Hstep.
  assert (Hgen : ∀ l2 l1 s, l = l1 ++ l2 → I l1 s → spec Inv (foldM f l2 s) (I l) E).
  { induction l2 as [|x l2 IH]; intros l1 t -> HI; simpl.
    - rewrite app_nil_r in *. by apply spec_ret.
    - eapply spec_bind; [by eapply Hstep|]. intros t' Ht'.
      apply (IH (l1 ++ [x])); [by rewrite <- app_assoc|done]. }
  by apply (Hgen l [] s).
Qed.

Lemma spec_for_range {S} (I : Z → S → Prop) lo hi (f : Z → S → M S) s E :
  lo ≤ hi → I lo s →
  (∀ i s, lo ≤ i < hi → I i s → spec Inv (f i s) (I (i + 1)) E) →
  spec Inv (for_range lo hi f s) (I hi) E.
Proof.
  intros Hle H0 Hstep. unfold for_range. rewrite range_seqZ.
  eapply spec_mono with (P := λ s, I (lo + Z.of_nat (length (seqZ lo (hi - lo)))) s); [|..|done].
  - apply (spec_foldM f (λ l s, I (lo + Z.of_nat (length l)) s)); [by rewrite Z.add_0_r|].
    intros l1 x l2 t Hl HI.
    assert (Hx : seqZ lo (hi - lo) !! length l1 = Some x).
    { rewrite Hl, lookup_app_r, Nat.sub_diag by lia. done. }
    apply lookup_seqZ in Hx as [-> Hx]. rewrite length_app. simpl.
    replace (lo + Z.of_nat (length l1 + 1)) with (lo + Z.of_nat (length l1) + 1) by lia.
    apply Hstep; [lia|done].
  - intros t. rewrite length_seqZ. by replace (lo + Z.of_nat (Z.to_nat (hi - lo))) with hi by lia.
Qed.

(** What a returning routine computes from a concrete state. *)
Lemma returns_run {A} (m : M A) (Q : A → Prop) w :
  returns Inv m Q → plenty w → Inv (globals w) →
  ∃ a w', m w = (Ret a, w') ∧ Q a ∧ errno w' = errno w ∧ plenty w' ∧ Inv (globals w').
Proof.
  intros H Hp HI. specialize (H w Hp HI).
  destruct (m w) as [[a| |] w']; [by eauto 10| |done].
  destruct H as [(e & [] & _) _].
Qed.
End spec_rules.

(** The same judgement for a routine that updates an object in place: [Q]
    relates the result and the object, [E] a failure and the object. *)
Definition sm_spec (Inv : statics → Prop) {S A} (m : SM S A) (s : S) (Q : A → S → Prop)
    (E : option errno_t → S → Prop) : Prop :=
  ∀ w, plenty w → Inv (globals w) →
  match m s w with
  | ((Ret a, s'), w') => Q a s' ∧ errno w' = errno w ∧ plenty w' ∧ Inv (globals w')
  | ((Fail, s'), w') =>
    (∃ e, E e s' ∧ errno w' = match e with Some _ => e | None => errno w end)
    ∧ plenty w' ∧ Inv (globals w')
  | ((Undef, _), _) => False
  end.

Section sm_rules.
Context {Inv : statics → Prop} {S : Type}.

Lemma sm_ret {A} (a : A) s (Q : A → S → Prop) E : Q a s → sm_spec Inv (mret a) s Q E.
Proof. intros HQ w Hp HI. by repeat split. Qed.

Lemma sm_bind {A B} (m : SM S A) (f : A → SM S B) s (P : A → S → Prop) Q E :
  sm_spec Inv m s P E → (∀ a s', P a s' → sm_spec Inv (f a) s' Q E) →
  sm_spec Inv (m ≫= f) s Q E.
Proof.
  intros Hm Hf w Hp HI. specialize (Hm w Hp HI). unfold mbind, SM_bind.
  destruct (m s w) as [[[a| |] s'] w'].
  - destruct Hm as (HP & He & Hp' & HI'). specialize (Hf a s' HP w' Hp' HI').
    destruct (f a s' w') as [[[b| |] s''] w'']; rewrite <- ?He; naive_solver.
  - done.
  - done.
Qed.

Lemma sm_get_bind {A} (f : S → SM S A) s (Q : A → S → Prop) E :
  sm_spec Inv (f s) s Q E → sm_spec Inv (get ≫= f) s Q E.
Proof. done. Qed.

Lemma sm_put s s' (Q : unit → S → Prop) E : Q tt s' → sm_spec Inv (put s') s Q E.
Proof. intros HQ w Hp HI. by repeat split. Qed.

Lemma sm_put_bind {A} (f : unit → SM S A) s s' (Q : A → S → Prop) E :
  sm_spec Inv (f tt) s' Q E → sm_spec Inv (put s' ≫= f) s Q E.
Proof. done. Qed.

Lemma sm_lift {A} (m : M A) s (Q : A → S → Prop) (E : option errno_t → S → Prop) :
  spec Inv m (λ a, Q a s) (λ e, E e s) → sm_spec Inv (lift m) s Q E.
Proof.
  intros Hm w Hp HI. specialize (Hm w Hp HI). unfold lift.
  by destruct (m w) as [[a| |] w'].
Qed.

Lemma sm_lift_bind {A B} (m : M A) (f : A → SM S B) s (P : A → Prop) Q
    (E : option errno_t → S → Prop) :
  spec Inv m P (λ e, E e s) → (∀ a, P a → sm_spec Inv (f a) s Q E) →
  sm_spec Inv (lift m ≫= f) s Q E.
Proof.
  intros Hm Hf. apply (sm_bind _ _ _ (λ a s', P a ∧ s' = s)).
  - apply sm_lift. eapply spec_mono; [exact Hm|by split|done].
  - intros a s' [HP ->]. by apply Hf.
Qed.

Lemma sm_lift_lift {A B} (m : M A) (f : A → M B) s (Q : B → S → Prop)
    (E : option errno_t → S → Prop) :
  spec Inv (m ≫= f) (λ b, Q b s) (λ e, E e s) → sm_spec Inv (lift m ≫= λ a, lift (f a)) s Q E.
Proof.
  intros H w Hp HI. specialize (H w Hp HI).
  unfold mbind, SM_bind, M_bind, lift in *. destruct (m w) as [[a| |] w']; [|done|done].
  by destruct (f a w') as [[b| |] w''].
Qed.

Lemma sm_mono {A} (m : SM S A) s (P Q : A → S → Prop) (E E' : option errno_t → S → Prop) :
  sm_spec Inv m s P E → (∀ a s, P a s → Q a s) → (∀ e s, E e s → E' e s) →
  sm_spec Inv m s Q E'.
Proof.
  intros Hm HQ HE w Hp HI. specialize (Hm w Hp HI).
  destruct (m s w) as [[[a| |] s'] w']; [|destruct Hm as [(e & ? & ?) ?]|done]; eauto 10.
  destruct Hm as (? & ? & ?). auto.
Qed.

Lemma spec_run_on {A} (m : SM S A) s (Q : A → S → Prop) (E : option errno_t → S → Prop) E' :
  sm_spec Inv m s Q E → (∀ e s, E e s → E' e) →
  spec Inv (run_on s m) (λ r, Q r.1 r.2) E'.
Proof.
  intros Hm HE w Hp HI. specialize (Hm w Hp HI). unfold run_on.
  destruct (m s w) as [[[a| |] s'] w']; [done| |done].
  destruct Hm as [(e & ? & ?) ?]. eauto.
Qed.

Lemma sm_zoom {T A} (view : S → T) (update : T → S → S) (m : SM T A) s
    (Q : A → S → Prop) (E : option errno_t → S → Prop) :
  sm_spec Inv m (view s) (λ a t, Q a (update t s)) (λ e t, E e (update t s)) →
  sm_spec Inv (zoom view update m) s Q E.
Proof.
  intros Hm w Hp HI. specialize (Hm w Hp HI). unfold zoom.
  by destruct (m (view s) w) as [[[a| |] t] w'].
Qed.

(** A walk whose body, where it succeeds, gives the result [step acc s] and
    the new node [upd s]; [R] relates a node and what a failure makes of it. *)
Lemma sm_for_each {A} (body : A → SM S A) acc l (step : A → S → A) (upd : S → S)
    (Eb : option errno_t → Prop) (R : S → S → Prop) :
  (∀ s, R s s) → (∀ s, s ∈ l → R s (upd s)) →
  (∀ acc s, s ∈ l → sm_spec Inv (body acc) s (λ a s', a = step acc s ∧ s' = upd s)
                      (λ e s', Eb e ∧ R s s')) →
  sm_spec Inv (for_each body acc) l
    (λ a l', a = foldl step acc l ∧ l' = upd <$> l) (λ e l', Eb e ∧ Forall2 R l l').
Proof.
  unfold for_each. intros Hrefl Hupd Hb. revert acc.
  induction l as [|s l IH]; intros acc w Hp HI; cbn [walk_list]; [by repeat split|].
  pose proof (Hb acc s ltac:(left) w Hp HI) as Hs.
  assert (Hall : Forall2 R l l) by (clear -Hrefl; induction l; constructor; auto).
  destruct (body acc s w) as [[[a| |] s'] w']; [| |done].
  - destruct Hs as ([-> ->] & He & Hp' & HI').
    specialize (IH ltac:(intros; apply Hupd; by right) ltac:(intros; apply Hb; by right)
      (step acc s) w' Hp' HI').
    destruct (walk_list body l (step acc s) w') as [[[a| |] l'] w'']; [| |done].
    + destruct IH as ([-> ->] & He' & ?). split; [done|]. split; [congruence|done].
    + destruct IH as [(e & [HE HR] & He') ?]. split; [|done]. exists e. split.
      * split; [done|]. constructor; [apply Hupd; left|done].
      * rewrite He'. by destruct e.
  - destruct Hs as [(e & [HE HR] & He) ?]. split; [|done]. exists e. split; [|done].
    split; [done|]. by constructor.
Qed.

(** The general rule: [J d d' acc] relates the nodes that are done, what has
    become of them, and the result so far. *)
Lemma sm_walk {A} (body : A → SM S A) (J : list S → list S → A → Prop)
    (Eb : option errno_t → Prop) acc l :
  (∀ d d' acc s r, l = d ++ s :: r → J d d' acc →
    sm_spec Inv (body acc) s (λ a s', J (d ++ [s]) (d' ++ [s']) a) (λ e _, Eb e)) →
  J [] [] acc →
  sm_spec Inv (for_each body acc) l (λ a l', J l l' a) (λ e _, Eb e).
Proof.
  intros Hb. unfold for_each.
  enough (H : ∀ r d d' acc, l = d ++ r → J d d' acc →
    sm_spec Inv (λ r w, walk_list body r acc w) r (λ a r', J l (d' ++ r') a) (λ e _, Eb e))
    by by apply (H l [] []).
  induction r as [|s r IH]; intros d d' acc0 El HJ w Hp HI; cbn [walk_list].
  { rewrite app_nil_r in *. subst d. by repeat split. }
  pose proof (Hb d d' acc0 s r El HJ w Hp HI) as Hs.
  destruct (body acc0 s w) as [[[a| |] s'] w']; [| |done].
  - destruct Hs as (HJ' & He & Hp' & HI').
    specialize (IH (d ++ [s]) (d' ++ [s']) a ltac:(by rewrite <- app_assoc) HJ' w' Hp' HI').
    destruct (walk_list body r a w') as [[[a'| |] r'] w'']; [| |done].
    + rewrite <- app_assoc in IH. destruct IH as (? & He' & ?). split; [done|].
      split; [congruence|done].
    + destruct IH as [(e & HE & He') ?]. split; [|done]. exists e. split; [done|].
      rewrite He'. by destruct e.
  - done.
Qed.
End sm_rules.

Section honest_rules.
Lemma honest_ret {A} (a : A) : honest (mret a).
Proof. intros w. cbn. repeat split; [lia|]. intros (i & Hi & _). lia. Qed.

Lemma honest_fail {A} : honest (@fail A).
Proof. intros w. cbn. repeat split; [lia|]. intros (i & Hi & _). lia. Qed.

Lemma honest_raise {A} e : honest (@raise A e).
Proof. intros w. cbn. repeat split; [lia|]. intros (i & Hi & _). simpl in Hi. lia. Qed.

Lemma honest_liftO {A} (o : outcome A) : honest (liftO o).
Proof. intros w. cbn. repeat split; [lia|]. intros (i & Hi & _). lia. Qed.

Lemma honest_get : honest get_globals.
Proof. intros w. cbn. repeat split; [lia|]. intros (i & Hi & _). lia. Qed.

Lemma honest_put g : honest (put_globals g).
Proof. intros w. cbn. repeat split; [lia|]. intros (i & Hi & _). simpl in Hi. lia. Qed.

Lemma honest_malloc n : honest (malloc n).
Proof.
  intros w. unfold malloc. destruct (0 <=? n); cbn.
  - destruct (alloc_ok w (allocs w)) eqn:E; cbn; (repeat split; [lia|]); [|by auto].
    intros (i & Hi & Hr). simpl in Hi. replace i with (allocs w) in Hr by lia. congruence.
  - repeat split; [lia|]. auto.
Qed.

Lemma honest_bind {A B} (m : M A) (f : A → M B) :
  honest m → (∀ a, honest (f a)) → honest (m ≫= f).
Proof.
  intros Hm Hf w. specialize (Hm w). unfold mbind, M_bind.
  destruct (m w) as [[a| |] w']; destruct Hm as (Hle & Ho & Hr).
  - specialize (Hf a w'). destruct (f a w') as [r w'']. destruct Hf as (Hle' & Ho' & Hr').
    split; [lia|]. split; [congruence|]. intros (i & Hi & Hf').
    destruct (decide (i < allocs w')%nat) as [Hlt|Hge].
    + destruct Hr as [?|[? _]]; [exists i; split; [lia|done]|done|done].
    + apply Hr'. exists i. split; [lia|]. by rewrite Ho.
  - split; [lia|]. split; [done|]. intros H. right. destruct (Hr H) as [?|[_ ?]]; done.
  - split; [lia|]. split; [done|]. intros _. by left.
Qed.

Lemma honest_foldM {A S} (f : A → S → M S) l s :
  (∀ x s, honest (f x s)) → honest (foldM f l s).
Proof.
  intros Hf. revert s. induction l as [|x l IH]; intros s; simpl.
  - apply honest_ret.
  - apply honest_bind; auto.
Qed.
End honest_rules.

#[export] Hint Resolve honest_ret honest_fail honest_raise honest_liftO honest_malloc : qr.
#[export] Hint Resolve honest_get honest_put : qr.
#[export] Hint Resolve honest_bind honest_foldM : qr.

(** Structural proof that a routine reports every refused allocation. *)
Ltac solve_honest :=
  intros; repeat (first
    [ progress intros
    | solve [eauto with qr]
    | apply honest_bind | apply honest_foldM
    | match goal with |- honest (match ?x with _ => _ end) => destruct x end ]).
