(* ===== verification/BitStream.v ===== *)
(** * Bit streams (bitstream.c)

    A bit stream is a length and a buffer with one byte, 0 or 1, per bit.
    The routines append numbers (most significant bit first), bytes and other
    streams, and pack a stream into bytes. *)

From S2P Require Import Prelude CModel.

(** ** Data and operations *)

Record BitStream := MkBitStream { blen : Z; bdata : list Z }.

#[export] Instance BitStream_eq_dec : EqDecision BitStream.
Proof. solve_decision. Defined.

Definition sizeof_BitStream : Z := 16.

Definition BitStream_new : M BitStream :=
  _ ← malloc sizeof_BitStream;
  mret (MkBitStream 0 []).

(** The cells of the fresh buffer are unspecified in C; the callers write
    every one of them before it is read. *)
Definition BitStream_allocate (bstream : BitStream) (length : Z) : M BitStream :=
  _ ← malloc length;
  mret (MkBitStream length (replicate (Z.to_nat length) 0)).

Definition BitStream_newFromNum (bits num : Z) : M BitStream :=
  bstream ← BitStream_new;
  bstream ← BitStream_allocate bstream bits;
  if 32 <? bits then undef (* 1 << (bits - 1) overflows *)
  else
    let mask := u32 (Z.shiftl 1 (bits - 1)) in
    let '(data, _) := for_pure 0 bits (λ i '(p, mask),
        let p := <[Z.to_nat i := if truth (Z.land num mask) then 1 else 0]> p in
        (p, Z.shiftr mask 1)) (bdata bstream, mask) in
    mret (MkBitStream (blen bstream) data).

Definition BitStream_newFromBytes (size : Z) (data : list Z) : M BitStream :=
  bstream ← BitStream_new;
  bstream ← BitStream_allocate bstream (size * 8);
  '(p, _) ← liftO (for_range 0 size (λ i '(p, k),
      d ← readZ data i;
      let '(p, k, _) := for_pure 0 8 (λ j '(p, k, mask),
          (<[Z.to_nat k := if truth (Z.land d mask) then 1 else 0]> p,
           k + 1, Z.shiftr mask 1)) (p, k, 0x80) in
      mret (p, k)) (bdata bstream, 0));
  mret (MkBitStream (blen bstream) p).

(** [arg] is [None] for a [NULL] pointer. *)
Definition BitStream_append (bstream : BitStream) (arg : option BitStream) : M BitStream :=
  match arg with
  | None => fail
  | Some arg =>
    if blen arg =? 0 then mret bstream
    else if blen bstream =? 0 then
      bstream ← BitStream_allocate bstream (blen arg);
      mret (MkBitStream (blen bstream) (bdata arg))
    else
      _ ← malloc (blen bstream + blen arg);
      mret (MkBitStream (blen bstream + blen arg) (bdata bstream ++ bdata arg))
  end.

Definition BitStream_appendNum (bstream : BitStream) (bits num : Z) : M BitStream :=
  if bits =? 0 then mret bstream
  else
    b ← BitStream_newFromNum bits num;
    BitStream_append bstream (Some b).

Definition BitStream_appendBytes (bstream : BitStream) (size : Z) (data : list Z)
    : M BitStream :=
  if size =? 0 then mret bstream
  else
    b ← BitStream_newFromBytes size data;
    BitStream_append bstream (Some b).

(** The macro [BitStream_size]. *)
Definition BitStream_size (bstream : BitStream) : Z := blen bstream.

(** One byte of the packed stream: [count] bits from position [p] on. *)
Definition pack_byte (bits : list Z) (count p : Z) : outcome (Z * Z) :=
  for_range 0 count (λ j '(v, p),
    b ← readZ bits p;
    mret (Z.lor (u8 (Z.shiftl v 1)) b, p + 1)) (0, p).

Definition BitStream_toByte (bstream : BitStream) : M (list Z) :=
  let size := BitStream_size bstream in
  if size =? 0 then fail
  else
    _ ← malloc ((size + 7) `div` 8);
    let bytes := size `div` 8 in
    '(data, p) ← liftO (for_range 0 bytes (λ i '(data, p),
        '(v, p) ← pack_byte (bdata bstream) 8 p;
        mret (data ++ [v], p)) ([], 0));
    if truth (Z.land size 7) then
      '(v, _) ← liftO (pack_byte (bdata bstream) (Z.land size 7) p);
      mret (data ++ [v])
    else mret data.

(** ** Well-formed streams and reference definitions *)

Definition bs_wf (b : BitStream) : Prop :=
  blen b = Z.of_nat (length (bdata b)) ∧ Forall is_bit (bdata b).

(** The stream that holds the given bits. *)
Definition bs_of (l : list Z) : BitStream := MkBitStream (Z.of_nat (length l)) l.

(** Bytes as bits, most significant bit first, and bits as bytes; a last
    incomplete group of bits is right aligned in its byte. *)
Definition bytes_to_bits (l : list Z) : list Z := l ≫= to_bits 8.

Definition bits_to_bytes (l : list Z) : list Z :=
  (λ i, of_bits (take 8 (drop (8 * i) l))) <$> seq 0 (Nat.div (length l + 7) 8).

(** ** Lemmas *)

Lemma bs_of_wf l : Forall is_bit l → bs_wf (bs_of l).
Proof. by split. Qed.

Lemma bs_wf_of b : bs_wf b → b = bs_of (bdata b).
Proof. intros [H _]. destruct b; simpl in *. unfold bs_of. congruence. Qed.

Lemma bytes_to_bits_cons x l : bytes_to_bits (x :: l) = to_bits 8 x ++ bytes_to_bits l.
Proof. done. Qed.

Lemma bytes_to_bits_app l1 l2 :
  bytes_to_bits (l1 ++ l2) = bytes_to_bits l1 ++ bytes_to_bits l2.
Proof. unfold bytes_to_bits. apply bind_app. Qed.

Lemma length_bytes_to_bits l : length (bytes_to_bits l) = (8 * length l)%nat.
Proof.
  unfold bytes_to_bits. induction l as [|x l IH]; [done|].
  cbn [mbind list_bind]. rewrite length_app, length_to_bits, IH. simpl. lia.
Qed.

Lemma bytes_to_bits_bits l : Forall is_bit (bytes_to_bits l).
Proof.
  unfold bytes_to_bits. induction l as [|x l IH]; [constructor|].
  cbn [mbind list_bind]. apply Forall_app. auto with qr.
Qed.

Lemma lookup_bytes_to_bits l i j d :
  l !! i = Some d → (j < 8)%nat →
  bytes_to_bits l !! (8 * i + j)%nat = Some (b2z (Z.testbit d (Z.of_nat (7 - j)))).
Proof.
  unfold bytes_to_bits. revert i. induction l as [|x l IH]; intros i Hl Hj; [done|].
  cbn [mbind list_bind]. destruct i as [|i]; simpl in Hl.
  - injection Hl as ->. rewrite lookup_app_l by (rewrite length_to_bits; lia).
    rewrite lookup_to_bits by lia. do 3 f_equal; lia.
  - rewrite lookup_app_r by (rewrite length_to_bits; lia).
    rewrite length_to_bits. rewrite <- (IH i) by done. f_equal. lia.
Qed.

#[export] Hint Resolve bs_of_wf bytes_to_bits_bits : qr.
#[export] Hint Rewrite length_bytes_to_bits : qr_simpl.

Section specs.
Context {Inv : statics → Prop}.

Lemma BitStream_new_spec E : spec Inv BitStream_new (λ b, b = bs_of []) E.
Proof.
  eapply spec_bind; [by apply (spec_malloc _ (λ _, True)); [done|]|].
  intros _ _. by apply spec_ret.
Qed.

Lemma BitStream_allocate_spec b n E :
  0 ≤ n →
  spec Inv (BitStream_allocate b n)
    (λ b', b' = MkBitStream n (replicate (Z.to_nat n) 0)) E.
Proof.
  intros Hn. eapply spec_bind; [by apply (spec_malloc _ (λ _, True))|].
  intros _ _. by apply spec_ret.
Qed.

(** The loop of [BitStream_newFromNum] writes the binary digits of [num]. *)
Lemma newFromNum_loop (n : nat) num :
  (0 < n)%nat →
  (for_pure 0 (Z.of_nat n) (λ i '(p, mask),
      (<[Z.to_nat i := if truth (Z.land num mask) then 1 else 0]> p, Z.shiftr mask 1))
    (replicate n 0, 2 ^ (Z.of_nat n - 1))).1 = to_bits n num.
Proof.
  intros Hn. pose proof (length_to_bits n num) as HL.
  set (f := λ (i : Z) '(p, mask), _).
  assert (H : ∀ r, r = for_pure 0 (Z.of_nat n) f (replicate n 0, 2 ^ (Z.of_nat n - 1)) →
    r.1 = take (Z.to_nat (Z.of_nat n)) (to_bits n num)
          ++ replicate (n - Z.to_nat (Z.of_nat n)) 0
    ∧ r.2 = Z.shiftr (2 ^ (Z.of_nat n - 1)) (Z.of_nat n)).
  { intros r ->. apply (for_pure_inv (λ i r,
      r.1 = take (Z.to_nat i) (to_bits n num) ++ replicate (n - Z.to_nat i) 0
      ∧ r.2 = Z.shiftr (2 ^ (Z.of_nat n - 1)) i)); [lia| |].
    { by rewrite Z.shiftr_0_r, Nat.sub_0_r. }
    intros i [p mask] Hi [Hp Hm]. simpl in *. subst. split.
    - replace (Z.to_nat (i + 1)) with (S (Z.to_nat i)) by lia.
      apply fill_step; [done|]. rewrite lookup_to_bits by lia.
      rewrite shiftr_pow2, truth_land_pow2 by lia.
      by replace (Z.of_nat n - 1 - i) with (Z.of_nat (n - 1 - Z.to_nat i)) by lia.
    - by rewrite Z.shiftr_shiftr by lia. }
  destruct (H _ eq_refl) as [-> _]. rewrite Nat2Z.id. by apply fill_done.
Qed.

Lemma BitStream_newFromNum_spec bits num E :
  0 < bits ≤ 32 →
  spec Inv (BitStream_newFromNum bits num)
    (λ b, b = bs_of (to_bits (Z.to_nat bits) num)) E.
Proof.
  intros Hb. eapply spec_bind; [apply BitStream_new_spec|]. intros b ->.
  eapply spec_bind; [apply BitStream_allocate_spec; lia|]. intros b ->.
  destruct (Z.ltb_spec 32 bits); [lia|]. cbn [bdata blen].
  pose proof (newFromNum_loop (Z.to_nat bits) num) as HL. rewrite Z2Nat.id in HL by lia.
  replace (u32 (Z.shiftl 1 (bits - 1))) with (2 ^ (bits - 1)).
  2:{ unfold u32. rewrite Z.shiftl_1_l, Z.mod_small; [done|].
      split; [lia|]. apply Z.pow_lt_mono_r; lia. }
  destruct (for_pure _ _ _ _) as [p m]. simpl in HL.
  apply spec_ret. rewrite HL by lia. unfold bs_of.
  rewrite length_to_bits. f_equal. lia.
Qed.

(** One byte of [BitStream_newFromBytes]. *)
Lemma newFromBytes_byte (L : list Z) (N k : nat) d :
  length L = N →
  (∀ j, (j < 8)%nat → L !! (k + j)%nat = Some (b2z (Z.testbit d (Z.of_nat (7 - j))))) →
  (for_pure 0 8 (λ (j : Z) '(p, k, mask),
      (<[Z.to_nat k := if truth (Z.land d mask) then 1 else 0]> p, k + 1, Z.shiftr mask 1))
    (take k L ++ replicate (N - k) 0, Z.of_nat k, 0x80)).1
  = (take (k + 8) L ++ replicate (N - (k + 8)) 0, Z.of_nat (k + 8)).
Proof.
  intros HN HL. set (f := λ (j : Z) '(p, k, mask), _).
  assert (H : ∀ r, r = for_pure 0 8 f
      (take k L ++ replicate (N - k) 0, Z.of_nat k, 0x80) →
    r.1 = (take (k + Z.to_nat 8) L ++ replicate (N - (k + Z.to_nat 8)) 0,
           Z.of_nat (k + Z.to_nat 8)) ∧ r.2 = Z.shiftr (2 ^ 7) 8).
  { intros r ->. apply (for_pure_inv (λ j r,
      r.1 = (take (k + Z.to_nat j) L ++ replicate (N - (k + Z.to_nat j)) 0,
             Z.of_nat (k + Z.to_nat j)) ∧ r.2 = Z.shiftr (2 ^ 7) j)); [lia| |].
    { by rewrite Nat.add_0_r. }
    intros j [[p k'] mask] Hj [Hp Hm]. simpl in *. simplify_eq.
    replace (k + Z.to_nat (j + 1))%nat with (S (k + Z.to_nat j)) by lia.
    split; [f_equal; [|lia]|by rewrite Z.shiftr_shiftr by lia].
    rewrite Nat2Z.id. apply fill_step; [done|].
    rewrite HL, shiftr_pow2, truth_land_pow2 by lia.
    by replace (7 - j) with (Z.of_nat (7 - Z.to_nat j)) by lia. }
  by destruct (H _ eq_refl) as [-> _].
Qed.

Lemma BitStream_newFromBytes_spec size data E :
  0 ≤ size ≤ Z.of_nat (length data) →
  spec Inv (BitStream_newFromBytes size data)
    (λ b, b = bs_of (bytes_to_bits (take (Z.to_nat size) data))) E.
Proof.
  intros Hs. eapply spec_bind; [apply BitStream_new_spec|]. intros b ->.
  eapply spec_bind; [apply BitStream_allocate_spec; lia|]. intros b ->. cbn [bdata blen].
  set (n := Z.to_nat size). set (L := bytes_to_bits (take n data)).
  assert (HL : length L = (8 * n)%nat).
  { subst L. rewrite length_bytes_to_bits, length_take. lia. }
  destruct (for_range_inv (λ i (r : list Z * Z),
      r = (take (8 * Z.to_nat i) L ++ replicate (8 * n - 8 * Z.to_nat i) 0,
           Z.of_nat (8 * Z.to_nat i))) 0 size (λ i '(p, k),
    d ← readZ data i;
    let '(p, k, _) := for_pure 0 8 (λ j '(p, k, mask),
        (<[Z.to_nat k := if truth (Z.land d mask) then 1 else 0]> p,
         k + 1, Z.shiftr mask 1)) (p, k, 0x80) in
    mret (p, k)) (replicate (Z.to_nat (size * 8)) 0, 0)) as (r & Er & Hr).
  - lia.
  - f_equal. simpl. f_equal. lia.
  - intros i r Hi ->. destruct (readZ_lt data i) as (d & Hd & ->); [lia|].
    cbn [mbind outcome_bind].
    pose proof (newFromBytes_byte L (8 * n) (8 * Z.to_nat i) d HL) as Hb.
    destruct (for_pure _ _ _ _) as [[p k] m]. simpl in Hb.
    eexists. split; [done|].
    replace (8 * Z.to_nat (i + 1))%nat with (8 * Z.to_nat i + 8)%nat by lia.
    apply Hb. intros j Hj. apply lookup_bytes_to_bits; [|done].
    by rewrite lookup_take_lt by lia.
  - eapply spec_bind; [by eapply (spec_liftO _ _ (λ x, x = r))|].
    intros [p k] Ep. rewrite Hr in Ep. injection Ep as -> ->.
    apply spec_ret. unfold bs_of. fold n. rewrite HL, fill_done by done. f_equal. lia.
Qed.

Lemma BitStream_append_spec (l1 l2 : list Z) E :
  spec Inv (BitStream_append (bs_of l1) (Some (bs_of l2))) (λ b, b = bs_of (l1 ++ l2)) E.
Proof.
  unfold BitStream_append, bs_of. cbn [blen bdata].
  destruct l2 as [|x l2]; [rewrite app_nil_r; by apply spec_ret|].
  destruct (Z.eqb_spec (Z.of_nat (length (x :: l2))) 0); [simpl in *; lia|].
  destruct l1 as [|y l1].
  - simpl. eapply spec_bind; [apply BitStream_allocate_spec; lia|].
    intros b ->. by apply spec_ret.
  - destruct (Z.eqb_spec (Z.of_nat (length (y :: l1))) 0); [simpl in *; lia|].
    eapply spec_bind; [by apply (spec_malloc _ (λ _, True)); [lia|]|].
    intros _ _. apply spec_ret. rewrite length_app. f_equal. lia.
Qed.

(** [BitStream_appendNum] appends the [bits] low-order binary digits. *)
Lemma BitStream_appendNum_spec l bits num E :
  0 ≤ bits ≤ 32 →
  spec Inv (BitStream_appendNum (bs_of l) bits num)
    (λ b, b = bs_of (l ++ to_bits (Z.to_nat bits) num)) E.
Proof.
  intros Hb. unfold BitStream_appendNum. destruct (Z.eqb_spec bits 0) as [->|?].
  { apply spec_ret. by rewrite app_nil_r. }
  eapply spec_bind; [apply BitStream_newFromNum_spec; lia|].
  intros b ->. apply BitStream_append_spec.
Qed.

Lemma BitStream_appendBytes_spec l size data E :
  0 ≤ size ≤ Z.of_nat (length data) →
  spec Inv (BitStream_appendBytes (bs_of l) size data)
    (λ b, b = bs_of (l ++ bytes_to_bits (take (Z.to_nat size) data))) E.
Proof.
  intros Hs. unfold BitStream_appendBytes. destruct (Z.eqb_spec size 0) as [->|?].
  { apply spec_ret. by rewrite app_nil_r. }
  eapply spec_bind; [by apply BitStream_newFromBytes_spec|].
  intros b ->. apply BitStream_append_spec.
Qed.
End specs.

(** ** Packing *)

Lemma pack_byte_spec l count p :
  Forall is_bit l → 0 ≤ count ≤ 8 → 0 ≤ p → p + count ≤ Z.of_nat (length l) →
  pack_byte l count p
  = Ret (of_bits (take (Z.to_nat count) (drop (Z.to_nat p) l)), p + count).
Proof.
  intros Hl Hc Hp Hlen. unfold pack_byte.
  destruct (for_range_inv (λ j (r : Z * Z),
      r = (of_bits (take (Z.to_nat j) (drop (Z.to_nat p) l)), p + j)) 0 count
    (λ j '(v, p), b ← readZ l p; mret (Z.lor (u8 (Z.shiftl v 1)) b, p + 1)) (0, p))
    as (r & -> & ->); [lia|by rewrite Z.add_0_r| |done].
  intros j r Hj ->. destruct (readZ_lt l (p + j)) as (b & Hb & ->); [lia|].
  cbn [mbind outcome_bind]. eexists. split; [done|].
  assert (Hb' : drop (Z.to_nat p) l !! Z.to_nat j = Some b).
  { rewrite lookup_drop, <- Hb. f_equal. lia. }
  assert (Hr : Forall is_bit (take (Z.to_nat j) (drop (Z.to_nat p) l))).
  { by apply Forall_take, Forall_drop. }
  pose proof (of_bits_range _ Hr) as Hv. rewrite length_take, length_drop in Hv.
  rewrite shift_in_bit.
  - replace (Z.to_nat (j + 1)) with (S (Z.to_nat j)) by lia.
    rewrite (take_S_r _ _ _ Hb'), of_bits_snoc. f_equal. lia.
  - split; [lia|]. eapply Z.lt_le_trans; [apply Hv|].
    change 128 with (2 ^ 7). apply Z.pow_le_mono_r; lia.
  - by eapply Forall_lookup_1 in Hb.
Qed.

Lemma bits_to_bytes_full l (n : nat) :
  length l = (8 * n)%nat →
  bits_to_bytes l = (λ i, of_bits (take 8 (drop (8 * i) l))) <$> seq 0 n.
Proof.
  intros Hl. unfold bits_to_bytes. do 2 f_equal.
  symmetry. apply Nat.div_unique with 7%nat; lia.
Qed.

Lemma bits_to_bytes_bytes l : Forall is_byte l → bits_to_bytes (bytes_to_bits l) = l.
Proof.
  intros Hl. rewrite (bits_to_bytes_full _ (length l)) by apply length_bytes_to_bits.
  induction Hl as [|x l Hx _ IH]; [done|].
  cbn [length seq]. rewrite <- seq_shift, fmap_cons, <- list_fmap_compose. f_equal.
  - rewrite drop_0, bytes_to_bits_cons.
    rewrite take_app_le, take_ge by (rewrite length_to_bits; lia).
    apply of_to_bits_small. done.
  - rewrite <- IH at 2. apply list_fmap_ext. intros _ i _. unfold compose.
    rewrite bytes_to_bits_cons, drop_app_ge by (rewrite length_to_bits; lia).
    rewrite length_to_bits. do 3 f_equal. lia.
Qed.

Lemma bytes_to_bits_pack l (n : nat) :
  Forall is_bit l → length l = (8 * n)%nat → bytes_to_bits (bits_to_bytes l) = l.
Proof.
  intros Hl Hn. rewrite (bits_to_bytes_full l n) by done.
  revert l Hl Hn. induction n as [|n IH]; intros l Hl Hn.
  { by destruct l. }
  cbn [seq]. rewrite <- seq_shift, fmap_cons, <- list_fmap_compose.
  rewrite bytes_to_bits_cons, drop_0.
  rewrite <- (take_drop 8 l) at 2. f_equal.
  - assert (E : length (take 8 l) = 8%nat) by (rewrite length_take; lia).
    rewrite <- E at 1. apply to_of_bits. by apply Forall_take.
  - rewrite <- (IH (drop 8 l));
      [|by apply Forall_drop|rewrite length_drop; lia].
    f_equal. apply list_fmap_ext. intros _ i _. unfold compose.
    rewrite drop_drop. do 3 f_equal. lia.
Qed.

(** The bits of a list of bytes, byte by byte. *)
Lemma range_bytes (l : list Z) :
  (range 0 (Z.of_nat (length l)) ≫= λ i, to_bits 8 (nthZ l i)) = bytes_to_bits l.
Proof.
  unfold bytes_to_bits. induction l as [|x l IH] using rev_ind; [done|].
  rewrite length_app. simpl length.
  replace (Z.of_nat (length l + 1)) with (Z.of_nat (length l) + 1) by lia.
  rewrite range_snoc, !bind_app by lia. f_equal.
  - rewrite <- IH. apply Forall_bind_ext, Forall_forall. intros i Hi%elem_of_range.
    f_equal. unfold nthZ. by rewrite !list_lookup_total_alt, lookup_app_l by lia.
  - cbn. unfold nthZ. rewrite Nat2Z.id, list_lookup_total_alt.
    by rewrite lookup_app_r, Nat.sub_diag by lia.
Qed.

Lemma bits_to_bytes_range l : Forall is_bit l → Forall is_byte (bits_to_bytes l).
Proof.
  intros Hl. unfold bits_to_bytes. apply Forall_fmap, Forall_forall. intros i _. unfold compose, is_byte.
  assert (Hr : Forall is_bit (take 8 (drop (8 * i) l))) by by apply Forall_take, Forall_drop.
  pose proof (of_bits_range _ Hr) as Hv. split; [lia|].
  eapply Z.lt_le_trans; [apply Hv|]. rewrite length_take.
  change 256 with (2 ^ 8). apply Z.pow_le_mono_r; lia.
Qed.

Section toByte.
Context {Inv : statics → Prop}.

(** [BitStream_toByte] packs the stream eight bits per byte. *)
Lemma BitStream_toByte_spec l E :
  Forall is_bit l → l ≠ [] →
  spec Inv (BitStream_toByte (bs_of l)) (λ d, d = bits_to_bytes l) E.
Proof.
  intros Hl Hne. unfold BitStream_toByte, BitStream_size. cbn [bs_of blen bdata].
  set (size := Z.of_nat (length l)).
  assert (Hpos : 0 < size) by (destruct l; [done|simpl in *; lia]).
  destruct (Z.eqb_spec size 0); [lia|].
  eapply spec_bind; [apply (spec_malloc _ (λ _, True)); [|done]|].
  { apply Z.div_pos; lia. }
  intros _ _. set (f := λ i : nat, of_bits (take 8 (drop (8 * i) l))).
  pose proof (Z.div_mod size 8 ltac:(lia)) as Hdm.
  pose proof (Z.mod_pos_bound size 8 ltac:(lia)) as Hmb.
  destruct (for_range_inv (λ i (r : list Z * Z), r = (f <$> seq 0 (Z.to_nat i), 8 * i))
    0 (size `div` 8) (λ i '(data, p),
      '(v, p) ← pack_byte l 8 p; mret (data ++ [v], p)) ([], 0))
    as (r & Er & Hr); [lia|done| |].
  { intros i r Hi ->. rewrite pack_byte_spec by (done || lia).
    cbn [mbind outcome_bind]. eexists. split; [done|].
    replace (Z.to_nat (i + 1)) with (S (Z.to_nat i)) by lia.
    rewrite seq_S, fmap_app. f_equal; [|lia]. f_equal. cbn. unfold f.
    do 5 f_equal. lia. }
  eapply spec_bind; [by eapply (spec_liftO _ _ (λ x, x = r))|].
  intros [d p] Ep. rewrite Hr in Ep. injection Ep as -> ->.
  change 7 with (Z.ones 3) at 1 2. rewrite Z.land_ones by lia. change (2 ^ 3) with 8.
  unfold bits_to_bytes, truth. fold f.
  assert (Hq : Nat.div (length l + 7) 8 = Z.to_nat ((size + 7) `div` 8)).
  { unfold size. rewrite <- (Nat2Z.id (Nat.div _ _)), Nat2Z.inj_div. f_equal. f_equal. lia. }
  rewrite Hq. destruct (Z.eqb_spec (size `mod` 8) 0) as [E0|E0]; simpl.
  - apply spec_ret. do 3 f_equal. apply Z.div_unique with 7; lia.
  - eapply spec_bind.
    { eapply (spec_liftO _ _ (λ x, x = (f (Z.to_nat (size `div` 8)), size))); [|done].
      rewrite pack_byte_spec by (done || lia). f_equal. f_equal; [|lia].
      unfold f. f_equal. rewrite (take_ge _ 8), take_ge.
      - f_equal. lia.
      - rewrite length_drop. lia.
      - rewrite length_drop. lia. }
    intros [v p] [= -> ->]. apply spec_ret.
    replace (Z.to_nat ((size + 7) `div` 8)) with (S (Z.to_nat (size `div` 8))).
    { by rewrite seq_S, fmap_app. }
    cut (size `div` 8 + 1 = (size + 7) `div` 8); [lia|].
    apply Z.div_unique with (size `mod` 8 - 1); lia.
Qed.
End toByte.

(** ** Allocation failures *)

Lemma BitStream_append_honest b arg : honest (BitStream_append b arg).
Proof. unfold BitStream_append, BitStream_allocate. solve_honest. Qed.

Lemma BitStream_appendNum_honest b bits num : honest (BitStream_appendNum b bits num).
Proof.
  unfold BitStream_appendNum, BitStream_newFromNum, BitStream_new, BitStream_allocate.
  pose proof BitStream_append_honest. solve_honest.
Qed.

Lemma BitStream_appendBytes_honest b size data : honest (BitStream_appendBytes b size data).
Proof.
  unfold BitStream_appendBytes, BitStream_newFromBytes, BitStream_new, BitStream_allocate.
  pose proof BitStream_append_honest. solve_honest.
Qed.

#[export] Hint Resolve BitStream_append_honest BitStream_appendNum_honest
  BitStream_appendBytes_honest : qr.
