(* ===== verification/RSCode.v ===== *)
(** * Reed-Solomon encoder (rscode.c)

    The control block with its Galois field tables and generator polynomial,
    the cache of control blocks, and the systematic encoder. *)

From S2P Require Import Prelude CModel.

(** ** Data and operations *)

(** [modnn]: reduction modulo [nn] without a division. The loop runs at most
    [x] times because every iteration decreases [x]. *)
Fixpoint modnn_loop (fuel : nat) (mm nn x : Z) : Z :=
  match fuel with
  | O => x
  | S fuel =>
    if nn <=? x then
      let x := x - nn in
      modnn_loop fuel mm nn (Z.shiftr x mm + Z.land x nn)
    else x
  end.

Definition modnn (mm nn x : Z) : Z := modnn_loop (Z.to_nat x) mm nn x.

(** The field tables: [index_of] and [alpha_to] have [nn + 1] entries; the
    result carries the shift register after the last iteration. *)
Definition init_tables (symsize nn gfpoly : Z) : list Z * list Z * Z :=
  let index_of := <[Z.to_nat 0 := nn]> (replicate (Z.to_nat (nn + 1)) 0) in
  let alpha_to := <[Z.to_nat nn := 0]> (replicate (Z.to_nat (nn + 1)) 0) in
  for_pure 0 nn (λ i '(index_of, alpha_to, sr),
    let index_of := <[Z.to_nat sr := i]> index_of in
    let alpha_to := <[Z.to_nat i := sr]> alpha_to in
    let sr := Z.shiftl sr 1 in
    let sr := if truth (Z.land sr (Z.shiftl 1 symsize)) then Z.lxor sr gfpoly else sr in
    (index_of, alpha_to, Z.land sr nn)) (index_of, alpha_to, 1).

(** [for(iprim=1; (iprim % prim) != 0; iprim += nn);] The remainders repeat
    after [prim] steps, so a search longer than that never ends. *)
Fixpoint find_iprim (fuel : nat) (prim nn iprim : Z) : outcome Z :=
  match fuel with
  | O => Undef
  | S fuel =>
    if iprim `mod` prim =? 0 then Ret iprim else find_iprim fuel prim nn (iprim + nn)
  end.

(** One step of the product: multiply [genpoly], of degree [i], by
    [x + alpha^root]. *)
Definition genpoly_step (mm nn : Z) (alpha_to index_of : list Z) (i root : Z)
    (genpoly : list Z) : list Z :=
  let genpoly := <[Z.to_nat (i + 1) := 1]> genpoly in
  let genpoly := foldl (λ g j,
      if negb (nthZ g j =? 0) then
        <[Z.to_nat j := Z.lxor (nthZ g (j - 1))
            (nthZ alpha_to (modnn mm nn (nthZ index_of (nthZ g j) + root)))]> g
      else <[Z.to_nat j := nthZ g (j - 1)]> g) genpoly (reverse (seqZ 1 i)) in
  <[Z.to_nat 0 := nthZ alpha_to (modnn mm nn (nthZ index_of (nthZ genpoly 0) + root))]> genpoly.

Definition make_genpoly (mm nn : Z) (alpha_to index_of : list Z) (fcr prim nroots : Z)
    : list Z :=
  let genpoly := <[Z.to_nat 0 := 1]> (replicate (Z.to_nat (nroots + 1)) 0) in
  (for_pure 0 nroots (λ i '(genpoly, root),
      (genpoly_step mm nn alpha_to index_of i root genpoly, root + prim))
    (genpoly, fcr * prim)).1.

Definition sizeof_RS : Z := 88.

Definition init_rs_char (symsize gfpoly fcr prim nroots pad : Z) : M RS :=
  if (symsize <? 0) || (8 <? symsize) then fail
  else if (fcr <? 0) || (Z.shiftl 1 symsize <=? fcr) then fail
  else if (prim <=? 0) || (Z.shiftl 1 symsize <=? prim) then fail
  else if (nroots <? 0) || (Z.shiftl 1 symsize <=? nroots) then fail
  else if (pad <? 0) || (Z.shiftl 1 symsize - 1 - nroots <=? pad) then fail
  else
    _ ← malloc sizeof_RS;
    let nn := Z.shiftl 1 symsize - 1 in
    _ ← malloc (nn + 1);
    _ ← malloc (nn + 1);
    let '(index_of, alpha_to, sr) := init_tables symsize nn gfpoly in
    if negb (sr =? 1) then fail (* the field polynomial is not primitive *)
    else
      _ ← malloc (nroots + 1);
      iprim ← liftO (find_iprim (Z.to_nat prim) prim nn 1);
      let genpoly := make_genpoly symsize nn alpha_to index_of fcr prim nroots in
      (* index form *)
      let genpoly := (λ g, nthZ index_of g) <$> genpoly in
      mret (MkRS symsize nn alpha_to index_of genpoly nroots fcr prim
              (iprim `div` prim) pad gfpoly).

Definition rs_matches (symsize gfpoly fcr prim nroots pad : Z) (rs : RS) : bool :=
  (rs_pad rs =? pad) && (rs_nroots rs =? nroots) && (rs_mm rs =? symsize)
  && (rs_gfpoly rs =? gfpoly) && (rs_fcr rs =? fcr) && (rs_prim rs =? prim).

Definition init_rs (symsize gfpoly fcr prim nroots pad : Z) : M RS :=
  g ← get_globals;
  match filter (λ rs, rs_matches symsize gfpoly fcr prim nroots pad rs = true) (rslist g) with
  | rs :: _ => mret rs
  | [] =>
    rs ← init_rs_char symsize gfpoly fcr prim nroots pad;
    _ ← put_globals (Statics (rs :: rslist g) (qr_frames g) (mqr_frames g));
    mret rs
  end.

Definition free_rs_cache : M unit :=
  g ← get_globals;
  put_globals (Statics [] (qr_frames g) (mqr_frames g)).

(** One data symbol of the encoder: the feedback term, the taps, the shift. *)
Definition encode_step (rs : RS) (d : Z) (parity : list Z) : list Z :=
  let nn := rs_nn rs in
  let nroots := rs_nroots rs in
  let MODNN := modnn (rs_mm rs) nn in
  let feedback := nthZ (rs_index_of rs) (Z.lxor d (nthZ parity 0)) in
  let parity :=
    if negb (feedback =? nn) then
      for_pure 1 nroots (λ j parity,
        <[Z.to_nat j := Z.lxor (nthZ parity j)
            (nthZ (rs_alpha_to rs)
               (MODNN (feedback + nthZ (rs_genpoly rs) (nroots - j))))]> parity) parity
    else parity in
  (* memmove(&parity[0], &parity[1], nroots - 1) *)
  let parity := drop 1 parity ++ drop (Z.to_nat nroots - 1) parity in
  <[Z.to_nat (nroots - 1) :=
      if negb (feedback =? nn)
      then nthZ (rs_alpha_to rs) (MODNN (feedback + nthZ (rs_genpoly rs) 0))
      else 0]> parity.

(** [encode_rs_char] writes the parity symbols of [data]. *)
Definition encode_rs_char (rs : RS) (data : list Z) : outcome (list Z) :=
  for_range 0 (rs_nn rs - rs_nroots rs - rs_pad rs) (λ i parity,
    d ← readZ data i;
    if rs_nroots rs <=? 0 then Undef (* parity[0] of an empty buffer *)
    else mret (encode_step rs d parity)) (replicate (Z.to_nat (rs_nroots rs)) 0).
