(* ===== verification/RSTheory.v ===== *)
(** * Correctness of the Reed-Solomon encoder

    The field GF(256) with the polynomial x^8+x^4+x^3+x^2+1 that the library
    uses, the meaning of the lookup tables built by [init_rs_char], and the
    theorem that [encode_rs_char] produces code words: every root of the
    generator polynomial is a root of data and parity together. *)

From S2P Require Import Prelude CModel RSCode.

(** ** The field *)

(** Multiplication by the primitive element. *)
Definition xt (a : Z) : Z :=
  Z.lxor (Z.shiftl a 1) (if Z.testbit a 7 then 0x11d else 0).

Definition qr_tables : list Z * list Z * Z := Eval vm_compute in init_tables 8 255 0x11d.
Definition gf_log : list Z := qr_tables.1.1.
Definition gf_exp : list Z := qr_tables.1.2.

Definition logN (a : Z) : nat := Z.to_nat (nthZ gf_log a).

(** The product of two field elements: [a] is a power of the primitive element. *)
Definition gf_mul (a b : Z) : Z := if a =? 0 then 0 else Nat.iter (logN a) xt b.

(** [alpha_pow i] is the [i]-th power of the primitive element. *)
Definition alpha_pow (i : nat) : Z := Nat.iter i xt 1.

(** Value at the point [x] of the polynomial whose coefficients are listed
    from the leading one. *)
Definition poly_eval (l : list Z) (x : Z) : Z :=
  foldl (λ acc c, Z.lxor (gf_mul x acc) c) 0 l.

(** ** Lemmas on the field *)

Lemma lxor_byte a b : is_byte a → is_byte b → is_byte (Z.lxor a b).
Proof.
  unfold is_byte. intros Ha Hb. split; [by apply Z.lxor_nonneg; lia|].
  destruct (decide (Z.lxor a b = 0)) as [->|Hne]; [lia|].
  assert (Hnn : 0 ≤ Z.lxor a b) by (apply Z.lxor_nonneg; lia).
  change 256 with (2 ^ 8). apply Z.log2_lt_pow2; [lia|].
  eapply Z.le_lt_trans; [apply Z.log2_lxor; lia|].
  apply Z.max_lub_lt.
  - destruct (decide (a = 0)) as [->|]; [done|]. apply Z.log2_lt_pow2; lia.
  - destruct (decide (b = 0)) as [->|]; [done|]. apply Z.log2_lt_pow2; lia.
Qed.

Lemma byte_forall (p : Z → bool) :
  all_range 0 256 p = true → ∀ a, is_byte a → p a = true.
Proof. intros H a Ha. eapply all_range_spec; [done|]. exact Ha. Qed.

Lemma xt_byte a : is_byte a → is_byte (xt a).
Proof.
  intros Ha. apply (bool_decide_eq_true (is_byte (xt a))). revert a Ha.
  apply (byte_forall (λ a, bool_decide (is_byte (xt a)))). by vm_compute.
Qed.

Lemma xt_lxor a b : xt (Z.lxor a b) = Z.lxor (xt a) (xt b).
Proof.
  unfold xt. rewrite Z.lxor_spec, Z.shiftl_lxor.
  apply Z.bits_inj'. intros n Hn. rewrite !Z.lxor_spec.
  destruct (Z.testbit a 7), (Z.testbit b 7); simpl; rewrite ?Z.bits_0;
    destruct (Z.testbit (Z.shiftl a 1) n), (Z.testbit (Z.shiftl b 1) n);
    try destruct (Z.testbit 285 n); done.
Qed.

Lemma xt_0 : xt 0 = 0.
Proof. done. Qed.

Lemma iter_xt_lxor n a b :
  Nat.iter n xt (Z.lxor a b) = Z.lxor (Nat.iter n xt a) (Nat.iter n xt b).
Proof. induction n as [|n IH]; [done|]. simpl. by rewrite IH, xt_lxor. Qed.

Lemma iter_xt_0 n : Nat.iter n xt 0 = 0.
Proof. induction n as [|n IH]; [done|]. simpl. by rewrite IH. Qed.

Lemma iter_xt_byte n a : is_byte a → is_byte (Nat.iter n xt a).
Proof. intros Ha. induction n; simpl; auto using xt_byte. Qed.

Lemma iter_xt_add m n a : Nat.iter (m + n) xt a = Nat.iter m xt (Nat.iter n xt a).
Proof. apply Nat.iter_add. Qed.

(** The tables of the library are the logarithms and powers of the field. *)
Lemma gf_exp_log a : is_byte a → a ≠ 0 → alpha_pow (logN a) = a ∧ (logN a < 255)%nat.
Proof.
  intros Ha Hne.
  assert (H : (a =? 0) || ((alpha_pow (logN a) =? a) && (logN a <? 255)%nat) = true).
  { revert a Ha Hne. intros a Ha _. revert a Ha. apply byte_forall. by vm_compute. }
  destruct (Z.eqb_spec a 0); [done|]. apply andb_true_iff in H as [H1 H2].
  apply Z.eqb_eq in H1. apply Nat.ltb_lt in H2. done.
Qed.

Lemma alpha_period : alpha_pow 255 = 1.
Proof. by vm_compute. Qed.

(** The primitive element has order 255, so exponents count modulo 255. *)
Lemma iter_xt_period a : is_byte a → Nat.iter 255 xt a = a.
Proof.
  intros Ha. destruct (decide (a = 0)) as [->|Hne]; [apply iter_xt_0|].
  destruct (gf_exp_log a Ha Hne) as [E _]. rewrite <- E. unfold alpha_pow.
  rewrite <- Nat.iter_add, Nat.add_comm, Nat.iter_add.
  by rewrite (alpha_period : Nat.iter 255 xt 1 = 1).
Qed.

Lemma iter_xt_mod n a : is_byte a → Nat.iter n xt a = Nat.iter (n mod 255) xt a.
Proof.
  intros Ha. transitivity (Nat.iter (255 * (n / 255) + n mod 255)%nat xt a).
  { f_equal. apply Nat.div_mod_eq. }
  generalize (n / 255)%nat as q, (n mod 255)%nat as r. intros q r.
  induction q as [|q IH]; [by rewrite Nat.mul_0_r|].
  replace (255 * S q + r)%nat with ((255 * q + r) + 255)%nat by lia.
  by rewrite Nat.iter_add, iter_xt_period.
Qed.

Lemma gf_mul_0_l b : gf_mul 0 b = 0.
Proof. done. Qed.

Lemma gf_mul_0_r a : gf_mul a 0 = 0.
Proof. unfold gf_mul. destruct (a =? 0); [done|]. apply iter_xt_0. Qed.

Lemma gf_mul_lxor_r a b c : gf_mul a (Z.lxor b c) = Z.lxor (gf_mul a b) (gf_mul a c).
Proof. unfold gf_mul. destruct (a =? 0); [done|]. apply iter_xt_lxor. Qed.

Lemma gf_mul_byte a b : is_byte b → is_byte (gf_mul a b).
Proof. intros Hb. unfold gf_mul. destruct (a =? 0); [done|]. by apply iter_xt_byte. Qed.

Lemma gf_mul_swap a b c : gf_mul a (gf_mul b c) = gf_mul b (gf_mul a c).
Proof.
  unfold gf_mul. destruct (a =? 0), (b =? 0); rewrite ?iter_xt_0; try done.
  rewrite <- !Nat.iter_add. by rewrite Nat.add_comm.
Qed.

Lemma gf_mul_1_r a : is_byte a → gf_mul a 1 = a.
Proof.
  intros Ha. unfold gf_mul. destruct (Z.eqb_spec a 0) as [->|Hne]; [done|].
  by apply gf_exp_log.
Qed.

Lemma gf_mul_comm a b : is_byte a → is_byte b → gf_mul a b = gf_mul b a.
Proof.
  intros Ha Hb. rewrite <- (gf_mul_1_r b Hb) at 1. rewrite gf_mul_swap.
  by rewrite gf_mul_1_r.
Qed.

Lemma gf_mul_assoc a b c :
  is_byte a → is_byte b → is_byte c → gf_mul a (gf_mul b c) = gf_mul (gf_mul a b) c.
Proof.
  intros Ha Hb Hc. rewrite (gf_mul_comm (gf_mul a b) c) by auto using gf_mul_byte.
  rewrite (gf_mul_comm b c) by done. apply gf_mul_swap.
Qed.

#[export] Hint Resolve lxor_byte xt_byte iter_xt_byte gf_mul_byte : qr.
#[export] Hint Rewrite gf_mul_0_l gf_mul_0_r gf_mul_lxor_r : qr_simpl.

(** ** Reduction modulo [nn] *)

Lemma modnn_loop_spec fuel mm x :
  0 < mm → 0 ≤ x ≤ Z.of_nat fuel →
  modnn_loop fuel mm (2 ^ mm - 1) x = x `mod` (2 ^ mm - 1).
Proof.
  intros Hmm. assert (Hp : 2 ≤ 2 ^ mm).
  { change 2 with (2 ^ 1) at 1. apply Z.pow_le_mono_r; lia. }
  revert x. induction fuel as [|fuel IH]; intros x Hx; cbn [modnn_loop].
  { replace x with 0 by lia. by rewrite Zmod_0_l. }
  destruct (Z.leb_spec (2 ^ mm - 1) x) as [Hle|Hlt]; [|by rewrite Z.mod_small by lia].
  set (y := x - (2 ^ mm - 1)).
  rewrite Z.shiftr_div_pow2 by lia.
  replace (Z.land y (2 ^ mm - 1)) with (y `mod` 2 ^ mm).
  2:{ rewrite <- Z.land_ones by lia. f_equal. by rewrite Z.ones_equiv, Z.sub_1_r. }
  pose proof (Z.div_mod y (2 ^ mm) ltac:(lia)) as Hdm.
  pose proof (Z.mod_pos_bound y (2 ^ mm) ltac:(lia)).
  pose proof (Z.div_pos y (2 ^ mm) ltac:(lia) ltac:(lia)).
  rewrite IH by (subst y; nia).
  rewrite <- (Z_mod_plus_full _ (y `div` 2 ^ mm + 1)). f_equal. subst y. nia.
Qed.

Lemma modnn_255 x : 0 ≤ x → modnn 8 255 x = x `mod` 255.
Proof. intros Hx. apply (modnn_loop_spec _ 8); lia. Qed.

(** ** The lookup tables *)

Lemma gf_exp_pow x : 0 ≤ x → nthZ gf_exp (modnn 8 255 x) = alpha_pow (Z.to_nat x).
Proof.
  intros Hx. rewrite modnn_255 by done.
  unfold alpha_pow. rewrite (iter_xt_mod (Z.to_nat x)) by done.
  replace (Z.to_nat x mod 255)%nat with (Z.to_nat (x `mod` 255)).
  2:{ rewrite Z2Nat.inj_mod by lia. done. }
  pose proof (Z.mod_pos_bound x 255 ltac:(lia)) as Hb.
  apply Z.eqb_eq. revert Hb. generalize (x `mod` 255). apply all_range_spec.
  by vm_compute.
Qed.

Lemma gf_log_nonneg a : is_byte a → 0 ≤ nthZ gf_log a.
Proof.
  intros Ha. apply Z.leb_le. revert a Ha. apply byte_forall. by vm_compute.
Qed.

Lemma gf_log_zero a : is_byte a → nthZ gf_log a = 255 ↔ a = 0.
Proof.
  intros Ha.
  assert (H : eqb (nthZ gf_log a =? 255) (a =? 0) = true).
  { revert a Ha. apply byte_forall. by vm_compute. }
  apply eqb_prop in H. rewrite <- !Z.eqb_eq, H. done.
Qed.

(** A tap of the encoder: adding logarithms multiplies. *)
Lemma gf_tap a b :
  is_byte a → is_byte b → a ≠ 0 → b ≠ 0 →
  nthZ gf_exp (modnn 8 255 (nthZ gf_log a + nthZ gf_log b)) = gf_mul a b.
Proof.
  intros Ha Hb Ha0 Hb0. pose proof (gf_log_nonneg a Ha). pose proof (gf_log_nonneg b Hb).
  rewrite gf_exp_pow by lia. unfold gf_mul. destruct (Z.eqb_spec a 0); [done|].
  rewrite Z2Nat.inj_add by done. unfold alpha_pow. rewrite Nat.iter_add.
  f_equal. by apply gf_exp_log.
Qed.

(** ** Polynomials *)

Lemma poly_eval_snoc l c x : poly_eval (l ++ [c]) x = Z.lxor (gf_mul x (poly_eval l x)) c.
Proof. unfold poly_eval. by rewrite foldl_app. Qed.

Lemma poly_eval_app l1 l2 x :
  poly_eval (l1 ++ l2) x
  = Z.lxor (Nat.iter (length l2) (gf_mul x) (poly_eval l1 x)) (poly_eval l2 x).
Proof.
  induction l2 as [|c l2 IH] using rev_ind.
  { rewrite app_nil_r. simpl. by rewrite Z.lxor_0_r. }
  rewrite app_assoc, !poly_eval_snoc, IH, length_app, gf_mul_lxor_r.
  rewrite Nat.add_1_r. simpl. by rewrite Z.lxor_assoc.
Qed.

Lemma iter_mul_lxor n x a b :
  Nat.iter n (gf_mul x) (Z.lxor a b)
  = Z.lxor (Nat.iter n (gf_mul x) a) (Nat.iter n (gf_mul x) b).
Proof. induction n as [|n IH]; [done|]. simpl. by rewrite IH, gf_mul_lxor_r. Qed.

Lemma iter_mul_swap n x a b :
  gf_mul a (Nat.iter n (gf_mul x) b) = Nat.iter n (gf_mul x) (gf_mul a b).
Proof. induction n as [|n IH]; [done|]. simpl. by rewrite gf_mul_swap, IH. Qed.

Lemma poly_eval_zip l1 l2 x :
  length l1 = length l2 →
  poly_eval (zip_with Z.lxor l1 l2) x = Z.lxor (poly_eval l1 x) (poly_eval l2 x).
Proof.
  revert l2. induction l1 as [|a l1 IH] using rev_ind; intros l2 Hl.
  { by destruct l2. }
  destruct l2 as [|b l2 _] using rev_ind; [rewrite length_app in Hl; simpl in Hl; lia|].
  rewrite !length_app in Hl. simpl in Hl.
  rewrite zip_with_app by lia. simpl. rewrite !poly_eval_snoc, IH by lia.
  rewrite gf_mul_lxor_r. xor_cancel.
Qed.

Lemma poly_eval_scale c l x : poly_eval (gf_mul c <$> l) x = gf_mul c (poly_eval l x).
Proof.
  induction l as [|a l IH] using rev_ind; [by rewrite gf_mul_0_r|].
  rewrite fmap_app. simpl. rewrite !poly_eval_snoc, IH, gf_mul_lxor_r. f_equal.
  apply gf_mul_swap.
Qed.

Lemma poly_eval_cons c l x :
  poly_eval (c :: l) x = Z.lxor (Nat.iter (length l) (gf_mul x) c) (poly_eval l x).
Proof.
  change (c :: l) with ([c] ++ l). rewrite poly_eval_app. do 2 f_equal.
  unfold poly_eval. simpl. by rewrite gf_mul_0_r, Z.lxor_0_l.
Qed.

(** ** The encoder as division by the generator polynomial *)

(** [G] lists the coefficients of a monic polynomial of degree [n] from the
    constant one on, none of them zero. *)
Definition monic (n : nat) (G : list Z) : Prop :=
  length G = S n ∧ G !! n = Some 1 ∧ Forall (λ g, is_byte g ∧ g ≠ 0) G.

(** One step of the division register. *)
Definition lfsr_step (n : nat) (G : list Z) (d : Z) (r : list Z) : list Z :=
  zip_with Z.lxor (drop 1 r ++ [0])
    (gf_mul (Z.lxor d (nthZ r 0)) <$> reverse (take n G)).

Definition rs_for (n : nat) (pad : Z) (G : list Z) (rs : RS) : Prop :=
  rs_mm rs = 8 ∧ rs_nn rs = 255 ∧ rs_alpha_to rs = gf_exp ∧ rs_index_of rs = gf_log ∧
  rs_genpoly rs = nthZ gf_log <$> G ∧ rs_nroots rs = Z.of_nat n ∧ rs_pad rs = pad.

Lemma length_lfsr_step n G d r :
  monic n G → length r = n → (0 < n)%nat → length (lfsr_step n G d r) = n.
Proof.
  intros (HG & _ & _) Hr Hn. unfold lfsr_step.
  rewrite length_zip_with, length_app, length_drop, length_fmap, length_reverse, length_take.
  simpl. lia.
Qed.

Lemma lookup_lfsr_step n G d r j :
  monic n G → length r = n → (j < n)%nat →
  lfsr_step n G d r !! j
  = Some (Z.lxor (default 0 (r !! S j)) (gf_mul (Z.lxor d (nthZ r 0)) (nthZ G (Z.of_nat (n - 1 - j))))).
Proof.
  intros (HG & _ & _) Hr Hj. unfold lfsr_step. rewrite lookup_zip_with.
  assert (E1 : (drop 1 r ++ [0]) !! j = Some (default 0 (r !! S j))).
  { destruct (decide (S j < n)%nat).
    - rewrite lookup_app_l by (rewrite length_drop; lia). rewrite lookup_drop. simpl.
      destruct (r !! S j) eqn:E; [done|]. apply lookup_ge_None in E. lia.
    - rewrite lookup_app_r by (rewrite length_drop; lia). rewrite length_drop.
      replace (j - (length r - 1))%nat with 0%nat by lia.
      by rewrite (lookup_ge_None_2 r) by lia. }
  rewrite E1. simpl. rewrite list_lookup_fmap, reverse_lookup by (rewrite length_take; lia).
  rewrite length_take, lookup_take_lt by lia.
  destruct (lookup_lt_is_Some_2 G (n `min` length G - S j)%nat) as [g Hg]; [lia|].
  rewrite Hg. simpl. do 3 f_equal. symmetry. apply nthZ_lookup. rewrite <- Hg. f_equal. lia.
Qed.

(** The taps of the encoder: cell [k] receives the product of the feedback
    and of the coefficient [n - k]. *)
Definition taps (n : nat) (L : list Z) (f : Z) (r : list Z) : list Z :=
  for_pure 1 (Z.of_nat n) (λ j parity,
    <[Z.to_nat j := Z.lxor (nthZ parity j)
        (nthZ gf_exp (modnn 8 255 (f + nthZ L (Z.of_nat n - j))))]> parity) r.

Lemma length_taps n L f r : (0 < n)%nat → length (taps n L f r) = length r.
Proof.
  intros Hn. apply (for_pure_inv (λ _ p, length p = length r)); [lia|done|].
  intros i p _ Hp. by rewrite length_insert.
Qed.

Lemma lookup_taps n L f r k :
  (0 < k < n)%nat →
  taps n L f r !! k
  = (λ v, Z.lxor v (nthZ gf_exp (modnn 8 255 (f + nthZ L (Z.of_nat (n - k)))))) <$> r !! k.
Proof.
  intros Hk. unfold taps.
  rewrite (for_pure_update 1 (Z.of_nat n)
    (λ j v, Z.lxor v (nthZ gf_exp (modnn 8 255 (f + nthZ L (Z.of_nat n - j)))))) by lia.
  rewrite decide_True by lia.
  by replace (Z.of_nat n - Z.of_nat k) with (Z.of_nat (n - k)) by lia.
Qed.

Lemma encode_step_unfold n pad G rs d r :
  rs_for n pad G rs →
  encode_step rs d r =
  let f := nthZ gf_log (Z.lxor d (nthZ r 0)) in
  let L := nthZ gf_log <$> G in
  let p := if negb (f =? 255) then taps n L f r else r in
  <[(n - 1)%nat := if negb (f =? 255) then nthZ gf_exp (modnn 8 255 (f + nthZ L 0)) else 0]>
    (drop 1 p ++ drop (n - 1) p).
Proof.
  intros (Hmm & Hnn & Ha & Hi & Hg & Hnr & _). unfold encode_step.
  rewrite Hmm, Hnn, Ha, Hi, Hg, Hnr.
  rewrite Nat2Z.id. by replace (Z.to_nat (Z.of_nat n - 1)) with (n - 1)%nat by lia.
Qed.

(** The product of a non-zero feedback and a coefficient, in logarithms. *)
Lemma tap_product n G fb k :
  monic n G → is_byte fb → fb ≠ 0 → (k ≤ n)%nat →
  nthZ gf_exp (modnn 8 255 (nthZ gf_log fb + nthZ (nthZ gf_log <$> G) (Z.of_nat k)))
  = gf_mul fb (nthZ G (Z.of_nat k)).
Proof.
  intros (HG & _ & HF) Hfb Hne Hk.
  destruct (lookup_lt_is_Some_2 G k) as [g Hgk]; [lia|].
  rewrite (nthZ_lookup G (Z.of_nat k) g) by (by rewrite Nat2Z.id).
  rewrite (nthZ_lookup _ (Z.of_nat k) (nthZ gf_log g))
    by (by rewrite Nat2Z.id, list_lookup_fmap, Hgk).
  destruct (Forall_lookup_1 _ _ _ _ HF Hgk) as [? ?]. by apply gf_tap.
Qed.

(** The library's encoder step is that division step. *)
Lemma encode_step_lfsr n pad G rs d r :
  rs_for n pad G rs → monic n G → length r = n → (0 < n)%nat →
  is_byte d → Forall is_byte r → encode_step rs d r = lfsr_step n G d r.
Proof.
  intros Hrs Hmon Hr Hn Hd Hrb. rewrite (encode_step_unfold n pad G) by done. cbv zeta.
  set (fb := Z.lxor d (nthZ r 0)).
  assert (Hfb : is_byte fb).
  { apply lxor_byte; [done|]. destruct r as [|x r']; [simpl in *; lia|]. by inversion Hrb. }
  apply list_eq_same_length with n; [by apply length_lfsr_step| |].
  { rewrite length_insert, length_app, !length_drop.
    destruct (negb _); rewrite ?length_taps by done; lia. }
  intros j x y Hj Hx Hy. rewrite lookup_lfsr_step in Hy by done. injection Hy as <-.
  revert Hx. fold fb. destruct (Z.eqb_spec (nthZ gf_log fb) 255) as [E0|E0]; cbn [negb].
  - apply gf_log_zero in E0; [|done]. rewrite E0, gf_mul_0_l, Z.lxor_0_r.
    destruct (decide (j = n - 1)%nat) as [->|Hne].
    + rewrite list_lookup_insert_eq by (rewrite length_app, !length_drop; lia).
      rewrite (lookup_ge_None_2 r) by lia. simpl. congruence.
    + rewrite list_lookup_insert_ne by lia.
      rewrite lookup_app_l by (rewrite length_drop; lia). rewrite lookup_drop. by simpl; intros ->.
  - assert (Hfb0 : fb ≠ 0) by (intros Hz; apply E0; by apply gf_log_zero).
    destruct (decide (j = n - 1)%nat) as [->|Hne].
    + rewrite list_lookup_insert_eq
        by (rewrite length_app, !length_drop, length_taps by done; lia).
      rewrite (lookup_ge_None_2 r) by lia. simpl default. rewrite Z.lxor_0_l.
      change 0 with (Z.of_nat 0). rewrite (tap_product n G fb 0) by (done || lia).
      replace (n - 1 - (n - 1))%nat with 0%nat by lia. congruence.
    + rewrite list_lookup_insert_ne by lia.
      rewrite lookup_app_l by (rewrite length_drop, length_taps by done; lia).
      rewrite lookup_drop, lookup_taps by lia.
      change (1 + j)%nat with (S j). destruct (r !! S j) as [v|]; simpl; [|done].
      intros [= <-]. f_equal. rewrite (tap_product n) by (done || lia). do 3 f_equal. lia.
Qed.

Lemma lfsr_step_bytes n G d r :
  monic n G → is_byte d → Forall is_byte r → length r = n → (0 < n)%nat →
  Forall is_byte (lfsr_step n G d r).
Proof.
  intros Hmon Hd Hr Hl Hn. apply Forall_lookup. intros j x Hx.
  assert (Hj : (j < n)%nat).
  { apply lookup_lt_Some in Hx. by rewrite (length_lfsr_step n) in Hx. }
  rewrite lookup_lfsr_step in Hx by done. injection Hx as <-.
  destruct Hmon as (HG & _ & HF).
  apply lxor_byte.
  - destruct (r !! S j) eqn:E; [|done]. by eapply Forall_lookup_1 in E.
  - apply gf_mul_byte. destruct (lookup_lt_is_Some_2 G (n - 1 - j)%nat) as [g Hg]; [lia|].
    rewrite (nthZ_lookup _ _ g) by (by rewrite Nat2Z.id).
    by destruct (Forall_lookup_1 _ _ _ _ HF Hg).
Qed.

(** The generator without its leading term takes the value [x^n] at a root. *)
Lemma monic_tail_eval n G x :
  monic n G → poly_eval (reverse G) x = 0 →
  poly_eval (reverse (take n G)) x = Nat.iter n (gf_mul x) 1.
Proof.
  intros (HG & H1 & _) H0.
  rewrite <- (take_drop n G), reverse_app in H0.
  assert (E : drop n G = [1]).
  { apply list_eq. intros i. rewrite lookup_drop. destruct i as [|i].
    - by rewrite Nat.add_0_r.
    - simpl. apply lookup_ge_None. lia. }
  rewrite E in H0. simpl in H0. rewrite poly_eval_cons, length_reverse, length_take in H0.
  replace (n `min` length G)%nat with n in H0 by lia.
  by apply Z.lxor_eq in H0.
Qed.

Lemma lfsr_step_eval n G d r x :
  monic n G → poly_eval (reverse G) x = 0 → length r = n → (0 < n)%nat →
  is_byte d → Forall is_byte r →
  poly_eval (lfsr_step n G d r) x
  = Z.lxor (gf_mul x (poly_eval r x)) (Nat.iter n (gf_mul x) d).
Proof.
  intros Hmon H0 Hr Hn Hd Hrb. destruct r as [|r0 r]; [simpl in *; lia|].
  unfold lfsr_step. change (drop 1 (r0 :: r)) with r. change (nthZ (r0 :: r) 0) with r0.
  assert (Hr0 : is_byte r0) by (by inversion Hrb).
  rewrite poly_eval_zip.
  2:{ destruct Hmon as (HG & _). rewrite length_app, length_fmap, length_reverse, length_take.
      simpl in *. lia. }
  rewrite poly_eval_scale, (monic_tail_eval n G) by done.
  rewrite iter_mul_swap, gf_mul_1_r by (by apply lxor_byte).
  rewrite poly_eval_snoc, poly_eval_cons, gf_mul_lxor_r, iter_mul_lxor, Z.lxor_0_r.
  simpl in Hr. rewrite <- Hr. simpl. xor_cancel.
Qed.

(** ** Code words *)

(** The encoder keeps data and register together a multiple of the generator. *)
Lemma encode_invariant n pad G rs data :
  rs_for n pad G rs → monic n G → (0 < n)%nat → Forall is_byte data →
  Z.of_nat (length data) = 255 - Z.of_nat n - pad →
  ∃ parity, encode_rs_char rs data = Ret parity ∧ length parity = n ∧
    Forall is_byte parity ∧
    ∀ x, poly_eval (reverse G) x = 0 → poly_eval (data ++ parity) x = 0.
Proof.
  intros Hrs Hmon Hn Hd Hlen. pose proof Hrs as (Hmm & Hnn & _ & _ & _ & Hnr & Hpad).
  unfold encode_rs_char. rewrite Hnn, Hnr, Hpad, Nat2Z.id.
  destruct (for_range_inv (λ i p, length p = n ∧ Forall is_byte p ∧
      ∀ x, poly_eval (reverse G) x = 0 → poly_eval (take (Z.to_nat i) data ++ p) x = 0)
    0 (255 - Z.of_nat n - pad) (λ i parity, d ← readZ data i;
      if Z.of_nat n <=? 0 then Undef else mret (encode_step rs d parity)) (replicate n 0))
    as (p & Ep & H1 & H2 & H3); [lia| | |].
  - split; [apply length_replicate|]. split; [by apply Forall_replicate|].
    intros x _. simpl. clear. induction n as [|n IH]; [done|].
    rewrite replicate_S_end, poly_eval_snoc, IH. by rewrite gf_mul_0_r.
  - intros i p Hi (H1 & H2 & H3). destruct (readZ_lt data i) as (d & Hdi & ->); [lia|].
    cbn [mbind outcome_bind]. destruct (Z.leb_spec (Z.of_nat n) 0); [lia|].
    assert (Hdb : is_byte d) by (by eapply Forall_lookup_1 in Hdi).
    eexists. split; [done|]. rewrite (encode_step_lfsr n pad G) by done.
    split; [by apply length_lfsr_step|]. split; [by apply lfsr_step_bytes|].
    intros x Hx. specialize (H3 x Hx).
    replace (Z.to_nat (i + 1)) with (S (Z.to_nat i)) by lia.
    rewrite (take_S_r _ _ _ Hdi), poly_eval_app, poly_eval_snoc, (length_lfsr_step n) by done.
    rewrite (lfsr_step_eval n) by done.
    rewrite poly_eval_app, H1 in H3. apply Z.lxor_eq in H3. rewrite <- H3.
    rewrite iter_mul_lxor, iter_mul_swap. xor_cancel.
  - exists p. split; [done|]. split; [done|]. split; [done|]. intros x Hx.
    specialize (H3 x Hx). rewrite take_ge in H3 by lia. done.
Qed.

(** ** The control blocks of the library *)

(** The generator polynomial of [n] roots in polynomial form. *)
Definition genpoly_of (n : Z) : list Z := make_genpoly 8 255 gf_exp gf_log 0 1 n.

(** Largest number of parity symbols per block that the QR code tables use. *)
Definition RS_NROOTS_MAX : Z := 30.

Definition generator_ok (n : nat) (G : list Z) : bool :=
  (length G =? S n)%nat
  && bool_decide (G !! n = Some 1)
  && forallb (λ g, (0 <? g) && (g <? 256)) G
  && forallb (λ i, poly_eval (reverse G) (alpha_pow i) =? 0) (seq 0 n).

Definition genpoly_ok (n : Z) : bool := generator_ok (Z.to_nat n) (genpoly_of n).

Lemma genpoly_all : all_range 1 31 genpoly_ok = true.
Proof. by vm_compute. Qed.

Lemma genpoly_monic n : 1 ≤ n ≤ RS_NROOTS_MAX → monic (Z.to_nat n) (genpoly_of n).
Proof.
  intros Hn. pose proof (all_range_spec _ _ _ genpoly_all n) as H.
  unfold RS_NROOTS_MAX in Hn. specialize (H ltac:(lia)). unfold genpoly_ok, generator_ok in H.
  rewrite !andb_true_iff in H. destruct H as [[[H1 H2] H3] _].
  apply Nat.eqb_eq in H1. apply bool_decide_eq_true in H2. split; [done|]. split; [done|].
  apply Forall_forall. intros g Hg. rewrite forallb_forall in H3.
  apply list_elem_of_In, H3 in Hg. unfold is_byte. lia.
Qed.

Lemma genpoly_roots n i :
  1 ≤ n ≤ RS_NROOTS_MAX → (i < Z.to_nat n)%nat →
  poly_eval (reverse (genpoly_of n)) (alpha_pow i) = 0.
Proof.
  intros Hn Hi. pose proof (all_range_spec _ _ _ genpoly_all n) as H.
  unfold RS_NROOTS_MAX in Hn. specialize (H ltac:(lia)). unfold genpoly_ok, generator_ok in H.
  rewrite !andb_true_iff in H. destruct H as [_ H]. rewrite forallb_forall in H.
  apply Z.eqb_eq, H, in_seq. lia.
Qed.

(** The control block that [init_rs_char] builds for QR code blocks. *)
Definition qr_rs (nroots pad : Z) : RS :=
  MkRS 8 255 gf_exp gf_log (nthZ gf_log <$> genpoly_of nroots) nroots 0 1 1 pad 0x11d.

Lemma qr_rs_for n pad : 1 ≤ n → rs_for (Z.to_nat n) pad (genpoly_of n) (qr_rs n pad).
Proof. intros Hn. repeat split. simpl. lia. Qed.

(** Parameters with which the library calls [init_rs]. *)
Definition qr_params (nroots pad : Z) : Prop :=
  1 ≤ nroots ≤ RS_NROOTS_MAX ∧ 0 ≤ pad < 255 - nroots.

Lemma init_tables_qr : init_tables 8 255 0x11d = (gf_log, gf_exp, 1).
Proof. by vm_compute. Qed.

Lemma init_rs_char_spec Inv n pad E :
  qr_params n pad → spec Inv (init_rs_char 8 0x11d 0 1 n pad) (λ rs, rs = qr_rs n pad) E.
Proof.
  unfold qr_params, RS_NROOTS_MAX. intros [Hn Hp]. unfold init_rs_char.
  change (Z.shiftl 1 8) with 256. cbn [Z.ltb Z.leb Z.compare Pos.compare Pos.compare_cont orb].
  replace ((n <? 0) || (256 <=? n)) with false by lia.
  replace ((pad <? 0) || (256 - 1 - n <=? pad)) with false by lia.
  do 3 (eapply spec_bind; [by apply (spec_malloc _ (λ _, True))|intros _ _]).
  change (256 - 1) with 255. rewrite init_tables_qr. cbn [negb Z.eqb Pos.eqb].
  eapply spec_bind; [by apply (spec_malloc _ (λ _, True)); [lia|]|intros _ _].
  eapply spec_bind; [by eapply (spec_liftO _ 1 (λ x, x = 1))|]. intros ? ->.
  by apply spec_ret.
Qed.

(** ** The cache of control blocks

    Every cached block is the one [init_rs_char] builds for its parameters. *)

Definition rs_cache_ok (l : list RS) : Prop :=
  Forall (λ rs, qr_params (rs_nroots rs) (rs_pad rs) ∧ rs = qr_rs (rs_nroots rs) (rs_pad rs)) l.

Lemma init_rs_spec (Inv : statics → Prop) n pad E :
  (∀ g, Inv g → rs_cache_ok (rslist g)) →
  (∀ g, Inv g → Inv (Statics (qr_rs n pad :: rslist g) (qr_frames g) (mqr_frames g))) →
  qr_params n pad →
  spec Inv (init_rs 8 0x11d 0 1 n pad) (λ rs, rs = qr_rs n pad) E.
Proof.
  intros HI1 HI2 Hp w Hw HI.
  cbv [init_rs get_globals put_globals mbind M_bind mret M_ret].
  destruct (filter (λ rs, rs_matches 8 0x11d 0 1 n pad rs = true) (rslist (globals w)))
    as [|rs l] eqn:Ef.
  - pose proof (init_rs_char_spec Inv n pad no_failure Hp w Hw HI) as H.
    destruct (init_rs_char _ _ _ _ _ _ w) as [[rs| |] w'];
      [|destruct H as [(? & [] & _) _]|done].
    destruct H as (-> & He & Hw' & HI'). split; [done|]. split; [done|].
    split; [done|]. by apply HI2.
  - split; [|done].
    assert (Hin : rs ∈ filter (λ rs, rs_matches 8 0x11d 0 1 n pad rs = true) (rslist (globals w))).
    { rewrite Ef. left. }
    apply list_elem_of_filter in Hin as [Hm Hin].
    pose proof (HI1 _ HI) as Hc. unfold rs_cache_ok in Hc. rewrite Forall_forall in Hc.
    destruct (Hc rs Hin) as [_ ->]. unfold rs_matches in Hm. f_equal; lia.
Qed.

Lemma init_rs_honest a b c d e f : honest (init_rs a b c d e f).
Proof.
  unfold init_rs, init_rs_char. solve_honest.
Qed.
