(* ===== verification/QRSpec.v ===== *)
(** * QR code specification tables and initial frames (qrspec.c)

    The capacity, error correction, alignment, version and format tables of the
    standard, the lookups on them, and the construction and caching of the
    initial frame of a version with its function patterns. *)

From S2P Require Import Prelude CModel.

(** ** Version and capacity *)

Record QRspec_Capacity := Cap {
  cap_width : Z;        (* edge length of the symbol *)
  cap_words : Z;        (* data capacity (bytes) *)
  cap_remainder : Z;    (* remainder bits *)
  cap_ec : list Z       (* number of ECC codes (bytes) *)
}.

#[export] Instance QRspec_Capacity_inhabited : Inhabited QRspec_Capacity :=
  populate (Cap 0 0 0 []).

Definition qrspecCapacity : list QRspec_Capacity :=
  [
   Cap   0    0 0 [   0;    0;    0;    0];
   Cap  21   26 0 [   7;   10;   13;   17];
   Cap  25   44 7 [  10;   16;   22;   28];
   Cap  29   70 7 [  15;   26;   36;   44];
   Cap  33  100 7 [  20;   36;   52;   64];
   Cap  37  134 7 [  26;   48;   72;   88];
   Cap  41  172 7 [  36;   64;   96;  112];
   Cap  45  196 0 [  40;   72;  108;  130];
   Cap  49  242 0 [  48;   88;  132;  156];
   Cap  53  292 0 [  60;  110;  160;  192];
   Cap  57  346 0 [  72;  130;  192;  224];
   Cap  61  404 0 [  80;  150;  224;  264];
   Cap  65  466 0 [  96;  176;  260;  308];
   Cap  69  532 0 [ 104;  198;  288;  352];
   Cap  73  581 3 [ 120;  216;  320;  384];
   Cap  77  655 3 [ 132;  240;  360;  432];
   Cap  81  733 3 [ 144;  280;  408;  480];
   Cap  85  815 3 [ 168;  308;  448;  532];
   Cap  89  901 3 [ 180;  338;  504;  588];
   Cap  93  991 3 [ 196;  364;  546;  650];
   Cap  97 1085 3 [ 224;  416;  600;  700];
   Cap 101 1156 4 [ 224;  442;  644;  750];
   Cap 105 1258 4 [ 252;  476;  690;  816];
   Cap 109 1364 4 [ 270;  504;  750;  900];
   Cap 113 1474 4 [ 300;  560;  810;  960];
   Cap 117 1588 4 [ 312;  588;  870; 1050];
   Cap 121 1706 4 [ 336;  644;  952; 1110];
   Cap 125 1828 4 [ 360;  700; 1020; 1200];
   Cap 129 1921 3 [ 390;  728; 1050; 1260];
   Cap 133 2051 3 [ 420;  784; 1140; 1350];
   Cap 137 2185 3 [ 450;  812; 1200; 1440];
   Cap 141 2323 3 [ 480;  868; 1290; 1530];
   Cap 145 2465 3 [ 510;  924; 1350; 1620];
   Cap 149 2611 3 [ 540;  980; 1440; 1710];
   Cap 153 2761 3 [ 570; 1036; 1530; 1800];
   Cap 157 2876 0 [ 570; 1064; 1590; 1890];
   Cap 161 3034 0 [ 600; 1120; 1680; 1980];
   Cap 165 3196 0 [ 630; 1204; 1770; 2100];
   Cap 169 3362 0 [ 660; 1260; 1860; 2220];
   Cap 173 3532 0 [ 720; 1316; 1950; 2310];
   Cap 177 3706 0 [ 750; 1372; 2040; 2430]].

Definition capacity (version : Z) : QRspec_Capacity := qrspecCapacity !!! Z.to_nat version.

Definition QRspec_getDataLength (version : Z) (level : QRecLevel) : Z :=
  cap_words (capacity version) - nthZ (cap_ec (capacity version)) (level_Z level).

Definition QRspec_getECCLength (version : Z) (level : QRecLevel) : Z :=
  nthZ (cap_ec (capacity version)) (level_Z level).

(** The [for] loop of [QRspec_getMinimumVersion] from version [i] on. *)
Fixpoint minimum_version_from (fuel : nat) (i size : Z) (level : QRecLevel) : Z :=
  match fuel with
  | O => -1
  | S fuel =>
    if i <=? QRSPEC_VERSION_MAX then
      let words := cap_words (capacity i) - nthZ (cap_ec (capacity i)) (level_Z level) in
      if size <=? words then i else minimum_version_from fuel (i + 1) size level
    else -1
  end.

Definition QRspec_getMinimumVersion (size : Z) (level : QRecLevel) : Z :=
  minimum_version_from (Z.to_nat QRSPEC_VERSION_MAX) 1 size level.

Definition QRspec_getWidth (version : Z) : Z := cap_width (capacity version).

Definition QRspec_getRemainder (version : Z) : Z := cap_remainder (capacity version).

(** ** Length indicator *)

(** [QRinput_isSplittableMode] of qrinput.c. *)
Definition QRinput_isSplittableMode (mode : QRencodeMode) : bool :=
  (mode_Z QR_MODE_NUM <=? mode_Z mode) && (mode_Z mode <=? mode_Z QR_MODE_KANJI).

Definition lengthTableBits : list (list Z) :=
  [[10; 12; 14]; [9; 11; 13]; [8; 16; 16]; [8; 10; 12]].

Definition QRspec_lengthIndicator (mode : QRencodeMode) (version : Z) : Z :=
  if negb (QRinput_isSplittableMode mode) then 0
  else
    let l := if version <=? 9 then 0 else if version <=? 26 then 1 else 2 in
    nthZ (nthL lengthTableBits (mode_Z mode)) l.

Definition QRspec_maximumWords (mode : QRencodeMode) (version : Z) : Z :=
  if negb (QRinput_isSplittableMode mode) then 0
  else
    let l := if version <=? 9 then 0 else if version <=? 26 then 1 else 2 in
    let bits := nthZ (nthL lengthTableBits (mode_Z mode)) l in
    let words := Z.shiftl 1 bits - 1 in
    if decide (mode = QR_MODE_KANJI) then words * 2 else words.

(** ** Error correction code *)

Definition eccTable : list (list (Z * Z)) :=
  [
   [( 0,  0); ( 0,  0); ( 0,  0); ( 0,  0)];
   [( 1,  0); ( 1,  0); ( 1,  0); ( 1,  0)];
   [( 1,  0); ( 1,  0); ( 1,  0); ( 1,  0)];
   [( 1,  0); ( 1,  0); ( 2,  0); ( 2,  0)];
   [( 1,  0); ( 2,  0); ( 2,  0); ( 4,  0)];
   [( 1,  0); ( 2,  0); ( 2,  2); ( 2,  2)];
   [( 2,  0); ( 4,  0); ( 4,  0); ( 4,  0)];
   [( 2,  0); ( 4,  0); ( 2,  4); ( 4,  1)];
   [( 2,  0); ( 2,  2); ( 4,  2); ( 4,  2)];
   [( 2,  0); ( 3,  2); ( 4,  4); ( 4,  4)];
   [( 2,  2); ( 4,  1); ( 6,  2); ( 6,  2)];
   [( 4,  0); ( 1,  4); ( 4,  4); ( 3,  8)];
   [( 2,  2); ( 6,  2); ( 4,  6); ( 7,  4)];
   [( 4,  0); ( 8,  1); ( 8,  4); (12,  4)];
   [( 3,  1); ( 4,  5); (11,  5); (11,  5)];
   [( 5,  1); ( 5,  5); ( 5,  7); (11,  7)];
   [( 5,  1); ( 7,  3); (15,  2); ( 3, 13)];
   [( 1,  5); (10,  1); ( 1, 15); ( 2, 17)];
   [( 5,  1); ( 9,  4); (17,  1); ( 2, 19)];
   [( 3,  4); ( 3, 11); (17,  4); ( 9, 16)];
   [( 3,  5); ( 3, 13); (15,  5); (15, 10)];
   [( 4,  4); (17,  0); (17,  6); (19,  6)];
   [( 2,  7); (17,  0); ( 7, 16); (34,  0)];
   [( 4,  5); ( 4, 14); (11, 14); (16, 14)];
   [( 6,  4); ( 6, 14); (11, 16); (30,  2)];
   [( 8,  4); ( 8, 13); ( 7, 22); (22, 13)];
   [(10,  2); (19,  4); (28,  6); (33,  4)];
   [( 8,  4); (22,  3); ( 8, 26); (12, 28)];
   [( 3, 10); ( 3, 23); ( 4, 31); (11, 31)];
   [( 7,  7); (21,  7); ( 1, 37); (19, 26)];
   [( 5, 10); (19, 10); (15, 25); (23, 25)];
   [(13,  3); ( 2, 29); (42,  1); (23, 28)];
   [(17,  0); (10, 23); (10, 35); (19, 35)];
   [(17,  1); (14, 21); (29, 19); (11, 46)];
   [(13,  6); (14, 23); (44,  7); (59,  1)];
   [(12,  7); (12, 26); (39, 14); (22, 41)];
   [( 6, 14); ( 6, 34); (46, 10); ( 2, 64)];
   [(17,  4); (29, 14); (49, 10); (24, 46)];
   [( 4, 18); (13, 32); (48, 14); (42, 32)];
   [(20,  4); (40,  7); (43, 22); (10, 67)];
   [(19,  6); (18, 31); (34, 34); (20, 61)]].

(** The array [spec] filled by [QRspec_getEccSpec]: number of blocks of the
    first type, their data and ecc codes, number of blocks of the second type
    and their data codes. *)
Record EccSpec := MkEccSpec { spec0 : Z; spec1 : Z; spec2 : Z; spec3 : Z; spec4 : Z }.

#[export] Instance EccSpec_eq_dec : EqDecision EccSpec.
Proof. solve_decision. Defined.

Definition QRspec_getEccSpec (version : Z) (level : QRecLevel) : EccSpec :=
  let '(b1, b2) := (eccTable !!! Z.to_nat version) !!! Z.to_nat (level_Z level) in
  let data := QRspec_getDataLength version level in
  let ecc := QRspec_getECCLength version level in
  if b2 =? 0 then MkEccSpec b1 (data `quot` b1) (ecc `quot` b1) 0 0
  else
    let d := data `quot` (b1 + b2) in
    MkEccSpec b1 d (ecc `quot` (b1 + b2)) b2 (d + 1).

(** The accessor macros of qrspec.h. *)
Definition QRspec_rsBlockNum (s : EccSpec) : Z := spec0 s + spec3 s.
Definition QRspec_rsBlockNum1 (s : EccSpec) : Z := spec0 s.
Definition QRspec_rsDataCodes1 (s : EccSpec) : Z := spec1 s.
Definition QRspec_rsEccCodes1 (s : EccSpec) : Z := spec2 s.
Definition QRspec_rsBlockNum2 (s : EccSpec) : Z := spec3 s.
Definition QRspec_rsDataCodes2 (s : EccSpec) : Z := spec4 s.
Definition QRspec_rsEccCodes2 (s : EccSpec) : Z := spec2 s.
Definition QRspec_rsDataLength (s : EccSpec) : Z :=
  QRspec_rsBlockNum1 s * QRspec_rsDataCodes1 s + QRspec_rsBlockNum2 s * QRspec_rsDataCodes2 s.
Definition QRspec_rsEccLength (s : EccSpec) : Z := QRspec_rsBlockNum s * QRspec_rsEccCodes1 s.

(** ** Alignment pattern *)

Definition alignmentPattern : list (Z * Z) :=
  [
   ( 0,  0); ( 0,  0); (18,  0); (22,  0); (26,  0); (30,  0);
   (34,  0); (22, 38); (24, 42); (26, 46); (28, 50); (30, 54);
   (32, 58); (34, 62); (26, 46); (26, 48); (26, 50); (30, 54);
   (30, 56); (30, 58); (34, 62); (28, 50); (26, 50); (30, 54);
   (28, 54); (32, 58); (30, 58); (34, 62); (26, 50); (30, 54);
   (26, 52); (30, 56); (34, 60); (30, 58); (34, 62); (30, 54);
   (24, 50); (28, 54); (32, 58); (26, 54); (30, 58)].

Definition alignment_marker : list Z :=
  [
   0xa1; 0xa1; 0xa1; 0xa1; 0xa1;
   0xa1; 0xa0; 0xa0; 0xa0; 0xa1;
   0xa1; 0xa0; 0xa1; 0xa0; 0xa1;
   0xa1; 0xa0; 0xa0; 0xa0; 0xa1;
   0xa1; 0xa1; 0xa1; 0xa1; 0xa1].

(** Copy a square pattern of edge [n] with its upper-left module at offset
    [base], row by row. *)
Definition put_pattern (pattern : list Z) (n width base : Z) (frame : carray) : outcome carray :=
  for_range 0 n (λ y frame,
    for_range 0 n (λ x, aset (base + y * width + x) (nthZ pattern (y * n + x))) frame) frame.

Definition QRspec_putAlignmentMarker (width ox oy : Z) (frame : carray) : outcome carray :=
  put_pattern alignment_marker 5 width ((oy - 2) * width + ox - 2) frame.

Definition QRspec_putAlignmentPattern (version width : Z) (frame : carray) : outcome carray :=
  if version <? 2 then mret frame
  else
    let '(a0, a1) := alignmentPattern !!! Z.to_nat version in
    let d := a1 - a0 in
    if d =? 0 then Undef (* division by zero *)
    else
      let w := if d <? 0 then 2 else (width - a0) `quot` d + 2 in
      if w * w - 3 =? 1 then QRspec_putAlignmentMarker width a0 a0 frame
      else
        '(frame, _) ← for_range 1 (w - 1) (λ x '(frame, cx),
            frame ← QRspec_putAlignmentMarker width 6 cx frame;
            frame ← QRspec_putAlignmentMarker width cx 6 frame;
            mret (frame, cx + d)) (frame, a0);
        '(frame, _) ← for_range 0 (w - 1) (λ y '(frame, cy),
            '(frame, _) ← for_range 0 (w - 1) (λ x '(frame, cx),
                frame ← QRspec_putAlignmentMarker width cx cy frame;
                mret (frame, cx + d)) (frame, a0);
            mret (frame, cy + d)) (frame, a0);
        mret frame.

(** ** Version information pattern *)

Definition versionPattern : list Z :=
  [
   0x07c94; 0x085bc; 0x09a99; 0x0a4d3; 0x0bbf6; 0x0c762; 0x0d847; 0x0e60d;
   0x0f928; 0x10b78; 0x1145d; 0x12a17; 0x13532; 0x149a6; 0x15683; 0x168c9;
   0x177ec; 0x18ec4; 0x191e1; 0x1afab; 0x1b08e; 0x1cc1a; 0x1d33f; 0x1ed75;
   0x1f250; 0x209d5; 0x216f0; 0x228ba; 0x2379f; 0x24b0b; 0x2542e; 0x26a64;
   0x27541; 0x28c69].

Definition QRspec_getVersionPattern (version : Z) : Z :=
  if (version <? 7) || (QRSPEC_VERSION_MAX <? version) then 0
  else nthZ versionPattern (version - 7).

(** ** Format information *)

Definition formatInfo : list (list Z) :=
  [
   [0x77c4; 0x72f3; 0x7daa; 0x789d; 0x662f; 0x6318; 0x6c41; 0x6976];
   [0x5412; 0x5125; 0x5e7c; 0x5b4b; 0x45f9; 0x40ce; 0x4f97; 0x4aa0];
   [0x355f; 0x3068; 0x3f31; 0x3a06; 0x24b4; 0x2183; 0x2eda; 0x2bed];
   [0x1689; 0x13be; 0x1ce7; 0x19d0; 0x0762; 0x0255; 0x0d0c; 0x083b]].

Definition QRspec_getFormatInfo (mask : Z) (level : QRecLevel) : Z :=
  if (mask <? 0) || (7 <? mask) then 0
  else nthZ (nthL formatInfo (level_Z level)) mask.

(** ** Frame *)

Definition finder_pattern : list Z :=
  [
   0xc1; 0xc1; 0xc1; 0xc1; 0xc1; 0xc1; 0xc1;
   0xc1; 0xc0; 0xc0; 0xc0; 0xc0; 0xc0; 0xc1;
   0xc1; 0xc0; 0xc1; 0xc1; 0xc1; 0xc0; 0xc1;
   0xc1; 0xc0; 0xc1; 0xc1; 0xc1; 0xc0; 0xc1;
   0xc1; 0xc0; 0xc1; 0xc1; 0xc1; 0xc0; 0xc1;
   0xc1; 0xc0; 0xc0; 0xc0; 0xc0; 0xc0; 0xc1;
   0xc1; 0xc1; 0xc1; 0xc1; 0xc1; 0xc1; 0xc1].

Definition putFinderPattern (width ox oy : Z) (frame : carray) : outcome carray :=
  put_pattern finder_pattern 7 width (oy * width + ox) frame.

(** The version information block written at offset [base], module [(i, j)]
    of it at [base + pos i j]. *)
Definition put_version_info (verinfo base : Z) (pos : Z → Z → Z) (frame : carray)
    : outcome carray :=
  '(frame, _) ← for_range 0 6 (λ i '(frame, v),
      for_range 0 3 (λ j '(frame, v),
        frame ← aset (base + pos i j) (Z.lor 0x88 (Z.land v 1)) frame;
        mret (frame, Z.shiftr v 1)) (frame, v)) (frame, verinfo);
  mret frame.

(** The body of [QRspec_createFrame] once the frame is allocated. *)
Definition QRspec_drawFrame (version : Z) : outcome carray :=
  let width := cap_width (capacity version) in
  frame ← amemset 0 0 (width * width) (anew (width * width));
  (* finder pattern *)
  frame ← putFinderPattern width 0 0 frame;
  frame ← putFinderPattern width (width - 7) 0 frame;
  frame ← putFinderPattern width 0 (width - 7) frame;
  (* separator *)
  frame ← for_range 0 7 (λ y frame,
      let p := y * width in
      let q := width * (width - 7) + y * width in
      frame ← aset (p + 7) 0xc0 frame;
      frame ← aset (p + (width - 8)) 0xc0 frame;
      aset (q + 7) 0xc0 frame) frame;
  frame ← amemset (width * 7) 0xc0 8 frame;
  frame ← amemset (width * 8 - 8) 0xc0 8 frame;
  frame ← amemset (width * (width - 8)) 0xc0 8 frame;
  (* mask format information area *)
  frame ← amemset (width * 8) 0x84 9 frame;
  frame ← amemset (width * 9 - 8) 0x84 8 frame;
  frame ← for_range 0 8 (λ y, aset (8 + y * width) 0x84) frame;
  frame ← for_range 0 7 (λ y, aset (width * (width - 7) + 8 + y * width) 0x84) frame;
  (* timing pattern *)
  frame ← for_range 1 (width - 15) (λ x frame,
      frame ← aset (width * 6 + 8 + (x - 1)) (Z.lor 0x90 (Z.land x 1)) frame;
      aset (width * 8 + 6 + (x - 1) * width) (Z.lor 0x90 (Z.land x 1)) frame) frame;
  (* alignment pattern *)
  frame ← QRspec_putAlignmentPattern version width frame;
  (* version information *)
  frame ← (if 7 <=? version then
      let verinfo := QRspec_getVersionPattern version in
      frame ← put_version_info verinfo (width * (width - 11)) (λ x y, width * y + x) frame;
      put_version_info verinfo (width - 11) (λ y x, y * width + x) frame
    else mret frame);
  (* and a little bit... *)
  aset (width * (width - 8) + 8) 0x81 frame.

Definition QRspec_createFrame (version : Z) : M carray :=
  let width := cap_width (capacity version) in
  _ ← malloc (width * width);
  liftO (QRspec_drawFrame version).

(** [frames[version]] is filled on the first request; the caller receives a
    copy. A failing [QRspec_createFrame] leaves the entry [NULL]. *)
Definition QRspec_newFrame (version : Z) : M carray :=
  if (version <? 1) || (QRSPEC_VERSION_MAX <? version) then fail
  else
    g ← get_globals;
    cached ← match qr_frames g !! version with
             | Some f => mret f
             | None =>
               f ← QRspec_createFrame version;
               _ ← put_globals (Statics (rslist g) (<[version := f]> (qr_frames g)) (mqr_frames g));
               mret f
             end;
    let width := cap_width (capacity version) in
    _ ← malloc (width * width);
    liftO (amemcpy cached (width * width)).

Definition QRspec_clearCache : M unit :=
  g ← get_globals;
  put_globals (Statics (rslist g)
    (foldl (λ frames i, delete i frames) (qr_frames g) (range 1 (QRSPEC_VERSION_MAX + 1)))
    (mqr_frames g)).

(** ** Reference definitions *)

(** Remainder of the binary polynomial [v], of fewer than [n] bits above the
    degree [deg], by the generator [gen] of degree [deg]. *)
Fixpoint bch_rem (n : nat) (gen deg v : Z) : Z :=
  match n with
  | O => v
  | S n =>
    let k := Z.of_nat n + deg in
    bch_rem n gen deg (if Z.testbit v k then Z.lxor v (Z.shiftl gen (k - deg)) else v)
  end.

(** The systematic BCH code word of [data]. *)
Definition bch_encode (bits : nat) (gen deg data : Z) : Z :=
  Z.lor (Z.shiftl data deg) (bch_rem bits gen deg (Z.shiftl data deg)).

(** The two-bit indicator of an error correction level in the standard. *)
Definition level_indicator (level : QRecLevel) : Z :=
  match level with
  | QR_ECLEVEL_L => 1 | QR_ECLEVEL_M => 0 | QR_ECLEVEL_Q => 3 | QR_ECLEVEL_H => 2
  end.

(** Number of ones among the low [n] bits. *)
Fixpoint popcount (n : nat) (v : Z) : Z :=
  match n with O => 0 | S n => b2z (Z.testbit v (Z.of_nat n)) + popcount n v end.

Definition hamming (n : nat) (a b : Z) : Z := popcount n (Z.lxor a b).

(** Distance of a module from the centre of a square pattern. *)
Definition ring (x y cx cy : Z) : Z := Z.max (Z.abs (x - cx)) (Z.abs (y - cy)).

(** The row and column coordinates of the alignment patterns. *)
Definition alignment_centres (version : Z) : list Z :=
  let '(a0, a1) := alignmentPattern !!! Z.to_nat version in
  if version <? 2 then []
  else if a1 =? 0 then [6; a0]
  else 6 :: ((λ i, a0 + i * (a1 - a0))
             <$> range 0 ((QRspec_getWidth version - 7 - a0) `div` (a1 - a0) + 1)).

(** The first of the coordinates within distance 2 of [c]. *)
Definition near (c : Z) (centres : list Z) : option Z :=
  List.find (λ k, Z.abs (c - k) <=? 2) centres.

(** The timing patterns, the dark module and the format information area of a
    symbol of width [w]; 0 for a data module. *)
Definition timing_format (w x y : Z) : Z :=
  if y =? 6 then Z.lor 0x90 (b2z (Z.even x))
  else if x =? 6 then Z.lor 0x90 (b2z (Z.even y))
  else if (x =? 8) && (y =? w - 8) then 0x81
  else if ((x =? 8) && ((y <=? 8) || (w - 8 <=? y)))
       || ((y =? 8) && ((x <=? 8) || (w - 8 <=? x))) then 0x84
  else 0.

(** The module of row [y] and column [x] in the blank symbol of a version:
    function patterns with bit 7 set, 0 elsewhere. There is no alignment
    pattern at the corners that have a finder pattern. *)
Definition qr_reference (version : Z) : Z → Z → Z :=
  let w := QRspec_getWidth version in
  let centres := alignment_centres version in
  let version_bit b := Z.lor 0x88 (b2z (Z.testbit (nthZ versionPattern (version - 7)) b)) in
  λ y, let near_y := near y centres in λ x,
  let r := if w - 9 <? y then ring x y 3 (w - 4)
           else if w - 9 <? x then ring x y (w - 4) 3 else ring x y 3 3 in
  if r <=? 4 then Z.lor 0xc0 (b2z (negb (r =? 2) && negb (r =? 4)))
  else if (7 <=? version) && (y <? 6) && (w - 11 <=? x) then version_bit (3 * y + (x - (w - 11)))
  else if (7 <=? version) && (x <? 6) && (w - 11 <=? y) then version_bit (3 * x + (y - (w - 11)))
  else
    match near_y with
    | None => timing_format w x y
    | Some cy =>
      match near x centres with
      | None => timing_format w x y
      | Some cx =>
        if ((cx =? 6) && ((cy =? 6) || (cy =? w - 7))) || ((cx =? w - 7) && (cy =? 6))
        then timing_format w x y
        else Z.lor 0xa0 (b2z (negb (ring x y cx cy =? 1)))
      end
    end.

(** A drawn frame: [n] cells, all of them initialised bytes. *)
Definition frame_full (n : Z) (f : carray) : Prop :=
  alen f = n ∧ ∀ i, (0 ≤ i < n → ∃ v, acells f !! i = Some v ∧ is_byte v)
                    ∧ (is_Some (acells f !! i) → 0 ≤ i < n).

(** ** Lemmas *)

Lemma elem_of_levels level : level ∈ all_levels.
Proof. destruct level; set_solver. Qed.

Lemma levels_forall (p : QRecLevel → bool) :
  forallb p all_levels = true → ∀ level, p level = true.
Proof. rewrite forallb_forall. intros H level. apply H, list_elem_of_In, elem_of_levels. Qed.

(** A property of all versions and levels, decided by evaluation. *)
Lemma versions_levels (p : Z → QRecLevel → bool) lo hi :
  all_range lo hi (λ v, forallb (p v) all_levels) = true →
  ∀ v level, lo ≤ v < hi → p v level = true.
Proof.
  intros H v level Hv. apply levels_forall. by apply (all_range_spec _ _ _ H).
Qed.

Lemma capacity_width v : 1 ≤ v ≤ 40 → QRspec_getWidth v = 17 + 4 * v.
Proof.
  intros Hv. apply Z.eqb_eq. assert (Hv' : 1 ≤ v < 41) by lia. revert v Hv' Hv.
  intros v Hv' _. revert v Hv'. apply all_range_spec. by vm_compute.
Qed.

(** Block structure of a version and level: sizes, and the parameters of the
    Reed-Solomon codes of its blocks. *)
Definition ecc_ok (v : Z) (level : QRecLevel) : bool :=
  let s := QRspec_getEccSpec v level in
  (QRspec_rsDataLength s =? QRspec_getDataLength v level)
  && (QRspec_rsEccLength s =? QRspec_getECCLength v level)
  && (1 <=? spec0 s) && (0 <=? spec3 s)
  && (1 <=? spec1 s) && (1 <=? spec2 s) && (spec2 s <=? 30)
  && (spec1 s + spec2 s <? 255)
  && ((spec3 s =? 0) || ((spec4 s =? spec1 s + 1) && (spec4 s + spec2 s <? 255))).

Lemma ecc_all : all_range 1 41 (λ v, forallb (ecc_ok v) all_levels) = true.
Proof. by vm_compute. Qed.

Lemma ecc_spec_ok v level :
  1 ≤ v ≤ 40 →
  let s := QRspec_getEccSpec v level in
  QRspec_rsDataLength s = QRspec_getDataLength v level ∧
  QRspec_rsEccLength s = QRspec_getECCLength v level ∧
  1 ≤ spec0 s ∧ 0 ≤ spec3 s ∧ 1 ≤ spec1 s ∧ 1 ≤ spec2 s ≤ 30 ∧
  spec1 s + spec2 s < 255 ∧
  (spec3 s = 0 ∨ (spec4 s = spec1 s + 1 ∧ spec4 s + spec2 s < 255)).
Proof.
  intros Hv s. pose proof (versions_levels ecc_ok 1 41 ecc_all v level ltac:(lia)) as H.
  unfold ecc_ok in H. fold s in H. lia.
Qed.

(** The capacity grows with the version. *)
Lemma data_length_mono v level :
  1 ≤ v < 40 → QRspec_getDataLength v level < QRspec_getDataLength (v + 1) level.
Proof.
  intros Hv. apply Z.ltb_lt. revert v level Hv.
  apply (versions_levels (λ v level, QRspec_getDataLength v level
    <? QRspec_getDataLength (v + 1) level)). by vm_compute.
Qed.

Lemma minimum_version_from_spec fuel i size level :
  1 ≤ i → 40 < i + Z.of_nat fuel →
  let r := minimum_version_from fuel i size level in
  (i ≤ r ≤ 40 ∧ size ≤ QRspec_getDataLength r level ∧
    ∀ v, i ≤ v < r → QRspec_getDataLength v level < size)
  ∨ (r = -1 ∧ ∀ v, i ≤ v ≤ 40 → QRspec_getDataLength v level < size).
Proof.
  revert i. induction fuel as [|fuel IH]; intros i Hi Hf r; subst r; cbn [minimum_version_from].
  { right. split; [done|]. lia. }
  unfold QRSPEC_VERSION_MAX. destruct (Z.leb_spec i 40); [|right; split; [done|lia]].
  fold (QRspec_getDataLength i level).
  destruct (Z.leb_spec size (QRspec_getDataLength i level)) as [Hs|Hs].
  { left. repeat split; [lia..|done|lia]. }
  destruct (IH (i + 1) ltac:(lia) ltac:(lia)) as [(Hr & Hs' & Hm)|(Hr & Hm)].
  - left. repeat split; [lia..|done|]. intros v Hv.
    destruct (decide (v = i)) as [->|]; [done|]. apply Hm. lia.
  - right. split; [done|]. intros v Hv.
    destruct (decide (v = i)) as [->|]; [done|]. apply Hm. lia.
Qed.

Lemma getMinimumVersion_spec size level :
  let r := QRspec_getMinimumVersion size level in
  (1 ≤ r ≤ 40 ∧ size ≤ QRspec_getDataLength r level ∧
    ∀ v, 1 ≤ v < r → QRspec_getDataLength v level < size)
  ∨ (r = -1 ∧ ∀ v, 1 ≤ v ≤ 40 → QRspec_getDataLength v level < size).
Proof. apply (minimum_version_from_spec 40 1); lia. Qed.
