(* ===== verification/MQRSpec.v ===== *)
(** * Micro QR specification tables and initial frames (mqrspec.c)

    The capacity, length indicator and format tables of Micro QR symbols, the
    lookups on them, and the construction and caching of the initial frame of
    a version. *)

From S2P Require Import Prelude CModel QRSpec.

(** ** Version and capacity *)

Record MQRspec_Capacity := MCap { mcap_width : Z; mcap_ec : list Z }.

#[export] Instance MQRspec_Capacity_inhabited : Inhabited MQRspec_Capacity :=
  populate (MCap 0 []).

Definition mqrspecCapacity : list MQRspec_Capacity :=
  [
   MCap  0 [0;  0;  0; 0];
   MCap 11 [2;  0;  0; 0];
   MCap 13 [5;  6;  0; 0];
   MCap 15 [6;  8;  0; 0];
   MCap 17 [8; 10; 14; 0]].

Definition mcapacity (version : Z) : MQRspec_Capacity := mqrspecCapacity !!! Z.to_nat version.

Definition MQRspec_getDataLengthBit (version : Z) (level : QRecLevel) : Z :=
  let w := mcap_width (mcapacity version) - 1 in
  let ecc := nthZ (mcap_ec (mcapacity version)) (level_Z level) in
  if ecc =? 0 then 0 else w * w - 64 - ecc * 8.

Definition MQRspec_getDataLength (version : Z) (level : QRecLevel) : Z :=
  (MQRspec_getDataLengthBit version level + 4) `quot` 8.

Definition MQRspec_getECCLength (version : Z) (level : QRecLevel) : Z :=
  nthZ (mcap_ec (mcapacity version)) (level_Z level).

Definition MQRspec_getWidth (version : Z) : Z := mcap_width (mcapacity version).

(** ** Length indicator *)

Definition lengthTableBits : list (list Z) :=
  [[3; 4; 5; 6]; [0; 3; 4; 5]; [0; 0; 4; 5]; [0; 0; 3; 4]].

Definition MQRspec_lengthIndicator (mode : QRencodeMode) (version : Z) : Z :=
  nthZ (nthL lengthTableBits (mode_Z mode)) (version - 1).

Definition MQRspec_maximumWords (mode : QRencodeMode) (version : Z) : Z :=
  let bits := nthZ (nthL lengthTableBits (mode_Z mode)) (version - 1) in
  let words := Z.shiftl 1 bits - 1 in
  if decide (mode = QR_MODE_KANJI) then words * 2 else words.

(** ** Format information *)

Definition formatInfo : list (list Z) :=
  [
   [0x4445; 0x55ae; 0x6793; 0x7678; 0x06de; 0x1735; 0x2508; 0x34e3];
   [0x4172; 0x5099; 0x62a4; 0x734f; 0x03e9; 0x1202; 0x203f; 0x31d4];
   [0x4e2b; 0x5fc0; 0x6dfd; 0x7c16; 0x0cb0; 0x1d5b; 0x2f66; 0x3e8d];
   [0x4b1c; 0x5af7; 0x68ca; 0x7921; 0x0987; 0x186c; 0x2a51; 0x3bba]].

Definition typeTable : list (list Z) :=
  [[-1; -1; -1]; [0; -1; -1]; [1; 2; -1]; [3; 4; -1]; [5; 6; 7]].

Definition MQRspec_getFormatInfo (mask version : Z) (level : QRecLevel) : Z :=
  if (mask <? 0) || (3 <? mask) then 0
  else if (version <=? 0) || (MQRSPEC_VERSION_MAX <? version) then 0
  else if decide (level = QR_ECLEVEL_H) then 0
  else
    let type := nthZ (nthL typeTable version) (level_Z level) in
    if type <? 0 then 0 else nthZ (nthL formatInfo mask) type.

(** ** Frame *)

(** The body of [MQRspec_createFrame] once the frame is allocated. *)
Definition MQRspec_drawFrame (version : Z) : outcome carray :=
  let width := mcap_width (mcapacity version) in
  frame ← amemset 0 0 (width * width) (anew (width * width));
  (* finder pattern *)
  frame ← putFinderPattern width 0 0 frame;
  (* separator *)
  frame ← for_range 0 7 (λ y, aset (y * width + 7) 0xc0) frame;
  frame ← amemset (width * 7) 0xc0 8 frame;
  (* mask format information area *)
  frame ← amemset (width * 8 + 1) 0x84 8 frame;
  frame ← for_range 0 7 (λ y, aset (width + 8 + y * width) 0x84) frame;
  (* timing pattern *)
  for_range 1 (width - 7) (λ x frame,
      frame ← aset (8 + (x - 1)) (Z.lor 0x90 (Z.land x 1)) frame;
      aset (width * 8 + (x - 1) * width) (Z.lor 0x90 (Z.land x 1)) frame) frame.

Definition MQRspec_createFrame (version : Z) : M carray :=
  let width := mcap_width (mcapacity version) in
  _ ← malloc (width * width);
  liftO (MQRspec_drawFrame version).

Definition MQRspec_newFrame (version : Z) : M carray :=
  if (version <? 1) || (MQRSPEC_VERSION_MAX <? version) then fail
  else
    g ← get_globals;
    cached ← match mqr_frames g !! version with
             | Some f => mret f
             | None =>
               f ← MQRspec_createFrame version;
               _ ← put_globals (Statics (rslist g) (qr_frames g) (<[version := f]> (mqr_frames g)));
               mret f
             end;
    let width := mcap_width (mcapacity version) in
    _ ← malloc (width * width);
    liftO (amemcpy cached (width * width)).

Definition MQRspec_clearCache : M unit :=
  g ← get_globals;
  put_globals (Statics (rslist g) (qr_frames g)
    (foldl (λ frames i, delete i frames) (mqr_frames g) (range 1 (MQRSPEC_VERSION_MAX + 1)))).

(** ** Reference definitions *)

(** The symbol number of the standard for a version and level that exist. *)
Definition symbol_number (version : Z) (level : QRecLevel) : option Z :=
  match version, level with
  | 1, QR_ECLEVEL_L => Some 0
  | 2, QR_ECLEVEL_L => Some 1
  | 2, QR_ECLEVEL_M => Some 2
  | 3, QR_ECLEVEL_L => Some 3
  | 3, QR_ECLEVEL_M => Some 4
  | 4, QR_ECLEVEL_L => Some 5
  | 4, QR_ECLEVEL_M => Some 6
  | 4, QR_ECLEVEL_Q => Some 7
  | _, _ => None
  end.

(** The combinations of version and level that exist. *)
Definition mqr_supported (version : Z) (level : QRecLevel) : Prop :=
  is_Some (symbol_number version level).

#[export] Instance mqr_supported_dec version level : Decision (mqr_supported version level).
Proof. unfold mqr_supported. apply _. Defined.

(** The module of row [y] and column [x] in a blank symbol:
    function patterns with bit 7 set, 0 elsewhere. *)
Definition mqr_reference (y x : Z) : Z :=
  let r := ring x y 3 3 in
  if r <=? 4 then Z.lor 0xc0 (b2z (negb (r =? 2) && negb (r =? 4)))
  else if (y =? 0) || (x =? 0) then Z.lor 0x90 (b2z (Z.even (x + y)))
  else if ((y =? 8) && (x <=? 8)) || ((x =? 8) && (y <=? 8)) then 0x84
  else 0.

(** ** Lemmas *)

Lemma mqr_supported_ecc version level :
  1 ≤ version ≤ 4 →
  mqr_supported version level ↔ MQRspec_getECCLength version level ≠ 0.
Proof.
  intros Hv. enum_Z version 1 5; try lia; destruct level;
    (split; [intros _; done|]) || (split; [by intros [? ?]|]);
    try (intros _; by eexists); by intros [].
Qed.
