(* ===== verification/FrameFiller.v ===== *)
(** * Filling a frame (the FrameFiller of qrencode.c)

    The filler walks over a frame in the zigzag order of the standard and hands
    out the modules that belong to no function pattern. Theorems: for every
    version the walk visits each data module exactly once. *)

From stdpp Require Import mapset.
From S2P Require Import Prelude CModel QRSpec MQRSpec.

(** ** Data and operations *)

(** The frame itself is shared with the caller, so it is passed to every
    operation; positions are offsets into it. *)
Record FrameFiller := MkFiller {
  ff_width : Z;
  ff_x : Z;
  ff_y : Z;
  ff_dir : Z;
  ff_bit : Z;
  ff_mqr : bool
}.

Definition sizeof_FrameFiller : Z := 40.

(** The initial state that [FrameFiller_new] stores. *)
Definition filler_init (width : Z) (mqr : bool) : FrameFiller :=
  MkFiller width (width - 1) (width - 1) (-1) (-1) mqr.

Definition FrameFiller_new (width : Z) (mqr : bool) : M FrameFiller :=
  _ ← malloc sizeof_FrameFiller;
  mret (filler_init width mqr).

(** One pass through the body of [FrameFiller_next]: [inl] when the function
    calls itself, [inr] when it returns (an offset, or [None] for [NULL]). *)
Definition FrameFiller_step (frame : carray) (f : FrameFiller)
    : FrameFiller + (outcome (option Z) * FrameFiller) :=
  if ff_bit f =? -1 then
    inr (Ret (Some (ff_y f * ff_width f + ff_x f)),
         MkFiller (ff_width f) (ff_x f) (ff_y f) (ff_dir f) 0 (ff_mqr f))
  else
    let w := ff_width f in
    let '(x, y, bit) :=
      if ff_bit f =? 0 then (ff_x f - 1, ff_y f, ff_bit f + 1)
      else (ff_x f + 1, ff_y f + ff_dir f, ff_bit f - 1) in
    let '(x, y, dir) :=
      if ff_dir f <? 0 then
        if y <? 0 then
          let x := x - 2 in
          if negb (ff_mqr f) && (x =? 6) then (x - 1, 9, 1) else (x, 0, 1)
        else (x, y, ff_dir f)
      else
        if y =? w then
          let x := x - 2 in
          if negb (ff_mqr f) && (x =? 6) then (x - 1, w - 1 - 8, -1) else (x, w - 1, -1)
        else (x, y, ff_dir f) in
    if (x <? 0) || (y <? 0) then
      inr (Ret None, MkFiller w (ff_x f) (ff_y f) dir bit (ff_mqr f))
    else
      let f := MkFiller w x y dir bit (ff_mqr f) in
      match aget frame (y * w + x) with
      | Ret v => if truth (Z.land v 0x80) then inl f else inr (Ret (Some (y * w + x)), f)
      | _ => inr (Undef, f)
      end.

(** Up to [2^(n+1) - 1] iterations of a loop body. *)
Fixpoint iterate {S R : Type} (n : nat) (step : S → S + R) (s : S) : S + R :=
  match step s with
  | inr r => inr r
  | inl s1 =>
    match n with
    | O => inl s1
    | S n => match iterate n step s1 with inl s2 => iterate n step s2 | inr r => inr r end
    end
  end.

(** The tail recursion advances by one module per call, and there are
    [width * width] modules. *)
Definition FrameFiller_next (frame : carray) (f : FrameFiller)
    : outcome (option Z) * FrameFiller :=
  match iterate (S (Z.to_nat (Z.log2 (ff_width f * ff_width f)))) (FrameFiller_step frame) f with
  | inl f' => (Undef, f')
  | inr r => r
  end.

(** [p = FrameFiller_next(filler); if(p == NULL) goto EXIT; *p = v;] *)
Definition put_module (v : Z) (st : carray * FrameFiller) : outcome (carray * FrameFiller) :=
  let '(frame, f) := st in
  match FrameFiller_next frame f with
  | (Ret (Some p), f') => frame' ← aset p v frame; mret (frame', f')
  | (Ret None, _) => Fail
  | (Fail, _) => Fail
  | (Undef, _) => Undef
  end.

(** ** The walk over a frame *)

(** The offsets of the first [n] modules that the filler hands out. *)
Fixpoint filler_path (n : nat) (frame : carray) (f : FrameFiller)
    : option (list Z * FrameFiller) :=
  match n with
  | O => Some ([], f)
  | S n =>
    match FrameFiller_next frame f with
    | (Ret (Some p), f') =>
      match filler_path n frame f' with
      | Some (l, f'') => Some (p :: l, f'')
      | None => None
      end
    | _ => None
    end
  end.

(** A module of no function pattern. *)
Definition data_module (frame : carray) (i : Z) : Prop :=
  ∃ v, acells frame !! i = Some v ∧ Z.land v 0x80 = 0.

(** ** Deciding the properties of a drawn frame *)

(** The set of the elements of a list without repetition. *)
Fixpoint distinct_set (l : list Z) (s : Zmap unit) : option (Zmap unit) :=
  match l with
  | [] => Some s
  | i :: l => match s !! i with Some _ => None | None => distinct_set l (<[i := tt]> s) end
  end.

(** The order of the standard: pairs of columns from right to left, upwards and
    downwards in turn, the right module of a row before the left one. [rights]
    are the right columns of the pairs. *)
Fixpoint zigzag (up : bool) (w : Z) (rights : list Z) : list Z :=
  match rights with
  | [] => []
  | x :: rights =>
    let rows := if up then (λ y, w - 1 - y) <$> range 0 w else range 0 w in
    (rows ≫= λ y, [y * w + x; y * w + x - 1]) ++ zigzag (negb up) w rights
  end.

(** The column of the vertical timing pattern is in no pair: column 6 of a QR
    code, column 0 of a Micro QR code. *)
Definition qr_columns (w : Z) : list Z :=
  ((λ k, w - 1 - 2 * k) <$> range 0 ((w - 7) `div` 2)) ++ [5; 3; 1].

Definition mqr_columns (w : Z) : list Z :=
  (λ k, w - 1 - 2 * k) <$> range 0 (w `div` 2).

Definition is_data_module (frame : carray) (i : Z) : bool :=
  match acells frame !! i with Some v => Z.land v 0x80 =? 0 | None => false end.

(** The data modules in this order. *)
Definition zigzag_path (w : Z) (mqr : bool) (frame : carray) : list Z :=
  List.filter (is_data_module frame) (zigzag true w (if mqr then mqr_columns w else qr_columns w)).

Fixpoint list_eqb (l1 l2 : list Z) : bool :=
  match l1, l2 with
  | [], [] => true
  | x :: l1, y :: l2 => (x =? y) && list_eqb l1 l2
  | _, _ => false
  end.

(** One module: it is the byte that the reference says, and the walk visits it
    exactly if it is a data module. *)
Definition module_check (expected : Z) (cell : option Z) (visited : option unit) : bool :=
  match cell with
  | Some v => (v =? expected) && (0 <=? v) && (v <? 256)
              && Bool.eqb (Z.land v 0x80 =? 0) (bool_decide (is_Some visited))
  | None => false
  end.

Definition modules_check (w : Z) (ref : Z → Z → Z) (frame : carray) (s : Zmap unit) : bool :=
  all_range 0 w (λ y, let row := ref y in
    all_range 0 w (λ x, module_check (row x) (acells frame !! (y * w + x)) (s !! (y * w + x)))).

Definition frame_check (n : nat) (w : Z) (mqr : bool) (ref : Z → Z → Z) (frame : carray)
    : bool :=
  (0 <? w) && (alen frame =? w * w)
  && (Z.of_nat (size (acells frame)) =? w * w)
  && match filler_path n frame (filler_init w mqr) with
     | Some (path, f) =>
       list_eqb path (zigzag_path w mqr frame)
       && match distinct_set path ∅ with
       | Some s => modules_check w ref frame s
       | None => false
       end
       && forallb (λ i, (0 <=? i) && (i <? w * w)) path
       && bool_decide ((FrameFiller_next frame f).1 = Ret None)
     | None => false
     end.

(** Number of data modules of a version: codewords and remainder bits. *)
Definition qr_modules (v : Z) : nat :=
  Z.to_nat (cap_words (capacity v) * 8 + cap_remainder (capacity v)).

Definition qr_frame_check (v : Z) : bool :=
  match QRspec_drawFrame v with
  | Ret frame => frame_check (qr_modules v) (QRspec_getWidth v) false (qr_reference v) frame
  | _ => false
  end.

(** Number of data modules of a Micro QR version. *)
Definition mqr_modules (v : Z) : nat :=
  Z.to_nat (MQRspec_getDataLengthBit v QR_ECLEVEL_L + MQRspec_getECCLength v QR_ECLEVEL_L * 8).

Definition mqr_frame_check (v : Z) : bool :=
  match MQRspec_drawFrame v with
  | Ret frame => frame_check (mqr_modules v) (MQRspec_getWidth v) true mqr_reference frame
  | _ => false
  end.

(** What the components rely on about a blank symbol of width [w]: its modules
    are those of the reference, and the walk of [n] steps visits each data
    module exactly once, in the order of the standard, and then ends. *)
Definition frame_ok (n : nat) (w : Z) (mqr : bool) (ref : Z → Z → Z) (frame : carray) : Prop :=
  0 < w ∧ frame_full (w * w) frame ∧
  (∀ x y, 0 ≤ x < w → 0 ≤ y < w → acells frame !! (y * w + x) = Some (ref y x)) ∧
  NoDup (zigzag_path w mqr frame) ∧
  (∀ i, i ∈ zigzag_path w mqr frame ↔ data_module frame i) ∧
  ∃ f, filler_path n frame (filler_init w mqr) = Some (zigzag_path w mqr frame, f) ∧
    (FrameFiller_next frame f).1 = Ret None.

(** ** Lemmas *)

Lemma distinct_set_spec l s s' :
  distinct_set l s = Some s' →
  NoDup l ∧ (∀ i, i ∈ l → s !! i = None) ∧
  (∀ i, is_Some (s' !! i) ↔ i ∈ l ∨ is_Some (s !! i)).
Proof.
  revert s. induction l as [|x l IH]; intros s Hs; cbn [distinct_set] in Hs.
  { injection Hs as <-. split; [constructor|]. split; [by intros i ?%elem_of_nil|].
    intros i. rewrite elem_of_nil. tauto. }
  destruct (s !! x) as [u|] eqn:Ex; [done|].
  destruct (IH _ Hs) as (Hnd & Hfresh & Hdom).
  assert (Hx : x ∉ l).
  { intros Hin. apply Hfresh in Hin. by rewrite lookup_insert_eq in Hin. }
  split; [by constructor|]. split.
  - intros i [->|Hin]%elem_of_cons; [done|].
    specialize (Hfresh i Hin). rewrite lookup_insert_ne in Hfresh by set_solver. done.
  - intros i. rewrite Hdom, elem_of_cons.
    destruct (decide (i = x)) as [->|Hne].
    + rewrite lookup_insert_eq. naive_solver.
    + rewrite lookup_insert_ne by done. naive_solver.
Qed.

(** A map with [n] entries that has all keys of a range of size [n] has no
    others. *)
Lemma full_map_range (m : Zmap Z) n :
  Z.of_nat (size m) = n → (∀ i, 0 ≤ i < n → is_Some (m !! i)) →
  ∀ i, is_Some (m !! i) → 0 ≤ i < n.
Proof.
  intros Hn Hin i Hi.
  set (R := list_to_set (range 0 n) : mapset Zmap).
  assert (Hsub : R ⊆ dom m).
  { intros j Hj. apply elem_of_dom, Hin. subst R.
    by rewrite elem_of_list_to_set, elem_of_range in Hj. }
  assert (Hsize : size R = size (dom m : mapset Zmap)).
  { subst R. rewrite size_list_to_set by (rewrite range_seqZ; apply NoDup_seqZ).
    rewrite range_seqZ, length_seqZ, size_dom. lia. }
  assert (HR : i ∈ R).
  { apply (set_subseteq_size_equiv R (dom m) Hsub ltac:(lia)). by apply elem_of_dom. }
  subst R. by rewrite elem_of_list_to_set, elem_of_range in HR.
Qed.

(** Offsets and coordinates. *)
Lemma offset_coordinates w i :
  0 < w → 0 ≤ i < w * w →
  0 ≤ i `mod` w < w ∧ 0 ≤ i `div` w < w ∧ i = (i `div` w) * w + i `mod` w.
Proof.
  intros Hw Hi. pose proof (Z.div_mod i w ltac:(lia)).
  pose proof (Z.mod_pos_bound i w ltac:(lia)).
  pose proof (Z.div_pos i w ltac:(lia) ltac:(lia)).
  pose proof (Z.div_lt_upper_bound i w w ltac:(lia) ltac:(lia)). lia.
Qed.

Lemma modules_check_spec w ref frame s :
  modules_check w ref frame s = true →
  ∀ x y, 0 ≤ x < w → 0 ≤ y < w →
  acells frame !! (y * w + x) = Some (ref y x) ∧ is_byte (ref y x) ∧
  (Z.land (ref y x) 0x80 = 0 ↔ is_Some (s !! (y * w + x))).
Proof.
  unfold modules_check. intros H x y Hx Hy.
  pose proof (all_range_spec _ _ _ (all_range_spec _ _ _ H y Hy) x Hx) as Hm. cbv beta in Hm.
  unfold module_check in Hm. destruct (acells frame !! (y * w + x)) as [v|]; [|done].
  rewrite !andb_true_iff in Hm. destruct Hm as [[[->%Z.eqb_eq ?] ?] Hb%eqb_prop].
  split; [done|]. split; [unfold is_byte; lia|]. by rewrite <- Z.eqb_eq, Hb, bool_decide_eq_true.
Qed.

Lemma list_eqb_eq l1 l2 : list_eqb l1 l2 = true → l1 = l2.
Proof.
  revert l2. induction l1 as [|x l1 IH]; intros [|y l2] H; try done.
  cbn [list_eqb] in H. rewrite andb_true_iff in H. destruct H as [->%Z.eqb_eq H]. f_equal. auto.
Qed.

(** What the check of a frame establishes. *)
Lemma frame_check_spec n w mqr ref frame :
  frame_check n w mqr ref frame = true → frame_ok n w mqr ref frame.
Proof.
  unfold frame_check, frame_ok. rewrite !andb_true_iff. intros [[[Hw Hlen] Hsize] Hpath].
  apply Z.ltb_lt in Hw. apply Z.eqb_eq in Hlen, Hsize.
  destruct (filler_path _ _ _) as [[path f]|] eqn:Ep; [|done].
  rewrite !andb_true_iff in Hpath. destruct Hpath as [[[Hzig Hset] Hrng] Hnull].
  apply list_eqb_eq in Hzig. rewrite <- Hzig.
  destruct (distinct_set path ∅) as [s|] eqn:Es; [|done].
  destruct (distinct_set_spec _ _ _ Es) as (Hnd & _ & Hs).
  pose proof (modules_check_spec _ _ _ _ Hset) as Hm.
  assert (Hcell : ∀ i, 0 ≤ i < w * w → ∃ v, acells frame !! i = Some v ∧ is_byte v ∧
    (Z.land v 0x80 = 0 ↔ i ∈ path)).
  { intros i Hi. destruct (offset_coordinates w i Hw Hi) as (Hx & Hy & E).
    destruct (Hm _ _ Hx Hy) as (Hv & Hb & Hd). rewrite <- E in Hv, Hd.
    exists (ref (i `div` w) (i `mod` w)). split; [done|]. split; [done|].
    rewrite Hd, Hs, lookup_empty. split; [intros [?|[? ?]]; done|auto]. }
  assert (Hdom : ∀ i, is_Some (acells frame !! i) → 0 ≤ i < w * w).
  { apply full_map_range; [done|]. intros i Hi. destruct (Hcell i Hi) as (v & -> & _). eauto. }
  split; [done|]. split.
  { split; [done|]. intros i. split; [|apply Hdom].
    intros Hi. destruct (Hcell i Hi) as (v & ? & ? & _). eauto. }
  split; [intros x y Hx Hy; apply (Hm x y Hx Hy)|].
  split; [done|].
  split; [|exists f; split; [done|by apply bool_decide_eq_true in Hnull]].
  rewrite forallb_forall in Hrng. intros i. split.
  - intros Hin. pose proof (proj1 (list_elem_of_In _ _) Hin) as Hi%Hrng.
    destruct (Hcell i ltac:(lia)) as (v & Hv & _ & Hd). exists v. split; [done|]. by apply Hd.
  - intros (v & Hv & Hv0). destruct (Hcell i) as (v' & Hv' & _ & Hd); [apply Hdom; eauto|].
    simplify_eq. by apply Hd.
Qed.

Lemma qr_frames_all : all_range 1 41 qr_frame_check = true.
Proof. vm_cast_no_check (eq_refl true). Qed.

Lemma mqr_frames_all : all_range 1 5 mqr_frame_check = true.
Proof. vm_cast_no_check (eq_refl true). Qed.

Lemma qr_frame_spec v :
  1 ≤ v ≤ 40 →
  ∃ frame, QRspec_drawFrame v = Ret frame ∧
    frame_ok (qr_modules v) (QRspec_getWidth v) false (qr_reference v) frame.
Proof.
  intros Hv. pose proof (all_range_spec _ _ _ qr_frames_all v ltac:(lia)) as H.
  unfold qr_frame_check in H. destruct (QRspec_drawFrame v) as [frame| |]; [|done..].
  exists frame. split; [done|]. by apply frame_check_spec.
Qed.

Lemma mqr_frame_spec v :
  1 ≤ v ≤ 4 →
  ∃ frame, MQRspec_drawFrame v = Ret frame ∧
    frame_ok (mqr_modules v) (MQRspec_getWidth v) true mqr_reference frame.
Proof.
  intros Hv. pose proof (all_range_spec _ _ _ mqr_frames_all v ltac:(lia)) as H.
  unfold mqr_frame_check in H. destruct (MQRspec_drawFrame v) as [frame| |]; [|done..].
  exists frame. split; [done|]. by apply frame_check_spec.
Qed.

Lemma filler_path_length n frame f l f' :
  filler_path n frame f = Some (l, f') → length l = n.
Proof.
  revert f l. induction n as [|n IH]; intros f l H; cbn [filler_path] in H.
  { by injection H as <- _. }
  destruct (FrameFiller_next frame f) as [[[p|]| |] f1]; try done.
  destruct (filler_path n frame f1) as [[l1 f2]|] eqn:E; [|done].
  injection H as <- <-. simpl. f_equal. by eapply IH.
Qed.

(** ** Filling does not disturb the walk

    The filler looks at nothing but bit 7 of the modules. *)

Definition same_kind (a b : option Z) : Prop :=
  (λ v, truth (Z.land v 0x80)) <$> a = (λ v, truth (Z.land v 0x80)) <$> b.

Definition same_mask (a b : carray) : Prop := ∀ i, same_kind (acells a !! i) (acells b !! i).

Lemma step_same_mask a b f : same_mask a b → FrameFiller_step a f = FrameFiller_step b f.
Proof.
  intros H. unfold FrameFiller_step. destruct (ff_bit f =? -1); [done|].
  destruct (if ff_bit f =? 0 then _ else _) as [[x y] bit].
  destruct (if ff_dir f <? 0 then _ else _) as [[x' y'] dir].
  destruct ((x' <? 0) || (y' <? 0)); [done|]. unfold aget.
  specialize (H (y' * ff_width f + x')). unfold same_kind in H.
  destruct (acells a !! _), (acells b !! _); simpl in *; [|done..].
  by injection H as ->.
Qed.

Lemma iterate_ext {S R} n (f g : S → S + R) s : (∀ s, f s = g s) → iterate n f s = iterate n g s.
Proof.
  intros H. revert s. induction n as [|n IH]; intros s; cbn [iterate]; rewrite H; [done|].
  destruct (g s) as [s1|]; [|done]. rewrite IH. destruct (iterate n g s1); auto.
Qed.

Lemma next_same_mask a b f : same_mask a b → FrameFiller_next a f = FrameFiller_next b f.
Proof.
  intros H. unfold FrameFiller_next.
  rewrite (iterate_ext _ _ (FrameFiller_step b)); [done|].
  intros s. by apply step_same_mask.
Qed.

Lemma filler_path_same_mask n a b f : same_mask a b → filler_path n a f = filler_path n b f.
Proof.
  intros H. revert f. induction n as [|n IH]; intros f; cbn [filler_path]; [done|].
  rewrite (next_same_mask a b f) by done.
  destruct (FrameFiller_next b f) as [[[p|]| |] f']; [|done..]. by rewrite IH.
Qed.

(** Data modules hold values without bit 7. *)
Lemma same_mask_insert a p v :
  data_module a p → Z.land v 0x80 = 0 →
  same_mask a (CArray (alen a) (<[p := v]> (acells a))).
Proof.
  intros (u & Hu & Hu0) Hv i. unfold same_kind. simpl.
  destruct (decide (i = p)) as [->|Hne].
  - by rewrite lookup_insert_eq, Hu; simpl; rewrite Hu0, Hv.
  - by rewrite lookup_insert_ne.
Qed.

(** The cells after writing the values along a path. *)
Definition write_path (path vals : list Z) (m : Zmap Z) : Zmap Z :=
  foldl (λ m '(p, v), <[p := v]> m) m (zip path vals).

Lemma write_path_other path vals m i : i ∉ path → write_path path vals m !! i = m !! i.
Proof.
  unfold write_path. revert vals m. induction path as [|p path IH]; intros vals m Hi; [done|].
  destruct vals as [|v vals]; [done|]. simpl. rewrite IH by set_solver.
  apply lookup_insert_ne. set_solver.
Qed.

Lemma write_path_lookup path vals m k p v :
  NoDup path → path !! k = Some p → vals !! k = Some v →
  write_path path vals m !! p = Some v.
Proof.
  unfold write_path. intros Hnd. revert vals m k.
  induction Hnd as [|q path Hq Hnd IH]; intros vals m k Hp Hv; [done|].
  destruct vals as [|u vals]; [done|]. destruct k as [|k]; simpl in Hp, Hv |- *.
  - injection Hp as ->. injection Hv as ->.
    pose proof (write_path_other path vals (<[p := v]> m) p Hq) as H. unfold write_path in H.
    rewrite H. apply lookup_insert_eq.
  - by eapply IH.
Qed.

(** Writing a list of values with [put_module] puts the [k]-th value on the
    [k]-th module of the walk and touches nothing else. *)
Lemma put_modules_path vals frame f path f' n :
  filler_path (length vals) frame f = Some (path, f') →
  alen frame = n → (∀ i, i ∈ path → data_module frame i ∧ 0 ≤ i < n) →
  Forall (λ v, Z.land v 0x80 = 0) vals →
  foldM put_module vals (frame, f)
  = Ret (CArray n (write_path path vals (acells frame)), f').
Proof.
  revert frame f path. induction vals as [|v vals IH]; intros frame f path Hp Hn Hd Hv.
  { cbn in Hp. injection Hp as <- <-. cbn. subst n. by destruct frame. }
  cbn [length filler_path] in Hp. cbn [foldM put_module].
  destruct (FrameFiller_next frame f) as [[[p|]| |] f1] eqn:En; [|done..].
  destruct (filler_path (length vals) frame f1) as [[l f2]|] eqn:El; [|done].
  injection Hp as <- <-. inversion Hv as [|? ? Hv0 Hvs]; subst.
  destruct (Hd p) as [Hdp Hr]; [set_solver|].
  unfold aset. replace ((0 <=? p) && (p <? alen frame)) with true by lia.
  cbn [mbind outcome_bind mret outcome_ret]. 
  pose proof (same_mask_insert frame p v Hdp Hv0) as Hsm.
  set (frame' := CArray (alen frame) (<[p:=v]> (acells frame))) in *.
  rewrite (IH frame' f1 l).
  - done.
  - by rewrite <- (filler_path_same_mask _ frame).
  - done.
  - intros i Hi. destruct (Hd i) as [(u & Hu & Hu0) Hri]; [set_solver|]. split; [|done].
    destruct (decide (i = p)) as [->|Hne].
    + exists v. split; [|done]. apply lookup_insert_eq.
    + exists u. split; [|done]. simpl. by rewrite lookup_insert_ne.
  - done.
Qed.
