(* ===== verification/Mask.v ===== *)
(** * Masking of QR codes (mask.c)

    The eight mask patterns, the format information that is written with a
    mask, the penalty of a symbol and the choice of the mask with the lowest
    penalty. *)

From S2P Require Import Prelude CModel QRSpec.

(** ** Format information *)

(** The loop bodies differ in the two modules that hold a bit; [pos1] and
    [pos2] give their offsets. *)
Definition write_format_bits (count : Z) (pos1 pos2 : Z → Z) (st : carray * Z * Z)
    : outcome (carray * Z * Z) :=
  for_range 0 count (λ i '(frame, blacks, format),
    let '(blacks, v) :=
      if truth (Z.land format 1) then (blacks + 2, 0x85) else (blacks, 0x84) in
    frame ← aset (pos1 i) v frame;
    frame ← aset (pos2 i) v frame;
    mret (frame, blacks, Z.shiftr format 1)) st.

Definition Mask_writeFormatInformation (width : Z) (frame : carray) (mask : Z)
    (level : QRecLevel) : outcome (carray * Z) :=
  let format := QRspec_getFormatInfo mask level in
  st ← write_format_bits 8
         (λ i, width * 8 + width - 1 - i)
         (λ i, if i <? 6 then width * i + 8 else width * (i + 1) + 8)
         (frame, 0, format);
  '(frame, blacks, _) ← write_format_bits 7
         (λ i, width * (width - 7 + i) + 8)
         (λ i, if i =? 0 then width * 8 + 7 else width * 8 + 6 - i) st;
  mret (frame, blacks).

(** ** Mask patterns *)

(** The macro [MASKMAKER]: copy [s] to [d], reversing the data modules where
    the expression vanishes; the result counts the dark modules. *)
Definition MASKMAKER (exp : Z → Z → Z) (width : Z) (s d : carray) : outcome (carray * Z) :=
  '(d, b, _) ← for_range 0 width (λ y st,
      for_range 0 width (λ x '(d, b, p),
        v ← aget s p;
        let v' := if truth (Z.land v 0x80) then v else Z.lxor v (b2z (exp x y =? 0)) in
        d ← aset p v' d;
        mret (d, b + Z.land v' 1, p + 1)) st) (d, 0, 0);
  mret (d, b).

Definition Mask_mask0 := MASKMAKER (λ x y, Z.land (x + y) 1).
Definition Mask_mask1 := MASKMAKER (λ x y, Z.land y 1).
Definition Mask_mask2 := MASKMAKER (λ x y, x `rem` 3).
Definition Mask_mask3 := MASKMAKER (λ x y, (x + y) `rem` 3).
Definition Mask_mask4 := MASKMAKER (λ x y, Z.land ((y `quot` 2) + (x `quot` 3)) 1).
Definition Mask_mask5 := MASKMAKER (λ x y, Z.land (x * y) 1 + (x * y) `rem` 3).
Definition Mask_mask6 := MASKMAKER (λ x y, Z.land (Z.land (x * y) 1 + (x * y) `rem` 3) 1).
Definition Mask_mask7 := MASKMAKER (λ x y, Z.land ((x * y) `rem` 3 + Z.land (x + y) 1) 1).

Definition maskNum : Z := 8.

Definition maskMakers : list (Z → carray → carray → outcome (carray * Z)) :=
  [Mask_mask0; Mask_mask1; Mask_mask2; Mask_mask3;
   Mask_mask4; Mask_mask5; Mask_mask6; Mask_mask7].

(** [maskMakers[mask](width, s, d)]. *)
Definition run_maskMaker (mask width : Z) (s d : carray) : outcome (carray * Z) :=
  f ← deref (maskMakers !! Z.to_nat mask); f width s d.

Definition Mask_makeMask (width : Z) (frame : carray) (mask : Z) (level : QRecLevel) : M carray :=
  if (mask <? 0) || (maskNum <=? mask) then raise EINVAL
  else
    _ ← malloc (width * width);
    '(masked, _) ← liftO (run_maskMaker mask width frame (anew (width * width)));
    '(masked, _) ← liftO (Mask_writeFormatInformation width masked mask level);
    mret masked.

(** ** Penalty of a symbol *)

Definition N1 : Z := 3.
Definition N2 : Z := 3.
Definition N3 : Z := 40.
Definition N4 : Z := 10.

(** [a[j0] == v && a[j1] == v && ...], left to right. *)
Fixpoint cells_equal (a : carray) (js : list Z) (v : Z) : outcome bool :=
  match js with
  | [] => mret true
  | j :: js => x ← aget a j; if x =? v then cells_equal a js v else mret false
  end.

Definition Mask_calcN1N3 (length : Z) (runLength : carray) : outcome Z :=
  for_range 0 length (λ i demerit,
    r ← aget runLength i;
    let demerit := if 5 <=? r then demerit + (N1 + (r - 5)) else demerit in
    if truth (Z.land i 1) && (3 <=? i) && (i <? length - 2) && (r `rem` 3 =? 0) then
      let fact := r `quot` 3 in
      e ← cells_equal runLength [i - 2; i - 1; i + 1; i + 2] fact;
      if e : bool then
        before ← (if i =? 3 then mret true
                  else x ← aget runLength (i - 3); mret (4 * fact <=? x));
        if before : bool then mret (demerit + N3)
        else
          after ← (if length <=? i + 4 then mret true
                   else x ← aget runLength (i + 3); mret (4 * fact <=? x));
          mret (if after : bool then demerit + N3 else demerit)
      else mret demerit
    else mret demerit) 0.

Definition Mask_calcN2 (width : Z) (frame : carray) : outcome Z :=
  '(_, demerit) ← for_range 1 width (λ y st,
      '(p, demerit) ← for_range 1 width (λ x '(p, demerit),
          p0 ← aget frame p;
          p1 ← aget frame (p - 1);
          p2 ← aget frame (p - width);
          p3 ← aget frame (p - width - 1);
          let b22 := Z.land (Z.land (Z.land p0 p1) p2) p3 in
          let w22 := Z.lor (Z.lor (Z.lor p0 p1) p2) p3 in
          mret (p + 1, if truth (Z.land (Z.lor b22 (Z.lxor w22 1)) 1)
                       then demerit + N2 else demerit)) st;
      mret (p + 1, demerit)) (width + 1, 0);
  mret demerit.

(** [frame] is the address of the line, the offset [base]. *)
Definition Mask_calcRunLength (width : Z) (frame : carray) (base dir : Z) (runLength : carray)
    : outcome (carray * Z) :=
  let pitch := if dir =? 0 then 1 else width in
  first ← aget frame base;
  '(runLength, head) ← (if truth (Z.land first 1)
     then runLength ← aset 0 (-1) runLength; mret (runLength, 1)
     else mret (runLength, 0));
  runLength ← aset head 1 runLength;
  '(runLength, head, _) ← for_range 1 width (λ i '(runLength, head, p),
      a ← aget frame p;
      b ← aget frame (p - pitch);
      '(runLength, head) ← (if truth (Z.land (Z.lxor a b) 1)
         then runLength ← aset (head + 1) 1 runLength; mret (runLength, head + 1)
         else r ← aget runLength head;
              runLength ← aset head (r + 1) runLength; mret (runLength, head));
      mret (runLength, head, p + pitch)) (runLength, head, base + pitch);
  mret (runLength, head + 1).

Definition QRSPEC_WIDTH_MAX : Z := 177.

Definition Mask_evaluateSymbol (width : Z) (frame : carray) : outcome Z :=
  demerit ← Mask_calcN2 width frame;
  st ← for_range 0 width (λ y '(demerit, runLength),
      '(runLength, length) ← Mask_calcRunLength width frame (y * width) 0 runLength;
      n ← Mask_calcN1N3 length runLength;
      mret (demerit + n, runLength)) (demerit, anew (QRSPEC_WIDTH_MAX + 1));
  '(demerit, _) ← for_range 0 width (λ x '(demerit, runLength),
      '(runLength, length) ← Mask_calcRunLength width frame x 1 runLength;
      n ← Mask_calcN1N3 length runLength;
      mret (demerit + n, runLength)) st;
  mret demerit.

(** ** Choice of the mask *)

Definition INT_MAX : Z := 2147483647.

(** The loop of [Mask_mask] over the masks that are left. *)
Fixpoint mask_loop (masks : list Z) (width : Z) (frame : carray) (level : QRecLevel)
    (mask : carray) (bestMask : option carray) (minDemerit : Z) : M (option carray) :=
  match masks with
  | [] => mret bestMask
  | i :: masks =>
    let w2 := width * width in
    '(mask, blacks) ← liftO (run_maskMaker i width frame mask);
    '(mask, b) ← liftO (Mask_writeFormatInformation width mask i level);
    let blacks := blacks + b in
    let bratio := ((200 * blacks + w2) `quot` w2) `quot` 2 in
    let demerit := (Z.abs (bratio - 50) `quot` 5) * N4 in
    e ← liftO (Mask_evaluateSymbol width mask);
    let demerit := demerit + e in
    if demerit <? minDemerit then
      ok ← try_malloc w2;
      if ok : bool then mask_loop masks width frame level (anew w2) (Some mask) demerit
      else mret (Some mask)
    else mask_loop masks width frame level mask bestMask minDemerit
  end.

Definition Mask_mask (width : Z) (frame : carray) (level : QRecLevel) : M carray :=
  _ ← malloc (width * width);
  best ← mask_loop (range 0 maskNum) width frame level (anew (width * width)) None INT_MAX;
  match best with Some m => mret m | None => fail end.
