(* ===== verification/MaskTheory.v ===== *)
(** * Theory of masking

    Reference definitions of a masked symbol and of its penalty, and the proof
    that the routines of Mask.v compute them. *)

From S2P Require Import Prelude CModel QRSpec FrameFiller Mask.

(** ** Reference definitions *)

(** The mask conditions of the standard at row [i] and column [j]. *)
Definition mask_bit (k i j : Z) : bool :=
  match k with
  | 0 => (i + j) `mod` 2 =? 0
  | 1 => i `mod` 2 =? 0
  | 2 => j `mod` 3 =? 0
  | 3 => (i + j) `mod` 3 =? 0
  | 4 => (i `div` 2 + j `div` 3) `mod` 2 =? 0
  | 5 => (i * j) `mod` 2 + (i * j) `mod` 3 =? 0
  | 6 => ((i * j) `mod` 2 + (i * j) `mod` 3) `mod` 2 =? 0
  | _ => ((i * j) `mod` 3 + (i + j) `mod` 2) `mod` 2 =? 0
  end.

(** The cells of a symbol whose data modules are reversed where [bit i j]
    holds. *)
Definition masked_cells (bit : Z → Z → bool) (w : Z) (m : Zmap Z) : Zmap Z :=
  map_imap (λ p v, Some
    (if truth (Z.land v 0x80) then v else Z.lxor v (b2z (bit (p `div` w) (p `mod` w))))) m.

(** Offsets of bit [k] of the format information in its two copies: around the
    upper left finder pattern, and along the other two. *)
Definition format_pos1 (w k : Z) : Z :=
  if k <? 6 then w * k + 8
  else if k <? 8 then w * (k + 1) + 8
  else if k =? 8 then w * 8 + 7 else w * 8 + 14 - k.

Definition format_pos2 (w k : Z) : Z :=
  if k <? 8 then w * 8 + w - 1 - k else w * (w - 15 + k) + 8.

Definition format_module (format k : Z) : Z := Z.lor 0x84 (b2z (Z.testbit format k)).

Definition format_cells (w format : Z) : list (Z * Z) :=
  range 0 15 ≫= λ k,
    [(format_pos2 w k, format_module format k); (format_pos1 w k, format_module format k)].

(** Sequential writes. *)
Definition write_cells (l : list (Z * Z)) (m : Zmap Z) : Zmap Z :=
  foldl (λ m '(p, v), <[p := v]> m) m l.

(** The value of a cell, and the number of dark modules. *)
Definition cell (m : Zmap Z) (i : Z) : Z := default 0 (m !! i).
Definition dark (n : Z) (m : Zmap Z) : Z := zsum (λ i, Z.land (cell m i) 1) 0 n.

(** Run lengths of a line of modules; a line that starts with a dark module
    has a leading -1, so that dark runs have odd indices. *)
Fixpoint rle (cur n : Z) (l : list Z) : list Z :=
  match l with
  | [] => [n]
  | b :: l => if b =? cur then rle cur (n + 1) l else n :: rle b 1 l
  end.

Definition line_runs (l : list Z) : list Z :=
  match l with
  | [] => []
  | b :: l => if b =? 1 then -1 :: rle b 1 l else rle b 1 l
  end.

(** Points for a run of five or more modules of the same colour. *)
Definition long_run_points (r : Z) : Z := if 5 <=? r then N1 + (r - 5) else 0.

(** Points for a pattern of ratio 1:1:3:1:1 with its centre at the dark run [i]
    and a light area of four units before or after it. *)
Definition finder_points (R : list Z) (i : Z) : Z :=
  let n := Z.of_nat (length R) in
  let r := nthZ R i in
  let u := r `div` 3 in
  let run k := nthZ R k in
  if Z.odd i && (3 <=? i) && (i <? n - 2) && (r `mod` 3 =? 0)
     && forallb (λ k, run k =? u) [i - 2; i - 1; i + 1; i + 2]
     && ((i =? 3) || (4 * u <=? run (i - 3)) || (n <=? i + 4) || (4 * u <=? run (i + 3)))
  then N3 else 0.

Definition line_points (R : list Z) : Z :=
  zsum (λ i, long_run_points (nthZ R i) + finder_points R i) 0 (Z.of_nat (length R)).

Definition row_bits (w : Z) (m : Zmap Z) (y : Z) : list Z :=
  (λ x, Z.land (cell m (y * w + x)) 1) <$> range 0 w.
Definition column_bits (w : Z) (m : Zmap Z) (x : Z) : list Z :=
  (λ y, Z.land (cell m (y * w + x)) 1) <$> range 0 w.

(** Points for the block of four modules that ends at column [x] and row [y]. *)
Definition block_points (w : Z) (m : Zmap Z) (y x : Z) : Z :=
  let bit x y := Z.land (cell m (y * w + x)) 1 in
  if (bit (x - 1) y =? bit x y) && (bit x (y - 1) =? bit x y)
     && (bit (x - 1) (y - 1) =? bit x y)
  then N2 else 0.

(** Points of the features 1 to 3 of the standard. *)
Definition pattern_points (w : Z) (m : Zmap Z) : Z :=
  zsum (λ y, zsum (block_points w m y) 1 w) 1 w
  + zsum (λ y, line_points (line_runs (row_bits w m y))) 0 w
  + zsum (λ x, line_points (line_runs (column_bits w m x))) 0 w.

(** Points for the proportion of dark modules. *)
Definition proportion_points (w : Z) (m : Zmap Z) : Z :=
  let percent := ((200 * dark (w * w) m + w * w) `div` (w * w)) `div` 2 in
  (Z.abs (percent - 50) `div` 5) * N4.

Definition symbol_points (w : Z) (m : Zmap Z) : Z := proportion_points w m + pattern_points w m.

(** The symbol that results from a frame with mask [k]. *)
Definition masked_symbol (w k : Z) (level : QRecLevel) (m : Zmap Z) : Zmap Z :=
  write_cells (format_cells w (QRspec_getFormatInfo k level)) (masked_cells (mask_bit k) w m).

(** A frame that can be masked: all modules of a symbol of version [v], with
    the format information area still blank. *)
Definition format_area (w : Z) : list Z := (format_cells w 0).*1.

Definition maskable (v : Z) (frame : carray) : Prop :=
  let w := QRspec_getWidth v in
  1 ≤ v ≤ 40 ∧ frame_full (w * w) frame ∧ ∀ p, p ∈ format_area w → acells frame !! p = Some 0x84.

(** ** Sequential writes and dark modules *)

Lemma write_cells_app l1 l2 m : write_cells (l1 ++ l2) m = write_cells l2 (write_cells l1 m).
Proof. unfold write_cells. apply foldl_app. Qed.

Lemma write_cells_other l m p : p ∉ l.*1 → write_cells l m !! p = m !! p.
Proof.
  unfold write_cells. revert m. induction l as [|[q v] l IH]; intros m Hp; [done|].
  cbn [foldl]. rewrite IH by set_solver. apply lookup_insert_ne. set_solver.
Qed.

Lemma write_cells_lookup l m p v : NoDup l.*1 → (p, v) ∈ l → write_cells l m !! p = Some v.
Proof.
  revert m. induction l as [|[q u] l IH]; intros m Hnd Hin; [by apply elem_of_nil in Hin|].
  apply NoDup_cons in Hnd as [Hq Hnd]. apply elem_of_cons in Hin as [[= <- <-]|Hin].
  - change (write_cells l (<[p:=v]> m) !! p = Some v).
    rewrite write_cells_other by done. apply lookup_insert_eq.
  - change (write_cells l (<[q:=u]> m) !! p = Some v). by apply IH.
Qed.

Lemma cell_insert_eq m p v : cell (<[p := v]> m) p = v.
Proof. unfold cell. by rewrite lookup_insert_eq. Qed.

Lemma cell_insert_ne m p q v : p ≠ q → cell (<[p := v]> m) q = cell m q.
Proof. intros H. unfold cell. by rewrite lookup_insert_ne. Qed.

Lemma dark_insert n m p v :
  0 ≤ p < n → dark n (<[p := v]> m) = dark n m - Z.land (cell m p) 1 + Z.land v 1.
Proof.
  intros Hp. unfold dark. rewrite (zsum_update _ (λ i, Z.land (cell m i) 1) 0 n p) by
    (done || intros; rewrite cell_insert_ne; done).
  by rewrite cell_insert_eq.
Qed.

(** Writing over modules that are light adds the dark modules written. *)
Lemma dark_write_cells n l m :
  NoDup l.*1 → (∀ p, p ∈ l.*1 → 0 ≤ p < n ∧ Z.land (cell m p) 1 = 0) →
  dark n (write_cells l m) = dark n m + foldr (λ '(_, v) acc, Z.land v 1 + acc) 0 l.
Proof.
  revert m. induction l as [|[q v] l IH]; intros m Hnd Hl; cbn [foldr].
  { simpl. lia. }
  apply NoDup_cons in Hnd as [Hq Hnd].
  change (write_cells ((q, v) :: l) m) with (write_cells l (<[q := v]> m)).
  destruct (Hl q) as [Hr H0]; [set_solver|].
  rewrite IH, dark_insert, H0; [lia|done|done|].
  intros p Hp. destruct (Hl p) as [? Hp0]; [set_solver|]. split; [done|].
  rewrite cell_insert_ne; [done|]. intros ->. done.
Qed.

(** ** Format information *)

(** The writes of one loop of [Mask_writeFormatInformation]. *)
Definition loop_cells (count : Z) (pos1 pos2 : Z → Z) (format : Z) : list (Z * Z) :=
  range 0 count ≫= λ i, [(pos1 i, format_module format i); (pos2 i, format_module format i)].

Definition ones (format count : Z) : Z := zsum (λ i, b2z (Z.testbit format i)) 0 count.

Lemma land_1_bit v : Z.land v 1 = b2z (Z.testbit v 0).
Proof.
  change 1 with (Z.ones 1). rewrite Z.land_ones by lia. change (2 ^ 1) with 2.
  rewrite <- Z.bit0_mod. by destruct (Z.testbit v 0).
Qed.

Lemma write_format_bits_spec count pos1 pos2 n m b format :
  0 ≤ count → (∀ i, 0 ≤ i < count → 0 ≤ pos1 i < n ∧ 0 ≤ pos2 i < n) →
  write_format_bits count pos1 pos2 (CArray n m, b, format)
  = Ret (CArray n (write_cells (loop_cells count pos1 pos2 format) m),
         b + 2 * ones format count, Z.shiftr format count).
Proof.
  intros Hc Hpos. unfold write_format_bits.
  edestruct (for_range_inv (λ i r, r =
     (CArray n (write_cells (loop_cells i pos1 pos2 format) m),
         b + 2 * ones format i, Z.shiftr format i)) 0 count) as (r & Er & ->);
    [done| | |exact Er].
  - rewrite Z.shiftr_0_r. unfold ones, zsum, for_pure, range. simpl. do 2 f_equal. lia.
  - intros i s Hi ->. destruct (Hpos i Hi) as [H1 H2].
    rewrite land_1_bit, Z.shiftr_spec, Z.add_0_l by lia.
    assert (E1 : ones format (i + 1) = ones format i + b2z (Z.testbit format i))
      by (unfold ones; by rewrite zsum_S by lia).
    assert (E2 : loop_cells (i + 1) pos1 pos2 format = loop_cells i pos1 pos2 format
      ++ [(pos1 i, format_module format i); (pos2 i, format_module format i)])
      by (unfold loop_cells; by rewrite range_snoc, bind_app by lia).
    rewrite E1, E2, write_cells_app. cbn [write_cells foldl]. unfold format_module.
    destruct (Z.testbit format i); cbn [b2z truth Z.eqb negb mbind outcome_bind].
    all: rewrite !aset_in by done; cbn [mbind outcome_bind]; rewrite aset_in by done;
      eexists; (split; [done|]); rewrite Z.shiftr_shiftr by lia; do 2 f_equal; lia.
Qed.

Lemma format_cells_loops w format :
  format_cells w format
  = loop_cells 8 (λ i, w * 8 + w - 1 - i) (λ i, if i <? 6 then w * i + 8 else w * (i + 1) + 8) format
    ++ loop_cells 7 (λ i, w * (w - 7 + i) + 8)
         (λ i, if i =? 0 then w * 8 + 7 else w * 8 + 6 - i) (Z.shiftr format 8).
Proof.
  unfold format_cells, loop_cells.
  assert (Hb : ∀ i, 0 ≤ i → format_module (Z.shiftr format 8) i = format_module format (i + 8)).
  { intros i Hi. unfold format_module. by rewrite Z.shiftr_spec by lia. }
  change (range 0 15) with [0; 1; 2; 3; 4; 5; 6; 7; 8; 9; 10; 11; 12; 13; 14].
  change (range 0 8) with [0; 1; 2; 3; 4; 5; 6; 7]. change (range 0 7) with [0; 1; 2; 3; 4; 5; 6].
  cbn [mbind list_bind app]. rewrite !Hb by lia.
  unfold format_pos1, format_pos2.
  cbn [Z.ltb Z.eqb Z.compare Pos.compare Pos.compare_cont Pos.eqb].
  assert (Hc : ∀ (p q : Z) v (l k : list (Z * Z)), p = q → l = k → (p, v) :: l = (q, v) :: k)
    by congruence.
  repeat (apply Hc; [lia|]). done.
Qed.

Lemma format_area_eq w format : (format_cells w format).*1 = format_area w.
Proof. done. Qed.

Definition format_area_check (v : Z) : bool :=
  let w := QRspec_getWidth v in
  bool_decide (NoDup (format_area w))
  && forallb (λ p, (0 <=? p) && (p <? w * w) && (qr_reference v (p `div` w) (p `mod` w) =? 0x84))
       (format_area w).

Lemma format_area_all : all_range 1 41 format_area_check = true.
Proof. by vm_compute. Qed.

Lemma format_area_ok v :
  1 ≤ v ≤ 40 →
  let w := QRspec_getWidth v in
  NoDup (format_area w) ∧
  ∀ p, p ∈ format_area w →
    0 ≤ p < w * w ∧ qr_reference v (p `div` w) (p `mod` w) = 0x84.
Proof.
  intros Hv w. pose proof (all_range_spec _ _ _ format_area_all v ltac:(lia)) as H.
  unfold format_area_check in H. fold w in H. rewrite andb_true_iff in H. destruct H as [H1 H2].
  split; [by apply bool_decide_eq_true in H1|]. intros p Hp.
  rewrite forallb_forall in H2. apply list_elem_of_In, H2 in Hp. lia.
Qed.

(** The blank symbol of a version can be masked. *)
Lemma frame_ok_maskable v n mqr frame :
  1 ≤ v ≤ 40 → frame_ok n (QRspec_getWidth v) mqr (qr_reference v) frame → maskable v frame.
Proof.
  intros Hv (Hw & Hfull & Hcells & _). split; [done|]. split; [done|].
  intros p Hp. destruct (format_area_ok v Hv) as [_ Harea].
  destruct (Harea p Hp) as [Hr E].
  destruct (offset_coordinates _ p Hw Hr) as (Hx & Hy & Ep).
  rewrite Ep, Hcells by done. by rewrite E.
Qed.

Lemma Mask_writeFormatInformation_spec v m k level :
  1 ≤ v ≤ 40 →
  let w := QRspec_getWidth v in
  let format := QRspec_getFormatInfo k level in
  Mask_writeFormatInformation w (CArray (w * w) m) k level
  = Ret (CArray (w * w) (write_cells (format_cells w format) m), 2 * ones format 15).
Proof.
  intros Hv w format. unfold Mask_writeFormatInformation. fold format.
  assert (Hw : 21 ≤ w) by (pose proof (capacity_width v Hv); lia).
  clearbody w. clear Hv v. assert (Hww : 21 * w ≤ w * w) by nia.
  assert (Hwi : ∀ i, 0 ≤ i → 0 ≤ w * i ∧ (i ≤ 7 → w * i ≤ w * 7) ∧ (i ≤ 6 → w * i ≤ w * 6))
    by (intros i Hi; repeat split; intros; nia).
  rewrite write_format_bits_spec; [|done|].
  2:{ intros i Hi. destruct (Hwi i ltac:(lia)) as (? & H7 & _). specialize (H7 ltac:(lia)).
      split; [lia|]. destruct (Z.ltb_spec i 6); lia. }
  cbn [mbind outcome_bind]. rewrite write_format_bits_spec; [|done|].
  2:{ intros i Hi. destruct (Hwi i ltac:(lia)) as (? & _ & H6). specialize (H6 ltac:(lia)).
      split; [lia|]. destruct (Z.eqb_spec i 0); lia. }
  cbn [mbind outcome_bind]. rewrite <- write_cells_app, <- format_cells_loops.
  do 2 f_equal. unfold ones, zsum, for_pure.
  change (range 0 15) with [0; 1; 2; 3; 4; 5; 6; 7; 8; 9; 10; 11; 12; 13; 14].
  change (range 0 8) with [0; 1; 2; 3; 4; 5; 6; 7]. change (range 0 7) with [0; 1; 2; 3; 4; 5; 6].
  cbn [foldl]. rewrite !Z.shiftr_spec by lia. 
  change (0 + 8) with 8. change (1 + 8) with 9. change (2 + 8) with 10. change (3 + 8) with 11.
  change (4 + 8) with 12. change (5 + 8) with 13. change (6 + 8) with 14. lia.
Qed.

(** ** Mask patterns *)

(** A buffer for a symbol of width [w]. *)
Definition symbol_buffer (w : Z) (d : carray) : Prop :=
  alen d = w * w ∧ ∀ p, is_Some (acells d !! p) → 0 ≤ p < w * w.

Lemma lookup_masked_cells f w m p v :
  m !! p = Some v →
  masked_cells f w m !! p
  = Some (if truth (Z.land v 0x80) then v else Z.lxor v (b2z (f (p `div` w) (p `mod` w)))).
Proof. intros Hv. unfold masked_cells. by rewrite map_lookup_imap, Hv. Qed.

Lemma masked_cells_at f w m x y v :
  0 ≤ x < w → m !! (y * w + x) = Some v →
  masked_cells f w m !! (y * w + x)
  = Some (if truth (Z.land v 0x80) then v else Z.lxor v (b2z (f y x))).
Proof.
  intros Hx Hv. rewrite (lookup_masked_cells _ _ _ _ v) by done.
  rewrite Z.div_add_l, (Z.div_small x), Z.add_0_r by lia.
  by rewrite (Z.add_comm (y * w)), Z.mod_add, Z.mod_small by lia.
Qed.

(** Filling a symbol row by row. *)
Lemma fill_symbol w s d f (md : Zmap Z) :
  0 < w → frame_full (w * w) s → symbol_buffer w d →
  (∀ q, md !! q = if decide (0 ≤ q < w * w) then masked_cells f w (acells s) !! q
                  else acells d !! q) →
  md = masked_cells f w (acells s).
Proof.
  intros Hw [_ Hcells] [_ Hdom] Hmd. apply map_eq. intros q. rewrite Hmd.
  destruct (decide (0 ≤ q < w * w)) as [|Hq]; [done|]. transitivity (@None Z).
  - apply eq_None_not_Some. intros Hq'. by apply Hq, Hdom.
  - symmetry. apply eq_None_not_Some. intros Hq'. apply Hq, Hcells.
    unfold masked_cells in Hq'. rewrite map_lookup_imap in Hq'.
    destruct (acells s !! q); [eauto|by destruct Hq'].
Qed.

Lemma MASKMAKER_spec exp w s d :
  0 < w → frame_full (w * w) s → symbol_buffer w d →
  let m := masked_cells (λ i j, exp j i =? 0) w (acells s) in
  MASKMAKER exp w s d = Ret (CArray (w * w) m, dark (w * w) m).
Proof.
  intros Hw Hs Hd m. unfold MASKMAKER.
  edestruct (raster_inv (λ p (st : carray * Z * Z), ∃ md, st = (CArray (w * w) md, dark p m, p) ∧
      ∀ q, md !! q = if decide (0 ≤ q < p) then m !! q else acells d !! q) w)
    as (st & Est & md & -> & Hmd); [lia| | |eapply bind_ret_eq; [exact Est|]].
  - exists (acells d). destruct Hd as [<- _]. split; [by destruct d|].
    intros q. by rewrite decide_False by lia.
  - intros x y st Hx Hy (md & -> & Hmd). cbv beta iota. set (p := y * w + x) in *.
    assert (Hp : 0 ≤ p < w * w) by (unfold p; nia).
    destruct (proj1 (proj2 Hs p) Hp) as (v & Hv & _).
    pose proof (masked_cells_at (λ i j, exp j i =? 0) w (acells s) x y v Hx Hv) as Hmp.
    fold p m in Hmp. destruct s as [sn sm]. simpl in Hv. rewrite (aget_Some _ _ _ _ Hv).
    cbn [mbind outcome_bind]. rewrite aset_in by done. cbn [mbind outcome_bind].
    eexists. split; [done|]. eexists. split.
    + f_equal. f_equal. unfold dark. rewrite zsum_S by lia. unfold cell at 3. by rewrite Hmp.
    + intros q. destruct (decide (q = p)) as [->|Hne].
      * rewrite lookup_insert_eq, decide_True by lia. done.
      * rewrite lookup_insert_ne by done. rewrite Hmd. repeat case_decide; done || lia.
  - simpl. do 3 f_equal. by apply (fill_symbol w s d).
Qed.

Lemma land_1_mod x : Z.land x 1 = x `mod` 2.
Proof. change 1 with (Z.ones 1). by rewrite Z.land_ones by lia. Qed.

Definition maskMaker_exp (k : Z) : Z → Z → Z :=
  match k with
  | 0 => λ x y, Z.land (x + y) 1
  | 1 => λ x y, Z.land y 1
  | 2 => λ x y, x `rem` 3
  | 3 => λ x y, (x + y) `rem` 3
  | 4 => λ x y, Z.land ((y `quot` 2) + (x `quot` 3)) 1
  | 5 => λ x y, Z.land (x * y) 1 + (x * y) `rem` 3
  | 6 => λ x y, Z.land (Z.land (x * y) 1 + (x * y) `rem` 3) 1
  | _ => λ x y, Z.land ((x * y) `rem` 3 + Z.land (x + y) 1) 1
  end.

Lemma run_maskMaker_eq k w s d :
  0 ≤ k < 8 → run_maskMaker k w s d = MASKMAKER (maskMaker_exp k) w s d.
Proof. intros Hk. enum_Z k 0 8; try done. lia. Qed.

(** The expressions of the code are the conditions of the standard. *)
Lemma maskMaker_exp_bit k i j :
  0 ≤ k < 8 → 0 ≤ i → 0 ≤ j → (maskMaker_exp k j i =? 0) = mask_bit k i j.
Proof.
  intros Hk Hi Hj. assert (0 ≤ j * i) by nia.
  enum_Z k 0 8; try lia; unfold maskMaker_exp, mask_bit;
    rewrite ?land_1_mod, ?Z.rem_mod_nonneg, ?Z.quot_div_nonneg by lia;
    rewrite ?(Z.add_comm j i), ?(Z.mul_comm j i); done.
Qed.

Lemma masked_cells_ext f g w m :
  (∀ p, is_Some (m !! p) → f (p `div` w) (p `mod` w) = g (p `div` w) (p `mod` w)) →
  masked_cells f w m = masked_cells g w m.
Proof.
  intros H. unfold masked_cells. apply map_eq. intros p. rewrite !map_lookup_imap.
  destruct (m !! p) as [v|] eqn:E; [|done]. simpl. by rewrite H by eauto.
Qed.

Lemma anew_buffer w : symbol_buffer w (anew (w * w)).
Proof. split; [done|]. intros p [v Hp]. unfold anew in Hp. cbn [acells] in Hp. by rewrite lookup_empty in Hp. Qed.

(** Each mask reverses the data modules that the standard says, and no others. *)
Lemma run_maskMaker_spec k w s d :
  0 ≤ k < 8 → 0 < w → frame_full (w * w) s → symbol_buffer w d →
  let m := masked_cells (mask_bit k) w (acells s) in
  run_maskMaker k w s d = Ret (CArray (w * w) m, dark (w * w) m).
Proof.
  intros Hk Hw Hs Hd m. rewrite run_maskMaker_eq by done.
  rewrite MASKMAKER_spec by done.
  assert (E : masked_cells (λ i j, maskMaker_exp k j i =? 0) w (acells s) = m); [|by rewrite E].
  apply masked_cells_ext. intros p Hp. apply Hs in Hp.
  destruct (offset_coordinates w p Hw Hp) as (Hx & Hy & _).
  apply maskMaker_exp_bit; lia.
Qed.

Lemma format_module_dark format k : Z.land (format_module format k) 1 = b2z (Z.testbit format k).
Proof. unfold format_module. by destruct (Z.testbit format k). Qed.

Lemma format_cells_dark w format :
  foldr (λ '(_, v) acc, Z.land v 1 + acc) 0 (format_cells w format) = 2 * ones format 15.
Proof.
  unfold ones, zsum, for_pure, format_cells.
  change (range 0 15) with [0; 1; 2; 3; 4; 5; 6; 7; 8; 9; 10; 11; 12; 13; 14].
  cbn [mbind list_bind app foldr foldl]. rewrite !format_module_dark. lia.
Qed.

(** Mask and format information together: the symbol, and the number of its
    dark modules. *)
Lemma mask_symbol_spec v k level frame d :
  maskable v frame → 0 ≤ k < 8 → symbol_buffer (QRspec_getWidth v) d →
  let w := QRspec_getWidth v in
  ∃ m b b', run_maskMaker k w frame d = Ret (m, b) ∧
    Mask_writeFormatInformation w m k level
    = Ret (CArray (w * w) (masked_symbol w k level (acells frame)), b') ∧
    b + b' = dark (w * w) (masked_symbol w k level (acells frame)).
Proof.
  intros (Hv & Hfull & Harea) Hk Hd w. fold w in Hfull, Harea, Hd.
  assert (Hw : 0 < w) by (unfold w; rewrite capacity_width; lia).
  eexists _, _, _. rewrite run_maskMaker_spec by done. split; [done|].
  unfold w. rewrite Mask_writeFormatInformation_spec by done. fold w. split; [done|].
  unfold masked_symbol. destruct (format_area_ok v Hv) as [Hnd Hr]. fold w in Hnd, Hr.
  rewrite dark_write_cells, format_cells_dark; [done|done|].
  intros p Hp. change (p ∈ format_area w) in Hp. split; [by apply Hr|].
  unfold cell. by rewrite (lookup_masked_cells _ _ _ _ 0x84) by auto.
Qed.

(** ** Points of a line *)

(** The buffer [runLength] starts with the given entries. *)
Definition runs_in (rl : carray) (R : list Z) : Prop :=
  alen rl = QRSPEC_WIDTH_MAX + 1 ∧
  ∀ k x, R !! k = Some x → acells rl !! Z.of_nat k = Some x.

Lemma runs_in_get rl R k :
  runs_in rl R → 0 ≤ k < Z.of_nat (length R) → aget rl k = Ret (nthZ R k).
Proof.
  intros [_ H] Hk. destruct (lookup_lt_is_Some_2 R (Z.to_nat k)) as [x Hx]; [lia|].
  rewrite (nthZ_lookup _ _ _ Hx). apply H in Hx. rewrite Z2Nat.id in Hx by lia.
  unfold aget. by rewrite Hx.
Qed.

Lemma cells_equal_spec rl R js v :
  runs_in rl R → (∀ k, k ∈ js → 0 ≤ k < Z.of_nat (length R)) →
  cells_equal rl js v = Ret (forallb (λ k, nthZ R k =? v) js).
Proof.
  intros HR. induction js as [|j js IH]; intros Hj; [done|].
  cbn [cells_equal forallb]. rewrite (runs_in_get rl R) by (done || apply Hj; left).
  cbn [mbind outcome_bind]. destruct (nthZ R j =? v); [|done].
  apply IH. intros k Hk. apply Hj. by right.
Qed.

(** [Mask_calcN1N3] computes the points of a line. *)
Lemma Mask_calcN1N3_spec rl R :
  runs_in rl R → Forall (λ x, -1 ≤ x) R →
  Mask_calcN1N3 (Z.of_nat (length R)) rl = Ret (line_points R).
Proof.
  intros HR Hpos. unfold Mask_calcN1N3, line_points. set (n := Z.of_nat (length R)).
  edestruct (for_range_inv (λ i d, d =
    zsum (λ i, long_run_points (nthZ R i) + finder_points R i) 0 i) 0 n) as (d & Ed & ->);
    [lia|done| |exact Ed].
  intros i d Hi ->. cbv beta. rewrite (runs_in_get rl R i) by done. cbn [mbind outcome_bind].
  rewrite zsum_S by lia. set (acc := zsum _ 0 i). set (r := nthZ R i).
  assert (Hr : -1 ≤ r).
  { destruct (lookup_lt_is_Some_2 R (Z.to_nat i)) as [x Hx]; [lia|].
    unfold r. rewrite (nthZ_lookup _ _ _ Hx). by eapply Forall_lookup_1 in Hx. }
  set (acc' := if 5 <=? r then acc + (N1 + (r - 5)) else acc).
  assert (Ha : acc' = acc + long_run_points r).
  { unfold acc', long_run_points. case_bool; lia. }
  replace (acc + (long_run_points r + finder_points R i))
    with (acc' + finder_points R i) by lia. clear Ha.
  unfold finder_points. fold r n.
  assert (Hrem : (r `rem` 3 =? 0) = (r `mod` 3 =? 0)).
  { destruct (decide (r = -1)) as [->|]; [done|]. by rewrite Z.rem_mod_nonneg by lia. }
  rewrite truth_land_1, Hrem. destruct (Z.odd i && (3 <=? i) && (i <? n - 2) && (r `mod` 3 =? 0)) eqn:E.
  2:{ cbn [andb]. exists acc'. split; [done|lia]. }
  assert (Hr0 : r ≠ -1) by (intros Er; rewrite Er in E; by rewrite andb_false_r in E).
  rewrite Z.quot_div_nonneg by lia. set (u := r `div` 3).
  rewrite (cells_equal_spec rl R) by (done || intros k; rewrite !elem_of_cons, elem_of_nil; lia).
  cbn [mbind outcome_bind andb].
  destruct (forallb _ [i - 2; i - 1; i + 1; i + 2]); [|exists acc'; split; [done|cbn [andb]; lia]].
  cbn [andb]. destruct (Z.eqb_spec i 3) as [->|Hi3].
  { cbn [mbind outcome_bind orb]. eauto. }
  rewrite (runs_in_get rl R (i - 3)) by (done || lia). cbn [mbind outcome_bind orb].
  destruct (4 * u <=? nthZ R (i - 3)); [by eauto|].
  destruct (Z.leb_spec n (i + 4)); cbn [mbind outcome_bind orb]; [by eauto|].
  rewrite (runs_in_get rl R (i + 3)) by (done || lia). cbn [mbind outcome_bind orb].
  eexists. split; [done|]. destruct (4 * u <=? nthZ R (i + 3)); lia.
Qed.

(** ** Run lengths *)

Lemma rle_nonempty cur n l : (0 < length (rle cur n l))%nat.
Proof. revert cur n. induction l as [|b l IH]; intros cur n; simpl; [lia|]. destruct (b =? cur); simpl; [apply IH|lia]. Qed.

Lemma rle_length cur n l : (length (rle cur n l) ≤ S (length l))%nat.
Proof.
  revert cur n. induction l as [|b l IH]; intros cur n; simpl; [lia|].
  destruct (b =? cur); simpl; [specialize (IH cur (n + 1)); lia|specialize (IH b 1); lia].
Qed.

Lemma last_cons_default (c : Z) l d : List.last (c :: l) d = List.last l c.
Proof.
  revert c d. induction l as [|e l IH]; intros c d; [done|].
  change (List.last (e :: l) d = List.last (e :: l) c). by rewrite !IH.
Qed.

(** The last module of a line decides whether the last run grows. *)
Lemma rle_snoc cur n l b :
  rle cur n (l ++ [b])
  = if b =? List.last l cur
    then alter (λ r, r + 1) (length (rle cur n l) - 1)%nat (rle cur n l)
    else rle cur n l ++ [1].
Proof.
  revert cur n. induction l as [|c l IH]; intros cur n.
  { simpl. by destruct (b =? cur). }
  cbn [app rle].
  rewrite last_cons_default.
  destruct (Z.eqb_spec c cur) as [->|Hne].
  - rewrite IH. done.
  - rewrite IH. destruct (b =? List.last l c); [|done].
    pose proof (rle_nonempty c 1 l). cbn [length].
    destruct (length (rle c 1 l)) as [|k] eqn:Ek; [lia|]. simpl. by rewrite Nat.sub_0_r.
Qed.

Lemma line_runs_snoc l b :
  l ≠ [] →
  line_runs (l ++ [b])
  = if b =? List.last l 0
    then alter (λ r, r + 1) (length (line_runs l) - 1)%nat (line_runs l)
    else line_runs l ++ [1].
Proof.
  destruct l as [|c l]; [done|]. intros _. cbn [app line_runs].
  rewrite rle_snoc, last_cons_default. pose proof (rle_nonempty c 1 l).
  destruct (c =? 1), (b =? List.last l c); try done.
  cbn [length]. destruct (length (rle c 1 l)) as [|k]; [lia|]. simpl. by rewrite Nat.sub_0_r.
Qed.

Lemma line_runs_nonempty l : l ≠ [] → (0 < length (line_runs l))%nat.
Proof.
  destruct l as [|b l]; [done|]. intros _. pose proof (rle_nonempty b 1 l).
  simpl. destruct (b =? 1); simpl; lia.
Qed.

Lemma line_runs_length l : (length (line_runs l) ≤ S (length l))%nat.
Proof.
  destruct l as [|b l]; simpl; [lia|]. pose proof (rle_length b 1 l).
  destruct (b =? 1); simpl; lia.
Qed.

Lemma rle_total cur n l : foldr Z.add 0 (rle cur n l) = n + Z.of_nat (length l).
Proof.
  revert cur n. induction l as [|b l IH]; intros cur n; cbn [rle foldr length]; [lia|].
  destruct (b =? cur); cbn [foldr]; rewrite IH; lia.
Qed.

Lemma rle_pos cur n l : 1 ≤ n → Forall (λ r, 1 ≤ r) (rle cur n l).
Proof.
  revert cur n. induction l as [|b l IH]; intros cur n Hn; simpl; [by repeat constructor|].
  destruct (b =? cur); [apply IH; lia|]. constructor; [done|]. by apply IH.
Qed.

Lemma line_runs_bounds l : Forall (λ r, -1 ≤ r) (line_runs l).
Proof.
  destruct l as [|b l]; simpl; [constructor|].
  assert (Forall (λ r, -1 ≤ r) (rle b 1 l)).
  { eapply Forall_impl; [by apply rle_pos|]. intros; simpl in *; lia. }
  destruct (b =? 1); [by constructor|done].
Qed.

(** Writing to the buffer of run lengths. *)
Lemma runs_in_snoc rl R x :
  runs_in rl R → Z.of_nat (length R) < QRSPEC_WIDTH_MAX + 1 →
  ∃ rl', aset (Z.of_nat (length R)) x rl = Ret rl' ∧ runs_in rl' (R ++ [x]).
Proof.
  intros [Hn HR] Hlen. destruct rl as [n m]. simpl in *. subst n. rewrite aset_in by lia.
  eexists. split; [done|]. split; [done|]. intros k y Hk. simpl.
  destruct (decide (k < length R)%nat).
  - rewrite lookup_app_l in Hk by lia. rewrite lookup_insert_ne by lia. by apply HR.
  - rewrite lookup_app_r in Hk by lia. destruct (k - length R)%nat eqn:E; [|done].
    injection Hk as <-. assert (k = length R) as -> by lia. apply lookup_insert_eq.
Qed.

Lemma runs_in_incr rl R :
  runs_in rl R → (0 < length R)%nat → Z.of_nat (length R) ≤ QRSPEC_WIDTH_MAX + 1 →
  ∃ r rl', aget rl (Z.of_nat (length R - 1)) = Ret r ∧
    aset (Z.of_nat (length R - 1)) (r + 1) rl = Ret rl' ∧
    runs_in rl' (alter (λ r, r + 1) (length R - 1)%nat R).
Proof.
  intros [Hn HR] H0 Hlen. destruct rl as [n m]. simpl in *. subst n.
  destruct (lookup_lt_is_Some_2 R (length R - 1)) as [r Hr]; [lia|].
  exists r. rewrite (aget_Some _ _ _ r) by (by apply HR). rewrite aset_in by lia.
  eexists. split; [done|]. split; [done|]. split; [done|]. intros k y Hk. simpl.
  destruct (decide (k = (length R - 1)%nat)) as [->|Hne].
  - rewrite list_lookup_alter_eq, Hr in Hk. injection Hk as <-. apply lookup_insert_eq.
  - rewrite list_lookup_alter_ne in Hk by done. rewrite lookup_insert_ne by lia. by apply HR.
Qed.

(** The bits of the modules [base], [base + pitch], ... *)
Definition line_bits (m : Zmap Z) (base pitch n : Z) : list Z :=
  (λ i, Z.land (cell m (base + i * pitch)) 1) <$> range 0 n.

Lemma line_bits_S m base pitch n :
  0 ≤ n → line_bits m base pitch (n + 1)
          = line_bits m base pitch n ++ [Z.land (cell m (base + n * pitch)) 1].
Proof. intros Hn. unfold line_bits. by rewrite range_snoc, fmap_app by lia. Qed.

Lemma line_bits_length m base pitch n : 0 ≤ n → length (line_bits m base pitch n) = Z.to_nat n.
Proof. intros Hn. unfold line_bits. rewrite length_fmap, range_seqZ, length_seqZ. lia. Qed.

Lemma truth_bit x : truth (Z.land x 1) = (Z.land x 1 =? 1).
Proof. rewrite land_1_bit. by destruct (Z.testbit x 0). Qed.

Lemma bits_differ a b : truth (Z.land (Z.lxor a b) 1) = negb (Z.land a 1 =? Z.land b 1).
Proof.
  rewrite !land_1_bit, Z.lxor_spec. by destruct (Z.testbit a 0), (Z.testbit b 0).
Qed.

(** [Mask_calcRunLength] computes the runs of a line of modules. *)
Lemma Mask_calcRunLength_spec w n m base dir rl :
  let pitch := if dir =? 0 then 1 else w in
  0 < w ≤ QRSPEC_WIDTH_MAX → alen rl = QRSPEC_WIDTH_MAX + 1 →
  (∀ i, 0 ≤ i < w → is_Some (m !! (base + i * pitch))) →
  let R := line_runs (line_bits m base pitch w) in
  ∃ rl', Mask_calcRunLength w (CArray n m) base dir rl = Ret (rl', Z.of_nat (length R)) ∧
    runs_in rl' R.
Proof.
  intros pitch Hw Hrl Hm R. unfold Mask_calcRunLength. fold pitch.
  assert (Hcell : ∀ i, 0 ≤ i < w →
    aget (CArray n m) (base + i * pitch) = Ret (cell m (base + i * pitch))).
  { intros i Hi. destruct (Hm i Hi) as [v Hv]. unfold cell. rewrite Hv. by apply aget_Some. }
  pose proof (Hcell 0 ltac:(lia)) as H0. rewrite Z.mul_0_l, Z.add_0_r in H0. rewrite H0.
  cbn [mbind outcome_bind]. rewrite truth_bit.
  set (c0 := Z.land (cell m base) 1).
  assert (E1 : line_bits m base pitch 1 = [c0]).
  { unfold c0. rewrite <- (Z.add_0_r base) at 2. by rewrite <- (Z.mul_0_l pitch). }
  (* the first run *)
  assert (H1 : ∃ rl1 head1,
    (if c0 =? 1 then aset 0 (-1) rl ≫= λ rl, mret (rl, 1) else mret (rl, 0)) = Ret (rl1, head1) ∧
    ∃ rl2, aset head1 1 rl1 = Ret rl2 ∧ runs_in rl2 (line_runs [c0]) ∧
      head1 + 1 = Z.of_nat (length (line_runs [c0]))).
  { clear H0. assert (H0 : runs_in rl []) by (split; [done|]; intros ? ? [=]).
    cbn [line_runs rle]. destruct (c0 =? 1).
    - destruct (runs_in_snoc rl [] (-1) H0) as (rl1 & Ea & Hr1); [done|].
      change (aset 0 (-1) rl = Ret rl1) in Ea. rewrite Ea. eexists _, _. split; [done|].
      destruct (runs_in_snoc rl1 [-1] 1 Hr1) as (rl2 & Eb & Hr2); [done|].
      exists rl2. by split.
    - eexists _, _. split; [done|].
      destruct (runs_in_snoc rl [] 1 H0) as (rl2 & Eb & Hr2); [done|].
      exists rl2. by split. }
  destruct H1 as (rl1 & head1 & Ea & rl2 & Eb & Hr2 & Hh).
  rewrite Ea. cbn [mbind outcome_bind]. rewrite Eb. cbn [mbind outcome_bind].
  edestruct (for_range_inv (λ i (st : carray * Z * Z), ∃ rl head,
      st = (rl, head, base + i * pitch) ∧ runs_in rl (line_runs (line_bits m base pitch i)) ∧
      head + 1 = Z.of_nat (length (line_runs (line_bits m base pitch i)))) 1 w)
    as (st & Est & rl' & head & -> & Hr & Hh');
    [lia| | |exists rl'; split; [|done]; eapply bind_ret_eq; [exact Est|]; cbv beta iota;
              by rewrite Hh'].
  2:{ intros i st Hi (rla & hd & -> & Hra & Hhd). cbv beta iota.
    rewrite Hcell by lia. cbn [mbind outcome_bind].
    replace (base + i * pitch - pitch) with (base + (i - 1) * pitch) by lia.
    rewrite Hcell by lia. cbn [mbind outcome_bind]. rewrite bits_differ.
    assert (Hlast : List.last (line_bits m base pitch i) 0
                    = Z.land (cell m (base + (i - 1) * pitch)) 1).
    { replace i with (i - 1 + 1) at 1 by lia. rewrite line_bits_S by lia. apply List.last_last. }
    assert (Hne : line_bits m base pitch i ≠ []).
    { intros E. apply (f_equal length) in E. rewrite line_bits_length in E by lia. simpl in E. lia. }
    pose proof (line_runs_nonempty _ Hne) as Hpos.
    pose proof (line_runs_length (line_bits m base pitch i)) as Hlen.
    rewrite line_bits_length in Hlen by lia. unfold QRSPEC_WIDTH_MAX in *.
    rewrite (line_bits_S m base pitch i), (line_runs_snoc _ _ Hne), Hlast by lia.
    set (L := line_runs (line_bits m base pitch i)) in *.
    destruct (Z.land (cell m (base + i * pitch)) 1
              =? Z.land (cell m (base + (i - 1) * pitch)) 1); cbn [negb].
    - destruct (runs_in_incr rla L Hra Hpos) as (r & rlb & Eg & Es & Hrb); [unfold QRSPEC_WIDTH_MAX; lia|].
      replace hd with (Z.of_nat (length L - 1)) by lia. rewrite Eg. cbn [mbind outcome_bind].
      rewrite Es. cbn [mbind outcome_bind]. eexists. split; [done|].
      eexists _, _. split; [f_equal; lia|]. split; [done|]. rewrite length_alter. lia.
    - destruct (runs_in_snoc rla L 1 Hra) as (rlb & Es & Hrb); [unfold QRSPEC_WIDTH_MAX; lia|].
      rewrite Hhd, Es. cbn [mbind outcome_bind]. eexists. split; [done|].
      eexists _, _. split; [f_equal; lia|]. split; [done|]. rewrite length_app. simpl. lia. }
  rewrite E1, Z.mul_1_l. eauto.
Qed.

(** ** Points of a symbol *)

Definition symbol_cells (w : Z) (m : Zmap Z) : Prop := ∀ p, 0 ≤ p < w * w → is_Some (m !! p).

Lemma aget_cell n m p : is_Some (m !! p) → aget (CArray n m) p = Ret (cell m p).
Proof. intros [v Hv]. unfold cell. rewrite Hv. by apply aget_Some. Qed.

Lemma same_colour a b c d :
  truth (Z.land (Z.lor (Z.land (Z.land (Z.land a b) c) d)
                       (Z.lxor (Z.lor (Z.lor (Z.lor a b) c) d) 1)) 1)
  = (Z.land b 1 =? Z.land a 1) && (Z.land c 1 =? Z.land a 1) && (Z.land d 1 =? Z.land a 1).
Proof.
  rewrite !land_1_bit, Z.lor_spec, !Z.land_spec, Z.lxor_spec, !Z.lor_spec.
  by destruct (Z.testbit a 0), (Z.testbit b 0), (Z.testbit c 0), (Z.testbit d 0).
Qed.

Lemma Mask_calcN2_spec w n m :
  0 < w → symbol_cells w m →
  Mask_calcN2 w (CArray n m) = Ret (zsum (λ y, zsum (block_points w m y) 1 w) 1 w).
Proof.
  intros Hw Hm. unfold Mask_calcN2.
  edestruct (for_range_inv (λ y st, st =
      (y * w + 1, zsum (λ y, zsum (block_points w m y) 1 w) 1 y)) 1 w)
    as (st & Est & ->); [lia| | |eapply bind_ret_eq; [exact Est|done]].
  { by rewrite zsum_nil, Z.mul_1_l, (Z.add_comm w). }
  intros y st Hy ->. cbv beta.
  edestruct (for_range_inv (λ x st, st =
      (y * w + x, zsum (λ y, zsum (block_points w m y) 1 w) 1 y + zsum (block_points w m y) 1 x)) 1 w)
    as (st & Est & ->); [lia| | |].
  3:{ eexists. split; [eapply bind_ret_eq; [exact Est|reflexivity]|].
      rewrite zsum_S by lia. f_equal; lia. }
  { f_equal. rewrite zsum_nil. lia. }
  intros x st Hx ->. cbv beta iota.
  rewrite !aget_cell by (apply Hm; nia). cbn [mbind outcome_bind].
  eexists. split; [done|]. rewrite zsum_S, same_colour by lia. unfold block_points.
  replace (y * w + x - w - 1) with ((y - 1) * w + (x - 1)) by lia.
  replace (y * w + x - 1) with (y * w + (x - 1)) by lia.
  replace (y * w + x - w) with ((y - 1) * w + x) by lia.
  destruct (_ && _); f_equal; lia.
Qed.

Lemma Mask_evaluateSymbol_spec w n m :
  0 < w ≤ QRSPEC_WIDTH_MAX → symbol_cells w m →
  Mask_evaluateSymbol w (CArray n m) = Ret (pattern_points w m).
Proof.
  intros Hw Hm. unfold Mask_evaluateSymbol. rewrite Mask_calcN2_spec by (done || lia).
  cbn [mbind outcome_bind]. unfold pattern_points. set (d0 := zsum _ 1 w).
  edestruct (for_range_inv (λ y st, st.1 = d0 + zsum (λ y, line_points (line_runs (row_bits w m y))) 0 y
      ∧ alen st.2 = QRSPEC_WIDTH_MAX + 1) 0 w)
    as ([d1 rl1] & E1 & Hd1 & Hrl1); [lia| | |eapply bind_ret_eq; [exact E1|]].
  { split; [|done]. rewrite zsum_nil. simpl. lia. }
  { intros y [d rl] Hy [Hd Hrl]. simpl in Hd, Hrl. cbv beta iota.
    destruct (Mask_calcRunLength_spec w n m (y * w) 0 rl) as (rl' & -> & Hr); [done|done| |].
    { intros i Hi. apply Hm. simpl. nia. }
    cbn [mbind outcome_bind]. rewrite Mask_calcN1N3_spec by (done || apply line_runs_bounds).
    cbn [mbind outcome_bind]. eexists. split; [done|]. split; [|by destruct Hr].
    cbn [fst]. rewrite zsum_S by lia. rewrite Hd.
    replace (row_bits w m y) with (line_bits m (y * w) 1 w); [simpl; lia|].
    apply list_fmap_ext. intros _ i _. by rewrite Z.mul_1_r. }
  simpl in Hd1, Hrl1. cbv beta.
  edestruct (for_range_inv (λ x st, st.1 = d1 + zsum (λ x, line_points (line_runs (column_bits w m x))) 0 x
      ∧ alen st.2 = QRSPEC_WIDTH_MAX + 1) 0 w)
    as ([d2 rl2] & E2 & Hd2 & Hrl2); [lia| | |eapply bind_ret_eq; [exact E2|]].
  { split; [|done]. rewrite zsum_nil. simpl. lia. }
  { intros x [d rl] Hx [Hd Hrl]. simpl in Hd, Hrl. cbv beta iota.
    destruct (Mask_calcRunLength_spec w n m x 1 rl) as (rl' & -> & Hr); [done|done| |].
    { intros i Hi. apply Hm. simpl. nia. }
    cbn [mbind outcome_bind]. rewrite Mask_calcN1N3_spec by (done || apply line_runs_bounds).
    cbn [mbind outcome_bind]. eexists. split; [done|]. split; [|by destruct Hr].
    cbn [fst]. rewrite zsum_S by lia. rewrite Hd.
    replace (column_bits w m x) with (line_bits m x w w); [simpl; lia|].
    apply list_fmap_ext. intros _ i _. by rewrite Z.add_comm. }
  simpl in Hd2. cbn. f_equal. lia.
Qed.

(** ** Bounds *)

Lemma rle_bound cur n l : 0 ≤ n → Forall (λ r, r ≤ n + Z.of_nat (length l)) (rle cur n l).
Proof.
  revert cur n. induction l as [|b l IH]; intros cur n Hn; simpl; [constructor; [lia|constructor]|].
  destruct (b =? cur).
  - eapply Forall_impl; [by apply IH; lia|]. intros r Hr; simpl in *; lia.
  - constructor; [lia|]. eapply Forall_impl; [by apply IH|]. intros r Hr; simpl in *; lia.
Qed.

Lemma line_runs_bound l : Forall (λ r, r ≤ Z.of_nat (length l)) (line_runs l).
Proof.
  destruct l as [|b l]; [constructor|]. cbn [line_runs length].
  assert (Forall (λ r, r ≤ Z.of_nat (S (length l))) (rle b 1 l)).
  { eapply Forall_impl; [by apply rle_bound|]. intros r Hr; simpl in *; lia. }
  destruct (b =? 1); [constructor; [lia|done]|done].
Qed.

Lemma line_points_bounds l :
  Z.of_nat (length l) ≤ QRSPEC_WIDTH_MAX → 0 ≤ line_points (line_runs l) ≤ 40000.
Proof.
  unfold QRSPEC_WIDTH_MAX. intros Hl. unfold line_points. set (R := line_runs l).
  assert (HR : Z.of_nat (length R) ≤ 178) by (pose proof (line_runs_length l); unfold R; lia).
  pose proof (zsum_bounds (λ i, long_run_points (nthZ R i) + finder_points R i)
    0 (Z.of_nat (length R)) 0 220 ltac:(lia)) as H.
  assert (0 * (Z.of_nat (length R) - 0) ≤
    zsum (λ i, long_run_points (nthZ R i) + finder_points R i) 0 (Z.of_nat (length R))
    ≤ 220 * (Z.of_nat (length R) - 0)); [|lia].
  apply H. intros i Hi. destruct (lookup_lt_is_Some_2 R (Z.to_nat i)) as [r Hr]; [lia|].
  rewrite (nthZ_lookup _ _ _ Hr).
  pose proof (line_runs_bound l) as Hb. fold R in Hb. eapply Forall_lookup_1 in Hb; [|done].
  cbv beta in Hb. unfold long_run_points, finder_points, N1, N3.
  destruct (_ && _ && _); case_bool; lia.
Qed.

Lemma pattern_points_bounds w m :
  0 < w ≤ QRSPEC_WIDTH_MAX → 0 ≤ pattern_points w m ≤ 20000000.
Proof.
  unfold QRSPEC_WIDTH_MAX. intros Hw. unfold pattern_points.
  assert (H2 : ∀ y, 0 ≤ zsum (block_points w m y) 1 w ≤ 600).
  { intros y. assert (Hb : ∀ x, 1 ≤ x < w → 0 ≤ block_points w m y x ≤ 3).
    { intros x _. unfold block_points, N2. destruct (_ && _); lia. }
    pose proof (zsum_bounds (block_points w m y) 1 w 0 3 ltac:(lia) Hb). lia. }
  pose proof (zsum_bounds (λ y, zsum (block_points w m y) 1 w) 1 w 0 600 ltac:(lia)
    ltac:(intros; apply H2)) as Ha.
  assert (Hl : ∀ n, 0 ≤ n ≤ w → ∀ f : Z → Z, 0 ≤ line_points (line_runs (f <$> range 0 n)) ≤ 40000).
  { intros n Hn f. apply line_points_bounds. unfold QRSPEC_WIDTH_MAX.
    rewrite length_fmap, range_seqZ, length_seqZ. lia. }
  pose proof (zsum_bounds (λ y, line_points (line_runs (row_bits w m y))) 0 w 0 40000
    ltac:(lia) ltac:(intros; by apply Hl; lia)) as Hb.
  pose proof (zsum_bounds (λ x, line_points (line_runs (column_bits w m x))) 0 w 0 40000
    ltac:(lia) ltac:(intros; by apply Hl; lia)) as Hc.
  lia.
Qed.

Lemma dark_bounds n m : 0 ≤ n → 0 ≤ dark n m ≤ n.
Proof.
  intros Hn. assert (Hb : ∀ i, 0 ≤ i < n → 0 ≤ Z.land (cell m i) 1 ≤ 1).
  { intros i _. rewrite land_1_mod. pose proof (Z.mod_pos_bound (cell m i) 2). lia. }
  pose proof (zsum_bounds (λ i, Z.land (cell m i) 1) 0 n 0 1 Hn Hb). unfold dark. lia.
Qed.

Lemma proportion_points_spec w m :
  0 < w →
  (Z.abs (((200 * dark (w * w) m + w * w) `quot` (w * w)) `quot` 2 - 50) `quot` 5) * N4
  = proportion_points w m ∧ 0 ≤ proportion_points w m ≤ 100.
Proof.
  intros Hw. unfold proportion_points, N4.
  pose proof (dark_bounds (w * w) m ltac:(nia)) as Hd. set (d := dark (w * w) m) in *.
  set (n := w * w) in *. assert (0 < n) by (unfold n; nia).
  rewrite (Z.quot_div_nonneg _ n) by lia.
  assert (Hq : 0 ≤ (200 * d + n) `div` n ≤ 201).
  { split; [apply Z.div_pos; lia|]. apply Z.div_le_upper_bound; lia. }
  rewrite (Z.quot_div_nonneg _ 2) by lia. rewrite Z.quot_div_nonneg by lia.
  split; [done|]. set (q := (200 * d + n) `div` n) in *. clearbody q.
  assert (0 ≤ q `div` 2 ≤ 100) by (split; [apply Z.div_pos|apply Z.lt_succ_r, Z.div_lt_upper_bound]; lia).
  assert (0 ≤ Z.abs (q `div` 2 - 50) `div` 5 ≤ 10)
    by (split; [apply Z.div_pos|apply Z.div_le_upper_bound]; lia).
  lia.
Qed.

Lemma symbol_points_bounds w m :
  0 < w ≤ QRSPEC_WIDTH_MAX → 0 ≤ symbol_points w m < INT_MAX.
Proof.
  intros Hw. pose proof (pattern_points_bounds w m Hw).
  destruct (proportion_points_spec w m) as [_ ?]; [lia|]. unfold symbol_points, INT_MAX. lia.
Qed.

(** ** Choice of the mask *)

(** The first of the masks with the fewest points below [min]. *)
Fixpoint choose_mask (points : Z → Z) (masks : list Z) (best : option Z) (min : Z) : option Z :=
  match masks with
  | [] => best
  | i :: masks =>
    if points i <? min then choose_mask points masks (Some i) (points i)
    else choose_mask points masks best min
  end.

Definition lowest_mask (points : Z → Z) (k : Z) : Prop :=
  0 ≤ k < 8 ∧ (∀ i, 0 ≤ i < 8 → points k ≤ points i) ∧ (∀ i, 0 ≤ i < k → points k < points i).

Lemma choose_mask_spec points (n : nat) lo best min :
  (∀ k, best = Some k → points k = min) →
  (∃ k, choose_mask points (count_up n lo) best min = Some k ∧ lo ≤ k < lo + Z.of_nat n ∧
    points k < min ∧ (∀ i, lo ≤ i < lo + Z.of_nat n → points k ≤ points i) ∧
    (∀ i, lo ≤ i < k → points k < points i))
  ∨ (choose_mask points (count_up n lo) best min = best ∧
    ∀ i, lo ≤ i < lo + Z.of_nat n → min ≤ points i).
Proof.
  revert lo best min. induction n as [|n IH]; intros lo best min Hb; cbn [count_up choose_mask].
  { right. split; [done|]. lia. }
  destruct (Z.ltb_spec (points lo) min) as [Hlt|Hge].
  - left. destruct (IH (lo + 1) (Some lo) (points lo) ltac:(by intros k [= ->]))
      as [(k & Ek & Hk & Hlo & Hle & Hfirst)|[Ek Hle]].
    + exists k. split; [done|]. split; [lia|]. split; [lia|]. split.
      * intros i Hi. destruct (decide (i = lo)) as [->|]; [lia|]. apply Hle. lia.
      * intros i Hi. destruct (decide (i = lo)) as [->|]; [lia|]. apply Hfirst. lia.
    + exists lo. split; [done|]. split; [lia|]. split; [lia|]. split; [|lia].
      intros i Hi. destruct (decide (i = lo)) as [->|]; [lia|]. apply Hle. lia.
  - destruct (IH (lo + 1) best min Hb) as [(k & Ek & Hk & Hlo & Hle & Hfirst)|[Ek Hle]].
    + left. exists k. split; [done|]. split; [lia|]. split; [lia|]. split.
      * intros i Hi. destruct (decide (i = lo)) as [->|]; [lia|]. apply Hle. lia.
      * intros i Hi. destruct (decide (i = lo)) as [->|]; [lia|]. apply Hfirst. lia.
    + right. split; [done|]. intros i Hi.
      destruct (decide (i = lo)) as [->|]; [lia|]. apply Hle. lia.
Qed.

Lemma choose_mask_lowest points :
  (∀ i, 0 ≤ i < 8 → points i < INT_MAX) →
  ∃ k, choose_mask points (range 0 maskNum) None INT_MAX = Some k ∧ lowest_mask points k.
Proof.
  intros Hp. destruct (choose_mask_spec points 8 0 None INT_MAX) as [(k & Ek & Hk & _ & H)|[_ H]].
  - done.
  - exists k. split; [exact Ek|]. split; [lia|]. exact H.
  - specialize (Hp 0 ltac:(lia)). specialize (H 0 ltac:(lia)). lia.
Qed.

Section Mask_mask.
Context {Inv : statics → Prop} (v : Z) (level : QRecLevel) (frame : carray).
Context (Hframe : maskable v frame).

Abbreviation w := (QRspec_getWidth v).
Abbreviation symbol k := (masked_symbol w k level (acells frame)).

Lemma maskable_width : 0 < w ≤ QRSPEC_WIDTH_MAX.
Proof. destruct Hframe as [Hv _]. rewrite capacity_width by done. unfold QRSPEC_WIDTH_MAX. lia. Qed.

Lemma masked_symbol_cells k : symbol_cells w (symbol k).
Proof.
  intros p Hp. destruct Hframe as (Hv & [_ Hcells] & _).
  destruct (proj1 (Hcells p) Hp) as (u & Hu & _). unfold masked_symbol.
  destruct (format_area_ok v Hv) as [Hnd _].
  destruct (decide (p ∈ (format_cells w (QRspec_getFormatInfo k level)).*1)) as [Hin|Hin].
  - apply list_elem_of_fmap in Hin as ([p' x] & -> & Hin).
    eexists. by apply (write_cells_lookup _ _ p' x).
  - rewrite write_cells_other by done. rewrite (lookup_masked_cells _ _ _ _ u) by done. eauto.
Qed.

Lemma masked_symbol_buffer k : symbol_buffer w (CArray (w * w) (symbol k)).
Proof.
  destruct Hframe as (Hv & [_ Hcells] & _). split; [done|]. intros p Hp. cbn [acells] in Hp.
  unfold masked_symbol in Hp. destruct (format_area_ok v Hv) as [_ Hr].
  destruct (decide (p ∈ (format_cells w (QRspec_getFormatInfo k level)).*1)) as [Hin|Hin].
  - by apply Hr.
  - rewrite write_cells_other in Hp by done. apply Hcells.
    unfold masked_cells in Hp. rewrite map_lookup_imap in Hp.
    destruct (acells frame !! p); [eauto|by destruct Hp].
Qed.

Lemma mask_loop_spec masks d best min E :
  Forall (λ i, 0 ≤ i < 8) masks → symbol_buffer w d →
  spec Inv (mask_loop masks w frame level d
      ((λ k, CArray (w * w) (symbol k)) <$> best) min)
    (λ r, r = (λ k, CArray (w * w) (symbol k))
              <$> choose_mask (λ k, symbol_points w (symbol k)) masks best min) E.
Proof.
  intros Hmasks. revert d best min. induction Hmasks as [|i masks Hi _ IH];
    intros d best min Hd; cbn [mask_loop choose_mask]; [by apply spec_ret|].
  destruct (mask_symbol_spec v i level frame d Hframe Hi Hd) as (m & b & b' & Er & Ef & Eb).
  eapply spec_bind; [by eapply (spec_liftO _ _ (λ x, x = (m, b)))|]. intros ? ->.
  eapply spec_bind; [by eapply (spec_liftO _ _ (λ x, x = (CArray (w * w) (symbol i), b')))|].
  intros ? ->. cbv beta iota. rewrite Eb.
  destruct (proportion_points_spec w (symbol i)) as [-> _]; [apply maskable_width|].
  eapply spec_bind.
  { eapply (spec_liftO _ _ (λ x, x = pattern_points w (symbol i))); [|done].
    apply Mask_evaluateSymbol_spec; [apply maskable_width|apply masked_symbol_cells]. }
  intros ? ->. fold (symbol_points w (symbol i)).
  destruct (symbol_points w (symbol i) <? min).
  - eapply spec_bind; [apply (spec_try_malloc _ (λ b, b = true)); [|done]|].
    { pose proof maskable_width. nia. }
    intros ? ->. apply (IH _ (Some i)). apply anew_buffer.
  - apply IH. apply masked_symbol_buffer.
Qed.

(** With memory available [Mask_mask] returns the first of the symbols with
    the fewest points. *)
Lemma Mask_mask_returns :
  returns Inv (Mask_mask w frame level) (λ r, ∃ k,
    lowest_mask (λ k, symbol_points w (symbol k)) k ∧ r = CArray (w * w) (symbol k)).
Proof.
  eapply spec_bind; [apply (spec_malloc _ (λ _, True)); [|done]|].
  { pose proof maskable_width. nia. }
  intros _ _. eapply spec_bind.
  { apply (mask_loop_spec _ _ None); [|apply anew_buffer].
    apply Forall_forall. intros i Hi. by apply elem_of_range in Hi. }
  intros r ->.
  destruct (choose_mask_lowest (λ k, symbol_points w (symbol k))) as (k & -> & Hk).
  { intros i _. apply symbol_points_bounds, maskable_width. }
  apply spec_ret. eauto.
Qed.

Lemma Mask_makeMask_returns k :
  0 ≤ k < 8 →
  returns Inv (Mask_makeMask w frame k level) (λ r, r = CArray (w * w) (symbol k)).
Proof.
  intros Hk. unfold Mask_makeMask, maskNum.
  replace ((k <? 0) || (8 <=? k)) with false by lia.
  eapply spec_bind; [apply (spec_malloc _ (λ _, True)); [|done]|].
  { pose proof maskable_width. nia. }
  intros _ _.
  destruct (mask_symbol_spec v k level frame _ Hframe Hk (anew_buffer w)) as (m & b & b' & Er & Ef & Eb).
  eapply spec_bind; [by eapply (spec_liftO _ _ (λ x, x = (m, b)))|]. intros ? ->.
  eapply spec_bind; [by eapply (spec_liftO _ _ (λ x, x = (CArray (w * w) (symbol k), b')))|].
  intros ? ->. by apply spec_ret.
Qed.
End Mask_mask.
