(* ===== verification/MMask.v ===== *)
(** * Masking of Micro QR codes (mmask.c)

    The four mask patterns of Micro QR symbols, their format information and
    the choice of the mask with the highest score; and the proof that the
    routines compute the masked symbols of the standard. *)

From S2P Require Import Prelude CModel QRSpec MQRSpec FrameFiller Mask MaskTheory.

(** ** Operations *)

Definition write_mformat_bits (count : Z) (pos : Z → Z) (st : carray * Z) : outcome (carray * Z) :=
  for_range 0 count (λ i '(frame, format),
    let v := Z.lor 0x84 (Z.land format 1) in
    frame ← aset (pos i) v frame;
    mret (frame, Z.shiftr format 1)) st.

Definition MMask_writeFormatInformation (version width : Z) (frame : carray) (mask : Z)
    (level : QRecLevel) : outcome carray :=
  let format := MQRspec_getFormatInfo mask version level in
  st ← write_mformat_bits 8 (λ i, width * (i + 1) + 8) (frame, format);
  '(frame, _) ← write_mformat_bits 7 (λ i, width * 8 + 7 - i) st;
  mret frame.

(** The macro [MASKMAKER] of mmask.c, which does not count dark modules. *)
Definition MASKMAKER (exp : Z → Z → Z) (width : Z) (s d : carray) : outcome carray :=
  '(d, _) ← for_range 0 width (λ y st,
      for_range 0 width (λ x '(d, p),
        v ← aget s p;
        let v' := if truth (Z.land v 0x80) then v else Z.lxor v (b2z (exp x y =? 0)) in
        d ← aset p v' d;
        mret (d, p + 1)) st) (d, 0);
  mret d.

Definition Mask_mask0 := MASKMAKER (λ x y, Z.land y 1).
Definition Mask_mask1 := MASKMAKER (λ x y, Z.land ((y `quot` 2) + (x `quot` 3)) 1).
Definition Mask_mask2 := MASKMAKER (λ x y, Z.land (Z.land (x * y) 1 + (x * y) `rem` 3) 1).
Definition Mask_mask3 := MASKMAKER (λ x y, Z.land (Z.land (x + y) 1 + (x * y) `rem` 3) 1).

Definition maskNum : Z := 4.

Definition maskMakers : list (Z → carray → carray → outcome carray) :=
  [Mask_mask0; Mask_mask1; Mask_mask2; Mask_mask3].

Definition run_maskMaker (mask width : Z) (s d : carray) : outcome carray :=
  f ← deref (maskMakers !! Z.to_nat mask); f width s d.

Definition MMask_makeMask (version : Z) (frame : carray) (mask : Z) (level : QRecLevel)
    : M carray :=
  if (mask <? 0) || (maskNum <=? mask) then raise EINVAL
  else
    let width := MQRspec_getWidth version in
    _ ← malloc (width * width);
    masked ← liftO (run_maskMaker mask width frame (anew (width * width)));
    liftO (MMask_writeFormatInformation version width masked mask level).

Definition MMask_evaluateSymbol (width : Z) (frame : carray) : outcome Z :=
  sum1 ← for_range 1 width (λ x sum1,
      v ← aget frame (width * (width - 1) + x); mret (sum1 + Z.land v 1)) 0;
  '(sum2, _) ← for_range 1 width (λ y '(sum2, p),
      v ← aget frame p; mret (sum2 + Z.land v 1, p + width)) (0, width * 2 - 1);
  mret (if sum1 <=? sum2 then sum1 * 16 + sum2 else sum2 * 16 + sum1).

(** The loop of [MMask_mask] over the masks that are left. *)
Fixpoint mmask_loop (masks : list Z) (version : Z) (frame : carray) (level : QRecLevel)
    (mask : carray) (bestMask : option carray) (maxScore : Z) : M (option carray) :=
  match masks with
  | [] => mret bestMask
  | i :: masks =>
    let width := MQRspec_getWidth version in
    mask ← liftO (run_maskMaker i width frame mask);
    mask ← liftO (MMask_writeFormatInformation version width mask i level);
    score ← liftO (MMask_evaluateSymbol width mask);
    if maxScore <? score then
      ok ← try_malloc (width * width);
      if ok : bool then
        mmask_loop masks version frame level (anew (width * width)) (Some mask) score
      else mret (Some mask)
    else mmask_loop masks version frame level mask bestMask maxScore
  end.

Definition MMask_mask (version : Z) (frame : carray) (level : QRecLevel) : M carray :=
  let width := MQRspec_getWidth version in
  _ ← malloc (width * width);
  best ← mmask_loop (range 0 maskNum) version frame level (anew (width * width)) None 0;
  match best with Some m => mret m | None => fail end.

(** ** Reference definitions *)

(** The mask conditions of the standard for Micro QR at row [i], column [j]. *)
Definition mmask_bit (k i j : Z) : bool :=
  match k with
  | 0 => i `mod` 2 =? 0
  | 1 => (i `div` 2 + j `div` 3) `mod` 2 =? 0
  | 2 => ((i * j) `mod` 2 + (i * j) `mod` 3) `mod` 2 =? 0
  | _ => ((i + j) `mod` 2 + (i * j) `mod` 3) `mod` 2 =? 0
  end.

(** Offset of bit [k] of the format information. *)
Definition mformat_pos (w k : Z) : Z := if k <? 8 then w * (k + 1) + 8 else w * 8 + 15 - k.

Definition mformat_cells (w format : Z) : list (Z * Z) :=
  (λ k, (mformat_pos w k, format_module format k)) <$> range 0 15.

Definition mmasked_symbol (v k : Z) (level : QRecLevel) (m : Zmap Z) : Zmap Z :=
  let w := MQRspec_getWidth v in
  write_cells (mformat_cells w (MQRspec_getFormatInfo k v level))
    (masked_cells (mmask_bit k) w m).

(** The score of a symbol: dark modules of the lower and of the right edge,
    without the timing patterns. *)
Definition symbol_score (w : Z) (m : Zmap Z) : Z :=
  let lower := zsum (λ x, Z.land (cell m ((w - 1) * w + x)) 1) 1 w in
  let right := zsum (λ y, Z.land (cell m (y * w + (w - 1))) 1) 1 w in
  Z.min lower right * 16 + Z.max lower right.

(** A frame that can be masked: all modules of a symbol of version [v], with
    data modules on the lower edge. *)
Definition mmaskable (v : Z) (frame : carray) : Prop :=
  let w := MQRspec_getWidth v in
  1 ≤ v ≤ 4 ∧ frame_full (w * w) frame ∧
  ∀ x, 1 ≤ x < w → data_module frame ((w - 1) * w + x).

Definition highest_mask (score : Z → Z) (k : Z) : Prop :=
  0 ≤ k < 4 ∧ (∀ i, 0 ≤ i < 4 → score i ≤ score k) ∧ (∀ i, 0 ≤ i < k → score i < score k).

(** The first of the masks with the highest score above [max]. *)
Fixpoint choose_mmask (score : Z → Z) (masks : list Z) (best : option Z) (max : Z) : option Z :=
  match masks with
  | [] => best
  | i :: masks =>
    if max <? score i then choose_mmask score masks (Some i) (score i)
    else choose_mmask score masks best max
  end.

(** ** Format information *)

Lemma write_mformat_bits_spec count pos n m format :
  0 ≤ count → (∀ i, 0 ≤ i < count → 0 ≤ pos i < n) →
  write_mformat_bits count pos (CArray n m, format)
  = Ret (CArray n (write_cells ((λ i, (pos i, format_module format i)) <$> range 0 count) m),
         Z.shiftr format count).
Proof.
  intros Hc Hpos. unfold write_mformat_bits.
  edestruct (for_range_inv (λ i r, r =
     (CArray n (write_cells ((λ i, (pos i, format_module format i)) <$> range 0 i) m),
      Z.shiftr format i)) 0 count) as (r & Er & ->); [done| | |exact Er].
  - by rewrite Z.shiftr_0_r.
  - intros i s Hi ->. cbv beta iota. rewrite aset_in by auto. cbn [mbind outcome_bind].
    eexists. split; [done|]. rewrite range_snoc, fmap_app, write_cells_app by lia.
    rewrite Z.shiftr_shiftr, land_1_bit, Z.shiftr_spec, Z.add_0_l by lia. done.
Qed.

Lemma mformat_cells_loops w format :
  mformat_cells w format
  = ((λ i, (w * (i + 1) + 8, format_module format i)) <$> range 0 8)
    ++ ((λ i, (w * 8 + 7 - i, format_module (Z.shiftr format 8) i)) <$> range 0 7).
Proof.
  unfold mformat_cells.
  assert (E : range 0 15 = range 0 8 ++ (Z.add 8 <$> range 0 7)) by done.
  rewrite E, fmap_app, <- list_fmap_compose. f_equal.
  apply list_fmap_ext. intros k i Hi%list_elem_of_lookup_2%elem_of_range.
  unfold compose, mformat_pos. replace (8 + i <? 8) with false by lia. f_equal; [lia|].
  unfold format_module. by rewrite Z.shiftr_spec, (Z.add_comm i) by lia.
Qed.

Lemma mcapacity_width v : 1 ≤ v ≤ 4 → MQRspec_getWidth v = 9 + 2 * v.
Proof. intros Hv. enum_Z v 1 5; try done. lia. Qed.

Lemma MMask_writeFormatInformation_spec v m k level :
  1 ≤ v ≤ 4 →
  let w := MQRspec_getWidth v in
  MMask_writeFormatInformation v w (CArray (w * w) m) k level
  = Ret (CArray (w * w) (write_cells (mformat_cells w (MQRspec_getFormatInfo k v level)) m)).
Proof.
  intros Hv w. unfold MMask_writeFormatInformation.
  assert (Hw : 11 ≤ w) by (unfold w; rewrite mcapacity_width; lia).
  rewrite write_mformat_bits_spec; [|done|].
  2:{ intros i Hi. assert (w * (i + 1) ≤ w * 8) by nia. nia. }
  cbn [mbind outcome_bind]. rewrite write_mformat_bits_spec; [|done|].
  2:{ intros i Hi. nia. }
  cbn [mbind outcome_bind]. by rewrite <- write_cells_app, <- mformat_cells_loops.
Qed.

(** ** Mask patterns *)

Lemma MMASKMAKER_spec exp w s d :
  0 < w → frame_full (w * w) s → symbol_buffer w d →
  MASKMAKER exp w s d
  = Ret (CArray (w * w) (masked_cells (λ i j, exp j i =? 0) w (acells s))).
Proof.
  intros Hw Hs Hd. unfold MASKMAKER. set (m := masked_cells _ w (acells s)).
  edestruct (raster_inv (λ p (st : carray * Z), ∃ md, st = (CArray (w * w) md, p) ∧
      ∀ q, md !! q = if decide (0 ≤ q < p) then m !! q else acells d !! q) w)
    as (st & Est & md & -> & Hmd); [lia| | |eapply bind_ret_eq; [exact Est|]].
  - exists (acells d). destruct Hd as [<- _]. split; [by destruct d|].
    intros q. by rewrite decide_False by lia.
  - intros x y st Hx Hy (md & -> & Hmd). cbv beta iota. set (p := y * w + x) in *.
    assert (Hp : 0 ≤ p < w * w) by (unfold p; nia).
    destruct (proj1 (proj2 Hs p) Hp) as (v & Hv & _).
    pose proof (masked_cells_at (λ i j, exp j i =? 0) w (acells s) x y v Hx Hv) as Hmp.
    fold p m in Hmp. destruct s as [sn sm]. simpl in Hv. rewrite (aget_Some _ _ _ _ Hv).
    cbn [mbind outcome_bind]. rewrite aset_in by done. cbn [mbind outcome_bind].
    eexists. split; [done|]. eexists. split; [done|].
    intros q. destruct (decide (q = p)) as [->|Hne].
    + rewrite lookup_insert_eq, decide_True by lia. done.
    + rewrite lookup_insert_ne by done. rewrite Hmd. repeat case_decide; done || lia.
  - simpl. do 2 f_equal. by apply (fill_symbol w s d).
Qed.

Definition maskMaker_exp (k : Z) : Z → Z → Z :=
  match k with
  | 0 => λ x y, Z.land y 1
  | 1 => λ x y, Z.land ((y `quot` 2) + (x `quot` 3)) 1
  | 2 => λ x y, Z.land (Z.land (x * y) 1 + (x * y) `rem` 3) 1
  | _ => λ x y, Z.land (Z.land (x + y) 1 + (x * y) `rem` 3) 1
  end.

Lemma run_mmaskMaker_eq k w s d :
  0 ≤ k < 4 → run_maskMaker k w s d = MASKMAKER (maskMaker_exp k) w s d.
Proof. intros Hk. enum_Z k 0 4; try done. lia. Qed.

Lemma mmaskMaker_exp_bit k i j :
  0 ≤ k < 4 → 0 ≤ i → 0 ≤ j → (maskMaker_exp k j i =? 0) = mmask_bit k i j.
Proof.
  intros Hk Hi Hj. assert (0 ≤ j * i) by nia.
  enum_Z k 0 4; try lia; unfold maskMaker_exp, mmask_bit;
    rewrite ?land_1_mod, ?Z.rem_mod_nonneg, ?Z.quot_div_nonneg by lia;
    rewrite ?(Z.add_comm j i), ?(Z.mul_comm j i); done.
Qed.

Lemma run_mmaskMaker_spec k w s d :
  0 ≤ k < 4 → 0 < w → frame_full (w * w) s → symbol_buffer w d →
  run_maskMaker k w s d = Ret (CArray (w * w) (masked_cells (mmask_bit k) w (acells s))).
Proof.
  intros Hk Hw Hs Hd. rewrite run_mmaskMaker_eq, MMASKMAKER_spec by done.
  do 2 f_equal. apply masked_cells_ext. intros p Hp. apply Hs in Hp.
  destruct (offset_coordinates w p Hw Hp) as (Hx & Hy & _).
  apply mmaskMaker_exp_bit; lia.
Qed.

(** ** Score *)

Lemma MMask_evaluateSymbol_spec w n m :
  0 < w → symbol_cells w m → MMask_evaluateSymbol w (CArray n m) = Ret (symbol_score w m).
Proof.
  intros Hw Hm. unfold MMask_evaluateSymbol, symbol_score.
  set (low := λ x, Z.land (cell m ((w - 1) * w + x)) 1).
  set (right := λ y, Z.land (cell m (y * w + (w - 1))) 1).
  edestruct (for_range_inv (λ x s, s = zsum low 1 x) 1 w) as (s1 & E1 & ->);
    [lia|done| |eapply bind_ret_eq; [exact E1|]].
  { intros x s Hx ->. cbv beta. rewrite aget_cell by (apply Hm; nia). cbn [mbind outcome_bind].
    eexists. split; [done|]. rewrite zsum_S by lia. unfold low. do 4 f_equal. lia. }
  edestruct (for_range_inv (λ y st, st = (zsum right 1 y, y * w + (w - 1))) 1 w)
    as (st & E2 & ->); [lia| | |eapply bind_ret_eq; [exact E2|]].
  { f_equal. lia. }
  { intros y st Hy ->. cbv beta iota. rewrite aget_cell by (apply Hm; nia).
    cbn [mbind outcome_bind]. eexists. split; [done|]. rewrite zsum_S by lia. f_equal. lia. }
  simpl. f_equal. destruct (Z.leb_spec (zsum low 1 w) (zsum right 1 w)); lia.
Qed.

Lemma zsum_pos f lo hi k :
  lo ≤ k < hi → (∀ i, lo ≤ i < hi → 0 ≤ f i) → 0 < f k → 0 < zsum f lo hi.
Proof.
  intros Hk Hf H. pose proof (zsum_update f (λ i, if i =? k then 0 else f i) lo hi k Hk) as E.
  rewrite E, Z.eqb_refl.
  2:{ intros i Hi Hne. by apply Z.eqb_neq in Hne as ->. }
  assert (0 ≤ zsum (λ i, if i =? k then 0 else f i) lo hi); [|lia].
  unfold zsum. apply (for_pure_inv (λ _ r, 0 ≤ r)); [lia|done|].
  intros i s Hi Hs. specialize (Hf i Hi). destruct (i =? k); lia.
Qed.

Lemma land_1_range x : 0 ≤ Z.land x 1 ≤ 1.
Proof. rewrite land_1_mod. pose proof (Z.mod_pos_bound x 2). lia. Qed.

Lemma symbol_score_pos w m x :
  1 ≤ x < w → Z.land (cell m ((w - 1) * w + x)) 1 = 1 → 0 < symbol_score w m.
Proof.
  intros Hx H1. unfold symbol_score.
  pose proof (zsum_pos (λ x, Z.land (cell m ((w - 1) * w + x)) 1) 1 w x Hx) as H.
  assert (Hr : 0 * (w - 1) ≤ zsum (λ y, Z.land (cell m (y * w + (w - 1))) 1) 1 w ≤ 1 * (w - 1))
    by (apply zsum_bounds; [lia|intros; apply land_1_range]).
  specialize (H ltac:(intros; apply land_1_range) ltac:(lia)). lia.
Qed.

(** ** The masked symbol *)

Lemma mformat_area w format p :
  0 < w → p ∈ (mformat_cells w format).*1 → ∃ k, 0 ≤ k < 15 ∧ p = mformat_pos w k.
Proof.
  intros Hw Hp. unfold mformat_cells in Hp. rewrite <- list_fmap_compose in Hp.
  apply list_elem_of_fmap in Hp as (k & -> & Hk%elem_of_range). by exists k.
Qed.

(** The format information lies off the lower edge. *)
Lemma mformat_pos_range w k : 11 ≤ w → 0 ≤ k < 15 → 0 ≤ mformat_pos w k < (w - 1) * w.
Proof.
  intros Hw Hk. unfold mformat_pos. destruct (Z.ltb_spec k 8); [|nia].
  assert (w * (k + 1) ≤ w * 8) by nia. nia.
Qed.

Lemma choose_mmask_spec score (n : nat) lo best max :
  (∀ k, best = Some k → score k = max) →
  (∃ k, choose_mmask score (count_up n lo) best max = Some k ∧ lo ≤ k < lo + Z.of_nat n ∧
    max < score k ∧ (∀ i, lo ≤ i < lo + Z.of_nat n → score i ≤ score k) ∧
    (∀ i, lo ≤ i < k → score i < score k))
  ∨ (choose_mmask score (count_up n lo) best max = best ∧
    ∀ i, lo ≤ i < lo + Z.of_nat n → score i ≤ max).
Proof.
  assert (E : ∀ masks best max, choose_mmask score masks best max
              = choose_mask (λ k, - score k) masks best (- max)).
  { induction masks as [|i masks IH]; intros b m; [done|]. cbn [choose_mmask choose_mask].
    replace (- score i <? - m) with (m <? score i) by lia. by rewrite !IH. }
  intros Hb. rewrite E.
  destruct (choose_mask_spec (λ k, - score k) n lo best (- max))
    as [(k & Ek & Hk & Hlt & Hle & Hfirst)|[Ek Hle]].
  - intros k Hk. by rewrite (Hb k Hk).
  - left. exists k. split; [done|]. split; [done|]. split; [lia|]. split; intros i Hi.
    + specialize (Hle i Hi). cbv beta in Hle. lia.
    + specialize (Hfirst i Hi). cbv beta in Hfirst. lia.
  - right. split; [done|]. intros i Hi. specialize (Hle i Hi). cbv beta in Hle. lia.
Qed.

Section MMask_mask.
Context {Inv : statics → Prop} (v : Z) (level : QRecLevel) (frame : carray).
Context (Hframe : mmaskable v frame).

Abbreviation w := (MQRspec_getWidth v).
Abbreviation symbol k := (mmasked_symbol v k level (acells frame)).

Lemma mmaskable_width : 11 ≤ w.
Proof. destruct Hframe as [Hv _]. rewrite mcapacity_width by done. lia. Qed.

Lemma mmask_symbol_spec k d :
  0 ≤ k < 4 → symbol_buffer w d →
  ∃ m, run_maskMaker k w frame d = Ret m ∧
    MMask_writeFormatInformation v w m k level = Ret (CArray (w * w) (symbol k)).
Proof.
  intros Hk Hd. destruct Hframe as (Hv & Hfull & _). pose proof mmaskable_width.
  eexists. rewrite run_mmaskMaker_spec by (done || lia). split; [done|].
  by rewrite MMask_writeFormatInformation_spec.
Qed.

(** Cells off the format information. *)
Lemma mmasked_symbol_other k p :
  p ∉ (mformat_cells w (MQRspec_getFormatInfo k v level)).*1 →
  symbol k !! p = masked_cells (mmask_bit k) w (acells frame) !! p.
Proof. intros Hp. unfold mmasked_symbol. by apply write_cells_other. Qed.

Lemma write_cells_some l m p : p ∈ l.*1 → is_Some (write_cells l m !! p).
Proof.
  revert m. induction l as [|[q u] l IH]; intros m Hp; [by apply elem_of_nil in Hp|].
  change (is_Some (write_cells l (<[q := u]> m) !! p)).
  destruct (decide (p ∈ l.*1)); [by apply IH|]. rewrite write_cells_other by done.
  apply elem_of_cons in Hp as [->|?]; [|done]. rewrite lookup_insert_eq. eauto.
Qed.

Lemma mmasked_symbol_cells k : symbol_cells w (symbol k).
Proof.
  intros p Hp. destruct Hframe as (Hv & [_ Hcells] & _).
  destruct (proj1 (Hcells p) Hp) as (u & Hu & _).
  destruct (decide (p ∈ (mformat_cells w (MQRspec_getFormatInfo k v level)).*1)) as [Hin|Hin].
  - by apply write_cells_some.
  - rewrite mmasked_symbol_other, (lookup_masked_cells _ _ _ _ u) by done. eauto.
Qed.

Lemma mmasked_symbol_buffer k : symbol_buffer w (CArray (w * w) (symbol k)).
Proof.
  pose proof mmaskable_width as Hw.
  destruct Hframe as (Hv & [_ Hcells] & _). split; [done|]. intros p Hp. cbn [acells] in Hp.
  destruct (decide (p ∈ (mformat_cells w (MQRspec_getFormatInfo k v level)).*1)) as [Hin|Hin].
  - apply mformat_area in Hin as (j & Hj & ->); [|lia].
    pose proof (mformat_pos_range w j Hw Hj). nia.
  - rewrite mmasked_symbol_other in Hp by done. apply Hcells.
    unfold masked_cells in Hp. rewrite map_lookup_imap in Hp.
    destruct (acells frame !! p); [eauto|by destruct Hp].
Qed.

(** A module of the lower edge. *)
Lemma lower_edge k x u :
  1 ≤ x < w → acells frame !! ((w - 1) * w + x) = Some u → Z.land u 0x80 = 0 →
  Z.land (cell (symbol k) ((w - 1) * w + x)) 1
  = Z.land (Z.lxor u (b2z (mmask_bit k (w - 1) x))) 1.
Proof.
  intros Hx Hu Hu0. pose proof mmaskable_width as Hw.
  unfold cell. rewrite mmasked_symbol_other.
  - rewrite (masked_cells_at _ _ _ x (w - 1) u) by (done || lia). unfold truth. by rewrite Hu0.
  - intros (j & Hj & E)%mformat_area; [|lia]. pose proof (mformat_pos_range w j Hw Hj). lia.
Qed.

(** Mask 0 reverses the lower edge, and one of masks 0 and 1 leaves a dark
    module there. *)
Lemma some_score : ∃ k, 0 ≤ k < 4 ∧ 0 < symbol_score w (symbol k).
Proof.
  pose proof mmaskable_width as Hw. destruct Hframe as (Hv & _ & Hedge).
  assert (Hx : ∃ x, 1 ≤ x < w ∧ mmask_bit 1 (w - 1) x = false).
  { destruct (Z.odd ((w - 1) `div` 2)) eqn:Eodd.
    - exists 1. split; [lia|]. unfold mmask_bit. change (1 `div` 3) with 0.
      rewrite Z.add_0_r, Zmod_odd, Eodd. done.
    - exists 3. split; [lia|]. unfold mmask_bit. change (3 `div` 3) with 1.
      rewrite Zmod_odd, Z.odd_add, Eodd. done. }
  destruct Hx as (x & Hx & Hb1).
  assert (Hb0 : mmask_bit 0 (w - 1) x = true).
  { unfold mmask_bit. rewrite mcapacity_width by done. apply Z.eqb_eq.
    replace (9 + 2 * v - 1) with ((4 + v) * 2) by lia. apply Z.mod_mul. lia. }
  destruct (Hedge x Hx) as (u & Hu & Hu0).
  pose proof (lower_edge 0 x u Hx Hu Hu0) as E0. rewrite Hb0 in E0.
  pose proof (lower_edge 1 x u Hx Hu Hu0) as E1. rewrite Hb1 in E1.
  destruct (Z.testbit u 0) eqn:Eu.
  - exists 1. split; [lia|]. apply (symbol_score_pos _ _ x); [done|].
    rewrite E1, land_1_bit, Z.lxor_spec, Eu. done.
  - exists 0. split; [lia|]. apply (symbol_score_pos _ _ x); [done|].
    rewrite E0, land_1_bit, Z.lxor_spec, Eu. done.
Qed.

Lemma mmask_loop_spec masks d best max E :
  Forall (λ i, 0 ≤ i < 4) masks → symbol_buffer w d →
  spec Inv (mmask_loop masks v frame level d
      ((λ k, CArray (w * w) (symbol k)) <$> best) max)
    (λ r, r = (λ k, CArray (w * w) (symbol k))
              <$> choose_mmask (λ k, symbol_score w (symbol k)) masks best max) E.
Proof.
  intros Hmasks. revert d best max. pose proof mmaskable_width as Hw.
  induction Hmasks as [|i masks Hi _ IH];
    intros d best max Hd; cbn [mmask_loop choose_mmask]; [by apply spec_ret|].
  destruct (mmask_symbol_spec i d Hi Hd) as (m & Er & Ef).
  eapply spec_bind; [by eapply (spec_liftO _ _ (λ x, x = m))|]. intros ? ->.
  eapply spec_bind; [by eapply (spec_liftO _ _ (λ x, x = CArray (w * w) (symbol i)))|].
  intros ? ->. eapply spec_bind.
  { eapply (spec_liftO _ _ (λ x, x = symbol_score w (symbol i))); [|done].
    apply MMask_evaluateSymbol_spec; [lia|apply mmasked_symbol_cells]. }
  intros ? ->. destruct (max <? symbol_score w (symbol i)).
  - eapply spec_bind; [apply (spec_try_malloc _ (λ b, b = true)); [nia|done]|].
    intros ? ->. apply (IH _ (Some i)). apply anew_buffer.
  - apply IH. apply mmasked_symbol_buffer.
Qed.

(** With memory available [MMask_mask] returns the first of the symbols with
    the highest score. *)
Lemma MMask_mask_returns :
  returns Inv (MMask_mask v frame level) (λ r, ∃ k,
    highest_mask (λ k, symbol_score w (symbol k)) k ∧ r = CArray (w * w) (symbol k)).
Proof.
  pose proof mmaskable_width as Hw.
  eapply spec_bind; [apply (spec_malloc _ (λ _, True)); [nia|done]|].
  intros _ _. eapply spec_bind.
  { apply (mmask_loop_spec _ _ None); [|apply anew_buffer].
    apply Forall_forall. intros i Hi. by apply elem_of_range in Hi. }
  intros r ->. destruct some_score as (j & Hj & Hpos).
  pose proof (choose_mmask_spec (λ k, symbol_score w (symbol k)) 4 0 None 0 ltac:(done)) as HC.
  change (count_up 4 0) with (range 0 maskNum) in HC.
  destruct HC as [(k & -> & Hk & _ & Hle & Hlt)|[_ H]].
  - apply spec_ret. exists k. split; [|done]. split; [lia|]. split.
    + intros i Hi. apply Hle. lia.
    + intros i Hi. apply Hlt. lia.
  - specialize (H j ltac:(lia)). cbv beta in H. lia.
Qed.

Lemma MMask_makeMask_returns k :
  0 ≤ k < 4 →
  returns Inv (MMask_makeMask v frame k level) (λ r, r = CArray (w * w) (symbol k)).
Proof.
  intros Hk. pose proof mmaskable_width as Hw. unfold MMask_makeMask, maskNum.
  replace ((k <? 0) || (4 <=? k)) with false by lia.
  eapply spec_bind; [apply (spec_malloc _ (λ _, True)); [nia|done]|].
  intros _ _. destruct (mmask_symbol_spec k _ Hk (anew_buffer w)) as (m & Er & Ef).
  eapply spec_bind; [by eapply (spec_liftO _ _ (λ x, x = m))|]. intros ? ->.
  by eapply spec_liftO.
Qed.
End MMask_mask.
