(* ===== verification/Caches.v ===== *)
(** * The static caches of the library

    The invariant of the [static] variables: every cached control block and
    every cached frame is the one a fresh computation gives. Under it the
    cached routines are indistinguishable from uncached ones. *)

From S2P Require Import Prelude CModel RSCode RSTheory QRSpec MQRSpec FrameFiller.

(** ** The invariant *)

Record caches_ok (g : statics) : Prop := {
  caches_rs : rs_cache_ok (rslist g);
  caches_qr : ∀ v f, qr_frames g !! v = Some f → 1 ≤ v ≤ 40 → QRspec_drawFrame v = Ret f;
  caches_mqr : ∀ v f, mqr_frames g !! v = Some f → 1 ≤ v ≤ 4 → MQRspec_drawFrame v = Ret f
}.

Definition no_caches : statics := Statics [] ∅ ∅.

Lemma no_caches_ok : caches_ok no_caches.
Proof.
  split; simpl.
  - constructor.
  - intros v f H. by rewrite lookup_empty in H.
  - intros v f H. by rewrite lookup_empty in H.
Qed.

Lemma init_rs_cached n pad E :
  qr_params n pad → spec caches_ok (init_rs 8 0x11d 0 1 n pad) (λ rs, rs = qr_rs n pad) E.
Proof.
  intros Hp. apply init_rs_spec; [by intros g []| |done].
  intros g [H1 H2 H3]. split; simpl; [|done|done]. by constructor.
Qed.

(** ** Copies of frames *)

Lemma amemcpy_full n f : 0 ≤ n → frame_full n f → amemcpy f n = Ret f.
Proof.
  intros Hn [Hlen Hf]. destruct f as [fl m]. simpl in *. subst fl. unfold amemcpy.
  edestruct (for_range_inv (λ k b, ∃ mb, b = CArray n mb ∧
      ∀ q, mb !! q = if decide (0 ≤ q < k) then m !! q else None) 0 n)
    as (b & Eb & mb & -> & Hmb); [done| | |rewrite Eb].
  - exists ∅. split; [done|]. intros q. by rewrite decide_False, lookup_empty by lia.
  - intros k b Hk (mb & -> & Hmb). cbv beta.
    destruct (proj1 (Hf k) Hk) as (u & Hu & _). rewrite (aget_Some _ _ _ _ Hu).
    cbn [mbind outcome_bind]. rewrite aset_in by done. eexists. split; [done|].
    eexists. split; [done|]. intros q. destruct (decide (q = k)) as [->|Hne].
    + by rewrite lookup_insert_eq, decide_True by lia.
    + rewrite lookup_insert_ne, Hmb by done. repeat case_decide; done || lia.
  - do 2 f_equal. apply map_eq. intros q. rewrite Hmb.
    destruct (decide (0 ≤ q < n)) as [|Hq]; [done|]. symmetry. apply eq_None_not_Some.
    intros Hs. by apply Hq, Hf.
Qed.

(** ** The cached frames *)

(** Both frame caches follow the same pattern. *)
Lemma cached_frame_spec (find : statics → option carray) (store : carray → statics → statics)
    n f E :
  0 ≤ n → frame_full n f →
  (∀ g f', caches_ok g → find g = Some f' → f' = f) →
  (∀ g, caches_ok g → caches_ok (store f g)) →
  spec caches_ok
    (g ← get_globals;
     cached ← match find g with
              | Some f => mret f
              | None => f' ← (_ ← malloc n; liftO (Ret f)); _ ← put_globals (store f' g); mret f'
              end;
     _ ← malloc n;
     liftO (amemcpy cached n)) (λ r, r = f) E.
Proof.
  intros Hn Hfull Hfind Hstore. apply spec_get_globals. intros g Hg.
  apply spec_bind with (P := λ c, c = f).
  - destruct (find g) as [f'|] eqn:Ef; [apply spec_ret; by eapply Hfind|].
    apply spec_bind with (P := λ c, c = f).
    + eapply spec_bind; [by apply (spec_malloc _ (λ _, True))|]. intros _ _.
      by eapply spec_liftO.
    + intros ? ->. eapply spec_bind; [by apply (spec_put_globals _ (λ _, True)); auto|].
      intros _ _. by apply spec_ret.
  - intros ? ->. eapply spec_bind; [by apply (spec_malloc _ (λ _, True))|]. intros _ _.
    eapply spec_liftO; [by apply amemcpy_full|done].
Qed.

Lemma QRspec_newFrame_spec v f E :
  1 ≤ v ≤ 40 → QRspec_drawFrame v = Ret f →
  spec caches_ok (QRspec_newFrame v) (λ r, r = f) E.
Proof.
  intros Hv Ef. unfold QRspec_newFrame, QRSPEC_VERSION_MAX, QRspec_createFrame. rewrite Ef.
  replace ((v <? 1) || (40 <? v)) with false by lia.
  destruct (qr_frame_spec v Hv) as (f' & Ef' & Hpos & Hfull & _).
  assert (f' = f) as -> by congruence.
  apply (cached_frame_spec (λ g, qr_frames g !! v)
    (λ f g, Statics (rslist g) (<[v := f]> (qr_frames g)) (mqr_frames g))); [|done|..].
  - unfold QRspec_getWidth in *. nia.
  - intros g f'' [_ H _] Hl. specialize (H v f'' Hl Hv). congruence.
  - intros g [H1 H2 H3]. split; simpl; [done| |done]. intros v' f''.
    destruct (decide (v' = v)) as [->|Hne]; [rewrite lookup_insert_eq; by intros [= <-]|].
    rewrite lookup_insert_ne by done. apply H2.
Qed.

Lemma MQRspec_newFrame_spec v f E :
  1 ≤ v ≤ 4 → MQRspec_drawFrame v = Ret f →
  spec caches_ok (MQRspec_newFrame v) (λ r, r = f) E.
Proof.
  intros Hv Ef. unfold MQRspec_newFrame, MQRSPEC_VERSION_MAX, MQRspec_createFrame. rewrite Ef.
  replace ((v <? 1) || (4 <? v)) with false by lia.
  destruct (mqr_frame_spec v Hv) as (f' & Ef' & Hpos & Hfull & _).
  assert (f' = f) as -> by congruence.
  apply (cached_frame_spec (λ g, mqr_frames g !! v)
    (λ f g, Statics (rslist g) (qr_frames g) (<[v := f]> (mqr_frames g)))); [|done|..].
  - unfold MQRspec_getWidth in *. nia.
  - intros g f'' [_ _ H] Hl. specialize (H v f'' Hl Hv). congruence.
  - intros g [H1 H2 H3]. split; simpl; [done|done|]. intros v' f''.
    destruct (decide (v' = v)) as [->|Hne]; [rewrite lookup_insert_eq; by intros [= <-]|].
    rewrite lookup_insert_ne by done. apply H3.
Qed.

Lemma QRspec_newFrame_honest v : honest (QRspec_newFrame v).
Proof. unfold QRspec_newFrame, QRspec_createFrame. solve_honest. Qed.

Lemma MQRspec_newFrame_honest v : honest (MQRspec_newFrame v).
Proof. unfold MQRspec_newFrame, MQRspec_createFrame. solve_honest. Qed.

#[export] Hint Resolve QRspec_newFrame_honest MQRspec_newFrame_honest init_rs_honest : qr.

(** ** Clearing the caches *)

Lemma delete_all_lookup (m : Zmap carray) l v :
  foldl (λ frames i, delete i frames) m l !! v = if decide (v ∈ l) then None else m !! v.
Proof.
  revert m. induction l as [|i l IH]; intros m; cbn [foldl].
  { by rewrite decide_False by apply not_elem_of_nil. }
  rewrite IH. destruct (decide (v ∈ l)), (decide (v ∈ i :: l)); try done.
  - set_solver.
  - rewrite lookup_delete_None. set_solver.
  - apply lookup_delete_ne. set_solver.
Qed.
