(* ===== verification/QRInput.v ===== *)
(** * Input data (qrinput.c)

    The entries of an input object, their validation, the encoders of the data
    modes, the estimation of lengths and versions, and the conversion of an
    input object to a padded stream of code words. *)

From S2P Require Import Prelude CModel BitStream QRSpec MQRSpec.

(** ** Data *)

(** A chunk of data of one mode, with its encoded form once it has one. *)
Record QRinput_List := MkEntry {
  e_mode : QRencodeMode;
  e_size : Z;
  e_data : list Z;
  e_bstream : option BitStream
}.

#[export] Instance QRinput_List_eq_dec : EqDecision QRinput_List.
Proof. solve_decision. Defined.

Definition set_bstream (b : option BitStream) (e : QRinput_List) : QRinput_List :=
  MkEntry (e_mode e) (e_size e) (e_data e) b.

(** The [tail] pointer of an input object: [NULL], the entry at a position of
    its own list, or an entry of another input object. *)
Inductive tail_pointer := TNull | TAt (i : nat) | TOutside.

#[export] Instance tail_pointer_eq_dec : EqDecision tail_pointer.
Proof. solve_decision. Defined.

Record QRinput := MkInput {
  version : Z;
  level : QRecLevel;
  head : list QRinput_List;     (* the entries from [head] on *)
  tail : tail_pointer;
  mqr : bool;
  fnc1 : Z;
  appid : Z
}.

#[export] Instance QRinput_eq_dec : EqDecision QRinput.
Proof. solve_decision. Defined.

Definition sizeof_QRinput_List : Z := 40.
Definition sizeof_QRinput : Z := 40.

Definition set_version (v : Z) (i : QRinput) : QRinput :=
  MkInput v (level i) (head i) (tail i) (mqr i) (fnc1 i) (appid i).
Definition set_level (l : QRecLevel) (i : QRinput) : QRinput :=
  MkInput (version i) l (head i) (tail i) (mqr i) (fnc1 i) (appid i).
Definition set_head (h : list QRinput_List) (i : QRinput) : QRinput :=
  MkInput (version i) (level i) h (tail i) (mqr i) (fnc1 i) (appid i).
Definition set_tail (t : tail_pointer) (i : QRinput) : QRinput :=
  MkInput (version i) (level i) (head i) t (mqr i) (fnc1 i) (appid i).
Definition set_mqr (b : bool) (i : QRinput) : QRinput :=
  MkInput (version i) (level i) (head i) (tail i) b (fnc1 i) (appid i).
Definition set_fnc1 (f a : Z) (i : QRinput) : QRinput :=
  MkInput (version i) (level i) (head i) (tail i) (mqr i) f a.

(** Put a new entry in front of the list; an entry keeps its address, so the
    tail moves one position away from the head. *)
Definition push_head (e : QRinput_List) (i : QRinput) : QRinput :=
  set_tail (match tail i with TAt k => TAt (S k) | t => t end) (set_head (e :: head i) i).

Definition STRUCTURE_HEADER_SIZE : Z := 20.
Definition MODE_INDICATOR_SIZE : Z := 4.
Definition MAX_STRUCTURED_SYMBOLS : Z := 16.

Definition QRSPEC_MODEID_ECI : Z := 7.
Definition QRSPEC_MODEID_NUM : Z := 1.
Definition QRSPEC_MODEID_AN : Z := 2.
Definition QRSPEC_MODEID_8 : Z := 4.
Definition QRSPEC_MODEID_KANJI : Z := 8.
Definition QRSPEC_MODEID_FNC1SECOND : Z := 9.
Definition QRSPEC_MODEID_STRUCTURE : Z := 3.
Definition MQRSPEC_MODEID_NUM : Z := 0.
Definition MQRSPEC_MODEID_AN : Z := 1.
Definition MQRSPEC_MODEID_8 : Z := 2.
Definition MQRSPEC_MODEID_KANJI : Z := 3.

(** ** Validation *)

(** A check that reads the bytes of [0, size) in order and stops at the first
    bad one. *)
Fixpoint check_bytes (ok : Z → bool) (idx : list Z) (data : list Z) : outcome bool :=
  match idx with
  | [] => mret true
  | i :: idx => d ← readZ data i; if ok d then check_bytes ok idx data else mret false
  end.

Definition QRinput_checkModeNum (size : Z) (data : list Z) : outcome bool :=
  check_bytes (λ d, negb ((s8 d <? 48) || (57 <? s8 d))) (range 0 size) data.

Definition QRinput_anTable : list Z :=
  [
   -1; -1; -1; -1; -1; -1; -1; -1; -1; -1; -1; -1; -1; -1; -1; -1;
   -1; -1; -1; -1; -1; -1; -1; -1; -1; -1; -1; -1; -1; -1; -1; -1;
   36; -1; -1; -1; 37; 38; -1; -1; -1; -1; 39; 40; -1; 41; 42; 43;
    0;  1;  2;  3;  4;  5;  6;  7;  8;  9; 44; -1; -1; -1; -1; -1;
   -1; 10; 11; 12; 13; 14; 15; 16; 17; 18; 19; 20; 21; 22; 23; 24;
   25; 26; 27; 28; 29; 30; 31; 32; 33; 34; 35; -1; -1; -1; -1; -1;
   -1; -1; -1; -1; -1; -1; -1; -1; -1; -1; -1; -1; -1; -1; -1; -1;
   -1; -1; -1; -1; -1; -1; -1; -1; -1; -1; -1; -1; -1; -1; -1; -1].

(** The macro [QRinput_lookAnTable]. *)
Definition QRinput_lookAnTable (c : Z) : Z :=
  if truth (Z.land c 0x80) then -1 else nthZ QRinput_anTable c.

Definition QRinput_checkModeAn (size : Z) (data : list Z) : outcome bool :=
  check_bytes (λ d, negb (QRinput_lookAnTable (s8 d) <? 0)) (range 0 size) data.

(** The loop [for(i=0; i<size; i+=2)] of the kanji routines. *)
Definition kanji_indices (size : Z) : list Z := (λ k, 2 * k) <$> range 0 ((size + 1) `quot` 2).

Definition kanji_word (d0 d1 : Z) : Z := Z.lor (Z.shiftl d0 8) d1.

Fixpoint check_kanji (idx : list Z) (data : list Z) : outcome bool :=
  match idx with
  | [] => mret true
  | i :: idx =>
    d0 ← readZ data i;
    d1 ← readZ data (i + 1);
    let val := kanji_word d0 d1 in
    if (val <? 0x8140) || ((0x9ffc <? val) && (val <? 0xe040)) || (0xebbf <? val)
    then mret false else check_kanji idx data
  end.

Definition QRinput_checkModeKanji (size : Z) (data : list Z) : outcome bool :=
  if truth (Z.land size 1) then mret false else check_kanji (kanji_indices size) data.

Definition QRinput_checkModeFNC1Second (size : Z) (data : list Z) : outcome bool :=
  mret (size =? 1).

(** [QRinput_check] accepts ([true]) or rejects the data of an entry. *)
Definition QRinput_check (mode : QRencodeMode) (size : Z) (data : list Z) : outcome bool :=
  if (bool_decide (mode = QR_MODE_FNC1FIRST) && (size <? 0)) || (size <=? 0) then mret false
  else
    match mode with
    | QR_MODE_NUM => QRinput_checkModeNum size data
    | QR_MODE_AN => QRinput_checkModeAn size data
    | QR_MODE_KANJI => QRinput_checkModeKanji size data
    | QR_MODE_8 => mret true
    | QR_MODE_STRUCTURE => mret true
    | QR_MODE_ECI => mret true
    | QR_MODE_FNC1FIRST => mret true
    | QR_MODE_FNC1SECOND => QRinput_checkModeFNC1Second size data
    | QR_MODE_NUL => mret false
    end.

(** ** Entries *)

(** [memcpy] of [n] bytes from offset [off] of a buffer. *)
Definition copy_bytes (data : list Z) (off n : Z) : outcome (list Z) :=
  if (0 <=? off) && (0 <=? n) && (off + n <=? Z.of_nat (length data))
  then mret (take (Z.to_nat n) (drop (Z.to_nat off) data)) else Undef.

Definition QRinput_List_newEntry (mode : QRencodeMode) (size : Z) (data : list Z)
    : M QRinput_List :=
  ok ← liftO (QRinput_check mode size data);
  if ok : bool then
    _ ← malloc sizeof_QRinput_List;
    if 0 <? size then
      _ ← malloc size;
      bytes ← liftO (copy_bytes data 0 size);
      mret (MkEntry mode size bytes None)
    else mret (MkEntry mode size [] None)
  else raise EINVAL.

Definition QRinput_List_dup (entry : QRinput_List) : M QRinput_List :=
  _ ← malloc sizeof_QRinput_List;
  _ ← malloc (e_size entry);
  bytes ← liftO (copy_bytes (e_data entry) 0 (e_size entry));
  mret (MkEntry (e_mode entry) (e_size entry) bytes None).

(** ** Input objects *)

Definition QRinput_new2 (version : Z) (level : QRecLevel) : M QRinput :=
  if (version <? 0) || (QRSPEC_VERSION_MAX <? version) then raise EINVAL
  else
    _ ← malloc sizeof_QRinput;
    mret (MkInput version level [] TNull false 0 0).

Definition QRinput_new : M QRinput := QRinput_new2 0 QR_ECLEVEL_L.

Definition QRinput_newMQR (version : Z) (level : QRecLevel) : M QRinput :=
  if (version <=? 0) || (MQRSPEC_VERSION_MAX <? version) then raise EINVAL
  else if MQRspec_getECCLength version level =? 0 then raise EINVAL
  else
    input ← QRinput_new2 version level;
    mret (set_mqr true input).

Definition QRinput_getVersion (input : QRinput) : Z := version input.

Definition QRinput_setVersion (v : Z) : SM QRinput unit :=
  input ← get;
  if mqr input || (v <? 0) || (QRSPEC_VERSION_MAX <? v) then lift (raise EINVAL)
  else put (set_version v input).

Definition QRinput_getErrorCorrectionLevel (input : QRinput) : QRecLevel := level input.

Definition QRinput_setErrorCorrectionLevel (l : QRecLevel) : SM QRinput unit :=
  input ← get;
  if mqr input then lift (raise EINVAL) else put (set_level l input).

Definition QRinput_setVersionAndErrorCorrectionLevel (v : Z) (l : QRecLevel)
    : SM QRinput unit :=
  input ← get;
  _ ← (if mqr input then
         if (v <=? 0) || (MQRSPEC_VERSION_MAX <? v) then lift (raise EINVAL)
         else if MQRspec_getECCLength v l =? 0 then lift (raise EINVAL)
         else mret tt
       else
         if (v <? 0) || (QRSPEC_VERSION_MAX <? v) then lift (raise EINVAL) else mret tt);
  put (set_level l (set_version v input)).

(** [tail->next = entry] drops what followed [tail]. A tail in another object
    would append to that object's list, which this model does not follow. *)
Definition QRinput_appendEntry (entry : QRinput_List) : SM QRinput unit :=
  input ← get;
  match tail input with
  | TNull => put (set_tail (TAt 0) (set_head [entry] input))
  | TAt i => put (set_tail (TAt (S i)) (set_head (take (S i) (head input) ++ [entry]) input))
  | TOutside => lift undef
  end.

Definition QRinput_append (mode : QRencodeMode) (size : Z) (data : list Z) : SM QRinput unit :=
  entry ← lift (QRinput_List_newEntry mode size data);
  QRinput_appendEntry entry.

Definition QRinput_insertStructuredAppendHeader (size number parity : Z) : SM QRinput unit :=
  if MAX_STRUCTURED_SYMBOLS <? size then lift (raise EINVAL)
  else if (number <=? 0) || (size <? number) then lift (raise EINVAL)
  else
    entry ← lift (QRinput_List_newEntry QR_MODE_STRUCTURE 3 [u8 size; u8 number; parity]);
    input ← get;
    put (push_head entry input).

(** [ecinum] is an [unsigned int]. *)
Definition QRinput_appendECIheader (ecinum : Z) : SM QRinput unit :=
  if 999999 <? ecinum then lift (raise EINVAL)
  else
    QRinput_append QR_MODE_ECI 4
      [Z.land ecinum 0xff; Z.land (Z.shiftr ecinum 8) 0xff;
       Z.land (Z.shiftr ecinum 16) 0xff; Z.land (Z.shiftr ecinum 24) 0xff].

Definition QRinput_calcParity (input : QRinput) : outcome Z :=
  foldM (λ e parity,
    if bool_decide (e_mode e = QR_MODE_STRUCTURE) then mret parity
    else foldM (λ i parity, d ← readZ (e_data e) i; mret (Z.lxor parity d))
           (reverse (range 0 (e_size e))) parity) (head input) 0.

Definition QRinput_dup (input : QRinput) : M QRinput :=
  n ← (if mqr input then QRinput_newMQR (version input) (level input)
       else QRinput_new2 (version input) (level input));
  foldM (λ e n,
    e' ← QRinput_List_dup e;
    '(_, n) ← run_on n (QRinput_appendEntry e');
    mret n) (head input) n.

Definition QRinput_setFNC1First : SM QRinput unit :=
  input ← get;
  if mqr input then lift (raise EINVAL) else put (set_fnc1 1 (appid input) input).

Definition QRinput_setFNC1Second (a : Z) : SM QRinput unit :=
  input ← get;
  if mqr input then lift (raise EINVAL) else put (set_fnc1 2 a input).

(** ** Encoders of the modes

    Each returns the bit stream that the C function stores in the entry; on a
    failure the entry is left without a stream. *)

(** The four-bit mode indicator, or the shorter one of a Micro QR symbol, and
    the number of characters. *)
Definition append_header (b : BitStream) (mode : QRencodeMode) (version count : Z)
    (modeid : Z) : M BitStream :=
  b ← BitStream_appendNum b 4 modeid;
  BitStream_appendNum b (QRspec_lengthIndicator mode version) count.

Definition append_header_mqr (b : BitStream) (mode : QRencodeMode) (version count : Z)
    (modeid : Z) : M BitStream :=
  b ← BitStream_appendNum b (version - 1) modeid;
  BitStream_appendNum b (MQRspec_lengthIndicator mode version) count.

Definition QRinput_encodeModeNum (entry : QRinput_List) (version : Z) (mqr : bool)
    : M BitStream :=
  let size := e_size entry in
  let data := e_data entry in
  b ← BitStream_new;
  b ← (if mqr then
         b ← (if 1 <? version then BitStream_appendNum b (version - 1) MQRSPEC_MODEID_NUM
              else mret b);
         BitStream_appendNum b (MQRspec_lengthIndicator QR_MODE_NUM version) size
       else append_header b QR_MODE_NUM version size QRSPEC_MODEID_NUM);
  let words := size `quot` 3 in
  b ← for_range 0 words (λ i b,
    d0 ← liftO (readZ data (i * 3));
    d1 ← liftO (readZ data (i * 3 + 1));
    d2 ← liftO (readZ data (i * 3 + 2));
    let val := u32 ((d0 - 48) * 100) in
    let val := u32 (val + (d1 - 48) * 10) in
    let val := u32 (val + (d2 - 48)) in
    BitStream_appendNum b 10 val) b;
  if size - words * 3 =? 1 then
    d0 ← liftO (readZ data (words * 3));
    BitStream_appendNum b 4 (u32 (d0 - 48))
  else if size - words * 3 =? 2 then
    d0 ← liftO (readZ data (words * 3));
    d1 ← liftO (readZ data (words * 3 + 1));
    let val := u32 ((d0 - 48) * 10) in
    let val := u32 (val + (d1 - 48)) in
    (* the result of this call is not looked at *)
    ignore_failure b (BitStream_appendNum b 7 val)
  else mret b.

Definition QRinput_encodeModeAn (entry : QRinput_List) (version : Z) (mqr : bool)
    : M BitStream :=
  let size := e_size entry in
  let data := e_data entry in
  b ← BitStream_new;
  b ← (if mqr then
         if version <? 2 then raise EINVAL
         else append_header_mqr b QR_MODE_AN version size MQRSPEC_MODEID_AN
       else append_header b QR_MODE_AN version size QRSPEC_MODEID_AN);
  let words := size `quot` 2 in
  b ← for_range 0 words (λ i b,
    d0 ← liftO (readZ data (i * 2));
    d1 ← liftO (readZ data (i * 2 + 1));
    let val := u32 (u32 (QRinput_lookAnTable d0) * 45) in
    let val := u32 (val + u32 (QRinput_lookAnTable d1)) in
    BitStream_appendNum b 11 val) b;
  if truth (Z.land size 1) then
    d0 ← liftO (readZ data (words * 2));
    BitStream_appendNum b 6 (u32 (QRinput_lookAnTable d0))
  else mret b.

Definition QRinput_encodeMode8 (entry : QRinput_List) (version : Z) (mqr : bool)
    : M BitStream :=
  b ← BitStream_new;
  b ← (if mqr then
         if version <? 3 then raise EINVAL
         else append_header_mqr b QR_MODE_8 version (e_size entry) MQRSPEC_MODEID_8
       else append_header b QR_MODE_8 version (e_size entry) QRSPEC_MODEID_8);
  BitStream_appendBytes b (e_size entry) (e_data entry).

Definition QRinput_encodeModeKanji (entry : QRinput_List) (version : Z) (mqr : bool)
    : M BitStream :=
  let size := e_size entry in
  let data := e_data entry in
  b ← BitStream_new;
  b ← (if mqr then
         if version <? 2 then raise EINVAL
         else append_header_mqr b QR_MODE_KANJI version (size `quot` 2) MQRSPEC_MODEID_KANJI
       else append_header b QR_MODE_KANJI version (size `quot` 2) QRSPEC_MODEID_KANJI);
  for_range 0 ((size + 1) `quot` 2) (λ k b, (* i = 2 * k *)
    d0 ← liftO (readZ data (2 * k));
    d1 ← liftO (readZ data (2 * k + 1));
    let val := kanji_word d0 d1 in
    let val := if val <=? 0x9ffc then u32 (val - 0x8140) else u32 (val - 0xc140) in
    let h := u32 (Z.shiftr val 8 * 0xc0) in
    let val := u32 (Z.land val 0xff + h) in
    BitStream_appendNum b 13 val) b.

Definition QRinput_encodeModeStructure (entry : QRinput_List) (mqr : bool) : M BitStream :=
  if mqr then raise EINVAL
  else
    let data := e_data entry in
    b ← BitStream_new;
    b ← BitStream_appendNum b 4 QRSPEC_MODEID_STRUCTURE;
    d1 ← liftO (readZ data 1);
    b ← BitStream_appendNum b 4 (u32 (d1 - 1));
    d0 ← liftO (readZ data 0);
    b ← BitStream_appendNum b 4 (u32 (d0 - 1));
    d2 ← liftO (readZ data 2);
    BitStream_appendNum b 8 d2.

Definition QRinput_encodeModeFNC1Second (entry : QRinput_List) (version : Z) : M BitStream :=
  b ← BitStream_new;
  b ← BitStream_appendNum b 4 QRSPEC_MODEID_FNC1SECOND;
  BitStream_appendBytes b 1 (e_data entry).

Definition QRinput_decodeECIfromByteArray (data : list Z) : outcome Z :=
  for_range 0 4 (λ i ecinum,
    d ← readZ data (3 - i);
    mret (Z.lor (u32 (Z.shiftl ecinum 8)) d)) 0.

Definition QRinput_encodeModeECI (entry : QRinput_List) (version : Z) : M BitStream :=
  b ← BitStream_new;
  ecinum ← liftO (QRinput_decodeECIfromByteArray (e_data entry));
  let '(words, code) :=
    if ecinum <? 128 then (1, ecinum)
    else if ecinum <? 16384 then (2, u32 (0x8000 + ecinum))
    else (3, u32 (0xc0000 + ecinum)) in
  b ← BitStream_appendNum b 4 QRSPEC_MODEID_ECI;
  BitStream_appendNum b (words * 8) code.

(** [QRinput_encodeBitStream] calls itself on the two halves of an entry that
    is longer than the length indicator can say; both halves are shorter, so
    the size of the entry bounds the depth. *)
Fixpoint encodeBitStream_depth (depth : nat) (version : Z) (mqr : bool)
    : SM QRinput_List Z :=
  entry ← get;
  _ ← put (set_bstream None entry);
  let words := QRspec_maximumWords (e_mode entry) version in
  if negb (words =? 0) && (words <? e_size entry) then
    match depth with
    | O => lift undef
    | S depth =>
      st1 ← lift (QRinput_List_newEntry (e_mode entry) words (e_data entry));
      rest ← lift (liftO (copy_bytes (e_data entry) words (e_size entry - words)));
      st2 ← lift (QRinput_List_newEntry (e_mode entry) (e_size entry - words) rest);
      '(_, st1) ← lift (run_on st1 (encodeBitStream_depth depth version mqr));
      '(_, st2) ← lift (run_on st2 (encodeBitStream_depth depth version mqr));
      b ← lift BitStream_new;
      _ ← put (set_bstream (Some b) entry);
      b ← lift (BitStream_append b (e_bstream st1));
      _ ← put (set_bstream (Some b) entry);
      b ← lift (BitStream_append b (e_bstream st2));
      _ ← put (set_bstream (Some b) entry);
      mret (BitStream_size b)
    end
  else
    let encoder :=
      match e_mode entry with
      | QR_MODE_NUM => Some (QRinput_encodeModeNum entry version mqr)
      | QR_MODE_AN => Some (QRinput_encodeModeAn entry version mqr)
      | QR_MODE_8 => Some (QRinput_encodeMode8 entry version mqr)
      | QR_MODE_KANJI => Some (QRinput_encodeModeKanji entry version mqr)
      | QR_MODE_STRUCTURE => Some (QRinput_encodeModeStructure entry mqr)
      | QR_MODE_ECI => Some (QRinput_encodeModeECI entry version)
      | QR_MODE_FNC1SECOND => Some (QRinput_encodeModeFNC1Second entry version)
      | _ => None
      end in
    match encoder with
    | Some m =>
      b ← lift m;
      _ ← put (set_bstream (Some b) entry);
      mret (BitStream_size b)
    | None => lift undef (* BitStream_size of the NULL stream *)
    end.

Definition QRinput_encodeBitStream (version : Z) (mqr : bool) : SM QRinput_List Z :=
  entry ← get;
  encodeBitStream_depth (Z.to_nat (e_size entry)) version mqr.

(** ** Estimation of lengths and versions *)

Definition QRinput_estimateBitsModeNum (size : Z) : Z :=
  let w := size `quot` 3 in
  let bits := w * 10 in
  match size - w * 3 with 1 => bits + 4 | 2 => bits + 7 | _ => bits end.

Definition QRinput_estimateBitsModeAn (size : Z) : Z :=
  let w := size `quot` 2 in
  let bits := w * 11 in
  if truth (Z.land size 1) then bits + 6 else bits.

Definition QRinput_estimateBitsMode8 (size : Z) : Z := size * 8.

Definition QRinput_estimateBitsModeKanji (size : Z) : Z := size `quot` 2 * 13.

Definition QRinput_estimateBitsModeECI (data : list Z) : outcome Z :=
  ecinum ← QRinput_decodeECIfromByteArray data;
  mret (if ecinum <? 128 then MODE_INDICATOR_SIZE + 8
        else if ecinum <? 16384 then MODE_INDICATOR_SIZE + 16
        else MODE_INDICATOR_SIZE + 24).

Definition QRinput_estimateBitStreamSizeOfEntry (entry : QRinput_List) (version : Z) (mqr : bool)
    : outcome Z :=
  let version := if version =? 0 then 1 else version in
  let size := e_size entry in
  let with_indicators (bits : Z) : Z :=
    let l := QRspec_lengthIndicator (e_mode entry) version in
    if mqr then
      let m := version - 1 in bits + (l + m)
    else
      let m := Z.shiftl 1 l in
      let num := (size + m - 1) `quot` m in
      bits + num * (MODE_INDICATOR_SIZE + l) in
  match e_mode entry with
  | QR_MODE_NUM => mret (with_indicators (QRinput_estimateBitsModeNum size))
  | QR_MODE_AN => mret (with_indicators (QRinput_estimateBitsModeAn size))
  | QR_MODE_8 => mret (with_indicators (QRinput_estimateBitsMode8 size))
  | QR_MODE_KANJI => mret (with_indicators (QRinput_estimateBitsModeKanji size))
  | QR_MODE_STRUCTURE => mret STRUCTURE_HEADER_SIZE
  | QR_MODE_ECI => bits ← QRinput_estimateBitsModeECI (e_data entry); mret (with_indicators bits)
  | QR_MODE_FNC1FIRST => mret MODE_INDICATOR_SIZE
  | QR_MODE_FNC1SECOND => mret (MODE_INDICATOR_SIZE + 8)
  | QR_MODE_NUL => mret 0
  end.

Definition QRinput_estimateBitStreamSize (input : QRinput) (version : Z) : outcome Z :=
  foldM (λ e bits,
    n ← QRinput_estimateBitStreamSizeOfEntry e version (mqr input);
    mret (bits + n)) (head input) 0.

(** The version grows in every iteration but the last and is at most 40. *)
Fixpoint estimateVersion_loop (fuel : nat) (input : QRinput) (prev : Z) : outcome Z :=
  match fuel with
  | O => Undef
  | S fuel =>
    bits ← QRinput_estimateBitStreamSize input prev;
    let v := QRspec_getMinimumVersion ((bits + 7) `quot` 8) (level input) in
    if v <? 0 then mret (-1)
    else if prev <? v then estimateVersion_loop fuel input v else mret v
  end.

Definition version_fuel : nat := 42.

Definition QRinput_estimateVersion (input : QRinput) : outcome Z :=
  estimateVersion_loop version_fuel input 0.

Definition QRinput_lengthOfCode (mode : QRencodeMode) (version bits : Z) : Z :=
  let payload := bits - 4 - QRspec_lengthIndicator mode version in
  let size :=
    match mode with
    | QR_MODE_NUM =>
      let chunks := payload `quot` 10 in
      let remain := payload - chunks * 10 in
      let size := chunks * 3 in
      if 7 <=? remain then size + 2 else if 4 <=? remain then size + 1 else size
    | QR_MODE_AN =>
      let chunks := payload `quot` 11 in
      let remain := payload - chunks * 11 in
      let size := chunks * 2 in
      if 6 <=? remain then size + 1 else size
    | QR_MODE_8 => payload `quot` 8
    | QR_MODE_KANJI => payload `quot` 13 * 2
    | QR_MODE_STRUCTURE => payload `quot` 8
    | _ => 0
    end in
  let maxsize := QRspec_maximumWords mode version in
  let size := if size <? 0 then 0 else size in
  if (0 <? maxsize) && (maxsize <? size) then maxsize else size.

(** ** Conversion of an input object *)

Definition on_entries {A} (m : SM (list QRinput_List) A) : SM QRinput A := zoom head set_head m.

Definition QRinput_createBitStream : SM QRinput Z :=
  input ← get;
  on_entries (for_each (λ total,
    bits ← QRinput_encodeBitStream (version input) (mqr input);
    mret (total + bits)) 0).

(** The version grows with every iteration but the last. *)
Fixpoint convertData_loop (fuel : nat) : SM QRinput unit :=
  match fuel with
  | O => lift undef
  | S fuel =>
    bits ← QRinput_createBitStream;
    input ← get;
    let ver := QRspec_getMinimumVersion ((bits + 7) `quot` 8) (level input) in
    if ver <? 0 then lift (raise ERANGE)
    else if QRinput_getVersion input <? ver then
      _ ← QRinput_setVersion ver;
      convertData_loop fuel
    else mret tt
  end.

Definition QRinput_convertData : SM QRinput unit :=
  input ← get;
  ver ← lift (liftO (QRinput_estimateVersion input));
  _ ← (if QRinput_getVersion input <? ver then QRinput_setVersion ver else mret tt);
  convertData_loop version_fuel.

(** The bytes 11101100 and 00010001 in turn. *)
Definition pad_bytes (padlen : Z) : list Z :=
  (λ i, if truth (Z.land i 1) then 0x11 else 0xec) <$> range 0 padlen.

Definition QRinput_appendPaddingBit (bstream : BitStream) (input : QRinput) : M BitStream :=
  let bits := BitStream_size bstream in
  let maxwords := QRspec_getDataLength (version input) (level input) in
  let maxbits := maxwords * 8 in
  if maxbits <? bits then raise ERANGE
  else if maxbits =? bits then mret bstream
  else if maxbits - bits <=? 4 then BitStream_appendNum bstream (maxbits - bits) 0
  else
    let words := (bits + 4 + 7) `quot` 8 in
    padding ← BitStream_new;
    padding ← BitStream_appendNum padding (words * 8 - bits) 0;
    let padlen := maxwords - words in
    padding ← (if 0 <? padlen then
                 _ ← malloc padlen;
                 BitStream_appendBytes padding padlen (pad_bytes padlen)
               else mret padding);
    BitStream_append bstream (Some padding).

Definition QRinput_appendPaddingBitMQR (bstream : BitStream) (input : QRinput) : M BitStream :=
  let bits := BitStream_size bstream in
  let maxbits := MQRspec_getDataLengthBit (version input) (level input) in
  let maxwords := maxbits `quot` 8 in
  if maxbits <? bits then raise ERANGE
  else if maxbits =? bits then mret bstream
  else
    let termbits := version input * 2 + 1 in
    if maxbits - bits <=? termbits then BitStream_appendNum bstream (maxbits - bits) 0
    else
      let bits := bits + termbits in
      let words := (bits + 7) `quot` 8 in
      let termbits :=
        if 0 <? maxbits - words * 8 then
          let termbits := termbits + (words * 8 - bits) in
          if words =? maxwords then termbits + (maxbits - words * 8) else termbits
        else termbits + (words * 8 - bits) in
      padding ← BitStream_new;
      padding ← BitStream_appendNum padding termbits 0;
      let padlen := maxwords - words in
      padding ← (if 0 <? padlen then
                   _ ← malloc padlen;
                   padding ← BitStream_appendBytes padding padlen (pad_bytes padlen);
                   let termbits := maxbits - maxwords * 8 in
                   if 0 <? termbits then BitStream_appendNum padding termbits 0 else mret padding
                 else mret padding);
      BitStream_append bstream (Some padding).

(** The mode of the first entry differs from one of two modes, so the test
    always succeeds. *)
Definition QRinput_insertFNC1Header : SM QRinput unit :=
  input ← get;
  entry ← lift (if fnc1 input =? 1 then QRinput_List_newEntry QR_MODE_FNC1FIRST 0 []
                else if fnc1 input =? 2 then
                  QRinput_List_newEntry QR_MODE_FNC1SECOND 1 [appid input]
                else fail);
  match head input with
  | [] => lift undef (* input->head->mode *)
  | first :: others =>
    if negb (bool_decide (e_mode first = QR_MODE_STRUCTURE))
       || negb (bool_decide (e_mode first = QR_MODE_ECI))
    then put (push_head entry input)
    else put (set_tail (match tail input with TAt (S k) => TAt (S (S k)) | t => t end)
                (set_head (first :: entry :: others) input))
  end.

Definition QRinput_mergeBitStream : SM QRinput BitStream :=
  input ← get;
  _ ← (if mqr input then
         _ ← QRinput_createBitStream; mret tt
       else
         _ ← (if truth (fnc1 input) then QRinput_insertFNC1Header else mret tt);
         QRinput_convertData);
  bstream ← lift BitStream_new;
  input ← get;
  lift (foldM (λ e b, BitStream_append b (e_bstream e)) (head input) bstream).

Definition QRinput_getBitStream : SM QRinput BitStream :=
  bstream ← QRinput_mergeBitStream;
  input ← get;
  lift (if mqr input then QRinput_appendPaddingBitMQR bstream input
        else QRinput_appendPaddingBit bstream input).

Definition QRinput_getByteStream : SM QRinput (list Z) :=
  bstream ← QRinput_getBitStream;
  lift (BitStream_toByte bstream).
