(* ===== verification/QRInputTheory.v ===== *)
(** * Theory of input objects

    The encoding of segments in the standard as functions on lists, and the
    proofs that the encoders, the version selection, the padding and the
    packing of qrinput.c compute it. *)

From S2P Require Import Prelude CModel BitStream QRSpec MQRSpec QRInput.

(** ** Reference encoding of segments *)

(** The value of a decimal digit and of an alphanumeric character. *)
Definition digit (d : Z) : Z := d - 48.
Definition an_value (d : Z) : Z := nthZ QRinput_anTable d.

Definition is_digit (d : Z) : bool := (48 <=? d) && (d <=? 57).
Definition is_an (d : Z) : bool := (0 <=? d) && (d <? 128) && (0 <=? nthZ QRinput_anTable d).

(** The Shift JIS code of a kanji that can be encoded, and its 13-bit value. *)
Definition sjis (d0 d1 : Z) : Z := d0 * 256 + d1.
Definition is_kanji (d0 d1 : Z) : bool :=
  let v := sjis d0 d1 in
  ((0x8140 <=? v) && (v <=? 0x9ffc)) || ((0xe040 <=? v) && (v <=? 0xebbf)).
Definition kanji_value (d0 d1 : Z) : Z :=
  let v := sjis d0 d1 in
  let v := if v <=? 0x9ffc then v - 0x8140 else v - 0xc140 in
  v `div` 256 * 0xc0 + v `mod` 256.

(** Three digits in ten bits, two in seven, one in four. *)
Fixpoint num_bits (l : list Z) : list Z :=
  match l with
  | d0 :: d1 :: d2 :: l => to_bits 10 (digit d0 * 100 + digit d1 * 10 + digit d2) ++ num_bits l
  | [d0; d1] => to_bits 7 (digit d0 * 10 + digit d1)
  | [d0] => to_bits 4 (digit d0)
  | [] => []
  end.

(** Two alphanumeric characters in eleven bits, one in six. *)
Fixpoint an_bits (l : list Z) : list Z :=
  match l with
  | d0 :: d1 :: l => to_bits 11 (an_value d0 * 45 + an_value d1) ++ an_bits l
  | [d0] => to_bits 6 (an_value d0)
  | [] => []
  end.

(** A kanji character in thirteen bits. *)
Fixpoint kanji_bits (l : list Z) : list Z :=
  match l with
  | d0 :: d1 :: l => to_bits 13 (kanji_value d0 d1) ++ kanji_bits l
  | _ => []
  end.

Fixpoint kanji_valid (l : list Z) : bool :=
  match l with
  | d0 :: d1 :: l => is_kanji d0 d1 && kanji_valid l
  | [] => true
  | _ => false
  end.

(** The data that can be encoded in a mode. *)
Definition mode_data (mode : QRencodeMode) (data : list Z) : bool :=
  match mode with
  | QR_MODE_NUM => forallb is_digit data
  | QR_MODE_AN => forallb is_an data
  | QR_MODE_8 => true
  | QR_MODE_KANJI => kanji_valid data
  | _ => false
  end.

Definition data_bits (mode : QRencodeMode) (data : list Z) : list Z :=
  match mode with
  | QR_MODE_NUM => num_bits data
  | QR_MODE_AN => an_bits data
  | QR_MODE_8 => bytes_to_bits data
  | QR_MODE_KANJI => kanji_bits data
  | _ => []
  end.

(** Number of characters of a segment. *)
Definition char_count (mode : QRencodeMode) (data : list Z) : Z :=
  let n := Z.of_nat (length data) in
  if bool_decide (mode = QR_MODE_KANJI) then n `div` 2 else n.

(** Mode indicator and character count of a QR code segment. *)
Definition mode_id (mode : QRencodeMode) : Z :=
  match mode with
  | QR_MODE_NUM => 1 | QR_MODE_AN => 2 | QR_MODE_8 => 4 | QR_MODE_KANJI => 8
  | QR_MODE_STRUCTURE => 3 | QR_MODE_ECI => 7 | QR_MODE_FNC1FIRST => 5
  | QR_MODE_FNC1SECOND => 9 | QR_MODE_NUL => 0
  end.

Definition segment (version : Z) (mode : QRencodeMode) (data : list Z) : list Z :=
  to_bits 4 (mode_id mode)
  ++ to_bits (Z.to_nat (QRspec_lengthIndicator mode version)) (char_count mode data)
  ++ data_bits mode data.

(** A Micro QR segment: the mode indicator has [version - 1] bits. *)
Definition msegment (version : Z) (mode : QRencodeMode) (data : list Z) : list Z :=
  to_bits (Z.to_nat (version - 1)) (mode_Z mode)
  ++ to_bits (Z.to_nat (MQRspec_lengthIndicator mode version)) (char_count mode data)
  ++ data_bits mode data.

(** ** Groups of elements *)

Lemma take_1 (l : list Z) (k : nat) a : l !! k = Some a → take (k + 1) l = take k l ++ [a].
Proof. intros H. rewrite Nat.add_1_r. by apply take_S_r. Qed.

Lemma take_2 (l : list Z) (k : nat) a b :
  l !! k = Some a → l !! (k + 1)%nat = Some b → take (k + 2) l = take k l ++ [a; b].
Proof.
  intros Ha Hb. replace (k + 2)%nat with (k + 1 + 1)%nat by lia.
  by rewrite (take_1 l (k + 1) b), (take_1 l k a), <- app_assoc.
Qed.

Lemma take_3 (l : list Z) (k : nat) a b c :
  l !! k = Some a → l !! (k + 1)%nat = Some b → l !! (k + 2)%nat = Some c →
  take (k + 3) l = take k l ++ [a; b; c].
Proof.
  intros Ha Hb Hc. replace (k + 3)%nat with (k + 2 + 1)%nat by lia.
  by rewrite (take_1 l (k + 2) c), (take_2 l k a b), <- app_assoc.
Qed.

Lemma num_bits_app l1 l2 (n : nat) :
  length l1 = (3 * n)%nat → num_bits (l1 ++ l2) = num_bits l1 ++ num_bits l2.
Proof.
  revert l1. induction n as [|n IH]; intros l1 Hl.
  - by destruct l1.
  - destruct l1 as [|a [|b [|c l1]]]; simpl in Hl; try lia.
    cbn [app num_bits]. rewrite <- app_assoc. f_equal. apply IH. lia.
Qed.

Lemma an_bits_app l1 l2 (n : nat) :
  length l1 = (2 * n)%nat → an_bits (l1 ++ l2) = an_bits l1 ++ an_bits l2.
Proof.
  revert l1. induction n as [|n IH]; intros l1 Hl.
  - by destruct l1.
  - destruct l1 as [|a [|b l1]]; simpl in Hl; try lia.
    cbn [app an_bits]. rewrite <- app_assoc. f_equal. apply IH. lia.
Qed.

Lemma kanji_bits_app l1 l2 (n : nat) :
  length l1 = (2 * n)%nat → kanji_bits (l1 ++ l2) = kanji_bits l1 ++ kanji_bits l2.
Proof.
  revert l1. induction n as [|n IH]; intros l1 Hl.
  - by destruct l1.
  - destruct l1 as [|a [|b l1]]; simpl in Hl; try lia.
    cbn [app kanji_bits]. rewrite <- app_assoc. f_equal. apply IH. lia.
Qed.

Lemma kanji_valid_app l1 l2 (n : nat) :
  length l1 = (2 * n)%nat → kanji_valid (l1 ++ l2) = kanji_valid l1 && kanji_valid l2.
Proof.
  revert l1. induction n as [|n IH]; intros l1 Hl.
  - by destruct l1.
  - destruct l1 as [|a [|b l1]]; simpl in Hl; try lia.
    cbn [app kanji_valid]. rewrite (IH l1) by lia. by rewrite andb_assoc.
Qed.

Lemma kanji_valid_even l : kanji_valid l = true → ∃ n : nat, length l = (2 * n)%nat.
Proof.
  assert (H : ∀ k l, (length l ≤ k)%nat → kanji_valid l = true → ∃ n : nat, length l = (2 * n)%nat).
  { induction k as [|k IH]; intros [|a [|b l']] Hk Hv; simpl in *; try done; try lia.
    - by exists 0%nat.
    - by exists 0%nat.
    - apply andb_true_iff in Hv as [_ Hv]. destruct (IH l' ltac:(lia) Hv) as [n Hn].
      exists (S n). lia. }
  by apply (H (length l)).
Qed.

(** ** Validation *)

Lemma check_bytes_spec ok (data : list Z) (k n : nat) :
  length data = (k + n)%nat →
  check_bytes ok (count_up n (Z.of_nat k)) data = Ret (forallb ok (drop k data)).
Proof.
  revert k. induction n as [|n IH]; intros k Hl; cbn [count_up check_bytes].
  { by rewrite drop_ge by lia. }
  destruct (readZ_lt data (Z.of_nat k)) as (d & Hd & ->); [lia|].
  rewrite Nat2Z.id in Hd. rewrite (drop_S _ _ _ Hd). cbn [forallb mbind outcome_bind].
  destruct (ok d); [|done]. cbn [andb].
  replace (Z.of_nat k + 1) with (Z.of_nat (S k)) by lia. apply IH. lia.
Qed.

Lemma check_bytes_all ok data :
  check_bytes ok (range 0 (Z.of_nat (length data))) data = Ret (forallb ok data).
Proof.
  unfold range. replace (Z.to_nat (Z.of_nat (length data) - 0)) with (length data) by lia.
  by rewrite (check_bytes_spec ok data 0) by done.
Qed.

Lemma forallb_ext {A} (f g : A → bool) l : Forall (λ x, f x = g x) l → forallb f l = forallb g l.
Proof. induction 1 as [|x l E _ IH]; simpl; [done|]. by rewrite E, IH. Qed.

Lemma byte_cases (p : Z → bool) :
  all_range 0 256 p = true → ∀ d, is_byte d → p d = true.
Proof. intros H d Hd. by apply (all_range_spec _ _ _ H). Qed.

Lemma check_num_spec data :
  Forall is_byte data →
  QRinput_checkModeNum (Z.of_nat (length data)) data = Ret (forallb is_digit data).
Proof.
  intros Hd. unfold QRinput_checkModeNum. rewrite check_bytes_all. f_equal.
  apply forallb_ext. eapply Forall_impl; [done|]. intros d Hb.
  apply eqb_prop. revert d Hb. apply byte_cases. by vm_compute.
Qed.

Lemma check_an_spec data :
  Forall is_byte data →
  QRinput_checkModeAn (Z.of_nat (length data)) data = Ret (forallb is_an data).
Proof.
  intros Hd. unfold QRinput_checkModeAn. rewrite check_bytes_all. f_equal.
  apply forallb_ext. eapply Forall_impl; [done|]. intros d Hb.
  apply eqb_prop. revert d Hb. apply byte_cases. by vm_compute.
Qed.

(** Appending a low-order byte with [|]. *)
Lemma lor_low_byte a d : is_byte d → Z.lor (a * 256) d = a * 256 + d.
Proof.
  intros Hd. pose proof (Z.add_lor_land (a * 256) d) as E.
  assert (Hl : Z.land (a * 256) d = 0); [|lia]. clear E. apply Z.bits_inj'. intros n Hn.
  rewrite Z.land_spec, Z.bits_0. change 256 with (2 ^ 8). destruct (Z.ltb_spec n 8).
  - by rewrite Z.mul_pow2_bits_low by lia.
  - rewrite <- (Z.mod_small d (2 ^ 8)) by done. rewrite Z.mod_pow2_bits_high by lia.
    apply andb_false_r.
Qed.

Lemma kanji_word_eq d0 d1 : is_byte d1 → kanji_word d0 d1 = sjis d0 d1.
Proof.
  intros H1. unfold kanji_word, sjis. rewrite Z.shiftl_mul_pow2 by lia. by apply lor_low_byte.
Qed.

Lemma check_kanji_spec (data : list Z) (k n : nat) :
  Forall is_byte data → length data = (2 * k + 2 * n)%nat →
  check_kanji ((λ k, 2 * k) <$> count_up n (Z.of_nat k)) data
  = Ret (kanji_valid (drop (2 * k) data)).
Proof.
  intros Hb. revert k. induction n as [|n IH]; intros k Hl; cbn [count_up fmap list_fmap check_kanji].
  { by rewrite drop_ge by lia. }
  destruct (readZ_lt data (2 * Z.of_nat k)) as (d0 & Hd0 & ->); [lia|].
  destruct (readZ_lt data (2 * Z.of_nat k + 1)) as (d1 & Hd1 & ->); [lia|].
  cbn [mbind outcome_bind].
  replace (Z.to_nat (2 * Z.of_nat k)) with (2 * k)%nat in Hd0 by lia.
  replace (Z.to_nat (2 * Z.of_nat k + 1)) with (S (2 * k)) in Hd1 by lia.
  assert (is_byte d0) by (by eapply Forall_lookup_1 in Hd0).
  assert (is_byte d1) by (by eapply Forall_lookup_1 in Hd1).
  rewrite (drop_S _ _ _ Hd0), (drop_S _ _ _ Hd1), kanji_word_eq by done. cbn [kanji_valid].
  unfold is_kanji. set (v := sjis d0 d1).
  destruct ((v <? 33088) || ((40956 <? v) && (v <? 57408)) || (60351 <? v)) eqn:E.
  - replace (((33088 <=? v) && (v <=? 40956)) || ((57408 <=? v) && (v <=? 60351))) with false by lia.
    done.
  - replace (((33088 <=? v) && (v <=? 40956)) || ((57408 <=? v) && (v <=? 60351))) with true by lia.
    cbn [andb]. replace (Z.of_nat k + 1) with (Z.of_nat (S k)) by lia.
    replace (S (S (2 * k))) with (2 * S k)%nat by lia. apply IH. lia.
Qed.

Lemma check_kanji_all data :
  Forall is_byte data →
  QRinput_checkModeKanji (Z.of_nat (length data)) data = Ret (kanji_valid data).
Proof.
  intros Hb. unfold QRinput_checkModeKanji. rewrite truth_land_1.
  destruct (Z.odd (Z.of_nat (length data))) eqn:Eo.
  - destruct (kanji_valid data) eqn:Ev; [|done]. apply kanji_valid_even in Ev as [n Hn].
    rewrite Hn, Nat2Z.inj_mul, Z.odd_mul in Eo. done.
  - assert (∃ n : nat, length data = (2 * n)%nat) as [n Hn].
    { rewrite <- Z.negb_even in Eo. apply negb_false_iff, Z.even_spec in Eo as [m Hm].
      exists (Z.to_nat m). lia. }
    unfold kanji_indices, range.
    replace (Z.to_nat ((Z.of_nat (length data) + 1) `quot` 2 - 0)) with n.
    + by apply (check_kanji_spec data 0 n).
    + rewrite Hn, Z.quot_div_nonneg by lia.
      replace (Z.of_nat (2 * n) + 1) with (1 + Z.of_nat n * 2) by lia.
      rewrite Z.div_add by lia. change (1 `div` 2) with 0. lia.
Qed.

(** [QRinput_check] on the data of a splittable mode. *)
Lemma QRinput_check_spec mode data :
  QRinput_isSplittableMode mode = true → Forall is_byte data →
  QRinput_check mode (Z.of_nat (length data)) data
  = Ret (bool_decide (data ≠ []) && mode_data mode data).
Proof.
  intros Hm Hb. unfold QRinput_check.
  destruct data as [|d data]; [by destruct mode|].
  set (l := d :: data) in *. rewrite (bool_decide_true (l ≠ [])) by (by subst l). cbn [andb].
  assert (0 < Z.of_nat (length l)) by (subst l; simpl; lia).
  replace (_ || (Z.of_nat (length l) <=? 0)) with false.
  - destruct mode; try done; cbn [mode_data].
    + by apply check_num_spec.
    + by apply check_an_spec.
    + by apply check_kanji_all.
  - symmetry. apply orb_false_iff. split; [|lia].
    destruct mode; try done; apply andb_false_iff; right; lia.
Qed.

(** ** Encoders of the modes *)

Lemma lengthIndicator_bounds mode v :
  QRinput_isSplittableMode mode = true → 8 ≤ QRspec_lengthIndicator mode v ≤ 16.
Proof.
  intros Hm. unfold QRspec_lengthIndicator. rewrite Hm. cbn [negb].
  destruct mode; try done; destruct (v <=? 9), (v <=? 26); vm_compute; split; intros [=].
Qed.

Lemma mlengthIndicator_bounds mode v :
  QRinput_isSplittableMode mode = true → 1 ≤ v ≤ 4 → 0 ≤ MQRspec_lengthIndicator mode v ≤ 6.
Proof. intros Hm Hv. enum_Z v 1 5; try lia; destruct mode; try done; vm_compute; split; intros [=]. Qed.

Lemma u32_small x : 0 ≤ x < 2 ^ 32 → u32 x = x.
Proof. intros H. unfold u32. by rewrite Z.mod_small. Qed.

Lemma u32_add_l a b : u32 (u32 a + b) = u32 (a + b).
Proof. unfold u32. by rewrite Z.add_mod_idemp_l by lia. Qed.

Lemma is_digit_range d : is_digit d = true → 0 ≤ digit d ≤ 9.
Proof. unfold is_digit, digit. lia. Qed.

Lemma an_value_range d : is_an d = true → QRinput_lookAnTable d = an_value d ∧ 0 ≤ an_value d ≤ 44.
Proof.
  intros H. assert (Hd : 0 ≤ d < 128) by (unfold is_an in H; lia).
  assert (Hc : (negb (is_an d) || ((QRinput_lookAnTable d =? an_value d)
                 && (0 <=? an_value d) && (an_value d <=? 44))) = true).
  { revert d Hd H. intros d Hd _. revert d Hd. apply all_range_spec. by vm_compute. }
  rewrite H in Hc. simpl in Hc. lia.
Qed.

Lemma forallb_lookup {A} (f : A → bool) l i x : forallb f l = true → l !! i = Some x → f x = true.
Proof. intros H Hx. rewrite forallb_forall in H. apply H, list_elem_of_In. by eapply list_elem_of_lookup_2. Qed.

Section encoders.
Context {Inv : statics → Prop} {E : option errno_t → Prop}.

(** Reading an element of the data of an entry. *)
Lemma spec_readZ {B} (data : list Z) i (f : Z → M B) (Q : B → Prop) :
  0 ≤ i < Z.of_nat (length data) →
  (∀ d, data !! Z.to_nat i = Some d → spec Inv (f d) Q E) →
  spec Inv (d ← liftO (readZ data i); f d) Q E.
Proof.
  intros Hi Hf. destruct (readZ_lt data i Hi) as (d & Hd & Er).
  eapply spec_bind; [by eapply (spec_liftO _ _ (λ x, x = d))|]. intros ? ->. by apply Hf.
Qed.

Lemma append_header_spec l mode v count id :
  QRinput_isSplittableMode mode = true →
  spec Inv (append_header (bs_of l) mode v count id)
    (λ b, b = bs_of (l ++ to_bits 4 id
                     ++ to_bits (Z.to_nat (QRspec_lengthIndicator mode v)) count)) E.
Proof.
  intros Hm. pose proof (lengthIndicator_bounds mode v Hm).
  eapply spec_bind; [apply BitStream_appendNum_spec; lia|]. intros b ->.
  rewrite app_assoc. apply BitStream_appendNum_spec. lia.
Qed.

Lemma append_header_mqr_spec l mode v count id :
  QRinput_isSplittableMode mode = true → 1 ≤ v ≤ 4 →
  spec Inv (append_header_mqr (bs_of l) mode v count id)
    (λ b, b = bs_of (l ++ to_bits (Z.to_nat (v - 1)) id
                     ++ to_bits (Z.to_nat (MQRspec_lengthIndicator mode v)) count)) E.
Proof.
  intros Hm Hv. pose proof (mlengthIndicator_bounds mode v Hm Hv).
  eapply spec_bind; [apply BitStream_appendNum_spec; lia|]. intros b ->.
  rewrite app_assoc. apply BitStream_appendNum_spec. lia.
Qed.

(** The digits after the header. *)
Lemma num_body_spec h data :
  forallb is_digit data = true →
  let size := Z.of_nat (length data) in
  let words := size `quot` 3 in
  spec Inv
    (b ← for_range 0 words (λ i b,
       d0 ← liftO (readZ data (i * 3));
       d1 ← liftO (readZ data (i * 3 + 1));
       d2 ← liftO (readZ data (i * 3 + 2));
       let val := u32 ((d0 - 48) * 100) in
       let val := u32 (val + (d1 - 48) * 10) in
       let val := u32 (val + (d2 - 48)) in
       BitStream_appendNum b 10 val) (bs_of h);
     if size - words * 3 =? 1 then
       d0 ← liftO (readZ data (words * 3));
       BitStream_appendNum b 4 (u32 (d0 - 48))
     else if size - words * 3 =? 2 then
       d0 ← liftO (readZ data (words * 3));
       d1 ← liftO (readZ data (words * 3 + 1));
       let val := u32 ((d0 - 48) * 10) in
       let val := u32 (val + (d1 - 48)) in
       ignore_failure b (BitStream_appendNum b 7 val)
     else mret b)
    (λ b, b = bs_of (h ++ num_bits data)) E.
Proof.
  intros Hd size words.
  assert (Hdigit : ∀ i d, data !! i = Some d → 0 ≤ d - 48 ≤ 9).
  { intros i d Hi. pose proof (forallb_lookup _ _ _ _ Hd Hi) as H. by apply is_digit_range in H. }
  assert (Hw : 3 * words ≤ size < 3 * words + 3 ∧ 0 ≤ words).
  { unfold words. rewrite Z.quot_div_nonneg by lia. pose proof (Z.div_mod size 3).
    pose proof (Z.mod_pos_bound size 3). unfold size in *. lia. }
  clearbody words.
  eapply spec_bind.
  { apply (spec_for_range (λ i b, b = bs_of (h ++ num_bits (take (3 * Z.to_nat i) data)))); [lia| |].
    { simpl. by rewrite app_nil_r. }
    intros i b Hi ->. do 3 (apply spec_readZ; [lia|intros ? ?]).
    replace (Z.to_nat (i * 3)) with (3 * Z.to_nat i)%nat in * by lia.
    replace (Z.to_nat (i * 3 + 1)) with (3 * Z.to_nat i + 1)%nat in * by lia.
    replace (Z.to_nat (i * 3 + 2)) with (3 * Z.to_nat i + 2)%nat in * by lia.
    repeat match goal with H : data !! _ = Some _ |- _ =>
      learn_hyp (Hdigit _ _ H) end.
    cbv zeta. rewrite (u32_small ((_ - 48) * 100)), (u32_small (_ + (_ - 48) * 10)), u32_small by lia.
    replace (3 * Z.to_nat (i + 1))%nat with (3 * Z.to_nat i + 3)%nat by lia.
    erewrite take_3 by done. erewrite (num_bits_app _ _ (Z.to_nat i)) by (rewrite length_take; lia).
    rewrite app_assoc. cbn [num_bits]. rewrite app_nil_r. by apply BitStream_appendNum_spec. }
  intros b ->.
  assert (Hrest : num_bits data = num_bits (take (3 * Z.to_nat words) data)
                                  ++ num_bits (drop (3 * Z.to_nat words) data)).
  { rewrite <- (num_bits_app _ _ (Z.to_nat words)) by (rewrite length_take; lia).
    by rewrite take_drop. }
  rewrite Hrest, app_assoc. set (pre := h ++ _). set (rest := drop _ data).
  assert (Hlen : Z.of_nat (length rest) = size - words * 3)
    by (unfold rest; rewrite length_drop; lia).
  assert (Hrd : ∀ i : nat, rest !! i = data !! (3 * Z.to_nat words + i)%nat)
    by (intros i; apply lookup_drop).
  destruct rest as [|d0 [|d1 [|]]]; cbn [length] in Hlen; [..|lia].
  - replace (size - words * 3) with 0 by lia. cbn. rewrite app_nil_r. by apply spec_ret.
  - replace (size - words * 3) with 1 by lia. cbn [Z.eqb Pos.eqb]. apply spec_readZ; [lia|].
    intros d Hd0. specialize (Hrd 0%nat). replace (3 * Z.to_nat words + 0)%nat
      with (Z.to_nat (words * 3)) in Hrd by lia. rewrite Hd0 in Hrd. injection Hrd as ->.
    pose proof (Hdigit _ _ Hd0). rewrite u32_small by lia. by apply BitStream_appendNum_spec.
  - replace (size - words * 3) with 2 by lia. cbn [Z.eqb Pos.eqb].
    pose proof (Hrd 0%nat) as Hr0. pose proof (Hrd 1%nat) as Hr1.
    apply spec_readZ; [lia|intros a Ha]. apply spec_readZ; [lia|intros c Hc].
    replace (3 * Z.to_nat words + 0)%nat with (Z.to_nat (words * 3)) in Hr0 by lia.
    replace (3 * Z.to_nat words + 1)%nat with (Z.to_nat (words * 3 + 1)) in Hr1 by lia.
    rewrite Ha in Hr0. rewrite Hc in Hr1. injection Hr0 as ->. injection Hr1 as ->.
    pose proof (Hdigit _ _ Ha). pose proof (Hdigit _ _ Hc).
    rewrite u32_add_l, u32_small by lia. apply spec_ignore_failure.
    by apply BitStream_appendNum_spec.
Qed.

Lemma an_body_spec h data :
  forallb is_an data = true →
  let size := Z.of_nat (length data) in
  let words := size `quot` 2 in
  spec Inv
    (b ← for_range 0 words (λ i b,
       d0 ← liftO (readZ data (i * 2));
       d1 ← liftO (readZ data (i * 2 + 1));
       let val := u32 (u32 (QRinput_lookAnTable d0) * 45) in
       let val := u32 (val + u32 (QRinput_lookAnTable d1)) in
       BitStream_appendNum b 11 val) (bs_of h);
     if truth (Z.land size 1) then
       d0 ← liftO (readZ data (words * 2));
       BitStream_appendNum b 6 (u32 (QRinput_lookAnTable d0))
     else mret b)
    (λ b, b = bs_of (h ++ an_bits data)) E.
Proof.
  intros Hd size words.
  assert (Han : ∀ i d, data !! i = Some d →
    u32 (QRinput_lookAnTable d) = an_value d ∧ 0 ≤ an_value d ≤ 44).
  { intros i d Hi. pose proof (forallb_lookup _ _ _ _ Hd Hi) as H.
    apply an_value_range in H as [-> ?]. by rewrite u32_small by lia. }
  rewrite truth_land_1.
  assert (Hw : size = 2 * words + (if Z.odd size then 1 else 0) ∧ 0 ≤ words).
  { unfold words. rewrite Z.quot_div_nonneg, <- Z.div2_div by lia.
    split; [apply Z.div2_odd|]. apply Z.div2_nonneg. lia. }
  clearbody words.
  eapply spec_bind.
  { apply (spec_for_range (λ i b, b = bs_of (h ++ an_bits (take (2 * Z.to_nat i) data)))); [lia| |].
    { simpl. by rewrite app_nil_r. }
    intros i b Hi ->. apply spec_readZ; [destruct (Z.odd size); lia|intros d0 Hd0].
    apply spec_readZ; [destruct (Z.odd size); lia|intros d1 Hd1].
    replace (Z.to_nat (i * 2)) with (2 * Z.to_nat i)%nat in Hd0 by lia.
    replace (Z.to_nat (i * 2 + 1)) with (2 * Z.to_nat i + 1)%nat in Hd1 by lia.
    destruct (Han _ _ Hd0) as [-> ?]. destruct (Han _ _ Hd1) as [-> ?].
    cbv zeta. rewrite (u32_small (_ * 45)), u32_small by lia.
    replace (2 * Z.to_nat (i + 1))%nat with (2 * Z.to_nat i + 2)%nat by lia.
    erewrite take_2 by done.
    erewrite (an_bits_app _ _ (Z.to_nat i)) by (rewrite length_take; destruct (Z.odd size); lia).
    rewrite app_assoc. cbn [an_bits]. rewrite app_nil_r. by apply BitStream_appendNum_spec. }
  intros b ->.
  assert (Hrest : an_bits data = an_bits (take (2 * Z.to_nat words) data)
                                 ++ an_bits (drop (2 * Z.to_nat words) data)).
  { rewrite <- (an_bits_app _ _ (Z.to_nat words))
      by (rewrite length_take; destruct (Z.odd size); lia). by rewrite take_drop. }
  rewrite Hrest, app_assoc. set (pre := h ++ _). set (rest := drop _ data).
  assert (Hlen : Z.of_nat (length rest) = size - 2 * words)
    by (unfold rest; rewrite length_drop; destruct (Z.odd size); lia).
  destruct (Z.odd size); destruct rest as [|d0 [|]] eqn:Er; cbn [length] in Hlen; try lia.
  - apply spec_readZ; [lia|]. intros d Hd0.
    assert (Hr0 : rest !! 0%nat = data !! (2 * Z.to_nat words + 0)%nat) by apply lookup_drop.
    rewrite Er in Hr0. replace (2 * Z.to_nat words + 0)%nat
      with (Z.to_nat (words * 2)) in Hr0 by lia. rewrite Hd0 in Hr0. injection Hr0 as ->.
    destruct (Han _ _ Hd0) as [-> ?]. by apply BitStream_appendNum_spec.
  - cbn [an_bits]. rewrite app_nil_r. by apply spec_ret.
Qed.

Lemma kanji_valid_lookup data i d0 d1 :
  kanji_valid data = true → data !! (2 * i)%nat = Some d0 → data !! (2 * i + 1)%nat = Some d1 →
  is_kanji d0 d1 = true.
Proof.
  revert data. induction i as [|i IH]; intros [|a [|b data]] Hv H0 H1; try done.
  - simpl in *. injection H0 as ->. injection H1 as ->. by apply andb_true_iff in Hv as [? _].
  - simpl in Hv. apply andb_true_iff in Hv as [_ Hv]. apply (IH data); [done| |].
    + rewrite <- H0. by replace (2 * S i)%nat with (S (S (2 * i))) by lia.
    + rewrite <- H1. by replace (2 * S i + 1)%nat with (S (S (2 * i + 1))) by lia.
Qed.

(** The 13-bit value that the code computes. *)
Lemma kanji_code d0 d1 :
  is_byte d0 → is_byte d1 → is_kanji d0 d1 = true →
  let v := kanji_word d0 d1 in
  let v := if v <=? 0x9ffc then u32 (v - 0x8140) else u32 (v - 0xc140) in
  u32 (Z.land v 0xff + u32 (Z.shiftr v 8 * 0xc0)) = kanji_value d0 d1
  ∧ 0 ≤ kanji_value d0 d1 < 2 ^ 13.
Proof.
  intros H0 H1 Hk. cbv zeta. rewrite kanji_word_eq by done.
  unfold is_kanji, kanji_value in *. set (v := sjis d0 d1) in *. clearbody v. cbv zeta in Hk.
  set (u := if v <=? 40956 then v - 33088 else v - 49472).
  assert (Hu : (if v <=? 40956 then u32 (v - 33088) else u32 (v - 49472)) = u ∧ 0 ≤ u < 10880).
  { unfold u. destruct (Z.leb_spec v 40956); rewrite u32_small by lia; lia. }
  destruct Hu as [-> Hu]. clearbody u. clear Hk.
  change 255 with (Z.ones 8). rewrite Z.land_ones, Z.shiftr_div_pow2 by lia.
  change (2 ^ 8) with 256. pose proof (Z.mod_pos_bound u 256).
  assert (0 ≤ u `div` 256 ≤ 42) by (split; [apply Z.div_pos|apply Z.lt_succ_r, Z.div_lt_upper_bound]; lia).
  pose proof (Z.div_mod u 256 ltac:(lia)) as Hdm.
  assert (u `div` 256 * 192 + u `mod` 256 < 2 ^ 13).
  { destruct (decide (u `div` 256 = 42)); lia. }
  rewrite (u32_small (_ * 192)), u32_small by lia. lia.
Qed.

Lemma kanji_body_spec h data :
  Forall is_byte data → kanji_valid data = true →
  spec Inv
    (for_range 0 ((Z.of_nat (length data) + 1) `quot` 2) (λ k b,
      d0 ← liftO (readZ data (2 * k));
      d1 ← liftO (readZ data (2 * k + 1));
      let val := kanji_word d0 d1 in
      let val := if val <=? 0x9ffc then u32 (val - 0x8140) else u32 (val - 0xc140) in
      let h := u32 (Z.shiftr val 8 * 0xc0) in
      let val := u32 (Z.land val 0xff + h) in
      BitStream_appendNum b 13 val) (bs_of h))
    (λ b, b = bs_of (h ++ kanji_bits data)) E.
Proof.
  intros Hb Hv. destruct (kanji_valid_even _ Hv) as [n Hn].
  replace ((Z.of_nat (length data) + 1) `quot` 2) with (Z.of_nat n).
  2:{ rewrite Hn, Z.quot_div_nonneg by lia. replace (Z.of_nat (2 * n) + 1) with (1 + Z.of_nat n * 2) by lia.
      rewrite Z.div_add by lia. done. }
  eapply spec_mono;
    [apply (spec_for_range (λ i b, b = bs_of (h ++ kanji_bits (take (2 * Z.to_nat i) data))))|
     intros b ->; by rewrite take_ge by lia|done]; [lia|by rewrite app_nil_r|].
  intros i b Hi ->. apply spec_readZ; [lia|intros d0 Hd0]. apply spec_readZ; [lia|intros d1 Hd1].
  replace (Z.to_nat (2 * i)) with (2 * Z.to_nat i)%nat in Hd0 by lia.
  replace (Z.to_nat (2 * i + 1)) with (2 * Z.to_nat i + 1)%nat in Hd1 by lia.
  assert (is_byte d0) by (by eapply Forall_lookup_1 in Hd0).
  assert (is_byte d1) by (by eapply Forall_lookup_1 in Hd1).
  pose proof (kanji_valid_lookup _ _ _ _ Hv Hd0 Hd1) as Hk.
  cbv zeta. destruct (kanji_code d0 d1) as [-> ?]; [done..|].
  replace (2 * Z.to_nat (i + 1))%nat with (2 * Z.to_nat i + 2)%nat by lia.
  erewrite take_2 by done.
  erewrite (kanji_bits_app _ _ (Z.to_nat i)) by (rewrite length_take; lia).
  rewrite app_assoc. cbn [kanji_bits]. rewrite app_nil_r. by apply BitStream_appendNum_spec.
Qed.
End encoders.

(** ** Entries *)

(** An entry as [QRinput_List_newEntry] makes it. *)
Record entry_ok (e : QRinput_List) : Prop := {
  entry_size : e_size e = Z.of_nat (length (e_data e));
  entry_nonempty : e_data e ≠ [];
  entry_bytes : Forall is_byte (e_data e);
  entry_checked : QRinput_check (e_mode e) (e_size e) (e_data e) = Ret true
}.

(** Data that the encoders can handle: what [QRinput_check] accepts, and for
    the header modes the lengths that the library itself uses. *)
Definition encodable (mode : QRencodeMode) (data : list Z) : bool :=
  match mode with
  | QR_MODE_STRUCTURE => (length data =? 3)%nat
  | QR_MODE_ECI => (length data =? 4)%nat
  | QR_MODE_FNC1SECOND => (length data =? 1)%nat
  | _ => bool_decide (data ≠ []) && mode_data mode data
  end.

Definition eci_value (data : list Z) : Z :=
  nthZ data 0 + 256 * nthZ data 1 + 65536 * nthZ data 2 + 16777216 * nthZ data 3.

(** Headers of structured append, FNC1 in second position and ECI. *)
Definition structure_bits (data : list Z) : list Z :=
  to_bits 4 3 ++ to_bits 4 (nthZ data 1 - 1) ++ to_bits 4 (nthZ data 0 - 1)
  ++ to_bits 8 (nthZ data 2).

Definition fnc1second_bits (data : list Z) : list Z := to_bits 4 9 ++ to_bits 8 (nthZ data 0).

Definition eci_bits (data : list Z) : list Z :=
  let n := eci_value data in
  to_bits 4 7 ++ (if n <? 128 then to_bits 8 n
                  else if n <? 16384 then to_bits 16 (0x8000 + n)
                  else to_bits 24 (0xc0000 + n)).

(** The bits of an entry that needs no splitting. *)
Definition leaf_bits (mqr : bool) (v : Z) (mode : QRencodeMode) (data : list Z) : list Z :=
  if mqr then msegment v mode data
  else
    match mode with
    | QR_MODE_STRUCTURE => structure_bits data
    | QR_MODE_ECI => eci_bits data
    | QR_MODE_FNC1SECOND => fnc1second_bits data
    | _ => segment v mode data
    end.

(** A list in pieces of [n] elements (the last one shorter); [n = 0] means no
    limit. *)
Fixpoint chunk_depth (depth n : nat) (l : list Z) : list (list Z) :=
  if (n =? 0)%nat || (length l <=? n)%nat then [l]
  else match depth with O => [] | S depth => take n l :: chunk_depth depth n (drop n l) end.

Definition chunks (n : nat) (l : list Z) : list (list Z) := chunk_depth (length l) n l.

Definition chunk_size (v : Z) (mode : QRencodeMode) : nat :=
  Z.to_nat (QRspec_maximumWords mode v).

Definition entry_bits (mqr : bool) (v : Z) (mode : QRencodeMode) (data : list Z) : list Z :=
  chunks (chunk_size v mode) data ≫= leaf_bits mqr v mode.

(** The modes that a symbol can hold. *)
Definition mode_supported (mqr : bool) (v : Z) (mode : QRencodeMode) : bool :=
  if mqr then
    (1 <=? v) && (v <=? 4) &&
    match mode with
    | QR_MODE_NUM => true
    | QR_MODE_AN => 2 <=? v
    | QR_MODE_8 => 3 <=? v
    | QR_MODE_KANJI => 2 <=? v
    | _ => false
    end
  else match mode with QR_MODE_NUL | QR_MODE_FNC1FIRST => false | _ => true end.

Lemma nthZ_Some data i d : data !! i = Some d → nthZ data (Z.of_nat i) = d.
Proof. intros H. apply nthZ_lookup. by rewrite Nat2Z.id. Qed.

Lemma to_bits_mod n v m : to_bits n (v `mod` 2 ^ (Z.of_nat n + m)) = to_bits n v ∨ m < 0.
Proof.
  destruct (decide (m < 0)) as [|Hm]; [by right|]. left.
  assert (H : ∀ k : nat, (k ≤ n)%nat → to_bits k (v `mod` 2 ^ (Z.of_nat n + m)) = to_bits k v).
  { induction k as [|k IH]; intros Hk; [done|]. cbn [to_bits]. rewrite IH by lia.
    rewrite Z.mod_pow2_bits_low by lia. done. }
  by apply H.
Qed.

Lemma to_bits_u32 n v : (n ≤ 32)%nat → to_bits n (u32 v) = to_bits n v.
Proof.
  intros Hn. unfold u32. replace 32 with (Z.of_nat n + (32 - Z.of_nat n)) by lia.
  destruct (to_bits_mod n v (32 - Z.of_nat n)) as [?|?]; [done|lia].
Qed.

(** The ECI number assembled from its bytes. *)
Lemma decodeECI_spec d0 d1 d2 d3 l :
  is_byte d0 → is_byte d1 → is_byte d2 → is_byte d3 →
  QRinput_decodeECIfromByteArray (d0 :: d1 :: d2 :: d3 :: l)
  = Ret (eci_value (d0 :: d1 :: d2 :: d3 :: l)).
Proof.
  intros H0 H1 H2 H3. unfold QRinput_decodeECIfromByteArray, for_range, eci_value.
  change (range 0 4) with [0; 1; 2; 3]. cbn [foldM].
  change (readZ (d0 :: d1 :: d2 :: d3 :: l) (3 - 0)) with (Ret d3).
  change (readZ (d0 :: d1 :: d2 :: d3 :: l) (3 - 1)) with (Ret d2).
  change (readZ (d0 :: d1 :: d2 :: d3 :: l) (3 - 2)) with (Ret d1).
  change (readZ (d0 :: d1 :: d2 :: d3 :: l) (3 - 3)) with (Ret d0).
  cbn [mbind outcome_bind mret outcome_ret].
  change (nthZ _ 0) with d0. change (nthZ _ 1) with d1.
  change (nthZ _ 2) with d2. change (nthZ _ 3) with d3.
  assert (Hs : ∀ a d, 0 ≤ a < 2 ^ 24 → is_byte d → Z.lor (u32 (Z.shiftl a 8)) d = a * 256 + d).
  { intros a d Ha Hd. rewrite Z.shiftl_mul_pow2 by lia. change (2 ^ 8) with 256.
    rewrite u32_small by lia. by apply lor_low_byte. }
  unfold is_byte in *. rewrite (Hs 0 d3), (Hs (0 * 256 + d3) d2), (Hs _ d1), (Hs _ d0) by
    (unfold is_byte; lia). f_equal. lia.
Qed.

Section entries.
Context {Inv : statics → Prop}.

(** The encoder of an entry that needs no splitting, as a routine. *)
Definition encode_leaf (e : QRinput_List) (v : Z) (mqr : bool) : option (M BitStream) :=
  match e_mode e with
  | QR_MODE_NUM => Some (QRinput_encodeModeNum e v mqr)
  | QR_MODE_AN => Some (QRinput_encodeModeAn e v mqr)
  | QR_MODE_8 => Some (QRinput_encodeMode8 e v mqr)
  | QR_MODE_KANJI => Some (QRinput_encodeModeKanji e v mqr)
  | QR_MODE_STRUCTURE => Some (QRinput_encodeModeStructure e mqr)
  | QR_MODE_ECI => Some (QRinput_encodeModeECI e v)
  | QR_MODE_FNC1SECOND => Some (QRinput_encodeModeFNC1Second e v)
  | _ => None
  end.

Lemma even_half mode data :
  kanji_valid data = true → mode = QR_MODE_KANJI →
  Z.of_nat (length data) `quot` 2 = char_count mode data.
Proof. intros _ ->. unfold char_count. simpl. by rewrite Z.quot_div_nonneg by lia. Qed.

Lemma encodeModeStructure_spec mode d0 d1 d2 b E :
  is_byte d0 → is_byte d1 → is_byte d2 →
  spec Inv (QRinput_encodeModeStructure (MkEntry mode 3 [d0; d1; d2] b) false)
    (λ b, b = bs_of (structure_bits [d0; d1; d2])) E.
Proof.
  intros H0 H1 H2. unfold QRinput_encodeModeStructure. cbn [e_data].
  eapply spec_bind; [apply BitStream_new_spec|]. intros ? ->.
  eapply spec_bind; [apply BitStream_appendNum_spec; lia|]. intros ? ->.
  apply spec_readZ; [simpl; lia|]. intros ? [= <-].
  eapply spec_bind; [apply BitStream_appendNum_spec; lia|]. intros ? ->.
  apply spec_readZ; [simpl; lia|]. intros ? [= <-].
  eapply spec_bind; [apply BitStream_appendNum_spec; lia|]. intros ? ->.
  apply spec_readZ; [simpl; lia|]. intros ? [= <-].
  eapply spec_mono; [apply BitStream_appendNum_spec; lia| |done]. intros ? ->.
  f_equal. unfold structure_bits. rewrite <- !app_assoc, !to_bits_u32 by lia. done.
Qed.

Lemma encodeModeFNC1Second_spec mode d b v E :
  spec Inv (QRinput_encodeModeFNC1Second (MkEntry mode 1 [d] b) v)
    (λ b, b = bs_of (fnc1second_bits [d])) E.
Proof.
  unfold QRinput_encodeModeFNC1Second. cbn [e_data].
  eapply spec_bind; [apply BitStream_new_spec|]. intros ? ->.
  eapply spec_bind; [apply BitStream_appendNum_spec; lia|]. intros ? ->.
  eapply spec_mono; [apply BitStream_appendBytes_spec; simpl; lia| |done]. intros ? ->.
  f_equal.
Qed.

Lemma encodeModeECI_spec mode d0 d1 d2 d3 b v E :
  is_byte d0 → is_byte d1 → is_byte d2 → is_byte d3 →
  spec Inv (QRinput_encodeModeECI (MkEntry mode 4 [d0; d1; d2; d3] b) v)
    (λ b, b = bs_of (eci_bits [d0; d1; d2; d3])) E.
Proof.
  intros H0 H1 H2 H3. unfold QRinput_encodeModeECI. cbn [e_data].
  eapply spec_bind; [apply BitStream_new_spec|]. intros ? ->.
  eapply spec_bind; [by eapply (spec_liftO _ _ (λ x, x = eci_value [d0; d1; d2; d3]));
                     [apply decodeECI_spec|]|]. intros ? ->.
  unfold eci_bits. set (n := eci_value _).
  destruct (n <? 128), (n <? 16384);
    (eapply spec_bind; [apply BitStream_appendNum_spec; lia|]; intros ? ->;
     eapply spec_mono; [apply BitStream_appendNum_spec; lia| |done]; intros ? ->;
     f_equal; rewrite ?to_bits_u32 by lia; done).
Qed.

Lemma encodeModeNum_spec data mode b v mqr E :
  forallb is_digit data = true → mode_supported mqr v QR_MODE_NUM = true →
  spec Inv (QRinput_encodeModeNum (MkEntry mode (Z.of_nat (length data)) data b) v mqr)
    (λ b, b = bs_of (leaf_bits mqr v QR_MODE_NUM data)) E.
Proof.
  intros Hd Hm. unfold QRinput_encodeModeNum. cbn [e_data e_size].
  eapply spec_bind; [apply BitStream_new_spec|]. intros ? ->.
  destruct mqr; cbn [leaf_bits].
  - unfold mode_supported in Hm. assert (Hv : 1 ≤ v ≤ 4) by lia.
    pose proof (mlengthIndicator_bounds QR_MODE_NUM v eq_refl Hv).
    apply spec_bind with (P := λ b, b = bs_of (to_bits (Z.to_nat (v - 1)) 0
      ++ to_bits (Z.to_nat (MQRspec_lengthIndicator QR_MODE_NUM v)) (Z.of_nat (length data)))).
    + eapply spec_bind with (P := λ b, b = bs_of (to_bits (Z.to_nat (v - 1)) 0)).
      * destruct (Z.ltb_spec 1 v); [apply BitStream_appendNum_spec; lia|].
        replace v with 1 by lia. by apply spec_ret.
      * intros ? ->. apply BitStream_appendNum_spec. lia.
    + intros ? ->. unfold msegment. rewrite app_assoc. by apply num_body_spec.
  - eapply spec_bind; [by apply append_header_spec|]. intros ? ->.
    unfold segment. rewrite app_assoc. by apply num_body_spec.
Qed.

Lemma encodeModeAn_spec data mode b v mqr E :
  forallb is_an data = true → mode_supported mqr v QR_MODE_AN = true →
  spec Inv (QRinput_encodeModeAn (MkEntry mode (Z.of_nat (length data)) data b) v mqr)
    (λ b, b = bs_of (leaf_bits mqr v QR_MODE_AN data)) E.
Proof.
  intros Hd Hm. unfold QRinput_encodeModeAn. cbn [e_data e_size].
  eapply spec_bind; [apply BitStream_new_spec|]. intros ? ->.
  destruct mqr; cbn [leaf_bits]; unfold segment, msegment; rewrite app_assoc.
  - unfold mode_supported in Hm. replace (v <? 2) with false by lia.
    eapply spec_bind; [apply append_header_mqr_spec; [done|lia]|]. intros ? ->.
    by apply an_body_spec.
  - eapply spec_bind; [by apply append_header_spec|]. intros ? ->. by apply an_body_spec.
Qed.

Lemma encodeMode8_spec data mode b v mqr E :
  mode_supported mqr v QR_MODE_8 = true →
  spec Inv (QRinput_encodeMode8 (MkEntry mode (Z.of_nat (length data)) data b) v mqr)
    (λ b, b = bs_of (leaf_bits mqr v QR_MODE_8 data)) E.
Proof.
  intros Hm. unfold QRinput_encodeMode8. cbn [e_data e_size].
  assert (Hbody : ∀ h, spec Inv (BitStream_appendBytes (bs_of h) (Z.of_nat (length data)) data)
    (λ b, b = bs_of (h ++ data_bits QR_MODE_8 data)) E).
  { intros h. eapply spec_mono; [apply BitStream_appendBytes_spec; lia| |done].
    intros ? ->. by rewrite Nat2Z.id, firstn_all. }
  eapply spec_bind; [apply BitStream_new_spec|]. intros ? ->.
  destruct mqr; cbn [leaf_bits]; unfold segment, msegment; rewrite app_assoc.
  - unfold mode_supported in Hm. replace (v <? 3) with false by lia.
    eapply spec_bind; [apply append_header_mqr_spec; [done|lia]|]. intros ? ->. apply Hbody.
  - eapply spec_bind; [by apply append_header_spec|]. intros ? ->. apply Hbody.
Qed.

Lemma encodeModeKanji_spec data mode b v mqr E :
  Forall is_byte data → kanji_valid data = true → mode_supported mqr v QR_MODE_KANJI = true →
  spec Inv (QRinput_encodeModeKanji (MkEntry mode (Z.of_nat (length data)) data b) v mqr)
    (λ b, b = bs_of (leaf_bits mqr v QR_MODE_KANJI data)) E.
Proof.
  intros Hb Hd Hm. unfold QRinput_encodeModeKanji. cbn [e_data e_size].
  rewrite (even_half QR_MODE_KANJI) by done.
  eapply spec_bind; [apply BitStream_new_spec|]. intros ? ->.
  destruct mqr; cbn [leaf_bits]; unfold segment, msegment; rewrite app_assoc.
  - unfold mode_supported in Hm. replace (v <? 2) with false by lia.
    eapply spec_bind; [apply append_header_mqr_spec; [done|lia]|]. intros ? ->.
    by apply kanji_body_spec.
  - eapply spec_bind; [by apply append_header_spec|]. intros ? ->. by apply kanji_body_spec.
Qed.

(** The encoder of each mode produces the reference encoding. *)
Lemma encode_leaf_spec e v mqr E :
  e_size e = Z.of_nat (length (e_data e)) → Forall is_byte (e_data e) →
  encodable (e_mode e) (e_data e) = true → mode_supported mqr v (e_mode e) = true →
  ∃ m, encode_leaf e v mqr = Some m ∧
    spec Inv m (λ b, b = bs_of (leaf_bits mqr v (e_mode e) (e_data e))) E.
Proof.
  intros Hs Hb He Hm. destruct e as [mode size data b]. cbn [e_mode e_size e_data] in *. subst size.
  destruct mode; cbn [encode_leaf e_mode encodable mode_data] in *;
    try (rewrite andb_true_iff in He; destruct He as [_ He]).
  - by destruct mqr; [unfold mode_supported in Hm; lia|].
  - eexists. split; [done|]. by apply encodeModeNum_spec.
  - eexists. split; [done|]. by apply encodeModeAn_spec.
  - eexists. split; [done|]. by apply encodeMode8_spec.
  - eexists. split; [done|]. by apply encodeModeKanji_spec.
  - destruct data as [|d0 [|d1 [|d2 [|]]]]; try done.
    destruct mqr; [unfold mode_supported in Hm; lia|].
    eexists. split; [done|]. rewrite !Forall_cons in Hb. apply encodeModeStructure_spec; tauto.
  - destruct data as [|d0 [|d1 [|d2 [|d3 [|]]]]]; try done.
    destruct mqr; [unfold mode_supported in Hm; lia|].
    eexists. split; [done|]. rewrite !Forall_cons in Hb. apply encodeModeECI_spec; tauto.
  - by destruct mqr; [unfold mode_supported in Hm; lia|].
  - destruct data as [|d0 [|]]; try done.
    destruct mqr; [unfold mode_supported in Hm; lia|].
    eexists. split; [done|]. apply encodeModeFNC1Second_spec.
Qed.
End entries.

(** ** Splitting of long entries *)

Lemma readZ_take data n i : 0 ≤ i < Z.of_nat n → readZ (take n data) i = readZ data i.
Proof.
  intros Hi. unfold readZ. destruct (Z.leb_spec 0 i); [|done]. by rewrite lookup_take_lt by lia.
Qed.

Lemma check_bytes_take ok idx data n :
  (∀ i, i ∈ idx → 0 ≤ i < Z.of_nat n) →
  check_bytes ok idx (take n data) = check_bytes ok idx data.
Proof.
  induction idx as [|i idx IH]; intros Hi; [done|]. cbn [check_bytes].
  rewrite readZ_take by (apply Hi; left).
  destruct (readZ data i) as [d| |]; [|done..]. cbn [mbind outcome_bind].
  destruct (ok d); [|done]. apply IH. intros j Hj. apply Hi. by right.
Qed.

Lemma check_kanji_take idx data n :
  (∀ i, i ∈ idx → 0 ≤ i ∧ i + 1 < Z.of_nat n) →
  check_kanji idx (take n data) = check_kanji idx data.
Proof.
  induction idx as [|i idx IH]; intros Hi; [done|]. cbn [check_kanji].
  destruct (Hi i ltac:(left)). rewrite !readZ_take by lia.
  destruct (readZ data i) as [d0| |]; [|done..].
  destruct (readZ data (i + 1)) as [d1| |]; [|done..]. cbn [mbind outcome_bind].
  destruct (_ || _ || _); [done|]. apply IH. intros j Hj. apply Hi. by right.
Qed.

(** A check looks at nothing beyond the given size. *)
Lemma QRinput_check_take mode data n :
  QRinput_check mode (Z.of_nat n) (take n data) = QRinput_check mode (Z.of_nat n) data.
Proof.
  unfold QRinput_check. destruct (_ || _); [done|]. destruct mode; try done.
  - apply check_bytes_take. intros i Hi. by apply elem_of_range in Hi.
  - apply check_bytes_take. intros i Hi. by apply elem_of_range in Hi.
  - unfold QRinput_checkModeKanji. rewrite truth_land_1. destruct (Z.odd (Z.of_nat n)) eqn:Eo; [done|].
    apply check_kanji_take. intros i Hi. unfold kanji_indices in Hi.
    apply list_elem_of_fmap in Hi as (k & -> & Hk%elem_of_range).
    rewrite Z.quot_div_nonneg in Hk by lia.
    rewrite <- Z.negb_even in Eo. apply negb_false_iff, Z.even_spec in Eo as [m Hm].
    rewrite Hm in *. replace (2 * m + 1) with (1 + m * 2) in Hk by lia.
    rewrite Z.div_add in Hk by lia. change (1 `div` 2) with 0 in Hk. lia.
Qed.

Lemma newEntry_spec {Inv : statics → Prop} mode data n E :
  (0 < n ≤ length data)%nat → QRinput_check mode (Z.of_nat n) data = Ret true →
  spec Inv (QRinput_List_newEntry mode (Z.of_nat n) data)
    (λ e, e = MkEntry mode (Z.of_nat n) (take n data) None) E.
Proof.
  intros Hn Hc. unfold QRinput_List_newEntry.
  eapply spec_bind; [by eapply (spec_liftO _ _ (λ x, x = true))|]. intros ? ->.
  eapply spec_bind; [by apply (spec_malloc _ (λ _, True))|]. intros _ _.
  replace (0 <? Z.of_nat n) with true by lia.
  eapply spec_bind; [by apply (spec_malloc _ (λ _, True)); [lia|]|]. intros _ _.
  eapply spec_bind; [eapply (spec_liftO _ _ (λ x, x = take n data)); [|done]|].
  { unfold copy_bytes. replace ((0 <=? 0) && (0 <=? Z.of_nat n)
      && (0 + Z.of_nat n <=? Z.of_nat (length data))) with true by lia.
    change (Z.to_nat 0) with 0%nat. by rewrite drop_0, Nat2Z.id. }
  intros ? ->. by apply spec_ret.
Qed.

(** Only the data modes have a limit; it is even for kanji. *)
Lemma maximumWords_nonzero mode v :
  QRspec_maximumWords mode v ≠ 0 → QRinput_isSplittableMode mode = true.
Proof. unfold QRspec_maximumWords. by destruct (QRinput_isSplittableMode mode). Qed.

Lemma maximumWords_value mode v :
  QRinput_isSplittableMode mode = true →
  QRspec_maximumWords mode v
  = (2 ^ QRspec_lengthIndicator mode v - 1) * (if decide (mode = QR_MODE_KANJI) then 2 else 1).
Proof.
  intros Hm. unfold QRspec_maximumWords, QRspec_lengthIndicator. rewrite Hm. cbn [negb].
  set (l := if v <=? 9 then 0 else if v <=? 26 then 1 else 2).
  assert (0 ≤ l ≤ 2) by (unfold l; destruct (v <=? 9), (v <=? 26); lia).
  enum_Z l 0 3; try lia; by destruct mode.
Qed.

Lemma maximumWords_bounds mode v :
  QRinput_isSplittableMode mode = true → 255 ≤ QRspec_maximumWords mode v.
Proof.
  intros Hm. rewrite maximumWords_value by done. pose proof (lengthIndicator_bounds mode v Hm).
  assert (2 ^ 8 ≤ 2 ^ QRspec_lengthIndicator mode v) by (apply Z.pow_le_mono_r; lia).
  destruct (decide _); lia.
Qed.

Lemma mode_data_split mode data n :
  QRinput_isSplittableMode mode = true → mode_data mode data = true →
  (mode = QR_MODE_KANJI → ∃ k : nat, n = (2 * k)%nat) → (n ≤ length data)%nat →
  mode_data mode (take n data) = true ∧ mode_data mode (drop n data) = true.
Proof.
  intros Hm Hd Hk Hn. rewrite <- (take_drop n data) in Hd. destruct mode; try done; cbn [mode_data] in *.
  - by rewrite forallb_app, andb_true_iff in Hd.
  - by rewrite forallb_app, andb_true_iff in Hd.
  - destruct (Hk eq_refl) as [k Ek].
    rewrite (kanji_valid_app _ _ k), andb_true_iff in Hd by (rewrite length_take; lia). done.
Qed.

Lemma encodable_splittable mode data :
  QRinput_isSplittableMode mode = true →
  encodable mode data = bool_decide (data ≠ []) && mode_data mode data.
Proof. by destruct mode. Qed.

Section encode.
Context {Inv : statics → Prop} {E : option errno_t → QRinput_List → Prop}.

(** [QRinput_encodeBitStream] stores the reference encoding in the entry. *)
Lemma encodeBitStream_depth_spec depth v mqr e :
  e_size e = Z.of_nat (length (e_data e)) → Forall is_byte (e_data e) →
  encodable (e_mode e) (e_data e) = true → mode_supported mqr v (e_mode e) = true →
  (length (e_data e) ≤ depth)%nat →
  let bits := chunk_depth depth (chunk_size v (e_mode e)) (e_data e)
              ≫= leaf_bits mqr v (e_mode e) in
  sm_spec Inv (encodeBitStream_depth depth v mqr) e
    (λ n e', n = Z.of_nat (length bits) ∧ e' = set_bstream (Some (bs_of bits)) e) E.
Proof.
  revert e E. induction depth as [|depth IH]; intros e E Hs Hb He Hm Hdepth bits.
  { exfalso. destruct (e_data e) as [|d l] eqn:Ed; [|simpl in Hdepth; lia].
    by destruct (e_mode e). }
  cbn [encodeBitStream_depth]. apply sm_get_bind, sm_put_bind.
  set (words := QRspec_maximumWords (e_mode e) v) in *.
  assert (Hcs : chunk_size v (e_mode e) = Z.to_nat words) by done.
  destruct (negb (words =? 0) && (words <? e_size e)) eqn:Esplit.
  - assert (Hsp : QRinput_isSplittableMode (e_mode e) = true)
      by (apply (maximumWords_nonzero _ v); fold words; lia).
    pose proof (maximumWords_bounds _ v Hsp) as Hw. fold words in Hw.
    set (n := Z.to_nat words) in *. assert (Hn : words = Z.of_nat n) by lia.
    assert (Hlt : (n < length (e_data e))%nat) by lia.
    assert (Hkn : e_mode e = QR_MODE_KANJI → ∃ k : nat, n = (2 * k)%nat).
    { intros Ek. exists (Z.to_nat (2 ^ QRspec_lengthIndicator (e_mode e) v - 1)).
      pose proof (maximumWords_value _ v Hsp) as Hv. rewrite decide_True in Hv by done.
      fold words in Hv. lia. }
    rewrite encodable_splittable, andb_true_iff in He by done. destruct He as [_ Hd].
    destruct (mode_data_split _ _ n Hsp Hd Hkn ltac:(lia)) as [Hd1 Hd2].
    assert (Hb1 : Forall is_byte (take n (e_data e))) by by apply Forall_take.
    assert (Hb2 : Forall is_byte (drop n (e_data e))) by by apply Forall_drop.
    assert (Hl1 : length (take n (e_data e)) = n) by (rewrite length_take; lia).
    assert (Hl2 : length (drop n (e_data e)) = (length (e_data e) - n)%nat) by apply length_drop.
    assert (Hne : ∀ l : list Z, (0 < length l)%nat → bool_decide (l ≠ []) = true).
    { intros l Hl. apply bool_decide_eq_true. by intros ->; simpl in Hl; lia. }
    assert (Hc1 : QRinput_check (e_mode e) words (e_data e) = Ret true).
    { rewrite Hn, <- QRinput_check_take. rewrite <- Hl1 at 1.
      rewrite QRinput_check_spec, Hne by (done || lia). by rewrite Hd1. }
    assert (Hc2 : QRinput_check (e_mode e) (e_size e - words) (drop n (e_data e)) = Ret true).
    { replace (e_size e - words) with (Z.of_nat (length (drop n (e_data e)))) by lia.
      rewrite QRinput_check_spec, Hne by (done || lia). by rewrite Hd2. }
    eapply sm_lift_bind; [rewrite Hn in Hc1 |- *; apply newEntry_spec; [lia|done]|]. intros ? ->.
    eapply sm_lift_bind with (P := λ r, r = drop n (e_data e)).
    { eapply spec_liftO; [|done]. unfold copy_bytes.
      replace (_ && _ && _) with true by lia. rewrite Hn, Nat2Z.id.
      by rewrite take_ge by lia. }
    intros ? ->.
    replace (e_size e - words) with (Z.of_nat (length (drop n (e_data e)))) in * by lia.
    eapply sm_lift_bind; [apply newEntry_spec; [lia|done]|]. intros ? ->.
    rewrite firstn_all.
    eapply sm_lift_bind.
    { eapply spec_run_on; [eapply (IH _ (λ _ _, False))|by intros ? ? []];
        cbn [e_mode e_size e_data]; [lia|done| |done|lia].
      rewrite encodable_splittable, Hne by (done || lia). done. }
    intros [n1 st1] [_ E1]. cbn [fst snd] in E1. subst st1. cbn [e_mode e_size e_data set_bstream fst snd].
    eapply sm_lift_bind.
    { eapply spec_run_on; [eapply (IH _ (λ _ _, False))|by intros ? ? []];
        cbn [e_mode e_size e_data]; [lia|done| |done|lia].
      rewrite encodable_splittable, Hne by (done || lia). done. }
    intros [n2 st2] [_ E2]. cbn [fst snd] in E2. subst st2. cbn [e_mode e_size e_data e_bstream set_bstream fst snd].
    eapply sm_lift_bind; [apply BitStream_new_spec|]. intros ? ->. apply sm_put_bind.
    eapply sm_lift_bind; [apply BitStream_append_spec|]. intros ? ->. apply sm_put_bind.
    eapply sm_lift_bind; [apply BitStream_append_spec|]. intros ? ->. apply sm_put_bind.
    assert (Ebits : bits = (chunk_depth depth (chunk_size v (e_mode e)) (take n (e_data e))
                              ≫= leaf_bits mqr v (e_mode e))
                           ++ (chunk_depth depth (chunk_size v (e_mode e)) (drop n (e_data e))
                              ≫= leaf_bits mqr v (e_mode e))).
    { unfold bits. rewrite Hcs. cbn [chunk_depth].
      replace ((n =? 0)%nat || (length (e_data e) <=? n)%nat) with false
        by (symmetry; apply orb_false_iff; split; [apply Nat.eqb_neq|apply Nat.leb_gt]; lia).
      cbn [mbind list_bind]. f_equal.
      assert (Ec : chunk_depth depth n (take n (e_data e)) = [take n (e_data e)]).
      { assert (Eb : (n =? 0)%nat || (length (take n (e_data e)) <=? n)%nat = true)
          by (apply orb_true_iff; right; apply Nat.leb_le; lia).
        destruct depth; cbn [chunk_depth]; by rewrite Eb. }
      rewrite Ec. simpl. by rewrite app_nil_r. }
    rewrite Ebits. apply sm_ret. by split.
  - assert (Ebits : bits = leaf_bits mqr v (e_mode e) (e_data e)).
    { unfold bits. rewrite Hcs. cbn [chunk_depth].
      replace ((Z.to_nat words =? 0)%nat || (length (e_data e) <=? Z.to_nat words)%nat) with true.
      { simpl. apply app_nil_r. }
      symmetry. apply orb_true_iff.
      assert (Hw : words ≤ 0 ∨ e_size e ≤ words) by lia.
      destruct Hw; [left; apply Nat.eqb_eq|right; apply Nat.leb_le]; lia. }
    rewrite Ebits.
    destruct (encode_leaf_spec (Inv:=Inv) e v mqr (λ o, E o (set_bstream None e)) Hs Hb He Hm)
      as (m & Em & Hspec).
    unfold encode_leaf in Em. rewrite Em.
    eapply sm_lift_bind; [exact Hspec|]. intros ? ->. apply sm_put_bind. apply sm_ret. by split.
Qed.

Lemma encodeBitStream_spec v mqr e :
  e_size e = Z.of_nat (length (e_data e)) → Forall is_byte (e_data e) →
  encodable (e_mode e) (e_data e) = true → mode_supported mqr v (e_mode e) = true →
  let bits := entry_bits mqr v (e_mode e) (e_data e) in
  sm_spec Inv (QRinput_encodeBitStream v mqr) e
    (λ n e', n = Z.of_nat (length bits) ∧ e' = set_bstream (Some (bs_of bits)) e) E.
Proof.
  intros Hs Hb He Hm bits. apply sm_get_bind.
  replace (Z.to_nat (e_size e)) with (length (e_data e)) by lia.
  by apply encodeBitStream_depth_spec.
Qed.
End encode.

(** ** Streams of input objects *)

(** The bits of all entries. *)
Definition stream (mqr : bool) (v : Z) (es : list QRinput_List) : list Z :=
  es ≫= λ e, entry_bits mqr v (e_mode e) (e_data e).

(** The entries with their streams. *)
Definition encoded (mqr : bool) (v : Z) (e : QRinput_List) : QRinput_List :=
  set_bstream (Some (bs_of (entry_bits mqr v (e_mode e) (e_data e)))) e.

(** An entry that the encoder of the given kind of symbol can handle. *)
Record encodable_entry (mqr : bool) (v : Z) (e : QRinput_List) : Prop := {
  ee_size : e_size e = Z.of_nat (length (e_data e));
  ee_bytes : Forall is_byte (e_data e);
  ee_data : encodable (e_mode e) (e_data e) = true;
  ee_supported : mode_supported mqr v (e_mode e) = true
}.

(** Nothing but the streams of the entries changes. *)
Definition same_data (e e' : QRinput_List) : Prop :=
  e_mode e' = e_mode e ∧ e_size e' = e_size e ∧ e_data e' = e_data e.

Lemma num_bits_bits l : Forall is_bit (num_bits l).
Proof.
  assert (H : ∀ k l, (length l ≤ k)%nat → Forall is_bit (num_bits l)).
  { induction k as [|k IH]; intros [|a [|b [|c l']]] Hl; simpl in Hl; try lia;
      cbn [num_bits]; auto with qr. apply Forall_app. split; [auto with qr|]. apply IH. lia. }
  by apply (H (length l)).
Qed.

Lemma an_bits_bits l : Forall is_bit (an_bits l).
Proof.
  assert (H : ∀ k l, (length l ≤ k)%nat → Forall is_bit (an_bits l)).
  { induction k as [|k IH]; intros [|a [|b l']] Hl; simpl in Hl; try lia;
      cbn [an_bits]; auto with qr. apply Forall_app. split; [auto with qr|]. apply IH. lia. }
  by apply (H (length l)).
Qed.

Lemma kanji_bits_bits l : Forall is_bit (kanji_bits l).
Proof.
  assert (H : ∀ k l, (length l ≤ k)%nat → Forall is_bit (kanji_bits l)).
  { induction k as [|k IH]; intros [|a [|b l']] Hl; simpl in Hl; try lia;
      cbn [kanji_bits]; auto with qr. apply Forall_app. split; [auto with qr|]. apply IH. lia. }
  by apply (H (length l)).
Qed.

#[local] Hint Resolve num_bits_bits an_bits_bits kanji_bits_bits : qr.

Lemma data_bits_bits mode l : Forall is_bit (data_bits mode l).
Proof. destruct mode; simpl; auto with qr. Qed.

#[local] Hint Resolve data_bits_bits : qr.

Lemma leaf_bits_bits mqr v mode l : Forall is_bit (leaf_bits mqr v mode l).
Proof.
  unfold leaf_bits, msegment, segment, structure_bits, eci_bits, fnc1second_bits.
  destruct mqr, mode; repeat (apply Forall_app; split); auto with qr.
  repeat case_bool; auto with qr.
Qed.

Lemma entry_bits_bits mqr v mode l : Forall is_bit (entry_bits mqr v mode l).
Proof.
  unfold entry_bits. apply Forall_bind, Forall_forall. intros c _. apply leaf_bits_bits.
Qed.

Lemma stream_bits mqr v es : Forall is_bit (stream mqr v es).
Proof. unfold stream. apply Forall_bind, Forall_forall. intros c _. apply entry_bits_bits. Qed.

#[export] Hint Resolve stream_bits entry_bits_bits : qr.

Lemma foldl_length mqr v es acc :
  foldl (λ n e, n + Z.of_nat (length (entry_bits mqr v (e_mode e) (e_data e)))) acc es
  = acc + Z.of_nat (length (stream mqr v es)).
Proof.
  revert acc. induction es as [|e es IH]; intros acc; simpl; [lia|].
  rewrite IH, length_app. lia.
Qed.

Section conversion.
Context {Inv : statics → Prop}.

Lemma createBitStream_spec i (E : option errno_t → QRinput → Prop) :
  Forall (encodable_entry (mqr i) (version i)) (head i) →
  sm_spec Inv QRinput_createBitStream i
    (λ n i', n = Z.of_nat (length (stream (mqr i) (version i) (head i)))
             ∧ i' = set_head (encoded (mqr i) (version i) <$> head i) i) E.
Proof.
  intros Hes. apply sm_get_bind. unfold on_entries. apply sm_zoom.
  eapply sm_mono.
  - apply (sm_for_each _ 0 _
      (λ n e, n + Z.of_nat (length (entry_bits (mqr i) (version i) (e_mode e) (e_data e))))
      (encoded (mqr i) (version i)) (λ _, False) (λ _ _, True)); [done|done|].
    intros acc e He. rewrite Forall_forall in Hes. destruct (Hes e He).
    eapply sm_bind; [by apply (encodeBitStream_spec (E := λ _ _, False ∧ True))|].
    intros n e' [-> ->]. apply sm_ret. by split.
  - intros n l [-> ->]. split; [|done]. by rewrite foldl_length.
  - by intros e l [[] _].
Qed.

(** Encoding a second time gives the same streams. *)
Lemma stream_encoded mqr v v' (es : list QRinput_List) : stream mqr v (encoded mqr v' <$> es) = stream mqr v es.
Proof. unfold stream. by rewrite list_fmap_bind. Qed.

Lemma encoded_twice mqr v v' (es : list QRinput_List) :
  encoded mqr v <$> (encoded mqr v' <$> es) = encoded mqr v <$> es.
Proof. rewrite <- list_fmap_compose. by apply list_fmap_ext. Qed.

Lemma encodable_entry_encoded mqr v v' e :
  encodable_entry mqr v e → encodable_entry mqr v (encoded mqr v' e).
Proof. by intros []. Qed.

(** For QR codes the supported modes do not depend on the version. *)
Lemma encodable_entry_version v v' e : encodable_entry false v e → encodable_entry false v' e.
Proof. by intros []. Qed.

Lemma data_length_positive v l : 1 ≤ v ≤ 40 → 0 < QRspec_getDataLength v l.
Proof.
  intros Hv. apply Z.ltb_lt. apply (versions_levels (λ v l, 0 <? QRspec_getDataLength v l) 1 41);
    [by vm_compute|lia].
Qed.

Lemma data_length_mono_le v u l :
  1 ≤ v ≤ u → u ≤ 40 → QRspec_getDataLength v l ≤ QRspec_getDataLength u l.
Proof.
  intros Hv Hu. apply (for_pure_inv (λ u _, QRspec_getDataLength v l ≤ QRspec_getDataLength u l)
    v u (λ _ s, s) tt); [lia|lia|]. intros i _ Hi IH.
  pose proof (data_length_mono i l ltac:(lia)). lia.
Qed.

(** The state of an input object after a conversion with version [v]. *)
Definition converted (v : Z) (i : QRinput) : QRinput :=
  set_head (encoded false v <$> head i) (set_version v i).

(** The bits fit in the symbol. *)
Definition fits (v : Z) (i : QRinput) : Prop :=
  Z.of_nat (length (stream false v (head i))) ≤ 8 * QRspec_getDataLength v (level i).

(** What a conversion leaves behind when the data does not fit: the data is
    unchanged, the version may have grown. *)
Definition too_large (i : QRinput) (e : option errno_t) (i' : QRinput) : Prop :=
  e = Some ERANGE ∧ ∃ v, version i ≤ v ≤ 40 ∧ i' = converted v i ∧
  QRspec_getMinimumVersion ((Z.of_nat (length (stream false v (head i))) + 7) `quot` 8)
    (level i) = -1.

Lemma convertData_loop_spec fuel i v :
  mqr i = false → Forall (encodable_entry false (version i)) (head i) →
  0 ≤ version i ≤ v → v ≤ 40 → 40 - v < Z.of_nat fuel →
  ∀ i0, i0 = set_version v i ∨ (∃ u, i0 = set_version v (converted u i)) →
  sm_spec Inv (convertData_loop fuel) i0
    (λ _ i', ∃ u, v ≤ u ≤ 40 ∧ 1 ≤ u ∧ i' = converted u i ∧ fits u i) (too_large i).
Proof.
  intros Hm Hes. revert v. induction fuel as [|fuel IH]; intros v Hv Hv40 Hf i0 Hi0; [lia|].
  assert (Hi0' : mqr i0 = false ∧ version i0 = v ∧ level i0 = level i ∧
    Forall (encodable_entry false v) (head i0) ∧
    stream false v (head i0) = stream false v (head i) ∧
    set_head (encoded false v <$> head i0) i0 = converted v i).
  { assert (Hes' : Forall (encodable_entry false v) (head i)).
    { eapply Forall_impl; [exact Hes|]. intros e. apply encodable_entry_version. }
    destruct Hi0 as [->|[u ->]]; [by repeat split|]. repeat split; [done| |apply stream_encoded|].
    - cbn. apply Forall_fmap. eapply Forall_impl; [exact Hes'|].
      intros e He. by apply encodable_entry_encoded.
    - cbn. unfold converted, set_head, set_version. cbn. f_equal. apply encoded_twice. }
  destruct Hi0' as (Hm0 & Hver0 & Hl0 & Hes0 & Hst0 & Hconv0).
  cbn [convertData_loop]. eapply sm_bind.
  { apply createBitStream_spec. by rewrite Hm0, Hver0. }
  intros n i1 [-> ->]. rewrite Hm0, Hver0, Hst0, Hconv0. apply sm_get_bind.
  change (level (converted v i)) with (level i).
  change (QRinput_getVersion (converted v i)) with v.
  set (n := Z.of_nat (length (stream false v (head i)))).
  set (ver := QRspec_getMinimumVersion ((n + 7) `quot` 8) (level i)).
  pose proof (getMinimumVersion_spec ((n + 7) `quot` 8) (level i)) as Hmin. fold ver in Hmin.
  destruct Hmin as [(Hr & Hfit & Hleast)|[Hneg Hbig]].
  - replace (ver <? 0) with false by lia. destruct (Z.ltb_spec v ver).
    + eapply sm_bind with (P := λ _ i', i' = set_version ver (converted v i)).
      { apply sm_get_bind. change (mqr (converted v i)) with (mqr i). rewrite Hm.
        replace (false || (ver <? 0) || (QRSPEC_VERSION_MAX <? ver)) with false
          by (unfold QRSPEC_VERSION_MAX; lia). by apply sm_put. }
      intros _ i' ->. eapply sm_mono; [apply (IH ver); eauto; lia| |done].
      intros _ i' (u & Hu & ? & -> & ?). exists u. repeat split; try done; lia.
    + apply sm_ret. exists v. repeat split; [lia..|]. unfold fits. fold n.
      pose proof (data_length_mono_le ver v (level i) ltac:(lia) ltac:(lia)).
      rewrite Z.quot_div_nonneg in Hfit by lia.
      assert (n ≤ 8 * ((n + 7) `div` 8)) by (pose proof (Z.div_mod (n + 7) 8 ltac:(lia));
        pose proof (Z.mod_pos_bound (n + 7) 8 ltac:(lia)); lia). lia.
  - rewrite Hneg. cbn [Z.ltb Z.compare]. apply sm_lift, spec_raise. split; [done|].
    exists v. split; [lia|]. by split.
Qed.

Lemma estimate_entry_returns mqr v u e :
  encodable_entry mqr u e → ∃ n, QRinput_estimateBitStreamSizeOfEntry e v mqr = Ret n.
Proof.
  intros [Hs Hb Hd _]. unfold QRinput_estimateBitStreamSizeOfEntry.
  destruct (e_mode e) eqn:Em; try by eexists.
  destruct (e_data e) as [|d0 [|d1 [|d2 [|d3 [|]]]]]; try done.
  unfold QRinput_estimateBitsModeECI. rewrite !Forall_cons in Hb.
  rewrite decodeECI_spec by tauto. by eexists.
Qed.

Lemma estimate_size_returns v i :
  Forall (encodable_entry (mqr i) (version i)) (head i) →
  ∃ n, QRinput_estimateBitStreamSize i v = Ret n.
Proof.
  unfold QRinput_estimateBitStreamSize. generalize 0. intros acc H. revert acc.
  induction H as [|e es He _ IH]; intros acc; cbn [foldM]; [by eexists|].
  destruct (estimate_entry_returns _ v _ e He) as [n ->]. cbn [mbind outcome_bind]. apply IH.
Qed.

Lemma estimateVersion_loop_spec fuel i prev :
  Forall (encodable_entry (mqr i) (version i)) (head i) →
  0 ≤ prev ≤ 40 → 40 - prev < Z.of_nat fuel →
  ∃ v, estimateVersion_loop fuel i prev = Ret v ∧ (v = -1 ∨ 1 ≤ v ≤ 40).
Proof.
  intros Hes. revert prev. induction fuel as [|fuel IH]; intros prev Hp Hf; [lia|].
  cbn [estimateVersion_loop]. destruct (estimate_size_returns prev i Hes) as [n ->].
  cbn [mbind outcome_bind].
  pose proof (getMinimumVersion_spec ((n + 7) `quot` 8) (level i)) as Hmin. cbv zeta in Hmin.
  set (v := QRspec_getMinimumVersion _ _) in *.
  destruct Hmin as [(Hr & _)|[-> _]]; [|by exists (-1); split; [|left]].
  replace (v <? 0) with false by lia. destruct (Z.ltb_spec prev v); [apply IH; lia|].
  exists v. split; [done|]. by right.
Qed.

Lemma estimateVersion_returns i :
  Forall (encodable_entry (mqr i) (version i)) (head i) →
  ∃ v, QRinput_estimateVersion i = Ret v ∧ (v = -1 ∨ 1 ≤ v ≤ 40).
Proof. intros Hes. apply estimateVersion_loop_spec; [done|lia..|by vm_compute]. Qed.

Lemma convertData_spec i :
  mqr i = false → Forall (encodable_entry false (version i)) (head i) → 0 ≤ version i ≤ 40 →
  sm_spec Inv QRinput_convertData i
    (λ _ i', ∃ u, version i ≤ u ≤ 40 ∧ 1 ≤ u ∧ i' = converted u i ∧ fits u i) (too_large i).
Proof.
  intros Hm Hes Hv. apply sm_get_bind.
  destruct (estimateVersion_returns i) as (v & Ev & Hrange); [by rewrite Hm|].
  eapply sm_lift_bind; [by eapply (spec_liftO _ _ (λ x, x = v))|]. intros ? ->.
  unfold QRinput_getVersion. destruct (Z.ltb_spec (version i) v).
  - eapply sm_bind with (P := λ _ i', i' = set_version v i).
    { apply sm_get_bind. rewrite Hm. replace (false || (v <? 0) || (QRSPEC_VERSION_MAX <? v))
        with false by (unfold QRSPEC_VERSION_MAX; lia). by apply sm_put. }
    intros _ i' ->. eapply sm_mono;
      [apply (convertData_loop_spec _ i v); [done|done|lia|lia|unfold version_fuel; lia|by left]| |done].
    intros _ i' (u & ? & ? & ? & ?). exists u. repeat split; try done; lia.
  - eapply sm_bind with (P := λ _ i', i' = i); [by apply sm_ret|]. intros _ i' ->.
    apply (convertData_loop_spec _ i (version i)); [done|done|lia|lia|unfold version_fuel; lia|].
    left. by destruct i.
Qed.
End conversion.

(** ** Padding *)

(** The padded stream of [n] code words: a terminator of up to four zero bits,
    zero bits up to a byte boundary, and alternating pad code words. *)
Definition padded (n : Z) (l : list Z) : list Z :=
  let bits := Z.of_nat (length l) in
  if n * 8 - bits <=? 4 then l ++ replicate (Z.to_nat (n * 8 - bits)) 0
  else
    let words := (bits + 11) `div` 8 in
    l ++ replicate (Z.to_nat (words * 8 - bits)) 0 ++ bytes_to_bits (pad_bytes (n - words)).

Lemma to_bits_0 n : to_bits n 0 = replicate n 0.
Proof. induction n as [|n IH]; [done|]. cbn [to_bits replicate]. by rewrite Z.testbit_0_l, IH. Qed.

Lemma length_pad_bytes n : length (pad_bytes n) = Z.to_nat n.
Proof. unfold pad_bytes. rewrite length_fmap, range_seqZ, length_seqZ. lia. Qed.

Lemma pad_bytes_nil n : n ≤ 0 → pad_bytes n = [].
Proof. intros H. apply length_zero_iff_nil. rewrite length_pad_bytes. lia. Qed.

Lemma length_padded n l :
  Z.of_nat (length l) ≤ n * 8 → Z.of_nat (length (padded n l)) = n * 8.
Proof.
  intros H. unfold padded. destruct (Z.leb_spec (n * 8 - Z.of_nat (length l)) 4).
  - rewrite length_app, length_replicate. lia.
  - rewrite !length_app, length_replicate, length_bytes_to_bits, length_pad_bytes.
    pose proof (Z.div_mod (Z.of_nat (length l) + 11) 8 ltac:(lia)).
    pose proof (Z.mod_pos_bound (Z.of_nat (length l) + 11) 8 ltac:(lia)). lia.
Qed.

Lemma padded_bits n l : Forall is_bit l → Forall is_bit (padded n l).
Proof.
  intros Hl. unfold padded. destruct (_ <=? 4); repeat (apply Forall_app; split);
    auto with qr; by apply Forall_replicate; left.
Qed.

Section padding.
Context {Inv : statics → Prop}.

Lemma appendPaddingBit_spec l i E :
  let n := QRspec_getDataLength (version i) (level i) in
  Z.of_nat (length l) ≤ n * 8 →
  spec Inv (QRinput_appendPaddingBit (bs_of l) i) (λ b, b = bs_of (padded n l)) E.
Proof.
  intros n Hfit. unfold QRinput_appendPaddingBit, BitStream_size. fold n.
  change (blen (bs_of l)) with (Z.of_nat (length l)). set (bits := Z.of_nat (length l)) in *.
  replace (n * 8 <? bits) with false by lia. unfold padded. fold bits.
  destruct (Z.eqb_spec (n * 8) bits) as [E0|E0].
  { apply spec_ret. replace (n * 8 - bits) with 0 by lia. simpl. by rewrite app_nil_r. }
  destruct (Z.leb_spec (n * 8 - bits) 4).
  { eapply spec_mono; [apply BitStream_appendNum_spec; lia| |done]. intros ? ->. by rewrite to_bits_0. }
  rewrite Z.quot_div_nonneg by lia. replace (bits + 4 + 7) with (bits + 11) by lia.
  set (words := (bits + 11) `div` 8).
  assert (Hw : bits + 4 ≤ words * 8 ≤ bits + 11).
  { unfold words. pose proof (Z.div_mod (bits + 11) 8 ltac:(lia)).
    pose proof (Z.mod_pos_bound (bits + 11) 8 ltac:(lia)). lia. }
  eapply spec_bind; [apply BitStream_new_spec|]. intros ? ->.
  eapply spec_bind; [apply BitStream_appendNum_spec; lia|]. intros ? ->. rewrite to_bits_0.
  apply spec_bind with (P := λ b, b = bs_of (replicate (Z.to_nat (words * 8 - bits)) 0
    ++ bytes_to_bits (pad_bytes (n - words)))).
  - destruct (Z.ltb_spec 0 (n - words)).
    + eapply spec_bind; [apply (spec_malloc _ (λ _, True)); [lia|done]|]. intros _ _.
      eapply spec_mono; [apply BitStream_appendBytes_spec; rewrite length_pad_bytes; lia| |done].
      intros ? ->. by rewrite take_ge by (rewrite length_pad_bytes; lia).
    + apply spec_ret. rewrite pad_bytes_nil by lia. simpl. by rewrite app_nil_r.
  - intros ? ->. apply BitStream_append_spec.
Qed.
End padding.

(** ** Byte streams *)

Section byte_stream.
Context {Inv : statics → Prop}.

Lemma merge_entries_spec mqr v es l E :
  spec Inv (foldM (λ e b, BitStream_append b (e_bstream e)) (encoded mqr v <$> es) (bs_of l))
    (λ b, b = bs_of (l ++ stream mqr v es)) E.
Proof.
  revert l. induction es as [|e es IH]; intros l; cbn [fmap list_fmap foldM].
  { apply spec_ret. by rewrite app_nil_r. }
  eapply spec_bind; [apply BitStream_append_spec|]. intros ? ->.
  unfold stream. cbn [mbind list_bind]. rewrite app_assoc. apply IH.
Qed.

(** Conversion of a QR code input: the version grows to one that holds the
    data, and the result is the padded stream, packed into bytes. *)
Definition byte_stream (u : Z) (i : QRinput) : list Z :=
  bits_to_bytes (padded (QRspec_getDataLength u (level i)) (stream false u (head i))).

Lemma converted_version u i : version (converted u i) = u.
Proof. done. Qed.

Lemma getBitStream_spec i :
  mqr i = false → fnc1 i = 0 →
  Forall (encodable_entry false (version i)) (head i) → 0 ≤ version i ≤ 40 →
  sm_spec Inv QRinput_getBitStream i
    (λ b i', ∃ u, version i ≤ u ≤ 40 ∧ 1 ≤ u ∧ i' = converted u i ∧ fits u i ∧
      b = bs_of (padded (QRspec_getDataLength u (level i)) (stream false u (head i))))
    (too_large i).
Proof.
  intros Hm Hf Hes Hv.
  eapply sm_bind with (P := λ b i', ∃ u, version i ≤ u ≤ 40 ∧ 1 ≤ u ∧ i' = converted u i ∧
    fits u i ∧ b = bs_of (stream false u (head i))).
  - apply sm_get_bind. rewrite Hm, Hf. cbn [truth Z.eqb negb].
    eapply sm_bind; [apply (convertData_spec i Hm Hes Hv)|].
    intros _ i' (u & Hu & Hu1 & -> & Hfits).
    eapply sm_lift_bind; [apply BitStream_new_spec|]. intros ? ->. apply sm_get_bind.
    apply sm_lift. change (head (converted u i)) with (encoded false u <$> head i).
    eapply spec_mono; [apply (merge_entries_spec _ _ _ [] no_failure)| |by intros ? []].
    intros ? ->. exists u. split_and!; done || lia.
  - intros b i' (u & Hu & Hu1 & -> & Hfits & ->). apply sm_get_bind.
    change (mqr (converted u i)) with (mqr i). rewrite Hm. apply sm_lift.
    eapply spec_mono; [apply (appendPaddingBit_spec _ _ no_failure)| |by intros ? []].
    + change (level (converted u i)) with (level i). rewrite converted_version.
      unfold fits in Hfits. lia.
    + intros ? ->. exists u. split_and!; done || lia.
Qed.

Lemma getByteStream_spec i :
  mqr i = false → fnc1 i = 0 →
  Forall (encodable_entry false (version i)) (head i) → 0 ≤ version i ≤ 40 →
  sm_spec Inv QRinput_getByteStream i
    (λ d i', ∃ u, version i ≤ u ≤ 40 ∧ 1 ≤ u ∧ i' = converted u i ∧ fits u i ∧
      d = byte_stream u i) (too_large i).
Proof.
  intros Hm Hf Hes Hv. eapply sm_bind; [by apply getBitStream_spec|].
  intros b i' (u & Hu & Hu1 & -> & Hfits & ->). apply sm_lift.
  pose proof (data_length_positive u (level i) ltac:(lia)) as Hpos.
  eapply spec_mono; [apply (BitStream_toByte_spec _ no_failure)| |by intros ? []].
  - by apply padded_bits, stream_bits.
  - intros E0. apply (f_equal length) in E0. unfold fits in Hfits.
    pose proof (length_padded (QRspec_getDataLength u (level i)) (stream false u (head i))
      ltac:(lia)) as Hl. rewrite E0 in Hl. simpl in Hl. lia.
  - intros ? ->. exists u. split_and!; done || lia.
Qed.

(** The code words of a version: as many as the version holds, each a byte,
    and their bits are the padded stream. *)
Lemma byte_stream_bits u i :
  1 ≤ u ≤ 40 → fits u i →
  Z.of_nat (length (byte_stream u i)) = QRspec_getDataLength u (level i) ∧
  Forall is_byte (byte_stream u i) ∧
  bytes_to_bits (byte_stream u i)
  = padded (QRspec_getDataLength u (level i)) (stream false u (head i)).
Proof.
  intros Hu Hfits. unfold byte_stream. set (n := QRspec_getDataLength u (level i)).
  set (l := stream false u (head i)).
  assert (Hb : Forall is_bit (padded n l)) by apply padded_bits, stream_bits.
  pose proof (length_padded n l ltac:(unfold fits in Hfits; fold n l in Hfits; lia)) as Hl.
  assert (Hlen : length (padded n l) = (8 * Z.to_nat n)%nat) by lia.
  split; [|split].
  - rewrite (bits_to_bytes_full (padded n l) (Z.to_nat n) Hlen), length_fmap, length_seq.
    pose proof (data_length_positive u (level i) Hu). unfold n in *. lia.
  - by apply bits_to_bytes_range.
  - by apply (bytes_to_bits_pack _ (Z.to_nat n)).
Qed.
End byte_stream.
