(* ===== verification/QRDecode.v ===== *)
(** * Decoding of padded streams

    A decoder for the bits of a QR code in the way of the standard, independent
    of the encoder, and the proof that it recovers the segments from the padded
    stream that qrinput.c produces. *)

From S2P Require Import Prelude CModel BitStream QRSpec QRInput QRInputTheory.

(** ** The decoder *)

(** The number in the next [n] bits. *)
Definition take_bits (n : nat) (l : list Z) : option (Z * list Z) :=
  if (n <=? length l)%nat then Some (of_bits (take n l), drop n l) else None.

Fixpoint decode_num (fuel : nat) (count : Z) (l : list Z) : option (list Z * list Z) :=
  match fuel with
  | O => None
  | S fuel =>
    if count <=? 0 then Some ([], l)
    else if count =? 1 then
      '(v, l) ← take_bits 4 l; Some ([48 + v], l)
    else if count =? 2 then
      '(v, l) ← take_bits 7 l; Some ([48 + v `div` 10; 48 + v `mod` 10], l)
    else
      '(v, l) ← take_bits 10 l;
      '(ds, l) ← decode_num fuel (count - 3) l;
      Some (48 + v `div` 100 :: 48 + (v `div` 10) `mod` 10 :: 48 + v `mod` 10 :: ds, l)
  end.

(** The 45 characters in the order of their values. *)
Definition an_chars : list Z :=
  [48; 49; 50; 51; 52; 53; 54; 55; 56; 57; 65; 66; 67; 68; 69; 70; 71; 72; 73; 74; 75; 76; 77;
   78; 79; 80; 81; 82; 83; 84; 85; 86; 87; 88; 89; 90; 32; 36; 37; 42; 43; 45; 46; 47; 58].

Fixpoint decode_an (fuel : nat) (count : Z) (l : list Z) : option (list Z * list Z) :=
  match fuel with
  | O => None
  | S fuel =>
    if count <=? 0 then Some ([], l)
    else if count =? 1 then
      '(v, l) ← take_bits 6 l; Some ([nthZ an_chars v], l)
    else
      '(v, l) ← take_bits 11 l;
      '(cs, l) ← decode_an fuel (count - 2) l;
      Some (nthZ an_chars (v `div` 45) :: nthZ an_chars (v `mod` 45) :: cs, l)
  end.

Fixpoint decode_8 (fuel : nat) (count : Z) (l : list Z) : option (list Z * list Z) :=
  match fuel with
  | O => None
  | S fuel =>
    if count <=? 0 then Some ([], l)
    else
      '(v, l) ← take_bits 8 l;
      '(bs, l) ← decode_8 fuel (count - 1) l;
      Some (v :: bs, l)
  end.

(** A 13-bit value as a pair of Shift JIS bytes. *)
Definition kanji_bytes (v : Z) : list Z :=
  let w := v `div` 0xc0 * 256 + v `mod` 0xc0 in
  let w := if w <? 0x1f00 then w + 0x8140 else w + 0xc140 in
  [w `div` 256; w `mod` 256].

Fixpoint decode_kanji (fuel : nat) (count : Z) (l : list Z) : option (list Z * list Z) :=
  match fuel with
  | O => None
  | S fuel =>
    if count <=? 0 then Some ([], l)
    else
      '(v, l) ← take_bits 13 l;
      '(bs, l) ← decode_kanji fuel (count - 1) l;
      Some (kanji_bytes v ++ bs, l)
  end.

(** [count] characters of a mode. *)
Definition decode_chars (mode : QRencodeMode) (count : Z) (l : list Z)
    : option (list Z * list Z) :=
  let fuel := S (Z.to_nat count) in
  match mode with
  | QR_MODE_NUM => decode_num fuel count l
  | QR_MODE_AN => decode_an fuel count l
  | QR_MODE_8 => decode_8 fuel count l
  | QR_MODE_KANJI => decode_kanji fuel count l
  | _ => None
  end.

Definition decode_data (mode : QRencodeMode) (v : Z) (l : list Z)
    : option (list Z * list Z) :=
  '(count, l) ← take_bits (Z.to_nat (QRspec_lengthIndicator mode v)) l;
  decode_chars mode count l.

Definition eci_bytes (n : Z) : list Z :=
  [n `mod` 256; (n `div` 256) `mod` 256; (n `div` 65536) `mod` 256; (n `div` 16777216) `mod` 256].

(** The designator of an ECI has one, two or three bytes. *)
Definition decode_eci (l : list Z) : option (list Z * list Z) :=
  match l with
  | 0 :: l => '(n, l) ← take_bits 7 l; Some (eci_bytes n, l)
  | 1 :: 0 :: l => '(n, l) ← take_bits 14 l; Some (eci_bytes n, l)
  | 1 :: 1 :: 0 :: l => '(n, l) ← take_bits 21 l; Some (eci_bytes n, l)
  | _ => None
  end.

Definition decode_structure (l : list Z) : option (list Z * list Z) :=
  '(number, l) ← take_bits 4 l;
  '(size, l) ← take_bits 4 l;
  '(parity, l) ← take_bits 8 l;
  Some ([size + 1; number + 1; parity], l).

(** The segment after a mode indicator. *)
Definition decode_segment (id v : Z) (l : list Z)
    : option (QRencodeMode * list Z * list Z) :=
  match id with
  | 1 => '(d, l) ← decode_data QR_MODE_NUM v l; Some (QR_MODE_NUM, d, l)
  | 2 => '(d, l) ← decode_data QR_MODE_AN v l; Some (QR_MODE_AN, d, l)
  | 4 => '(d, l) ← decode_data QR_MODE_8 v l; Some (QR_MODE_8, d, l)
  | 8 => '(d, l) ← decode_data QR_MODE_KANJI v l; Some (QR_MODE_KANJI, d, l)
  | 3 => '(d, l) ← decode_structure l; Some (QR_MODE_STRUCTURE, d, l)
  | 7 => '(d, l) ← decode_eci l; Some (QR_MODE_ECI, d, l)
  | 9 => '(d, l) ← take_bits 8 l; Some (QR_MODE_FNC1SECOND, [d], l)
  | _ => None
  end.

(** All segments up to the terminator or the end of the symbol. *)
Fixpoint decode_segments (fuel : nat) (v : Z) (l : list Z)
    : option (list (QRencodeMode * list Z)) :=
  match fuel with
  | O => None
  | S fuel =>
    match take_bits 4 l with
    | None => Some []
    | Some (id, l) =>
      if id =? 0 then Some []
      else
        '(mode, d, l) ← decode_segment id v l;
        segs ← decode_segments fuel v l;
        Some ((mode, d) :: segs)
    end
  end.

Definition decode_stream (v : Z) (l : list Z) : option (list (QRencodeMode * list Z)) :=
  decode_segments (S (length l)) v l.

(** ** Data that survives the round trip *)

(** Kanji whose second byte is a trail byte of Shift JIS. *)
Fixpoint kanji_trail_ok (l : list Z) : bool :=
  match l with
  | _ :: d1 :: l => (0x40 <=? d1) && kanji_trail_ok l
  | _ => true
  end.

Definition decodable (mode : QRencodeMode) (data : list Z) : bool :=
  match mode with
  | QR_MODE_NUM => forallb is_digit data
  | QR_MODE_AN => forallb is_an data
  | QR_MODE_8 => true
  | QR_MODE_KANJI => kanji_valid data && kanji_trail_ok data
  | QR_MODE_STRUCTURE =>
    (length data =? 3)%nat && (1 <=? nthZ data 0) && (nthZ data 0 <=? 16)
    && (1 <=? nthZ data 1) && (nthZ data 1 <=? 16)
  | QR_MODE_ECI => (length data =? 4)%nat && (eci_value data <? 16384)
  | QR_MODE_FNC1SECOND => (length data =? 1)%nat
  | _ => false
  end.

(** The segments of an entry: its data in chunks that fit the length
    indicator. *)
Definition entry_segments (v : Z) (e : QRinput_List) : list (QRencodeMode * list Z) :=
  pair (e_mode e) <$> chunks (chunk_size v (e_mode e)) (e_data e).

(** ** Lemmas *)

Lemma take_bits_app (n : nat) v l :
  0 ≤ v < 2 ^ Z.of_nat n → take_bits n (to_bits n v ++ l) = Some (v, l).
Proof.
  intros Hv. unfold take_bits. rewrite length_app, length_to_bits.
  replace (n <=? n + length l)%nat with true by (symmetry; apply Nat.leb_le; lia).
  rewrite take_app_length', drop_app_length' by (by rewrite length_to_bits).
  by rewrite of_to_bits_small.
Qed.

Lemma decode_num_spec fuel data l :
  forallb is_digit data = true → (length data < fuel)%nat →
  decode_num fuel (Z.of_nat (length data)) (num_bits data ++ l) = Some (data, l).
Proof.
  revert data. induction fuel as [|fuel IH]; intros data Hd Hf; [lia|].
  assert (Hdig : ∀ d, is_digit d = true → 48 + digit d = d ∧ 0 ≤ digit d ≤ 9).
  { unfold is_digit, digit. lia. }
  destruct data as [|a [|b [|c data]]]; cbn [forallb] in Hd;
    rewrite ?andb_true_iff in Hd; cbn [decode_num].
  - done.
  - destruct Hd as [Ha _]. apply Hdig in Ha as [Ea Ha]. cbn [length Z.of_nat Z.leb Z.eqb Z.compare Pos.of_succ_nat Pos.eqb].
    cbn [num_bits]. rewrite take_bits_app by lia. cbn. by rewrite Ea.
  - destruct Hd as (Ha & Hb & _). apply Hdig in Ha as [Ea Ha]. apply Hdig in Hb as [Eb Hb].
    change (Z.of_nat (length [a; b])) with 2. cbn [Z.leb Z.eqb Z.compare Pos.eqb].
    cbn [num_bits]. rewrite take_bits_app by lia. cbn [mbind option_bind].
    rewrite Z.div_add_l, Z.div_small, Z.add_0_r by lia.
    rewrite Z.add_comm with (m := digit b), Z.mod_add, Z.mod_small by lia. by rewrite Ea, Eb.
  - destruct Hd as (Ha & Hb & Hc & Hd). apply Hdig in Ha as [Ea Ha]. apply Hdig in Hb as [Eb Hb].
    apply Hdig in Hc as [Ec Hc]. set (n := Z.of_nat (length (a :: b :: c :: data))).
    assert (Hn : n = Z.of_nat (length data) + 3) by (unfold n; simpl length; lia).
    replace (n <=? 0) with false by lia. replace (n =? 1) with false by lia.
    replace (n =? 2) with false by lia. cbn [num_bits]. rewrite <- app_assoc.
    rewrite take_bits_app by lia. cbn [mbind option_bind].
    replace (n - 3) with (Z.of_nat (length data)) by lia.
    rewrite IH by (done || (simpl in Hf; lia)). cbn [mbind option_bind].
    set (x := digit a) in *. set (y := digit b) in *. set (z := digit c) in *.
    replace ((x * 100 + y * 10 + z) `div` 100) with x by (apply Z.div_unique with (y * 10 + z); lia).
    replace ((x * 100 + y * 10 + z) `div` 10) with (x * 10 + y) by (apply Z.div_unique with z; lia).
    replace ((x * 10 + y) `mod` 10) with y by (apply Z.mod_unique with x; lia).
    replace ((x * 100 + y * 10 + z) `mod` 10) with z by (apply Z.mod_unique with (x * 10 + y); lia).
    by rewrite Ea, Eb, Ec.
Qed.

Lemma an_chars_value d : is_an d = true → nthZ an_chars (an_value d) = d ∧ 0 ≤ an_value d ≤ 44.
Proof.
  intros H. assert (Hd : 0 ≤ d < 128) by (unfold is_an in H; lia).
  assert (Hc : negb (is_an d) || ((nthZ an_chars (an_value d) =? d)
                 && (0 <=? an_value d) && (an_value d <=? 44)) = true).
  { clear H. revert d Hd. apply all_range_spec. by vm_compute. }
  rewrite H in Hc. simpl in Hc. lia.
Qed.

Lemma decode_an_spec fuel data l :
  forallb is_an data = true → (length data < fuel)%nat →
  decode_an fuel (Z.of_nat (length data)) (an_bits data ++ l) = Some (data, l).
Proof.
  revert data. induction fuel as [|fuel IH]; intros data Hd Hf; [lia|].
  destruct data as [|a [|b data]]; cbn [forallb] in Hd;
    rewrite ?andb_true_iff in Hd; cbn [decode_an].
  - done.
  - destruct Hd as [Ha _]. apply an_chars_value in Ha as [Ea Ha].
    change (Z.of_nat (length [a])) with 1. cbn [Z.leb Z.eqb Z.compare Pos.eqb an_bits].
    rewrite take_bits_app by lia. cbn [mbind option_bind]. by rewrite Ea.
  - destruct Hd as (Ha & Hb & Hd). apply an_chars_value in Ha as [Ea Ha].
    apply an_chars_value in Hb as [Eb Hb]. set (n := Z.of_nat (length (a :: b :: data))).
    assert (Hn : n = Z.of_nat (length data) + 2) by (unfold n; simpl length; lia).
    replace (n <=? 0) with false by lia. replace (n =? 1) with false by lia.
    cbn [an_bits]. rewrite <- app_assoc, take_bits_app by lia. cbn [mbind option_bind].
    replace (n - 2) with (Z.of_nat (length data)) by lia.
    rewrite IH by (done || (simpl in Hf; lia)). cbn [mbind option_bind].
    set (x := an_value a) in *. set (y := an_value b) in *.
    replace ((x * 45 + y) `div` 45) with x by (apply Z.div_unique with y; lia).
    replace ((x * 45 + y) `mod` 45) with y by (apply Z.mod_unique with x; lia).
    by rewrite Ea, Eb.
Qed.

Lemma decode_8_spec fuel data l :
  Forall is_byte data → (length data < fuel)%nat →
  decode_8 fuel (Z.of_nat (length data)) (bytes_to_bits data ++ l) = Some (data, l).
Proof.
  revert data. induction fuel as [|fuel IH]; intros data Hd Hf; [lia|].
  destruct Hd as [|a data Ha Hd]; cbn [decode_8]; [done|].
  set (n := Z.of_nat (length (a :: data))).
  assert (Hn : n = Z.of_nat (length data) + 1) by (unfold n; simpl length; lia).
  replace (n <=? 0) with false by lia.
  rewrite bytes_to_bits_cons, <- app_assoc, take_bits_app by done. cbn [mbind option_bind].
  replace (n - 1) with (Z.of_nat (length data)) by lia.
  rewrite IH by (done || (simpl in Hf; lia)). done.
Qed.

Lemma kanji_bytes_value d0 d1 :
  is_byte d0 → is_byte d1 → is_kanji d0 d1 = true → 0x40 ≤ d1 →
  kanji_bytes (kanji_value d0 d1) = [d0; d1] ∧ 0 ≤ kanji_value d0 d1 < 2 ^ 13.
Proof.
  intros H0 H1 Hk Ht. split.
  2:{ pose proof (kanji_code d0 d1 H0 H1 Hk) as [_ H]. done. }
  unfold is_kanji, kanji_bytes, kanji_value, sjis, is_byte in *.
  set (u := if d0 * 256 + d1 <=? 40956 then d0 * 256 + d1 - 33088 else d0 * 256 + d1 - 49472).
  set (b := if d0 * 256 + d1 <=? 40956 then 0x81 else 0xc1).
  assert (Hu : u = (d0 - b) * 256 + (d1 - 0x40)) by (unfold u, b; case_bool; lia).
  replace (u `div` 256) with (d0 - b) by (apply Z.div_unique with (d1 - 0x40); lia).
  replace (u `mod` 256) with (d1 - 0x40) by (apply Z.mod_unique with (d0 - b); lia).
  replace (((d0 - b) * 192 + (d1 - 64)) `div` 192) with (d0 - b)
    by (apply Z.div_unique with (d1 - 0x40); lia).
  replace (((d0 - b) * 192 + (d1 - 64)) `mod` 192) with (d1 - 0x40)
    by (apply Z.mod_unique with (d0 - b); lia).
  assert (Hw : (if (d0 - b) * 256 + (d1 - 64) <? 7936 then (d0 - b) * 256 + (d1 - 64) + 33088
                else (d0 - b) * 256 + (d1 - 64) + 49472) = d0 * 256 + d1).
  { unfold b in *. clear u Hu b. repeat case_bool; lia. }
  rewrite Hw. f_equal; [|f_equal].
  - symmetry. apply Z.div_unique with d1; lia.
  - symmetry. apply Z.mod_unique with d0; lia.
Qed.

Lemma decode_kanji_spec fuel data l :
  Forall is_byte data → kanji_valid data = true → kanji_trail_ok data = true →
  (length data < 2 * fuel)%nat →
  decode_kanji fuel (Z.of_nat (length data) `div` 2) (kanji_bits data ++ l) = Some (data, l).
Proof.
  revert data. induction fuel as [|fuel IH]; intros data Hb Hv Ht Hf; [lia|].
  destruct data as [|a [|b data]]; cbn [decode_kanji]; [done|done|].
  cbn [kanji_valid kanji_trail_ok] in Hv, Ht. rewrite andb_true_iff in Hv, Ht.
  destruct Hv as [Hk Hv], Ht as [Hb1 Ht]. rewrite !Forall_cons in Hb. destruct Hb as (Ha & Hbb & Hb).
  destruct (kanji_bytes_value a b Ha Hbb Hk ltac:(lia)) as [Ek Hr].
  replace (Z.of_nat (length (a :: b :: data)) `div` 2) with (Z.of_nat (length data) `div` 2 + 1).
  2:{ replace (Z.of_nat (length (a :: b :: data))) with (Z.of_nat (length data) + 1 * 2)
        by (simpl length; lia). by rewrite Z.div_add by lia. }
  pose proof (Z.div_pos (Z.of_nat (length data)) 2 ltac:(lia) ltac:(lia)).
  destruct (Z.leb_spec (Z.of_nat (length data) `div` 2 + 1) 0); [lia|].
  cbn [kanji_bits]. rewrite <- app_assoc, take_bits_app by done. cbn [mbind option_bind].
  rewrite Z.add_simpl_r, IH by (done || (simpl in Hf; lia)). cbn [mbind option_bind]. by rewrite Ek.
Qed.

(** ** Segments *)

(** A character count that its indicator can say. *)
Definition count_fits (v : Z) (mode : QRencodeMode) (data : list Z) : Prop :=
  char_count mode data < 2 ^ QRspec_lengthIndicator mode v.

Lemma char_count_nonneg mode data : 0 ≤ char_count mode data ≤ Z.of_nat (length data).
Proof.
  unfold char_count. destruct (bool_decide _); [|lia].
  pose proof (Z.div_pos (Z.of_nat (length data)) 2).
  pose proof (Z.div_le_upper_bound (Z.of_nat (length data)) 2 (Z.of_nat (length data))). lia.
Qed.

Lemma decode_chars_spec mode data l :
  QRinput_isSplittableMode mode = true → decodable mode data = true → Forall is_byte data →
  decode_chars mode (char_count mode data) (data_bits mode data ++ l) = Some (data, l).
Proof.
  intros Hm Hd Hb. destruct mode; try done; unfold decode_chars; cbn [data_bits decodable] in *.
  - change (char_count QR_MODE_NUM data) with (Z.of_nat (length data)).
    apply decode_num_spec; [done|lia].
  - change (char_count QR_MODE_AN data) with (Z.of_nat (length data)).
    apply decode_an_spec; [done|lia].
  - change (char_count QR_MODE_8 data) with (Z.of_nat (length data)).
    apply decode_8_spec; [done|lia].
  - rewrite andb_true_iff in Hd. destruct Hd as [Hv Ht].
    change (char_count QR_MODE_KANJI data) with (Z.of_nat (length data) `div` 2).
    apply decode_kanji_spec; [done..|].
    pose proof (Z.div_mod (Z.of_nat (length data)) 2 ltac:(lia)).
    pose proof (Z.mod_pos_bound (Z.of_nat (length data)) 2 ltac:(lia)). lia.
Qed.

Lemma decode_data_spec mode v data l :
  QRinput_isSplittableMode mode = true → decodable mode data = true → Forall is_byte data →
  count_fits v mode data →
  decode_data mode v
    (to_bits (Z.to_nat (QRspec_lengthIndicator mode v)) (char_count mode data)
     ++ data_bits mode data ++ l) = Some (data, l).
Proof.
  intros Hm Hd Hb Hc. pose proof (lengthIndicator_bounds mode v Hm).
  pose proof (char_count_nonneg mode data). unfold decode_data.
  rewrite take_bits_app by (rewrite Z2Nat.id by lia; unfold count_fits in Hc; lia).
  by apply decode_chars_spec.
Qed.

Lemma bytes_of_eci d0 d1 d2 d3 :
  is_byte d0 → is_byte d1 → is_byte d2 → is_byte d3 →
  eci_bytes (eci_value [d0; d1; d2; d3]) = [d0; d1; d2; d3].
Proof.
  intros H0 H1 H2 H3. unfold eci_bytes, eci_value, is_byte in *.
  change (nthZ [d0; d1; d2; d3] 0) with d0. change (nthZ [d0; d1; d2; d3] 1) with d1.
  change (nthZ [d0; d1; d2; d3] 2) with d2. change (nthZ [d0; d1; d2; d3] 3) with d3.
  set (n := d0 + 256 * d1 + 65536 * d2 + 16777216 * d3).
  replace (n `div` 256) with (d1 + 256 * d2 + 65536 * d3) by (apply Z.div_unique with d0; lia).
  replace (n `div` 65536) with (d2 + 256 * d3) by (apply Z.div_unique with (d0 + 256 * d1); lia).
  replace (n `div` 16777216) with d3 by (apply Z.div_unique with (d0 + 256 * d1 + 65536 * d2); lia).
  f_equal; [symmetry; apply Z.mod_unique with (d1 + 256 * d2 + 65536 * d3); lia|].
  f_equal; [symmetry; apply Z.mod_unique with (d2 + 256 * d3); lia|].
  f_equal; [symmetry; apply Z.mod_unique with d3; lia|].
  f_equal. apply Z.mod_small. lia.
Qed.

Lemma to_bits_split (n m : nat) v : to_bits (n + m) v = to_bits n (Z.shiftr v (Z.of_nat m)) ++ to_bits m v.
Proof.
  induction n as [|n IH]; [done|]. cbn [Nat.add to_bits app]. rewrite IH, Z.shiftr_spec by lia.
  do 3 f_equal. lia.
Qed.

Lemma decode_eci_spec data l :
  length data = 4%nat → Forall is_byte data → eci_value data < 16384 →
  decode_eci (drop 4 (eci_bits data) ++ l) = Some (data, l).
Proof.
  intros Hlen Hb Hn. destruct data as [|d0 [|d1 [|d2 [|d3 [|]]]]]; try done.
  rewrite !Forall_cons in Hb. destruct Hb as (H0 & H1 & H2 & H3 & _).
  pose proof (bytes_of_eci d0 d1 d2 d3 H0 H1 H2 H3) as Eb.
  assert (Hpos : 0 ≤ eci_value [d0; d1; d2; d3]).
  { unfold eci_value, is_byte in *. change (nthZ [d0; d1; d2; d3] 0) with d0.
    change (nthZ [d0; d1; d2; d3] 1) with d1. change (nthZ [d0; d1; d2; d3] 2) with d2.
    change (nthZ [d0; d1; d2; d3] 3) with d3. lia. }
  unfold eci_bits. set (n := eci_value _) in *.
  change (drop 4 (to_bits 4 7 ++ ?x)) with x.
  destruct (Z.ltb_spec n 128).
  - rewrite (to_bits_split 1 7), <- app_assoc.
    assert (E : Z.shiftr n (Z.of_nat 7) = 0)
      by (rewrite Z.shiftr_div_pow2 by lia; apply Z.div_small; done).
    rewrite E. change (to_bits 1 0) with [0]. cbn [app decode_eci].
    rewrite take_bits_app by done. cbn [mbind option_bind]. by rewrite Eb.
  - replace (n <? 16384) with true by lia.
    rewrite (to_bits_split 2 14), <- app_assoc.
    assert (E : Z.shiftr (0x8000 + n) (Z.of_nat 14) = 2).
    { rewrite Z.shiftr_div_pow2 by lia. symmetry. apply Z.div_unique with n; lia. }
    rewrite E. change (to_bits 2 2) with [1; 0]. cbn [app decode_eci].
    assert (E2 : to_bits 14 (0x8000 + n) = to_bits 14 n).
    { destruct (to_bits_mod 14 (0x8000 + n) 0) as [<-|?]; [|lia].
      replace ((0x8000 + n) `mod` 2 ^ (Z.of_nat 14 + 0)) with n; [done|].
      apply Z.mod_unique with 2; lia. }
    rewrite E2, take_bits_app by lia. cbn [mbind option_bind]. by rewrite Eb.
Qed.

Lemma decode_structure_spec data l :
  Forall is_byte data → decodable QR_MODE_STRUCTURE data = true →
  decode_structure (drop 4 (structure_bits data) ++ l) = Some (data, l).
Proof.
  intros Hb Hd. cbn [decodable] in Hd. destruct data as [|d0 [|d1 [|d2 [|]]]]; try done.
  unfold structure_bits. change (nthZ [d0; d1; d2] 0) with d0 in *.
  change (nthZ [d0; d1; d2] 1) with d1 in *. change (nthZ [d0; d1; d2] 2) with d2 in *.
  change (length [d0; d1; d2] =? 3)%nat with true in Hd.
  change (drop 4 (to_bits 4 3 ++ ?x)) with x. unfold decode_structure.
  rewrite !Forall_cons in Hb. destruct Hb as (H0 & H1 & H2 & _).
  rewrite <- !app_assoc, take_bits_app by lia. cbn [mbind option_bind].
  rewrite take_bits_app by lia. cbn [mbind option_bind].
  rewrite take_bits_app by done. cbn [mbind option_bind].
  do 3 f_equal; [lia|f_equal; lia].
Qed.

(** Decoding the segment of a chunk, mode indicator included. *)
Lemma decode_leaf v mode data l :
  Forall is_byte data → decodable mode data = true →
  (QRinput_isSplittableMode mode = true → count_fits v mode data) →
  ∃ rest, leaf_bits false v mode data ++ l = to_bits 4 (mode_id mode) ++ rest ∧
    1 ≤ mode_id mode < 16 ∧ decode_segment (mode_id mode) v rest = Some (mode, data, l).
Proof.
  intros Hb Hd Hc. unfold leaf_bits.
  destruct mode; try done; try (specialize (Hc eq_refl)).
  1-4: (unfold segment; rewrite <- !app_assoc; eexists; split; [done|]; split; [done|];
        cbn [mode_id decode_segment]; by rewrite decode_data_spec).
  - exists (drop 4 (structure_bits data) ++ l). split; [done|]. split; [done|].
    cbn [mode_id decode_segment]. by rewrite decode_structure_spec.
  - cbn [decodable] in Hd. rewrite andb_true_iff in Hd. destruct Hd as [Hlen%Nat.eqb_eq Hn%Z.ltb_lt].
    exists (drop 4 (eci_bits data) ++ l). split; [done|]. split; [done|].
    cbn [mode_id decode_segment]. by rewrite decode_eci_spec.
  - destruct data as [|d [|]]; try done. rewrite Forall_singleton in Hb.
    exists (to_bits 8 d ++ l). split; [done|]. split; [done|].
    cbn [mode_id decode_segment]. by rewrite take_bits_app.
Qed.

(** ** Streams *)

(** The bits after the last segment: fewer than four, or a zero indicator. *)
Definition is_end (l : list Z) : Prop := (length l < 4)%nat ∨ take 4 l = [0; 0; 0; 0].

Lemma decode_end fuel v l : is_end l → (0 < fuel)%nat → decode_segments fuel v l = Some [].
Proof.
  intros He Hf. destruct fuel as [|fuel]; [lia|]. cbn [decode_segments]. unfold take_bits.
  destruct (Nat.leb_spec 4 (length l)); [|done]. destruct He as [?|E]; [lia|]. by rewrite E.
Qed.

(** A list of segments in sequence. *)
Definition segments_bits (v : Z) (segs : list (QRencodeMode * list Z)) : list Z :=
  segs ≫= λ '(mode, d), leaf_bits false v mode d.

Lemma decode_segments_spec fuel v segs tl :
  Forall (λ '(mode, d), Forall is_byte d ∧ decodable mode d = true ∧
    (QRinput_isSplittableMode mode = true → count_fits v mode d)) segs →
  is_end tl → (length segs < fuel)%nat →
  decode_segments fuel v (segments_bits v segs ++ tl) = Some segs.
Proof.
  intros Hsegs Hend. revert fuel.
  induction Hsegs as [|[mode d] segs (Hb & Hd & Hc) _ IH]; intros fuel Hf.
  { by apply decode_end. }
  destruct fuel as [|fuel]; [simpl in Hf; lia|]. unfold segments_bits. cbn [mbind list_bind].
  rewrite <- app_assoc.
  destruct (decode_leaf v mode d (segments_bits v segs ++ tl) Hb Hd Hc) as (rest & E & Hid & Hdec).
  unfold segments_bits in E. rewrite E. cbn [decode_segments].
  rewrite take_bits_app by lia. replace (mode_id mode =? 0) with false by lia.
  rewrite Hdec. cbn [mbind option_bind].
  unfold segments_bits in IH. rewrite IH by (simpl in Hf; lia). done.
Qed.

Lemma leaf_bits_length v mode d : (0 < length (leaf_bits false v mode d))%nat.
Proof.
  unfold leaf_bits, segment, structure_bits, eci_bits, fnc1second_bits.
  destruct mode; rewrite length_app, length_to_bits; lia.
Qed.

Lemma segments_bits_length v segs : (length segs ≤ length (segments_bits v segs))%nat.
Proof.
  induction segs as [|[mode d] segs IH]; [done|]. unfold segments_bits in *. cbn [mbind list_bind].
  rewrite length_app. pose proof (leaf_bits_length v mode d). simpl length at 1. lia.
Qed.

(** Padding ends the stream. *)
Lemma padded_end n l :
  Z.of_nat (length l) ≤ n * 8 → ∃ tl, padded n l = l ++ tl ∧ is_end tl.
Proof.
  intros H. unfold padded. set (bits := Z.of_nat (length l)) in *.
  destruct (Z.leb_spec (n * 8 - bits) 4) as [Hle|Hgt].
  - eexists. split; [done|]. destruct (decide (n * 8 - bits = 4)) as [->|]; [by right|].
    left. rewrite length_replicate. lia.
  - eexists. split; [done|]. right. set (words := (bits + 11) `div` 8).
    assert (Hw : 4 ≤ words * 8 - bits).
    { unfold words. pose proof (Z.div_mod (bits + 11) 8 ltac:(lia)).
      pose proof (Z.mod_pos_bound (bits + 11) 8 ltac:(lia)). lia. }
    rewrite take_app_le by (rewrite length_replicate; lia).
    rewrite take_replicate. by replace (4 `min` Z.to_nat (words * 8 - bits))%nat with 4%nat by lia.
Qed.

(** ** Chunks *)

Lemma chunk_depth_forall (P : list Z → Prop) depth n l :
  (∀ l, P l → (0 < n < length l)%nat → P (take n l) ∧ P (drop n l)) → P l →
  Forall (λ c, P c ∧ (n = 0 ∨ length c ≤ n)%nat) (chunk_depth depth n l).
Proof.
  intros Hsplit. revert l. induction depth as [|depth IH]; intros l Hl; cbn [chunk_depth].
  - destruct ((n =? 0)%nat || (length l <=? n)%nat) eqn:E; [|constructor].
    apply Forall_singleton. split; [done|]. apply orb_true_iff in E as [E%Nat.eqb_eq|E%Nat.leb_le]; auto.
  - destruct ((n =? 0)%nat || (length l <=? n)%nat) eqn:E.
    + apply Forall_singleton. split; [done|]. apply orb_true_iff in E as [E%Nat.eqb_eq|E%Nat.leb_le]; auto.
    + apply orb_false_iff in E as [E0%Nat.eqb_neq E1%Nat.leb_gt].
      destruct (Hsplit l Hl ltac:(lia)) as [Ht Hd]. constructor; [|by apply IH].
      split; [done|]. right. rewrite length_take. lia.
Qed.

Lemma chunk_depth_concat depth n l :
  (length l ≤ depth)%nat → (n ≠ 0)%nat → mjoin (chunk_depth depth n l) = l.
Proof.
  revert l. induction depth as [|depth IH]; intros l Hl Hn; cbn [chunk_depth].
  - destruct l; [|simpl in Hl; lia]. by rewrite orb_comm.
  - destruct ((n =? 0)%nat || (length l <=? n)%nat) eqn:E; [simpl; apply app_nil_r|].
    apply orb_false_iff in E as [_ E1%Nat.leb_gt].
    cbn [mjoin list_join]. rewrite IH; [apply take_drop|rewrite length_drop; lia|done].
Qed.

Lemma kanji_trail_app l1 l2 (n : nat) :
  length l1 = (2 * n)%nat → kanji_trail_ok (l1 ++ l2) = kanji_trail_ok l1 && kanji_trail_ok l2.
Proof.
  revert l1. induction n as [|n IH]; intros l1 Hl.
  - by destruct l1.
  - destruct l1 as [|a [|b l1]]; simpl in Hl; try lia.
    cbn [app kanji_trail_ok]. rewrite (IH l1) by lia. by rewrite andb_assoc.
Qed.

Lemma decodable_split mode data n :
  QRinput_isSplittableMode mode = true → decodable mode data = true →
  (mode = QR_MODE_KANJI → ∃ k : nat, n = (2 * k)%nat) → (n ≤ length data)%nat →
  decodable mode (take n data) = true ∧ decodable mode (drop n data) = true.
Proof.
  intros Hm Hd Hk Hn. rewrite <- (take_drop n data) in Hd. destruct mode; try done; cbn [decodable] in *.
  - by rewrite forallb_app, andb_true_iff in Hd.
  - by rewrite forallb_app, andb_true_iff in Hd.
  - destruct (Hk eq_refl) as [k Ek].
    rewrite (kanji_valid_app _ _ k), (kanji_trail_app _ _ k) in Hd by (rewrite length_take; lia).
    rewrite !andb_true_iff in *. tauto.
Qed.

Lemma chunk_size_kanji v : ∃ k : nat, chunk_size v QR_MODE_KANJI = (2 * k)%nat.
Proof.
  exists (Z.to_nat (2 ^ QRspec_lengthIndicator QR_MODE_KANJI v - 1)). unfold chunk_size.
  rewrite maximumWords_value, decide_True by done.
  pose proof (lengthIndicator_bounds QR_MODE_KANJI v eq_refl).
  pose proof (Z.pow_pos_nonneg 2 (QRspec_lengthIndicator QR_MODE_KANJI v)). lia.
Qed.

(** Every chunk can be decoded: its length fits the indicator. *)
Lemma entry_segments_ok v e :
  Forall is_byte (e_data e) → decodable (e_mode e) (e_data e) = true →
  Forall (λ '(mode, d), Forall is_byte d ∧ decodable mode d = true ∧
    (QRinput_isSplittableMode mode = true → count_fits v mode d)) (entry_segments v e).
Proof.
  intros Hb Hd. unfold entry_segments, chunks. apply Forall_fmap.
  set (n := chunk_size v (e_mode e)).
  eapply Forall_impl.
  - apply (chunk_depth_forall (λ d, Forall is_byte d ∧ decodable (e_mode e) d = true)); [|done].
    intros l [Hlb Hld] Hlen. destruct (QRinput_isSplittableMode (e_mode e)) eqn:Em.
    + destruct (decodable_split (e_mode e) l n Em Hld) as [H1 H2]; [|lia|].
      * intros Ek. unfold n. rewrite Ek. apply chunk_size_kanji.
      * split; split; auto using Forall_take, Forall_drop.
    + assert (n = 0%nat); [|lia]. unfold n, chunk_size, QRspec_maximumWords. by rewrite Em.
  - intros d [[Hdb Hdd] Hn]. unfold compose. split; [done|]. split; [done|]. intros Em.
    pose proof (maximumWords_bounds (e_mode e) v Em) as Hmax.
    destruct Hn as [Hn|Hn]; [unfold n, chunk_size in Hn; lia|].
    unfold n, chunk_size in Hn. rewrite maximumWords_value in Hn, Hmax by done.
    pose proof (lengthIndicator_bounds _ v Em).
    pose proof (Z.pow_pos_nonneg 2 (QRspec_lengthIndicator (e_mode e) v)).
    unfold count_fits, char_count. destruct (decide (e_mode e = QR_MODE_KANJI)) as [Ek|Ek].
    + rewrite bool_decide_true by done. apply Z.div_lt_upper_bound; lia.
    + rewrite bool_decide_false by done. lia.
Qed.

Lemma entry_bits_segments v e :
  entry_bits false v (e_mode e) (e_data e) = segments_bits v (entry_segments v e).
Proof.
  unfold entry_bits, segments_bits, entry_segments. by rewrite list_fmap_bind.
Qed.

Lemma stream_segments v es :
  stream false v es = segments_bits v (es ≫= entry_segments v).
Proof.
  unfold stream. induction es as [|e es IH]; [done|]. cbn [mbind list_bind].
  unfold segments_bits. rewrite bind_app. f_equal; [apply entry_bits_segments|]. exact IH.
Qed.

(** The decoder recovers the segments from the padded stream. *)
Lemma decode_padded v n es :
  Forall (λ e, Forall is_byte (e_data e) ∧ decodable (e_mode e) (e_data e) = true) es →
  Z.of_nat (length (stream false v es)) ≤ n * 8 →
  decode_stream v (padded n (stream false v es)) = Some (es ≫= entry_segments v).
Proof.
  intros Hes Hfit. destruct (padded_end n _ Hfit) as (tl & E & Hend).
  unfold decode_stream. rewrite E, stream_segments. apply decode_segments_spec; [|done|].
  - apply Forall_bind. eapply Forall_impl; [exact Hes|]. intros e [Hb Hd].
    by apply entry_segments_ok.
  - pose proof (segments_bits_length v (es ≫= entry_segments v)). rewrite length_app. lia.
Qed.

(** The data of an entry is the concatenation of its segments. *)
Lemma entry_segments_data v e :
  QRinput_isSplittableMode (e_mode e) = true →
  mjoin (snd <$> entry_segments v e) = e_data e.
Proof.
  intros Hm. unfold entry_segments. rewrite <- list_fmap_compose.
  replace ((snd ∘ pair (e_mode e)) <$> chunks (chunk_size v (e_mode e)) (e_data e))
    with (chunks (chunk_size v (e_mode e)) (e_data e)).
  - apply chunk_depth_concat; [done|]. pose proof (maximumWords_bounds (e_mode e) v Hm).
    unfold chunk_size. lia.
  - symmetry. apply list_fmap_id.
Qed.
