(* ===== verification/QREncode.v ===== *)
(** * Symbol construction (qrencode.c)

    The code words of a symbol: Reed-Solomon blocks and their interleaving
    ([QRRawCode], [MQRRawCode]), their placement along the walk of the filler,
    masking, and the entry points that encode one input object. *)

From S2P Require Import Prelude CModel RSCode QRSpec MQRSpec FrameFiller Mask MMask QRInput.

(** ** Raw code *)

(** A block points into [datacode] and [ecccode] of its raw code; [None] is the
    null pointer of a block that [calloc] has cleared. *)
Record RSblock := MkBlock {
  rb_dataLength : Z;
  rb_data : option Z;
  rb_eccLength : Z;
  rb_ecc : option Z
}.

Record QRRawCode := MkRaw {
  raw_version : Z;
  raw_dataLength : Z;
  raw_eccLength : Z;
  raw_datacode : list Z;
  raw_ecccode : carray;
  raw_b1 : Z;
  raw_blocks : Z;
  raw_rsblock : list RSblock;
  raw_count : Z
}.

Definition sizeof_RSblock : Z := 32.
Definition sizeof_QRRawCode : Z := 56.
Definition sizeof_MQRRawCode : Z := 48.

(** [encode_rs_char(rs, data + dp, ecc + ep)] writes its result in place. *)
Definition RSblock_initBlock (dl : Z) (data : list Z) (dp el : Z) (ecc : carray) (ep : Z) (rs : RS)
    : outcome (RSblock * carray) :=
  parity ← encode_rs_char rs (drop (Z.to_nat dp) data);
  ecc ← for_range 0 (rs_nroots rs) (λ k, aset (ep + k) (nthZ parity k)) ecc;
  mret (MkBlock dl (Some dp) el (Some ep), ecc).

(** The variables of the loops of [RSblock_init]: the blocks, the index of
    [block], [dp], [ep] and the buffer of parity bytes. *)
Record block_loop := MkLoop {
  bl_blocks : list RSblock;
  bl_block : Z;
  bl_dp : Z;
  bl_ep : Z;
  bl_ecc : carray
}.

Definition RSblock_init_loop (n dl el : Z) (data : list Z) (rs : RS) (st : block_loop)
    : outcome block_loop :=
  for_range 0 n (λ _ st,
    '(block, ecc) ← RSblock_initBlock dl data (bl_dp st) el (bl_ecc st) (bl_ep st) rs;
    if Z.of_nat (length (bl_blocks st)) <=? bl_block st then Undef
    else mret (MkLoop (<[Z.to_nat (bl_block st) := block]> (bl_blocks st)) (bl_block st + 1)
                 (bl_dp st + dl) (bl_ep st + el) ecc)) st.

Definition RSblock_init (blocks : list RSblock) (spec : EccSpec) (data : list Z) (ecc : carray)
    : M (list RSblock * carray) :=
  let dl := QRspec_rsDataCodes1 spec in
  let el := QRspec_rsEccCodes1 spec in
  rs ← init_rs 8 0x11d 0 1 el (255 - dl - el);
  st ← liftO (RSblock_init_loop (QRspec_rsBlockNum1 spec) dl el data rs (MkLoop blocks 0 0 0 ecc));
  if QRspec_rsBlockNum2 spec =? 0 then mret (bl_blocks st, bl_ecc st)
  else
    let dl := QRspec_rsDataCodes2 spec in
    let el := QRspec_rsEccCodes2 spec in
    rs ← init_rs 8 0x11d 0 1 el (255 - dl - el);
    st ← liftO (RSblock_init_loop (QRspec_rsBlockNum2 spec) dl el data rs st);
    mret (bl_blocks st, bl_ecc st).

Definition QRraw_new : SM QRinput QRRawCode :=
  _ ← lift (malloc sizeof_QRRawCode);
  datacode ← QRinput_getByteStream;
  input ← get;
  let spec := QRspec_getEccSpec (version input) (level input) in
  let eccLength := QRspec_rsEccLength spec in
  _ ← lift (malloc eccLength);
  let blocks := QRspec_rsBlockNum spec in
  _ ← lift (malloc (blocks * sizeof_RSblock));
  '(rsblock, ecccode) ← lift (RSblock_init (replicate (Z.to_nat blocks) (MkBlock 0 None 0 None))
                                spec datacode (anew eccLength));
  mret (MkRaw (version input) (QRspec_rsDataLength spec) eccLength datacode ecccode
          (QRspec_rsBlockNum1 spec) blocks rsblock 0).

Definition get_block (raw : QRRawCode) (row : Z) : outcome RSblock :=
  if 0 <=? row then deref (raw_rsblock raw !! Z.to_nat row) else Undef.

Definition count_one (raw : QRRawCode) : QRRawCode :=
  MkRaw (raw_version raw) (raw_dataLength raw) (raw_eccLength raw) (raw_datacode raw)
    (raw_ecccode raw) (raw_b1 raw) (raw_blocks raw) (raw_rsblock raw) (raw_count raw + 1).

Definition QRraw_getCode (raw : QRRawCode) : outcome (Z * QRRawCode) :=
  if raw_count raw <? raw_dataLength raw then
    let row := raw_count raw `mod` raw_blocks raw in
    let col := raw_count raw `div` raw_blocks raw in
    block0 ← get_block raw 0;
    let row := if rb_dataLength block0 <=? col then row + raw_b1 raw else row in
    block ← get_block raw row;
    data ← deref (rb_data block);
    ret ← readZ (raw_datacode raw) (data + col);
    mret (ret, count_one raw)
  else if raw_count raw <? raw_dataLength raw + raw_eccLength raw then
    let row := (raw_count raw - raw_dataLength raw) `mod` raw_blocks raw in
    let col := (raw_count raw - raw_dataLength raw) `div` raw_blocks raw in
    block ← get_block raw row;
    ecc ← deref (rb_ecc block);
    ret ← aget (raw_ecccode raw) (ecc + col);
    mret (ret, count_one raw)
  else mret (0, raw).

(** ** Raw code for Micro QR Code *)

Record MQRRawCode := MkMRaw {
  mraw_version : Z;
  mraw_dataLength : Z;
  mraw_eccLength : Z;
  mraw_datacode : list Z;
  mraw_ecccode : carray;
  mraw_rsblock : RSblock;
  mraw_oddbits : Z;
  mraw_count : Z
}.

Definition MQRraw_new : SM QRinput MQRRawCode :=
  _ ← lift (malloc sizeof_MQRRawCode);
  input ← get;
  let version := version input in
  let level := level input in
  let dataLength := MQRspec_getDataLength version level in
  let eccLength := MQRspec_getECCLength version level in
  let oddbits := dataLength * 8 - MQRspec_getDataLengthBit version level in
  datacode ← QRinput_getByteStream;
  _ ← lift (malloc eccLength);
  _ ← lift (malloc sizeof_RSblock);
  rs ← lift (init_rs 8 0x11d 0 1 eccLength (255 - dataLength - eccLength));
  '(rsblock, ecccode) ← lift (liftO (RSblock_initBlock dataLength datacode 0 eccLength
                                       (anew eccLength) 0 rs));
  mret (MkMRaw version dataLength eccLength datacode ecccode rsblock oddbits 0).

Definition mcount_one (raw : MQRRawCode) : MQRRawCode :=
  MkMRaw (mraw_version raw) (mraw_dataLength raw) (mraw_eccLength raw) (mraw_datacode raw)
    (mraw_ecccode raw) (mraw_rsblock raw) (mraw_oddbits raw) (mraw_count raw + 1).

Definition MQRraw_getCode (raw : MQRRawCode) : outcome (Z * MQRRawCode) :=
  if mraw_count raw <? mraw_dataLength raw then
    ret ← readZ (mraw_datacode raw) (mraw_count raw);
    mret (ret, mcount_one raw)
  else if mraw_count raw <? mraw_dataLength raw + mraw_eccLength raw then
    ret ← aget (mraw_ecccode raw) (mraw_count raw - mraw_dataLength raw);
    mret (ret, mcount_one raw)
  else mret (0, raw).

(** ** QR-code encoding *)

Record QRcode := MkCode { code_version : Z; code_width : Z; code_data : carray }.

Definition sizeof_QRcode : Z := 16.

Definition QRcode_new (version width : Z) (data : carray) : M QRcode :=
  _ ← malloc sizeof_QRcode;
  mret (MkCode version width data).

(** The inner loops of the encoders: the [n] low bits of [code] from [bit] on,
    one module each. *)
Definition put_code (n bit code : Z) (st : carray * FrameFiller) : outcome (carray * FrameFiller) :=
  '(st, _) ← for_range 0 n (λ _ '(st, bit),
      st ← put_module (Z.lor 0x02 (b2z (truth (Z.land bit code)))) st;
      mret (st, Z.shiftr bit 1)) (st, bit);
  mret st.

Definition QRcode_encodeMask (mask : Z) : SM QRinput QRcode :=
  input ← get;
  if mqr input then lift (raise EINVAL)
  else if (version input <? 0) || (QRSPEC_VERSION_MAX <? version input) then lift (raise EINVAL)
  else if level_Z QR_ECLEVEL_H <? level_Z (level input) then lift (raise EINVAL)
  else
    raw ← QRraw_new;
    let version := raw_version raw in
    let width := QRspec_getWidth version in
    frame ← lift (QRspec_newFrame version);
    filler ← lift (FrameFiller_new width false);
    (* interleaved data and ecc codes *)
    '(_, st) ← lift (liftO (for_range 0 (raw_dataLength raw + raw_eccLength raw) (λ _ '(raw, st),
        '(code, raw) ← QRraw_getCode raw;
        st ← put_code 8 0x80 code st;
        mret (raw, st)) (raw, (frame, filler))));
    (* remainder bits *)
    '(frame, _) ← lift (liftO (for_range 0 (QRspec_getRemainder version)
        (λ _, put_module 0x02) st));
    (* masking *)
    input ← get;
    masked ← lift (if mask =? -2 then
        ok ← try_malloc (width * width);
        if ok : bool then liftO (amemcpy frame (width * width)) else undef (* memcpy to NULL *)
      else if mask <? 0 then Mask_mask width frame (level input)
      else Mask_makeMask width frame mask (level input));
    lift (QRcode_new version width masked).

Definition QRcode_encodeMaskMQR (mask : Z) : SM QRinput QRcode :=
  input ← get;
  if negb (mqr input) then lift (raise EINVAL)
  else if (version input <=? 0) || (MQRSPEC_VERSION_MAX <? version input) then lift (raise EINVAL)
  else if level_Z QR_ECLEVEL_Q <? level_Z (level input) then lift (raise EINVAL)
  else
    raw ← MQRraw_new;
    let version := mraw_version raw in
    let width := MQRspec_getWidth version in
    frame ← lift (MQRspec_newFrame version);
    filler ← lift (FrameFiller_new width true);
    (* interleaved data and ecc codes *)
    '(_, st) ← lift (liftO (for_range 0 (mraw_dataLength raw + mraw_eccLength raw) (λ i '(raw, st),
        '(code, raw) ← MQRraw_getCode raw;
        st ← (if truth (mraw_oddbits raw) && (i =? mraw_dataLength raw - 1)
              then put_code (mraw_oddbits raw) (u8 (Z.shiftl 1 (mraw_oddbits raw - 1))) code st
              else put_code 8 0x80 code st);
        mret (raw, st)) (raw, (frame, filler))));
    let '(frame, _) := st in
    (* masking *)
    input ← get;
    masked ← lift (if mask <? 0 then MMask_mask version frame (level input)
                   else MMask_makeMask version frame mask (level input));
    lift (QRcode_new version width masked).

Definition QRcode_encodeInput : SM QRinput QRcode :=
  input ← get;
  if mqr input then QRcode_encodeMaskMQR (-1) else QRcode_encodeMask (-1).

(** [None] is the null pointer; a string is given as its bytes before the
    terminator. *)
Definition QRcode_encodeDataReal (data : option (list Z)) (length version : Z) (level : QRecLevel)
    (mqr : bool) : M QRcode :=
  match data with
  | None => raise EINVAL
  | Some data =>
    if length =? 0 then raise EINVAL
    else
      input ← (if mqr then QRinput_newMQR version level else QRinput_new2 version level);
      '(code, _) ← run_on input (
        _ ← QRinput_append QR_MODE_8 length data;
        QRcode_encodeInput);
      mret code
  end.

Definition QRcode_encodeData (size : Z) (data : option (list Z)) (version : Z) (level : QRecLevel)
    : M QRcode :=
  QRcode_encodeDataReal data size version level false.

Definition QRcode_encodeString8bit (string : option (list Z)) (version : Z) (level : QRecLevel)
    : M QRcode :=
  match string with
  | None => raise EINVAL
  | Some s => QRcode_encodeDataReal string (Z.of_nat (length s)) version level false
  end.

Definition QRcode_encodeDataMQR (size : Z) (data : option (list Z)) (version : Z)
    (level : QRecLevel) : M QRcode :=
  QRcode_encodeDataReal data size version level true.

Definition QRcode_encodeString8bitMQR (string : option (list Z)) (version : Z) (level : QRecLevel)
    : M QRcode :=
  match string with
  | None => raise EINVAL
  | Some s => QRcode_encodeDataReal string (Z.of_nat (length s)) version level true
  end.

(** [QRcode_clearCache]: the control blocks and both frame caches. *)
Definition QRcode_clearCache : M unit :=
  _ ← QRspec_clearCache;
  _ ← MQRspec_clearCache;
  free_rs_cache.
