(* ===== verification/Blocks.v ===== *)
(** * Reed-Solomon blocks and their interleaving

    The contract of [QRRawCode] and [MQRRawCode]: the data code words are cut
    into blocks, every block with its parity is a code word of the
    Reed-Solomon code, and the raw code hands out the bytes of the blocks in
    the interleaved order of the standard. *)

From S2P Require Import Prelude CModel RSCode RSTheory QRSpec MQRSpec FrameFiller Caches.
From S2P Require Import QRInput QRInputTheory QREncode.

(** ** Reference definitions *)

(** The syndromes of a block with [n] parity symbols are zero. *)
Definition rs_codeword (n : Z) (l : list Z) : Prop :=
  ∀ i : nat, Z.of_nat i < n → poly_eval l (alpha_pow i) = 0.

(** The parity symbols of a block. *)
Definition rs_parity (n : Z) (data : list Z) : list Z :=
  default [] (outcome_value (encode_rs_char (qr_rs n (255 - Z.of_nat (length data) - n)) data)).

(** Size and position of the data of block [p]. *)
Definition block_length (s : EccSpec) (p : Z) : Z := if p <? spec0 s then spec1 s else spec4 s.

Definition block_offset (s : EccSpec) (p : Z) : Z :=
  if p <=? spec0 s then p * spec1 s else spec0 s * spec1 s + (p - spec0 s) * spec4 s.

Definition block_data (s : EccSpec) (D : list Z) (p : Z) : list Z :=
  take (Z.to_nat (block_length s p)) (drop (Z.to_nat (block_offset s p)) D).

Definition block_parity (s : EccSpec) (D : list Z) (p : Z) : list Z :=
  rs_parity (spec2 s) (block_data s D p).

Definition data_rows (s : EccSpec) (D : list Z) : list (list Z) :=
  block_data s D <$> range 0 (QRspec_rsBlockNum s).

Definition parity_rows (s : EccSpec) (D : list Z) : list (list Z) :=
  block_parity s D <$> range 0 (QRspec_rsBlockNum s).

(** The rows of a table read column by column, where a row may be shorter than
    others. *)
Fixpoint interleave (columns : nat) (rows : list (list Z)) : list Z :=
  match columns with
  | O => []
  | S columns => omap hd_error rows ++ interleave columns (List.tl <$> rows)
  end.

(** The code words of a symbol in the order of the standard. *)
Definition codewords (s : EccSpec) (D : list Z) : list Z :=
  interleave (Z.to_nat (spec1 s + 1)) (data_rows s D)
  ++ interleave (Z.to_nat (spec2 s)) (parity_rows s D).

(** Where the [c]-th byte of block [p] is found in that order. *)
Definition data_index (s : EccSpec) (p c : Z) : Z :=
  if c <? spec1 s then c * QRspec_rsBlockNum s + p
  else spec1 s * QRspec_rsBlockNum s + (p - spec0 s).

Definition parity_index (s : EccSpec) (p c : Z) : Z :=
  QRspec_rsDataLength s + c * QRspec_rsBlockNum s + p.

(** The blocks of a version and level: at least one, and each within the
    length of the Reed-Solomon code. *)
Record blocks_ok (s : EccSpec) : Prop := {
  bo_num1 : 1 ≤ spec0 s;
  bo_num2 : 0 ≤ spec3 s;
  bo_data : 1 ≤ spec1 s;
  bo_ecc : 1 ≤ spec2 s ≤ 30;
  bo_size : spec1 s + spec2 s < 255;
  bo_second : spec3 s = 0 ∨ (spec4 s = spec1 s + 1 ∧ spec4 s + spec2 s < 255)
}.

Lemma ecc_blocks_ok v level : 1 ≤ v ≤ 40 → blocks_ok (QRspec_getEccSpec v level).
Proof.
  intros Hv. destruct (ecc_spec_ok v level Hv) as (_ & _ & ? & ? & ? & ? & ? & ?). by split.
Qed.

(** ** Parity *)

Lemma foldM_ext {A S} (f g : A → S → outcome S) l s :
  (∀ x s, x ∈ l → f x s = g x s) → foldM f l s = foldM g l s.
Proof.
  revert s. induction l as [|x l IH]; intros s H; [done|]. cbn [foldM].
  rewrite H by left. destruct (g x s); [|done..]. apply IH. intros. apply H. by right.
Qed.

(** The encoder reads no more than the data of its block. *)
Lemma encode_rs_prefix rs n l :
  rs_nn rs - rs_nroots rs - rs_pad rs = Z.of_nat n →
  encode_rs_char rs (take n l) = encode_rs_char rs l.
Proof.
  intros Hn. unfold encode_rs_char. rewrite Hn. apply foldM_ext.
  intros i p Hi%elem_of_range. by rewrite readZ_take by lia.
Qed.

Lemma rs_parity_spec n data :
  1 ≤ n ≤ RS_NROOTS_MAX → 1 ≤ Z.of_nat (length data) → Z.of_nat (length data) + n ≤ 255 →
  Forall is_byte data →
  encode_rs_char (qr_rs n (255 - Z.of_nat (length data) - n)) data = Ret (rs_parity n data) ∧
  Z.of_nat (length (rs_parity n data)) = n ∧ Forall is_byte (rs_parity n data) ∧
  rs_codeword n (data ++ rs_parity n data).
Proof.
  intros Hn Hpos Hlen Hd. set (pad := 255 - Z.of_nat (length data) - n).
  destruct (encode_invariant (Z.to_nat n) pad (genpoly_of n) (qr_rs n pad) data)
    as (parity & E & H1 & H2 & H3).
  - apply qr_rs_for. lia.
  - by apply genpoly_monic.
  - lia.
  - done.
  - lia.
  - unfold rs_parity. fold pad. rewrite E. cbn. split; [done|]. split; [lia|]. split; [done|].
    intros i Hi. apply H3, genpoly_roots; [done|lia].
Qed.

(** ** Geometry of the blocks *)

Section geometry.
Context (s : EccSpec) (Hs : blocks_ok s).

Abbreviation N := (QRspec_rsBlockNum s).

Lemma block_offset_S p : 0 ≤ p < N → block_offset s (p + 1) = block_offset s p + block_length s p.
Proof.
  intros Hp. unfold block_offset, block_length.
  destruct (decide (p = spec0 s)) as [->|Hne]; repeat case_bool; lia.
Qed.

Lemma block_length_cases p :
  0 ≤ p < N → (p < spec0 s ∧ block_length s p = spec1 s)
              ∨ (spec0 s ≤ p ∧ block_length s p = spec1 s + 1 ∧ spec1 s + 1 + spec2 s < 255).
Proof.
  intros Hp. destruct Hs as [_ ? _ _ _ H]. unfold QRspec_rsBlockNum in Hp.
  unfold block_length. case_bool; [by left|]. right. lia.
Qed.

Lemma block_offset_range p :
  0 ≤ p < N → 0 ≤ block_offset s p ∧ block_offset s p + block_length s p ≤ QRspec_rsDataLength s.
Proof.
  intros Hp. pose proof (block_length_cases p Hp) as HL. destruct Hs.
  unfold block_offset, QRspec_rsDataLength, QRspec_rsBlockNum1, QRspec_rsBlockNum2,
    QRspec_rsDataCodes1, QRspec_rsDataCodes2, QRspec_rsBlockNum in *.
  destruct HL as [[Hlt ->]|(Hge & EL & _)].
  - replace (p <=? spec0 s) with true by lia.
    assert ((p + 1) * spec1 s ≤ spec0 s * spec1 s) by (apply Z.mul_le_mono_nonneg_r; lia).
    assert (0 ≤ spec3 s * spec4 s) by (destruct bo_second0 as [->|[-> _]]; nia). nia.
  - unfold block_length in *. replace (p <? spec0 s) with false in * by lia. rewrite EL in *.
    assert ((p - spec0 s + 1) * (spec1 s + 1) ≤ spec3 s * (spec1 s + 1))
      by (apply Z.mul_le_mono_nonneg_r; lia).
    case_bool; nia.
Qed.

Lemma block_params p : 0 ≤ p < N → 1 ≤ block_length s p ∧ block_length s p + spec2 s < 255.
Proof. intros Hp. destruct (block_length_cases p Hp) as [[_ ->]|(_ & -> & ?)]; destruct Hs; lia. Qed.

Context (D : list Z) (Hlen : Z.of_nat (length D) = QRspec_rsDataLength s) (HD : Forall is_byte D).

Lemma length_block_data p : 0 ≤ p < N → Z.of_nat (length (block_data s D p)) = block_length s p.
Proof.
  intros Hp. destruct (block_offset_range p Hp). unfold block_data.
  destruct (block_length_cases p Hp) as [[_ E]|(_ & E & _)]; destruct Hs;
    rewrite length_take, length_drop; lia.
Qed.

Lemma block_data_bytes p : Forall is_byte (block_data s D p).
Proof. by apply Forall_take, Forall_drop. Qed.

Lemma block_parity_spec p :
  0 ≤ p < N →
  encode_rs_char (qr_rs (spec2 s) (255 - block_length s p - spec2 s))
    (drop (Z.to_nat (block_offset s p)) D) = Ret (block_parity s D p) ∧
  Z.of_nat (length (block_parity s D p)) = spec2 s ∧ Forall is_byte (block_parity s D p) ∧
  rs_codeword (spec2 s) (block_data s D p ++ block_parity s D p).
Proof.
  intros Hp. pose proof (length_block_data p Hp) as HL. pose proof (block_params p Hp).
  destruct (rs_parity_spec (spec2 s) (block_data s D p)) as (E & H1);
    [destruct Hs; unfold RS_NROOTS_MAX; lia|lia|lia|apply block_data_bytes|].
  split; [|exact H1]. rewrite HL in E. unfold block_data in E.
  rewrite encode_rs_prefix in E; [exact E|]. cbn. lia.
Qed.
End geometry.

(** ** Interleaving *)

Lemma omap_head_full (rows : list (list Z)) :
  Forall (λ r, r ≠ []) rows → omap hd_error rows = (λ r, nthZ r 0) <$> rows.
Proof.
  induction 1 as [|[|x r] rows Hr _ IH]; [done|done|]. cbn. by f_equal.
Qed.

(** Columns in which every row has an entry. *)
Lemma interleave_full (n m : nat) rows k :
  (n ≤ m)%nat → Forall (λ r, n ≤ length r)%nat rows → (k < n * length rows)%nat →
  interleave m rows !! k
  = Some (nthZ (rows !!! (k mod length rows)%nat) (Z.of_nat (k / length rows))).
Proof.
  revert m rows k. induction n as [|n IH]; intros m rows k Hm Hr Hk; [lia|].
  destruct m as [|m]; [lia|]. cbn [interleave].
  assert (Hlen : (0 < length rows)%nat) by lia.
  rewrite omap_head_full.
  2:{ eapply Forall_impl; [exact Hr|]. intros [|]; simpl; [lia|done]. }
  destruct (decide (k < length rows)%nat) as [Hlt|Hge].
  - rewrite lookup_app_l by (by rewrite length_fmap).
    rewrite Nat.mod_small, Nat.div_small by done.
    destruct (lookup_lt_is_Some_2 rows k Hlt) as [r Er].
    by rewrite list_lookup_fmap, list_lookup_total_alt, Er.
  - rewrite lookup_app_r by (rewrite length_fmap; lia). rewrite length_fmap.
    rewrite (IH m); rewrite ?length_fmap; [|lia| |lia].
    2:{ apply Forall_fmap. eapply Forall_impl; [exact Hr|]. intros [|]; simpl; lia. }
    assert (Ek : k = (k - length rows + 1 * length rows)%nat) by lia.
    set (j := (k - length rows)%nat) in *.
    rewrite Ek, Nat.Div0.mod_add, Nat.div_add by lia.
    destruct (lookup_lt_is_Some_2 rows (j mod length rows)) as [r Er];
      [apply Nat.mod_upper_bound; lia|].
    rewrite !list_lookup_total_alt, list_lookup_fmap, Er. cbn. f_equal.
    pose proof (Forall_lookup_1 _ _ _ _ Hr Er) as Hl. destruct r; [simpl in Hl; lia|].
    unfold nthZ. rewrite !Nat2Z.id, Nat.add_1_r. done.
Qed.

Lemma interleave_drop (n m : nat) rows :
  (n ≤ m)%nat → Forall (λ r, n ≤ length r)%nat rows →
  ∃ l, interleave m rows = l ++ interleave (m - n) (drop n <$> rows) ∧
    length l = (n * length rows)%nat.
Proof.
  revert m rows. induction n as [|n IH]; intros m rows Hm Hr.
  { exists []. split; [|done]. rewrite Nat.sub_0_r. cbn. f_equal.
    rewrite <- (list_fmap_id rows) at 1. apply list_fmap_ext. by intros ? [|]. }
  destruct m as [|m]; [lia|]. cbn [interleave Nat.sub].
  destruct (IH m (List.tl <$> rows)) as (l & -> & Hl); [lia| |].
  { apply Forall_fmap. eapply Forall_impl; [exact Hr|]. intros [|]; simpl; lia. }
  exists (omap hd_error rows ++ l). split.
  - rewrite <- app_assoc, <- list_fmap_compose. do 3 f_equal.
    apply list_fmap_ext. intros ? [|] _; simpl; [by rewrite drop_nil|done].
  - rewrite length_app, Hl, length_fmap, omap_head_full, length_fmap; [lia|].
    eapply Forall_impl; [exact Hr|]. intros [|]; simpl; [lia|done].
Qed.

(** A last column of the rows from [b] on. *)
Lemma interleave_last (b : nat) rows k x :
  (∀ i r, rows !! i = Some r → length r = if decide (i < b)%nat then 0%nat else 1%nat) →
  rows !! (b + k)%nat = Some [x] → interleave 1 rows !! k = Some x.
Proof.
  cbn [interleave]. rewrite app_nil_r. revert b. induction rows as [|r rows IH]; intros b Hr Hk; [done|].
  destruct b as [|b].
  - rewrite omap_head_full.
    + change (0 + k)%nat with k in Hk. by rewrite list_lookup_fmap, Hk.
    + apply Forall_lookup_2. intros i r' Hi. specialize (Hr i r' Hi).
      rewrite decide_False in Hr by lia. by destruct r'.
  - pose proof (Hr 0%nat r eq_refl) as H0. rewrite decide_True in H0 by lia.
    destruct r; [|done]. cbn [omap list_omap hd_error]. apply (IH b); [|done].
    intros i r Hi. rewrite (Hr (S i) r Hi). repeat case_decide; done || lia.
Qed.

Lemma drop_last (l : list Z) (n : nat) :
  length l = S n → drop n l = [nthZ l (Z.of_nat n)].
Proof.
  intros Hl. destruct (lookup_lt_is_Some_2 l n) as [x Hx]; [lia|].
  rewrite (drop_S _ _ _ Hx), (nthZ_lookup _ _ x) by (by rewrite Nat2Z.id).
  by rewrite drop_ge by lia.
Qed.

(** ** Positions in the interleaved order *)

Section positions.
Context (s : EccSpec) (Hs : blocks_ok s).

Abbreviation N := (QRspec_rsBlockNum s).

Lemma blocks_positive : 1 ≤ N.
Proof. destruct Hs. unfold QRspec_rsBlockNum. lia. Qed.

Lemma length_rows (f : Z → list Z) : length (f <$> range 0 N) = Z.to_nat N.
Proof. rewrite length_fmap, range_seqZ, length_seqZ. f_equal. lia. Qed.

Lemma lookup_rows (f : Z → list Z) p : 0 ≤ p < N → (f <$> range 0 N) !! Z.to_nat p = Some (f p).
Proof.
  intros Hp. rewrite list_lookup_fmap, range_seqZ, lookup_seqZ_lt by lia. cbn. do 2 f_equal. lia.
Qed.

Lemma rows_forall (P : list Z → Prop) (f : Z → list Z) :
  (∀ p, 0 ≤ p < N → P (f p)) → Forall P (f <$> range 0 N).
Proof. intros H. apply Forall_fmap, Forall_forall. intros p Hp%elem_of_range. by apply H. Qed.

Lemma data_length_total : QRspec_rsDataLength s = spec1 s * N + spec3 s.
Proof.
  destruct Hs as [_ _ _ _ _ [E|[E _]]]; unfold QRspec_rsDataLength, QRspec_rsBlockNum,
    QRspec_rsBlockNum1, QRspec_rsBlockNum2, QRspec_rsDataCodes1, QRspec_rsDataCodes2; rewrite E; lia.
Qed.

(** A table with full columns at column [c] and row [p]. *)
Lemma interleave_at (f : Z → list Z) (n m : nat) p c :
  (n ≤ m)%nat → (∀ p, 0 ≤ p < N → (n ≤ length (f p))%nat) → 0 ≤ p < N → 0 ≤ c < Z.of_nat n →
  interleave m (f <$> range 0 N) !! Z.to_nat (c * N + p) = Some (nthZ (f p) c).
Proof.
  intros Hm Hf Hp Hc. pose proof blocks_positive.
  rewrite (interleave_full n); [|done|by apply rows_forall|].
  2:{ rewrite length_rows. assert ((c + 1) * N ≤ Z.of_nat n * N) by (apply Z.mul_le_mono_nonneg_r; lia).
      nia. }
  rewrite length_rows.
  assert (E : Z.to_nat (c * N + p) = (Z.to_nat p + Z.to_nat c * Z.to_nat N)%nat) by nia.
  rewrite E, Nat.Div0.mod_add, Nat.div_add, Nat.mod_small, Nat.div_small by lia.
  rewrite list_lookup_total_alt, lookup_rows by done. cbn. f_equal. f_equal. lia.
Qed.

Lemma length_interleave_full (f : Z → list Z) (n : nat) :
  (∀ p, 0 ≤ p < N → length (f p) = n) →
  length (interleave n (f <$> range 0 N)) = (n * Z.to_nat N)%nat.
Proof.
  intros Hf. destruct (interleave_drop n n (f <$> range 0 N)) as (l & -> & Hl); [done| |].
  { apply rows_forall. intros p Hp. by rewrite Hf. }
  rewrite Nat.sub_diag. cbn [interleave]. by rewrite app_nil_r, Hl, length_rows.
Qed.

Lemma data_index_range p c :
  0 ≤ p < N → 0 ≤ c < block_length s p → 0 ≤ data_index s p c < QRspec_rsDataLength s.
Proof.
  intros Hp Hc. rewrite data_length_total. pose proof blocks_positive.
  pose proof (bo_data _ Hs). pose proof (bo_num2 _ Hs).
  unfold data_index. destruct (Z.ltb_spec c (spec1 s)).
  - assert ((c + 1) * N ≤ spec1 s * N) by (apply Z.mul_le_mono_nonneg_r; lia). nia.
  - destruct (block_length_cases s Hs p Hp) as [[_ E]|(Hge & E & _)]; [lia|].
    unfold QRspec_rsBlockNum in *. nia.
Qed.

(** Every position belongs to a byte of a block. *)
Lemma data_index_onto k :
  0 ≤ k < QRspec_rsDataLength s →
  let p := if spec1 s <=? k `div` N then k `mod` N + spec0 s else k `mod` N in
  0 ≤ p < N ∧ 0 ≤ k `div` N < block_length s p ∧ data_index s p (k `div` N) = k.
Proof.
  intros Hk p. rewrite data_length_total in Hk. pose proof blocks_positive.
  pose proof (Z.div_mod k N ltac:(lia)) as Hdm. pose proof (Z.mod_pos_bound k N ltac:(lia)).
  pose proof (Z.div_pos k N ltac:(lia) ltac:(lia)). pose proof (bo_num1 _ Hs).
  pose proof (bo_num2 _ Hs).
  set (c := k `div` N) in *. set (r := k `mod` N) in *. clearbody c r. subst p.
  unfold data_index. destruct (Z.leb_spec (spec1 s) c).
  - assert (c = spec1 s) as ->.
    { assert (c < spec1 s + 1); [|lia]. apply (Z.mul_lt_mono_pos_r N); [lia|].
      unfold QRspec_rsBlockNum in *. nia. }
    assert (r < spec3 s) by nia.
    assert (Hr : 0 ≤ r + spec0 s < N) by (unfold QRspec_rsBlockNum; lia).
    destruct (block_length_cases s Hs (r + spec0 s) Hr) as [[? _]|(_ & E & _)]; [lia|].
    rewrite E. replace (spec1 s <? spec1 s) with false by lia. lia.
  - destruct (block_params s Hs r ltac:(lia)).
    destruct (block_length_cases s Hs r ltac:(lia)) as [[_ E]|(_ & E & _)]; rewrite E;
      replace (c <? spec1 s) with true by lia; lia.
Qed.

Lemma parity_index_onto k :
  0 ≤ k < QRspec_rsEccLength s →
  0 ≤ k `mod` N < N ∧ 0 ≤ k `div` N < spec2 s ∧
  parity_index s (k `mod` N) (k `div` N) = QRspec_rsDataLength s + k.
Proof.
  intros Hk. pose proof blocks_positive. unfold QRspec_rsEccLength, QRspec_rsEccCodes1 in Hk.
  pose proof (Z.div_mod k N ltac:(lia)). pose proof (Z.mod_pos_bound k N ltac:(lia)).
  pose proof (Z.div_pos k N ltac:(lia) ltac:(lia)).
  pose proof (Z.div_lt_upper_bound k N (spec2 s) ltac:(lia) ltac:(lia)).
  unfold parity_index. lia.
Qed.

Context (D : list Z) (Hlen : Z.of_nat (length D) = QRspec_rsDataLength s) (HD : Forall is_byte D).

Lemma nthZ_block_data p c :
  0 ≤ p < N → 0 ≤ c < block_length s p → nthZ (block_data s D p) c = nthZ D (block_offset s p + c).
Proof.
  intros Hp Hc. destruct (block_offset_range s Hs p Hp). unfold nthZ, block_data.
  rewrite !list_lookup_total_alt, lookup_take_lt, lookup_drop by lia.
  do 2 f_equal. lia.
Qed.

Lemma data_rows_lengths p :
  0 ≤ p < N → (Z.to_nat (spec1 s) ≤ length (block_data s D p))%nat.
Proof.
  intros Hp. pose proof (length_block_data s Hs D Hlen p Hp).
  destruct (block_length_cases s Hs p Hp) as [[_ ?]|(_ & ? & _)]; lia.
Qed.

Lemma length_interleaved_data :
  length (interleave (Z.to_nat (spec1 s + 1)) (data_rows s D)) = Z.to_nat (QRspec_rsDataLength s).
Proof.
  unfold data_rows. rewrite data_length_total. pose proof (bo_data _ Hs). pose proof (bo_num2 _ Hs).
  pose proof (bo_num1 _ Hs).
  destruct (interleave_drop (Z.to_nat (spec1 s)) (Z.to_nat (spec1 s + 1))
    (block_data s D <$> range 0 N)) as (l & -> & Hl); [lia|by apply rows_forall, data_rows_lengths|].
  rewrite length_app, Hl, length_rows. pose proof blocks_positive.
  replace (Z.to_nat (spec1 s + 1) - Z.to_nat (spec1 s))%nat with 1%nat by lia.
  cbn [interleave]. rewrite app_nil_r, <- list_fmap_compose.
  assert (E : ∀ (n : nat) lo, 0 ≤ lo → lo + Z.of_nat n = N →
    length (omap hd_error ((drop (Z.to_nat (spec1 s)) ∘ block_data s D) <$> seqZ lo (Z.of_nat n)))
    = Z.to_nat (N - Z.max lo (spec0 s))).
  { induction n as [|n IH]; intros lo Hlo HN.
    { rewrite seqZ_nil by lia. cbn [fmap list_fmap omap list_omap length].
      unfold QRspec_rsBlockNum in *. lia. }
    rewrite seqZ_cons, fmap_cons by lia.
    replace (Z.pred (Z.of_nat (S n))) with (Z.of_nat n) by lia.
    specialize (IH (Z.succ lo) ltac:(lia) ltac:(lia)). unfold compose at 1.
    pose proof (length_block_data s Hs D Hlen lo ltac:(lia)) as HL.
    assert (Hd : length (drop (Z.to_nat (spec1 s)) (block_data s D lo))
                 = Z.to_nat (block_length s lo - spec1 s)) by (rewrite length_drop; lia).
    destruct (block_length_cases s Hs lo ltac:(lia)) as [[? E']|(? & E' & _)]; rewrite E' in Hd;
      destruct (drop _ (block_data s D lo)); simpl in Hd; cbn [omap list_omap hd_error length];
      try lia; rewrite IH; lia. }
  rewrite range_seqZ. specialize (E (Z.to_nat N) 0 ltac:(lia) ltac:(lia)).
  rewrite Z2Nat.id in E by lia. rewrite Z.sub_0_r, E.
  unfold QRspec_rsBlockNum. nia.
Qed.

Lemma length_parity p : 0 ≤ p < N → length (block_parity s D p) = Z.to_nat (spec2 s).
Proof. intros Hp. destruct (block_parity_spec s Hs D Hlen HD p Hp) as (_ & H & _). lia. Qed.

Lemma length_codewords :
  Z.of_nat (length (codewords s D)) = QRspec_rsDataLength s + QRspec_rsEccLength s.
Proof.
  unfold codewords, parity_rows. rewrite length_app, length_interleaved_data.
  rewrite length_interleave_full by apply length_parity.
  pose proof blocks_positive. pose proof (bo_ecc _ Hs).
  unfold QRspec_rsEccLength, QRspec_rsEccCodes1. nia.
Qed.

(** The data code words. *)
Lemma codewords_data p c :
  0 ≤ p < N → 0 ≤ c < block_length s p →
  codewords s D !! Z.to_nat (data_index s p c) = Some (nthZ D (block_offset s p + c)).
Proof.
  intros Hp Hc. pose proof (data_index_range p c Hp Hc). unfold codewords.
  rewrite lookup_app_l by (rewrite length_interleaved_data; lia).
  rewrite <- nthZ_block_data by done. pose proof (bo_data _ Hs).
  pose proof blocks_positive. unfold data_rows, data_index. destruct (Z.ltb_spec c (spec1 s)).
  { apply (interleave_at _ (Z.to_nat (spec1 s))); [lia|apply data_rows_lengths|done|lia]. }
  destruct (interleave_drop (Z.to_nat (spec1 s)) (Z.to_nat (spec1 s + 1))
    (block_data s D <$> range 0 N)) as (l & -> & Hl); [lia|by apply rows_forall, data_rows_lengths|].
  rewrite length_rows in Hl.
  destruct (block_length_cases s Hs p Hp) as [[_ E]|(Hge & E & _)]; [lia|].
  rewrite lookup_app_r by nia. pose proof (bo_num1 _ Hs).
  replace (Z.to_nat (spec1 s * N + (p - spec0 s)) - length l)%nat
    with (Z.to_nat (p - spec0 s)) by nia.
  replace (Z.to_nat (spec1 s + 1) - Z.to_nat (spec1 s))%nat with 1%nat by lia.
  rewrite <- list_fmap_compose. apply (interleave_last (Z.to_nat (spec0 s))).
  - intros i r Hi. apply list_lookup_fmap_Some in Hi as (j & -> & Hj).
    rewrite range_seqZ in Hj. apply lookup_seqZ in Hj as [-> Hj]. unfold compose.
    rewrite length_drop. pose proof (length_block_data s Hs D Hlen (0 + Z.of_nat i) ltac:(lia)).
    destruct (block_length_cases s Hs (0 + Z.of_nat i) ltac:(lia)) as [[? E']|(? & E' & _)];
      case_decide; lia.
  - replace (Z.to_nat (spec0 s) + Z.to_nat (p - spec0 s))%nat with (Z.to_nat p) by lia.
    rewrite lookup_rows by done. unfold compose.
    pose proof (length_block_data s Hs D Hlen p Hp) as HL. rewrite E in HL.
    rewrite drop_last by lia. do 3 f_equal. lia.
Qed.

(** The parity code words. *)
Lemma codewords_parity p c :
  0 ≤ p < N → 0 ≤ c < spec2 s →
  codewords s D !! Z.to_nat (parity_index s p c) = Some (nthZ (block_parity s D p) c).
Proof.
  intros Hp Hc. pose proof blocks_positive. unfold codewords, parity_index, parity_rows.
  pose proof data_length_total as Ht.
  pose proof (bo_data _ Hs). pose proof (bo_num2 _ Hs).
  rewrite lookup_app_r by (rewrite length_interleaved_data; nia).
  rewrite length_interleaved_data.
  replace (Z.to_nat (QRspec_rsDataLength s + c * N + p) - Z.to_nat (QRspec_rsDataLength s))%nat
    with (Z.to_nat (c * N + p)) by nia.
  apply (interleave_at _ (Z.to_nat (spec2 s))); [done| |done|lia].
  intros q Hq. by rewrite length_parity.
Qed.

End positions.

(** ** The blocks of a raw code *)

Section raw_blocks.
Context (s : EccSpec) (Hs : blocks_ok s).
Context (D : list Z) (Hlen : Z.of_nat (length D) = QRspec_rsDataLength s) (HD : Forall is_byte D).

Abbreviation N := (QRspec_rsBlockNum s).

Definition block_at (p : Z) : RSblock :=
  MkBlock (block_length s p) (Some (block_offset s p)) (spec2 s) (Some (p * spec2 s)).

(** The first [j] blocks are set up and their parity bytes are stored. *)
Definition stored (j : Z) (blocks : list RSblock) (ecc : carray) : Prop :=
  length blocks = Z.to_nat N ∧ alen ecc = QRspec_rsEccLength s ∧
  (∀ p, 0 ≤ p < j → blocks !! Z.to_nat p = Some (block_at p)) ∧
  (∀ p c, 0 ≤ p < j → 0 ≤ c < spec2 s →
    acells ecc !! (p * spec2 s + c) = Some (nthZ (block_parity s D p) c)).

Definition loop_at (j : Z) (st : block_loop) : Prop :=
  bl_block st = j ∧ bl_dp st = block_offset s j ∧ bl_ep st = j * spec2 s ∧
  stored j (bl_blocks st) (bl_ecc st).

Lemma RSblock_initBlock_spec j blocks ecc :
  0 ≤ j < N → stored j blocks ecc →
  ∃ ecc', RSblock_initBlock (block_length s j) D (block_offset s j) (spec2 s) ecc (j * spec2 s)
      (qr_rs (spec2 s) (255 - block_length s j - spec2 s)) = Ret (block_at j, ecc') ∧
    stored (j + 1) (<[Z.to_nat j := block_at j]> blocks) ecc'.
Proof.
  intros Hj (Hb & Ha & Hblocks & Hecc). unfold RSblock_initBlock.
  destruct (block_parity_spec s Hs D Hlen HD j Hj) as (-> & Hpl & _). cbn [mbind outcome_bind].
  pose proof (bo_ecc _ Hs) as Hel. change (rs_nroots (qr_rs (spec2 s) _)) with (spec2 s).
  assert (Htot : (j + 1) * spec2 s ≤ QRspec_rsEccLength s).
  { unfold QRspec_rsEccLength, QRspec_rsEccCodes1. apply Z.mul_le_mono_nonneg_r; lia. }
  destruct (for_range_inv (λ k e, alen e = QRspec_rsEccLength s ∧ ∀ p c,
      (0 ≤ p < j ∧ 0 ≤ c < spec2 s ∨ p = j ∧ 0 ≤ c < k) →
      acells e !! (p * spec2 s + c) = Some (nthZ (block_parity s D p) c)) 0 (spec2 s)
      (λ k, aset (j * spec2 s + k) (nthZ (block_parity s D j) k)) ecc)
    as (ecc' & -> & Ha' & Hecc'); [lia| | |].
  - split; [done|]. intros p c [[? ?]|?]; [by apply Hecc|lia].
  - intros k [el em] Hk [Ha' He]. simpl in Ha'. subst el. rewrite aset_in by nia.
    eexists. split; [done|]. split; [done|]. intros p c Hpc. cbn [acells].
    destruct (decide (p = j ∧ c = k)) as [[-> ->]|Hne]; [by rewrite lookup_insert_eq|].
    rewrite lookup_insert_ne.
    + apply He. destruct Hpc as [|[-> ?]]; [by left|]. right. split; [done|].
      assert (c ≠ k) by naive_solver. lia.
    + destruct Hpc as [[? ?]|[-> ?]]; [nia|]. assert (c ≠ k) by naive_solver. lia.
  - cbn [mbind outcome_bind]. eexists. split; [done|]. split; [by rewrite length_insert|].
    split; [done|]. split.
    + intros p Hp. destruct (decide (p = j)) as [->|Hne].
      * apply list_lookup_insert_eq. rewrite Hb. lia.
      * rewrite list_lookup_insert_ne by lia. apply Hblocks. lia.
    + intros p c Hp Hc. apply Hecc'. destruct (decide (p = j)); [right|left]; lia.
Qed.

Lemma RSblock_init_loop_spec n j dl st :
  0 ≤ j → 0 ≤ n → j + n ≤ N → (∀ p, j ≤ p < j + n → block_length s p = dl) → loop_at j st →
  ∃ st', RSblock_init_loop n dl (spec2 s) D (qr_rs (spec2 s) (255 - dl - spec2 s)) st = Ret st' ∧
    loop_at (j + n) st'.
Proof.
  intros Hj Hn HN Hdl Hst. unfold RSblock_init_loop.
  apply (for_range_inv (λ i st, loop_at (j + i) st)); [lia|by rewrite Z.add_0_r|].
  intros i [blocks b dp ep ecc] Hi (Hb & Hdp & Hep & Hstored).
  cbn [bl_block bl_dp bl_ep bl_blocks bl_ecc] in *. subst b dp ep.
  pose proof (Hdl (j + i) ltac:(lia)) as Edl. rewrite <- Edl.
  destruct (RSblock_initBlock_spec (j + i) blocks ecc ltac:(lia) Hstored) as (ecc' & -> & Hs').
  cbn [mbind outcome_bind]. destruct Hstored as [Hbl _]. rewrite Hbl.
  rewrite Z2Nat.id, (proj2 (Z.leb_gt N (j + i))) by lia. eexists. split; [done|].
  rewrite Z.add_assoc. split; [done|]. split; [|split; [|exact Hs']]; cbn.
  - by rewrite block_offset_S by (done || lia).
  - lia.
Qed.

Lemma RSblock_init_spec E :
  spec caches_ok (RSblock_init (replicate (Z.to_nat N) (MkBlock 0 None 0 None)) s D
      (anew (QRspec_rsEccLength s)))
    (λ r, stored N r.1 r.2) E.
Proof.
  unfold RSblock_init, QRspec_rsDataCodes1, QRspec_rsEccCodes1, QRspec_rsBlockNum1,
    QRspec_rsBlockNum2, QRspec_rsDataCodes2, QRspec_rsEccCodes2.
  pose proof Hs as [? ? ? ? ? ?]. assert (HN : N = spec0 s + spec3 s) by done.
  eapply spec_bind; [apply init_rs_cached; unfold qr_params, RS_NROOTS_MAX; lia|]. intros ? ->.
  destruct (RSblock_init_loop_spec (spec0 s) 0 (spec1 s) (MkLoop
    (replicate (Z.to_nat N) (MkBlock 0 None 0 None)) 0 0 0 (anew (QRspec_rsEccLength s))))
    as (st & Est & Hst); [lia|lia|lia| | |].
  { intros p Hp. unfold block_length. by replace (p <? spec0 s) with true by lia. }
  { split; [done|]. split; [unfold block_offset; cbn; by replace (0 <=? spec0 s) with true by lia|].
    split; [done|]. split; [apply length_replicate|]. split; [done|]. split; lia. }
  eapply spec_bind; [eapply (spec_liftO _ _ (λ x, x = st)); [exact Est|done]|]. intros ? ->.
  destruct Hst as (Hb & Hdp & Hep & Hstored).
  destruct (Z.eqb_spec (spec3 s) 0) as [E3|E3].
  { apply spec_ret. cbn. replace N with (0 + spec0 s) by lia. done. }
  eapply spec_bind; [apply init_rs_cached; unfold qr_params, RS_NROOTS_MAX; lia|]. intros ? ->.
  destruct (RSblock_init_loop_spec (spec3 s) (0 + spec0 s) (spec4 s) st)
    as (st' & Est' & _ & _ & _ & Hstored'); [lia|lia|lia| |done|].
  { intros p Hp. unfold block_length. by replace (p <? spec0 s) with false by lia. }
  eapply spec_bind; [eapply (spec_liftO _ _ (λ x, x = st')); [exact Est'|done]|]. intros ? ->.
  apply spec_ret. cbn. by replace N with (0 + spec0 s + spec3 s) by lia.
Qed.
End raw_blocks.

(** ** The contract of a raw code *)

(** The raw code of version [v] that has handed out [k] code words. *)
Record raw_for (v : Z) (s : EccSpec) (D : list Z) (k : Z) (raw : QRRawCode) : Prop := {
  rf_version : raw_version raw = v;
  rf_dataLength : raw_dataLength raw = QRspec_rsDataLength s;
  rf_eccLength : raw_eccLength raw = QRspec_rsEccLength s;
  rf_datacode : raw_datacode raw = D;
  rf_b1 : raw_b1 raw = spec0 s;
  rf_blocks : raw_blocks raw = QRspec_rsBlockNum s;
  rf_stored : stored s D (QRspec_rsBlockNum s) (raw_rsblock raw) (raw_ecccode raw);
  rf_count : raw_count raw = k
}.

Lemma raw_for_next v s D k raw : raw_for v s D k raw → raw_for v s D (k + 1) (count_one raw).
Proof. intros []. split; try done. cbn. lia. Qed.

Section getCode.
Context (v : Z) (s : EccSpec) (Hs : blocks_ok s).
Context (D : list Z) (Hlen : Z.of_nat (length D) = QRspec_rsDataLength s) (HD : Forall is_byte D).

Abbreviation N := (QRspec_rsBlockNum s).

Lemma get_block_at k raw p :
  raw_for v s D k raw → 0 ≤ p < N → get_block raw p = Ret (block_at s p).
Proof.
  intros [] Hp. destruct rf_stored0 as (_ & _ & Hb & _). unfold get_block.
  rewrite (proj2 (Z.leb_le 0 p)) by lia. by rewrite Hb.
Qed.

(** The calls of [QRraw_getCode] give the code words in order, and 0 once
    they are exhausted. *)
Lemma QRraw_getCode_spec k raw :
  0 ≤ k < QRspec_rsDataLength s + QRspec_rsEccLength s → raw_for v s D k raw →
  QRraw_getCode raw = Ret (nthZ (codewords s D) k, count_one raw).
Proof.
  intros Hk Hraw. pose proof (blocks_positive s Hs) as HN.
  unfold QRraw_getCode. pose proof Hraw as [_ -> -> -> -> -> (_ & _ & _ & Hecc) ->].
  destruct (Z.ltb_spec k (QRspec_rsDataLength s)) as [Hlt|Hge].
  - destruct (data_index_onto s Hs k ltac:(lia)) as (Hp & Hc & E). cbv zeta in Hp, Hc, E.
    rewrite (get_block_at k raw 0) by (done || lia). cbn [mbind outcome_bind].
    change (rb_dataLength (block_at s 0)) with (block_length s 0).
    assert (E0 : block_length s 0 = spec1 s).
    { destruct (block_length_cases s Hs 0 ltac:(lia)) as [[_ ?]|(? & _)]; [done|].
      pose proof (bo_num1 _ Hs). lia. }
    rewrite E0. set (p := if spec1 s <=? k `div` N then _ else _) in *.
    rewrite (get_block_at k raw p) by done. cbn [mbind outcome_bind].
    change (rb_data (block_at s p)) with (Some (block_offset s p)). cbn [deref mbind outcome_bind].
    destruct (block_offset_range s Hs p Hp).
    pose proof (codewords_data s Hs D Hlen p _ Hp Hc) as Hcw. rewrite E in Hcw.
    destruct (readZ_lt D (block_offset s p + k `div` N)) as (x & Hx & ->); [lia|].
    cbn [mbind outcome_bind]. rewrite (nthZ_lookup _ _ _ Hcw), (nthZ_lookup _ _ _ Hx). done.
  - destruct (Z.ltb_spec k (QRspec_rsDataLength s + QRspec_rsEccLength s)); [|lia].
    set (j := k - QRspec_rsDataLength s).
    destruct (parity_index_onto s Hs j ltac:(lia)) as (Hp & Hc & E).
    rewrite (get_block_at k raw _ Hraw Hp). cbn [mbind outcome_bind].
    change (rb_ecc (block_at s (j `mod` N))) with (Some (j `mod` N * spec2 s)).
    cbn [deref mbind outcome_bind]. specialize (Hecc _ _ Hp Hc).
    pose proof (codewords_parity s Hs D Hlen HD _ _ Hp Hc) as Hcw. rewrite E in Hcw.
    replace (QRspec_rsDataLength s + j) with k in Hcw by lia.
    destruct (raw_ecccode raw) as [el em]. cbn [acells] in Hecc.
    rewrite (aget_Some _ _ _ _ Hecc). cbn [mbind outcome_bind].
    by rewrite (nthZ_lookup _ _ _ Hcw).
Qed.

Lemma QRraw_getCode_end k raw :
  QRspec_rsDataLength s + QRspec_rsEccLength s ≤ k → raw_for v s D k raw →
  QRraw_getCode raw = Ret (0, raw).
Proof.
  intros Hk []. unfold QRraw_getCode.
  rewrite rf_dataLength0, rf_eccLength0, rf_count0.
  assert (0 ≤ QRspec_rsEccLength s).
  { unfold QRspec_rsEccLength, QRspec_rsEccCodes1. pose proof (blocks_positive s Hs).
    pose proof (bo_ecc _ Hs). nia. }
  by rewrite !(proj2 (Z.ltb_ge _ _)) by lia.
Qed.
End getCode.

Lemma QRraw_new_spec i :
  mqr i = false → fnc1 i = 0 →
  Forall (encodable_entry false (version i)) (head i) → 0 ≤ version i ≤ 40 →
  sm_spec caches_ok QRraw_new i
    (λ raw i', ∃ u, version i ≤ u ≤ 40 ∧ 1 ≤ u ∧ i' = converted u i ∧ fits u i ∧
      raw_for u (QRspec_getEccSpec u (level i)) (byte_stream u i) 0 raw) (too_large i).
Proof.
  intros Hm Hf Hes Hv. unfold QRraw_new.
  eapply sm_lift_bind; [by apply (spec_malloc _ (λ _, True))|]. intros _ _.
  eapply sm_bind; [by apply getByteStream_spec|].
  intros D i' (u & Hu & Hu1 & -> & Hfits & ->). apply sm_get_bind.
  change (version (converted u i)) with u. change (level (converted u i)) with (level i).
  destruct (byte_stream_bits u i ltac:(lia) Hfits) as (HlD & HbD & _).
  pose proof (ecc_blocks_ok u (level i) ltac:(lia)) as Hs.
  destruct (ecc_spec_ok u (level i) ltac:(lia)) as (Edata & _).
  set (s := QRspec_getEccSpec u (level i)) in *. rewrite <- Edata in HlD.
  pose proof (blocks_positive s Hs). pose proof (bo_ecc _ Hs).
  eapply sm_lift_bind; [apply (spec_malloc _ (λ _, True)); [|done]|].
  { unfold QRspec_rsEccLength, QRspec_rsEccCodes1. nia. }
  intros _ _. eapply sm_lift_bind; [apply (spec_malloc _ (λ _, True)); [|done]|].
  { unfold sizeof_RSblock. lia. }
  intros _ _. eapply sm_lift_bind; [by apply (RSblock_init_spec s Hs _ HlD HbD)|].
  intros [blocks ecc] Hst. apply sm_ret. exists u. split_and!; [lia..|done|done|].
  by split.
Qed.
