(* ===== verification/Symbols.v ===== *)
(** * Symbols

    What the encoders of qrencode.c produce: the bits of the code words along
    the walk of the filler, under a mask, with the format information. The
    encoders either return this symbol or report why they cannot. *)

From S2P Require Import Prelude CModel BitStream RSCode RSTheory QRSpec MQRSpec FrameFiller.
From S2P Require Import Mask MaskTheory MMask Caches QRInput QRInputTheory QREncode Blocks.

(** ** Writing code words *)

(** The value of a data module. *)
Definition module_of (b : Z) : Z := Z.lor 0x02 b.

(** The inner loop of the encoders writes the bits of a code word. *)
Lemma put_code_spec (n : nat) code st :
  (0 < n ≤ 8)%nat →
  put_code (Z.of_nat n) (2 ^ (Z.of_nat n - 1)) code st
  = foldM put_module (module_of <$> to_bits n code) st.
Proof.
  intros Hn. unfold put_code.
  assert (H : ∀ (m : nat) lo st, (m ≤ n)%nat → (0 < m)%nat →
    ('(st, _) ← foldM (λ _ '(st, bit),
       st ← put_module (Z.lor 0x02 (b2z (truth (Z.land bit code)))) st;
       mret (st, Z.shiftr bit 1)) (count_up m lo) (st, 2 ^ (Z.of_nat m - 1)); mret st)
    = foldM put_module (module_of <$> to_bits m code) st).
  { induction m as [|m IH]; intros lo t Hm Hpos; [lia|]. cbn [count_up foldM to_bits fmap list_fmap].
    replace (Z.of_nat (S m) - 1) with (Z.of_nat m) by lia.
    rewrite Z.land_comm, truth_land_pow2 by lia. unfold module_of at 2.
    destruct (put_module _ t) as [t'| |]; [|done..]. cbn [mbind outcome_bind mret outcome_ret].
    destruct m as [|m]; [done|]. rewrite shiftr_pow2 by lia. apply IH; lia. }
  unfold for_range, range. rewrite Z.sub_0_r, Nat2Z.id. apply H; lia.
Qed.

(** The outer loop: [codes i] are the bits of the [i]-th code word, which the
    raw code in state [raw i] hands out. *)
Lemma code_loop {R} (body : Z → R * (carray * FrameFiller) → outcome (R * (carray * FrameFiller)))
    (raw : Z → R) (codes : Z → list Z) (n : nat) st :
  (∀ i st, 0 ≤ i < Z.of_nat n → body i (raw i, st)
     = (st' ← foldM put_module (module_of <$> codes i) st; mret (raw (i + 1), st'))) →
  for_range 0 (Z.of_nat n) body (raw 0, st)
  = (st' ← foldM put_module (module_of <$> (range 0 (Z.of_nat n) ≫= codes)) st;
     mret (raw (Z.of_nat n), st')).
Proof.
  intros Hbody. unfold for_range. induction n as [|n IH]; [done|].
  replace (Z.of_nat (S n)) with (Z.of_nat n + 1) by lia.
  rewrite range_snoc, bind_app, fmap_app, !foldM_app, IH by (lia || (intros; apply Hbody; lia)).
  destruct (foldM put_module _ st) as [st'| |]; [|done..].
  cbn [mbind outcome_bind mret outcome_ret foldM list_bind]. rewrite app_nil_r.
  rewrite Hbody by lia. by destruct (foldM put_module _ st').
Qed.

(** ** Filled frames *)

(** The frame with [bits] on the modules of its walk. *)
Definition fill (w : Z) (mqr : bool) (frame : carray) (bits : list Z) : carray :=
  CArray (w * w) (write_path (zigzag_path w mqr frame) (module_of <$> bits) (acells frame)).

Lemma module_of_bit b : is_bit b → (module_of b = 2 ∨ module_of b = 3) ∧ Z.land (module_of b) 1 = b.
Proof. intros [->| ->]; cbn; auto. Qed.

Section fill.
Context (n : nat) (w : Z) (mqr : bool) (ref : Z → Z → Z) (frame : carray) (bits : list Z).
Context (Hframe : frame_ok n w mqr ref frame).
Context (Hlen : length bits = n) (Hbits : Forall is_bit bits).

Abbreviation path := (zigzag_path w mqr frame).

Lemma fill_modules : Forall (λ v, (v = 2 ∨ v = 3) ∧ Z.land v 0x80 = 0) (module_of <$> bits).
Proof.
  apply Forall_fmap. eapply Forall_impl; [exact Hbits|]. intros b Hb. unfold compose.
  destruct (module_of_bit b Hb) as [[->| ->] _]; auto.
Qed.

Lemma length_path : length path = n.
Proof. destruct Hframe as (_ & _ & _ & _ & _ & f & Hp & _). by eapply filler_path_length. Qed.

Lemma path_range i : i ∈ path → data_module frame i ∧ 0 ≤ i < w * w.
Proof.
  destruct Hframe as (_ & [_ Hfull] & _ & _ & Hpath & _). intros Hi%Hpath. split; [done|].
  destruct Hi as (v & Hv & _). apply Hfull. eauto.
Qed.

(** The filler writes all bits. *)
Lemma fill_run :
  ∃ f, foldM put_module (module_of <$> bits) (frame, filler_init w mqr)
       = Ret (fill w mqr frame bits, f).
Proof.
  destruct Hframe as (_ & [Hal _] & _ & _ & _ & f & Hp & _). exists f.
  apply put_modules_path.
  - by rewrite length_fmap, Hlen.
  - done.
  - apply path_range.
  - eapply Forall_impl; [apply fill_modules|]. by intros v [_ ?].
Qed.

Lemma fill_other i : i ∉ path → acells (fill w mqr frame bits) !! i = acells frame !! i.
Proof. intros Hi. by apply write_path_other. Qed.

Lemma fill_at k p b :
  path !! k = Some p → bits !! k = Some b → acells (fill w mqr frame bits) !! p = Some (module_of b).
Proof.
  intros Hp Hb. destruct Hframe as (_ & _ & _ & Hnd & _).
  apply (write_path_lookup _ _ _ k); [done|done|]. by rewrite list_lookup_fmap, Hb.
Qed.

(** A module on the walk holds a data bit. *)
Lemma fill_in i :
  i ∈ path → ∃ v, acells (fill w mqr frame bits) !! i = Some v ∧ (v = 2 ∨ v = 3) ∧ Z.land v 0x80 = 0.
Proof.
  intros [k Hk]%list_elem_of_lookup. pose proof length_path as Hl.
  pose proof (lookup_lt_Some _ _ _ Hk).
  destruct (lookup_lt_is_Some_2 bits k) as [b Hb]; [lia|].
  exists (module_of b). split; [by eapply fill_at|].
  pose proof fill_modules as Hm. rewrite Forall_lookup in Hm. apply (Hm k).
  by rewrite list_lookup_fmap, Hb.
Qed.

Lemma fill_full : frame_full (w * w) (fill w mqr frame bits).
Proof.
  destruct Hframe as (_ & [_ Hfull] & _). split; [done|]. intros i.
  destruct (decide (i ∈ path)) as [Hi|Hi].
  - destruct (fill_in i Hi) as (v & Hv & Hv' & _). destruct (path_range i Hi) as [_ Hr].
    split; [|done]. intros _. exists v. split; [done|]. unfold is_byte. lia.
  - rewrite fill_other by done. apply Hfull.
Qed.

(** Function patterns keep their modules. *)
Lemma fill_function i v :
  acells frame !! i = Some v → Z.land v 0x80 ≠ 0 → acells (fill w mqr frame bits) !! i = Some v.
Proof.
  intros Hv Hv0. rewrite fill_other; [done|]. intros Hi. destruct (path_range i Hi) as [(u & Hu & Hu0) _].
  naive_solver.
Qed.

Lemma fill_data i : data_module frame i → data_module (fill w mqr frame bits) i.
Proof.
  intros Hi. destruct Hframe as (_ & _ & _ & _ & Hpath & _). apply Hpath in Hi.
  destruct (fill_in i Hi) as (v & ? & _ & ?). by exists v.
Qed.
End fill.

(** ** QR codes *)

(** The blank symbol of a version. *)
Definition blank (v : Z) : carray := default (anew 0) (outcome_value (QRspec_drawFrame v)).

(** The bits of a symbol: the code words of the data [D] and remainder bits. *)
Definition symbol_bits (v : Z) (level : QRecLevel) (D : list Z) : list Z :=
  bytes_to_bits (codewords (QRspec_getEccSpec v level) D)
  ++ replicate (Z.to_nat (QRspec_getRemainder v)) 0.

Definition filled (v : Z) (level : QRecLevel) (D : list Z) : carray :=
  fill (QRspec_getWidth v) false (blank v) (symbol_bits v level D).

(** The finished symbol. *)
Definition qr_symbol (v : Z) (level : QRecLevel) (k : Z) (D : list Z) : QRcode :=
  let w := QRspec_getWidth v in
  MkCode v w (CArray (w * w) (masked_symbol w k level (acells (filled v level D)))).

Lemma blank_ok v :
  1 ≤ v ≤ 40 →
  QRspec_drawFrame v = Ret (blank v) ∧
  frame_ok (qr_modules v) (QRspec_getWidth v) false (qr_reference v) (blank v).
Proof. intros Hv. unfold blank. by destruct (qr_frame_spec v Hv) as (f & -> & Hf). Qed.

Lemma remainder_loop r st :
  0 ≤ r → for_range 0 r (λ _, put_module 0x02) st
          = foldM put_module (module_of <$> replicate (Z.to_nat r) 0) st.
Proof.
  intros Hr. unfold for_range, range. rewrite Z.sub_0_r. generalize 0 at 1 as lo.
  revert st. induction (Z.to_nat r) as [|n IH]; intros st lo; [done|].
  cbn [count_up foldM replicate fmap list_fmap]. change (module_of 0) with 2.
  destruct (put_module 2 st); [|done..]. apply IH.
Qed.

Lemma capacity_words v level :
  1 ≤ v ≤ 40 →
  let s := QRspec_getEccSpec v level in
  QRspec_rsDataLength s + QRspec_rsEccLength s = cap_words (capacity v) ∧
  0 ≤ cap_remainder (capacity v).
Proof.
  intros Hv s. destruct (ecc_spec_ok v level Hv) as (E1 & E2 & _). fold s in E1, E2.
  rewrite E1, E2. split; [unfold QRspec_getDataLength, QRspec_getECCLength; lia|].
  apply Z.leb_le. assert (Hv' : 1 ≤ v < 41) by lia. clear -Hv'. revert v Hv'.
  apply all_range_spec. by vm_compute.
Qed.

Section qr_symbols.
Context (v : Z) (level : QRecLevel) (D : list Z) (Hv : 1 ≤ v ≤ 40).
Context (Hlen : Z.of_nat (length D) = QRspec_getDataLength v level) (HD : Forall is_byte D).

Abbreviation s := (QRspec_getEccSpec v level).

Lemma data_total : Z.of_nat (length D) = QRspec_rsDataLength s.
Proof. destruct (ecc_spec_ok v level Hv) as [-> _]. done. Qed.

Lemma length_symbol_bits : length (symbol_bits v level D) = qr_modules v.
Proof.
  unfold symbol_bits, qr_modules, QRspec_getRemainder.
  rewrite length_app, length_bytes_to_bits, length_replicate.
  pose proof (length_codewords s (ecc_blocks_ok v level Hv) D data_total HD) as H.
  destruct (capacity_words v level Hv) as [E ?]. rewrite E in H. lia.
Qed.

Lemma symbol_bits_bits : Forall is_bit (symbol_bits v level D).
Proof.
  apply Forall_app. split; [apply bytes_to_bits_bits|]. apply Forall_replicate. by left.
Qed.

Lemma filled_run :
  ∃ f, foldM put_module (module_of <$> symbol_bits v level D)
         (blank v, filler_init (QRspec_getWidth v) false) = Ret (filled v level D, f).
Proof.
  destruct (blank_ok v Hv) as [_ Hok].
  apply (fill_run _ _ _ _ _ _ Hok length_symbol_bits symbol_bits_bits).
Qed.

Lemma filled_maskable : maskable v (filled v level D).
Proof.
  destruct (blank_ok v Hv) as [_ Hok].
  destruct (frame_ok_maskable v _ _ _ Hv Hok) as (_ & _ & Harea).
  split; [done|]. split; [by apply (fill_full _ _ _ _ _ _ Hok length_symbol_bits symbol_bits_bits)|].
  intros p Hp. apply (fill_function _ _ _ _ _ _ Hok length_symbol_bits); [by apply Harea|done].
Qed.

(** The loops of [QRcode_encodeMask] over a raw code. *)
Lemma placement raw :
  raw_for v s D 0 raw →
  ∃ raw' st f, for_range 0 (raw_dataLength raw + raw_eccLength raw) (λ _ '(raw, st),
      '(code, raw) ← QRraw_getCode raw;
      st ← put_code 8 0x80 code st;
      mret (raw, st)) (raw, (blank v, filler_init (QRspec_getWidth v) false)) = Ret (raw', st) ∧
    for_range 0 (QRspec_getRemainder v) (λ _, put_module 0x02) st = Ret (filled v level D, f).
Proof.
  intros Hraw. pose proof (ecc_blocks_ok v level Hv) as Hs.
  pose proof (length_codewords s Hs D data_total HD) as Hl.
  rewrite (rf_dataLength _ _ _ _ _ Hraw), (rf_eccLength _ _ _ _ _ Hraw), <- Hl.
  set (nth_raw := λ k, MkRaw (raw_version raw) (raw_dataLength raw) (raw_eccLength raw)
    (raw_datacode raw) (raw_ecccode raw) (raw_b1 raw) (raw_blocks raw) (raw_rsblock raw) k).
  assert (Hnth : ∀ k, raw_for v s D k (nth_raw k)) by (intros k; destruct Hraw; by split).
  assert (E0 : raw = nth_raw 0).
  { destruct Hraw. destruct raw. cbn in *. by subst. }
  destruct filled_run as [f Hf]. unfold symbol_bits in Hf.
  rewrite fmap_app, foldM_app in Hf. rewrite <- range_bytes in Hf.
  rewrite E0, (code_loop _ nth_raw (λ i, to_bits 8 (nthZ (codewords s D) i))).
  - destruct (foldM put_module _ (blank v, _)) as [st| |]; [|done..]. cbn in Hf.
    exists (nth_raw (Z.of_nat (length (codewords s D)))), st, f. split; [done|].
    rewrite remainder_loop by apply (capacity_words v level Hv). exact Hf.
  - intros i st Hi. rewrite (QRraw_getCode_spec v s Hs D data_total HD i) by (done || lia).
    cbn [mbind outcome_bind]. rewrite (put_code_spec 8) by lia. done.
Qed.

(** Masking and the allocation of the result. *)
Lemma masking mask :
  -1 ≤ mask < 8 →
  returns caches_ok
    (masked ← (if mask =? -2 then
        ok ← try_malloc (QRspec_getWidth v * QRspec_getWidth v);
        if ok : bool then liftO (amemcpy (filled v level D)
                                   (QRspec_getWidth v * QRspec_getWidth v)) else undef
      else if mask <? 0 then Mask_mask (QRspec_getWidth v) (filled v level D) level
      else Mask_makeMask (QRspec_getWidth v) (filled v level D) mask level);
     QRcode_new v (QRspec_getWidth v) masked)
    (λ c, ∃ k, (0 ≤ mask → k = mask) ∧
      (mask < 0 → lowest_mask (λ k, symbol_points (QRspec_getWidth v)
         (acells (code_data (qr_symbol v level k D)))) k) ∧
      c = qr_symbol v level k D).
Proof.
  intros Hmask. rewrite (proj2 (Z.eqb_neq mask (-2))) by lia.
  apply spec_bind with (P := λ m, ∃ k, (0 ≤ mask → k = mask) ∧
      (mask < 0 → lowest_mask (λ k, symbol_points (QRspec_getWidth v)
         (acells (code_data (qr_symbol v level k D)))) k) ∧
      m = code_data (qr_symbol v level k D)).
  - destruct (Z.ltb_spec mask 0).
    + eapply spec_mono; [apply (Mask_mask_returns v level _ filled_maskable)| |by intros ? []].
      intros ? (k & Hk & ->). exists k. split; [lia|]. by split.
    + eapply spec_mono; [apply (Mask_makeMask_returns v level _ filled_maskable); lia| |by intros ? []].
      intros ? ->. exists mask. split; [done|]. split; [lia|]. done.
  - intros ? (k & H1 & H2 & ->). eapply spec_bind; [by apply (spec_malloc _ (λ _, True))|].
    intros _ _. apply spec_ret. exists k. split; [exact H1|]. by split.
Qed.
End qr_symbols.

(** An input object for a QR code that [QRcode_encodeMask] can handle. *)
Record encodable_input (i : QRinput) : Prop := {
  ei_mqr : mqr i = false;
  ei_fnc1 : fnc1 i = 0;
  ei_version : 0 ≤ version i ≤ 40;
  ei_entries : Forall (encodable_entry false (version i)) (head i)
}.

(** [QRcode_encodeMask] returns the symbol of a version that holds the data, or
    reports with [ERANGE] that there is none. *)
Lemma QRcode_encodeMask_spec i mask :
  encodable_input i → -1 ≤ mask < 8 →
  sm_spec caches_ok (QRcode_encodeMask mask) i
    (λ c i', ∃ u k, version i ≤ u ≤ 40 ∧ 1 ≤ u ∧ i' = converted u i ∧ fits u i ∧
      (0 ≤ mask → k = mask) ∧
      (mask < 0 → lowest_mask (λ k, symbol_points (QRspec_getWidth u)
         (acells (code_data (qr_symbol u (level i) k (byte_stream u i))))) k) ∧
      c = qr_symbol u (level i) k (byte_stream u i))
    (too_large i).
Proof.
  intros [Hm Hf Hv Hes] Hmask. unfold QRcode_encodeMask. apply sm_get_bind. rewrite Hm.
  rewrite (proj2 (Z.ltb_ge (version i) 0)), (proj2 (Z.ltb_ge QRSPEC_VERSION_MAX (version i)))
    by (unfold QRSPEC_VERSION_MAX; lia).
  rewrite (proj2 (Z.ltb_ge _ _)) by (destruct (level i); done). cbn [orb].
  eapply sm_bind; [by apply QRraw_new_spec|].
  intros raw i' (u & Hu & Hu1 & -> & Hfits & Hraw). rewrite (rf_version _ _ _ _ _ Hraw).
  assert (Hv' : 1 ≤ u ≤ 40) by lia.
  destruct (byte_stream_bits u i Hv' Hfits) as (HlD & HbD & _).
  destruct (blank_ok u Hv') as [Eblank _].
  eapply sm_lift_bind; [by apply QRspec_newFrame_spec|]. intros ? ->.
  eapply sm_lift_bind with (P := λ f, f = filler_init (QRspec_getWidth u) false).
  { eapply spec_bind; [by apply (spec_malloc _ (λ _, True))|]. intros _ _. by apply spec_ret. }
  intros ? ->.
  destruct (placement u (level i) _ Hv' HlD HbD raw Hraw) as (raw' & st & f & E1 & E2).
  eapply sm_lift_bind; [eapply (spec_liftO _ _ (λ x, x = (raw', st))); [exact E1|done]|].
  intros ? ->. cbv beta iota.
  eapply sm_lift_bind; [eapply (spec_liftO _ _ (λ x, x = (filled u (level i) (byte_stream u i), f)));
    [exact E2|done]|].
  intros ? ->. cbv beta iota. apply sm_get_bind. change (level (converted u i)) with (level i).
  pose proof (masking u (level i) _ Hv' HlD HbD mask Hmask) as Hmasking.
  eapply sm_lift_lift, spec_mono; [exact Hmasking| |by intros ? []].
  intros c (k & Hk1 & Hk2 & ->). exists u, k. split_and!; done || lia.
Qed.
