(* ===== verification/Reader.v ===== *)
(** * A reader of symbols

    A decoder for QR code symbols that looks at nothing but their modules,
    written against the standard: version from the width, level and mask from
    the format information, the walk over the modules that belong to no
    function pattern, the blocks, the bit stream. It recovers the data of
    every symbol of the library. *)

From S2P Require Import Prelude CModel BitStream RSCode RSTheory QRSpec MQRSpec FrameFiller.
From S2P Require Import Mask MaskTheory Caches QRInput QRInputTheory QRDecode QREncode Blocks.
From S2P Require Import Symbols.

(** ** The reader *)

(** Bit 0 of a module is its colour. *)
Definition module_bit (m : Zmap Z) (p : Z) : Z := Z.land (cell m p) 1.

(** The format information, whose bits are at [pos 0] to [pos 14]. *)
Definition read_format (pos : Z → Z) (m : Zmap Z) : Z :=
  of_bits ((λ k, module_bit m (pos (14 - k))) <$> range 0 15).

(** The level and the mask in a format information word, which the standard
    combines with the mask pattern 101010000010010. *)
Definition format_fields (format : Z) : QRecLevel * Z :=
  let data := Z.shiftr (Z.lxor format 0x5412) 10 in
  (match Z.shiftr data 3 with
   | 0 => QR_ECLEVEL_M | 1 => QR_ECLEVEL_L | 2 => QR_ECLEVEL_H | _ => QR_ECLEVEL_Q
   end, Z.land data 7).

(** The modules of no function pattern, in the order of the standard. *)
Definition reference_path (v : Z) : list Z :=
  let w := QRspec_getWidth v in
  List.filter (λ i, Z.land (qr_reference v (i `div` w) (i `mod` w)) 0x80 =? 0)
    (zigzag true w (qr_columns w)).

Definition read_bits (v k : Z) (m : Zmap Z) : list Z :=
  let w := QRspec_getWidth v in
  (λ p, Z.lxor (module_bit m p) (b2z (mask_bit k (p `div` w) (p `mod` w)))) <$> reference_path v.

Definition read_codewords (v k : Z) (m : Zmap Z) : list Z :=
  bits_to_bytes (take (8 * Z.to_nat (cap_words (capacity v))) (read_bits v k m)).

(** The data and the parity of block [p]. *)
Definition read_block_data (s : EccSpec) (codes : list Z) (p : Z) : list Z :=
  (λ c, nthZ codes (data_index s p c)) <$> range 0 (block_length s p).

Definition read_block_parity (s : EccSpec) (codes : list Z) (p : Z) : list Z :=
  (λ c, nthZ codes (parity_index s p c)) <$> range 0 (spec2 s).

Definition read_data (s : EccSpec) (codes : list Z) : list Z :=
  range 0 (QRspec_rsBlockNum s) ≫= read_block_data s codes.

(** Version, level, mask and data of a symbol. *)
Definition read_symbol (w : Z) (m : Zmap Z)
    : Z * QRecLevel * Z * option (list (QRencodeMode * list Z)) :=
  let v := (w - 17) `div` 4 in
  let '(level, k) := format_fields (read_format (format_pos1 w) m) in
  let codes := read_codewords v k m in
  (v, level, k, decode_stream v (bytes_to_bits (read_data (QRspec_getEccSpec v level) codes))).

(** ** Lemmas *)

Lemma zigzag_columns up w rights i :
  i ∈ zigzag up w rights →
  ∃ x y, x ∈ rights ∧ 0 ≤ y < w ∧ (i = y * w + x ∨ i = y * w + x - 1).
Proof.
  revert up. induction rights as [|x rights IH]; intros up; cbn [zigzag].
  { by intros ?%elem_of_nil. }
  intros [Hi|Hi]%elem_of_app.
  - apply list_elem_of_bind in Hi as (y & Hi & Hy). exists x, y. split; [by left|]. split.
    + destruct up; [|by apply elem_of_range].
      apply list_elem_of_fmap in Hy as (z & -> & Hz%elem_of_range). lia.
    + set_solver.
  - destruct (IH _ Hi) as (x' & y & ? & ?). exists x', y. split; [by right|done].
Qed.

Lemma qr_columns_range w x : 21 ≤ w → x ∈ qr_columns w → 1 ≤ x < w.
Proof.
  intros Hw. unfold qr_columns. rewrite elem_of_app, list_elem_of_fmap.
  intros [(k & -> & Hk%elem_of_range)|Hx]; [|set_solver by lia].
  pose proof (Z.div_mod (w - 7) 2 ltac:(lia)). pose proof (Z.mod_pos_bound (w - 7) 2 ltac:(lia)). lia.
Qed.

Lemma path_reference v :
  1 ≤ v ≤ 40 → zigzag_path (QRspec_getWidth v) false (blank v) = reference_path v.
Proof.
  intros Hv. destruct (blank_ok v Hv) as [_ (Hw & _ & Hcells & _)].
  unfold zigzag_path, reference_path. set (w := QRspec_getWidth v) in *.
  assert (Hw' : 21 ≤ w) by (unfold w; rewrite capacity_width; lia).
  apply filter_ext_in. intros i Hi%list_elem_of_In. unfold is_data_module.
  apply zigzag_columns in Hi as (x & y & Hx & Hy & Hi). apply qr_columns_range in Hx; [|done].
  assert (Hi' : 0 ≤ i < w * w) by nia.
  destruct (offset_coordinates w i Hw Hi') as (Hxi & Hyi & E). rewrite E at 1.
  by rewrite Hcells.
Qed.

Lemma module_bits_format format k : Z.land (format_module format k) 1 = b2z (Z.testbit format k).
Proof.
  unfold format_module. rewrite Z.land_lor_distr_l. change (Z.land 0x84 1) with 0.
  rewrite Z.lor_0_l. by destruct (Z.testbit format k).
Qed.

(** Reading back what [format_cells] holds. *)
Lemma read_format_spec pos m format :
  0 ≤ format < 2 ^ 15 →
  (∀ k, 0 ≤ k < 15 → m !! pos k = Some (format_module format k)) → read_format pos m = format.
Proof.
  intros Hf Hm. unfold read_format.
  assert (E : (λ k, module_bit m (pos (14 - k))) <$> range 0 15 = to_bits 15 format).
  { change (range 0 15) with [0; 1; 2; 3; 4; 5; 6; 7; 8; 9; 10; 11; 12; 13; 14].
    assert (Hk : ∀ k, 0 ≤ k < 15 → module_bit m (pos k) = b2z (Z.testbit format k)).
    { intros k Hk. unfold module_bit, cell. rewrite Hm by done. apply module_bits_format. }
    cbn [fmap list_fmap to_bits]. rewrite !Hk by lia. done. }
  rewrite E. by apply of_to_bits_small.
Qed.

Definition format_ok (k : Z) (level : QRecLevel) : bool :=
  let f := QRspec_getFormatInfo k level in
  (0 <=? f) && (f <? 2 ^ 15) && bool_decide (format_fields f = (level, k)).

Lemma format_fields_all : all_range 0 8 (λ k, forallb (format_ok k) all_levels) = true.
Proof. by vm_compute. Qed.

Lemma format_fields_spec k level :
  0 ≤ k < 8 →
  0 ≤ QRspec_getFormatInfo k level < 2 ^ 15 ∧
  format_fields (QRspec_getFormatInfo k level) = (level, k).
Proof.
  intros Hk. pose proof (versions_levels format_ok 0 8 format_fields_all k level Hk) as H.
  unfold format_ok in H. rewrite !andb_true_iff, bool_decide_eq_true in H.
  split; [lia|tauto].
Qed.

(** ** Blocks *)

Lemma interleave_forall (P : Z → Prop) n rows :
  Forall (Forall P) rows → Forall P (interleave n rows).
Proof.
  revert rows. induction n as [|n IH]; intros rows H; cbn [interleave]; [constructor|].
  apply Forall_app. split.
  - induction H as [|[|x r] rows Hr _ IHr]; [constructor|done|]. apply Forall_cons in Hr as [? _]. by apply Forall_cons.
  - apply IH, Forall_fmap. eapply Forall_impl; [exact H|]. intros r Hr. destruct Hr; [constructor|done].
Qed.

Section blocks.
Context (s : EccSpec) (Hs : blocks_ok s).
Context (D : list Z) (Hlen : Z.of_nat (length D) = QRspec_rsDataLength s) (HD : Forall is_byte D).

Abbreviation N := (QRspec_rsBlockNum s).

Lemma codewords_bytes : Forall is_byte (codewords s D).
Proof.
  apply Forall_app. split; apply interleave_forall, rows_forall; intros p Hp.
  - by apply block_data_bytes.
  - by destruct (block_parity_spec s Hs D Hlen HD p Hp) as (_ & _ & ? & _).
Qed.

Lemma list_of_nthZ l n : Z.of_nat (length l) = n → (λ c, nthZ l c) <$> range 0 n = l.
Proof.
  intros <-. apply list_eq. intros i. rewrite list_lookup_fmap, range_seqZ.
  destruct (l !! i) as [x|] eqn:E.
  - pose proof (lookup_lt_Some _ _ _ E). rewrite lookup_seqZ_lt by lia. cbn. f_equal.
    apply nthZ_lookup. by replace (Z.to_nat (0 + Z.of_nat i)) with i by lia.
  - apply lookup_ge_None in E. by rewrite lookup_seqZ_ge by lia.
Qed.

Lemma range_fmap_ext {A} (f g : Z → A) lo hi :
  (∀ i, lo ≤ i < hi → f i = g i) → f <$> range lo hi = g <$> range lo hi.
Proof. intros H. apply Forall_fmap_ext, Forall_forall. intros i Hi%elem_of_range. by apply H. Qed.

(** Deinterleaving inverts interleaving. *)
Lemma read_block_data_spec p : 0 ≤ p < N → read_block_data s (codewords s D) p = block_data s D p.
Proof.
  intros Hp. rewrite <- (list_of_nthZ (block_data s D p) (block_length s p))
    by (by apply length_block_data).
  apply range_fmap_ext. intros c Hc. rewrite nthZ_block_data by done.
  by apply nthZ_lookup, codewords_data.
Qed.

Lemma read_block_parity_spec p :
  0 ≤ p < N → read_block_parity s (codewords s D) p = block_parity s D p.
Proof.
  intros Hp. rewrite <- (list_of_nthZ (block_parity s D p) (spec2 s))
    by (by apply block_parity_spec).
  apply range_fmap_ext. intros c Hc. by apply nthZ_lookup, codewords_parity.
Qed.

Lemma blocks_concat (n : nat) :
  Z.of_nat n ≤ N →
  (range 0 (Z.of_nat n) ≫= block_data s D) = take (Z.to_nat (block_offset s (Z.of_nat n))) D.
Proof.
  induction n as [|n IH]; intros Hn.
  { unfold block_offset. pose proof (bo_num1 _ Hs). rewrite (proj2 (Z.leb_le _ _)) by lia. done. }
  replace (Z.of_nat (S n)) with (Z.of_nat n + 1) by lia.
  rewrite range_snoc, bind_app, IH, block_offset_S by (done || lia).
  cbn [mbind list_bind]. rewrite app_nil_r. unfold block_data.
  destruct (block_offset_range s Hs (Z.of_nat n)) as [? _]; [lia|].
  destruct (block_params s Hs (Z.of_nat n)) as [? _]; [lia|].
  rewrite Z2Nat.inj_add by lia. apply take_take_drop.
Qed.

Lemma read_data_spec : read_data s (codewords s D) = D.
Proof.
  pose proof (blocks_positive s Hs).
  transitivity (range 0 N ≫= block_data s D).
  - apply Forall_bind_ext, Forall_forall. intros p Hp%elem_of_range. by apply read_block_data_spec.
  - replace N with (Z.of_nat (Z.to_nat N)) by lia. rewrite blocks_concat by lia.
    rewrite Z2Nat.id by lia. apply take_ge. pose proof Hs as [? ? _ _ _ _].
    unfold block_offset, QRspec_rsDataLength, QRspec_rsBlockNum1, QRspec_rsBlockNum2,
      QRspec_rsDataCodes1, QRspec_rsDataCodes2, QRspec_rsBlockNum in *.
    case_bool; [|lia]. replace (spec3 s) with 0 in * by lia. lia.
Qed.
End blocks.

(** ** Symbols *)

Section symbols.
Context (v : Z) (level : QRecLevel) (k : Z) (D : list Z).
Context (Hv : 1 ≤ v ≤ 40) (Hk : 0 ≤ k < 8).
Context (Hlen : Z.of_nat (length D) = QRspec_getDataLength v level) (HD : Forall is_byte D).

Abbreviation w := (QRspec_getWidth v).
Abbreviation s := (QRspec_getEccSpec v level).
Abbreviation cells := (acells (code_data (qr_symbol v level k D))).

Lemma width_positive : 21 ≤ w.
Proof. rewrite capacity_width; lia. Qed.

Lemma width_version : (w - 17) `div` 4 = v.
Proof. rewrite capacity_width by done. symmetry. apply Z.div_unique with 0; lia. Qed.

(** Both copies of the format information are readable. *)
Lemma format_module_at p j :
  (p, format_module (QRspec_getFormatInfo k level) j)
    ∈ format_cells w (QRspec_getFormatInfo k level) →
  cells !! p = Some (format_module (QRspec_getFormatInfo k level) j).
Proof.
  intros Hp. destruct (format_area_ok v Hv) as [Hnd _].
  by apply write_cells_lookup.
Qed.

Lemma read_format_copies :
  read_format (format_pos1 w) cells = QRspec_getFormatInfo k level ∧
  read_format (format_pos2 w) cells = QRspec_getFormatInfo k level.
Proof.
  destruct (format_fields_spec k level Hk) as [Hr _].
  split; (apply read_format_spec; [done|]); intros j Hj; apply format_module_at;
    unfold format_cells; apply list_elem_of_bind; exists j;
    (split; [set_solver|by apply elem_of_range]).
Qed.

(** A module of the walk carries its bit under the mask. *)
Lemma read_module i p b :
  reference_path v !! i = Some p → symbol_bits v level D !! i = Some b →
  Z.lxor (module_bit cells p) (b2z (mask_bit k (p `div` w) (p `mod` w))) = b.
Proof.
  intros Hp Hb. destruct (blank_ok v Hv) as [_ Hok].
  pose proof (length_symbol_bits v level D Hv Hlen HD) as Hl.
  pose proof (symbol_bits_bits v level D) as Hbits.
  assert (Hbit : is_bit b) by (by eapply Forall_lookup_1 in Hbits).
  rewrite <- path_reference in Hp by done.
  pose proof (fill_at _ _ _ _ _ _ Hok i p b Hp Hb) as Hcell.
  fold (filled v level D) in Hcell.
  assert (Hin : p ∈ zigzag_path w false (blank v)) by (by eapply list_elem_of_lookup_2).
  assert (Hout : p ∉ (format_cells w (QRspec_getFormatInfo k level)).*1).
  { intros Hf. destruct (path_range _ _ _ _ _ Hok p Hin) as [(u & Hu & Hu0) _].
    destruct (frame_ok_maskable v _ _ _ Hv Hok) as (_ & _ & Harea).
    specialize (Harea p Hf). rewrite Hu in Harea. by injection Harea as ->. }
  unfold module_bit, cell, qr_symbol, masked_symbol. cbn [code_data acells].
  rewrite write_cells_other by done. rewrite (lookup_masked_cells _ _ _ _ _ Hcell).
  cbn [default]. destruct (mask_bit k (p `div` w) (p `mod` w)); by destruct Hbit as [->| ->].
Qed.

Lemma read_bits_spec : read_bits v k cells = symbol_bits v level D.
Proof.
  destruct (blank_ok v Hv) as [_ Hok].
  pose proof (length_symbol_bits v level D Hv Hlen HD) as Hl.
  assert (Hp : length (reference_path v) = qr_modules v).
  { rewrite <- path_reference by done. by apply (length_path _ _ _ _ _ Hok). }
  apply list_eq_same_length with (length (reference_path v)).
  - by rewrite Hl.
  - apply length_fmap.
  - intros i x y Hi Hx Hy. unfold read_bits in Hx. apply list_lookup_fmap_Some in Hx as (p & -> & Hpi).
    by apply (read_module i).
Qed.

Lemma read_codewords_spec : read_codewords v k cells = codewords s D.
Proof.
  unfold read_codewords. rewrite read_bits_spec. unfold symbol_bits.
  pose proof (ecc_blocks_ok v level Hv) as Hs.
  pose proof (data_total v level D Hv Hlen) as Ht.
  pose proof (length_codewords s Hs D Ht HD) as Hl.
  destruct (capacity_words v level Hv) as [E _]. rewrite E in Hl.
  rewrite take_app_length' by (rewrite length_bytes_to_bits; lia).
  by apply bits_to_bytes_bytes, codewords_bytes.
Qed.

Lemma read_symbol_spec :
  read_symbol w cells = (v, level, k, decode_stream v (bytes_to_bits D)).
Proof.
  unfold read_symbol. destruct read_format_copies as [-> _].
  destruct (format_fields_spec k level Hk) as [_ ->].
  rewrite width_version, read_codewords_spec.
  by rewrite (read_data_spec _ (ecc_blocks_ok v level Hv) D (data_total v level D Hv Hlen)).
Qed.
End symbols.

(** The blocks read from a symbol of the library are code words. *)
Lemma read_blocks_spec v level k D p :
  1 ≤ v ≤ 40 → 0 ≤ k < 8 →
  Z.of_nat (length D) = QRspec_getDataLength v level → Forall is_byte D →
  let s := QRspec_getEccSpec v level in
  let codes := read_codewords v k (acells (code_data (qr_symbol v level k D))) in
  0 ≤ p < QRspec_rsBlockNum s →
  rs_codeword (spec2 s) (read_block_data s codes p ++ read_block_parity s codes p).
Proof.
  intros Hv Hk Hlen HD s codes Hp. unfold codes.
  pose proof (ecc_blocks_ok v level Hv) as Hs.
  pose proof (data_total v level D Hv Hlen) as Ht. fold s in Hs, Ht.
  rewrite read_codewords_spec by done. fold s.
  rewrite read_block_data_spec, read_block_parity_spec by done.
  by apply block_parity_spec.
Qed.

(** ** Encoding and reading *)

(** The reader finds these fields in a symbol. *)
Definition reads_as (c : QRcode) (v : Z) (level : QRecLevel)
    (segs : list (QRencodeMode * list Z)) : Prop :=
  ∃ k, 0 ≤ k < 8 ∧
    read_symbol (code_width c) (acells (code_data c)) = (v, level, k, Some segs).

(** No version holds the entries [es] with the indicators of version [v]. *)
Definition oversized (v : Z) (level : QRecLevel) (es : list QRinput_List) : Prop :=
  ∀ u, 1 ≤ u ≤ 40 →
    8 * QRspec_getDataLength u level < Z.of_nat (length (stream false v es)).

Lemma too_large_oversized i e i' :
  too_large i e i' → e = Some ERANGE ∧ ∃ v, version i ≤ v ≤ 40 ∧ oversized v (level i) (head i).
Proof.
  intros (-> & v & Hv & _ & Hmin). split; [done|]. exists v. split; [done|]. intros u Hu.
  destruct (getMinimumVersion_spec ((Z.of_nat (length (stream false v (head i))) + 7) `quot` 8)
    (level i)) as [(Hr & _)|[_ H]]; [lia|].
  specialize (H u Hu). rewrite Z.quot_div_nonneg in H by lia.
  set (n := Z.of_nat _) in *. pose proof (Z.div_mod (n + 7) 8 ltac:(lia)).
  pose proof (Z.mod_pos_bound (n + 7) 8 ltac:(lia)). lia.
Qed.

(** The data of an input comes back. *)
Lemma QRcode_encodeMask_reads i mask :
  encodable_input i → -1 ≤ mask < 8 →
  Forall (λ e, decodable (e_mode e) (e_data e) = true) (head i) →
  sm_spec caches_ok (QRcode_encodeMask mask) i
    (λ c i', ∃ u, version i ≤ u ≤ 40 ∧ 1 ≤ u ∧ code_version c = u ∧ i' = converted u i ∧
      reads_as c u (level i) (head i ≫= entry_segments u)) (too_large i).
Proof.
  intros Hi Hmask Hdec. eapply sm_mono; [by apply QRcode_encodeMask_spec| |done].
  intros c i' (u & k & Hu & Hu1 & -> & Hfits & Hk1 & Hk2 & ->). exists u.
  split_and!; [lia..|done|done|].
  assert (Hk : 0 ≤ k < 8).
  { destruct (decide (mask < 0)); [by destruct Hk2|]. rewrite Hk1; lia. }
  exists k. split; [done|].
  destruct (byte_stream_bits u i ltac:(lia) Hfits) as (HlD & HbD & Ebits).
  change (code_width (qr_symbol u (level i) k (byte_stream u i))) with (QRspec_getWidth u).
  rewrite read_symbol_spec by (done || lia). rewrite Ebits. do 2 f_equal.
  apply decode_padded; [|unfold fits in Hfits; lia].
  apply Forall_and. split; [|exact Hdec].
  eapply Forall_impl; [apply (ei_entries _ Hi)|]. by intros e [].
Qed.

Lemma QRcode_encodeInput_reads i :
  encodable_input i → Forall (λ e, decodable (e_mode e) (e_data e) = true) (head i) →
  sm_spec caches_ok QRcode_encodeInput i
    (λ c i', ∃ u, version i ≤ u ≤ 40 ∧ 1 ≤ u ∧ code_version c = u ∧ i' = converted u i ∧
      reads_as c u (level i) (head i ≫= entry_segments u)) (too_large i).
Proof.
  intros Hi Hdec. apply sm_get_bind. rewrite (ei_mqr _ Hi). by apply QRcode_encodeMask_reads.
Qed.
