(* ===== verification/MicroInput.v ===== *)
(** * Code words of Micro QR inputs

    The padding of Micro QR streams. The last data code word of versions 1 and
    3 has four bits. *)

From S2P Require Import Prelude CModel BitStream QRSpec MQRSpec QRInput QRInputTheory.

(** ** Reference definition *)

(** The padded stream of [n] bits: a terminator of [term] zero bits, zero bits
    up to a byte boundary, alternating pad code words, and zero bits in a last
    code word of four bits. *)
Definition padded_mqr (n term : Z) (l : list Z) : list Z :=
  let bits := Z.of_nat (length l) in
  if n - bits <=? term then l ++ replicate (Z.to_nat (n - bits)) 0
  else
    let words := (bits + term + 7) `div` 8 in
    let zeros := Z.to_nat (Z.min (words * 8) n - bits) in
    let pad := l ++ replicate zeros 0 ++ bytes_to_bits (pad_bytes (n `div` 8 - words)) in
    pad ++ replicate (Z.to_nat (n - Z.of_nat (length pad))) 0.

Definition term_bits (v : Z) : Z := v * 2 + 1.

(** ** The geometry of the symbols *)

Definition mqr_numbers_ok (v : Z) (level : QRecLevel) : bool :=
  negb (bool_decide (mqr_supported v level))
  || ((0 <? MQRspec_getDataLengthBit v level)
      && ((MQRspec_getDataLengthBit v level `mod` 8 =? 0) || (MQRspec_getDataLengthBit v level `mod` 8 =? 4))
      && (MQRspec_getDataLength v level =? (MQRspec_getDataLengthBit v level + 4) `div` 8)
      && (1 <=? MQRspec_getECCLength v level) && (MQRspec_getECCLength v level <=? 30)
      && (MQRspec_getDataLength v level + MQRspec_getECCLength v level <? 255)
      && (MQRspec_getDataLengthBit v level + MQRspec_getECCLength v level * 8
          =? MQRspec_getDataLengthBit v QR_ECLEVEL_L + MQRspec_getECCLength v QR_ECLEVEL_L * 8)).

Lemma mqr_numbers_all : all_range 1 5 (λ v, forallb (mqr_numbers_ok v) all_levels) = true.
Proof. by vm_compute. Qed.

Lemma mqr_numbers v level :
  1 ≤ v ≤ 4 → mqr_supported v level →
  let n := MQRspec_getDataLengthBit v level in
  let words := MQRspec_getDataLength v level in
  let ecc := MQRspec_getECCLength v level in
  0 < n ∧ (n `mod` 8 = 0 ∨ n `mod` 8 = 4) ∧ words = (n + 4) `div` 8 ∧
  1 ≤ ecc ≤ 30 ∧ words + ecc < 255 ∧
  n + ecc * 8 = MQRspec_getDataLengthBit v QR_ECLEVEL_L + MQRspec_getECCLength v QR_ECLEVEL_L * 8.
Proof.
  intros Hv Hs n words ecc.
  pose proof (versions_levels mqr_numbers_ok 1 5 mqr_numbers_all v level ltac:(lia)) as H.
  unfold mqr_numbers_ok in H. rewrite bool_decide_true in H by done. cbn [negb orb] in H.
  fold n words ecc in H. lia.
Qed.

(** ** Padding *)

Lemma length_padded_mqr n term l :
  0 ≤ term → Z.of_nat (length l) ≤ n → Z.of_nat (length (padded_mqr n term l)) = n.
Proof.
  intros Ht H. unfold padded_mqr. destruct (Z.leb_spec (n - Z.of_nat (length l)) term).
  { rewrite length_app, length_replicate. lia. }
  rewrite length_app, length_replicate.
  enough (Z.of_nat (length (l ++ replicate (Z.to_nat (Z.min ((Z.of_nat (length l) + term + 7) `div` 8 * 8) n
    - Z.of_nat (length l))) 0 ++ bytes_to_bits (pad_bytes (n `div` 8
      - (Z.of_nat (length l) + term + 7) `div` 8)))) ≤ n) by lia.
  rewrite !length_app, length_replicate, length_bytes_to_bits, length_pad_bytes.
  pose proof (Z.div_mod (Z.of_nat (length l) + term + 7) 8 ltac:(lia)).
  pose proof (Z.mod_pos_bound (Z.of_nat (length l) + term + 7) 8 ltac:(lia)).
  pose proof (Z.div_mod n 8 ltac:(lia)). pose proof (Z.mod_pos_bound n 8 ltac:(lia)). lia.
Qed.

Lemma padded_mqr_bits n term l : Forall is_bit l → Forall is_bit (padded_mqr n term l).
Proof.
  intros Hl. unfold padded_mqr. destruct (_ <=? term); repeat (apply Forall_app; split);
    auto with qr; by apply Forall_replicate; left.
Qed.

(** Four zero bits may follow the stream: then its last four bits are zero and
    lie in a code word of their own. *)
Definition excess (n : Z) (l : list Z) (e : nat) : Prop :=
  e = 0%nat ∨ (e = 4%nat ∧ n `mod` 8 = 4 ∧ ∃ l', l = l' ++ replicate 4 0).

Section padding.
Context {Inv : statics → Prop}.

(** The number of code words that the terminator completes. *)
Lemma words_bounds bits term :
  0 ≤ bits → 0 ≤ term →
  let words := (bits + term + 7) `div` 8 in bits + term ≤ words * 8 ≤ bits + term + 7.
Proof.
  intros Hb Ht words. unfold words. pose proof (Z.div_mod (bits + term + 7) 8 ltac:(lia)).
  pose proof (Z.mod_pos_bound (bits + term + 7) 8 ltac:(lia)). lia.
Qed.

Lemma replicate_2 {A} (a b : Z) (x : A) :
  0 ≤ a → 0 ≤ b → replicate (Z.to_nat a) x ++ replicate (Z.to_nat b) x = replicate (Z.to_nat (a + b)) x.
Proof. intros Ha Hb. by rewrite <- replicate_add, Z2Nat.inj_add by lia. Qed.

Lemma appendPaddingBitMQR_spec l i E :
  let n := MQRspec_getDataLengthBit (version i) (level i) in
  let p := padded_mqr n (term_bits (version i)) l in
  1 ≤ version i ≤ 4 → (n `mod` 8 = 0 ∨ n `mod` 8 = 4) → Z.of_nat (length l) ≤ n →
  spec Inv (QRinput_appendPaddingBitMQR (bs_of l) i)
    (λ b, ∃ e, b = bs_of (p ++ replicate e 0) ∧ excess n p e) E.
Proof.
  intros n p Hv Hn Hfit. unfold QRinput_appendPaddingBitMQR, BitStream_size. fold n.
  change (blen (bs_of l)) with (Z.of_nat (length l)).
  unfold p, padded_mqr. remember (Z.of_nat (length l)) as bits eqn:Ebits.
  change (version i * 2 + 1) with (term_bits (version i)). set (term := term_bits (version i)) in *.
  assert (Hterm : 3 ≤ term ≤ 9) by (unfold term, term_bits; lia).
  assert (Hbits : 0 ≤ bits) by lia. clearbody term. clear p.
  rewrite (proj2 (Z.ltb_ge n bits)) by lia.
  destruct (Z.eqb_spec n bits) as [E0|E0].
  { rewrite (proj2 (Z.leb_le _ _)) by lia. apply spec_ret. exists 0%nat. split; [|by left].
    replace (n - bits) with 0 by lia. simpl. by rewrite !app_nil_r. }
  destruct (Z.leb_spec (n - bits) term).
  { eapply spec_mono; [apply BitStream_appendNum_spec; lia| |done]. intros ? ->. exists 0%nat.
    split; [|by left]. rewrite to_bits_0. simpl. by rewrite !app_nil_r. }
  rewrite !Z.quot_div_nonneg by lia.
  pose proof (words_bounds bits term Hbits ltac:(lia)) as Hw. cbv zeta in Hw.
  set (words := (bits + term + 7) `div` 8) in *. clearbody words.
  pose proof (Z.div_mod n 8 ltac:(lia)) as Hdm. set (m := n `div` 8) in *. clearbody m.
  eapply spec_bind; [apply BitStream_new_spec|]. intros ? ->.
  destruct (Z.ltb_spec 0 (n - words * 8)) as [Hlt|Hge].
  - rewrite Z.min_l by lia. destruct (Z.eqb_spec words m) as [->|Hne].
    + eapply spec_bind; [apply BitStream_appendNum_spec; lia|]. intros ? ->.
      rewrite Z.sub_diag. cbn [Z.ltb Z.compare].
      apply spec_ret_bind.
      eapply spec_mono; [apply BitStream_append_spec| |done]. intros ? ->. exists 0%nat.
      split; [|by left]. rewrite to_bits_0, pad_bytes_nil by lia. cbn [app bytes_to_bits mbind list_bind replicate].
      rewrite !app_nil_r, <- app_assoc. rewrite length_app, length_replicate.
      f_equal. f_equal. rewrite replicate_2 by lia. f_equal. lia.
    + eapply spec_bind; [apply BitStream_appendNum_spec; lia|]. intros ? ->.
      rewrite (proj2 (Z.ltb_lt 0 (m - words))) by lia.
      apply spec_bind with (P := λ b, b = bs_of (replicate (Z.to_nat (words * 8 - bits)) 0
        ++ bytes_to_bits (pad_bytes (m - words)) ++ replicate (Z.to_nat (n - m * 8)) 0)).
      * eapply spec_bind; [apply (spec_malloc _ (λ _, True)); [lia|done]|]. intros _ _.
        eapply spec_bind; [apply BitStream_appendBytes_spec; rewrite length_pad_bytes; lia|].
        intros ? ->. rewrite take_ge by (rewrite length_pad_bytes; lia). rewrite to_bits_0.
        replace (Z.to_nat (term + (words * 8 - (bits + term)))) with (Z.to_nat (words * 8 - bits)) by lia.
        cbn [app]. destruct (Z.ltb_spec 0 (n - m * 8)).
        -- eapply spec_mono; [apply BitStream_appendNum_spec; lia| |done]. intros ? ->.
           by rewrite to_bits_0, <- app_assoc.
        -- apply spec_ret. replace (Z.to_nat (n - m * 8)) with 0%nat by lia. simpl.
           by rewrite app_nil_r.
      * intros ? ->. eapply spec_mono; [apply BitStream_append_spec| |done]. intros ? ->.
        exists 0%nat. split; [|by left]. cbn [replicate]. rewrite app_nil_r, <- !app_assoc.
        do 4 f_equal. rewrite !length_app, length_replicate, length_bytes_to_bits, length_pad_bytes. f_equal. lia.
  - rewrite Z.min_r by lia.
    eapply spec_bind; [apply BitStream_appendNum_spec; lia|]. intros ? ->.
    rewrite (proj2 (Z.ltb_ge 0 (m - words))) by lia.
    apply spec_ret_bind.
    eapply spec_mono; [apply BitStream_append_spec| |done]. intros ? ->.
    rewrite to_bits_0, pad_bytes_nil by lia. cbn [app bytes_to_bits mbind list_bind].
    rewrite app_nil_r, length_app, length_replicate.
    replace (Z.to_nat (n - Z.of_nat (length l + Z.to_nat (n - bits)))) with 0%nat by lia.
    cbn [replicate]. rewrite app_nil_r. exists (Z.to_nat (words * 8 - n)). split.
    + rewrite <- app_assoc, replicate_2 by lia. do 4 f_equal. lia.
    + assert (n = words * 8 ∨ n = words * 8 - 4) as [->| ->] by lia; [left; lia|]. right.
      split; [lia|]. split; [lia|]. exists (l ++ replicate (Z.to_nat (words * 8 - 4 - bits - 4)) 0).
      rewrite <- app_assoc. f_equal. change 4%nat with (Z.to_nat 4). rewrite replicate_2 by lia.
      f_equal. lia.
Qed.
End padding.

(** ** Packing into code words *)

Lemma bits_to_bytes_app l1 l2 (n : nat) :
  length l1 = (8 * n)%nat → bits_to_bytes (l1 ++ l2) = bits_to_bytes l1 ++ bits_to_bytes l2.
Proof.
  intros H1. unfold bits_to_bytes. rewrite length_app, H1.
  replace ((8 * n + length l2 + 7) / 8)%nat with (n + (length l2 + 7) / 8)%nat.
  2:{ rewrite <- (Nat.div_add_l n 8) by lia. f_equal. lia. }
  replace ((8 * n + 7) / 8)%nat with n.
  2:{ apply Nat.div_unique with 7%nat; lia. }
  rewrite seq_app, fmap_app. f_equal.
  - apply Forall_fmap_ext, Forall_forall. intros i Hi%elem_of_seq. f_equal.
    rewrite drop_app_le, take_app_le by (rewrite ?length_drop; lia). done.
  - replace (seq (0 + n) ((length l2 + 7) / 8)) with (Nat.add n <$> seq 0 ((length l2 + 7) / 8))
      by (rewrite fmap_add_seq; f_equal; lia).
    rewrite <- list_fmap_compose. apply Forall_fmap_ext, Forall_forall. intros i _. unfold compose. rewrite drop_app_ge by lia. do 3 f_equal. lia.
Qed.

(** The excess bits do not change the code words. *)
Lemma excess_bytes n l e :
  Z.of_nat (length l) = n → excess n l e → bits_to_bytes (l ++ replicate e 0) = bits_to_bytes l.
Proof.
  intros Hl [->|(-> & Hn & l' & ->)]; [by rewrite app_nil_r|].
  rewrite length_app, length_replicate in Hl.
  pose proof (Z.div_mod n 8 ltac:(lia)).
  assert (Hl' : length l' = (8 * Z.to_nat (n `div` 8))%nat) by lia.
  rewrite <- app_assoc, !(bits_to_bytes_app l' _ _ Hl'). done.
Qed.

(** The bits of the code words, the last one possibly of four bits. *)
Definition code_bits (n i code : Z) : list Z :=
  if (n `mod` 8 =? 4) && (i =? n `div` 8) then to_bits 4 code else to_bits 8 code.

(** The code words of a stream of [n] bits, and their bits. *)
Lemma packed_bits n l :
  Z.of_nat (length l) = n → n `mod` 8 = 0 ∨ n `mod` 8 = 4 → Forall is_bit l →
  let D := bits_to_bytes l in
  Z.of_nat (length D) = (n + 4) `div` 8 ∧ Forall is_byte D ∧
  (range 0 (Z.of_nat (length D)) ≫= λ i, code_bits n i (nthZ D i)) = l.
Proof.
  intros Hl Hn Hb D. pose proof (Z.div_mod n 8 ltac:(lia)) as Hdm.
  set (m := Z.to_nat (n `div` 8)). assert (Hm : n `div` 8 = Z.of_nat m).
  { unfold m. pose proof (Z.div_pos n 8 ltac:(lia) ltac:(lia)). lia. }
  assert (Hbytes : Forall is_byte D) by by apply bits_to_bytes_range.
  rewrite <- (take_drop (8 * m) l). set (l1 := take (8 * m) l). set (l2 := drop (8 * m) l).
  assert (Hl1 : length l1 = (8 * m)%nat) by (unfold l1; rewrite length_take; lia).
  assert (Hl2 : Z.of_nat (length l2) = n `mod` 8) by (unfold l2; rewrite length_drop; lia).
  assert (Hb1 : Forall is_bit l1) by by apply Forall_take.
  assert (Hb2 : Forall is_bit l2) by by apply Forall_drop.
  assert (ED : D = bits_to_bytes l1 ++ bits_to_bytes l2).
  { unfold D. rewrite <- (take_drop (8 * m) l) at 1. by apply (bits_to_bytes_app _ _ m). }
  assert (HD1 : length (bits_to_bytes l1) = m).
  { by rewrite (bits_to_bytes_full l1 m Hl1), length_fmap, length_seq. }
  pose proof (range_bytes (bits_to_bytes l1)) as E1.
  rewrite (bytes_to_bits_pack l1 m Hb1 Hl1), HD1 in E1. set (B := bits_to_bytes l1) in *.
  rewrite ED in *. clear ED. unfold code_bits.
  destruct Hn as [Hn|Hn]; rewrite Hn in *.
  - destruct l2 as [|]; [|simpl in Hl2; lia]. change (bits_to_bytes []) with (@nil Z) in *.
    rewrite !app_nil_r in *. rewrite HD1. split; [|by split].
    apply Z.div_unique with 4; lia.
  - destruct l2 as [|b0 [|b1 [|b2 [|b3 [|]]]]]; simpl in Hl2; try lia.
    change (bits_to_bytes [b0; b1; b2; b3]) with [of_bits [b0; b1; b2; b3]] in *.
    rewrite !length_app, HD1. cbn [length].
    split; [apply Z.div_unique with 0; lia|]. split; [done|].
    replace (Z.of_nat (m + 1)) with (Z.of_nat m + 1) by lia. rewrite range_snoc, bind_app by lia.
    f_equal.
    + transitivity (range 0 (Z.of_nat m) ≫= λ i, to_bits 8 (nthZ B i)); [|exact E1].
      apply Forall_bind_ext, Forall_forall. intros i Hi%elem_of_range.
      rewrite Hm, (proj2 (Z.eqb_neq i (Z.of_nat m))), andb_false_r by lia.
      unfold nthZ. by rewrite !list_lookup_total_alt, lookup_app_l by lia.
    + cbn [mbind list_bind]. rewrite app_nil_r, Hm. cbn [Z.eqb Pos.eqb andb].
      rewrite (nthZ_lookup _ _ (of_bits [b0; b1; b2; b3])); [rewrite Z.eqb_refl; by apply (to_of_bits [b0; b1; b2; b3])|].
      by rewrite Nat2Z.id, lookup_app_r, HD1, Nat.sub_diag by lia.
Qed.

(** ** Byte streams *)

(** The bits of an input object, and the stream that fills its symbol. *)
Definition micro_stream (i : QRinput) : list Z := stream true (version i) (head i).

Definition micro_padded (i : QRinput) : list Z :=
  padded_mqr (MQRspec_getDataLengthBit (version i) (level i)) (term_bits (version i))
    (micro_stream i).

Definition micro_fits (i : QRinput) : Prop :=
  Z.of_nat (length (micro_stream i)) ≤ MQRspec_getDataLengthBit (version i) (level i).

(** The object after its entries have been encoded. *)
Definition micro_encoded (i : QRinput) : QRinput :=
  set_head (encoded true (version i) <$> head i) i.

(** A Micro QR input that the encoder can handle. *)
Record micro_input (i : QRinput) : Prop := {
  mi_mqr : mqr i = true;
  mi_version : 1 ≤ version i ≤ 4;
  mi_level : mqr_supported (version i) (level i);
  mi_entries : Forall (encodable_entry true (version i)) (head i)
}.

Definition micro_too_large (i : QRinput) (e : option errno_t) (i' : QRinput) : Prop :=
  e = Some ERANGE ∧ i' = micro_encoded i ∧ ¬ micro_fits i.

Section byte_stream.
Context {Inv : statics → Prop}.

Lemma appendPaddingBitMQR_large l i (Q : BitStream → Prop) (E : option errno_t → Prop) :
  MQRspec_getDataLengthBit (version i) (level i) < Z.of_nat (length l) → E (Some ERANGE) →
  spec Inv (QRinput_appendPaddingBitMQR (bs_of l) i) Q E.
Proof.
  intros Hl HE. unfold QRinput_appendPaddingBitMQR, BitStream_size. cbn [bs_of blen].
  rewrite (proj2 (Z.ltb_lt _ _)) by done. by apply spec_raise.
Qed.

Lemma micro_byteStream_spec i :
  micro_input i →
  sm_spec Inv QRinput_getByteStream i
    (λ d i', i' = micro_encoded i ∧ micro_fits i ∧ d = bits_to_bytes (micro_padded i))
    (micro_too_large i).
Proof.
  intros [Hm Hv Hl Hes].
  destruct (mqr_numbers (version i) (level i) Hv Hl) as (Hpos & Hn & _).
  unfold QRinput_getByteStream, QRinput_getBitStream.
  eapply sm_bind with (P := λ b i', i' = micro_encoded i ∧ micro_fits i ∧ ∃ e,
    b = bs_of (micro_padded i ++ replicate e 0) ∧
    excess (MQRspec_getDataLengthBit (version i) (level i)) (micro_padded i) e).
  - eapply sm_bind with (P := λ b i', i' = micro_encoded i ∧ b = bs_of (micro_stream i)).
    + apply sm_get_bind. rewrite Hm. eapply sm_bind with (P := λ _ i', i' = micro_encoded i).
      { eapply sm_bind; [apply createBitStream_spec; by rewrite Hm|].
        intros n i' [_ ->]. apply sm_ret. unfold micro_encoded. by rewrite Hm. }
      intros _ i' ->. eapply sm_lift_bind; [apply BitStream_new_spec|]. intros ? ->.
      apply sm_get_bind. apply sm_lift.
      eapply spec_mono; [apply (merge_entries_spec _ _ _ [] no_failure)|by intros ? ->|by intros ? []].
    + intros b i' [-> ->]. apply sm_get_bind. change (mqr (micro_encoded i)) with (mqr i).
      rewrite Hm. apply sm_lift.
      destruct (decide (micro_fits i)) as [Hfit|Hbig].
      * eapply spec_mono; [apply (appendPaddingBitMQR_spec _ _ no_failure); done| |by intros ? []].
        intros b (e & -> & He). split; [done|]. split; [done|]. by exists e.
      * apply appendPaddingBitMQR_large; [|done]. unfold micro_fits in Hbig. cbn. lia.
  - intros b i' (-> & Hfit & e & -> & He). apply sm_lift.
    pose proof (length_padded_mqr _ (term_bits (version i)) _ ltac:(unfold term_bits; lia) Hfit) as Hlp.
    fold (micro_padded i) in Hlp.
    assert (Hb : Forall is_bit (micro_padded i)) by apply padded_mqr_bits, stream_bits.
    eapply spec_mono; [apply (BitStream_toByte_spec _ no_failure)| |by intros ? []].
    + apply Forall_app. split; [done|]. by apply Forall_replicate; left.
    + intros E0%app_eq_nil. destruct E0 as [E0 _]. rewrite E0 in Hlp. simpl in Hlp. lia.
    + intros ? ->. split; [done|]. split; [done|]. by eapply excess_bytes.
Qed.
End byte_stream.
