(* ===== verification/MicroSymbols.v ===== *)
(** * Micro QR symbols

    The contract of [MQRRawCode] and of [QRcode_encodeMaskMQR]: the padded
    stream and the parity of its one block along the walk of the filler, under
    a mask, with the format information. *)

From S2P Require Import Prelude CModel BitStream RSCode RSTheory QRSpec MQRSpec FrameFiller.
From S2P Require Import Mask MaskTheory MMask Caches QRInput QRInputTheory QREncode Blocks.
From S2P Require Import Symbols MicroInput.

(** ** Reference definitions *)

Definition micro_data (i : QRinput) : list Z := bits_to_bytes (micro_padded i).

Definition micro_parity (i : QRinput) : list Z :=
  rs_parity (MQRspec_getECCLength (version i) (level i)) (micro_data i).

(** The bits of a symbol: the padded stream, whose last code word may have four
    bits, and the parity. *)
Definition micro_bits (i : QRinput) : list Z := micro_padded i ++ bytes_to_bits (micro_parity i).

Definition mblank (v : Z) : carray := default (anew 0) (outcome_value (MQRspec_drawFrame v)).

Definition mfilled (i : QRinput) : carray :=
  fill (MQRspec_getWidth (version i)) true (mblank (version i)) (micro_bits i).

Definition micro_symbol (k : Z) (i : QRinput) : QRcode :=
  let v := version i in
  let w := MQRspec_getWidth v in
  MkCode v w (CArray (w * w) (mmasked_symbol v k (level i) (acells (mfilled i)))).

Lemma mblank_ok v :
  1 ≤ v ≤ 4 →
  MQRspec_drawFrame v = Ret (mblank v) ∧
  frame_ok (mqr_modules v) (MQRspec_getWidth v) true mqr_reference (mblank v).
Proof. intros Hv. unfold mblank. by destruct (mqr_frame_spec v Hv) as (f & -> & Hf). Qed.

(** The lower edge has data modules only. *)
Lemma lower_edge_data v x :
  1 ≤ v ≤ 4 → let w := MQRspec_getWidth v in 1 ≤ x < w → data_module (mblank v) ((w - 1) * w + x).
Proof.
  intros Hv w Hx. destruct (mblank_ok v Hv) as [_ (_ & _ & Hcells & _)]. fold w in Hcells.
  assert (Hw : 11 ≤ w) by (unfold w; rewrite mcapacity_width; lia).
  exists 0. split; [|done]. rewrite Hcells by lia. unfold mqr_reference, ring.
  rewrite (proj2 (Z.leb_gt _ 4)) by lia. repeat (case_bool; cbn [orb andb]; try lia; try done).
Qed.

Section micro_symbols.
Context (i : QRinput) (Hi : micro_input i) (Hfit : micro_fits i).

Abbreviation v := (version i).
Abbreviation w := (MQRspec_getWidth (version i)).
Abbreviation n := (MQRspec_getDataLengthBit (version i) (level i)).
Abbreviation words := (MQRspec_getDataLength (version i) (level i)).
Abbreviation ecc := (MQRspec_getECCLength (version i) (level i)).
Abbreviation D := (micro_data i).

Lemma micro_padded_bits : Forall is_bit (micro_padded i).
Proof. apply padded_mqr_bits, stream_bits. Qed.

Lemma length_micro_padded : Z.of_nat (length (micro_padded i)) = n.
Proof.
  destruct (mi_version _ Hi). apply length_padded_mqr; [unfold term_bits; lia|exact Hfit].
Qed.

Lemma micro_geometry :
  0 < n ∧ (n `mod` 8 = 0 ∨ n `mod` 8 = 4) ∧ words = (n + 4) `div` 8 ∧ 1 ≤ ecc ≤ 30 ∧
  words + ecc < 255 ∧
  n + ecc * 8 = MQRspec_getDataLengthBit v QR_ECLEVEL_L + MQRspec_getECCLength v QR_ECLEVEL_L * 8.
Proof. destruct Hi. by apply mqr_numbers. Qed.

Lemma micro_data_spec :
  Z.of_nat (length D) = words ∧ Forall is_byte D ∧
  (range 0 words ≫= λ j, code_bits n j (nthZ D j)) = micro_padded i.
Proof.
  destruct micro_geometry as (_ & Hn & Hw & _).
  destruct (packed_bits n (micro_padded i) length_micro_padded Hn micro_padded_bits) as (HD & Hb & E).
  cbv zeta in HD, E. fold D in HD, Hb, E. rewrite HD, <- Hw in *. done.
Qed.

Lemma words_positive : 1 ≤ words.
Proof.
  destruct micro_geometry as (Hpos & Hn & -> & _). apply Z.div_le_lower_bound; [lia|].
  pose proof (Z.div_mod n 8 ltac:(lia)). lia.
Qed.

Lemma micro_parity_spec :
  encode_rs_char (qr_rs ecc (255 - words - ecc)) D = Ret (micro_parity i) ∧
  Z.of_nat (length (micro_parity i)) = ecc ∧ Forall is_byte (micro_parity i) ∧
  rs_codeword ecc (D ++ micro_parity i).
Proof.
  destruct micro_data_spec as (HD & Hb & _). destruct micro_geometry as (_ & _ & _ & He & Hs & _).
  pose proof words_positive. rewrite <- HD at 1. unfold micro_parity.
  apply rs_parity_spec; [unfold RS_NROOTS_MAX; lia|lia|lia|done].
Qed.

Lemma length_micro_bits : length (micro_bits i) = mqr_modules v.
Proof.
  unfold micro_bits, mqr_modules. rewrite length_app, length_bytes_to_bits.
  destruct micro_parity_spec as (_ & Hp & _). pose proof length_micro_padded.
  destruct micro_geometry as (_ & _ & _ & _ & _ & E). lia.
Qed.

Lemma micro_bits_bits : Forall is_bit (micro_bits i).
Proof. apply Forall_app. split; [apply micro_padded_bits|apply bytes_to_bits_bits]. Qed.

Lemma mfilled_maskable : mmaskable v (mfilled i).
Proof.
  pose proof (mi_version _ Hi) as Hv. destruct (mblank_ok v Hv) as [_ Hok].
  split; [done|].
  split; [apply (fill_full _ _ _ _ _ _ Hok length_micro_bits micro_bits_bits)|].
  intros x Hx. apply (fill_data _ _ _ _ _ _ Hok length_micro_bits micro_bits_bits).
  by apply lower_edge_data.
Qed.

Lemma mfilled_run :
  ∃ f, foldM put_module (module_of <$> micro_bits i) (mblank v, filler_init w true)
       = Ret (mfilled i, f).
Proof.
  destruct (mblank_ok v (mi_version _ Hi)) as [_ Hok].
  apply (fill_run _ _ _ _ _ _ Hok length_micro_bits micro_bits_bits).
Qed.

(** ** Raw code *)

Record mraw_for (k : Z) (raw : MQRRawCode) : Prop := {
  mf_version : mraw_version raw = v;
  mf_dataLength : mraw_dataLength raw = words;
  mf_eccLength : mraw_eccLength raw = ecc;
  mf_datacode : mraw_datacode raw = D;
  mf_ecccode : ∀ c, 0 ≤ c < ecc → acells (mraw_ecccode raw) !! c = Some (nthZ (micro_parity i) c);
  mf_oddbits : mraw_oddbits raw = words * 8 - n;
  mf_count : mraw_count raw = k
}.

Lemma MQRraw_getCode_spec k raw :
  0 ≤ k < words + ecc → mraw_for k raw →
  MQRraw_getCode raw = Ret (nthZ (D ++ micro_parity i) k, mcount_one raw).
Proof.
  intros Hk []. unfold MQRraw_getCode.
  rewrite mf_dataLength0, mf_eccLength0, mf_datacode0, mf_count0.
  destruct micro_data_spec as (HD & _). destruct micro_parity_spec as (_ & Hp & _).
  destruct (Z.ltb_spec k words) as [Hlt|Hge].
  - destruct (readZ_lt D k) as (x & Hx & ->); [lia|]. cbn [mbind outcome_bind].
    rewrite (nthZ_lookup (D ++ _) _ x); [done|]. by apply lookup_app_l_Some.
  - rewrite (proj2 (Z.ltb_lt _ _)) by lia. specialize (mf_ecccode0 (k - words) ltac:(lia)).
    destruct (mraw_ecccode raw) as [el em]. cbn [acells] in mf_ecccode0.
    rewrite (aget_Some _ _ _ _ mf_ecccode0). cbn [mbind outcome_bind]. do 2 f_equal.
    unfold nthZ. rewrite !list_lookup_total_alt, lookup_app_r by lia. do 2 f_equal. lia.
Qed.

Lemma MQRraw_getCode_end k raw :
  words + ecc ≤ k → mraw_for k raw → MQRraw_getCode raw = Ret (0, raw).
Proof.
  intros Hk []. unfold MQRraw_getCode. rewrite mf_dataLength0, mf_eccLength0, mf_count0.
  destruct micro_geometry as (_ & _ & _ & ? & _). by rewrite !(proj2 (Z.ltb_ge _ _)) by lia.
Qed.

(** ** Placement *)

(** The odd bits of the last data code word. *)
Lemma odd_bits :
  (n `mod` 8 = 0 ∧ words * 8 - n = 0 ∧ words = n `div` 8)
  ∨ (n `mod` 8 = 4 ∧ words * 8 - n = 4 ∧ words - 1 = n `div` 8).
Proof.
  destruct micro_geometry as (_ & Hn & E & _). pose proof (Z.div_mod n 8 ltac:(lia)).
  destruct Hn as [Hn|Hn]; rewrite Hn in *; [left|right].
  - assert ((n + 4) `div` 8 = n `div` 8) by (symmetry; apply Z.div_unique with 4; lia). lia.
  - assert ((n + 4) `div` 8 = n `div` 8 + 1) by (symmetry; apply Z.div_unique with 0; lia). lia.
Qed.

Lemma placed_bits :
  (range 0 (words + ecc) ≫= λ j, code_bits n j (nthZ (D ++ micro_parity i) j)) = micro_bits i.
Proof.
  destruct micro_data_spec as (HD & _ & E). destruct micro_parity_spec as (_ & Hp & _).
  pose proof words_positive. unfold micro_bits.
  assert (Hr : range 0 (words + ecc) = range 0 words ++ (Z.add words <$> range 0 ecc)).
  { rewrite !range_seqZ, !Z.sub_0_r, seqZ_app, fmap_add_seqZ by lia. do 2 f_equal. lia. }
  rewrite Hr, bind_app. f_equal.
  - rewrite <- E. apply Forall_bind_ext, Forall_forall. intros j Hj%elem_of_range.
    f_equal. unfold nthZ. by rewrite !list_lookup_total_alt, lookup_app_l by lia.
  - rewrite list_fmap_bind, <- Hp, <- range_bytes. apply Forall_bind_ext, Forall_forall.
    intros j Hj%elem_of_range. unfold compose, code_bits.
    replace ((n `mod` 8 =? 4) && (words + j =? n `div` 8)) with false.
    2:{ destruct odd_bits as [(-> & _)|(_ & _ & <-)]; [done|]. symmetry. apply andb_false_iff. right.
        apply Z.eqb_neq. lia. }
    f_equal. unfold nthZ. rewrite !list_lookup_total_alt, lookup_app_r by lia. do 2 f_equal. lia.
Qed.

(** The loop of [QRcode_encodeMaskMQR] over a raw code. *)
Lemma mplacement raw :
  mraw_for 0 raw →
  ∃ raw' f, for_range 0 (mraw_dataLength raw + mraw_eccLength raw) (λ j '(raw, st),
      '(code, raw) ← MQRraw_getCode raw;
      st ← (if truth (mraw_oddbits raw) && (j =? mraw_dataLength raw - 1)
            then put_code (mraw_oddbits raw) (u8 (Z.shiftl 1 (mraw_oddbits raw - 1))) code st
            else put_code 8 0x80 code st);
      mret (raw, st)) (raw, (mblank v, filler_init w true)) = Ret (raw', (mfilled i, f)).
Proof.
  intros Hraw. destruct micro_geometry as (_ & _ & _ & He & _). pose proof words_positive.
  set (nth_raw := λ k, MkMRaw (mraw_version raw) (mraw_dataLength raw) (mraw_eccLength raw)
    (mraw_datacode raw) (mraw_ecccode raw) (mraw_rsblock raw) (mraw_oddbits raw) k).
  assert (Hnth : ∀ k, mraw_for k (nth_raw k)) by (intros k; destruct Hraw; by split).
  assert (E0 : raw = nth_raw 0).
  { destruct Hraw. destruct raw. cbn in *. by subst. }
  rewrite (mf_dataLength _ _ Hraw), (mf_eccLength _ _ Hraw).
  replace (words + ecc) with (Z.of_nat (Z.to_nat (words + ecc))) by lia. rewrite E0.
  rewrite (code_loop _ nth_raw (λ j, code_bits n j (nthZ (D ++ micro_parity i) j))).
  - rewrite Z2Nat.id, placed_bits by lia. destruct mfilled_run as [f ->]. cbn [mbind outcome_bind].
    by eexists _, f.
  - intros j st Hj. rewrite (MQRraw_getCode_spec j) by (done || lia).
    cbn [mbind outcome_bind]. change (mcount_one (nth_raw j)) with (nth_raw (j + 1)).
    pose proof (Hnth (j + 1)) as [_ -> _ _ _ -> _]. unfold code_bits.
    destruct odd_bits as [(-> & -> & _)|(-> & -> & <-)].
    + cbn [truth Z.eqb negb andb]. by rewrite (put_code_spec 8) by lia.
    + cbn [truth Z.eqb Pos.eqb negb andb]. destruct (j =? words - 1).
      * change (u8 (Z.shiftl 1 (4 - 1))) with (2 ^ (Z.of_nat 4 - 1)).
        by rewrite (put_code_spec 4) by lia.
      * by rewrite (put_code_spec 8) by lia.
Qed.
End micro_symbols.

(** ** The encoder *)

Lemma MQRraw_new_spec i :
  micro_input i →
  sm_spec caches_ok MQRraw_new i
    (λ raw i', i' = micro_encoded i ∧ micro_fits i ∧ mraw_for i 0 raw) (micro_too_large i).
Proof.
  intros Hi. unfold MQRraw_new.
  eapply sm_lift_bind; [by apply (spec_malloc _ (λ _, True))|]. intros _ _. apply sm_get_bind.
  eapply sm_bind; [by apply micro_byteStream_spec|]. intros d i' (-> & Hfit & ->).
  fold (micro_data i).
  destruct (micro_geometry i Hi) as (_ & _ & _ & He & Hs & _).
  pose proof (words_positive i Hi) as Hw.
  destruct (micro_parity_spec i Hi Hfit) as (Epar & Hlp & _).
  set (ecc := MQRspec_getECCLength (version i) (level i)) in *.
  set (words := MQRspec_getDataLength (version i) (level i)) in *.
  eapply sm_lift_bind; [apply (spec_malloc _ (λ _, True)); [lia|done]|]. intros _ _.
  eapply sm_lift_bind; [by apply (spec_malloc _ (λ _, True))|]. intros _ _.
  eapply sm_lift_bind; [apply init_rs_cached; unfold qr_params, RS_NROOTS_MAX; lia|]. intros ? ->.
  unfold RSblock_initBlock. change (drop (Z.to_nat 0) (micro_data i)) with (micro_data i).
  rewrite Epar. cbn [mbind outcome_bind].
  change (rs_nroots (qr_rs ecc _)) with ecc.
  destruct (for_range_inv (λ k e, alen e = ecc ∧ ∀ c, 0 ≤ c < k →
      acells e !! c = Some (nthZ (micro_parity i) c)) 0 ecc
      (λ k, aset (0 + k) (nthZ (micro_parity i) k)) (anew ecc))
    as (e & -> & He1 & He2); [lia|split; [done|lia]| |].
  { intros k [el em] Hk [Hel Hem]. simpl in Hel. subst el. rewrite Z.add_0_l, aset_in by lia.
    eexists. split; [done|]. split; [done|]. intros c Hc. cbn [acells].
    destruct (decide (c = k)) as [->|Hne]; [by rewrite lookup_insert_eq|].
    rewrite lookup_insert_ne by done. apply Hem. lia. }
  cbn [mbind outcome_bind].
  eapply sm_lift_bind; [by apply (spec_liftO _ _ (λ x, x = (MkBlock words (Some 0) ecc (Some 0), e)) _ eq_refl)|].
  intros ? ->. cbv beta iota. apply sm_ret. split; [done|]. split; [done|]. by split.
Qed.

(** [QRcode_encodeMaskMQR] returns the symbol of the input, or reports with
    [ERANGE] that its data does not fit. *)
Lemma QRcode_encodeMaskMQR_spec i mask :
  micro_input i → -1 ≤ mask < 4 →
  sm_spec caches_ok (QRcode_encodeMaskMQR mask) i
    (λ c i', ∃ k, i' = micro_encoded i ∧ micro_fits i ∧
      (0 ≤ mask → k = mask) ∧
      (mask < 0 → highest_mask (λ k, symbol_score (MQRspec_getWidth (version i))
         (acells (code_data (micro_symbol k i)))) k) ∧
      c = micro_symbol k i)
    (micro_too_large i).
Proof.
  intros Hi Hmask. unfold QRcode_encodeMaskMQR. apply sm_get_bind.
  pose proof (mi_mqr _ Hi) as Hm. pose proof (mi_version _ Hi) as Hv. rewrite Hm. cbn [negb].
  rewrite (proj2 (Z.leb_gt (version i) 0)), (proj2 (Z.ltb_ge MQRSPEC_VERSION_MAX (version i)))
    by (unfold MQRSPEC_VERSION_MAX; lia). cbn [orb].
  rewrite (proj2 (Z.ltb_ge _ _)).
  2:{ destruct (mi_level _ Hi) as [x Hx]. destruct (level i); try done.
      unfold symbol_number in Hx. by repeat case_match. }
  eapply sm_bind; [by apply MQRraw_new_spec|].
  intros raw i' (-> & Hfit & Hraw). rewrite (mf_version _ _ _ Hraw).
  destruct (mblank_ok (version i) Hv) as [Eblank _].
  eapply sm_lift_bind; [by apply MQRspec_newFrame_spec|]. intros ? ->.
  eapply sm_lift_bind with (P := λ f, f = filler_init (MQRspec_getWidth (version i)) true).
  { eapply spec_bind; [by apply (spec_malloc _ (λ _, True))|]. intros _ _. by apply spec_ret. }
  intros ? ->.
  destruct (mplacement i Hi Hfit raw Hraw) as (raw' & f & E).
  eapply sm_lift_bind; [eapply (spec_liftO _ _ (λ x, x = (raw', (mfilled i, f)))); [exact E|done]|].
  intros ? ->. cbv beta iota. apply sm_get_bind. change (level (micro_encoded i)) with (level i).
  pose proof (mfilled_maskable i Hi Hfit) as Hmaskable.
  apply sm_lift_lift. apply spec_bind with (P := λ m, ∃ k, (0 ≤ mask → k = mask) ∧
    (mask < 0 → highest_mask (λ k, symbol_score (MQRspec_getWidth (version i))
         (acells (code_data (micro_symbol k i)))) k) ∧ m = code_data (micro_symbol k i)).
  - destruct (Z.ltb_spec mask 0).
    + eapply spec_mono; [apply (MMask_mask_returns _ (level i) _ Hmaskable)| |by intros ? []].
      intros ? (k & Hk & ->). exists k. split; [lia|]. by split.
    + eapply spec_mono; [apply (MMask_makeMask_returns _ (level i) _ Hmaskable); lia| |by intros ? []].
      intros ? ->. exists mask. split; [done|]. split; [lia|]. done.
  - intros ? (k & H1 & H2 & ->). eapply spec_bind; [by apply (spec_malloc _ (λ _, True))|].
    intros _ _. apply spec_ret. exists k. split; [done|]. split; [done|]. split; [done|].
    split; [exact H2|done].
Qed.
