(* ===== verification/Split.v ===== *)
(** * Input data splitter (split.c)

    Cuts a string into entries of the modes that encode it in few bits. A
    pointer into the string is modelled by the rest of the string from it on;
    the terminating zero is not part of the list. *)

From S2P Require Import Prelude CModel QRSpec QRInput.

(** ** Characters *)

(** The byte at a pointer, 0 at the end of the string. *)
Definition chr (p : list Z) : Z := match p with [] => 0 | c :: _ => c end.

(** The macros [isdigit] and [isalnum] of split.c. *)
Definition isdigit (c : Z) : bool := u8 (s8 c - 48) <? 10.
Definition isalnum (c : Z) : bool := 0 <=? QRinput_lookAnTable c.

Definition Split_identifyMode (string : list Z) (hint : QRencodeMode) : QRencodeMode :=
  let c := chr string in
  if c =? 0 then QR_MODE_NUL
  else if isdigit c then QR_MODE_NUM
  else if isalnum c then QR_MODE_AN
  else if decide (hint = QR_MODE_KANJI) then
    let d := chr (List.tl string) in
    if negb (d =? 0) then
      let word := Z.lor (Z.shiftl c 8) d in
      if ((0x8140 <=? word) && (word <=? 0x9ffc)) || ((0xe040 <=? word) && (word <=? 0xebbf))
      then QR_MODE_KANJI else QR_MODE_8
    else QR_MODE_8
  else QR_MODE_8.

(** [while(f( *p)) p++;] The functions [f] are false at the terminator. *)
Fixpoint skip_while (f : Z → bool) (p : list Z) : list Z :=
  match p with
  | [] => []
  | c :: p' => if f c then skip_while f p' else p
  end.

(** The difference [q - p] of pointers into the same string. *)
Definition distance (q p : list Z) : Z := Z.of_nat (length p) - Z.of_nat (length q).

(** ** Runs

    Every iteration of the loops advances the pointer, so the length of the
    string bounds their number. *)

Definition is_8 (m : QRencodeMode) : bool := bool_decide (m = QR_MODE_8).

(** The loop of [Split_eat8] from [p] on. *)
Fixpoint eat8_loop (fuel : nat) (la ln l8 : Z) (hint : QRencodeMode) (string p : list Z) : list Z :=
  match fuel with
  | O => p
  | S fuel =>
    if chr p =? 0 then p
    else
      match Split_identifyMode p hint with
      | QR_MODE_KANJI => p
      | QR_MODE_NUM =>
        let q := skip_while isdigit p in
        let swcost := if is_8 (Split_identifyMode q hint) then 4 + l8 else 0 in
        let dif := QRinput_estimateBitsMode8 (distance p string)
                   + QRinput_estimateBitsModeNum (distance q p) + 4 + ln
                   + swcost
                   - QRinput_estimateBitsMode8 (distance q string) in
        if dif <? 0 then p else eat8_loop fuel la ln l8 hint string q
      | QR_MODE_AN =>
        let q := skip_while isalnum p in
        let swcost := if is_8 (Split_identifyMode q hint) then 4 + l8 else 0 in
        let dif := QRinput_estimateBitsMode8 (distance p string)
                   + QRinput_estimateBitsModeAn (distance q p) + 4 + la
                   + swcost
                   - QRinput_estimateBitsMode8 (distance q string) in
        if dif <? 0 then p else eat8_loop fuel la ln l8 hint string q
      | _ => eat8_loop fuel la ln l8 hint string (List.tl p)
      end
  end.

(** The routines return the length of the run that they appended. *)
Definition Split_eat8 (string : list Z) (hint : QRencodeMode) : SM QRinput Z :=
  input ← get;
  let la := QRspec_lengthIndicator QR_MODE_AN (version input) in
  let ln := QRspec_lengthIndicator QR_MODE_NUM (version input) in
  let l8 := QRspec_lengthIndicator QR_MODE_8 (version input) in
  let p := eat8_loop (length string) la ln l8 hint string (List.tl string) in
  let run := distance p string in
  _ ← QRinput_append QR_MODE_8 run string;
  mret run.

(** The loop of [Split_eatAn] from [p] on. *)
Fixpoint eatAn_loop (fuel : nat) (ln : Z) (string p : list Z) : list Z :=
  match fuel with
  | O => p
  | S fuel =>
    if isalnum (chr p) then
      if isdigit (chr p) then
        let q := skip_while isdigit p in
        let dif := QRinput_estimateBitsModeAn (distance p string)
                   + QRinput_estimateBitsModeNum (distance q p) + 4 + ln
                   + (if isalnum (chr q) then 4 + ln else 0)
                   - QRinput_estimateBitsModeAn (distance q string) in
        if dif <? 0 then p else eatAn_loop fuel ln string q
      else eatAn_loop fuel ln string (List.tl p)
    else p
  end.

Definition Split_eatAn (string : list Z) (hint : QRencodeMode) : SM QRinput Z :=
  input ← get;
  let la := QRspec_lengthIndicator QR_MODE_AN (version input) in
  let ln := QRspec_lengthIndicator QR_MODE_NUM (version input) in
  let p := eatAn_loop (S (length string)) ln string string in
  let run := distance p string in
  let dif := QRinput_estimateBitsModeAn run + 4 + la
             + QRinput_estimateBitsMode8 1
             - QRinput_estimateBitsMode8 (run + 1) in
  if negb (chr p =? 0) && negb (isalnum (chr p)) && (0 <? dif) then Split_eat8 string hint
  else
    _ ← QRinput_append QR_MODE_AN run string;
    mret run.

Definition Split_eatNum (string : list Z) (hint : QRencodeMode) : SM QRinput Z :=
  input ← get;
  let ln := QRspec_lengthIndicator QR_MODE_NUM (version input) in
  let p := skip_while isdigit string in
  let run := distance p string in
  let mode := Split_identifyMode p hint in
  let dif8 := QRinput_estimateBitsModeNum run + 4 + ln
              + QRinput_estimateBitsMode8 1
              - QRinput_estimateBitsMode8 (run + 1) in
  let difAn := QRinput_estimateBitsModeNum run + 4 + ln
               + QRinput_estimateBitsModeAn 1
               - QRinput_estimateBitsModeAn (run + 1) in
  if is_8 mode && (0 <? dif8) then Split_eat8 string hint
  else if bool_decide (mode = QR_MODE_AN) && (0 <? difAn) then Split_eatAn string hint
  else
    _ ← QRinput_append QR_MODE_NUM run string;
    mret run.

(** The loop of [Split_eatKanji]. *)
Fixpoint eatKanji_loop (fuel : nat) (hint : QRencodeMode) (p : list Z) : list Z :=
  match fuel with
  | O => p
  | S fuel =>
    if decide (Split_identifyMode p hint = QR_MODE_KANJI)
    then eatKanji_loop fuel hint (drop 2 p) else p
  end.

Definition Split_eatKanji (string : list Z) (hint : QRencodeMode) : SM QRinput Z :=
  let p := eatKanji_loop (length string) hint string in
  let run := distance p string in
  _ ← QRinput_append QR_MODE_KANJI run string;
  mret run.

(** ** Whole strings *)

Fixpoint Split_splitString (fuel : nat) (string : list Z) (hint : QRencodeMode) : SM QRinput unit :=
  match fuel with
  | O => lift undef
  | S fuel =>
    if chr string =? 0 then mret tt
    else
      length ← match Split_identifyMode string hint with
               | QR_MODE_NUM => Split_eatNum string hint
               | QR_MODE_AN => Split_eatAn string hint
               | QR_MODE_KANJI =>
                 if decide (hint = QR_MODE_KANJI) then Split_eatKanji string hint
                 else Split_eat8 string hint
               | _ => Split_eat8 string hint
               end;
      if length =? 0 then mret tt
      else Split_splitString fuel (drop (Z.to_nat length) string) hint
  end.

(** The loop of [dupAndToUpper], which leaves kanji alone. *)
Fixpoint to_upper (hint : QRencodeMode) (p : list Z) : list Z :=
  match p with
  | [] => []
  | c :: p' =>
    if decide (Split_identifyMode p hint = QR_MODE_KANJI) then
      match p' with d :: p'' => c :: d :: to_upper hint p'' | [] => [c] end
    else (if (97 <=? s8 c) && (s8 c <=? 122) then u8 (c - 32) else c) :: to_upper hint p'
  end.

Definition dupAndToUpper (str : list Z) (hint : QRencodeMode) : M (list Z) :=
  _ ← malloc (Z.of_nat (length str) + 1);
  mret (to_upper hint str).

(** [None] is the null pointer. *)
Definition Split_splitStringToQRinput (string : option (list Z)) (hint : QRencodeMode)
    (casesensitive : bool) : SM QRinput unit :=
  match string with
  | None | Some [] => lift (raise EINVAL)
  | Some string =>
    if negb casesensitive then
      newstr ← lift (dupAndToUpper string hint);
      Split_splitString (S (length newstr)) newstr hint
    else Split_splitString (S (length string)) string hint
  end.
