(* ===== verification/SplitTheory.v ===== *)
(** * Theory of the splitter

    The entries that the splitter appends are valid, and their data is the
    string, cut into pieces. *)

From S2P Require Import Prelude CModel QRSpec QRInput QRInputTheory Split.

(** ** Reference definitions *)

Definition new_entry (mode : QRencodeMode) (data : list Z) : QRinput_List :=
  MkEntry mode (Z.of_nat (length data)) data None.

(** An entry of one of the four data modes that [QRinput_check] accepts. *)
Record data_entry (e : QRinput_List) : Prop := {
  de_mode : QRinput_isSplittableMode (e_mode e) = true;
  de_size : e_size e = Z.of_nat (length (e_data e));
  de_nonempty : e_data e ≠ [];
  de_bytes : Forall is_byte (e_data e);
  de_data : mode_data (e_mode e) (e_data e) = true
}.

(** The tail pointer of an object that grows by appending only. *)
Definition tail_ok (i : QRinput) : Prop :=
  tail i = match head i with [] => TNull | _ => TAt (pred (length (head i))) end.

(** The object with the entries [es], the last of them its tail. *)
Definition with_entries (es : list QRinput_List) (i : QRinput) : QRinput :=
  set_tail (match es with [] => TNull | _ => TAt (pred (length es)) end) (set_head es i).

(** A string of C: no byte is zero. *)
Definition c_string (l : list Z) : Prop := Forall (λ c, 0 < c < 256) l.

(** ** Appending *)

Lemma with_entries_tail es i : tail_ok (with_entries es i).
Proof. done. Qed.

Lemma with_entries_same i : tail_ok i → with_entries (head i) i = i.
Proof. intros H. destruct i. unfold tail_ok in H. cbn in *. by rewrite H. Qed.

Lemma c_string_bytes l : c_string l → Forall is_byte l.
Proof. intros H. eapply Forall_impl; [exact H|]. unfold is_byte. cbn. lia. Qed.

Section append.
Context {Inv : statics → Prop}.

Lemma appendEntry_spec e i E :
  tail_ok i → sm_spec Inv (QRinput_appendEntry e) i
                (λ _ i', i' = with_entries (head i ++ [e]) i) E.
Proof.
  intros Ht. apply sm_get_bind. rewrite Ht. destruct (head i) as [|e0 es] eqn:Eh.
  - apply sm_put. unfold with_entries. by destruct i.
  - apply sm_put. rewrite take_ge by (simpl; lia). unfold with_entries. cbn [app].
    unfold set_tail, set_head. cbn. do 2 f_equal. rewrite length_app. simpl. lia.
Qed.

Lemma append_spec mode k rest i E :
  tail_ok i → data_entry (new_entry mode k) →
  sm_spec Inv (QRinput_append mode (Z.of_nat (length k)) (k ++ rest)) i
    (λ _ i', i' = with_entries (head i ++ [new_entry mode k]) i) E.
Proof.
  intros Ht [Hm _ Hne Hb Hd]. cbn in Hm, Hne, Hb, Hd.
  assert (Hpos : (0 < length k)%nat) by (destruct k; [done|simpl; lia]).
  eapply sm_lift_bind with (P := λ e, e = new_entry mode k).
  - pose proof (QRinput_check_take mode (k ++ rest) (length k)) as Ec.
    rewrite take_app_length, QRinput_check_spec, bool_decide_true, Hd in Ec by done.
    eapply spec_mono; [apply (newEntry_spec mode (k ++ rest) (length k) no_failure)| |by intros ? []].
    + rewrite length_app. lia.
    + by rewrite <- Ec.
    + intros ? ->. by rewrite take_app_length.
  - intros ? ->. by apply appendEntry_spec.
Qed.
End append.

(** ** Characters *)

Lemma isdigit_spec c : is_byte c → isdigit c = is_digit c.
Proof.
  intros Hc. apply eqb_prop. revert c Hc.
  apply (byte_cases (λ c, Bool.eqb (isdigit c) (is_digit c))). by vm_compute.
Qed.

Lemma isalnum_spec c : is_byte c → isalnum c = is_an c.
Proof.
  intros Hc. apply eqb_prop. revert c Hc.
  apply (byte_cases (λ c, Bool.eqb (isalnum c) (is_an c))). by vm_compute.
Qed.

Lemma digit_alnum c : is_byte c → isdigit c = true → isalnum c = true.
Proof.
  intros Hc Hd. assert (H : implb (isdigit c) (isalnum c) = true); [|by rewrite Hd in H].
  clear Hd. revert c Hc. apply (byte_cases (λ c, implb (isdigit c) (isalnum c))). by vm_compute.
Qed.

Lemma kanji_word_lor c d : is_byte d → Z.lor (Z.shiftl c 8) d = sjis c d.
Proof. intros Hd. exact (kanji_word_eq c d Hd). Qed.

(** What a pointer to a character of each mode says. *)
Lemma identify_kanji p hint :
  c_string p → Split_identifyMode p hint = QR_MODE_KANJI →
  ∃ c d p', p = c :: d :: p' ∧ is_kanji c d = true.
Proof.
  intros Hp. unfold Split_identifyMode. destruct Hp as [|c p Hc Hp]; [done|].
  cbn [chr List.tl]. destruct (c =? 0); [done|]. destruct (isdigit c); [done|].
  destruct (isalnum c); [done|]. destruct (decide _); [|done].
  destruct Hp as [|d p Hd Hp]; [done|]. cbn [chr]. destruct (negb _); [|done].
  rewrite kanji_word_lor by (unfold is_byte; lia).
  destruct (_ || _) eqn:E; [|done]. intros _. by exists c, d, p.
Qed.

Lemma identify_hint p hint :
  Split_identifyMode p hint = QR_MODE_KANJI → hint = QR_MODE_KANJI.
Proof. unfold Split_identifyMode. by repeat case_match. Qed.

Lemma identify_num p hint : Split_identifyMode p hint = QR_MODE_NUM → isdigit (chr p) = true.
Proof.
  unfold Split_identifyMode. destruct (chr p =? 0), (isdigit (chr p)), (isalnum (chr p)); try done;
    repeat case_match; done.
Qed.

Lemma identify_an p hint :
  Split_identifyMode p hint = QR_MODE_AN → isalnum (chr p) = true ∧ isdigit (chr p) = false.
Proof.
  unfold Split_identifyMode. destruct (chr p =? 0), (isdigit (chr p)), (isalnum (chr p)); try done;
    repeat case_match; done.
Qed.

(** A pointer to the end is at the terminator, which is in no class. *)
Lemma chr_nonzero p : c_string p → p ≠ [] → chr p ≠ 0.
Proof. intros Hp Hne. destruct Hp as [|c p Hc]; [done|]. cbn. lia. Qed.

Lemma class_nonempty p : isalnum (chr p) = true ∨ isdigit (chr p) = true → p ≠ [].
Proof. intros [H|H] ->; by vm_compute in H. Qed.

(** ** Pointers *)

Lemma skip_while_spec f p :
  ∃ k, p = k ++ skip_while f p ∧ forallb f k = true ∧
    (skip_while f p = [] ∨ f (chr (skip_while f p)) = false).
Proof.
  induction p as [|c p (k & Ep & Hk & Hend)]; [by exists []; auto|].
  cbn [skip_while]. destruct (f c) eqn:Ec.
  - exists (c :: k). split; [cbn; by f_equal|]. cbn [forallb]. rewrite Ec. done.
  - exists []. split; [done|]. split; [done|]. by right.
Qed.

Lemma distance_app k p : distance p (k ++ p) = Z.of_nat (length k).
Proof. unfold distance. rewrite length_app. lia. Qed.

(** ** Runs *)

Lemma eat8_loop_prefix fuel la ln l8 hint string p :
  ∃ k, p = k ++ eat8_loop fuel la ln l8 hint string p.
Proof.
  revert p. induction fuel as [|fuel IH]; intros p; cbn [eat8_loop]; [by exists []|].
  assert (Hskip : ∀ f, ∃ k, p = k ++ eat8_loop fuel la ln l8 hint string (skip_while f p)).
  { intros f. destruct (skip_while_spec f p) as (k1 & E1 & _).
    destruct (IH (skip_while f p)) as [k2 E2]. exists (k1 ++ k2). by rewrite <- app_assoc, <- E2. }
  assert (Htl : ∃ k, p = k ++ eat8_loop fuel la ln l8 hint string (List.tl p)).
  { destruct (IH (List.tl p)) as [k E]. destruct p as [|c p]; [by exists k|].
    exists (c :: k). cbn [List.tl app] in *. by f_equal. }
  destruct (chr p =? 0); [by exists []|].
  destruct (Split_identifyMode p hint); try done; try (by exists []).
  all: destruct (_ <? 0); [by exists []|apply Hskip].
Qed.

Lemma eatAn_loop_prefix fuel ln string p :
  c_string p → ∃ k, p = k ++ eatAn_loop fuel ln string p ∧ forallb is_an k = true.
Proof.
  revert p. induction fuel as [|fuel IH]; intros p Hp; cbn [eatAn_loop]; [by exists []|].
  destruct (isalnum (chr p)) eqn:Ea; [|by exists []].
  destruct (isdigit (chr p)) eqn:Ed.
  - destruct (_ <? 0); [by exists []|].
    destruct (skip_while_spec isdigit p) as (k1 & E1 & Hk1 & _).
    set (q := skip_while isdigit p) in *. rewrite E1 in Hp. apply Forall_app in Hp as [Hp1 Hq].
    destruct (IH q Hq) as (k2 & E2 & Hk2). exists (k1 ++ k2). rewrite <- app_assoc, <- E2.
    split; [done|]. rewrite forallb_app, Hk2, andb_true_r. rewrite forallb_forall in Hk1 |- *.
    intros c Hc. assert (Hb : is_byte c).
    { apply c_string_bytes in Hp1. rewrite Forall_forall in Hp1. by apply Hp1, list_elem_of_In. }
    rewrite <- isalnum_spec by done. by apply digit_alnum, Hk1.
  - destruct Hp as [|c p Hc Hp]; [by vm_compute in Ea|].
    destruct (IH p Hp) as (k & E & Hk). exists (c :: k). cbn [List.tl app]. split; [by f_equal|].
    cbn [forallb]. rewrite Hk, <- isalnum_spec by (unfold is_byte; lia). cbn in Ea. by rewrite Ea.
Qed.

Lemma eatKanji_loop_prefix fuel hint p :
  c_string p → ∃ k, p = k ++ eatKanji_loop fuel hint p ∧ kanji_valid k = true.
Proof.
  revert p. induction fuel as [|fuel IH]; intros p Hp; cbn [eatKanji_loop]; [by exists []|].
  destruct (decide _) as [Hk|]; [|by exists []].
  destruct (identify_kanji p hint Hp Hk) as (c & d & p' & -> & Hcd).
  apply Forall_cons in Hp as [_ [_ Hp]%Forall_cons].
  destruct (IH p' Hp) as (k & E & Hv). exists (c :: d :: k). cbn [drop app].
  split; [by do 2 f_equal|]. cbn [kanji_valid]. by rewrite Hcd.
Qed.

Lemma eatKanji_advances fuel hint p :
  c_string p → Split_identifyMode p hint = QR_MODE_KANJI →
  (length (eatKanji_loop (S fuel) hint p) < length p)%nat.
Proof.
  intros Hp Hk. cbn [eatKanji_loop]. rewrite decide_True by done.
  destruct (identify_kanji p hint Hp Hk) as (c & d & s & -> & _).
  apply Forall_cons in Hp as [_ [_ Hs]%Forall_cons].
  change (drop 2 (c :: d :: s)) with s.
  destruct (eatKanji_loop_prefix fuel hint s Hs) as (k & E & _).
  apply (f_equal length) in E. rewrite length_app in E. simpl. lia.
Qed.

(** Enough iterations: the loops stop by their own tests. *)
Lemma skip_while_shorter f p :
  p ≠ [] → f (chr p) = true → (length (skip_while f p) < length p)%nat.
Proof.
  intros Hne Hf. destruct p as [|c p]; [done|]. cbn [skip_while chr] in *. rewrite Hf. simpl.
  destruct (skip_while_spec f p) as (k & E & _). rewrite E at 2. rewrite length_app. lia.
Qed.

Lemma eat8_loop_fuel n m la ln l8 hint string p :
  (length p ≤ n)%nat → (length p ≤ m)%nat →
  eat8_loop n la ln l8 hint string p = eat8_loop m la ln l8 hint string p.
Proof.
  revert m p. assert (H0 : ∀ m, eat8_loop m la ln l8 hint string [] = []) by (by intros []).
  induction n as [|n IH]; intros m p Hn Hm.
  { destruct p; [|simpl in Hn; lia]. by rewrite H0. }
  destruct m as [|m]; [destruct p; [by rewrite !H0|simpl in Hm; lia]|].
  cbn [eat8_loop]. destruct (chr p =? 0) eqn:Ec; [done|].
  assert (Hne : p ≠ []) by (by intros ->).
  assert (Htl : (length (List.tl p) < length p)%nat) by (destruct p; [done|simpl; lia]).
  destruct (Split_identifyMode p hint) eqn:Em; try (apply IH; lia); try done.
  - pose proof (skip_while_shorter isdigit p Hne (identify_num p hint Em)).
    destruct (_ <? 0); [done|]. apply IH; lia.
  - destruct (identify_an p hint Em) as [Ha _]. pose proof (skip_while_shorter isalnum p Hne Ha).
    destruct (_ <? 0); [done|]. apply IH; lia.
Qed.

Lemma eatAn_loop_fuel n m ln string p :
  (length p < n)%nat → (length p < m)%nat → eatAn_loop n ln string p = eatAn_loop m ln string p.
Proof.
  revert m p. induction n as [|n IH]; intros m p Hn Hm; [lia|]. destruct m as [|m]; [lia|].
  cbn [eatAn_loop]. destruct (isalnum (chr p)) eqn:Ea; [|done].
  assert (Hne : p ≠ []) by (apply class_nonempty; by left).
  assert (Htl : (length (List.tl p) < length p)%nat) by (destruct p; [done|simpl; lia]).
  destruct (isdigit (chr p)) eqn:Ed; [|apply IH; lia].
  pose proof (skip_while_shorter isdigit p Hne Ed). destruct (_ <? 0); [done|]. apply IH; lia.
Qed.

Lemma eatKanji_loop_fuel n m hint p :
  (length p ≤ n)%nat → (length p ≤ m)%nat → eatKanji_loop n hint p = eatKanji_loop m hint p.
Proof.
  revert m p. assert (H0 : ∀ m, eatKanji_loop m hint [] = []) by (by intros [|m]).
  induction n as [|n IH]; intros m p Hn Hm.
  { destruct p; [|simpl in Hn; lia]. by rewrite H0. }
  destruct m as [|m]; [destruct p; [by rewrite !H0|simpl in Hm; lia]|].
  cbn [eatKanji_loop]. destruct (decide _) as [Hk|]; [|done].
  assert (Hne : p ≠ []) by (by intros ->).
  assert (length (drop 2 p) < length p)%nat
    by (rewrite length_drop; destruct p; [done|simpl; lia]).
  apply IH; lia.
Qed.

(** ** Eating a run *)

(** The routine has appended an entry with a prefix of the string. *)
Definition eaten (string : list Z) (hint : QRencodeMode) (i : QRinput) (run : Z) (i' : QRinput)
    : Prop :=
  ∃ mode k rest, string = k ++ rest ∧ run = Z.of_nat (length k) ∧
    data_entry (new_entry mode k) ∧ (mode = QR_MODE_KANJI → hint = QR_MODE_KANJI) ∧
    i' = with_entries (head i ++ [new_entry mode k]) i.

Lemma data_entry_intro mode k :
  QRinput_isSplittableMode mode = true → k ≠ [] → Forall is_byte k → mode_data mode k = true →
  data_entry (new_entry mode k).
Proof. by split. Qed.

Section eat.
Context {Inv : statics → Prop} (string : list Z) (hint : QRencodeMode) (i : QRinput).
Context (Hstring : c_string string) (Hne : string ≠ []) (Htail : tail_ok i).

Lemma string_cons : string = chr string :: List.tl string.
Proof. clear -Hne. by destruct string. Qed.

Lemma append_run mode k rest E :
  string = k ++ rest → k ≠ [] → QRinput_isSplittableMode mode = true → mode_data mode k = true →
  (mode = QR_MODE_KANJI → hint = QR_MODE_KANJI) →
  sm_spec Inv (run ← mret (distance rest string);
               _ ← QRinput_append mode run string; mret run) i (eaten string hint i) E.
Proof.
  intros Es Hk Hm Hd Hh. rewrite Es, distance_app.
  assert (Hde : data_entry (new_entry mode k)).
  { apply data_entry_intro; [done|done| |done]. apply c_string_bytes.
    rewrite Es in Hstring. by apply Forall_app in Hstring as [? _]. }
  eapply sm_bind; [apply (sm_ret (Z.of_nat (length k)) i (λ r s, r = Z.of_nat (length k) ∧ s = i)); done|].
  intros ? ? [-> ->]. eapply sm_bind; [by apply append_spec|].
  intros _ i' ->. apply sm_ret. by exists mode, k, rest.
Qed.

Lemma Split_eat8_spec E : sm_spec Inv (Split_eat8 string hint) i (eaten string hint i) E.
Proof.
  unfold Split_eat8. apply sm_get_bind.
  set (p := eat8_loop _ _ _ _ _ _ _).
  destruct (eat8_loop_prefix (length string) (QRspec_lengthIndicator QR_MODE_AN (version i))
    (QRspec_lengthIndicator QR_MODE_NUM (version i)) (QRspec_lengthIndicator QR_MODE_8 (version i))
    hint string (List.tl string)) as [k Ek]. fold p in Ek.
  apply (append_run QR_MODE_8 (chr string :: k) p); [|done..].
  cbn [app]. rewrite <- Ek. by apply string_cons.
Qed.

Lemma Split_eatKanji_spec E :
  Split_identifyMode string hint = QR_MODE_KANJI →
  sm_spec Inv (Split_eatKanji string hint) i (eaten string hint i) E.
Proof.
  intros Hk. unfold Split_eatKanji. set (p := eatKanji_loop _ _ _).
  destruct (eatKanji_loop_prefix (length string) hint string Hstring) as (k & Ek & Hv). fold p in Ek.
  apply (append_run QR_MODE_KANJI k p); [done| |done|done|by intros _; eapply identify_hint].
  pose proof (eatKanji_advances (pred (length string)) hint string Hstring Hk) as Hadv.
  assert (Hl : S (pred (length string)) = length string) by (rewrite string_cons; done).
  rewrite Hl in Hadv. fold p in Hadv. intros ->. apply (f_equal length) in Ek. simpl in Ek. lia.
Qed.

Lemma estimate_an_succ n :
  0 ≤ n → QRinput_estimateBitsModeAn n ≤ QRinput_estimateBitsModeAn (n + 1).
Proof.
  intros Hn. unfold QRinput_estimateBitsModeAn. rewrite !truth_land_1, !Z.quot_div_nonneg by lia.
  rewrite Z.odd_add. pose proof (Z.div_mod n 2 ltac:(lia)) as Hd. rewrite Zmod_odd in Hd.
  destruct (Z.odd n); cbn [xorb Z.odd].
  - replace ((n + 1) `div` 2) with (n `div` 2 + 1) by (apply Z.div_unique with 0; lia). lia.
  - replace ((n + 1) `div` 2) with (n `div` 2) by (apply Z.div_unique with 1; lia). lia.
Qed.

(** The first iteration of the loop of [Split_eatAn] advances. *)
Definition an_start : Prop :=
  isalnum (chr string) = true ∧
  (isdigit (chr string) = true →
    let q := skip_while isdigit string in
    let run := distance q string in
    isalnum (chr q) = true ∧
    0 < QRinput_estimateBitsModeNum run + 4 + QRspec_lengthIndicator QR_MODE_NUM (version i)
        + QRinput_estimateBitsModeAn 1 - QRinput_estimateBitsModeAn (run + 1)).

Lemma eatAn_advances fuel ln :
  an_start → ln = QRspec_lengthIndicator QR_MODE_NUM (version i) →
  (length (eatAn_loop (S fuel) ln string string) < length string)%nat.
Proof.
  intros [Ha Hd] ->. cbn [eatAn_loop]. rewrite Ha.
  assert (Hshort : ∀ q k, string = k ++ q → k ≠ [] →
    (length (eatAn_loop fuel (QRspec_lengthIndicator QR_MODE_NUM (version i)) string q)
     < length string)%nat).
  { intros q k Es Hk. assert (Hq : c_string q).
    { rewrite Es in Hstring. by apply Forall_app in Hstring as [_ ?]. }
    destruct (eatAn_loop_prefix fuel (QRspec_lengthIndicator QR_MODE_NUM (version i)) string q Hq)
      as (k' & E' & _). apply (f_equal length) in Es, E'. rewrite length_app in Es, E'.
    destruct k; [done|]. simpl in Es. lia. }
  destruct (isdigit (chr string)) eqn:Ed.
  - specialize (Hd eq_refl). cbv zeta in Hd.
    destruct (skip_while_spec isdigit string) as (k & Ek & _ & _).
    set (q := skip_while isdigit string) in *.
    assert (Hk : k ≠ []).
    { pose proof (skip_while_shorter isdigit string Hne Ed) as Hs. fold q in Hs.
      intros ->. apply (f_equal length) in Ek. simpl in Ek. lia. }
    assert (Hrun : 0 ≤ distance q string) by (rewrite Ek, distance_app; lia).
    pose proof (estimate_an_succ _ Hrun) as Hmono.
    pose proof (lengthIndicator_bounds QR_MODE_NUM (version i) eq_refl) as Hln.
    change (QRinput_estimateBitsModeAn 1) with 6 in Hd.
    assert (E0 : distance string string = 0) by (unfold distance; lia). rewrite E0.
    change (QRinput_estimateBitsModeAn 0) with 0.
    rewrite (proj2 (Z.ltb_ge _ 0)); [by apply (Hshort q k)|].
    rewrite (proj1 Hd). destruct Hd. lia.
  - by apply (Hshort (List.tl string) [chr string]); [apply string_cons|].
Qed.

Lemma Split_eatAn_spec E :
  an_start → sm_spec Inv (Split_eatAn string hint) i (eaten string hint i) E.
Proof.
  intros Hstart. unfold Split_eatAn. apply sm_get_bind.
  set (ln := QRspec_lengthIndicator QR_MODE_NUM (version i)).
  pose proof (eatAn_advances (length string) ln Hstart eq_refl) as Hadv.
  destruct (eatAn_loop_prefix (S (length string)) ln string string Hstring) as (k & Ek & Hk).
  set (p := eatAn_loop _ _ _ _) in *.
  destruct (_ && _ && _); [apply Split_eat8_spec|].
  apply (append_run QR_MODE_AN k p); [done| |done|done|done].
  intros ->. apply (f_equal length) in Ek. simpl in Ek. lia.
Qed.

Lemma Split_eatNum_spec E :
  isdigit (chr string) = true → sm_spec Inv (Split_eatNum string hint) i (eaten string hint i) E.
Proof.
  intros Hd. unfold Split_eatNum. apply sm_get_bind.
  destruct (skip_while_spec isdigit string) as (k & Ek & Hk & _).
  pose proof (skip_while_shorter isdigit string Hne Hd) as Hs.
  set (p := skip_while isdigit string) in *.
  destruct (is_8 _ && _); [apply Split_eat8_spec|].
  destruct (bool_decide_reflect (Split_identifyMode p hint = QR_MODE_AN)) as [Em|]; cbn [andb];
    [destruct (Z.ltb_spec 0 (QRinput_estimateBitsModeNum (distance p string) + 4
      + QRspec_lengthIndicator QR_MODE_NUM (version i) + QRinput_estimateBitsModeAn 1
      - QRinput_estimateBitsModeAn (distance p string + 1)))|].
  1: { apply Split_eatAn_spec. split; [|by intros _; split; [apply (identify_an p hint)|]].
       apply digit_alnum; [|done].
       pose proof (c_string_bytes _ Hstring) as Hb. rewrite string_cons in Hb.
       by apply Forall_cons in Hb as [? _]. }
  all: apply (append_run QR_MODE_NUM k p); [done| |done| |done].
  1, 3: (intros ->; apply (f_equal length) in Ek; simpl in Ek; lia).
  all: cbn [mode_data]; rewrite forallb_forall in Hk |- *; intros c Hc;
    rewrite <- isdigit_spec; [by apply Hk|];
    pose proof (c_string_bytes _ Hstring) as Hb; rewrite Ek in Hb;
    apply Forall_app in Hb as [Hb _]; rewrite Forall_forall in Hb; by apply Hb, list_elem_of_In.
Qed.
End eat.

(** ** Whole strings *)

(** The entries [es] of an object that was extended by the data [l]. *)
Definition split_into (l : list Z) (hint : QRencodeMode) (i i' : QRinput) : Prop :=
  ∃ es, i' = with_entries (head i ++ es) i ∧
    Forall (λ e, data_entry e ∧ (e_mode e = QR_MODE_KANJI → hint = QR_MODE_KANJI)) es ∧
    (es ≫= e_data) = l.

Lemma with_entries_twice es es' i : with_entries es (with_entries es' i) = with_entries es i.
Proof. done. Qed.

Section split.
Context {Inv : statics → Prop}.

(** One run of any kind. *)
Lemma eat_spec string hint i E :
  c_string string → string ≠ [] → tail_ok i →
  sm_spec Inv
    (match Split_identifyMode string hint with
     | QR_MODE_NUM => Split_eatNum string hint
     | QR_MODE_AN => Split_eatAn string hint
     | QR_MODE_KANJI =>
       if decide (hint = QR_MODE_KANJI) then Split_eatKanji string hint
       else Split_eat8 string hint
     | _ => Split_eat8 string hint
     end) i (eaten string hint i) E.
Proof.
  intros Hs Hne Ht. destruct (Split_identifyMode string hint) eqn:Em;
    try (by apply Split_eat8_spec).
  - apply Split_eatNum_spec; [done..|]. by apply (identify_num string hint).
  - destruct (identify_an string hint Em) as [Ha Hd].
    apply Split_eatAn_spec; [done..|]. split; [done|]. by rewrite Hd.
  - destruct (decide _); [by apply Split_eatKanji_spec|by apply Split_eat8_spec].
Qed.

Lemma Split_splitString_spec fuel string hint i E :
  c_string string → tail_ok i → (length string < fuel)%nat →
  sm_spec Inv (Split_splitString fuel string hint) i (λ _ i', split_into string hint i i') E.
Proof.
  revert string i. induction fuel as [|fuel IH]; intros string i Hs Ht Hf; [lia|].
  cbn [Split_splitString]. destruct (decide (string = [])) as [->|Hne].
  { apply sm_ret. exists []. rewrite app_nil_r, with_entries_same by done. by repeat split. }
  rewrite (proj2 (Z.eqb_neq _ 0)) by (by apply chr_nonzero).
  eapply sm_bind; [by apply eat_spec|].
  intros run i' (mode & k & rest & -> & -> & Hde & Hh & ->).
  assert (Hpos : (0 < length k)%nat).
  { pose proof (de_nonempty _ Hde) as Hk. cbn in Hk. destruct k; [done|simpl; lia]. }
  rewrite (proj2 (Z.eqb_neq _ 0)) by lia. rewrite Nat2Z.id, drop_app_length.
  apply Forall_app in Hs as [_ Hs]. rewrite length_app in Hf.
  eapply sm_mono; [apply (IH rest); [done|apply with_entries_tail|lia]| |done].
  intros _ i' (es & -> & Hes & Ees). exists (new_entry mode k :: es). split; [|split].
  - rewrite with_entries_twice.
    change (head (with_entries ?x i)) with x. by rewrite <- app_assoc.
  - by constructor.
  - cbn [mbind list_bind new_entry e_data]. by f_equal.
Qed.

(** Upper case: letters outside kanji, nothing else. *)
Lemma to_upper_string hint l :
  c_string l → c_string (to_upper hint l) ∧ length (to_upper hint l) = length l.
Proof.
  assert (H : ∀ n l, (length l ≤ n)%nat → c_string l →
    c_string (to_upper hint l) ∧ length (to_upper hint l) = length l).
  { clear l. induction n as [|n IH]; intros [|c l] Hn Hl; try done; [simpl in Hn; lia|].
    cbn [to_upper]. simpl in Hn. apply Forall_cons in Hl as [Hc Hl]. destruct (decide _).
    - destruct l as [|d l]; [split; [by repeat constructor; lia|done]|].
      apply Forall_cons in Hl as [Hd Hl]. simpl in Hn.
      destruct (IH l ltac:(lia) Hl) as [H1 H2]. split; [by repeat constructor; [lia..|]|].
      simpl. lia.
    - destruct (IH l ltac:(lia) Hl) as [H1 H2]. split; [|simpl; lia]. constructor; [|done].
      destruct ((97 <=? s8 c) && (s8 c <=? 122)) eqn:Ec; [|done].
      unfold s8, u8 in *. rewrite (Z.mod_small c) in Ec by lia.
      destruct (Z.ltb_spec c 128); [|lia]. rewrite Z.mod_small by lia. lia. }
  by apply (H (length l)).
Qed.

(** The entry point: the new entries hold the string, in upper case unless
    the caller wants the case kept. *)
Lemma Split_splitStringToQRinput_spec string hint cs i E :
  c_string string → string ≠ [] → tail_ok i →
  sm_spec Inv (Split_splitStringToQRinput (Some string) hint cs) i
    (λ _ i', split_into (if cs then string else to_upper hint string) hint i i') E.
Proof.
  intros Hs Hne Ht. unfold Split_splitStringToQRinput.
  destruct string as [|c s]; [done|]. set (l := c :: s) in *. destruct cs; cbn [negb].
  - apply Split_splitString_spec; [done|done|lia].
  - eapply sm_lift_bind with (P := λ l', l' = to_upper hint l).
    { eapply spec_bind; [apply (spec_malloc _ (λ _, True)); [lia|done]|]. intros _ _.
      by apply spec_ret. }
    intros ? ->. destruct (to_upper_string hint l Hs) as [H1 H2].
    apply Split_splitString_spec; [done|done|lia].
Qed.
End split.
