(* ===== verification/Lengths.v ===== *)
(** * Lengths of encodings

    The exact number of bits of segments and entries, and how the estimates of
    qrinput.c ([QRinput_estimateBitStreamSizeOfEntry], [QRinput_lengthOfCode])
    relate to it. *)

From S2P Require Import Prelude CModel BitStream QRSpec QRInput QRInputTheory.
From S2P Require Import Split SplitTheory.

(** ** Definitions *)

(** The estimate of the data bits of each mode. *)
Definition mode_estimate (mode : QRencodeMode) (size : Z) : Z :=
  match mode with
  | QR_MODE_NUM => QRinput_estimateBitsModeNum size
  | QR_MODE_AN => QRinput_estimateBitsModeAn size
  | QR_MODE_8 => QRinput_estimateBitsMode8 size
  | QR_MODE_KANJI => QRinput_estimateBitsModeKanji size
  | _ => 0
  end.

(** The bits of a segment of [size] bytes. *)
Definition segment_length (v : Z) (mode : QRencodeMode) (size : Z) : Z :=
  4 + QRspec_lengthIndicator mode v + mode_estimate mode size.

(** The sizes of the pieces of an entry of [len] bytes. *)
Fixpoint piece_sizes (depth n len : nat) : list nat :=
  if (n =? 0)%nat || (len <=? n)%nat then [len]
  else match depth with O => [] | S depth => n :: piece_sizes depth n (len - n)%nat end.

(** ** Data bits *)

Lemma estimate_num_3 n :
  0 ≤ n → QRinput_estimateBitsModeNum (n + 3) = QRinput_estimateBitsModeNum n + 10.
Proof.
  intros Hn. unfold QRinput_estimateBitsModeNum.
  rewrite !Z.quot_div_nonneg by lia. replace (n + 3) with (n + 1 * 3) by lia.
  rewrite Z.div_add by lia. replace (n + 1 * 3 - (n `div` 3 + 1) * 3) with (n - n `div` 3 * 3) by lia.
  pose proof (Z.div_mod n 3 ltac:(lia)). pose proof (Z.mod_pos_bound n 3 ltac:(lia)).
  set (r := n - n `div` 3 * 3) in *. assert (Hr : r = 0 ∨ r = 1 ∨ r = 2) by lia.
  destruct Hr as [->|[->| ->]]; lia.
Qed.

Lemma estimate_an_2 n :
  0 ≤ n → QRinput_estimateBitsModeAn (n + 2) = QRinput_estimateBitsModeAn n + 11.
Proof.
  intros Hn. unfold QRinput_estimateBitsModeAn. rewrite !truth_land_1, Z.odd_add.
  rewrite !Z.quot_div_nonneg by lia. replace (n + 2) with (n + 1 * 2) by lia.
  rewrite Z.div_add by lia. destruct (Z.odd n); cbn [xorb Z.odd]; lia.
Qed.

Lemma estimate_kanji_2 n :
  0 ≤ n → QRinput_estimateBitsModeKanji (n + 2) = QRinput_estimateBitsModeKanji n + 13.
Proof.
  intros Hn. unfold QRinput_estimateBitsModeKanji.
  rewrite !Z.quot_div_nonneg by lia. replace (n + 2) with (n + 1 * 2) by lia.
  rewrite Z.div_add by lia. lia.
Qed.

Lemma length_num_bits l :
  Z.of_nat (length (num_bits l)) = QRinput_estimateBitsModeNum (Z.of_nat (length l)).
Proof.
  assert (H : ∀ k l, (length l ≤ k)%nat →
    Z.of_nat (length (num_bits l)) = QRinput_estimateBitsModeNum (Z.of_nat (length l)));
    [|by apply (H (length l))]. clear l.
  induction k as [|k IH]; intros [|a [|b [|c l]]] Hk; try done; [simpl in Hk; lia|].
  cbn [num_bits]. rewrite length_app, length_to_bits.
  replace (Z.of_nat (length (a :: b :: c :: l))) with (Z.of_nat (length l) + 3) by (simpl length; lia).
  rewrite estimate_num_3, <- IH by (simpl in Hk; lia). lia.
Qed.

Lemma length_an_bits l :
  Z.of_nat (length (an_bits l)) = QRinput_estimateBitsModeAn (Z.of_nat (length l)).
Proof.
  assert (H : ∀ k l, (length l ≤ k)%nat →
    Z.of_nat (length (an_bits l)) = QRinput_estimateBitsModeAn (Z.of_nat (length l)));
    [|by apply (H (length l))]. clear l.
  induction k as [|k IH]; intros [|a [|b l]] Hk; try done; [simpl in Hk; lia|].
  cbn [an_bits]. rewrite length_app, length_to_bits.
  replace (Z.of_nat (length (a :: b :: l))) with (Z.of_nat (length l) + 2) by (simpl length; lia).
  rewrite estimate_an_2, <- IH by (simpl in Hk; lia). lia.
Qed.

Lemma length_kanji_bits l :
  Z.of_nat (length (kanji_bits l)) = QRinput_estimateBitsModeKanji (Z.of_nat (length l)).
Proof.
  assert (H : ∀ k l, (length l ≤ k)%nat →
    Z.of_nat (length (kanji_bits l)) = QRinput_estimateBitsModeKanji (Z.of_nat (length l)));
    [|by apply (H (length l))]. clear l.
  induction k as [|k IH]; intros [|a [|b l]] Hk; try done; [simpl in Hk; lia|].
  cbn [kanji_bits]. rewrite length_app, length_to_bits.
  replace (Z.of_nat (length (a :: b :: l))) with (Z.of_nat (length l) + 2) by (simpl length; lia).
  rewrite estimate_kanji_2, <- IH by (simpl in Hk; lia). lia.
Qed.

Lemma length_data_bits mode l :
  QRinput_isSplittableMode mode = true →
  Z.of_nat (length (data_bits mode l)) = mode_estimate mode (Z.of_nat (length l)).
Proof.
  intros Hm. destruct mode; try done; cbn [data_bits mode_estimate].
  - apply length_num_bits.
  - apply length_an_bits.
  - rewrite length_bytes_to_bits. unfold QRinput_estimateBitsMode8. lia.
  - apply length_kanji_bits.
Qed.

Lemma length_leaf_bits v mode l :
  QRinput_isSplittableMode mode = true →
  Z.of_nat (length (leaf_bits false v mode l)) = segment_length v mode (Z.of_nat (length l)).
Proof.
  intros Hm. pose proof (lengthIndicator_bounds mode v Hm) as Hl.
  assert (E : leaf_bits false v mode l = segment v mode l) by by destruct mode.
  rewrite E. unfold segment, segment_length.
  rewrite !length_app, !length_to_bits, !Nat2Z.inj_add, (length_data_bits mode l Hm). lia.
Qed.

(** ** Pieces *)

Lemma chunk_sizes depth n (l : list Z) :
  length <$> chunk_depth depth n l = piece_sizes depth n (length l).
Proof.
  revert l. induction depth as [|depth IH]; intros l; cbn [chunk_depth piece_sizes].
  - by destruct (_ || _).
  - destruct ((n =? 0)%nat || (length l <=? n)%nat) eqn:E; [done|].
    apply orb_false_iff in E as [_ E%Nat.leb_gt]. cbn [fmap list_fmap].
    rewrite length_take, IH, length_drop, Nat.min_l by lia. done.
Qed.

Lemma chunks_short n (l : list Z) : (length l ≤ n)%nat → chunks n l = [l].
Proof.
  intros Hl. unfold chunks. assert (E : (n =? 0)%nat || (length l <=? n)%nat = true).
  { apply orb_true_iff. right. by apply Nat.leb_le. }
  destruct (length l) eqn:El; cbn [chunk_depth]; by rewrite El, E.
Qed.

(** The bits of an entry follow from its mode and size. *)
Lemma length_entry_bits v mode l :
  QRinput_isSplittableMode mode = true →
  Z.of_nat (length (entry_bits false v mode l))
  = foldr (λ k n, segment_length v mode (Z.of_nat k) + n) 0
      (piece_sizes (length l) (chunk_size v mode) (length l)).
Proof.
  intros Hm. unfold entry_bits, chunks. rewrite <- chunk_sizes.
  induction (chunk_depth _ _ l) as [|c cs IH]; [done|]. cbn [mbind list_bind fmap list_fmap foldr].
  unfold mbind, list_bind in IH.
  rewrite length_app, Nat2Z.inj_add, (length_leaf_bits v mode c Hm), <- IH. done.
Qed.

Lemma length_entry_bits_short v mode l :
  QRinput_isSplittableMode mode = true → Z.of_nat (length l) ≤ QRspec_maximumWords mode v →
  Z.of_nat (length (entry_bits false v mode l)) = segment_length v mode (Z.of_nat (length l)).
Proof.
  intros Hm Hl. rewrite length_entry_bits by done.
  replace (piece_sizes (length l) (chunk_size v mode) (length l)) with [length l]; [simpl; lia|].
  symmetry. unfold chunk_size.
  assert (E : (Z.to_nat (QRspec_maximumWords mode v) =? 0)%nat
              || (length l <=? Z.to_nat (QRspec_maximumWords mode v))%nat = true).
  { apply orb_true_iff. right. apply Nat.leb_le. lia. }
  destruct (length l); cbn [piece_sizes]; by rewrite E.
Qed.
