(* ===== verification/MicroReader.v ===== *)
(** * A reader of Micro QR symbols

    The counterpart of the reader of QR codes: version from the width, level
    and mask from the format information, the walk, the bit stream with the
    short indicators of the version. A numeric segment without digits is the
    terminator. *)

From S2P Require Import Prelude CModel BitStream RSCode RSTheory QRSpec MQRSpec FrameFiller.
From S2P Require Import Mask MaskTheory MMask Caches QRInput QRInputTheory QRDecode QREncode Blocks.
From S2P Require Import Symbols Reader MicroInput MicroSymbols Lengths.

(** ** The decoder *)

Definition micro_mode (id : Z) : QRencodeMode :=
  match id with
  | 0 => QR_MODE_NUM | 1 => QR_MODE_AN | 2 => QR_MODE_8 | _ => QR_MODE_KANJI
  end.

Fixpoint micro_decode (fuel : nat) (v : Z) (l : list Z)
    : option (list (QRencodeMode * list Z)) :=
  match fuel with
  | O => None
  | S fuel =>
    match take_bits (Z.to_nat (v - 1)) l with
    | None => Some []
    | Some (id, l) =>
      let mode := micro_mode id in
      match take_bits (Z.to_nat (MQRspec_lengthIndicator mode v)) l with
      | None => Some []
      | Some (count, l) =>
        if (id =? 0) && (count =? 0) then Some []
        else
          '(d, l) ← decode_chars mode count l;
          segs ← micro_decode fuel v l;
          Some ((mode, d) :: segs)
      end
    end
  end.

Definition micro_decode_stream (v : Z) (l : list Z) : option (list (QRencodeMode * list Z)) :=
  micro_decode (S (length l)) v l.

(** ** The reader *)

(** Symbol number and mask; the standard combines the data with the pattern
    100010001000101. *)
Definition micro_format_fields (format : Z) : Z * Z :=
  let data := Z.shiftr (Z.lxor format 0x4445) 10 in
  (Z.shiftr data 2, Z.land data 3).

Definition micro_level (number : Z) : QRecLevel :=
  match number with
  | 0 | 1 | 3 | 5 => QR_ECLEVEL_L
  | 2 | 4 | 6 => QR_ECLEVEL_M
  | _ => QR_ECLEVEL_Q
  end.

Definition micro_path (v : Z) : list Z :=
  let w := MQRspec_getWidth v in
  List.filter (λ i, Z.land (mqr_reference (i `div` w) (i `mod` w)) 0x80 =? 0)
    (zigzag true w (mqr_columns w)).

Definition micro_read_bits (v k : Z) (m : Zmap Z) : list Z :=
  let w := MQRspec_getWidth v in
  (λ p, Z.lxor (module_bit m p) (b2z (mmask_bit k (p `div` w) (p `mod` w)))) <$> micro_path v.

(** Version, level, mask and segments. *)
Definition micro_read_symbol (w : Z) (m : Zmap Z)
    : Z * QRecLevel * Z * option (list (QRencodeMode * list Z)) :=
  let v := (w - 9) `div` 2 in
  let '(number, k) := micro_format_fields (read_format (mformat_pos w) m) in
  let level := micro_level number in
  let n := Z.to_nat (MQRspec_getDataLengthBit v level) in
  (v, level, k, micro_decode_stream v (take n (micro_read_bits v k m))).

(** Data that a Micro QR symbol of version [v] can hold; kanji needs version
    3. *)
Definition micro_decodable (v : Z) (mode : QRencodeMode) (data : list Z) : bool :=
  QRinput_isSplittableMode mode && decodable mode data && bool_decide (data ≠ [])
  && mode_supported true v mode && negb (bool_decide (mode = QR_MODE_KANJI) && (v =? 2)).

(** ** The decoder recovers the stream *)

(** A segment that the decoder recovers. *)
Record micro_segment (v : Z) (s : QRencodeMode * list Z) : Prop := {
  ms_data : micro_decodable v s.1 s.2 = true;
  ms_bytes : Forall is_byte s.2;
  ms_count : char_count s.1 s.2 < 2 ^ MQRspec_lengthIndicator s.1 v
}.

Definition micro_bits_of (v : Z) (segs : list (QRencodeMode * list Z)) : list Z :=
  segs ≫= λ '(mode, d), leaf_bits true v mode d.

(** Zero bits to the length of the terminator or to the end. *)
Definition micro_end (v : Z) (l : list Z) : Prop :=
  ∃ k, take (Z.to_nat (v - 1) + Z.to_nat (v + 2)) l = replicate k 0.

Lemma of_bits_zeros k : of_bits (replicate k 0) = 0.
Proof. induction k as [|k IH]; [done|]. cbn [replicate]. by rewrite of_bits_cons, IH. Qed.

Lemma take_bits_zeros (n m : nat) l k :
  take (n + m) l = replicate k 0 →
  take_bits n l = None ∨ ∃ k', take_bits n l = Some (0, drop n l) ∧ take m (drop n l) = replicate k' 0.
Proof.
  intros H. unfold take_bits. destruct (n <=? length l)%nat; [right|by left].
  exists (k - n)%nat. rewrite take_drop_commute, H, drop_replicate. split; [|done].
  assert (E : take n l = replicate (n `min` k) 0).
  { rewrite <- take_replicate, <- H, take_take. f_equal. lia. }
  by rewrite E, of_bits_zeros.
Qed.

Lemma micro_decode_end fuel v l : 1 ≤ v ≤ 4 → micro_end v l → (0 < fuel)%nat → micro_decode fuel v l = Some [].
Proof.
  intros Hv [k H] Hf. destruct fuel as [|fuel]; [lia|]. cbn [micro_decode].
  apply take_bits_zeros in H as [->|(k' & -> & H)]; [done|]. cbv beta iota zeta.
  assert (E : MQRspec_lengthIndicator QR_MODE_NUM v = v + 2) by (enum_Z v 1 5; try done; lia).
  change (micro_mode 0) with QR_MODE_NUM. rewrite E.
  rewrite <- (Nat.add_0_r (Z.to_nat (v + 2))) in H.
  by apply take_bits_zeros in H as [->|(k'' & -> & _)].
Qed.

(** Mode indicators and character counts. *)
Lemma micro_mode_fits v mode data :
  1 ≤ v ≤ 4 → micro_decodable v mode data = true →
  0 ≤ mode_Z mode < 2 ^ (v - 1) ∧ micro_mode (mode_Z mode) = mode ∧ QRinput_isSplittableMode mode = true.
Proof.
  intros Hv H. unfold micro_decodable, mode_supported in H. rewrite !andb_true_iff in H.
  destruct H as ((((Hm & _) & _) & _ & Hs) & Hk).
  enum_Z v 1 5; try lia; destruct mode; done.
Qed.

Lemma micro_count_zero v mode data :
  micro_decodable v mode data = true → mode_Z mode = 0 → 0 < char_count mode data.
Proof.
  intros H Hm. destruct mode; try done. unfold micro_decodable in H. rewrite !andb_true_iff in H.
  destruct H as (((_ & Hne%bool_decide_eq_true) & _) & _).
  change (char_count QR_MODE_NUM data) with (Z.of_nat (length data)). destruct data; [done|]. simpl. lia.
Qed.

Lemma micro_decode_spec fuel v segs tl :
  1 ≤ v ≤ 4 → Forall (micro_segment v) segs → micro_end v tl → (length segs < fuel)%nat →
  micro_decode fuel v (micro_bits_of v segs ++ tl) = Some segs.
Proof.
  intros Hv Hsegs Hend. revert fuel.
  induction Hsegs as [|[mode d] segs [Hd Hb Hc] _ IH]; intros fuel Hf; [by apply micro_decode_end|].
  destruct fuel as [|fuel]; [simpl in Hf; lia|]. cbn [fst snd] in *.
  destruct (micro_mode_fits v mode d Hv Hd) as (Hid & Emode & Hm).
  pose proof (mlengthIndicator_bounds mode v Hm Hv) as Hl. pose proof (char_count_nonneg mode d).
  unfold micro_bits_of. cbn [mbind list_bind]. fold (micro_bits_of v segs).
  unfold leaf_bits, msegment. rewrite <- !app_assoc. cbn [micro_decode].
  rewrite take_bits_app by (rewrite Z2Nat.id by lia; lia). cbv beta iota zeta. rewrite Emode.
  rewrite take_bits_app by (rewrite Z2Nat.id by lia; lia). cbv beta iota.
  replace ((mode_Z mode =? 0) && (char_count mode d =? 0)) with false.
  2:{ symmetry. apply andb_false_iff. destruct (Z.eqb_spec (mode_Z mode) 0) as [E|]; [right|by left].
      pose proof (micro_count_zero v mode d Hd E). lia. }
  unfold micro_decodable in Hd. rewrite !andb_true_iff in Hd. destruct Hd as ((((_ & Hd) & _) & _) & _).
  rewrite decode_chars_spec by done. cbn [mbind option_bind].
  rewrite IH by (simpl in Hf; lia). done.
Qed.

(** ** Short segments *)

(** Six times the bits of a character, at least. *)
Definition char_cost (mode : QRencodeMode) : Z :=
  match mode with QR_MODE_NUM => 20 | QR_MODE_AN => 33 | QR_MODE_8 => 48 | _ => 78 end.

Lemma data_bits_cost mode d :
  QRinput_isSplittableMode mode = true →
  char_cost mode * char_count mode d ≤ 6 * Z.of_nat (length (data_bits mode d)).
Proof.
  intros Hm. rewrite length_data_bits by done. unfold char_count.
  set (n := Z.of_nat (length d)). assert (0 ≤ n) by lia.
  destruct mode; try done; cbn [char_cost mode_estimate];
    [rewrite bool_decide_eq_false_2 by done..|rewrite bool_decide_eq_true_2 by done].
  - unfold QRinput_estimateBitsModeNum. rewrite Z.quot_div_nonneg by lia.
    pose proof (Z.div_mod n 3 ltac:(lia)). pose proof (Z.mod_pos_bound n 3 ltac:(lia)).
    remember (n - n `div` 3 * 3) as r eqn:Er. assert (Hr : r = 0 ∨ r = 1 ∨ r = 2) by lia.
    destruct Hr as [->|[->| ->]]; lia.
  - unfold QRinput_estimateBitsModeAn. rewrite Z.quot_div_nonneg, truth_land_1 by lia.
    pose proof (Z.div_mod n 2 ltac:(lia)) as E. rewrite Zmod_odd in E. destruct (Z.odd n); lia.
  - unfold QRinput_estimateBitsMode8. lia.
  - unfold QRinput_estimateBitsModeKanji. rewrite Z.quot_div_nonneg by lia. lia.
Qed.

Definition short_ok (v : Z) (level : QRecLevel) : bool :=
  forallb (λ mode, negb (mode_supported true v mode && negb (bool_decide (mode = QR_MODE_KANJI) && (v =? 2)))
    || (6 * MQRspec_getDataLengthBit v level <? char_cost mode * 2 ^ MQRspec_lengthIndicator mode v))
    [QR_MODE_NUM; QR_MODE_AN; QR_MODE_8; QR_MODE_KANJI].

Lemma short_all : all_range 1 5 (λ v, forallb (short_ok v) all_levels) = true.
Proof. by vm_compute. Qed.

(** What fits into a symbol has counts that fit their indicators. *)
Lemma micro_count_fits v level mode d :
  1 ≤ v ≤ 4 → micro_decodable v mode d = true →
  Z.of_nat (length (leaf_bits true v mode d)) ≤ MQRspec_getDataLengthBit v level →
  char_count mode d < 2 ^ MQRspec_lengthIndicator mode v.
Proof.
  intros Hv Hd Hlen. pose proof (versions_levels short_ok 1 5 short_all v level ltac:(lia)) as H.
  unfold short_ok in H. rewrite forallb_forall in H.
  destruct (micro_mode_fits v mode d Hv Hd) as (_ & _ & Hm).
  pose proof (data_bits_cost mode d Hm) as Hcost.
  unfold leaf_bits, msegment in Hlen. rewrite !length_app in Hlen.
  unfold micro_decodable in Hd. rewrite !andb_true_iff in Hd. destruct Hd as ((_ & Hs) & Hk).
  specialize (H mode). rewrite Hs, Hk in H. cbn [negb orb andb] in H.
  assert (Hin : In mode [QR_MODE_NUM; QR_MODE_AN; QR_MODE_8; QR_MODE_KANJI]).
  { destruct mode; try done; simpl; auto. }
  specialize (H Hin). assert (0 < char_cost mode) by by destruct mode. nia.
Qed.

(** ** Streams *)

Lemma micro_stream_segments v es : stream true v es = micro_bits_of v (es ≫= entry_segments v).
Proof.
  unfold stream, micro_bits_of. induction es as [|e es IH]; [done|]. cbn [mbind list_bind].
  rewrite bind_app. f_equal; [|exact IH]. unfold entry_bits, entry_segments.
  by rewrite list_fmap_bind.
Qed.

Lemma leaf_le_bits v segs mode d :
  (mode, d) ∈ segs → (length (leaf_bits true v mode d) ≤ length (micro_bits_of v segs))%nat.
Proof.
  intros (segs1 & segs2 & ->)%list_elem_of_split. unfold micro_bits_of.
  rewrite bind_app, bind_cons, !length_app. lia.
Qed.

Lemma micro_entry_segments v e :
  micro_decodable v (e_mode e) (e_data e) = true → Forall is_byte (e_data e) →
  Forall (λ s, micro_decodable v s.1 s.2 = true ∧ Forall is_byte s.2) (entry_segments v e).
Proof.
  intros Hd Hb. unfold entry_segments, chunks. apply Forall_fmap.
  set (n := chunk_size v (e_mode e)).
  eapply Forall_impl;
    [apply (chunk_depth_forall (λ d, micro_decodable v (e_mode e) d = true ∧ Forall is_byte d))|].
  - intros l [Hl Hlb] Hlen. unfold micro_decodable in *. rewrite !andb_true_iff in Hl.
    destruct Hl as ((((Hm & Hl) & _) & Hs) & Hk).
    destruct (decodable_split (e_mode e) l n Hm Hl) as [H1 H2]; [|lia|].
    { intros Ek. unfold n. rewrite Ek. apply chunk_size_kanji. }
    rewrite Hm, H1, H2, Hs, Hk. rewrite !bool_decide_eq_true_2.
    + split; split; auto using Forall_take, Forall_drop.
    + intros E. apply (f_equal length) in E. rewrite length_drop in E. simpl in E. lia.
    + intros E. apply (f_equal length) in E. rewrite length_take in E. simpl in E. lia.
  - done.
  - by intros d [? _].
Qed.

Lemma padded_mqr_end n v l :
  1 ≤ v → Z.of_nat (length l) ≤ n →
  ∃ tl, padded_mqr n (term_bits v) l = l ++ tl ∧ micro_end v tl.
Proof.
  intros Hv Hl. unfold padded_mqr, micro_end. set (bits := Z.of_nat (length l)) in *.
  set (t := (Z.to_nat (v - 1) + Z.to_nat (v + 2))%nat).
  assert (Ht : Z.of_nat t = term_bits v) by (unfold t, term_bits; lia).
  destruct (Z.leb_spec (n - bits) (term_bits v)) as [Hle|Hgt].
  - eexists. split; [done|]. eexists. apply take_replicate.
  - cbv zeta. rewrite <- !app_assoc. eexists. split; [done|].
    pose proof (words_bounds bits (term_bits v) ltac:(lia) ltac:(lia)) as Hw. cbv zeta in Hw.
    set (words := (bits + term_bits v + 7) `div` 8) in *.
    rewrite take_app_le by (rewrite length_replicate; lia).
    eexists. apply take_replicate.
Qed.

(** The decoder recovers the segments from the padded stream. *)
Lemma micro_decode_padded v level es :
  1 ≤ v ≤ 4 →
  Forall (λ e, micro_decodable v (e_mode e) (e_data e) = true ∧ Forall is_byte (e_data e)) es →
  let n := MQRspec_getDataLengthBit v level in
  Z.of_nat (length (stream true v es)) ≤ n →
  micro_decode_stream v (padded_mqr n (term_bits v) (stream true v es))
  = Some (es ≫= entry_segments v).
Proof.
  intros Hv Hes n Hfit. destruct (padded_mqr_end n v _ ltac:(lia) Hfit) as (tl & -> & Hend).
  rewrite micro_stream_segments in *. set (segs := es ≫= entry_segments v) in *.
  assert (Hsegs : Forall (micro_segment v) segs).
  { assert (H : Forall (λ s, micro_decodable v s.1 s.2 = true ∧ Forall is_byte s.2) segs).
    { apply Forall_bind. eapply Forall_impl; [exact Hes|]. intros e []. by apply micro_entry_segments. }
    apply Forall_forall. intros [mode d] Hin.
    destruct (proj1 (Forall_forall _ _) H _ Hin) as [Hd Hb]. split; [done|done|].
    apply (micro_count_fits v level); [done|done|].
    pose proof (leaf_le_bits v segs mode d Hin). cbn [fst snd]. fold n. lia. }
  apply micro_decode_spec; [done|done|done|].
  rewrite length_app. enough (length segs ≤ length (micro_bits_of v segs))%nat by lia.
  clear -Hsegs Hv. induction Hsegs as [|[mode d] segs [Hd _ Hc] _ IH]; [done|].
  unfold micro_bits_of in *. rewrite bind_cons, length_app. cbn [fst snd length] in *.
  enough (0 < length (leaf_bits true v mode d))%nat by lia.
  destruct (micro_mode_fits v mode d Hv Hd) as (_ & _ & Hm).
  pose proof (data_bits_cost mode d Hm) as Hcost.
  unfold leaf_bits, msegment. rewrite !length_app, !length_to_bits.
  unfold micro_decodable in Hd. rewrite !andb_true_iff in Hd.
  destruct Hd as ((((_ & Hd) & Hne%bool_decide_eq_true) & _) & _).
  assert (0 < char_count mode d); [|assert (0 < char_cost mode) by (by destruct mode); nia].
  unfold char_count. destruct mode; try done;
    [rewrite bool_decide_eq_false_2 by done; destruct d; simpl; [done|lia]..|].
  rewrite bool_decide_eq_true_2 by done. cbn [decodable] in Hd. rewrite andb_true_iff in Hd.
  destruct Hd as [Hd _]. destruct d as [|a [|b d]]; [done|done|].
  apply Z.div_str_pos. simpl length. lia.
Qed.

(** ** Symbols *)

Section symbols.
Context (i : QRinput) (Hi : micro_input i) (Hfit : micro_fits i) (k : Z) (Hk : 0 ≤ k < 4).

Abbreviation v := (version i).
Abbreviation w := (MQRspec_getWidth (version i)).
Abbreviation cells := (acells (code_data (micro_symbol k i))).

Lemma micro_path_reference :
  zigzag_path w true (mblank v) = micro_path v.
Proof.
  pose proof (mi_version _ Hi) as Hv. destruct (mblank_ok v Hv) as [_ (_ & _ & Hcells & _)].
  unfold zigzag_path, micro_path.
  assert (Hw : w = 9 + 2 * v) by by apply mcapacity_width.
  apply filter_ext_in. intros p Hp%list_elem_of_In. unfold is_data_module.
  apply zigzag_columns in Hp as (x & y & Hx & Hy & Hp).
  unfold mqr_columns in Hx. apply list_elem_of_fmap in Hx as (j & -> & Hj%elem_of_range).
  assert (Hj' : w `div` 2 = 4 + v) by (symmetry; apply Z.div_unique with 1; lia).
  assert (Hp' : 0 ≤ p < w * w) by nia.
  destruct (offset_coordinates w p ltac:(lia) Hp') as (Hxp & Hyp & E). rewrite E at 1.
  by rewrite Hcells.
Qed.

Definition mformat_ok (v k : Z) (level : QRecLevel) : bool :=
  match symbol_number v level with
  | None => true
  | Some n =>
    let f := MQRspec_getFormatInfo k v level in
    (0 <=? f) && (f <? 2 ^ 15) && bool_decide (micro_format_fields f = (n, k))
    && bool_decide (micro_level n = level)
  end.

Lemma mformat_all : all_range 1 5 (λ v, all_range 0 4 (λ k, forallb (mformat_ok v k) all_levels)) = true.
Proof. by vm_compute. Qed.

Lemma mformat_spec :
  0 ≤ MQRspec_getFormatInfo k v (level i) < 2 ^ 15 ∧
  micro_level (micro_format_fields (MQRspec_getFormatInfo k v (level i))).1 = level i ∧
  (micro_format_fields (MQRspec_getFormatInfo k v (level i))).2 = k.
Proof.
  pose proof (all_range_spec _ _ _ mformat_all v ltac:(destruct Hi; lia)) as H.
  pose proof (versions_levels (λ k, mformat_ok v k) 0 4 H k (level i) Hk) as H'.
  unfold mformat_ok in H'. destruct (mi_level _ Hi) as [x Hx]. rewrite Hx in H'.
  rewrite !andb_true_iff, !bool_decide_eq_true in H'. destruct H' as [[[? ?] ->] ?].
  split; [lia|done].
Qed.

Lemma mformat_nodup : NoDup (mformat_cells w (MQRspec_getFormatInfo k v (level i))).*1.
Proof.
  unfold mformat_cells. rewrite <- list_fmap_compose.
  change (NoDup (mformat_pos w <$> range 0 15)).
  assert (H : all_range 1 5 (λ v, bool_decide (NoDup (mformat_pos (MQRspec_getWidth v) <$> range 0 15))) = true)
    by by vm_compute.
  pose proof (all_range_spec _ _ _ H v ltac:(destruct Hi; lia)) as Hv. by apply bool_decide_eq_true in Hv.
Qed.

(** The format information is readable. *)
Lemma micro_read_format : read_format (mformat_pos w) cells = MQRspec_getFormatInfo k v (level i).
Proof.
  destruct mformat_spec as [Hr _]. apply read_format_spec; [done|]. intros j Hj.
  apply write_cells_lookup; [apply mformat_nodup|].
  apply list_elem_of_fmap. exists j. split; [done|]. by apply elem_of_range.
Qed.

(** The format information lies on function modules. *)
Lemma mformat_function j u :
  0 ≤ j < 15 → acells (mblank v) !! mformat_pos w j = Some u → Z.land u 0x80 = 0 → False.
Proof.
  intros Hj Hu Hu0. pose proof (mi_version _ Hi) as Hv.
  destruct (mblank_ok v Hv) as [_ (_ & _ & Hcells & _)].
  assert (Hw : w = 9 + 2 * v) by by apply mcapacity_width. unfold mformat_pos in Hu.
  assert (Hs : ∃ x y, (if j <? 8 then w * (j + 1) + 8 else w * 8 + 15 - j) = y * w + x ∧
    0 ≤ x < 9 ∧ 0 ≤ y < 9 ∧ mqr_reference y x = 0x84).
  { destruct (Z.ltb_spec j 8) as [Hlt|Hge].
    - exists 8, (j + 1). split; [lia|]. split; [lia|]. split; [lia|]. enum_Z j 0 8; try done. lia.
    - exists (15 - j), 8. split; [lia|]. split; [lia|]. split; [lia|]. enum_Z j 8 15; try done. lia. }
  destruct Hs as (x & y & E & Hx & Hy & Eref). rewrite E, Hcells, Eref in Hu by lia.
  by injection Hu as <-.
Qed.

(** A module of the walk carries its bit under the mask. *)
Lemma micro_read_module j p b :
  micro_path v !! j = Some p → micro_bits i !! j = Some b →
  Z.lxor (module_bit cells p) (b2z (mmask_bit k (p `div` w) (p `mod` w))) = b.
Proof.
  intros Hp Hb. pose proof (mi_version _ Hi) as Hv. destruct (mblank_ok v Hv) as [_ Hok].
  pose proof (length_micro_bits i Hi Hfit) as Hl. pose proof (micro_bits_bits i) as Hbits.
  assert (Hbit : is_bit b) by (by eapply Forall_lookup_1 in Hbits).
  rewrite <- micro_path_reference in Hp.
  pose proof (fill_at _ _ _ _ _ _ Hok j p b Hp Hb) as Hcell. fold (mfilled i) in Hcell.
  assert (Hin : p ∈ zigzag_path w true (mblank v)) by (by eapply list_elem_of_lookup_2).
  assert (Hout : p ∉ (mformat_cells w (MQRspec_getFormatInfo k v (level i))).*1).
  { intros (n & Hn & ->)%mformat_area; [|pose proof (mcapacity_width v Hv); lia].
    destruct (path_range _ _ _ _ _ Hok _ Hin) as [(u & Hu & Hu0) _].
    by eapply mformat_function. }
  unfold module_bit, cell, micro_symbol, mmasked_symbol. cbn [code_data acells].
  rewrite write_cells_other by done. rewrite (lookup_masked_cells _ _ _ _ _ Hcell).
  cbn [default]. destruct (mmask_bit k (p `div` w) (p `mod` w)); by destruct Hbit as [->| ->].
Qed.

Lemma micro_read_bits_spec : micro_read_bits v k cells = micro_bits i.
Proof.
  pose proof (mi_version _ Hi) as Hv. destruct (mblank_ok v Hv) as [_ Hok].
  pose proof (length_micro_bits i Hi Hfit) as Hl.
  assert (Hp : length (micro_path v) = mqr_modules v).
  { rewrite <- micro_path_reference. by apply (length_path _ _ _ _ _ Hok). }
  apply list_eq_same_length with (length (micro_path v)).
  - by rewrite Hl.
  - apply length_fmap.
  - intros j x y Hj Hx Hy. unfold micro_read_bits in Hx.
    apply list_lookup_fmap_Some in Hx as (p & -> & Hpj). by apply (micro_read_module j).
Qed.

Lemma micro_read_symbol_spec :
  micro_read_symbol w cells = (v, level i, k, micro_decode_stream v (micro_padded i)).
Proof.
  pose proof (mi_version _ Hi) as Hv. unfold micro_read_symbol. rewrite micro_read_format.
  destruct mformat_spec as (_ & El & Ek). destruct (micro_format_fields _) as [n m].
  cbn [fst snd] in *. subst m. rewrite El.
  assert (Ew : (w - 9) `div` 2 = v).
  { rewrite mcapacity_width by done. symmetry. apply Z.div_unique with 0; lia. }
  rewrite Ew, micro_read_bits_spec. unfold micro_bits.
  pose proof (length_micro_padded i Hi Hfit). by rewrite take_app_length' by lia.
Qed.
End symbols.

(** The reader finds these fields in a symbol. *)
Definition micro_reads_as (c : QRcode) (v : Z) (level : QRecLevel)
    (segs : list (QRencodeMode * list Z)) : Prop :=
  ∃ k, 0 ≤ k < 4 ∧
    micro_read_symbol (code_width c) (acells (code_data c)) = (v, level, k, Some segs).

(** The data of a Micro QR input comes back. *)
Lemma QRcode_encodeMaskMQR_reads i mask :
  micro_input i → -1 ≤ mask < 4 →
  Forall (λ e, micro_decodable (version i) (e_mode e) (e_data e) = true) (head i) →
  sm_spec caches_ok (QRcode_encodeMaskMQR mask) i
    (λ c i', i' = micro_encoded i ∧ code_version c = version i ∧
      micro_reads_as c (version i) (level i) (head i ≫= entry_segments (version i)))
    (micro_too_large i).
Proof.
  intros Hi Hmask Hdec. eapply sm_mono; [by apply QRcode_encodeMaskMQR_spec| |done].
  intros c i' (k & -> & Hfit & Hk1 & Hk2 & ->). split; [done|]. split; [done|].
  assert (Hk : 0 ≤ k < 4).
  { destruct (decide (mask < 0)); [by destruct Hk2|]. rewrite Hk1; lia. }
  exists k. split; [done|].
  change (code_width (micro_symbol k i)) with (MQRspec_getWidth (version i)).
  rewrite micro_read_symbol_spec by done. do 2 f_equal. apply micro_decode_padded; [|..|done].
  - by destruct Hi.
  - apply Forall_and. split; [exact Hdec|]. eapply Forall_impl; [apply (mi_entries _ Hi)|]. by intros e [].
Qed.
