(* ===== verification/QRStruct.v ===== *)
(** * Structured input data (qrinput.c)

    The list of input objects of a structured-append message, and the split of
    one input object into such a list. *)

From S2P Require Import Prelude CModel QRSpec QRInput.

(** ** Data *)

(** The list is built by appending only, so [head] and [tail] of the C
    structure are the two ends of one list. *)
Record QRinput_Struct := MkStruct {
  s_size : Z;
  s_parity : Z;
  s_inputs : list QRinput
}.

Definition sizeof_QRinput_Struct : Z := 24.
Definition sizeof_QRinput_InputList : Z := 16.

Definition QRinput_Struct_new : M QRinput_Struct :=
  _ ← malloc sizeof_QRinput_Struct;
  mret (MkStruct 0 (-1) []).

Definition QRinput_Struct_setParity (parity : Z) (s : QRinput_Struct) : QRinput_Struct :=
  MkStruct (s_size s) parity (s_inputs s).

Definition QRinput_InputList_newEntry (input : QRinput) : M QRinput :=
  _ ← malloc sizeof_QRinput_InputList;
  mret input.

Definition QRinput_Struct_appendInput (input : QRinput) : SM QRinput_Struct Z :=
  if mqr input then lift (raise EINVAL)
  else
    e ← lift (QRinput_InputList_newEntry input);
    s ← get;
    _ ← put (MkStruct (s_size s + 1) (s_parity s) (s_inputs s ++ [e]));
    mret (s_size s + 1).

Definition QRinput_Struct_calcParity : SM QRinput_Struct Z :=
  s ← get;
  parity ← lift (liftO (foldM (λ input parity,
    p ← QRinput_calcParity input; mret (Z.lxor parity p)) (s_inputs s) 0));
  _ ← put (QRinput_Struct_setParity parity s);
  mret parity.

(** ** Splitting *)

Definition QRinput_List_shrinkEntry (bytes : Z) : SM QRinput_List unit :=
  entry ← get;
  _ ← lift (malloc bytes);
  data ← lift (liftO (copy_bytes (e_data entry) 0 bytes));
  put (MkEntry (e_mode entry) bytes data (e_bstream entry)).

(** Cuts [entry] to its first bytes; the result is the new entry that follows
    it. *)
Definition QRinput_splitEntry (bytes : Z) : SM QRinput_List QRinput_List :=
  entry ← get;
  e ← lift (QRinput_List_newEntry (e_mode entry) (e_size entry - bytes)
              (drop (Z.to_nat bytes) (e_data entry)));
  _ ← QRinput_List_shrinkEntry bytes;
  mret e.

(** The tail pointer of the next input object, whose list starts with the
    entry at position [k] of the current one; [split] if that entry was cut in
    two, so that its address stays behind. *)
Definition next_tail (t : tail_pointer) (k : nat) (split : bool) : tail_pointer :=
  match t with
  | TNull => TNull
  | TAt i => if (i <? k)%nat || (split && (i =? k)%nat) then TOutside else TAt (i - k)
  | TOutside => TOutside
  end.

(** The loop of [QRinput_splitQRinputToStruct]: [input] is the current object,
    [before] and [rest] the parts of its list before and from [list] on, and
    [prev] says whether the pointer of that name is set. Every iteration
    consumes bytes, an entry or an object, unless an entry fits nowhere; then
    the C loop does not end. *)
Fixpoint split_loop (fuel : nat) (maxbits : Z) (s : QRinput_Struct) (input : QRinput)
    (before rest : list QRinput_List) (prev : bool) (bits : Z) : M QRinput_Struct :=
  match fuel with
  | O => undef
  | S fuel =>
    match rest with
    | [] =>
      '(_, s) ← run_on s (QRinput_Struct_appendInput (set_head before input));
      mret s
    | list :: others =>
      nextbits ← liftO (QRinput_estimateBitStreamSizeOfEntry list (version input) (mqr input));
      if bits + nextbits <=? maxbits then
        '(ret, list) ← run_on list (QRinput_encodeBitStream (version input) (mqr input));
        split_loop fuel maxbits s input (before ++ [list]) others true (bits + ret)
      else
        let bytes := QRinput_lengthOfCode (e_mode list) (version input) (maxbits - bits) in
        p ← QRinput_new2 (version input) (level input);
        if 0 <? bytes then
          '(next, list) ← run_on list (QRinput_splitEntry bytes);
          let p := set_tail (next_tail (tail input) (length before) true) p in
          let input := set_tail (TAt (length before)) (set_head (before ++ [list]) input) in
          '(_, s) ← run_on s (QRinput_Struct_appendInput input);
          split_loop fuel maxbits s p [] (next :: others) true 0
        else if negb prev then undef (* prev->next *)
        else
          let p := set_tail (next_tail (tail input) (length before) false) p in
          let input :=
            match before with
            | [] => set_tail TOutside (set_head rest input)
            | _ => set_tail (TAt (pred (length before))) (set_head before input)
            end in
          '(_, s) ← run_on s (QRinput_Struct_appendInput input);
          split_loop fuel maxbits s p [] rest true 0
    end
  end.

(** A bound on the iterations. *)
Definition split_measure (rest : list QRinput_List) : nat :=
  S (2 * sum_list_with (λ e, S (Z.to_nat (e_size e))) rest).

(** Numbers the objects from 1 on. *)
Definition QRinput_Struct_insertStructuredAppendHeaders : SM QRinput_Struct unit :=
  s ← get;
  if s_size s =? 1 then mret tt
  else
    _ ← (if s_parity s <? 0 then _ ← QRinput_Struct_calcParity; mret tt else mret tt);
    s ← get;
    _ ← zoom s_inputs (λ l s, MkStruct (s_size s) (s_parity s) l)
          (for_each (λ i, _ ← QRinput_insertStructuredAppendHeader (s_size s) i (s_parity s);
                          mret (i + 1)) 1);
    mret tt.

Definition QRinput_splitQRinputToStruct (input : QRinput) : M QRinput_Struct :=
  if mqr input then raise EINVAL
  else
    s ← QRinput_Struct_new;
    input ← QRinput_dup input;
    parity ← liftO (QRinput_calcParity input);
    let s := QRinput_Struct_setParity parity s in
    let maxbits := QRspec_getDataLength (version input) (level input) * 8
                   - STRUCTURE_HEADER_SIZE in
    if maxbits <=? 0 then fail
    else
      s ← split_loop (split_measure (head input)) maxbits s input [] (head input) false 0;
      if MAX_STRUCTURED_SYMBOLS <? s_size s then raise ERANGE
      else
        '(_, s) ← run_on s QRinput_Struct_insertStructuredAppendHeaders;
        mret s.
