(* ===== verification/QRApi.v ===== *)
(** * Encoding of strings and of structured messages (qrencode.c)

    The entry points that split a string into entries, and those that
    distribute data over several symbols. *)

From S2P Require Import Prelude CModel RSCode QRSpec MQRSpec QRInput QREncode Split QRStruct.

(** ** Strings *)

(** [None] is the null pointer. *)
Definition QRcode_encodeStringReal (string : option (list Z)) (version : Z) (level : QRecLevel)
    (mqr : bool) (hint : QRencodeMode) (casesensitive : bool) : M QRcode :=
  match string with
  | None => raise EINVAL
  | Some _ =>
    if negb (bool_decide (hint = QR_MODE_8)) && negb (bool_decide (hint = QR_MODE_KANJI))
    then raise EINVAL
    else
      input ← (if mqr then QRinput_newMQR version level else QRinput_new2 version level);
      '(code, _) ← run_on input (
        _ ← Split_splitStringToQRinput string hint casesensitive;
        QRcode_encodeInput);
      mret code
  end.

Definition QRcode_encodeString (string : option (list Z)) (version : Z) (level : QRecLevel)
    (hint : QRencodeMode) (casesensitive : bool) : M QRcode :=
  QRcode_encodeStringReal string version level false hint casesensitive.

Definition QRcode_encodeStringMQR (string : option (list Z)) (version : Z) (level : QRecLevel)
    (hint : QRencodeMode) (casesensitive : bool) : M QRcode :=
  QRcode_encodeStringReal string version level true hint casesensitive.

(** ** Structured messages

    A [QRcode_List] is the list of the symbols of its entries. *)

Definition QRcode_List := list QRcode.

Definition sizeof_QRcode_List : Z := 16.

(** An entry whose symbol is not known yet. *)
Definition QRcode_List_newEntry : M (option QRcode) :=
  _ ← malloc sizeof_QRcode_List;
  mret None.

Definition QRcode_List_size (qrlist : QRcode_List) : Z := Z.of_nat (length qrlist).

Definition QRcode_encodeInputStructured : SM QRinput_Struct QRcode_List :=
  zoom s_inputs (λ l s, MkStruct (s_size s) (s_parity s) l)
    (for_each (λ codes,
       _ ← lift QRcode_List_newEntry;
       code ← QRcode_encodeInput;
       mret (codes ++ [code])) []).

Definition QRcode_encodeInputToStructured (input : QRinput) : M QRcode_List :=
  s ← QRinput_splitQRinputToStruct input;
  '(codes, _) ← run_on s QRcode_encodeInputStructured;
  mret codes.

Definition QRcode_encodeDataStructuredReal (size : Z) (data : option (list Z)) (version : Z)
    (level : QRecLevel) (eightbit : bool) (hint : QRencodeMode) (casesensitive : bool)
    : M QRcode_List :=
  if version <=? 0 then raise EINVAL
  else if negb eightbit && (negb (bool_decide (hint = QR_MODE_8))
                            && negb (bool_decide (hint = QR_MODE_KANJI)))
  then raise EINVAL
  else
    input ← QRinput_new2 version level;
    '(_, input) ← run_on input (
      if eightbit then QRinput_append QR_MODE_8 size (default [] data) (* NULL has no bytes *)
      else Split_splitStringToQRinput data hint casesensitive);
    QRcode_encodeInputToStructured input.

Definition QRcode_encodeDataStructured (size : Z) (data : option (list Z)) (version : Z)
    (level : QRecLevel) : M QRcode_List :=
  QRcode_encodeDataStructuredReal size data version level true QR_MODE_NUL false.

Definition QRcode_encodeString8bitStructured (string : option (list Z)) (version : Z)
    (level : QRecLevel) : M QRcode_List :=
  match string with
  | None => raise EINVAL
  | Some s => QRcode_encodeDataStructured (Z.of_nat (length s)) string version level
  end.

Definition QRcode_encodeStringStructured (string : option (list Z)) (version : Z)
    (level : QRecLevel) (hint : QRencodeMode) (casesensitive : bool) : M QRcode_List :=
  match string with
  | None => raise EINVAL
  | Some s =>
    QRcode_encodeDataStructuredReal (Z.of_nat (length s)) string version level false hint
      casesensitive
  end.
