(* ===== verification/ApiTheory.v ===== *)
(** * Theory of the entry points

    Data and strings that are encoded by the entry points come back from the
    symbols. *)

From S2P Require Import Prelude CModel BitStream RSCode RSTheory QRSpec MQRSpec FrameFiller.
From S2P Require Import Mask MaskTheory MMask Caches QRInput QRInputTheory QRDecode QREncode Blocks.
From S2P Require Import Symbols Reader Split SplitTheory QRStruct QRApi.

(** A fresh input object. *)
Definition fresh_input (v : Z) (level : QRecLevel) : QRinput := MkInput v level [] TNull false 0 0.

(** Kanji in a string of Shift JIS have a second byte of at least 64. *)
Definition sjis_ok (hint : QRencodeMode) (l : list Z) : Prop :=
  hint = QR_MODE_KANJI →
  ∀ l1 c d l2, l = l1 ++ c :: d :: l2 → is_kanji c d = true → 0x40 ≤ d.

Lemma kanji_trail_substring l1 k l2 :
  (∀ a c d b, l1 ++ k ++ l2 = a ++ c :: d :: b → is_kanji c d = true → 0x40 ≤ d) →
  kanji_valid k = true → kanji_trail_ok k = true.
Proof.
  assert (H : ∀ n k l1, (length k ≤ n)%nat →
    (∀ a c d b, l1 ++ k ++ l2 = a ++ c :: d :: b → is_kanji c d = true → 0x40 ≤ d) →
    kanji_valid k = true → kanji_trail_ok k = true); [|by apply (H (length k))].
  clear. induction n as [|n IH]; intros k l1 Hn H Hv.
  { by destruct k; [|simpl in Hn; lia]. }
  destruct k as [|c [|d k]]; [done..|]. cbn [kanji_valid kanji_trail_ok] in *.
  apply andb_true_iff in Hv as [Hk Hv]. apply andb_true_iff. split.
  - apply Z.leb_le. by apply (H l1 c d (k ++ l2)).
  - apply (IH k (l1 ++ [c; d])); [simpl in Hn; lia| |done]. intros a c' d' b E. apply (H a c' d' b).
    rewrite <- E, <- app_assoc. done.
Qed.

(** Entries that the splitter makes can be encoded and read. *)
Lemma data_entry_encodable v e : data_entry e → encodable_entry false v e.
Proof.
  intros [Hm Hs Hne Hb Hd]. split; [done|done| |by destruct (e_mode e)].
  by rewrite encodable_splittable, Hd, bool_decide_true.
Qed.

Lemma data_entry_decodable e :
  data_entry e → (e_mode e = QR_MODE_KANJI → kanji_trail_ok (e_data e) = true) →
  decodable (e_mode e) (e_data e) = true.
Proof.
  intros [Hm _ _ _ Hd] Hk. destruct (e_mode e); try done. cbn [decodable mode_data] in *.
  by rewrite Hd, Hk.
Qed.

Lemma split_into_decodable l hint es :
  sjis_ok hint l → (es ≫= e_data) = l →
  Forall (λ e, data_entry e ∧ (e_mode e = QR_MODE_KANJI → hint = QR_MODE_KANJI)) es →
  Forall (λ e, decodable (e_mode e) (e_data e) = true) es.
Proof.
  intros Hj El Hes. apply Forall_lookup_2. intros j e He.
  pose proof (Forall_lookup_1 _ _ _ _ Hes He) as [Hde Hh]. apply data_entry_decodable; [done|].
  intros Hm. apply (kanji_trail_substring (take j es ≫= e_data) _ (drop (S j) es ≫= e_data)).
  - intros a c d b E. apply (Hj (Hh Hm) a c d b). rewrite <- E, <- El.
    rewrite <- (take_drop_middle es j e He) at 1. by rewrite bind_app.
  - pose proof (de_data _ Hde) as Hd. by rewrite Hm in Hd.
Qed.

(** The segments of data entries hold the data of the entries. *)
Lemma segments_data v es :
  Forall data_entry es → mjoin (snd <$> (es ≫= entry_segments v)) = (es ≫= e_data).
Proof.
  induction 1 as [|e es [Hm _ _ _ _] _ IH]; [done|]. cbn [mbind list_bind].
  rewrite fmap_app, join_app, entry_segments_data by done. by f_equal.
Qed.

Section api.
Lemma QRinput_new2_spec v level E :
  0 ≤ v ≤ 40 → spec caches_ok (QRinput_new2 v level) (λ i, i = fresh_input v level) E.
Proof.
  intros Hv. unfold QRinput_new2, QRSPEC_VERSION_MAX.
  rewrite (proj2 (Z.ltb_ge v 0)), (proj2 (Z.ltb_ge 40 v)) by lia. cbn [orb].
  eapply spec_bind; [by apply (spec_malloc _ (λ _, True))|]. intros _ _. by apply spec_ret.
Qed.

(** A fresh object with data entries. *)
Lemma fresh_encodable v level es :
  0 ≤ v ≤ 40 → Forall data_entry es → encodable_input (with_entries es (fresh_input v level)).
Proof.
  intros Hv Hes. split; [done|done|done|]. eapply Forall_impl; [exact Hes|].
  intros e. apply data_entry_encodable.
Qed.

(** The end of the entry points: encode the object and keep the symbol. *)
Lemma encode_entries {A} (m : SM QRinput A) v level l hint :
  0 ≤ v ≤ 40 → sjis_ok hint l →
  sm_spec caches_ok m (fresh_input v level) (λ _ i', split_into l hint (fresh_input v level) i')
    (λ _ _, False) →
  spec caches_ok ('(code, _) ← run_on (fresh_input v level) (_ ← m; QRcode_encodeInput); mret code)
    (λ c, ∃ u segs, v ≤ u ≤ 40 ∧ code_version c = u ∧ reads_as c u level segs ∧
      mjoin segs.*2 = l)
    (λ e, e = Some ERANGE ∧ ∃ u es, v ≤ u ≤ 40 ∧ (es ≫= e_data) = l ∧ oversized u level es).
Proof.
  intros Hv Hj Hm. eapply spec_bind.
  - eapply (spec_run_on _ _ (λ c _, ∃ u segs, v ≤ u ≤ 40 ∧ code_version c = u ∧
      reads_as c u level segs ∧ mjoin segs.*2 = l)
      (λ e _, e = Some ERANGE ∧ ∃ u es, v ≤ u ≤ 40 ∧ (es ≫= e_data) = l ∧ oversized u level es));
      [|by intros ? ? ?].
    eapply sm_bind; [eapply sm_mono; [exact Hm|intros ? ? H; exact H|by intros ? ? []]|].
    intros a i' (es & -> & Hes & El). cbn [head fresh_input app].
    assert (Hde : Forall data_entry es).
    { eapply Forall_impl; [exact Hes|]. by intros e []. }
    eapply sm_mono; [apply QRcode_encodeInput_reads; [by apply fresh_encodable|]| |].
    + by eapply split_into_decodable.
    + intros c i' (u & Hu & _ & Hc & _ & Hr). exists u, (es ≫= entry_segments u).
      split; [done|]. split; [done|]. split; [done|]. by rewrite segments_data.
    + intros e i' Ht. apply too_large_oversized in Ht as (-> & u & Hu & Ho).
      split; [done|]. by exists u, es.
  - intros [c i'] H. by apply spec_ret.
Qed.

(** What the entry points promise about the data [l]: a symbol from which it
    can be read, or the error [ERANGE]. *)
Definition encodes (v : Z) (level : QRecLevel) (l : list Z) (m : M QRcode) : Prop :=
  spec caches_ok m
    (λ c, ∃ u segs, v ≤ u ≤ 40 ∧ code_version c = u ∧ reads_as c u level segs ∧
      mjoin segs.*2 = l)
    (λ e, e = Some ERANGE ∧ ∃ u es, v ≤ u ≤ 40 ∧ (es ≫= e_data) = l ∧ oversized u level es).

Lemma encodeDataReal_encodes v level data size :
  0 ≤ v ≤ 40 → Forall is_byte data → 0 < size ≤ Z.of_nat (length data) →
  encodes v level (take (Z.to_nat size) data)
    (QRcode_encodeDataReal (Some data) size v level false).
Proof.
  intros Hv Hb Hs. unfold QRcode_encodeDataReal.
  rewrite (proj2 (Z.eqb_neq size 0)) by lia.
  eapply spec_bind; [by apply QRinput_new2_spec|]. intros ? ->.
  apply (encode_entries _ v level _ QR_MODE_8); [done|by intros H; discriminate H|].
  set (k := take (Z.to_nat size) data).
  assert (Hk : Z.of_nat (length k) = size) by (unfold k; rewrite length_take; lia).
  rewrite <- Hk at 1. rewrite <- (take_drop (Z.to_nat size) data) at 1. fold k.
  assert (Hde : data_entry (new_entry QR_MODE_8 k)).
  { apply data_entry_intro; [done| |by apply Forall_take|done].
    intros E0. rewrite E0 in Hk. simpl in Hk. lia. }
  eapply sm_mono; [by apply append_spec| |intros ? ? H; exact H].
  intros _ i' ->. exists [new_entry QR_MODE_8 k]. split; [done|]. split.
  - apply Forall_singleton. by split.
  - cbn. apply app_nil_r.
Qed.

Lemma encodeString_encodes v level string hint (cs : bool) :
  0 ≤ v ≤ 40 → c_string string → string ≠ [] → hint = QR_MODE_8 ∨ hint = QR_MODE_KANJI →
  let l := if cs then string else to_upper hint string in
  sjis_ok hint l →
  encodes v level l (QRcode_encodeString (Some string) v level hint cs).
Proof.
  intros Hv Hs Hne Hh l Hj. unfold QRcode_encodeString, QRcode_encodeStringReal.
  replace (_ && _) with false by (destruct Hh as [->| ->]; done).
  eapply spec_bind; [by apply QRinput_new2_spec|]. intros ? ->.
  apply (encode_entries _ v level l hint); [done|done|].
  by apply Split_splitStringToQRinput_spec.
Qed.
End api.
