(* ===== verification/StructTheory.v ===== *)
(** * Theory of structured input data

    The split of an input object into the parts of a structured-append message:
    it ends, every part fits its symbol together with its header, and the parts
    hold the data of the object in order. *)

From S2P Require Import Prelude CModel BitStream RSCode RSTheory QRSpec MQRSpec FrameFiller.
From S2P Require Import Mask MaskTheory Caches QRInput QRInputTheory QRDecode QREncode Blocks.
From S2P Require Import Symbols Reader Split SplitTheory Lengths QRStruct QRApi ApiTheory.

(** ** Numbers *)

(** The bits of a symbol that a header leaves. *)
Definition room (v : Z) (level : QRecLevel) : Z :=
  QRspec_getDataLength v level * 8 - STRUCTURE_HEADER_SIZE.

Definition data_modes : list QRencodeMode := [QR_MODE_NUM; QR_MODE_AN; QR_MODE_8; QR_MODE_KANJI].

Lemma elem_of_data_modes mode : QRinput_isSplittableMode mode = true → In mode data_modes.
Proof. destruct mode; try done; simpl; auto. Qed.

(** The bytes of one character. *)
Definition unit_size (mode : QRencodeMode) : Z := if decide (mode = QR_MODE_KANJI) then 2 else 1.

(** A symbol of a structured message is too small for the longest segment that
    its count indicators allow, and has room for a character of every mode. *)
Definition room_ok (v : Z) (level : QRecLevel) : bool :=
  forallb (λ mode,
    (room v level <? segment_length v mode (QRspec_maximumWords mode v + unit_size mode))
    && (0 <? QRinput_lengthOfCode mode v (room v level))) data_modes.

Lemma room_all : all_range 1 41 (λ v, forallb (room_ok v) all_levels) = true.
Proof. by vm_compute. Qed.

Lemma room_spec v level mode :
  1 ≤ v ≤ 40 → QRinput_isSplittableMode mode = true →
  room v level < segment_length v mode (QRspec_maximumWords mode v + unit_size mode) ∧
  0 < QRinput_lengthOfCode mode v (room v level).
Proof.
  intros Hv Hm. pose proof (versions_levels room_ok 1 41 room_all v level ltac:(lia)) as H.
  unfold room_ok in H. rewrite forallb_forall in H.
  specialize (H mode (elem_of_data_modes _ Hm)). lia.
Qed.

Definition room_min_ok (v : Z) (level : QRecLevel) : bool := 52 <=? room v level.

Lemma room_min_all : all_range 1 41 (λ v, forallb (room_min_ok v) all_levels) = true.
Proof. by vm_compute. Qed.

Lemma room_52 v level : 1 ≤ v ≤ 40 → 52 ≤ room v level.
Proof.
  intros Hv. apply Z.leb_le. apply (versions_levels room_min_ok 1 41 room_min_all v level). lia.
Qed.

(** ** Estimates *)

Lemma mode_estimate_mono mode a b :
  QRinput_isSplittableMode mode = true → 0 ≤ a ≤ b → mode_estimate mode a ≤ mode_estimate mode b.
Proof.
  intros Hm Hab. destruct mode; try done; cbn [mode_estimate].
  - unfold QRinput_estimateBitsModeNum. rewrite !Z.quot_div_nonneg by lia.
    pose proof (Z.div_mod a 3 ltac:(lia)). pose proof (Z.mod_pos_bound a 3 ltac:(lia)).
    pose proof (Z.div_mod b 3 ltac:(lia)). pose proof (Z.mod_pos_bound b 3 ltac:(lia)).
    remember (a - a `div` 3 * 3) as r eqn:Er. remember (b - b `div` 3 * 3) as t eqn:Et.
    assert (Hr : r = 0 ∨ r = 1 ∨ r = 2) by lia. assert (Ht : t = 0 ∨ t = 1 ∨ t = 2) by lia.
    destruct Hr as [->|[->| ->]], Ht as [->|[->| ->]]; lia.
  - unfold QRinput_estimateBitsModeAn. rewrite !Z.quot_div_nonneg, !truth_land_1 by lia.
    pose proof (Z.div_mod a 2 ltac:(lia)) as Ea. pose proof (Z.div_mod b 2 ltac:(lia)) as Eb.
    rewrite Zmod_odd in Ea, Eb. destruct (Z.odd a), (Z.odd b); lia.
  - unfold QRinput_estimateBitsMode8. lia.
  - unfold QRinput_estimateBitsModeKanji. rewrite !Z.quot_div_nonneg by lia.
    pose proof (Z.div_le_mono a b 2). lia.
Qed.

Lemma segment_length_mono v mode a b :
  QRinput_isSplittableMode mode = true → 0 ≤ a ≤ b → segment_length v mode a ≤ segment_length v mode b.
Proof. intros Hm Hab. pose proof (mode_estimate_mono mode a b Hm Hab). unfold segment_length. lia. Qed.

(** The bytes for [payload] bits, before the limit of the count indicator. *)
Definition payload_size (mode : QRencodeMode) (payload : Z) : Z :=
  match mode with
  | QR_MODE_NUM =>
    let chunks := payload `quot` 10 in
    let remain := payload - chunks * 10 in
    let size := chunks * 3 in
    if 7 <=? remain then size + 2 else if 4 <=? remain then size + 1 else size
  | QR_MODE_AN =>
    let chunks := payload `quot` 11 in
    let remain := payload - chunks * 11 in
    let size := chunks * 2 in
    if 6 <=? remain then size + 1 else size
  | QR_MODE_8 => payload `quot` 8
  | QR_MODE_KANJI => payload `quot` 13 * 2
  | QR_MODE_STRUCTURE => payload `quot` 8
  | _ => 0
  end.

Lemma payload_size_spec mode payload :
  QRinput_isSplittableMode mode = true → 0 ≤ payload →
  let s := payload_size mode payload in
  0 ≤ s ∧ (mode = QR_MODE_KANJI → ∃ k, s = 2 * k) ∧
  mode_estimate mode s ≤ payload < mode_estimate mode s + 13.
Proof.
  intros Hm Hp. destruct mode; try done; cbv zeta; cbn [payload_size mode_estimate].
  - rewrite (Z.quot_div_nonneg payload) by lia.
    pose proof (Z.div_mod payload 10 ltac:(lia)). pose proof (Z.mod_pos_bound payload 10 ltac:(lia)).
    set (c := payload `div` 10) in *. assert (0 ≤ c) by lia.
    assert (H3 : ∀ r, 0 ≤ r < 3 → QRinput_estimateBitsModeNum (c * 3 + r)
      = c * 10 + (if r =? 0 then 0 else if r =? 1 then 4 else 7)).
    { intros r Hr. unfold QRinput_estimateBitsModeNum. rewrite Z.quot_div_nonneg by lia.
      assert (E : (c * 3 + r) `div` 3 = c) by (symmetry; apply Z.div_unique with r; lia).
      rewrite E. replace (c * 3 + r - c * 3) with r by lia.
      assert (r = 0 ∨ r = 1 ∨ r = 2) as [->|[->| ->]] by lia; cbn; lia. }
    pose proof (H3 0 ltac:(lia)) as H3z. rewrite Z.add_0_r in H3z.
    repeat (case_bool; rewrite ?H3z, ?H3 by lia; cbn [Z.eqb Pos.eqb]); (split; [lia|]; split; [done|lia]).
  - rewrite (Z.quot_div_nonneg payload) by lia.
    pose proof (Z.div_mod payload 11 ltac:(lia)). pose proof (Z.mod_pos_bound payload 11 ltac:(lia)).
    set (c := payload `div` 11) in *. assert (0 ≤ c) by lia.
    assert (H2 : ∀ r, 0 ≤ r < 2 → QRinput_estimateBitsModeAn (c * 2 + r) = c * 11 + 6 * r).
    { intros r Hr. unfold QRinput_estimateBitsModeAn. rewrite Z.quot_div_nonneg, truth_land_1 by lia.
      assert (E : (c * 2 + r) `div` 2 = c) by (symmetry; apply Z.div_unique with r; lia).
      rewrite E. replace (c * 2 + r) with (r + 2 * c) by lia. rewrite Z.odd_add_mul_2.
      assert (r = 0 ∨ r = 1) as [->| ->] by lia; cbn; lia. }
    pose proof (H2 0 ltac:(lia)) as H2z. rewrite Z.add_0_r in H2z.
    case_bool; rewrite ?H2z, ?H2 by lia; (split; [lia|]; split; [done|lia]).
  - unfold QRinput_estimateBitsMode8. rewrite Z.quot_div_nonneg by lia.
    pose proof (Z.div_mod payload 8 ltac:(lia)). pose proof (Z.mod_pos_bound payload 8 ltac:(lia)).
    split; [lia|]. split; [done|lia].
  - unfold QRinput_estimateBitsModeKanji. rewrite (Z.quot_div_nonneg payload) by lia.
    pose proof (Z.div_mod payload 13 ltac:(lia)). pose proof (Z.mod_pos_bound payload 13 ltac:(lia)).
    set (c := payload `div` 13) in *.
    split; [lia|]. split; [intros _; exists c; lia|].
    rewrite Z.quot_mul by lia. lia.
Qed.

Lemma payload_size_neg mode payload :
  QRinput_isSplittableMode mode = true → payload < 0 → payload_size mode payload ≤ 0.
Proof.
  intros Hm Hp. assert (H : ∀ n, 0 < n → payload `quot` n ≤ 0 ∧ payload - payload `quot` n * n ≤ 0).
  { intros n Hn. pose proof (Z.quot_rem payload n ltac:(lia)).
    pose proof (Z.rem_bound_pos_neg payload n Hn ltac:(lia)). nia. }
  pose proof (H 10 ltac:(lia)). pose proof (H 11 ltac:(lia)).
  pose proof (H 8 ltac:(lia)). pose proof (H 13 ltac:(lia)).
  destruct mode; try done; cbn [payload_size]; cbv zeta; repeat case_bool; lia.
Qed.

(** [QRinput_lengthOfCode] gives the bytes of the longest segment that fits. *)
Lemma lengthOfCode_spec mode v level bits :
  1 ≤ v ≤ 40 → QRinput_isSplittableMode mode = true → bits ≤ room v level →
  let b := QRinput_lengthOfCode mode v bits in
  0 ≤ b ≤ QRspec_maximumWords mode v ∧ (mode = QR_MODE_KANJI → ∃ k, b = 2 * k) ∧
  (0 < b → segment_length v mode b ≤ bits < segment_length v mode b + 13) ∧
  (b = 0 → bits < 4 + QRspec_lengthIndicator mode v + 13).
Proof.
  intros Hv Hm Hb b. pose proof (maximumWords_bounds mode v Hm) as Hw.
  pose proof (room_spec v level mode Hv Hm) as [Hroom _].
  assert (Eb : b = let size := payload_size mode (bits - 4 - QRspec_lengthIndicator mode v) in
    let size := if size <? 0 then 0 else size in
    if (0 <? QRspec_maximumWords mode v) && (QRspec_maximumWords mode v <? size)
    then QRspec_maximumWords mode v else size) by done.
  cbv zeta in Eb. clearbody b. set (payload := bits - 4 - QRspec_lengthIndicator mode v) in *.
  destruct (Z.ltb_spec payload 0) as [Hneg|Hpos].
  - assert (Hs : payload_size mode payload ≤ 0).
    { by apply payload_size_neg. }
    assert (b = 0) as ->.
    { rewrite Eb. clear Eb. repeat case_bool; cbn [andb]; lia. }
    split; [lia|]. split; [intros _; by exists 0|]. split; [lia|]. unfold payload in Hneg. lia.
  - destruct (payload_size_spec mode payload Hm Hpos) as (Hs & He & Hest). cbv zeta in Hs, He, Hest.
    set (s := payload_size mode payload) in *.
    assert (Hsw : s ≤ QRspec_maximumWords mode v).
    { destruct (Z.le_gt_cases s (QRspec_maximumWords mode v)) as [|Hgt]; [done|exfalso].
      assert (Hge : QRspec_maximumWords mode v + unit_size mode ≤ s).
      { unfold unit_size. case_decide as Ek; [|lia]. destruct (He Ek) as [k Hk].
        pose proof (maximumWords_value mode v Hm) as Hv'. rewrite decide_True in Hv' by done. lia. }
      assert (0 ≤ unit_size mode) by (unfold unit_size; case_decide; lia).
      pose proof (segment_length_mono v mode (QRspec_maximumWords mode v + unit_size mode) s Hm
        ltac:(lia)) as Hmono.
      unfold segment_length in Hmono at 2. unfold payload in Hest. lia. }
    assert (b = s) as ->.
    { rewrite Eb. clear Eb. repeat case_bool; cbn [andb]; lia. }
    unfold segment_length. split; [lia|]. split; [done|]. unfold payload in *. split; [lia|].
    intros Hs0. rewrite Hs0 in Hest. change 0 with (Z.of_nat (length (@nil Z))) in Hest at 1.
    assert (E0 : mode_estimate mode 0 = 0) by by destruct mode. rewrite E0 in Hest. lia.
Qed.

(** ** Entries *)

(** The estimate of an entry: its bits, and indicators for every [2^l] bytes. *)
Definition entry_estimate (v : Z) (e : QRinput_List) : Z :=
  let l := QRspec_lengthIndicator (e_mode e) v in
  mode_estimate (e_mode e) (e_size e) + (e_size e + 2 ^ l - 1) `quot` 2 ^ l * (4 + l).

(** An entry that the split handles. The estimate counts the bytes of kanji data
    against a limit on its characters; it is exact up to [2^l] bytes. *)
Record struct_entry (v : Z) (e : QRinput_List) : Prop := {
  se_entry : data_entry e;
  se_decodable : decodable (e_mode e) (e_data e) = true;
  se_kanji : e_mode e = QR_MODE_KANJI → e_size e ≤ 2 ^ QRspec_lengthIndicator QR_MODE_KANJI v
}.

Lemma estimate_of_entry v e :
  1 ≤ v → QRinput_isSplittableMode (e_mode e) = true →
  QRinput_estimateBitStreamSizeOfEntry e v false = Ret (entry_estimate v e).
Proof.
  intros Hv Hm. unfold QRinput_estimateBitStreamSizeOfEntry, entry_estimate.
  rewrite (proj2 (Z.eqb_neq v 0)) by lia.
  pose proof (lengthIndicator_bounds (e_mode e) v Hm).
  rewrite Z.shiftl_1_l. destruct (e_mode e); done.
Qed.

Lemma entry_estimate_spec v e :
  data_entry e →
  segment_length v (e_mode e) (e_size e) ≤ entry_estimate v e ∧
  (e_size e ≤ 2 ^ QRspec_lengthIndicator (e_mode e) v →
   entry_estimate v e = segment_length v (e_mode e) (e_size e)).
Proof.
  intros [Hm Hs Hne _ _]. unfold entry_estimate, segment_length.
  pose proof (lengthIndicator_bounds (e_mode e) v Hm) as Hl.
  set (l := QRspec_lengthIndicator (e_mode e) v) in *.
  assert (0 < e_size e) by (destruct (e_data e); [done|simpl in Hs; lia]).
  assert (0 < 2 ^ l) by (apply Z.pow_pos_nonneg; lia).
  rewrite Z.quot_div_nonneg by lia. split.
  - assert (1 ≤ (e_size e + 2 ^ l - 1) `div` 2 ^ l) by (apply Z.div_le_lower_bound; lia). nia.
  - intros Hle. replace ((e_size e + 2 ^ l - 1) `div` 2 ^ l) with 1; [lia|].
    apply Z.div_unique with (e_size e - 1); lia.
Qed.

Lemma data_entry_even e : data_entry e → e_mode e = QR_MODE_KANJI → ∃ k, e_size e = 2 * k.
Proof.
  intros [_ Hs _ _ Hd] Ek. rewrite Ek in Hd. apply kanji_valid_even in Hd as [n Hn].
  exists (Z.of_nat n). lia.
Qed.

(** What fits into a symbol is one segment. *)
Lemma fitting_size v level e :
  1 ≤ v ≤ 40 → data_entry e → segment_length v (e_mode e) (e_size e) ≤ room v level →
  e_size e ≤ QRspec_maximumWords (e_mode e) v.
Proof.
  intros Hv He Hfit. pose proof He as [Hm Hs Hne _ _].
  destruct (room_spec v level _ Hv Hm) as [Hroom _].
  destruct (Z.le_gt_cases (e_size e) (QRspec_maximumWords (e_mode e) v)) as [|Hgt]; [done|exfalso].
  pose proof (maximumWords_bounds _ v Hm).
  assert (0 ≤ unit_size (e_mode e)) by (unfold unit_size; case_decide; lia).
  assert (Hge : QRspec_maximumWords (e_mode e) v + unit_size (e_mode e) ≤ e_size e).
  { unfold unit_size. case_decide as Ek; [|lia]. destruct (data_entry_even e He Ek) as [k Hk].
    pose proof (maximumWords_value _ v Hm) as Hv'. rewrite decide_True in Hv' by done. lia. }
  pose proof (segment_length_mono v _ (QRspec_maximumWords (e_mode e) v + unit_size (e_mode e))
    (e_size e) Hm ltac:(lia)). lia.
Qed.

Lemma one_segment v e :
  data_entry e → e_size e ≤ QRspec_maximumWords (e_mode e) v →
  Z.of_nat (length (entry_bits false v (e_mode e) (e_data e)))
  = segment_length v (e_mode e) (e_size e).
Proof.
  intros [Hm Hs _ _ _] Hsize. rewrite length_entry_bits_short; [by rewrite Hs|done|by rewrite <- Hs].
Qed.

Lemma fitting_entry v level e :
  1 ≤ v ≤ 40 → data_entry e → segment_length v (e_mode e) (e_size e) ≤ room v level →
  Z.of_nat (length (entry_bits false v (e_mode e) (e_data e)))
  = segment_length v (e_mode e) (e_size e).
Proof. intros Hv He Hfit. apply one_segment; [done|by eapply fitting_size]. Qed.

(** The two pieces of an entry that is cut after [b] bytes. *)
Definition first_piece (b : Z) (e : QRinput_List) : QRinput_List :=
  MkEntry (e_mode e) b (take (Z.to_nat b) (e_data e)) (e_bstream e).

Definition second_piece (b : Z) (e : QRinput_List) : QRinput_List :=
  MkEntry (e_mode e) (e_size e - b) (drop (Z.to_nat b) (e_data e)) None.

Lemma pieces_ok v b e :
  struct_entry v e → 0 < b < e_size e → (e_mode e = QR_MODE_KANJI → ∃ k, b = 2 * k) →
  struct_entry v (first_piece b e) ∧ struct_entry v (second_piece b e).
Proof.
  intros [[Hm Hs Hne Hb Hd] Hdec Hk] Hr He.
  assert (Hn : e_mode e = QR_MODE_KANJI → ∃ k : nat, Z.to_nat b = (2 * k)%nat).
  { intros Ek. destruct (He Ek) as [k Hk']. exists (Z.to_nat k). lia. }
  destruct (mode_data_split _ _ (Z.to_nat b) Hm Hd Hn ltac:(lia)) as [Hd1 Hd2].
  destruct (decodable_split _ _ (Z.to_nat b) Hm Hdec Hn ltac:(lia)) as [Hc1 Hc2].
  assert (Ht : length (take (Z.to_nat b) (e_data e)) = Z.to_nat b) by (rewrite length_take; lia).
  assert (Hdr : length (drop (Z.to_nat b) (e_data e)) = (length (e_data e) - Z.to_nat b)%nat)
    by apply length_drop.
  split; (split; [split| |]); cbn [first_piece second_piece e_mode e_size e_data];
    auto using Forall_take, Forall_drop; try lia.
  - intros E. rewrite E in Ht. simpl in Ht. lia.
  - intros Ek. specialize (Hk Ek). lia.
  - intros E. rewrite E in Hdr. simpl in Hdr. lia.
  - intros Ek. specialize (Hk Ek). lia.
Qed.

(** An entry that does not fit is longer than the piece that does. *)
Lemma cut_inside v level bits e :
  1 ≤ v ≤ 40 → struct_entry v e → bits ≤ room v level → bits < entry_estimate v e →
  let b := QRinput_lengthOfCode (e_mode e) v bits in 0 < b → b < e_size e.
Proof.
  intros Hv [He _ Hk] Hb Hest b Hpos. pose proof He as [Hm _ _ _ _].
  destruct (lengthOfCode_spec (e_mode e) v level bits Hv Hm Hb) as (Hmax & _ & Hseg & _).
  fold b in Hmax, Hseg. specialize (Hseg Hpos).
  destruct (Z.lt_ge_cases b (e_size e)) as [|Hge]; [done|exfalso].
  destruct (entry_estimate_spec v e He) as [_ Hexact].
  assert (0 ≤ e_size e) by (rewrite (de_size _ He); lia).
  pose proof (segment_length_mono v (e_mode e) (e_size e) b Hm ltac:(lia)).
  rewrite Hexact in Hest; [lia|].
  destruct (decide (e_mode e = QR_MODE_KANJI)) as [Ek|Ek]; [rewrite Ek; by apply Hk|].
  rewrite maximumWords_value, decide_False in Hmax by done. lia.
Qed.

(** ** The loop *)

(** The bytes of entries with their modes: what a split must not change. *)
Definition tagged (es : list QRinput_List) : list (QRencodeMode * Z) :=
  es ≫= λ e, pair (e_mode e) <$> e_data e.

Definition stream_length (v : Z) (es : list QRinput_List) : Z :=
  Z.of_nat (length (stream false v es)).

(** An entry in its place: its count fits one segment. *)
Record placed (v : Z) (e : QRinput_List) : Prop := {
  pl_entry : struct_entry v e;
  pl_size : e_size e ≤ QRspec_maximumWords (e_mode e) v
}.

(** A part of a message: its entries leave room for the header. *)
Record struct_part (v : Z) (level : QRecLevel) (p : QRinput) : Prop := {
  sp_mqr : mqr p = false;
  sp_version : version p = v;
  sp_level : QRInput.level p = level;
  sp_fnc1 : fnc1 p = 0;
  sp_entries : Forall (placed v) (head p);
  sp_room : stream_length v (head p) ≤ room v level
}.

(** A part that has no room left for a segment of another character. *)
Definition part_full (v : Z) (level : QRecLevel) (p : QRinput) : Prop :=
  room v level - 33 < stream_length v (head p).

Lemma tagged_app es1 es2 : tagged (es1 ++ es2) = tagged es1 ++ tagged es2.
Proof. apply bind_app. Qed.

Lemma tagged_pieces b e : tagged [first_piece b e; second_piece b e] = tagged [e].
Proof.
  unfold tagged. cbn [mbind list_bind first_piece second_piece e_mode e_data].
  by rewrite !app_nil_r, <- fmap_app, take_drop.
Qed.

Lemma stream_length_snoc v es e :
  stream_length v (es ++ [e])
  = stream_length v es + Z.of_nat (length (entry_bits false v (e_mode e) (e_data e))).
Proof.
  unfold stream_length, stream. rewrite bind_app, length_app. cbn [mbind list_bind].
  rewrite app_nil_r. lia.
Qed.

Lemma set_bstream_placed v b e : placed v e → placed v (set_bstream b e).
Proof. by intros [[[] ? ?] ?]. Qed.

Section split.
Context {Inv : statics → Prop} (E : option errno_t → Prop).

Lemma splitEntry_spec v b e :
  struct_entry v (second_piece b e) → 0 < b < e_size e → e_size e = Z.of_nat (length (e_data e)) →
  spec Inv (run_on e (QRinput_splitEntry b)) (λ r, r = (second_piece b e, first_piece b e)) E.
Proof.
  intros [He _ _] Hb Hs.
  eapply spec_mono; [apply (spec_run_on _ _ (λ next e', next = second_piece b e ∧ e' = first_piece b e)
    (λ _ _, False) E); [|by intros ? ? []]| |done].
  - apply sm_get_bind. eapply sm_lift_bind with (P := λ n, n = second_piece b e).
    + destruct He as [Hm Hsz Hne Hby Hd]. cbn [second_piece e_mode e_size e_data] in *.
      rewrite Hsz. eapply spec_mono; [apply (newEntry_spec _ _ _ no_failure)| |by intros ? []].
      * rewrite length_drop. lia.
      * rewrite QRinput_check_spec by done. by rewrite Hd, bool_decide_eq_true_2.
      * intros ? ->. unfold second_piece. rewrite take_ge by lia. by rewrite Hsz.
    + intros ? ->. eapply sm_bind with (P := λ _ e', e' = first_piece b e); [|intros _ ? ->; by apply sm_ret].
      apply sm_get_bind. eapply sm_lift_bind; [by apply (spec_malloc _ (λ _, True)); [lia|]|].
      intros _ _. eapply sm_lift_bind; [eapply (spec_liftO _ _ (λ d, d = take (Z.to_nat b) (e_data e)))|].
      * unfold copy_bytes. replace (_ && _) with true by lia.
        change (Z.to_nat 0) with 0%nat. by rewrite drop_0.
      * done.
      * intros ? ->. by apply sm_put.
  - intros [n e'] [E1 E2]. cbn [fst snd] in E1, E2. by subst.
Qed.

Lemma appendInput_spec p s :
  mqr p = false →
  spec Inv (run_on s (QRinput_Struct_appendInput p))
    (λ r, r.2 = MkStruct (s_size s + 1) (s_parity s) (s_inputs s ++ [p])) E.
Proof.
  intros Hm. eapply spec_mono; [apply (spec_run_on _ _ (λ _ s',
    s' = MkStruct (s_size s + 1) (s_parity s) (s_inputs s ++ [p])) (λ _ _, False) E); [|by intros ? ? []]
    |by intros [? ?] ->|done].
  unfold QRinput_Struct_appendInput. rewrite Hm.
  eapply sm_lift_bind with (P := λ e, e = p).
  { eapply spec_bind; [by apply (spec_malloc _ (λ _, True))|]. intros _ _. by apply spec_ret. }
  intros ? ->. apply sm_get_bind. apply sm_put_bind. by apply sm_ret.
Qed.
End split.

(** What the loop makes of the entries [es]. *)
Definition split_result (v : Z) (level : QRecLevel) (s : QRinput_Struct) (es : list QRinput_List)
    (s' : QRinput_Struct) : Prop :=
  ∃ parts last,
    s' = MkStruct (s_size s + Z.of_nat (length (parts ++ [last]))) (s_parity s)
           (s_inputs s ++ parts ++ [last]) ∧
    Forall (struct_part v level) (parts ++ [last]) ∧ Forall (part_full v level) parts ∧
    tagged ((parts ++ [last]) ≫= head) = tagged es ∧
    (length ((parts ++ [last]) ≫= head) ≤ length es + length parts)%nat.

(** A part is closed. *)
Lemma split_result_cons v level s p es es' s' :
  struct_part v level p → part_full v level p → tagged (head p ++ es') = tagged es →
  (length (head p ++ es') ≤ S (length es))%nat →
  split_result v level (MkStruct (s_size s + 1) (s_parity s) (s_inputs s ++ [p])) es' s' →
  split_result v level s es s'.
Proof.
  intros Hp Hf Ht Hn (parts & last & -> & Hparts & Hfull & E & Hlen). exists (p :: parts), last.
  cbn [s_size s_parity s_inputs app]. split; [|split; [by constructor|split; [by constructor|split]]].
  - f_equal; [|by rewrite <- app_assoc]. cbn [length]. rewrite !length_app. cbn [length]. lia.
  - rewrite bind_cons, tagged_app, E, <- tagged_app. done.
  - rewrite bind_cons, length_app in *. cbn [length]. lia.
Qed.

Definition entries_size (es : list QRinput_List) : nat :=
  sum_list_with (λ e, S (Z.to_nat (e_size e))) es.

Section split_loop.
Context (E : option errno_t → Prop).
Context (v : Z) (level : QRecLevel) (Hv : 1 ≤ v ≤ 40).

(** The invariant of the loop, with the fuel that is left. *)
Record loop_state (fuel : nat) (input : QRinput) (before rest : list QRinput_List) (prev : bool)
    (bits : Z) : Prop := {
  ls_mqr : mqr input = false;
  ls_version : version input = v;
  ls_level : QRInput.level input = level;
  ls_fnc1 : fnc1 input = 0;
  ls_before : Forall (placed v) before;
  ls_rest : Forall (struct_entry v) rest;
  ls_bits : bits = stream_length v before;
  ls_room : 0 ≤ bits ≤ room v level;
  ls_prev : before ≠ [] → prev = true;
  ls_fuel : (2 * entries_size rest + (if before is [] then 0 else 1) < fuel)%nat
}.

(** An object of this version with some of the entries is a part. *)
Lemma state_part fuel input before rest prev bits es t :
  loop_state fuel input before rest prev bits → Forall (placed v) es →
  stream_length v es ≤ room v level → struct_part v level (set_tail t (set_head es input)).
Proof. by intros [] ? ?; split. Qed.

(** The next entry fits. *)
Lemma state_fits fuel input before e rest prev bits b :
  loop_state (S fuel) input before (e :: rest) prev bits →
  bits + entry_estimate v e ≤ room v level →
  Z.of_nat (length (entry_bits false v (e_mode e) (e_data e))) = segment_length v (e_mode e) (e_size e) ∧
  loop_state fuel input (before ++ [set_bstream b e]) rest true
    (bits + segment_length v (e_mode e) (e_size e)).
Proof.
  intros [Hm Eiv Eil Hf Hbefore [He Hrest]%Forall_cons Hbits Hle Hprev Hfuel] Hfit.
  pose proof He as [Hde _ _]. destruct (entry_estimate_spec v e Hde) as [Hest _].
  cbn [entries_size sum_list_with foldr] in Hfuel. fold (entries_size rest) in Hfuel.
  assert (Hlen := fitting_entry v level e Hv Hde ltac:(lia)). split; [done|]. split; try done.
  - apply Forall_app. split; [done|]. apply Forall_singleton, set_bstream_placed.
    split; [done|]. apply (fitting_size v level); [done|done|lia].
  - rewrite stream_length_snoc. cbn [set_bstream e_mode e_data]. lia.
  - lia.
  - destruct before; cbn [app]; lia.
Qed.

(** The next entry is cut after [b] bytes, and a new object starts. *)
Lemma state_cut fuel input before e rest prev bits :
  loop_state (S fuel) input before (e :: rest) prev bits →
  room v level < bits + entry_estimate v e →
  let b := QRinput_lengthOfCode (e_mode e) v (room v level - bits) in
  let p := set_tail (TAt (length before)) (set_head (before ++ [first_piece b e]) input) in
  0 < b →
  (0 < b < e_size e ∧ e_size e = Z.of_nat (length (e_data e)) ∧ struct_entry v (second_piece b e)) ∧
  struct_part v level p ∧ part_full v level p ∧
  tagged (head p ++ second_piece b e :: rest) = tagged (before ++ e :: rest) ∧
  (length (head p ++ second_piece b e :: rest) ≤ S (length (before ++ e :: rest)))%nat ∧
  ∀ t, loop_state fuel (set_tail t (fresh_input v level)) [] (second_piece b e :: rest) true 0.
Proof.
  intros Hstate Hover b p Hpos.
  pose proof Hstate as [Hm Eiv Eil Hf Hbefore [He Hrest]%Forall_cons Hbits Hle Hprev Hfuel].
  pose proof He as [[Hmode Hsz _ _ _] _ _].
  destruct (lengthOfCode_spec (e_mode e) v level (room v level - bits) Hv Hmode ltac:(lia))
    as (Hb1 & Hb2 & Hb3 & _). fold b in Hb1, Hb2, Hb3. specialize (Hb3 Hpos).
  pose proof (cut_inside v level (room v level - bits) e Hv He ltac:(lia) ltac:(lia) Hpos) as Hlt.
  fold b in Hlt. destruct (pieces_ok v b e He ltac:(lia) Hb2) as [He1 He2].
  cbn [entries_size sum_list_with foldr] in Hfuel. fold (entries_size rest) in Hfuel.
  assert (Hlen : stream_length v (before ++ [first_piece b e]) = bits + segment_length v (e_mode e) b).
  { rewrite stream_length_snoc, <- Hbits. f_equal.
    apply (fitting_entry v level (first_piece b e)); [done|by destruct He1|cbn; lia]. }
  split; [done|]. split; [|split; [|split]].
  - eapply state_part; [exact Hstate| |lia].
    apply Forall_app. split; [done|apply Forall_singleton; split; [done|cbn; lia]].
  - unfold part_full, p. cbn [head set_head set_tail]. lia.
  - unfold p. cbn [head set_head set_tail].
    change (second_piece b e :: rest) with ([second_piece b e] ++ rest).
    change (e :: rest) with ([e] ++ rest). rewrite !tagged_app, <- (tagged_pieces b e).
    change [first_piece b e; second_piece b e] with ([first_piece b e] ++ [second_piece b e]).
    rewrite tagged_app, <- !app_assoc. done.
  - split.
    { unfold p. cbn [head set_head set_tail]. rewrite !length_app. simpl. lia. }
    intros t. split; try done; [by constructor|lia|].
    cbn [entries_size sum_list_with foldr second_piece e_size]. fold (entries_size rest). lia.
Qed.

(** No character of the next entry fits, and a new object starts with it. *)
Lemma state_next fuel input before e rest prev bits t :
  loop_state (S fuel) input before (e :: rest) prev bits →
  QRinput_lengthOfCode (e_mode e) v (room v level - bits) ≤ 0 →
  let p := set_tail t (set_head before input) in
  before ≠ [] ∧ prev = true ∧ struct_part v level p ∧ part_full v level p ∧
  ∀ t, loop_state fuel (set_tail t (fresh_input v level)) [] (e :: rest) true 0.
Proof.
  intros Hstate Hzero p.
  pose proof Hstate as [Hm Eiv Eil Hf Hbefore [He Hrest]%Forall_cons Hbits Hle Hprev Hfuel].
  pose proof He as [[Hmode _ _ _ _] _ _].
  destruct (lengthOfCode_spec (e_mode e) v level (room v level - bits) Hv Hmode ltac:(lia))
    as (Hb1 & _ & _ & Hb4). specialize (Hb4 ltac:(lia)).
  assert (Hne : before ≠ []).
  { intros ->. destruct (room_spec v level (e_mode e) Hv Hmode) as [_ Hr].
    rewrite Hbits in Hzero. unfold stream_length in Hzero. cbn in Hzero.
    rewrite Z.sub_0_r in Hzero. lia. }
  split; [done|]. split; [by apply Hprev|]. split; [|split].
  - by eapply state_part; [exact Hstate| |lia].
  - unfold part_full, p. cbn [head set_head set_tail].
    pose proof (lengthIndicator_bounds (e_mode e) v Hmode). lia.
  - intros t'. split; try done; [by constructor|lia|].
    cbn [entries_size sum_list_with foldr] in *. destruct before; [done|]. lia.
Qed.

Lemma split_loop_spec fuel s input before rest prev bits :
  loop_state fuel input before rest prev bits →
  spec caches_ok (split_loop fuel (room v level) s input before rest prev bits)
    (split_result v level s (before ++ rest)) E.
Proof.
  revert s input before rest prev bits.
  induction fuel as [|fuel IH]; intros s input before rest prev bits Hstate; [destruct Hstate; lia|].
  pose proof Hstate as [Hm Eiv Eil _ Hbefore Hrest Hbits Hle _ _].
  destruct Hrest as [|e rest He Hrest]; cbn [split_loop].
  { eapply spec_bind; [by apply appendInput_spec|]. intros [r s'] Es. cbn [snd] in Es. subst s'.
    apply spec_ret. exists [], (set_head before input). cbn [app length].
    split; [done|]. split; [apply Forall_singleton; eapply (state_part _ _ _ _ _ _ _ (tail input));
      [exact Hstate|done|lia]|].
    split; [done|]. cbn [mbind list_bind head set_head]. rewrite !app_nil_r. split; [done|]. simpl. lia. }
  pose proof He as [[Hmode Hsz Hne Hby Hd] _ _]. rewrite Eiv, Eil, Hm.
  eapply spec_bind; [eapply (spec_liftO _ _ (λ n, n = entry_estimate v e)); [|done]|].
  { apply estimate_of_entry; [lia|done]. }
  intros ? ->. destruct (Z.leb_spec (bits + entry_estimate v e) (room v level)) as [Hfit|Hover].
  - eapply spec_bind.
    { eapply (spec_run_on _ _ (λ n e', n = segment_length v (e_mode e) (e_size e) ∧
        ∃ b, e' = set_bstream b e) (λ _ _, False)); [|by intros ? ? []].
      eapply sm_mono; [apply encodeBitStream_spec; [done|done| |by revert Hmode; destruct (e_mode e)]
        | |intros ? ? H; exact H].
      - rewrite encodable_splittable, Hd by done. by rewrite bool_decide_eq_true_2.
      - intros n e' [-> ->]. split; [|by eexists]. by eapply (state_fits _ _ _ _ _ _ _ None). }
    intros [n e'] [En (b & Ee)]. cbn [fst snd] in En, Ee. subst n e'.
    eapply spec_mono; [by eapply IH, state_fits| |done].
    intros s' (parts & last & -> & Hp & Hfull & Et & Hlen). exists parts, last.
    change (e :: rest) with ([e] ++ rest).
    split_and!; try done; [by rewrite Et, !tagged_app, <- app_assoc|].
    rewrite <- app_assoc in Hlen. rewrite !length_app in *. exact Hlen.
  - set (b := QRinput_lengthOfCode (e_mode e) v (room v level - bits)).
    eapply spec_bind; [by apply QRinput_new2_spec; lia|]. intros ? ->.
    destruct (Z.ltb_spec 0 b) as [Hpos|Hzero].
    + destruct (state_cut _ _ _ _ _ _ _ Hstate Hover Hpos) as ((? & ? & ?) & Hp & Hfull & Et & Hlen & Hnext).
      eapply spec_bind; [by apply (splitEntry_spec _ v)|]. intros ? ->.
      eapply spec_bind; [by apply appendInput_spec|]. intros [r s'] Es. cbn [snd] in Es. subst s'.
      eapply spec_mono; [apply IH, Hnext|intros s'; by apply split_result_cons|done].
    + destruct (state_next _ _ _ _ _ _ _ (TAt (pred (length before))) Hstate Hzero)
        as (Hne' & -> & Hp & Hfull & Hnext).
      cbn [negb]. destruct before as [|e0 before]; [done|].
      eapply spec_bind; [by apply appendInput_spec|]. intros [r s'] Es. cbn [snd] in Es. subst s'.
      eapply spec_mono; [apply IH, Hnext|intros s'; apply split_result_cons; try done; simpl; lia|done].
Qed.
End split_loop.

(** ** Copies and parity *)

(** The exclusive or of bytes. *)
Definition parity_of (l : list Z) : Z := foldr Z.lxor 0 l.

Lemma parity_of_app l1 l2 : parity_of (l1 ++ l2) = Z.lxor (parity_of l1) (parity_of l2).
Proof.
  unfold parity_of. induction l1 as [|x l1 IH]; [by rewrite Z.lxor_0_l|].
  cbn [app foldr]. by rewrite IH, Z.lxor_assoc.
Qed.

Lemma calcParity_bytes data (n : nat) p :
  (n ≤ length data)%nat →
  foldM (λ i parity, d ← readZ data i; mret (Z.lxor parity d)) (reverse (range 0 (Z.of_nat n))) p
  = Ret (Z.lxor p (parity_of (take n data))).
Proof.
  revert p. induction n as [|n IH]; intros p Hn; [by rewrite Z.lxor_0_r|].
  replace (Z.of_nat (S n)) with (Z.of_nat n + 1) by lia.
  rewrite range_snoc, reverse_snoc by lia. cbn [foldM].
  destruct (readZ_lt data (Z.of_nat n)) as (d & Hd & ->); [lia|]. cbn [mbind outcome_bind mret outcome_ret].
  rewrite Nat2Z.id in Hd. unfold mbind in IH. rewrite IH by lia.
  rewrite (take_S_r _ _ d), parity_of_app by done. cbn [parity_of foldr].
  rewrite Z.lxor_0_r, Z.lxor_assoc. do 2 f_equal. apply Z.lxor_comm.
Qed.

Lemma calcParity_spec i :
  Forall data_entry (head i) → QRinput_calcParity i = Ret (parity_of (head i ≫= e_data)).
Proof.
  intros Hes. unfold QRinput_calcParity.
  enough (H : ∀ p, foldM (λ e parity,
    if bool_decide (e_mode e = QR_MODE_STRUCTURE) then mret parity
    else foldM (λ i parity, d ← readZ (e_data e) i; mret (Z.lxor parity d))
           (reverse (range 0 (e_size e))) parity) (head i) p
    = Ret (Z.lxor p (parity_of (head i ≫= e_data)))) by (by rewrite H, Z.lxor_0_l).
  induction Hes as [|e es [Hm Hs _ _ _] _ IH]; intros p; cbn [foldM]; [by rewrite Z.lxor_0_r|].
  rewrite bool_decide_eq_false_2 by (intros E; by rewrite E in Hm).
  rewrite Hs, calcParity_bytes by lia. cbn [mbind outcome_bind]. rewrite IH, take_ge by lia.
  rewrite bind_cons, parity_of_app, Z.lxor_assoc. done.
Qed.

Lemma parity_byte l : Forall is_byte l → is_byte (parity_of l).
Proof. unfold parity_of. induction 1; cbn [foldr]; [by split|by apply lxor_byte]. Qed.

Section copy.
Context (E : option errno_t → Prop).

Definition copied (e : QRinput_List) : QRinput_List := MkEntry (e_mode e) (e_size e) (e_data e) None.

Lemma dup_spec i :
  mqr i = false → 0 ≤ version i ≤ 40 → Forall data_entry (head i) →
  spec caches_ok (QRinput_dup i)
    (λ j, j = with_entries (copied <$> head i) (fresh_input (version i) (level i))) E.
Proof.
  intros Hm Hv Hes. unfold QRinput_dup. rewrite Hm.
  eapply spec_bind; [by apply QRinput_new2_spec|]. intros ? ->.
  set (n0 := fresh_input (version i) (level i)).
  enough (H : ∀ l, spec caches_ok (foldM (λ e n, e' ← QRinput_List_dup e;
      '(_, n) ← run_on n (QRinput_appendEntry e'); mret n) (head i) (with_entries l n0))
    (λ j, j = with_entries (l ++ (copied <$> head i)) n0) E) by by apply (H []).
  induction Hes as [|e es [_ Hs _ _ _] _ IH]; intros l; cbn [foldM fmap list_fmap].
  { rewrite app_nil_r. by apply spec_ret. }
  eapply spec_bind with (P := λ n, n = with_entries (l ++ [copied e]) n0).
  - eapply spec_bind with (P := λ e', e' = copied e).
    { unfold QRinput_List_dup. eapply spec_bind; [by apply (spec_malloc _ (λ _, True))|]. intros _ _.
      eapply spec_bind; [apply (spec_malloc _ (λ _, True)); [lia|done]|]. intros _ _.
      eapply spec_bind; [eapply (spec_liftO _ _ (λ d, d = e_data e)); [|done]|intros ? ->; by apply spec_ret].
      unfold copy_bytes. replace (_ && _) with true by lia. change (Z.to_nat 0) with 0%nat.
      by rewrite drop_0, take_ge by lia. }
    intros ? ->. eapply spec_bind.
    { eapply (spec_run_on _ _ (λ _ n, n = with_entries (l ++ [copied e]) n0) (λ _ _, False));
        [|by intros ? ? []].
      eapply sm_mono; [apply (appendEntry_spec _ _ (λ _ _, False)), with_entries_tail| |by intros ? ? []].
      intros ? ? ->. apply with_entries_twice. }
    intros [? n] En. cbn [snd] in En. subst n. by apply spec_ret.
  - intros ? ->. eapply spec_mono; [apply IH| |done]. intros ? ->. by rewrite <- app_assoc.
Qed.
End copy.

(** ** Headers *)

Definition header_entry (n k parity : Z) : QRinput_List :=
  MkEntry QR_MODE_STRUCTURE 3 [n; k; parity] None.

(** The parts [ps] with their headers; a single part has none. *)
Definition with_headers (parity : Z) (ps : list QRinput) : list QRinput :=
  if (length ps =? 1)%nat then ps
  else imap (λ k p, push_head (header_entry (Z.of_nat (length ps)) (Z.of_nat k + 1) parity) p) ps.

Section headers.
Context {Inv : statics → Prop}.

Lemma insertHeader_spec n k parity p :
  1 ≤ k ≤ n → n ≤ 16 → is_byte parity →
  sm_spec Inv (QRinput_insertStructuredAppendHeader n k parity) p
    (λ _ p', p' = push_head (header_entry n k parity) p) (λ _ _, False).
Proof.
  intros Hk Hn Hp. unfold QRinput_insertStructuredAppendHeader, MAX_STRUCTURED_SYMBOLS.
  rewrite (proj2 (Z.ltb_ge 16 n)), (proj2 (Z.leb_gt k 0)), (proj2 (Z.ltb_ge n k)) by lia. cbn [orb].
  eapply sm_lift_bind with (P := λ e, e = header_entry n k parity).
  - eapply spec_mono; [apply (newEntry_spec _ _ 3 no_failure); [simpl; lia|done]| |by intros ? []].
    intros ? ->. unfold header_entry, u8. rewrite !Z.mod_small by lia. done.
  - intros ? ->. apply sm_get_bind. by apply sm_put.
Qed.

Lemma insertHeaders_spec parity ps :
  ps ≠ [] → (length ps ≤ 16)%nat → is_byte parity →
  spec Inv (run_on (MkStruct (Z.of_nat (length ps)) parity ps)
      QRinput_Struct_insertStructuredAppendHeaders)
    (λ r, r.2 = MkStruct (Z.of_nat (length ps)) parity (with_headers parity ps)) (λ _, False).
Proof.
  intros Hne Hlen Hp.
  eapply (spec_run_on _ _ (λ _ s, s = MkStruct (Z.of_nat (length ps)) parity (with_headers parity ps))
    (λ _ _, False)); [|done].
  apply sm_get_bind. cbn [s_size s_parity]. unfold with_headers.
  assert (0 < length ps)%nat by (destruct ps; [done|simpl; lia]).
  destruct (Nat.eqb_spec (length ps) 1) as [E1|E1].
  { rewrite (proj2 (Z.eqb_eq _ _)) by lia. by apply sm_ret. }
  rewrite (proj2 (Z.eqb_neq _ _)) by lia.
  rewrite (proj2 (Z.ltb_ge _ _)) by (unfold is_byte in Hp; lia).
  eapply sm_bind with (P := λ _ s, s = MkStruct (Z.of_nat (length ps)) parity ps); [by apply sm_ret|].
  intros _ ? ->. apply sm_get_bind. cbn [s_size s_parity].
  eapply sm_bind; [apply sm_zoom|intros ? s Hs; apply sm_ret; exact Hs]. cbn [s_inputs s_size s_parity].
  set (upd := λ k p, push_head (header_entry (Z.of_nat (length ps)) (Z.of_nat k + 1) parity) p).
  eapply sm_mono; [apply (sm_walk _ (λ d d' i, d' = imap upd d ∧ i = Z.of_nat (length d) + 1)
    (λ _, False))| |done].
  - intros d d' i p r E [-> ->]. eapply sm_bind.
    + apply insertHeader_spec; [|lia|done]. rewrite E, length_app. cbn [length]. lia.
    + intros _ ? ->. apply sm_ret. rewrite imap_app, length_app. cbn [imap length].
      split; [|lia]. by rewrite Nat.add_0_r.
  - done.
  - intros _ l [-> _]. done.
Qed.
End headers.

(** ** The split *)

(** The objects that the split handles. *)
Record struct_input (i : QRinput) : Prop := {
  si_mqr : mqr i = false;
  si_version : 1 ≤ version i ≤ 40;
  si_entries : Forall (struct_entry (version i)) (head i)
}.

Definition input_parity (i : QRinput) : Z := parity_of (head i ≫= e_data).

(** The parts [ps] of the object [i]: all but the last are full. *)
Definition parts_of (i : QRinput) (ps : list QRinput) : Prop :=
  ∃ full last, ps = full ++ [last] ∧
    Forall (struct_part (version i) (level i)) ps ∧
    Forall (part_full (version i) (level i)) full ∧ tagged (ps ≫= head) = tagged (head i) ∧
    (length (ps ≫= head) ≤ length (head i) + length full)%nat.

Lemma tagged_copied es : tagged (copied <$> es) = tagged es.
Proof. unfold tagged. by rewrite list_fmap_bind. Qed.

Lemma copied_struct v es : Forall (struct_entry v) es → Forall (struct_entry v) (copied <$> es).
Proof. intros H. apply Forall_fmap. eapply Forall_impl; [exact H|]. by intros e [[] ? ?]. Qed.

Lemma copied_data (es : list QRinput_List) : ((copied <$> es) ≫= e_data) = (es ≫= e_data).
Proof. by rewrite list_fmap_bind. Qed.

Lemma struct_data_entries v es : Forall (struct_entry v) es → Forall data_entry es.
Proof. intros H. eapply Forall_impl; [exact H|]. by intros e []. Qed.

Lemma split_spec i :
  struct_input i →
  spec caches_ok (QRinput_splitQRinputToStruct i)
    (λ s, ∃ ps, parts_of i ps ∧ (length ps ≤ 16)%nat ∧
      s = MkStruct (Z.of_nat (length ps)) (input_parity i) (with_headers (input_parity i) ps))
    (λ e, e = Some ERANGE ∧ ∃ ps, parts_of i ps ∧ (16 < length ps)%nat).
Proof.
  intros [Hm Hv Hes]. unfold QRinput_splitQRinputToStruct. rewrite Hm.
  pose proof (struct_data_entries _ _ Hes) as Hde.
  eapply spec_bind with (P := λ s, s = MkStruct 0 (-1) []).
  { eapply spec_bind; [by apply (spec_malloc _ (λ _, True))|]. intros _ _. by apply spec_ret. }
  intros ? ->. eapply spec_bind; [apply dup_spec; done || lia|]. intros ? ->.
  set (j := with_entries (copied <$> head i) (fresh_input (version i) (level i))).
  assert (Hj : Forall (struct_entry (version i)) (head j)) by by apply copied_struct.
  assert (Hp : QRinput_calcParity j = Ret (input_parity i)).
  { rewrite calcParity_spec by by eapply struct_data_entries. unfold input_parity.
    by rewrite <- (copied_data (head i)). }
  eapply spec_bind; [by eapply (spec_liftO _ _ (λ p, p = input_parity i))|]. intros ? ->.
  change (QRspec_getDataLength (version j) (level j) * 8 - STRUCTURE_HEADER_SIZE)
    with (room (version i) (level i)).
  pose proof (room_52 (version i) (level i) Hv).
  rewrite (proj2 (Z.leb_gt _ 0)) by lia.
  eapply spec_bind; [apply (split_loop_spec _ (version i) (level i) Hv); split; try done|].
  - lia.
  - unfold split_measure. fold (entries_size (head j)). lia.
  - intros s (full & last & -> & Hparts & Hfull & Et & Hcount). cbn [QRinput_Struct_setParity s_size s_parity s_inputs app].
    rewrite Z.add_0_l. set (ps := full ++ [last]) in *.
    assert (Hps : parts_of i ps).
    { exists full, last. split_and!; try done; [by rewrite Et, <- (tagged_copied (head i))|].
      cbn [app] in Hcount. unfold j in Hcount. cbn [head with_entries set_tail set_head] in Hcount.
      rewrite length_fmap in Hcount. exact Hcount. }
    unfold MAX_STRUCTURED_SYMBOLS. destruct (Z.ltb_spec 16 (Z.of_nat (length ps))) as [Hbig|Hok].
    + apply spec_raise. split; [done|]. exists ps. split; [done|lia].
    + eapply spec_bind.
      * eapply spec_mono; [apply (insertHeaders_spec (input_parity i) ps)| |by intros ? []].
        -- unfold ps. by destruct full.
        -- lia.
        -- apply parity_byte, Forall_bind. eapply Forall_impl; [exact Hde|]. by intros e [].
        -- intros r Er. exact Er.
      * intros [r s'] Es. cbn [snd] in Es. subst s'. apply spec_ret. exists ps. split; [done|]. split; [lia|done].
Qed.

(** ** Symbols of the parts *)

Definition grow_ok (level : QRecLevel) : bool :=
  2 * (8 * QRspec_getDataLength 26 level) <=? 8 * QRspec_getDataLength 40 level.

Lemma grow_spec level : 2 * (8 * QRspec_getDataLength 26 level) ≤ 8 * QRspec_getDataLength 40 level.
Proof. apply Z.leb_le. by destruct level; vm_compute. Qed.

Lemma lengthIndicator_grow mode v u :
  QRinput_isSplittableMode mode = true → 1 ≤ v ≤ u →
  QRspec_lengthIndicator mode v ≤ QRspec_lengthIndicator mode u ∧
  (27 ≤ v → QRspec_lengthIndicator mode u = QRspec_lengthIndicator mode v).
Proof.
  intros Hm Hv. unfold QRspec_lengthIndicator. rewrite Hm. cbn [negb].
  destruct (Z.leb_spec v 9), (Z.leb_spec u 9), (Z.leb_spec v 26), (Z.leb_spec u 26);
    try lia; destruct mode; try done; (split; [vm_compute; intros [=]|lia || done]).
Qed.

(** The longer indicators of a higher version do not double an entry. *)
Lemma entry_grow v u e :
  1 ≤ v ≤ u → data_entry e → e_size e ≤ QRspec_maximumWords (e_mode e) v →
  let n w := Z.of_nat (length (entry_bits false w (e_mode e) (e_data e))) in
  n u ≤ 2 * n v ∧ (27 ≤ v → n u = n v).
Proof.
  intros Hv He Hsize n. pose proof He as [Hm Hs _ _ _]. unfold n.
  destruct (lengthIndicator_grow _ v u Hm Hv) as [Hl Heq].
  pose proof (lengthIndicator_bounds _ v Hm). pose proof (lengthIndicator_bounds _ u Hm).
  assert (Hw : QRspec_maximumWords (e_mode e) v ≤ QRspec_maximumWords (e_mode e) u).
  { rewrite !maximumWords_value by done. pose proof (Z.pow_le_mono_r 2 _ _ ltac:(lia) Hl).
    case_decide; lia. }
  rewrite !one_segment by (done || lia). unfold segment_length.
  assert (0 ≤ mode_estimate (e_mode e) (e_size e)).
  { rewrite Hs, <- length_data_bits by done. lia. }
  split; [lia|]. intros H27. rewrite (Heq H27). lia.
Qed.

(** An object whose data fits its version and every higher one tried. *)
Record part_ready (v : Z) (level : QRecLevel) (p : QRinput) : Prop := {
  pr_encodable : encodable_input p;
  pr_version : version p = v;
  pr_level : QRInput.level p = level;
  pr_decodable : Forall (λ e, decodable (e_mode e) (e_data e) = true) (head p);
  pr_fits : ∀ u, v ≤ u ≤ 40 → stream_length u (head p) ≤ 8 * QRspec_getDataLength 40 level
}.

Lemma stream_length_cons v e es :
  stream_length v (e :: es)
  = Z.of_nat (length (entry_bits false v (e_mode e) (e_data e))) + stream_length v es.
Proof. unfold stream_length, stream. rewrite bind_cons, length_app. lia. Qed.

Lemma stream_grow v u es :
  1 ≤ v ≤ u → Forall (placed v) es →
  stream_length u es ≤ 2 * stream_length v es ∧ (27 ≤ v → stream_length u es = stream_length v es).
Proof.
  intros Hv Hes. induction Hes as [|e es [[He _ _] Hsize] _ [H3 H4]]; [by split|].
  rewrite !stream_length_cons. destruct (entry_grow v u e Hv He Hsize) as [H1 H2].
  split; [lia|]. intros H27. rewrite H2, H4 by done. done.
Qed.

Lemma header_stream_length v n k parity es :
  stream_length v (header_entry n k parity :: es) = 20 + stream_length v es.
Proof. by rewrite stream_length_cons. Qed.

(** The data of a part, with its header or not, fits every version from its own
    on that the encoder may try. *)
Lemma part_fits v level p u :
  1 ≤ v ≤ u → u ≤ 40 → struct_part v level p →
  20 + stream_length u (head p) ≤ 8 * QRspec_getDataLength 40 level.
Proof.
  intros Hv Hu [_ _ _ _ Hes Hroom]. destruct (stream_grow v u _ Hv Hes) as [Hgrow Hsame].
  unfold room, STRUCTURE_HEADER_SIZE in Hroom.
  destruct (Z.le_gt_cases 27 v) as [H27|H26].
  - rewrite Hsame by done. pose proof (data_length_mono_le v 40 level ltac:(lia) ltac:(lia)). lia.
  - pose proof (data_length_mono_le v 26 level ltac:(lia) ltac:(lia)).
    pose proof (grow_spec level). lia.
Qed.

Lemma parts_ready i ps parity k p :
  struct_input i → parts_of i ps → is_byte parity → (length ps ≤ 16)%nat →
  with_headers parity ps !! k = Some p → part_ready (version i) (level i) p.
Proof.
  intros [_ Hv _] (full & last & _ & Hparts & _) Hp Hlen Hk.
  assert (H : ∀ q hs, struct_part (version i) (level i) q →
    hs = [] ∨ (∃ n k, hs = [header_entry n k parity] ∧ 1 ≤ n ≤ 16 ∧ 1 ≤ k ≤ n) →
    ∀ t, part_ready (version i) (level i) (set_tail t (set_head (hs ++ head q) q))).
  { intros q hs Hq Hhs t. pose proof Hq as [Hm Eq El Hf Hes _].
    assert (Hes' : Forall data_entry (head q) ∧
      Forall (λ e, decodable (e_mode e) (e_data e) = true) (head q)).
    { split; (eapply Forall_impl; [exact Hes|]); by intros e [[] ?]. }
    destruct Hes' as [Hde Hdec]. split; try done.
    - split; try done; [cbn; lia|]. cbn [head set_head set_tail]. apply Forall_app. split.
      + destruct Hhs as [->|(n & j & -> & Hn & Hj)]; [done|]. apply Forall_singleton.
        split; try done. cbn. rewrite !Forall_cons. unfold is_byte. split; [lia|]. split; [lia|]. by split.
      + eapply Forall_impl; [exact Hde|]. intros e. apply data_entry_encodable.
    - apply Forall_app. split; [|done].
      destruct Hhs as [->|(n & j & -> & Hn & Hj)]; [done|]. apply Forall_singleton. cbn.
      change (nthZ [n; j; parity] 0) with n. change (nthZ [n; j; parity] 1) with j. lia.
    - intros u Hu. pose proof (part_fits (version i) (level i) q u ltac:(lia) ltac:(lia) Hq).
      cbn [head set_head set_tail]. destruct Hhs as [->|(n & j & -> & _ & _)]; cbn [app]; [lia|].
      rewrite header_stream_length. lia. }
  unfold with_headers in Hk. destruct (Nat.eqb_spec (length ps) 1) as [E1|E1].
  - pose proof (Forall_lookup_1 _ _ _ _ Hparts Hk) as Hq.
    specialize (H p [] Hq ltac:(by left) (tail p)). by destruct p.
  - rewrite list_lookup_imap in Hk. destruct (ps !! k) as [q|] eqn:Eq; [|done]. injection Hk as <-.
    pose proof (Forall_lookup_1 _ _ _ _ Hparts Eq) as Hq. apply lookup_lt_Some in Eq.
    apply (H q [header_entry (Z.of_nat (length ps)) (Z.of_nat k + 1) parity] Hq). right.
    eexists _, _. split; [done|]. lia.
Qed.

(** ** Messages *)

(** The symbol of a part. *)
Definition symbol_of (v : Z) (level : QRecLevel) (p : QRinput) (c : QRcode) : Prop :=
  ∃ u, v ≤ u ≤ 40 ∧ code_version c = u ∧ reads_as c u level (head p ≫= entry_segments u).

Lemma part_symbol v level p :
  1 ≤ v → part_ready v level p →
  sm_spec caches_ok QRcode_encodeInput p (λ c _, symbol_of v level p c) (λ _ _, False).
Proof.
  intros Hv [Hp <- <- Hdec Hfits]. eapply sm_mono; [by apply QRcode_encodeInput_reads| |].
  - intros c p' (u & Hu & _ & Hc & _ & Hr). by exists u.
  - intros e p' Ht. apply too_large_oversized in Ht as (_ & u & Hu & Ho).
    specialize (Hfits u Hu). specialize (Ho 40 ltac:(lia)). unfold stream_length in Hfits. lia.
Qed.

Lemma encodeStructured_spec v level s :
  1 ≤ v → Forall (part_ready v level) (s_inputs s) →
  spec caches_ok ('(codes, _) ← run_on s QRcode_encodeInputStructured; mret codes)
    (λ codes, Forall2 (symbol_of v level) (s_inputs s) codes) (λ _, False).
Proof.
  intros Hv Hparts. eapply spec_bind.
  - eapply (spec_run_on _ _ (λ codes _, Forall2 (symbol_of v level) (s_inputs s) codes) (λ _ _, False));
      [|done].
    unfold QRcode_encodeInputStructured. apply sm_zoom.
    eapply sm_mono; [apply (sm_walk _ (λ d _ codes, Forall2 (symbol_of v level) d codes) (λ _, False))| |done].
    + intros d d' codes p r El HJ.
      eapply sm_lift_bind with (P := λ _, True).
      { eapply spec_bind; [by apply (spec_malloc _ (λ _, True))|]. intros _ _. by apply spec_ret. }
      intros _ _. eapply sm_bind; [apply part_symbol; [exact Hv|]|].
      { rewrite El in Hparts. apply Forall_app in Hparts as [_ Hparts]. by apply Forall_cons in Hparts as [? _]. }
      intros c p' Hc. apply sm_ret. apply Forall2_app; [done|]. by constructor.
    + done.
    + intros codes l' H. exact H.
  - intros [codes ?] H. by apply spec_ret.
Qed.

(** The segments of a message: mode and byte. *)
Definition tagged_segments (segs : list (QRencodeMode * list Z)) : list (QRencodeMode * Z) :=
  segs ≫= λ '(mode, d), pair mode <$> d.

Lemma tagged_entry_segments u es :
  Forall data_entry es → tagged_segments (es ≫= entry_segments u) = tagged es.
Proof.
  unfold tagged_segments, tagged. induction 1 as [|e es [Hm _ _ _ _] _ IH]; [done|].
  rewrite !bind_cons, bind_app, IH. f_equal.
  rewrite <- (entry_segments_data u e Hm). unfold entry_segments.
  rewrite <- list_fmap_compose, list_fmap_bind. generalize (chunks (chunk_size u (e_mode e)) (e_data e)).
  intros cs. induction cs as [|c cs IHc]; [done|]. cbn [fmap list_fmap mjoin list_join]. rewrite bind_cons, IHc.
  by rewrite fmap_app.
Qed.

(** The header segment of symbol [k] of [n]. *)
Definition header_segments (n k : nat) (parity : Z) : list (QRencodeMode * list Z) :=
  if (n =? 1)%nat then [] else [(QR_MODE_STRUCTURE, [Z.of_nat n; Z.of_nat k + 1; parity])].

(** A structured message: at most 16 symbols of version [v] or more, each with a
    header that says its number, their count and the parity (a single symbol has
    none), whose segments hold the tagged bytes [data] in sequence. *)
Definition message_reads (codes : list QRcode) (v : Z) (level : QRecLevel) (parity : Z)
    (data : list (QRencodeMode * Z)) : Prop :=
  ∃ groups : list (list (QRencodeMode * list Z)),
    length groups = length codes ∧ (1 ≤ length codes ≤ 16)%nat ∧
    tagged_segments (mjoin groups) = data ∧
    ∀ k c g, codes !! k = Some c → groups !! k = Some g →
      ∃ u, v ≤ u ≤ 40 ∧ code_version c = u ∧
        reads_as c u level (header_segments (length codes) k parity ++ g).

Lemma tagged_segments_app s1 s2 :
  tagged_segments (s1 ++ s2) = tagged_segments s1 ++ tagged_segments s2.
Proof. apply bind_app. Qed.

Lemma with_headers_length parity ps : length (with_headers parity ps) = length ps.
Proof. unfold with_headers. destruct (_ =? _)%nat; [done|apply length_imap]. Qed.

Lemma with_headers_segments parity ps k p u :
  ps !! k = Some p →
  ∃ q, with_headers parity ps !! k = Some q ∧
    (head q ≫= entry_segments u)
    = header_segments (length ps) k parity ++ (head p ≫= entry_segments u).
Proof.
  intros Hp. unfold with_headers, header_segments. destruct (_ =? _)%nat.
  - by exists p.
  - rewrite list_lookup_imap, Hp. eexists. split; [done|]. done.
Qed.

Lemma message_of_parts i ps codes :
  struct_input i → parts_of i ps → (length ps ≤ 16)%nat →
  Forall2 (symbol_of (version i) (level i)) (with_headers (input_parity i) ps) codes →
  message_reads codes (version i) (level i) (input_parity i) (tagged (head i)).
Proof.
  intros _ (full & last & Eps & Hparts & _ & Et & _) Hlen Hcodes.
  pose proof (Forall2_length _ _ _ Hcodes) as Hl. rewrite with_headers_length in Hl.
  exists (zip_with (λ p c, head p ≫= entry_segments (code_version c)) ps codes).
  split; [rewrite length_zip_with; lia|].
  split; [rewrite <- Hl; split; [rewrite Eps, length_app; simpl; lia|lia]|]. split.
  - rewrite <- Et. clear -Hparts Hl. revert codes Hl.
    induction Hparts as [|p ps [_ _ _ _ Hes _] _ IH]; intros [|c codes] Hl; try done.
    cbn [zip_with mjoin list_join]. rewrite tagged_segments_app, bind_cons, tagged_app.
    f_equal; [|apply IH; by injection Hl].
    apply tagged_entry_segments. eapply Forall_impl; [exact Hes|]. by intros e [[]].
  - intros k c g Hc Hg. rewrite lookup_zip_with in Hg.
    destruct (ps !! k) as [p|] eqn:Ep; [|done]. cbn in Hg. rewrite Hc in Hg. injection Hg as <-.
    destruct (with_headers_segments (input_parity i) ps k p (code_version c) Ep) as (q & Eq & Es).
    destruct (Forall2_lookup_lr _ _ _ _ _ _ Hcodes Eq Hc) as (u & Hu & Hcv & Hr).
    exists u. split; [done|]. split; [done|]. rewrite <- Hcv in Hr. rewrite Hl in Es.
    rewrite <- Hcv, <- Es. exact Hr.
Qed.

(** The encoder of structured messages: the message, or [ERANGE] where more
    than 16 symbols are needed although all but the last are full. *)
Lemma encodeInputToStructured_spec i :
  struct_input i →
  spec caches_ok (QRcode_encodeInputToStructured i)
    (λ codes, message_reads codes (version i) (level i) (input_parity i) (tagged (head i)))
    (λ e, e = Some ERANGE ∧ ∃ ps, parts_of i ps ∧ (16 < length ps)%nat).
Proof.
  intros Hi. unfold QRcode_encodeInputToStructured.
  eapply spec_bind; [by apply split_spec|]. intros s (ps & Hps & Hlen & ->).
  pose proof Hi as [_ Hv Hes].
  assert (Hp : is_byte (input_parity i)).
  { apply parity_byte, Forall_bind. eapply Forall_impl; [exact Hes|]. by intros e [[]]. }
  eapply spec_mono; [apply (encodeStructured_spec (version i) (level i))| |by intros ? []].
  - lia.
  - apply Forall_lookup_2. intros k p Hk. by eapply parts_ready.
  - intros codes Hcodes. by eapply message_of_parts.
Qed.
