(* ===== verification/InputState.v ===== *)
(** * Input objects as a state machine

    The calls of qrencode.h that work on an input object, the states they can
    reach from a new object whatever the allocator does, and the invariant of
    these states. *)

From S2P Require Import Prelude CModel BitStream QRSpec MQRSpec QRInput QRInputTheory QREncode.
From S2P Require Import Split SplitTheory.

(** ** What a routine leaves behind

    [leaves m s Q]: however [m] ends and whatever requests the allocator
    refuses, the object satisfies [Q] afterwards. *)

Definition leaves {S A} (m : SM S A) (s : S) (Q : S → Prop) : Prop := ∀ w, Q (m s w).1.2.

Section leaves_rules.
Context {S : Type}.

Lemma leaves_ret {A} (a : A) (s : S) (Q : S → Prop) : Q s → leaves (mret a) s Q.
Proof. by intros HQ w. Qed.

Lemma leaves_put (s s' : S) (Q : S → Prop) : Q s' → leaves (put s') s Q.
Proof. by intros HQ w. Qed.

Lemma leaves_lift {A} (m : M A) (s : S) (Q : S → Prop) : Q s → leaves (lift m) s Q.
Proof. intros HQ w. unfold lift. by destruct (m w). Qed.

Lemma leaves_get_bind {A} (f : S → SM S A) s Q : leaves (f s) s Q → leaves (get ≫= f) s Q.
Proof. done. Qed.

Lemma leaves_put_bind {A} (f : unit → SM S A) s s' Q :
  leaves (f tt) s' Q → leaves (put s' ≫= f) s Q.
Proof. done. Qed.

Lemma leaves_bind {A B} (m : SM S A) (f : A → SM S B) s (P Q : S → Prop) :
  leaves m s P → (∀ s', P s' → Q s') → (∀ a s', P s' → leaves (f a) s' Q) →
  leaves (m ≫= f) s Q.
Proof.
  intros Hm HPQ Hf w. specialize (Hm w). unfold mbind, SM_bind.
  destruct (m s w) as [[[a| |] s'] w']; cbn in Hm; [by apply Hf|by apply HPQ..].
Qed.

Lemma leaves_lift_bind {A B} (m : M A) (f : A → SM S B) s (Q : S → Prop) :
  Q s → (∀ a w w', m w = (Ret a, w') → leaves (f a) s Q) → leaves (lift m ≫= f) s Q.
Proof.
  intros HQ Hf w. unfold mbind, SM_bind, lift.
  destruct (m w) as [[a| |] w'] eqn:E; [by eapply Hf|done|done].
Qed.

Lemma leaves_mono {A} (m : SM S A) s (P Q : S → Prop) :
  leaves m s P → (∀ s', P s' → Q s') → leaves m s Q.
Proof. intros Hm H w. apply H, Hm. Qed.

Lemma leaves_if {A} (b : bool) (m1 m2 : SM S A) s Q :
  (b = true → leaves m1 s Q) → (b = false → leaves m2 s Q) → leaves (if b then m1 else m2) s Q.
Proof. destruct b; auto. Qed.

Lemma leaves_zoom {T A} (view : S → T) (update : T → S → S) (m : SM T A) s (Q : S → Prop) :
  leaves m (view s) (λ t, Q (update t s)) → leaves (zoom view update m) s Q.
Proof. intros Hm w. specialize (Hm w). unfold zoom. by destruct (m (view s) w) as [[? ?] ?]. Qed.

(** A walk changes every node by [R] or not at all. *)
Lemma leaves_for_each {A} (body : A → SM S A) acc l (R : S → S → Prop) :
  (∀ s, R s s) → (∀ acc s, leaves (body acc) s (R s)) → leaves (for_each body acc) l (Forall2 R l).
Proof.
  intros Hrefl Hb w. unfold for_each. revert acc w.
  assert (Hall : ∀ l, Forall2 R l l) by (intros l'; induction l'; constructor; auto).
  induction l as [|s l IH]; intros acc w; cbn [walk_list]; [constructor|].
  pose proof (Hb acc s w) as Hs. destruct (body acc s w) as [[[a| |] s'] w']; cbn in Hs |- *;
    [|by constructor..].
  specialize (IH a w'). destruct (walk_list body l a w') as [[o l'] w'']. by constructor.
Qed.
End leaves_rules.

(** One statement of a routine that keeps the object in [Q]. *)
Ltac leaves_step :=
  lazymatch goal with
  | |- leaves (match ?x with _ => _ end) _ _ => destruct x
  | |- leaves (lift _ ≫= _) _ _ => apply leaves_lift_bind; [done|intros ? ? ? _]
  | |- leaves (put _ ≫= _) _ _ => apply leaves_put_bind
  | |- leaves (get ≫= _) _ _ => apply leaves_get_bind
  | |- leaves (lift _) _ _ => by apply leaves_lift
  | |- leaves (mret _) _ _ => by apply leaves_ret
  end.

(** ** The calls *)

Inductive input_call :=
  | CallSetVersion (v : Z)
  | CallSetLevel (l : QRecLevel)
  | CallSetVersionAndLevel (v : Z) (l : QRecLevel)
  | CallAppend (mode : QRencodeMode) (size : Z) (data : list Z)
  | CallAppendECI (ecinum : Z)
  | CallSetFNC1First
  | CallSetFNC1Second (appid : Z)
  | CallEncode.

(** The arguments that have the type of an [unsigned char]. *)
Definition call_ok (c : input_call) : Prop :=
  match c with
  | CallAppend _ _ data => Forall is_byte data
  | CallSetFNC1Second a => is_byte a
  | _ => True
  end.

Definition run_call (c : input_call) : SM QRinput unit :=
  match c with
  | CallSetVersion v => QRinput_setVersion v
  | CallSetLevel l => QRinput_setErrorCorrectionLevel l
  | CallSetVersionAndLevel v l => QRinput_setVersionAndErrorCorrectionLevel v l
  | CallAppend mode size data => QRinput_append mode size data
  | CallAppendECI ecinum => QRinput_appendECIheader ecinum
  | CallSetFNC1First => QRinput_setFNC1First
  | CallSetFNC1Second a => QRinput_setFNC1Second a
  | CallEncode => _ ← QRcode_encodeInput; mret tt
  end.

(** A call that succeeds or fails; the allocator and the caches are arbitrary. *)
Inductive reachable : QRinput → Prop :=
  | reach_new2 v l w i w' : QRinput_new2 v l w = (Ret i, w') → reachable i
  | reach_newMQR v l w i w' : QRinput_newMQR v l w = (Ret i, w') → reachable i
  | reach_call c i w r i' w' :
    reachable i → call_ok c → run_call c i w = ((r, i'), w') → reachable i'.

(** ** The invariant *)

Record input_wf (i : QRinput) : Prop := {
  wf_tail : tail_ok i;
  wf_entries : Forall entry_ok (head i);
  wf_version : if mqr i then 1 ≤ version i ≤ 4 else 0 ≤ version i ≤ 40;
  wf_level : mqr i = true → MQRspec_getECCLength (version i) (level i) ≠ 0;
  wf_fnc1 : mqr i = true → fnc1 i = 0;
  wf_appid : is_byte (appid i)
}.

(** ** Entries *)

Lemma check_positive mode size data : QRinput_check mode size data = Ret true → 0 < size.
Proof.
  unfold QRinput_check. destruct (Z.leb_spec size 0); [|lia]. by rewrite orb_true_r.
Qed.

Lemma newEntry_ok mode size data w e w' :
  Forall is_byte data → QRinput_List_newEntry mode size data w = (Ret e, w') → entry_ok e.
Proof.
  intros Hb. unfold QRinput_List_newEntry, liftO, mbind, M_bind.
  destruct (QRinput_check mode size data) as [[]| |] eqn:Ec; try done.
  pose proof (check_positive _ _ _ Ec) as Hpos.
  destruct (malloc sizeof_QRinput_List w) as [[?| |] w1]; try done.
  rewrite (proj2 (Z.ltb_lt 0 size)) by done. destruct (malloc size w1) as [[?| |] w2]; try done.
  unfold copy_bytes. rewrite Z.add_0_l. destruct ((0 <=? 0) && (0 <=? size) && _) eqn:El; [|done].
  cbn. rewrite drop_0. intros [= <- <-].
  assert (Hl : (Z.to_nat size ≤ length data)%nat) by lia.
  split; cbn [e_size e_data e_mode].
  - rewrite length_take. lia.
  - intros E0. apply (f_equal length) in E0. rewrite length_take in E0. simpl in E0. lia.
  - by apply Forall_take.
  - rewrite <- Ec. rewrite <- (Z2Nat.id size) at 1 by lia. rewrite QRinput_check_take.
    by rewrite Z2Nat.id by lia.
Qed.

Lemma entry_ok_same e e' : entry_ok e → same_data e e' → entry_ok e'.
Proof. intros [H1 H2 H3 H4] (Em & Es & Ed). split; by rewrite ?Em, ?Es, ?Ed. Qed.

(** Encoding an entry touches nothing but its stream. *)
Lemma encodeBitStream_leaves v mqr e : leaves (QRinput_encodeBitStream v mqr) e (same_data e).
Proof.
  apply leaves_get_bind.
  assert (H : ∀ b, same_data e (set_bstream b e)) by done.
  destruct (Z.to_nat (e_size e)) as [|depth]; cbn [encodeBitStream_depth];
    apply leaves_get_bind, leaves_put_bind, leaves_if; intros _; repeat leaves_step.
Qed.

(** ** Operations *)

Lemma appendEntry_leaves e i : input_wf i → entry_ok e → leaves (QRinput_appendEntry e) i input_wf.
Proof.
  intros [Ht He Hv Hl Hf Ha] Hok. apply leaves_get_bind. rewrite Ht.
  destruct (head i) as [|e0 es] eqn:Eh; apply leaves_put.
  - split; [done|by apply Forall_singleton|done..].
  - rewrite take_ge by (simpl; lia). split; [|by apply Forall_app; rewrite Forall_singleton|done..].
    unfold tail_ok. cbn. f_equal. rewrite length_app. simpl. lia.
Qed.

Lemma append_leaves mode size data i :
  input_wf i → Forall is_byte data → leaves (QRinput_append mode size data) i input_wf.
Proof.
  intros Hi Hb. apply leaves_lift_bind; [done|]. intros e w w' E.
  apply appendEntry_leaves; [done|by eapply newEntry_ok].
Qed.

Lemma setVersion_leaves v i : input_wf i → leaves (QRinput_setVersion v) i input_wf.
Proof.
  intros Hi. apply leaves_get_bind, leaves_if; intros Hc; [by apply leaves_lift|].
  apply leaves_put. unfold QRSPEC_VERSION_MAX in Hc. destruct (mqr i) eqn:Em; [done|].
  destruct Hi as [Ht He Hv Hl Hf Ha]. split; cbn; rewrite ?Em; try done. lia.
Qed.

Lemma setLevel_leaves l i : input_wf i → leaves (QRinput_setErrorCorrectionLevel l) i input_wf.
Proof.
  intros Hi. apply leaves_get_bind, leaves_if; intros Hc; [by apply leaves_lift|].
  apply leaves_put. destruct Hi as [Ht He Hv Hl Hf Ha]. split; cbn; rewrite ?Hc in *; done.
Qed.

Lemma setBoth_leaves v l i :
  input_wf i → leaves (QRinput_setVersionAndErrorCorrectionLevel v l) i input_wf.
Proof.
  intros Hi. unfold QRinput_setVersionAndErrorCorrectionLevel, QRSPEC_VERSION_MAX, MQRSPEC_VERSION_MAX.
  apply leaves_get_bind. pose proof Hi as [Ht He Hv Hl Hf Ha].
  intros w. unfold mbind, SM_bind. destruct (mqr i) eqn:Em.
  - destruct ((v <=? 0) || (4 <? v)) eqn:E1; [done|].
    destruct (Z.eqb_spec (MQRspec_getECCLength v l) 0) as [|E2]; [done|].
    cbn. split; cbn; rewrite ?Em; try done. lia.
  - destruct ((v <? 0) || (40 <? v)) eqn:E1; [done|]. cbn. split; cbn; rewrite ?Em; try done. lia.
Qed.

Lemma setFNC1_leaves i a :
  input_wf i → is_byte a →
  leaves QRinput_setFNC1First i input_wf ∧ leaves (QRinput_setFNC1Second a) i input_wf.
Proof.
  intros Hi Hb. split; apply leaves_get_bind, leaves_if; intros Hc; try (by apply leaves_lift);
    apply leaves_put; destruct Hi as [Ht He Hv Hl Hf Ha]; split; cbn; rewrite ?Hc in *; done.
Qed.

(** ** Encoding *)

Lemma same_entries i es :
  input_wf i → Forall2 same_data (head i) es → input_wf (set_head es i).
Proof.
  intros [Ht He Hv Hl Hf Ha] Hs. split; try done; cbn.
  - unfold tail_ok in *. cbn. rewrite Ht. pose proof (Forall2_length _ _ _ Hs) as El.
    destruct (head i), es; simpl in El |- *; try done. f_equal. lia.
  - clear -He Hs. induction Hs as [|e e' es es' Hs _ IH]; [constructor|].
    apply Forall_cons in He as [He Hes]. constructor; [by eapply entry_ok_same|by apply IH].
Qed.

Lemma createBitStream_leaves i : input_wf i → leaves QRinput_createBitStream i input_wf.
Proof.
  intros Hi. apply leaves_get_bind. unfold on_entries. apply leaves_zoom.
  eapply leaves_mono; [apply (leaves_for_each _ _ _ same_data); [done|]|].
  - intros acc e. eapply leaves_bind; [apply encodeBitStream_leaves|done|].
    intros n e' He. by apply leaves_ret.
  - intros es Hes. by apply same_entries.
Qed.

Lemma convertData_leaves i : input_wf i → leaves QRinput_convertData i input_wf.
Proof.
  assert (Hloop : ∀ fuel i, input_wf i → leaves (convertData_loop fuel) i input_wf).
  { clear i. induction fuel as [|fuel IH]; intros i Hi; cbn [convertData_loop]; [by apply leaves_lift|].
    eapply leaves_bind; [by apply createBitStream_leaves|done|]. intros bits i' Hi'.
    apply leaves_get_bind, leaves_if; intros _; [by apply leaves_lift|]. apply leaves_if; intros _.
    - eapply leaves_bind; [by apply setVersion_leaves|done|]. intros _ i2 Hi2. by apply IH.
    - by apply leaves_ret. }
  intros Hi. apply leaves_get_bind, leaves_lift_bind; [done|]. intros v w w' _.
  eapply leaves_bind with (P := input_wf); [|done|intros _ i' Hi'; by apply Hloop].
  apply leaves_if; intros _; [by apply setVersion_leaves|by apply leaves_ret].
Qed.

Lemma insertFNC1Header_leaves i : input_wf i → leaves QRinput_insertFNC1Header i input_wf.
Proof.
  intros Hi. apply leaves_get_bind, leaves_lift_bind; [done|]. intros e w w' E.
  pose proof Hi as [Ht He Hv Hl Hf Ha].
  assert (Hok : entry_ok e).
  { destruct (fnc1 i =? 1); [by eapply newEntry_ok; [|exact E]|].
    destruct (fnc1 i =? 2); [|done]. eapply newEntry_ok; [|exact E]. by apply Forall_singleton. }
  unfold tail_ok in Ht. destruct (head i) as [|first others] eqn:Eh; [by apply leaves_lift|].
  apply Forall_cons in He as [Hfirst Hothers].
  apply leaves_if; intros Hb; apply leaves_put.
  - split; try done; [unfold tail_ok; cbn; by rewrite Ht, Eh|cbn; rewrite Eh; by rewrite !Forall_cons].
  - (* the mode cannot be both *)
    by destruct (e_mode first).
Qed.

Lemma mergeBitStream_leaves i : input_wf i → leaves QRinput_mergeBitStream i input_wf.
Proof.
  intros Hi. apply leaves_get_bind.
  eapply leaves_bind with (P := input_wf); [|done|].
  - apply leaves_if; intros _.
    + eapply leaves_bind; [by apply createBitStream_leaves|done|]. intros _ i' Hi'. by apply leaves_ret.
    + eapply leaves_bind with (P := input_wf); [|done|intros _ i' Hi'; by apply convertData_leaves].
      apply leaves_if; intros _; [by apply insertFNC1Header_leaves|by apply leaves_ret].
  - intros _ i' Hi'. apply leaves_lift_bind; [done|]. intros b w w' _. apply leaves_get_bind.
    by apply leaves_lift.
Qed.

Lemma getByteStream_leaves i : input_wf i → leaves QRinput_getByteStream i input_wf.
Proof.
  intros Hi. eapply leaves_bind with (P := input_wf); [|done|intros b i' Hi'; by apply leaves_lift].
  eapply leaves_bind; [by apply mergeBitStream_leaves|done|]. intros b i' Hi'.
  apply leaves_get_bind. by apply leaves_lift.
Qed.

Lemma encodeInput_leaves i : input_wf i → leaves QRcode_encodeInput i input_wf.
Proof.
  intros Hi. apply leaves_get_bind, leaves_if; intros _; apply leaves_get_bind;
    repeat (apply leaves_if; intros _; [by apply leaves_lift|]).
  - eapply leaves_bind with (P := input_wf); [|done|intros raw i' Hi'; cbv zeta; by repeat leaves_step].
    unfold MQRraw_new. apply leaves_lift_bind; [done|]. intros ? ? ? _. apply leaves_get_bind.
    eapply leaves_bind; [by apply getByteStream_leaves|done|]. intros d i' Hi'. cbv zeta. by repeat leaves_step.
  - eapply leaves_bind with (P := input_wf); [|done|intros raw i' Hi'; cbv zeta; by repeat leaves_step].
    unfold QRraw_new. apply leaves_lift_bind; [done|]. intros ? ? ? _.
    eapply leaves_bind; [by apply getByteStream_leaves|done|]. intros d i' Hi'. cbv zeta. by repeat leaves_step.
Qed.

(** ** Calls *)

Lemma run_call_leaves c i : input_wf i → call_ok c → leaves (run_call c) i input_wf.
Proof.
  intros Hi Hc. destruct c; cbn [run_call call_ok] in *.
  - by apply setVersion_leaves.
  - by apply setLevel_leaves.
  - by apply setBoth_leaves.
  - by apply append_leaves.
  - unfold QRinput_appendECIheader. apply leaves_if; intros _; [by apply leaves_lift|].
    apply append_leaves; [done|].
    assert (H : ∀ x, is_byte (Z.land x 0xff)).
    { intros x. unfold is_byte. change 0xff with (Z.ones 8). rewrite Z.land_ones by lia.
      apply Z.mod_pos_bound. lia. }
    by repeat constructor; apply H.
  - by apply (setFNC1_leaves i 0).
  - by apply setFNC1_leaves.
  - eapply leaves_bind; [by apply encodeInput_leaves|done|]. intros _ i' Hi'. by apply leaves_ret.
Qed.

Lemma new2_wf v l w i w' : QRinput_new2 v l w = (Ret i, w') → input_wf i ∧ mqr i = false ∧
  version i = v ∧ level i = l ∧ fnc1 i = 0.
Proof.
  unfold QRinput_new2, QRSPEC_VERSION_MAX, mbind, M_bind.
  destruct ((v <? 0) || (40 <? v)) eqn:E; [done|].
  destruct (malloc sizeof_QRinput w) as [[?| |] w1]; try done. intros [= <- _].
  split; [|done]. split; try done; cbn; lia.
Qed.

Lemma newMQR_wf v l w i w' : QRinput_newMQR v l w = (Ret i, w') → input_wf i.
Proof.
  unfold QRinput_newMQR, MQRSPEC_VERSION_MAX, mbind, M_bind.
  destruct ((v <=? 0) || (4 <? v)) eqn:E; [done|].
  destruct (Z.eqb_spec (MQRspec_getECCLength v l) 0) as [|E2]; [done|].
  destruct (QRinput_new2 v l w) as [[j| |] w1] eqn:En; try done. intros [= <- _].
  apply new2_wf in En as ([Ht He Hv Hl Hf Ha] & Hm & <- & <- & H0).
  split; try done; cbn. lia.
Qed.
