(* ===== verification/CodesProps.v ===== *)
(** * Properties of the codes and of the tables

    The Reed-Solomon encoder and its cache, the bit streams, the capacity
    tables, the BCH codes of the version and format information, and the
    report of refused allocations. *)

From S2P Require Import Prelude CModel BitStream RSCode RSTheory QRSpec MQRSpec FrameFiller Mask.
From S2P Require Import Caches QRInput QRInputTheory QREncode Blocks.

(** ** Reed-Solomon codes *)

(** C35: [encode_rs_char] with a control block of the library appends to a block
    of data as many parity bytes as the generator polynomial has roots, and the
    block with its parity is a code word: the polynomial vanishes at the first
    [n] powers of the primitive element. *)
Theorem encode_rs_char_codeword n pad data :
  1 ≤ n ≤ RS_NROOTS_MAX → 0 ≤ pad → 1 ≤ Z.of_nat (length data) →
  Z.of_nat (length data) = 255 - n - pad → Forall is_byte data →
  ∃ parity, encode_rs_char (qr_rs n pad) data = Ret parity ∧
    Z.of_nat (length parity) = n ∧ Forall is_byte parity ∧ rs_codeword n (data ++ parity).
Proof.
  intros Hn Hp Hpos Hlen Hd.
  destruct (rs_parity_spec n data Hn Hpos ltac:(lia) Hd) as (E & H).
  exists (rs_parity n data). replace pad with (255 - Z.of_nat (length data) - n) by lia.
  by split.
Qed.

Lemma encode_rs_char_codeword_witness :
  ∃ parity, encode_rs_char (qr_rs 2 250) [64; 1; 7] = Ret parity ∧
    Z.of_nat (length parity) = 2 ∧ Forall is_byte parity ∧ rs_codeword 2 ([64; 1; 7] ++ parity).
Proof.
  apply (encode_rs_char_codeword 2 250 [64; 1; 7]); [done|lia|done|done|].
  by repeat constructor.
Defined.

(** [init_rs] with the parameters of the library returns the control block
    of these parameters, whatever the cache holds, and leaves a cache for which
    the same is true. *)
Lemma init_rs_transparent n pad :
  qr_params n pad →
  returns caches_ok (init_rs 8 0x11d 0 1 n pad) (λ rs, rs = qr_rs n pad).
Proof. apply init_rs_cached. Qed.

Lemma init_rs_transparent_witness :
  returns caches_ok (init_rs 8 0x11d 0 1 10 229) (λ rs, rs = qr_rs 10 229).
Proof. apply (init_rs_transparent 10 229). unfold qr_params, RS_NROOTS_MAX. lia. Defined.

(** The parameters of [init_rs_char] that are out of range are rejected
    before any memory is allocated: the call fails and changes nothing. *)
Lemma init_rs_char_rejects symsize gfpoly fcr prim nroots pad w :
  symsize < 0 ∨ 8 < symsize ∨ fcr < 0 ∨ 2 ^ symsize ≤ fcr ∨ prim ≤ 0 ∨ 2 ^ symsize ≤ prim ∨
  nroots < 0 ∨ 2 ^ symsize ≤ nroots ∨ pad < 0 ∨ 2 ^ symsize - 1 - nroots ≤ pad →
  init_rs_char symsize gfpoly fcr prim nroots pad w = (Fail, w).
Proof.
  intros H. unfold init_rs_char.
  destruct ((symsize <? 0) || (8 <? symsize)) eqn:E0; [done|].
  rewrite !Z.shiftl_1_l by lia.
  destruct ((fcr <? 0) || (2 ^ symsize <=? fcr)) eqn:E1; [done|].
  destruct ((prim <=? 0) || (2 ^ symsize <=? prim)) eqn:E2; [done|].
  destruct ((nroots <? 0) || (2 ^ symsize <=? nroots)) eqn:E3; [done|].
  destruct ((pad <? 0) || (2 ^ symsize - 1 - nroots <=? pad)) eqn:E4; [done|lia].
Qed.

Lemma init_rs_char_rejects_witness :
  init_rs_char 8 0x11d 0 1 300 0 (World (λ _, true) 0 None no_caches)
  = (Fail, World (λ _, true) 0 None no_caches).
Proof. apply (init_rs_char_rejects 8 0x11d 0 1 300 0). do 7 right. left. done. Defined.

(** [modnn] reduces modulo [nn] for every symbol size: its loop of
    subtractions, shifts and masks ends and agrees with the division. *)
Lemma modnn_mod mm x : 0 < mm → 0 ≤ x → modnn mm (2 ^ mm - 1) x = x `mod` (2 ^ mm - 1).
Proof. intros Hmm Hx. apply modnn_loop_spec; lia. Qed.

Lemma modnn_mod_witness : modnn 8 (2 ^ 8 - 1) 1000 = 1000 `mod` (2 ^ 8 - 1).
Proof. apply (modnn_mod 8 1000); lia. Defined.

(** ** Bit streams *)

(** Bytes that are appended to a new bit stream, with a number of [k] bits
    between them, come out of [BitStream_toByte] as the bits of the bytes and
    of the number, packed into bytes. *)
Lemma BitStream_bytes_num_bytes data1 k num data2 :
  0 ≤ k ≤ 32 → data1 ≠ [] →
  returns caches_ok
    (b ← BitStream_new;
     b ← BitStream_appendBytes b (Z.of_nat (length data1)) data1;
     b ← BitStream_appendNum b k num;
     b ← BitStream_appendBytes b (Z.of_nat (length data2)) data2;
     BitStream_toByte b)
    (λ d, d = bits_to_bytes (bytes_to_bits data1 ++ to_bits (Z.to_nat k) num
                             ++ bytes_to_bits data2)).
Proof.
  intros Hk Hne.
  eapply spec_bind; [apply BitStream_new_spec|]. intros ? ->.
  eapply spec_bind; [apply BitStream_appendBytes_spec; lia|]. intros ? ->.
  eapply spec_bind; [by apply BitStream_appendNum_spec|]. intros ? ->.
  eapply spec_bind; [apply BitStream_appendBytes_spec; lia|]. intros ? ->.
  rewrite !Nat2Z.id, !firstn_all, <- app_assoc. apply BitStream_toByte_spec.
  - repeat (apply Forall_app; split); auto using bytes_to_bits_bits with qr.
  - by destruct data1.
Qed.

Lemma BitStream_bytes_num_bytes_witness :
  returns caches_ok
    (b ← BitStream_new;
     b ← BitStream_appendBytes b 2 [0x40; 0x17];
     b ← BitStream_appendNum b 8 0xec;
     b ← BitStream_appendBytes b 1 [0x11];
     BitStream_toByte b)
    (λ d, d = [0x40; 0x17; 0xec; 0x11]).
Proof. apply (BitStream_bytes_num_bytes [0x40; 0x17] 8 0xec [0x11]); done. Defined.

(** ** Tables *)

(** The blocks of [QRspec_getEccSpec] divide the data and the error
    correction code words of every version and level exactly, and every block
    fits the Reed-Solomon code over 8-bit symbols. *)
Lemma ecc_spec_consistent v level :
  1 ≤ v ≤ 40 →
  let s := QRspec_getEccSpec v level in
  QRspec_rsDataLength s = QRspec_getDataLength v level ∧
  QRspec_rsEccLength s = QRspec_getECCLength v level ∧
  QRspec_rsDataLength s + QRspec_rsEccLength s = cap_words (capacity v) ∧ blocks_ok s.
Proof.
  intros Hv s. destruct (ecc_spec_ok v level Hv) as (E1 & E2 & _). fold s in E1, E2.
  split_and!; [done|done| |by apply ecc_blocks_ok].
  rewrite E1, E2. unfold QRspec_getDataLength, QRspec_getECCLength. lia.
Qed.

Lemma ecc_spec_consistent_witness :
  let s := QRspec_getEccSpec 40 QR_ECLEVEL_H in
  QRspec_rsDataLength s = QRspec_getDataLength 40 QR_ECLEVEL_H ∧
  QRspec_rsEccLength s = QRspec_getECCLength 40 QR_ECLEVEL_H ∧
  QRspec_rsDataLength s + QRspec_rsEccLength s = cap_words (capacity 40) ∧ blocks_ok s.
Proof. apply (ecc_spec_consistent 40 QR_ECLEVEL_H). lia. Defined.

(** [QRspec_getMinimumVersion] gives the least version whose data capacity
    is the size or more, and -1 exactly if there is none. *)
Lemma minimum_version_least size level :
  let r := QRspec_getMinimumVersion size level in
  (1 ≤ r ≤ 40 ∧ size ≤ QRspec_getDataLength r level ∧
    ∀ v, 1 ≤ v < r → QRspec_getDataLength v level < size)
  ∨ (r = -1 ∧ ∀ v, 1 ≤ v ≤ 40 → QRspec_getDataLength v level < size).
Proof. apply getMinimumVersion_spec. Qed.

Definition version_words : list Z := (λ v, QRspec_getVersionPattern v) <$> range 7 41.

(** The words of a list are at least at distance [d] of each other. *)
Definition distances_ok (bits : nat) (d : Z) (l : list Z) : bool :=
  forallb (λ a, forallb (λ b, (a =? b) || (d <=? hamming bits a b)) l) l.

Lemma distances_ok_spec bits d l a b :
  distances_ok bits d l = true → a ∈ l → b ∈ l → a ≠ b → d ≤ hamming bits a b.
Proof.
  unfold distances_ok. rewrite forallb_forall. intros H Ha Hb Hne.
  specialize (H a (proj1 (list_elem_of_In _ _) Ha)). rewrite forallb_forall in H.
  specialize (H b (proj1 (list_elem_of_In _ _) Hb)). lia.
Qed.

(** The version information of version 7 and above is the BCH(18,6) code
    word of the version, with the generator 1111100100101; different versions
    differ in at least eight bits, so three errors can be corrected. *)
Lemma version_information_bch v v' :
  7 ≤ v ≤ 40 → 7 ≤ v' ≤ 40 →
  QRspec_getVersionPattern v = bch_encode 6 0x1f25 12 v ∧
  (v ≠ v' → 8 ≤ hamming 18 (QRspec_getVersionPattern v) (QRspec_getVersionPattern v')).
Proof.
  assert (Hbch : ∀ v, 7 ≤ v < 41 →
    (QRspec_getVersionPattern v =? bch_encode 6 0x1f25 12 v)
    && (Z.shiftr (QRspec_getVersionPattern v) 12 =? v) = true).
  { apply all_range_spec. by vm_compute. }
  intros Hv Hv'. pose proof (Hbch v ltac:(lia)). pose proof (Hbch v' ltac:(lia)).
  split; [lia|]. intros Hne. apply (distances_ok_spec 18 8 version_words); [by vm_compute|..].
  - apply list_elem_of_fmap. exists v. split; [done|]. apply elem_of_range. lia.
  - apply list_elem_of_fmap. exists v'. split; [done|]. apply elem_of_range. lia.
  - intros E. rewrite E in *. lia.
Qed.

Lemma version_information_bch_witness :
  QRspec_getVersionPattern 7 = bch_encode 6 0x1f25 12 7 ∧
  (7 ≠ 8 → 8 ≤ hamming 18 (QRspec_getVersionPattern 7) (QRspec_getVersionPattern 8)).
Proof. apply (version_information_bch 7 8); lia. Defined.

Definition format_words : list Z :=
  range 0 8 ≫= λ k, QRspec_getFormatInfo k <$> all_levels.

(** The format information of a mask and a level is the BCH(15,5) code word
    of the level indicator and the mask, with the generator 10100110111, under
    the mask 101010000010010; different ones differ in at least five bits. *)
Lemma format_information_bch k k' level level' :
  0 ≤ k < 8 → 0 ≤ k' < 8 →
  QRspec_getFormatInfo k level
  = Z.lxor (bch_encode 5 0x537 10 (level_indicator level * 8 + k)) 0x5412 ∧
  ((k, level) ≠ (k', level') →
   5 ≤ hamming 15 (QRspec_getFormatInfo k level) (QRspec_getFormatInfo k' level')).
Proof.
  set (check := λ k level, let f := QRspec_getFormatInfo k level in
    (f =? Z.lxor (bch_encode 5 0x537 10 (level_indicator level * 8 + k)) 0x5412)
    && (Z.shiftr (Z.lxor f 0x5412) 10 =? level_indicator level * 8 + k)).
  assert (Hbch : ∀ k level, 0 ≤ k < 8 → check k level = true).
  { apply versions_levels. by vm_compute. }
  intros Hk Hk'. pose proof (Hbch k level Hk) as H. pose proof (Hbch k' level' Hk') as H'.
  unfold check in H, H'. split; [lia|]. intros Hne.
  assert (Hin : ∀ k level, 0 ≤ k < 8 → QRspec_getFormatInfo k level ∈ format_words).
  { intros j l Hj. apply list_elem_of_bind. exists j. split; [|by apply elem_of_range].
    apply list_elem_of_fmap. exists l. split; [done|apply elem_of_levels]. }
  apply (distances_ok_spec 15 5 format_words); [by vm_compute|by apply Hin|by apply Hin|].
  intros E. rewrite E in H. apply Hne.
  destruct level, level'; cbn [level_indicator] in H, H'; f_equal; try done; lia.
Qed.

Lemma format_information_bch_witness :
  QRspec_getFormatInfo 3 QR_ECLEVEL_Q
  = Z.lxor (bch_encode 5 0x537 10 (level_indicator QR_ECLEVEL_Q * 8 + 3)) 0x5412 ∧
  ((3, QR_ECLEVEL_Q) ≠ (4, QR_ECLEVEL_L) →
   5 ≤ hamming 15 (QRspec_getFormatInfo 3 QR_ECLEVEL_Q) (QRspec_getFormatInfo 4 QR_ECLEVEL_L)).
Proof. apply (format_information_bch 3 4 QR_ECLEVEL_Q QR_ECLEVEL_L); lia. Defined.

(** The format information of a Micro QR symbol is the code word of the
    same BCH code for the symbol number and the mask, under the mask
    100010001000101; it is 0 for the combinations of version and level that do
    not exist. *)
Lemma micro_format_information_bch k version level :
  0 ≤ k < 4 → 1 ≤ version ≤ 4 →
  MQRspec_getFormatInfo k version level
  = match symbol_number version level with
    | Some number => Z.lxor (bch_encode 5 0x537 10 (number * 4 + k)) 0x4445
    | None => 0
    end.
Proof.
  intros Hk Hv.
  assert (H : ∀ v level, 1 ≤ v < 5 → forallb (λ k, MQRspec_getFormatInfo k v level
    =? match symbol_number v level with
       | Some number => Z.lxor (bch_encode 5 0x537 10 (number * 4 + k)) 0x4445
       | None => 0
       end) (range 0 4) = true).
  { apply versions_levels. by vm_compute. }
  specialize (H version level ltac:(lia)). rewrite forallb_forall in H.
  apply Z.eqb_eq, H, list_elem_of_In, elem_of_range. lia.
Qed.

Lemma micro_format_information_bch_witness :
  MQRspec_getFormatInfo 2 3 QR_ECLEVEL_M
  = match symbol_number 3 QR_ECLEVEL_M with
    | Some number => Z.lxor (bch_encode 5 0x537 10 (number * 4 + 2)) 0x4445
    | None => 0
    end.
Proof. apply (micro_format_information_bch 2 3 QR_ECLEVEL_M); lia. Defined.

(** ** Refused allocations *)

