(* ===== verification/FrameProps.v ===== *)
(** * Properties of frames and masking

    The blank symbols of both kinds against their reference drawing, the walk
    of the filler, and the caches of frames; the mask patterns, the format
    information, the penalty of a symbol, and the choice of the mask. *)

From S2P Require Import Prelude CModel RSCode RSTheory QRSpec MQRSpec FrameFiller MMask Mask MaskTheory.
From S2P Require Import Caches QRInput QRInputTheory QRDecode QREncode Blocks Symbols Reader.
From S2P Require Import MicroInput MicroSymbols.


(** C36: The frame of every version is the one of the reference drawing: three
    finder patterns with their separators, timing patterns, alignment patterns,
    version information, the area of the format information and the dark
    module, every function module marked by bit 7, and zero elsewhere. The
    cached routine returns it, whatever was asked before. *)
Theorem newFrame_reference v :
  1 ≤ v ≤ 40 →
  returns caches_ok (QRspec_newFrame v) (λ f,
    let w := QRspec_getWidth v in
    frame_full (w * w) f ∧
    ∀ x y, 0 ≤ x < w → 0 ≤ y < w → acells f !! (y * w + x) = Some (qr_reference v y x)).
Proof.
  intros Hv. destruct (qr_frame_spec v Hv) as (f & Ef & _ & Hfull & Hcells & _).
  eapply spec_mono; [by apply (QRspec_newFrame_spec v f no_failure)| |done]. by intros ? ->.
Qed.

Lemma newFrame_reference_witness :
  returns caches_ok (QRspec_newFrame 7) (λ f,
    let w := QRspec_getWidth 7 in
    frame_full (w * w) f ∧
    ∀ x y, 0 ≤ x < w → 0 ≤ y < w → acells f !! (y * w + x) = Some (qr_reference 7 y x)).
Proof. apply (newFrame_reference 7). lia. Defined.

(** C37: On the frame of a version the filler hands out the modules of no
    function pattern, each of them once, in the zigzag order of the standard,
    and then reports the end; their number is that of the bits of the code
    words and of the remainder bits. *)
Theorem filler_visits_data_modules v f :
  1 ≤ v ≤ 40 → QRspec_drawFrame v = Ret f →
  let w := QRspec_getWidth v in
  let path := zigzag_path w false f in
  ∃ filler, filler_path (qr_modules v) f (filler_init w false) = Some (path, filler) ∧
    (FrameFiller_next f filler).1 = Ret None ∧ NoDup path ∧
    (∀ i, i ∈ path ↔ data_module f i) ∧
    Z.of_nat (length path) = cap_words (capacity v) * 8 + QRspec_getRemainder v.
Proof.
  intros Hv Ef w path. destruct (qr_frame_spec v Hv) as (f' & Ef' & Hok).
  assert (f' = f) as -> by congruence.
  destruct Hok as (_ & _ & _ & Hnd & Hdata & filler & Hp & Hend). exists filler.
  split_and!; [done..|]. fold w path in Hp. rewrite (filler_path_length _ _ _ _ _ Hp).
  unfold qr_modules, QRspec_getRemainder. rewrite Z2Nat.id; [done|].
  apply Z.leb_le. assert (Hv' : 1 ≤ v < 41) by lia. clear -Hv'. revert v Hv'.
  apply all_range_spec. by vm_compute.
Qed.

Lemma filler_visits_data_modules_witness :
  ∃ f, QRspec_drawFrame 2 = Ret f ∧
    let w := QRspec_getWidth 2 in
    let path := zigzag_path w false f in
    ∃ filler, filler_path (qr_modules 2) f (filler_init w false) = Some (path, filler) ∧
      (FrameFiller_next f filler).1 = Ret None ∧ NoDup path ∧
      (∀ i, i ∈ path ↔ data_module f i) ∧
      Z.of_nat (length path) = cap_words (capacity 2) * 8 + QRspec_getRemainder 2.
Proof.
  destruct (qr_frame_spec 2) as (f & Ef & _); [lia|]. exists f. split; [exact Ef|].
  apply (filler_visits_data_modules 2 f); [lia|exact Ef].
Defined.

(** The same for Micro QR symbols: the cached routine returns the frame of
    the reference drawing, and the filler visits its data modules in the zigzag
    order. *)
Lemma micro_frame_reference v :
  1 ≤ v ≤ 4 →
  returns caches_ok (MQRspec_newFrame v) (λ f,
    let w := MQRspec_getWidth v in
    let path := zigzag_path w true f in
    frame_full (w * w) f ∧
    (∀ x y, 0 ≤ x < w → 0 ≤ y < w → acells f !! (y * w + x) = Some (mqr_reference y x)) ∧
    NoDup path ∧ (∀ i, i ∈ path ↔ data_module f i) ∧
    ∃ filler, filler_path (mqr_modules v) f (filler_init w true) = Some (path, filler) ∧
      (FrameFiller_next f filler).1 = Ret None).
Proof.
  intros Hv. destruct (mqr_frame_spec v Hv) as (f & Ef & _ & Hok).
  eapply spec_mono; [by apply (MQRspec_newFrame_spec v f no_failure)| |done]. by intros ? ->.
Qed.

Lemma micro_frame_reference_witness :
  returns caches_ok (MQRspec_newFrame 3) (λ f,
    let w := MQRspec_getWidth 3 in
    let path := zigzag_path w true f in
    frame_full (w * w) f ∧
    (∀ x y, 0 ≤ x < w → 0 ≤ y < w → acells f !! (y * w + x) = Some (mqr_reference y x)) ∧
    NoDup path ∧ (∀ i, i ∈ path ↔ data_module f i) ∧
    ∃ filler, filler_path (mqr_modules 3) f (filler_init w true) = Some (path, filler) ∧
      (FrameFiller_next f filler).1 = Ret None).
Proof. apply (micro_frame_reference 3). lia. Defined.

(** A version that does not exist is refused, without a change of the
    state. *)
Lemma newFrame_rejects v w :
  (v < 1 ∨ 40 < v → QRspec_newFrame v w = (Fail, w)) ∧
  (v < 1 ∨ 4 < v → MQRspec_newFrame v w = (Fail, w)).
Proof.
  unfold QRspec_newFrame, MQRspec_newFrame, QRSPEC_VERSION_MAX, MQRSPEC_VERSION_MAX.
  split; intros H; by replace (_ || _) with true by lia.
Qed.

Lemma masked_cells_involutive bit w m : masked_cells bit w (masked_cells bit w m) = m.
Proof.
  apply map_eq. intros p. destruct (m !! p) as [v|] eqn:Ep.
  - pose proof (lookup_masked_cells bit w m p v Ep) as E1.
    rewrite (lookup_masked_cells _ _ _ _ _ E1). f_equal.
    destruct (truth (Z.land v 128)) eqn:Et; [by rewrite Et|].
    replace (Z.land (Z.lxor v (b2z (bit (p `div` w) (p `mod` w)))) 128) with (Z.land v 128).
    + rewrite Et. xor_cancel.
    + apply Z.bits_inj'. intros n Hn. rewrite !Z.land_spec, Z.lxor_spec. change 128 with (2 ^ 7).
      rewrite Z.pow2_bits_eqb by lia. destruct (Z.eqb_spec 7 n) as [<-|]; [|by rewrite !andb_false_r].
      destruct (bit _ _); cbn; by rewrite xorb_false_r.
  - unfold masked_cells. by rewrite !map_lookup_imap, Ep.
Qed.

(** A mask maker of the library reverses the data modules of a symbol
    exactly where the mask condition of the standard holds and leaves the
    function modules alone; its result is the number of dark modules, and the
    same mask restores the symbol. *)
Lemma maskMaker_masks k w s d :
  0 ≤ k < 8 → 0 < w → frame_full (w * w) s → symbol_buffer w d →
  ∃ m, run_maskMaker k w s d = Ret (CArray (w * w) m, dark (w * w) m) ∧
    (∀ x y v, 0 ≤ x < w → acells s !! (y * w + x) = Some v →
      m !! (y * w + x)
      = Some (if truth (Z.land v 0x80) then v else Z.lxor v (b2z (mask_bit k y x)))) ∧
    run_maskMaker k w (CArray (w * w) m) (anew (w * w)) = Ret (s, dark (w * w) (acells s)).
Proof.
  intros Hk Hw Hs Hd. set (m := masked_cells (mask_bit k) w (acells s)). exists m.
  split; [by apply run_maskMaker_spec|]. split; [intros x y v Hx Hv; by apply masked_cells_at|].
  assert (Hm : frame_full (w * w) (CArray (w * w) m)).
  { destruct Hs as [_ Hs]. split; [done|]. intros i. cbn [acells]. destruct (Hs i) as [H1 H2].
    split.
    - intros Hi. destruct (H1 Hi) as (v & Hv & Hb). eexists. split; [by apply lookup_masked_cells|].
      destruct (truth _); [done|]. apply lxor_byte; [done|].
      unfold is_byte. destruct (mask_bit _ _ _); simpl; lia.
    - intros Hi. apply H2. unfold m, masked_cells in Hi. rewrite map_lookup_imap in Hi.
      destruct (acells s !! i); [eauto|by destruct Hi]. }
  rewrite run_maskMaker_spec by (done || apply anew_buffer). cbn [acells].
  unfold m. rewrite masked_cells_involutive. destruct Hs as [<- _]. by destruct s.
Qed.

Lemma maskMaker_masks_witness :
  let s := CArray (1 * 1) {[0 := 3]} in
  ∃ m, run_maskMaker 0 1 s (anew (1 * 1)) = Ret (CArray (1 * 1) m, dark (1 * 1) m) ∧
    (∀ x y v, 0 ≤ x < 1 → acells s !! (y * 1 + x) = Some v →
      m !! (y * 1 + x)
      = Some (if truth (Z.land v 0x80) then v else Z.lxor v (b2z (mask_bit 0 y x)))) ∧
    run_maskMaker 0 1 (CArray (1 * 1) m) (anew (1 * 1)) = Ret (s, dark (1 * 1) (acells s)).
Proof.
  apply (maskMaker_masks 0 1 (CArray (1 * 1) {[0 := 3]}) (anew (1 * 1))); [lia|lia| |apply anew_buffer].
  split; [done|]. intros i. cbn [acells]. split.
  - intros Hi. assert (i = 0) as -> by lia. exists 3. by split.
  - intros [v Hv]. apply lookup_singleton_Some in Hv as [<- _]. lia.
Defined.

Lemma written_copies w format m :
  NoDup (format_area w) → 0 ≤ format < 2 ^ 15 →
  let m' := write_cells (format_cells w format) m in
  read_format (format_pos1 w) m' = format ∧ read_format (format_pos2 w) m' = format ∧
  ∀ p, p ∉ format_area w → m' !! p = m !! p.
Proof.
  intros Hnd Hr m'. split_and!.
  3: { intros p Hp. apply write_cells_other. by rewrite format_area_eq. }
  all: apply read_format_spec; [done|]; intros j Hj;
    apply write_cells_lookup; [by rewrite format_area_eq|];
    unfold format_cells; apply list_elem_of_bind; exists j;
    split; [set_solver|by apply elem_of_range].
Qed.

(** [Mask_writeFormatInformation] writes the format information twice: both
    copies can be read back, no other module changes, and the result is the
    number of dark modules written. *)
Lemma format_information_written v m k level :
  1 ≤ v ≤ 40 → 0 ≤ k < 8 →
  let w := QRspec_getWidth v in
  let format := QRspec_getFormatInfo k level in
  ∃ m', Mask_writeFormatInformation w (CArray (w * w) m) k level
        = Ret (CArray (w * w) m', 2 * ones format 15) ∧
    read_format (format_pos1 w) m' = format ∧ read_format (format_pos2 w) m' = format ∧
    ∀ p, p ∉ format_area w → m' !! p = m !! p.
Proof.
  intros Hv Hk w format. exists (write_cells (format_cells w format) m).
  split; [exact (Mask_writeFormatInformation_spec v m k level Hv)|].
  apply written_copies; [apply (format_area_ok v Hv)|apply (format_fields_spec k level Hk)].
Qed.

Lemma format_information_written_witness :
  let w := QRspec_getWidth 1 in
  let format := QRspec_getFormatInfo 5 QR_ECLEVEL_H in
  ∃ m', Mask_writeFormatInformation w (CArray (w * w) (acells (blank 1))) 5 QR_ECLEVEL_H
        = Ret (CArray (w * w) m', 2 * ones format 15) ∧
    read_format (format_pos1 w) m' = format ∧ read_format (format_pos2 w) m' = format ∧
    ∀ p, p ∉ format_area w → m' !! p = acells (blank 1) !! p.
Proof. apply (format_information_written 1 (acells (blank 1)) 5 QR_ECLEVEL_H); lia. Defined.

(** The run lengths without the mark of a line that starts with a dark module. *)
Definition runs (R : list Z) : list Z :=
  match R with r :: R' => if r <? 0 then R' else R | [] => [] end.

Lemma runs_total l : foldr Z.add 0 (runs (line_runs l)) = Z.of_nat (length l).
Proof.
  destruct l as [|b l]; [done|]. unfold line_runs.
  assert (H : foldr Z.add 0 (rle b 1 l) = Z.of_nat (length (b :: l))).
  { rewrite rle_total. simpl length. lia. }
  destruct (b =? 1); [done|]. unfold runs.
  pose proof (rle_pos b 1 l ltac:(lia)) as Hp. destruct (rle b 1 l) as [|r R]; [done|].
  apply Forall_cons in Hp as [Hr _]. by rewrite (proj2 (Z.ltb_ge r 0)) by lia.
Qed.

(** [Mask_calcRunLength] splits a row or a column into its maximal runs of
    one colour: they are those of the run length coding, the marker of a line
    that starts dark apart, and their lengths add up to the width. *)
Lemma calcRunLength_runs w n m base dir rl :
  let pitch := if dir =? 0 then 1 else w in
  0 < w ≤ QRSPEC_WIDTH_MAX → alen rl = QRSPEC_WIDTH_MAX + 1 →
  (∀ i, 0 ≤ i < w → is_Some (m !! (base + i * pitch))) →
  let R := line_runs (line_bits m base pitch w) in
  ∃ rl', Mask_calcRunLength w (CArray n m) base dir rl = Ret (rl', Z.of_nat (length R)) ∧
    (∀ j x, R !! j = Some x → acells rl' !! Z.of_nat j = Some x) ∧
    foldr Z.add 0 (runs R) = w.
Proof.
  intros pitch Hw Hrl Hm R.
  destruct (Mask_calcRunLength_spec w n m base dir rl Hw Hrl Hm) as (rl' & E & _ & Hr).
  exists rl'. split; [exact E|]. split; [exact Hr|].
  unfold R. rewrite runs_total, line_bits_length; lia.
Qed.

Lemma calcRunLength_runs_witness :
  let m : Zmap Z := {[0 := 3; 1 := 2; 2 := 2]} in
  let R := line_runs (line_bits m 0 1 3) in
  ∃ rl', Mask_calcRunLength 3 (CArray 9 m) 0 0 (anew 178) = Ret (rl', Z.of_nat (length R)) ∧
    (∀ j x, R !! j = Some x → acells rl' !! Z.of_nat j = Some x) ∧
    foldr Z.add 0 (runs R) = 3.
Proof.
  apply (calcRunLength_runs 3 9 {[0 := 3; 1 := 2; 2 := 2]} 0 0 (anew 178)); [done|done|].
  intros i Hi. enum_Z i 0 3; try lia; by eexists.
Defined.

(** C38: [Mask_evaluateSymbol] gives the penalty of the features 1 to 3 of the
    standard: runs of five or more modules, blocks of four, and patterns of
    the ratio 1:1:3:1:1 next to a light area, over all rows and columns. *)
Theorem evaluateSymbol_points w n m :
  0 < w ≤ QRSPEC_WIDTH_MAX → symbol_cells w m →
  Mask_evaluateSymbol w (CArray n m) = Ret (pattern_points w m).
Proof. apply Mask_evaluateSymbol_spec. Qed.

Lemma evaluateSymbol_points_witness :
  Mask_evaluateSymbol 1 (CArray 1 {[0 := 3]}) = Ret (pattern_points 1 {[0 := 3]}).
Proof.
  apply (evaluateSymbol_points 1 1 {[0 := 3]}); [done|].
  intros p Hp. assert (p = 0) as -> by lia. by eexists.
Defined.

(** [Mask_mask] returns the symbol under the first of the eight masks with
    the fewest penalty points, format information included; it never fails
    when there is memory. *)
Lemma Mask_mask_lowest v level frame :
  maskable v frame →
  let w := QRspec_getWidth v in
  let symbol k := masked_symbol w k level (acells frame) in
  returns caches_ok (Mask_mask w frame level) (λ r, ∃ k, 0 ≤ k < 8 ∧
    (∀ j, 0 ≤ j < 8 → symbol_points w (symbol k) ≤ symbol_points w (symbol j)) ∧
    (∀ j, 0 ≤ j < k → symbol_points w (symbol k) < symbol_points w (symbol j)) ∧
    r = CArray (w * w) (symbol k)).
Proof.
  intros Hf w symbol. eapply spec_mono; [by apply Mask_mask_returns| |by intros ? []].
  intros r (k & (Hk & H1 & H2) & ->). by exists k.
Qed.

Lemma Mask_mask_lowest_witness :
  let w := QRspec_getWidth 1 in
  let symbol k := masked_symbol w k QR_ECLEVEL_L (acells (blank 1)) in
  returns caches_ok (Mask_mask w (blank 1) QR_ECLEVEL_L) (λ r, ∃ k, 0 ≤ k < 8 ∧
    (∀ j, 0 ≤ j < 8 → symbol_points w (symbol k) ≤ symbol_points w (symbol j)) ∧
    (∀ j, 0 ≤ j < k → symbol_points w (symbol k) < symbol_points w (symbol j)) ∧
    r = CArray (w * w) (symbol k)).
Proof.
  apply (Mask_mask_lowest 1 QR_ECLEVEL_L (blank 1)).
  destruct (blank_ok 1) as [_ Hok]; [lia|]. apply (frame_ok_maskable 1 _ _ _ ltac:(lia) Hok).
Defined.

(** [MMask_mask] returns the Micro QR symbol under the first of the four
    masks with the highest score of its lower and right edges; one of the
    masks always scores, so it never returns without a symbol when there is
    memory. *)
Lemma MMask_mask_highest v level frame :
  mmaskable v frame →
  let w := MQRspec_getWidth v in
  let symbol k := mmasked_symbol v k level (acells frame) in
  returns caches_ok (MMask_mask v frame level) (λ r, ∃ k, 0 ≤ k < 4 ∧
    (∀ j, 0 ≤ j < 4 → symbol_score w (symbol j) ≤ symbol_score w (symbol k)) ∧
    (∀ j, 0 ≤ j < k → symbol_score w (symbol j) < symbol_score w (symbol k)) ∧
    r = CArray (w * w) (symbol k)).
Proof.
  intros Hf w symbol. eapply spec_mono; [by apply MMask_mask_returns| |by intros ? []].
  intros r (k & (Hk & H1 & H2) & ->). by exists k.
Qed.

Lemma MMask_mask_highest_witness :
  let w := MQRspec_getWidth 2 in
  let symbol k := mmasked_symbol 2 k QR_ECLEVEL_L (acells (mblank 2)) in
  returns caches_ok (MMask_mask 2 (mblank 2) QR_ECLEVEL_L) (λ r, ∃ k, 0 ≤ k < 4 ∧
    (∀ j, 0 ≤ j < 4 → symbol_score w (symbol j) ≤ symbol_score w (symbol k)) ∧
    (∀ j, 0 ≤ j < k → symbol_score w (symbol j) < symbol_score w (symbol k)) ∧
    r = CArray (w * w) (symbol k)).
Proof.
  apply (MMask_mask_highest 2 QR_ECLEVEL_L (mblank 2)).
  destruct (mblank_ok 2) as [_ (_ & Hfull & _)]; [lia|].
  split; [lia|]. split; [exact Hfull|]. intros x Hx. by apply (lower_edge_data 2); [lia|].
Defined.

(** A mask number that does not exist is refused with [EINVAL]: no symbol
    is built. *)
Lemma makeMask_rejects w frame level k st :
  k < 0 ∨ 8 ≤ k → Mask_makeMask w frame k level st = (Fail, set_errno EINVAL st).
Proof.
  intros Hk. unfold Mask_makeMask, Mask.maskNum. by replace (_ || _) with true by lia.
Qed.

Lemma makeMask_rejects_witness :
  Mask_makeMask 21 (blank 1) 8 QR_ECLEVEL_L (World (λ _, true) 0 None no_caches)
  = (Fail, set_errno EINVAL (World (λ _, true) 0 None no_caches)).
Proof. apply (makeMask_rejects 21 (blank 1) QR_ECLEVEL_L 8). by right. Defined.
