(* ===== verification/InputProps.v ===== *)
(** * Properties of input objects

    Validation of entries, the encoding of entries and of whole objects
    against the reference encoding and the decoder, selection of the version,
    headers, and what the encoders do in the cases that the standard excludes. *)

From S2P Require Import Prelude CModel BitStream QRSpec MQRSpec QRInput QRInputTheory QRDecode.
From S2P Require Import RSCode RSTheory FrameFiller Caches Mask MaskTheory QREncode Blocks Symbols.
From S2P Require Import Reader MicroInput MicroSymbols Split SplitTheory QRStruct QRApi ApiTheory.
From S2P Require Import InputState.

(** ** Validation *)

(** [QRinput_append] with data of one of the four data modes accepts
    exactly the non-empty data of that mode (digits, the 45 characters, Shift
    JIS pairs in the two kanji ranges, anything): it appends one entry with a
    copy of it, or fails with [EINVAL] and leaves the object as it was. *)
Lemma append_validates mode data i :
  QRinput_isSplittableMode mode = true → Forall is_byte data → tail_ok i →
  sm_spec caches_ok (QRinput_append mode (Z.of_nat (length data)) data) i
    (λ _ i', data ≠ [] ∧ mode_data mode data = true ∧
             i' = with_entries (head i ++ [new_entry mode data]) i)
    (λ e i', e = Some EINVAL ∧ i' = i ∧ (data = [] ∨ mode_data mode data = false)).
Proof.
  intros Hm Hb Ht. pose proof (QRinput_check_spec mode data Hm Hb) as Hc.
  destruct (bool_decide_reflect (data ≠ [])) as [Hne|Hnil];
    [destruct (mode_data mode data) eqn:Hd|]; cbn [andb] in Hc.
  - assert (Hde : data_entry (new_entry mode data)) by by split.
    pose proof (append_spec (Inv := caches_ok) mode data [] i
      (λ e i', e = Some EINVAL ∧ i' = i ∧ (data = [] ∨ true = false)) Ht Hde) as H.
    rewrite app_nil_r in H. eapply sm_mono; [exact H| |done]. intros _ i' ->. by split_and!.
  - eapply sm_lift_bind with (P := λ _, False); [|done]. unfold QRinput_List_newEntry.
    eapply spec_bind; [by eapply (spec_liftO _ _ (λ x, x = false))|]. intros ? ->.
    apply spec_raise. auto.
  - eapply sm_lift_bind with (P := λ _, False); [|done]. unfold QRinput_List_newEntry.
    eapply spec_bind; [by eapply (spec_liftO _ _ (λ x, x = false))|]. intros ? ->.
    apply spec_raise. split; [done|]. split; [done|]. left. by apply dec_stable.
Qed.

Lemma append_validates_witness :
  sm_spec caches_ok (QRinput_append QR_MODE_NUM 2 [49; 65]) (fresh_input 1 QR_ECLEVEL_L)
    (λ _ i', [49; 65] ≠ [] ∧ mode_data QR_MODE_NUM [49; 65] = true ∧
             i' = with_entries [new_entry QR_MODE_NUM [49; 65]] (fresh_input 1 QR_ECLEVEL_L))
    (λ e i', e = Some EINVAL ∧ i' = fresh_input 1 QR_ECLEVEL_L ∧
             ([49; 65] = [] ∨ mode_data QR_MODE_NUM [49; 65] = false)).
Proof.
  apply (append_validates QR_MODE_NUM [49; 65] (fresh_input 1 QR_ECLEVEL_L)); [done| |done].
  repeat constructor; done.
Defined.

(** ** Encoding of entries *)




(** An input with one entry of eight-bit data. *)
Definition input_8 (v : Z) (level : QRecLevel) (data : list Z) : QRinput :=
  with_entries [new_entry QR_MODE_8 data] (fresh_input v level).

Lemma input_8_encodable v level data :
  0 ≤ v ≤ 40 → Forall is_byte data → data ≠ [] → encodable_input (input_8 v level data).
Proof.
  intros Hv Hb Hne. apply fresh_encodable; [done|]. apply Forall_singleton. by split.
Qed.


(** ** The invariant of input objects *)



(** ** The splitter *)

(** [Split_splitStringToQRinput] appends entries to the object whose data
    is the string, in upper case unless the caller wants the case kept. Every
    entry is valid data of its mode, and kanji entries are made only on
    request. It never fails but for a refused allocation. *)
Lemma splitString_entries string hint cs i :
  c_string string → string ≠ [] → tail_ok i →
  sm_spec caches_ok (Split_splitStringToQRinput (Some string) hint cs) i
    (λ _ i', ∃ es, i' = with_entries (head i ++ es) i ∧
      Forall (λ e, data_entry e ∧ (e_mode e = QR_MODE_KANJI → hint = QR_MODE_KANJI)) es ∧
      (es ≫= e_data) = if cs then string else to_upper hint string)
    (λ _ _, False).
Proof. intros. by apply Split_splitStringToQRinput_spec. Qed.

Lemma splitString_entries_witness :
  let i := fresh_input 1 QR_ECLEVEL_L in
  sm_spec caches_ok (Split_splitStringToQRinput (Some [97; 49; 50]) QR_MODE_8 false) i
    (λ _ i', ∃ es, i' = with_entries (head i ++ es) i ∧
      Forall (λ e, data_entry e ∧ (e_mode e = QR_MODE_KANJI → QR_MODE_8 = QR_MODE_KANJI)) es ∧
      (es ≫= e_data) = to_upper QR_MODE_8 [97; 49; 50])
    (λ _ _, False).
Proof.
  apply (splitString_entries [97; 49; 50] QR_MODE_8 false (fresh_input 1 QR_ECLEVEL_L));
    [repeat constructor; lia|done|done].
Defined.

(** ** Rejected arguments *)

(** Null or empty data, a hint that is neither 8-bit nor kanji, a version
    out of range and an object of the other symbol family are refused with
    [EINVAL] before anything is allocated or changed. *)
Lemma arguments_rejected w :
  (∀ v level hint cs, QRcode_encodeString None v level hint cs w = (Fail, set_errno EINVAL w)) ∧
  (∀ s v level hint cs, hint ≠ QR_MODE_8 → hint ≠ QR_MODE_KANJI →
     QRcode_encodeString (Some s) v level hint cs w = (Fail, set_errno EINVAL w)) ∧
  (∀ v level data, QRcode_encodeData 0 data v level w = (Fail, set_errno EINVAL w)) ∧
  (∀ v level size, QRcode_encodeData size None v level w = (Fail, set_errno EINVAL w)) ∧
  (∀ v level, v < 0 ∨ 40 < v → QRinput_new2 v level w = (Fail, set_errno EINVAL w)) ∧
  (∀ v level, v ≤ 0 ∨ 4 < v → QRinput_newMQR v level w = (Fail, set_errno EINVAL w)) ∧
  (∀ v level size data, v ≤ 0 →
     QRcode_encodeDataStructured size data v level w = (Fail, set_errno EINVAL w)) ∧
  (∀ i mask, mqr i = true → QRcode_encodeMask mask i w = ((Fail, i), set_errno EINVAL w)) ∧
  (∀ i mask, mqr i = false → QRcode_encodeMaskMQR mask i w = ((Fail, i), set_errno EINVAL w)) ∧
  (∀ i v, mqr i = true →
     QRinput_setVersion v i w = ((Fail, i), set_errno EINVAL w)).
Proof.
  split_and!; intros.
  - done.
  - unfold QRcode_encodeString, QRcode_encodeStringReal. by rewrite !bool_decide_eq_false_2.
  - by destruct data.
  - done.
  - unfold QRinput_new2, QRSPEC_VERSION_MAX. by replace (_ || _) with true by lia.
  - unfold QRinput_newMQR, MQRSPEC_VERSION_MAX. by replace (_ || _) with true by lia.
  - unfold QRcode_encodeDataStructured, QRcode_encodeDataStructuredReal.
    by rewrite (proj2 (Z.leb_le v 0)).
  - unfold QRcode_encodeMask, get, mbind, SM_bind. cbn. by rewrite H.
  - unfold QRcode_encodeMaskMQR, get, mbind, SM_bind. cbn. by rewrite H.
  - unfold QRinput_setVersion, get, mbind, SM_bind. cbn. by rewrite H.
Qed.
