(* ===== verification/SymbolProps.v ===== *)
(** * Properties of the encoders

    From the data of an input object to the modules of its symbol and back,
    for QR code and Micro QR symbols, and the errors on the way. *)

From S2P Require Import Prelude CModel BitStream RSCode RSTheory QRSpec MQRSpec FrameFiller.
From S2P Require Import Mask MaskTheory MMask Caches QRInput QRInputTheory QRDecode QREncode Blocks.
From S2P Require Import Symbols Reader MicroInput MicroSymbols Split SplitTheory QRStruct QRApi.
From S2P Require Import ApiTheory InputState InputProps.

(** ** QR code symbols *)





(** [QRcode_encodeData] and [QRcode_encodeString8bit] make symbols whose
    segments hold the given bytes. *)
Lemma encodeData_readable v level data size :
  0 ≤ v ≤ 40 → Forall is_byte data → 0 < size ≤ Z.of_nat (length data) →
  encodes v level (take (Z.to_nat size) data) (QRcode_encodeData size (Some data) v level) ∧
  encodes v level data (QRcode_encodeString8bit (Some data) v level).
Proof.
  intros Hv Hb Hs. split; [by apply encodeDataReal_encodes|].
  unfold QRcode_encodeString8bit. rewrite <- (take_ge data (Z.to_nat (Z.of_nat (length data)))) at 1 by lia.
  apply encodeDataReal_encodes; [done|done|lia].
Qed.

Lemma encodeData_readable_witness :
  encodes 0 QR_ECLEVEL_H (take 2 [0; 255; 7]) (QRcode_encodeData 2 (Some [0; 255; 7]) 0 QR_ECLEVEL_H) ∧
  encodes 0 QR_ECLEVEL_H [0; 255; 7] (QRcode_encodeString8bit (Some [0; 255; 7]) 0 QR_ECLEVEL_H).
Proof.
  apply (encodeData_readable 0 QR_ECLEVEL_H [0; 255; 7] 2); [lia|repeat constructor; done|simpl; lia].
Defined.



(** The code words that a raw code hands out until its count is reached. *)
Definition drain (raw : QRRawCode) : outcome (list Z * QRRawCode) :=
  for_range 0 (raw_dataLength raw + raw_eccLength raw) (λ _ '(out, raw),
    '(code, raw) ← QRraw_getCode raw; mret (out ++ [code], raw)) ([], raw).

Lemma drain_spec v s D raw :
  blocks_ok s → Z.of_nat (length D) = QRspec_rsDataLength s → Forall is_byte D →
  raw_for v s D 0 raw →
  ∃ raw', drain raw = Ret (codewords s D, raw') ∧
    raw_for v s D (QRspec_rsDataLength s + QRspec_rsEccLength s) raw'.
Proof.
  intros Hs Hl HD Hraw. pose proof (length_codewords s Hs D Hl HD) as Hlc.
  unfold drain. rewrite (rf_dataLength _ _ _ _ _ Hraw), (rf_eccLength _ _ _ _ _ Hraw).
  set (n := QRspec_rsDataLength s + QRspec_rsEccLength s) in *.
  destruct (for_range_inv (λ k '(out, raw),
      out = take (Z.to_nat k) (codewords s D) ∧ raw_for v s D k raw) 0 n
      (λ _ '(out, raw), '(code, raw) ← QRraw_getCode raw; mret (out ++ [code], raw)) ([], raw))
    as ([out raw'] & -> & -> & Hraw'); [lia|done| |].
  - intros k [out r] Hk [-> Hr].
    rewrite (QRraw_getCode_spec v s Hs D Hl HD k) by done. cbn [mbind outcome_bind].
    eexists. split; [done|]. split; [|by apply raw_for_next].
    destruct (lookup_lt_is_Some_2 (codewords s D) (Z.to_nat k)) as [x Hx]; [lia|].
    rewrite (nthZ_lookup _ _ _ Hx), Z2Nat.inj_add by lia.
    change (Z.to_nat 1) with 1%nat. rewrite Nat.add_1_r. by rewrite (take_S_r _ _ x).
  - exists raw'. split; [|done]. by rewrite take_ge by lia.
Qed.

(** The calls of [QRraw_getCode] on a new raw code hand out the code
    words of its blocks interleaved: first the data of all blocks column by
    column, then their parity, and 0 from then on. *)
Lemma raw_code_interleaved i :
  encodable_input i →
  sm_spec caches_ok QRraw_new i
    (λ raw i', ∃ u raw', let s := QRspec_getEccSpec u (level i) in
      version i ≤ u ≤ 40 ∧ 1 ≤ u ∧ i' = converted u i ∧
      raw_version raw = u ∧ drain raw = Ret (codewords s (byte_stream u i), raw') ∧
      QRraw_getCode raw' = Ret (0, raw'))
    (too_large i).
Proof.
  intros [Hm Hf Hv Hes]. eapply sm_mono; [by apply QRraw_new_spec| |done].
  intros raw i' (u & Hu & Hu1 & -> & Hfits & Hraw).
  pose proof (ecc_blocks_ok u (level i) ltac:(lia)) as Hs.
  destruct (byte_stream_bits u i ltac:(lia) Hfits) as (HlD & HbD & _).
  apply data_total in HlD; [|lia].
  destruct (drain_spec u _ _ raw Hs HlD HbD Hraw) as (raw' & E & Hraw').
  exists u, raw'. split_and!; [lia..|done|by destruct Hraw|done|].
  by eapply QRraw_getCode_end; [exact Hs| |exact Hraw'].
Qed.

Lemma raw_code_interleaved_witness :
  let i := input_8 5 QR_ECLEVEL_Q [1; 2; 3] in
  sm_spec caches_ok QRraw_new i
    (λ raw i', ∃ u raw', let s := QRspec_getEccSpec u (level i) in
      version i ≤ u ≤ 40 ∧ 1 ≤ u ∧ i' = converted u i ∧
      raw_version raw = u ∧ drain raw = Ret (codewords s (byte_stream u i), raw') ∧
      QRraw_getCode raw' = Ret (0, raw'))
    (too_large i).
Proof.
  apply (raw_code_interleaved (input_8 5 QR_ECLEVEL_Q [1; 2; 3])).
  apply input_8_encodable; [lia|repeat constructor; done|done].
Defined.

(** Every block that a reader collects from the modules of a symbol of
    the library is a code word of the Reed-Solomon code of its version and
    level, so that its errors can be corrected. *)
Lemma symbol_blocks_codewords v level k D p :
  1 ≤ v ≤ 40 → 0 ≤ k < 8 →
  Z.of_nat (length D) = QRspec_getDataLength v level → Forall is_byte D →
  let s := QRspec_getEccSpec v level in
  let codes := read_codewords v k (acells (code_data (qr_symbol v level k D))) in
  0 ≤ p < QRspec_rsBlockNum s →
  rs_codeword (spec2 s) (read_block_data s codes p ++ read_block_parity s codes p).
Proof. apply read_blocks_spec. Qed.

Lemma symbol_blocks_codewords_witness :
  let D := replicate 19 7 in
  let s := QRspec_getEccSpec 1 QR_ECLEVEL_L in
  let codes := read_codewords 1 2 (acells (code_data (qr_symbol 1 QR_ECLEVEL_L 2 D))) in
  rs_codeword (spec2 s) (read_block_data s codes 0 ++ read_block_parity s codes 0).
Proof.
  apply (symbol_blocks_codewords 1 QR_ECLEVEL_L 2 (replicate 19 7) 0);
    [lia|lia|done|by apply Forall_replicate|done].
Defined.
