(* ===== verification/MicroProps.v ===== *)
(** * Properties of the Micro QR encoder

    From input objects to the modules of Micro QR symbols and back. *)

From S2P Require Import Prelude CModel BitStream RSCode RSTheory QRSpec MQRSpec FrameFiller.
From S2P Require Import Mask MaskTheory MMask Caches QRInput QRInputTheory QRDecode QREncode Blocks.
From S2P Require Import Symbols Reader MicroInput MicroSymbols Split SplitTheory Lengths MicroReader.
From S2P Require Import QRStruct QRApi ApiTheory.

(** A Micro QR object with one entry. *)
Definition micro_one (v : Z) (level : QRecLevel) (mode : QRencodeMode) (data : list Z) : QRinput :=
  with_entries [new_entry mode data] (set_mqr true (fresh_input v level)).

Lemma micro_one_input v level mode data :
  1 ≤ v ≤ 4 → mqr_supported v level → Forall is_byte data → micro_decodable v mode data = true →
  micro_input (micro_one v level mode data).
Proof.
  intros Hv Hl Hb Hd. split; [done|done|done|]. apply Forall_singleton.
  unfold micro_decodable in Hd. rewrite !andb_true_iff in Hd.
  destruct Hd as ((((Hm & Hd) & Hne) & Hs) & _). split; [done|done| |done].
  cbn [new_entry e_mode e_data]. rewrite encodable_splittable by done. rewrite Hne.
  destruct mode; try done; cbn [decodable mode_data] in *; [by rewrite Hd..|].
  rewrite andb_true_iff in Hd. by destruct Hd as [-> _].
Qed.



(** [QRcode_encodeMaskMQR] returns exactly the symbol of the padded
    stream and its parity along the walk, under the requested mask, or under
    the first of the four masks with the highest score when the choice is left
    to it. *)
Lemma encodeMaskMQR_symbol i mask :
  micro_input i → -1 ≤ mask < 4 →
  sm_spec caches_ok (QRcode_encodeMaskMQR mask) i
    (λ c i', ∃ k, i' = micro_encoded i ∧ micro_fits i ∧
      (0 ≤ mask → k = mask) ∧
      (mask < 0 → highest_mask (λ k, symbol_score (MQRspec_getWidth (version i))
         (acells (code_data (micro_symbol k i)))) k) ∧
      c = micro_symbol k i)
    (micro_too_large i).
Proof. apply QRcode_encodeMaskMQR_spec. Qed.

Lemma encodeMaskMQR_symbol_witness :
  let i := micro_one 1 QR_ECLEVEL_L QR_MODE_NUM [49; 50; 51] in
  sm_spec caches_ok (QRcode_encodeMaskMQR (-1)) i
    (λ c i', ∃ k, i' = micro_encoded i ∧ micro_fits i ∧
      (0 ≤ -1 → k = -1) ∧
      (-1 < 0 → highest_mask (λ k, symbol_score (MQRspec_getWidth (version i))
         (acells (code_data (micro_symbol k i)))) k) ∧
      c = micro_symbol k i)
    (micro_too_large i).
Proof.
  apply (encodeMaskMQR_symbol (micro_one 1 QR_ECLEVEL_L QR_MODE_NUM [49; 50; 51]) (-1)); [|lia].
  apply micro_one_input; [lia|by eexists|repeat constructor; done|done].
Defined.

(** The byte stream of a Micro QR object is its bits, a terminator of
    [2 * version + 1] zero bits or less, zero bits to the next byte, the pad
    code words 0xEC and 0x11 in turn, and, where the last code word has four
    bits only, zeros in it, packed into bytes. *)
Lemma micro_stream_padded i :
  micro_input i →
  sm_spec caches_ok QRinput_getByteStream i
    (λ d i', i' = micro_encoded i ∧ micro_fits i ∧
      Z.of_nat (length (micro_padded i)) = MQRspec_getDataLengthBit (version i) (level i) ∧
      d = bits_to_bytes (micro_padded i))
    (λ e i', e = Some ERANGE ∧ i' = micro_encoded i ∧ ¬ micro_fits i).
Proof.
  intros Hi. eapply sm_mono; [by apply micro_byteStream_spec| |done].
  intros d i' (-> & Hfit & ->). split_and!; try done. by apply length_micro_padded.
Qed.

Lemma micro_stream_padded_witness :
  let i := micro_one 3 QR_ECLEVEL_L QR_MODE_8 [200] in
  sm_spec caches_ok QRinput_getByteStream i
    (λ d i', i' = micro_encoded i ∧ micro_fits i ∧
      Z.of_nat (length (micro_padded i)) = MQRspec_getDataLengthBit (version i) (level i) ∧
      d = bits_to_bytes (micro_padded i))
    (λ e i', e = Some ERANGE ∧ i' = micro_encoded i ∧ ¬ micro_fits i).
Proof.
  apply (micro_stream_padded (micro_one 3 QR_ECLEVEL_L QR_MODE_8 [200])).
  apply micro_one_input; [lia|by eexists|repeat constructor; done|done].
Defined.

Lemma QRinput_newMQR_spec v level E :
  1 ≤ v ≤ 4 → mqr_supported v level →
  spec caches_ok (QRinput_newMQR v level) (λ i, i = set_mqr true (fresh_input v level)) E.
Proof.
  intros Hv Hl. unfold QRinput_newMQR, MQRSPEC_VERSION_MAX.
  rewrite (proj2 (Z.leb_gt v 0)), (proj2 (Z.ltb_ge 4 v)) by lia. cbn [orb].
  rewrite (proj2 (Z.eqb_neq _ 0)) by by apply mqr_supported_ecc.
  eapply spec_bind; [apply QRinput_new2_spec; lia|]. intros ? ->. by apply spec_ret.
Qed.

(** [QRcode_encodeDataMQR] encodes bytes in a symbol of version 3 or 4
    from which they can be read back, or fails with [ERANGE] when they do not
    fit its bits. *)
Lemma encodeDataMQR_readable v level data :
  3 ≤ v ≤ 4 → mqr_supported v level → Forall is_byte data → data ≠ [] →
  spec caches_ok (QRcode_encodeDataMQR (Z.of_nat (length data)) (Some data) v level)
    (λ c, ∃ segs, code_version c = v ∧ micro_reads_as c v level segs ∧ mjoin segs.*2 = data)
    (λ e, e = Some ERANGE ∧
      MQRspec_getDataLengthBit v level
      < Z.of_nat (length (entry_bits true v QR_MODE_8 data))).
Proof.
  intros Hv Hl Hb Hne. set (i := micro_one v level QR_MODE_8 data).
  assert (Hd : micro_decodable v QR_MODE_8 data = true).
  { unfold micro_decodable, mode_supported. rewrite bool_decide_eq_true_2 by done. cbn. lia. }
  assert (Hi : micro_input i) by (apply micro_one_input; done || lia).
  unfold QRcode_encodeDataMQR, QRcode_encodeDataReal.
  rewrite (proj2 (Z.eqb_neq _ 0)) by (destruct data; simpl; done || lia).
  eapply spec_bind; [apply QRinput_newMQR_spec; done || lia|]. intros ? ->.
  eapply spec_bind.
  - eapply (spec_run_on _ _ (λ c _, ∃ segs, code_version c = v ∧ micro_reads_as c v level segs ∧
      mjoin segs.*2 = data) (λ e _, e = Some ERANGE ∧ MQRspec_getDataLengthBit v level
      < Z.of_nat (length (entry_bits true v QR_MODE_8 data)))); [|by intros ? ? ?].
    eapply sm_bind with (P := λ _ i', i' = i).
    { rewrite <- (app_nil_r data) at 2. apply append_spec; [done|].
      by apply data_entry_intro. }
    intros _ ? ->. apply sm_get_bind. rewrite (mi_mqr _ Hi).
    eapply sm_mono; [apply QRcode_encodeMaskMQR_reads; [done|lia|by apply Forall_singleton]| |].
    + intros c i' (_ & Hc & Hr). exists (head i ≫= entry_segments v). split; [done|]. split; [done|].
      cbn [i micro_one head with_entries set_tail set_head mbind list_bind].
      rewrite app_nil_r. by apply (entry_segments_data v (new_entry QR_MODE_8 data)).
    + intros e i' (-> & _ & Hbig). split; [done|]. unfold micro_fits, micro_stream, stream in Hbig.
      cbn [i micro_one head with_entries set_tail set_head mbind list_bind new_entry e_mode e_data] in Hbig.
      rewrite app_nil_r in Hbig. apply Z.nle_gt. exact Hbig.
  - intros [c i'] H. by apply spec_ret.
Qed.

Lemma encodeDataMQR_readable_witness :
  spec caches_ok (QRcode_encodeDataMQR 2 (Some [10; 200]) 4 QR_ECLEVEL_Q)
    (λ c, ∃ segs, code_version c = 4 ∧ micro_reads_as c 4 QR_ECLEVEL_Q segs ∧
      mjoin segs.*2 = [10; 200])
    (λ e, e = Some ERANGE ∧
      MQRspec_getDataLengthBit 4 QR_ECLEVEL_Q
      < Z.of_nat (length (entry_bits true 4 QR_MODE_8 [10; 200]))).
Proof.
  apply (encodeDataMQR_readable 4 QR_ECLEVEL_Q [10; 200]);
    [lia|by eexists|repeat constructor; done|done].
Defined.
