(* ===== verification/StructProps.v ===== *)
(** * Properties of structured append

    The split of an input object into the symbols of a message, and what can be
    read from these symbols. *)

From S2P Require Import Prelude CModel BitStream RSCode RSTheory QRSpec MQRSpec FrameFiller.
From S2P Require Import Mask MaskTheory Caches QRInput QRInputTheory QRDecode QREncode Blocks.
From S2P Require Import Symbols Reader Split SplitTheory Lengths QRStruct QRApi ApiTheory.
From S2P Require Import StructTheory InputProps.

(** ** The split *)


Lemma input_8_struct v level data :
  1 ≤ v ≤ 40 → Forall is_byte data → data ≠ [] → struct_input (input_8 v level data).
Proof.
  intros Hv Hb Hne. split; [done|done|]. apply Forall_singleton. split; [by split|done|done].
Qed.




(** ** Data *)

Lemma parts_mode i ps :
  struct_input i → parts_of i ps → Forall (λ e, e_mode e = QR_MODE_8) (head i) →
  Forall (λ e, placed (version i) e ∧ e_mode e = QR_MODE_8) (ps ≫= head).
Proof.
  intros _ (full & last & _ & Hparts & _ & Et & _) H8.
  assert (Hpl : Forall (placed (version i)) (ps ≫= head)).
  { apply Forall_bind. eapply Forall_impl; [exact Hparts|]. by intros p []. }
  assert (Ht : Forall (λ x : QRencodeMode * Z, x.1 = QR_MODE_8) (tagged (ps ≫= head))).
  { rewrite Et. unfold tagged. apply Forall_bind. eapply Forall_impl; [exact H8|].
    intros e He. apply Forall_fmap, Forall_forall. by intros ? _. }
  apply Forall_forall. intros e Hin. pose proof (proj1 (Forall_forall _ _) Hpl e Hin) as He.
  split; [done|]. destruct He as [[[_ _ Hne _ _] _ _] _]. destruct (e_data e) as [|x l] eqn:Ed; [done|].
  apply (proj1 (Forall_forall _ _) Ht (e_mode e, x)). unfold tagged. apply list_elem_of_bind.
  exists e. split; [|done]. rewrite Ed. by left.
Qed.

Lemma stream_length_8 v es :
  Forall (λ e, placed v e ∧ e_mode e = QR_MODE_8) es →
  stream_length v es ≤ 20 * Z.of_nat (length es) + 8 * Z.of_nat (length (tagged es)).
Proof.
  induction 1 as [|e es [[[He _ _] Hs] Em] _ IH]; [done|].
  rewrite stream_length_cons, one_segment by done. unfold tagged in *.
  rewrite bind_cons, length_app, length_fmap. rewrite Em. unfold segment_length.
  pose proof (lengthIndicator_bounds QR_MODE_8 v eq_refl). cbn [mode_estimate length].
  unfold QRinput_estimateBitsMode8. rewrite (de_size _ He). lia.
Qed.

Lemma full_parts_length v level full :
  Forall (part_full v level) full →
  Z.of_nat (length full) * (room v level - 32) ≤ stream_length v (full ≫= head).
Proof.
  induction 1 as [|p full Hp _ IH]; [done|]. unfold part_full in Hp.
  rewrite bind_cons. unfold stream_length, stream in *. rewrite bind_app, length_app. cbn [length]. lia.
Qed.

(** More than 16 parts mean a lot of data. *)
Lemma too_many_parts i ps :
  struct_input i → parts_of i ps → Forall (λ e, e_mode e = QR_MODE_8) (head i) →
  (16 < length ps)%nat →
  16 * (8 * QRspec_getDataLength (version i) (level i) - 72)
  ≤ 8 * Z.of_nat (length (tagged (head i))) + 20 * Z.of_nat (length (head i)).
Proof.
  intros Hi Hps H8 Hlen. pose proof (parts_mode i ps Hi Hps H8) as Hm.
  destruct Hps as (full & last & -> & _ & Hfull & Et & Hcount).
  pose proof (stream_length_8 _ _ Hm) as Hs. rewrite Et in Hs.
  pose proof (full_parts_length _ _ _ Hfull) as Hf.
  assert (Hle : stream_length (version i) (full ≫= head)
                ≤ stream_length (version i) ((full ++ [last]) ≫= head)).
  { unfold stream_length, stream. rewrite bind_app, bind_app, length_app. lia. }
  rewrite length_app in Hlen. cbn [length] in Hlen.
  assert (Hr : 0 ≤ room (version i) (level i) - 52).
  { pose proof (room_52 (version i) (level i) (si_version _ Hi)). lia. }
  assert (16 * (room (version i) (level i) - 52)
          ≤ Z.of_nat (length full) * (room (version i) (level i) - 52)) by nia.
  unfold room, STRUCTURE_HEADER_SIZE in *. lia.
Qed.





(** ** Kanji *)

(** Kanji data of one entry. *)
Definition kanji_input (v : Z) (level : QRecLevel) (n : nat) : QRinput :=
  with_entries [new_entry QR_MODE_KANJI (mjoin (replicate n [0x88; 0x9f]))] (fresh_input v level).

(** The estimate of the split counts the bytes of kanji against a limit on
    characters. In version 9 and level L a message of 140 kanji, which fits a
    symbol and is encoded without structured append, is therefore rejected with
    [EINVAL] by [QRinput_splitQRinputToStruct] (it cuts the entry at its end and
    finds an empty rest), although those of 128 and of 141 kanji are
    accepted. *)
Lemma kanji_split_rejected :
  let w := World (λ _, true) 0 None no_caches in
  let split n := QRinput_splitQRinputToStruct (kanji_input 9 QR_ECLEVEL_L n) w in
  (split 140%nat).1 = Fail ∧ errno (split 140%nat).2 = Some EINVAL ∧
  stream_length 9 (head (kanji_input 9 QR_ECLEVEL_L 140)) ≤ room 9 QR_ECLEVEL_L ∧
  (s_size <$> outcome_value (split 128%nat).1) = Some 1 ∧
  (s_size <$> outcome_value (split 141%nat).1) = Some 2.
Proof. vm_compute. repeat split. intros [=]. Qed.
