(* ===== verification/LimitsProps.v ===== *)
(** * Limits of the encoder

    Inputs on which the routines of qrinput.c and qrencode.c do something else
    than the standard or their documentation says: each theorem states what
    they do. *)

From S2P Require Import Prelude CModel BitStream QRSpec MQRSpec QRInput QRInputTheory QRDecode.
From S2P Require Import RSCode RSTheory FrameFiller Caches Mask MaskTheory QREncode Blocks Symbols.
From S2P Require Import Reader Split SplitTheory Lengths QRStruct QRApi ApiTheory InputProps.

(** ** Failures of the conversion *)

(** Where the byte stream cannot be built, no symbol is. *)
Lemma encodeInput_fails i E :
  mqr i = false → 0 ≤ version i ≤ 40 →
  sm_spec caches_ok QRinput_getByteStream i (λ _ _, False) E →
  sm_spec caches_ok QRcode_encodeInput i (λ _ _, False) E.
Proof.
  intros Hm Hv H. apply sm_get_bind. rewrite Hm.
  unfold QRcode_encodeMask. apply sm_get_bind.
  rewrite Hm, (proj2 (Z.ltb_ge (version i) 0)), (proj2 (Z.ltb_ge QRSPEC_VERSION_MAX (version i)))
    by (unfold QRSPEC_VERSION_MAX; lia).
  rewrite (proj2 (Z.ltb_ge _ _)) by (destruct (level i); done). cbn [orb].
  eapply sm_bind with (P := λ _ _, False); [|done]. unfold QRraw_new.
  eapply sm_lift_bind; [by apply (spec_malloc _ (λ _, True))|]. intros _ _.
  by eapply sm_bind with (P := λ _ _, False).
Qed.

Lemma getByteStream_fails i E :
  mqr i = false →
  sm_spec caches_ok (_ ← (if truth (fnc1 i) then QRinput_insertFNC1Header else mret tt);
                     QRinput_convertData) i (λ _ _, False) E →
  sm_spec caches_ok QRinput_getByteStream i (λ _ _, False) E.
Proof.
  intros Hm H. unfold QRinput_getByteStream, QRinput_getBitStream.
  eapply sm_bind with (P := λ _ _, False); [|done]. eapply sm_bind with (P := λ _ _, False); [|done].
  apply sm_get_bind. rewrite Hm. by eapply sm_bind with (P := λ _ _, False).
Qed.

(** ** ECI designators *)

(** C40: [QRinput_encodeModeECI] encodes an ECI number from 16384 on with a
    24-bit designator that does not start with the bits 110 of the standard
    (the constant is 0xc0000 where 0xc00000 is meant): a decoder reads a
    one-byte designator with another number. *)
Theorem eci_three_bytes_misread v data :
  length data = 4%nat → Forall is_byte data → 16384 ≤ eci_value data ≤ 999999 →
  sm_spec caches_ok (QRinput_encodeBitStream v false) (new_entry QR_MODE_ECI data)
    (λ n e', ∃ bits m rest, n = Z.of_nat (length bits) ∧
      e' = set_bstream (Some (bs_of bits)) (new_entry QR_MODE_ECI data) ∧
      bits = to_bits 4 QRSPEC_MODEID_ECI ++ to_bits 24 (0xc0000 + eci_value data) ∧
      decode_eci (drop 4 bits) = Some (eci_bytes m, rest) ∧ m ≠ eci_value data)
    (λ _ _, False).
Proof.
  intros Hl Hb Hn. set (n := eci_value data) in *. set (m := (0xc0000 + n) `div` 65536).
  assert (Hm : 0 ≤ m < 128).
  { split; [apply Z.div_pos; lia|]. apply Z.div_lt_upper_bound; lia. }
  eapply sm_mono; [apply (encodeBitStream_spec v false (new_entry QR_MODE_ECI data))| |intros ? ? H; exact H].
  5: intros ? ? [-> ->]; cbn [new_entry e_mode e_data].
  1-4: first [done|by apply Nat.eqb_eq].
  assert (E : entry_bits false v QR_MODE_ECI data = to_bits 4 7 ++ to_bits 24 (0xc0000 + n)).
  { unfold entry_bits, chunks, chunk_size, chunk_depth. destruct (length data); cbn [chunk_depth];
      change (Z.to_nat (QRspec_maximumWords QR_MODE_ECI v)) with 0%nat; cbn;
      unfold eci_bits; fold n; rewrite (proj2 (Z.ltb_ge n 128)), (proj2 (Z.ltb_ge n 16384)) by lia;
      by rewrite app_nil_r. }
  exists (entry_bits false v QR_MODE_ECI data), m, (to_bits 16 (0xc0000 + n)).
  rewrite E. split_and!; [done..| |lia].
  change (drop 4 (to_bits 4 7 ++ ?x)) with x.
  rewrite (to_bits_split 8 16), (to_bits_split 1 7), Z.shiftr_shiftr by lia.
  assert (E8 : Z.shiftr (0xc0000 + n) (Z.of_nat 16) = m) by (by rewrite Z.shiftr_div_pow2 by lia).
  assert (E1 : Z.shiftr (0xc0000 + n) (Z.of_nat 16 + Z.of_nat 7) = 0).
  { rewrite Z.shiftr_div_pow2 by lia. apply Z.div_small. lia. }
  rewrite E8, E1. change (to_bits 1 0) with [0]. cbn [app decode_eci].
  by rewrite take_bits_app.
Qed.

Lemma eci_three_bytes_misread_witness :
  sm_spec caches_ok (QRinput_encodeBitStream 1 false) (new_entry QR_MODE_ECI [0x3f; 0x42; 0x0f; 0])
    (λ n e', ∃ bits m rest, n = Z.of_nat (length bits) ∧
      e' = set_bstream (Some (bs_of bits)) (new_entry QR_MODE_ECI [0x3f; 0x42; 0x0f; 0]) ∧
      bits = to_bits 4 QRSPEC_MODEID_ECI ++ to_bits 24 (0xc0000 + 999999) ∧
      decode_eci (drop 4 bits) = Some (eci_bytes m, rest) ∧ m ≠ 999999)
    (λ _ _, False).
Proof.
  apply (eci_three_bytes_misread 1 [0x3f; 0x42; 0x0f; 0]); [done|repeat constructor; done|done].
Defined.

(** ** FNC1 *)

(** After [QRinput_setFNC1First] no input can be encoded: the header entry
    has size 0, which [QRinput_check] rejects, so the encoder fails with
    [EINVAL]. *)
Lemma fnc1first_rejected i :
  mqr i = false → 0 ≤ version i ≤ 40 →
  sm_spec caches_ok (_ ← QRinput_setFNC1First; QRcode_encodeInput) i (λ _ _, False)
    (λ e i', e = Some EINVAL ∧ i' = set_fnc1 1 (appid i) i).
Proof.
  intros Hm Hv. set (j := set_fnc1 1 (appid i) i).
  eapply sm_bind with (P := λ _ i', i' = j).
  { apply sm_get_bind. rewrite Hm. by apply sm_put. }
  intros _ ? ->. apply encodeInput_fails; [done|done|]. apply getByteStream_fails; [done|].
  change (truth (fnc1 j)) with true. eapply sm_bind with (P := λ _ _, False); [|done].
  apply sm_get_bind. change (fnc1 j =? 1) with true. cbv beta iota.
  eapply sm_lift_bind with (P := λ _, False); [|done].
  eapply spec_bind; [by eapply (spec_liftO _ _ (λ x, x = false))|]. intros ? ->.
  by apply spec_raise.
Qed.

Lemma fnc1first_rejected_witness :
  let i := with_entries [new_entry QR_MODE_8 [97]] (fresh_input 1 QR_ECLEVEL_L) in
  sm_spec caches_ok (_ ← QRinput_setFNC1First; QRcode_encodeInput) i (λ _ _, False)
    (λ e i', e = Some EINVAL ∧ i' = set_fnc1 1 (appid i) i).
Proof.
  apply (fnc1first_rejected (with_entries [new_entry QR_MODE_8 [97]] (fresh_input 1 QR_ECLEVEL_L)));
    [done|cbn; lia].
Defined.

(** ** Kanji *)

(** [QRinput_check] accepts a kanji pair whose second byte is no trail
    byte of Shift JIS, and the encoder gives it the bits of another character:
    for every version, 0x8200 and 0x8240 have the same encoding. *)
Lemma kanji_trail_unchecked v mqr :
  QRinput_check QR_MODE_KANJI 2 [0x82; 0x00] = Ret true ∧
  QRinput_check QR_MODE_KANJI 2 [0x82; 0x40] = Ret true ∧
  entry_bits mqr v QR_MODE_KANJI [0x82; 0x00] = entry_bits mqr v QR_MODE_KANJI [0x82; 0x40].
Proof.
  split; [done|]. split; [done|]. unfold entry_bits, chunks. cbn [length chunk_depth].
  assert (H : ∀ d0 d1 : Z, ∀ f, (if (chunk_size v QR_MODE_KANJI =? 0)%nat
      || (2 <=? chunk_size v QR_MODE_KANJI)%nat then [[d0; d1]] else f) = [[d0; d1]]).
  { intros d0 d1 f. replace (2 <=? chunk_size v QR_MODE_KANJI)%nat with true; [by rewrite orb_true_r|].
    symmetry. apply Nat.leb_le. pose proof (maximumWords_bounds QR_MODE_KANJI v eq_refl).
    unfold chunk_size. lia. }
  rewrite !H. by destruct mqr.
Qed.

(** ** Automatic selection of the version *)

Lemma convertData_oversized i :
  mqr i = false → Forall (encodable_entry false (version i)) (head i) →
  QRinput_estimateVersion i = Ret (-1) → 0 ≤ version i →
  8 * QRspec_getDataLength 40 (level i) < Z.of_nat (length (stream false (version i) (head i))) →
  sm_spec caches_ok QRinput_convertData i (λ _ _, False) (λ e _, e = Some ERANGE).
Proof.
  intros Hm Hes Ee Hv Hbig. apply sm_get_bind.
  eapply sm_lift_bind; [by eapply (spec_liftO _ _ (λ x, x = -1))|]. intros ? ->.
  unfold QRinput_getVersion. rewrite (proj2 (Z.ltb_ge _ (-1))) by lia.
  eapply sm_bind with (P := λ _ i', i' = i); [by apply sm_ret|]. intros _ ? ->.
  unfold version_fuel. cbn [convertData_loop].
  eapply sm_bind; [apply createBitStream_spec; by rewrite Hm|]. intros n i' [-> ->].
  rewrite Hm. apply sm_get_bind. cbn [set_head level].
  destruct (getMinimumVersion_spec ((Z.of_nat (length (stream false (version i) (head i))) + 7) `quot` 8)
    (level i)) as [(Hr & Hf & _)|[-> _]].
  - exfalso. pose proof (data_length_mono_le _ 40 (level i) Hr ltac:(lia)) as Hmono.
    rewrite Z.quot_div_nonneg in Hf, Hmono by lia. set (m := Z.of_nat _) in *.
    pose proof (Z.div_mod (m + 7) 8 ltac:(lia)). pose proof (Z.mod_pos_bound (m + 7) 8 ltac:(lia)). lia.
  - by apply sm_lift, spec_raise.
Qed.

(** The data that exactly fills a symbol of version 40 and level L is
    encoded when the caller asks for version 40, but rejected with [ERANGE]
    when the version is left to the library (0): the selection estimates it
    with the short count indicators of version 1, which need twelve segments,
    and gives up. *)
Lemma full_symbol_needs_version data :
  Z.of_nat (length data) = 2953 → Forall is_byte data →
  sm_spec caches_ok QRcode_encodeInput (input_8 40 QR_ECLEVEL_L data)
    (λ c _, code_version c = 40 ∧ reads_as c 40 QR_ECLEVEL_L [(QR_MODE_8, data)]) (λ _ _, False) ∧
  sm_spec caches_ok QRcode_encodeInput (input_8 0 QR_ECLEVEL_L data)
    (λ _ _, False) (λ e _, e = Some ERANGE).
Proof.
  intros Hl Hb. assert (Hne : data ≠ []) by (intros ->; done).
  assert (Hi : ∀ v, 0 ≤ v ≤ 40 → encodable_input (input_8 v QR_ECLEVEL_L data))
    by (intros; by apply input_8_encodable).
  assert (Hst : ∀ v, stream false v (head (input_8 v QR_ECLEVEL_L data))
                     = entry_bits false v QR_MODE_8 data) by (intros; apply app_nil_r).
  split.
  - eapply sm_mono; [apply QRcode_encodeInput_reads; [by apply Hi|by apply Forall_singleton]| |].
    + intros c i' (u & Hu & _ & Hc & _ & Hr). change (version (input_8 40 _ _)) with 40 in Hu.
      assert (u = 40) as -> by lia. split; [done|].
      assert (Es : (head (input_8 40 QR_ECLEVEL_L data) ≫= entry_segments 40) = [(QR_MODE_8, data)]).
      { cbn [head input_8 with_entries set_tail set_head mbind list_bind]. unfold entry_segments.
        cbn [new_entry e_data e_mode]. rewrite chunks_short; [done|].
        pose proof (eq_refl : QRspec_maximumWords QR_MODE_8 40 = 65535). unfold chunk_size. lia. }
      by rewrite Es in Hr.
    + intros e i' Ht. apply too_large_oversized in Ht as (_ & v & Hv & Ho).
      change (version (input_8 40 _ _)) with 40 in Hv. assert (v = 40) as -> by lia.
      specialize (Ho 40 ltac:(lia)). change (level (input_8 40 _ _)) with QR_ECLEVEL_L in Ho.
      change (head (input_8 40 QR_ECLEVEL_L data)) with [new_entry QR_MODE_8 data] in Ho.
      unfold stream in Ho. cbn [mbind list_bind new_entry e_mode e_data] in Ho.
      rewrite app_nil_r, length_entry_bits_short, Hl in Ho by (rewrite ?Hl; done).
      by vm_compute in Ho.
  - apply encodeInput_fails; [done|done|]. apply getByteStream_fails; [done|].
    eapply sm_bind with (P := λ _ i', i' = input_8 0 QR_ECLEVEL_L data); [by apply sm_ret|].
    intros _ ? ->. apply convertData_oversized; [done|apply (ei_entries _ (Hi 0 ltac:(lia)))| |done|].
    + unfold input_8, new_entry. rewrite Hl. by vm_compute.
    + rewrite Hst, length_entry_bits by done.
      replace (length data) with (Z.to_nat 2953) by lia. by vm_compute.
Qed.

Lemma full_symbol_needs_version_witness :
  sm_spec caches_ok QRcode_encodeInput (input_8 40 QR_ECLEVEL_L (replicate (Z.to_nat 2953) 65))
    (λ c _, code_version c = 40 ∧ reads_as c 40 QR_ECLEVEL_L [(QR_MODE_8, replicate (Z.to_nat 2953) 65)])
    (λ _ _, False) ∧
  sm_spec caches_ok QRcode_encodeInput (input_8 0 QR_ECLEVEL_L (replicate (Z.to_nat 2953) 65))
    (λ _ _, False) (λ e _, e = Some ERANGE).
Proof.
  apply (full_symbol_needs_version (replicate (Z.to_nat 2953) 65)).
  - by rewrite length_replicate.
  - by apply Forall_replicate.
Defined.

(** ** Refused allocations *)

(** [QRinput_encodeModeNum] does not look at the result of the call that
    appends the last two digits: when the allocator refuses one request there,
    it reports success although [errno] says [ENOMEM], with a stream that ends
    after the character count. *)
Lemma encodeModeNum_loses_digits :
  let w := World (λ i, negb (i =? 7)%nat) 0 None no_caches in
  let '(r, w') := QRinput_encodeModeNum (new_entry QR_MODE_NUM [49; 50]) 1 false w in
  r = Ret (bs_of (to_bits 4 QRSPEC_MODEID_NUM ++ to_bits 10 2)) ∧
  r ≠ Ret (bs_of (entry_bits false 1 QR_MODE_NUM [49; 50])) ∧
  refused w w' ∧ errno w' = Some ENOMEM.
Proof.
  cbv zeta. set (w := World _ _ _ _).
  assert (E : QRinput_encodeModeNum (new_entry QR_MODE_NUM [49; 50]) 1 false w
    = (Ret (bs_of (to_bits 4 QRSPEC_MODEID_NUM ++ to_bits 10 2)),
       World (alloc_ok w) 8 (Some ENOMEM) no_caches)) by reflexivity.
  rewrite E. split; [done|]. split; [by vm_compute|]. split; [|done].
  exists 7%nat. split; [cbn; lia|done].
Qed.
