(* ===== verification/SphTypes.v ===== *)
(** * Words of 64 bits (sphlib/sph_types.h)

    The macros and conversions of sph_types.h that the hash functions use, on
    the path for 64-bit little-endian machines, and their laws. *)

From S2P Require Import Prelude.

Declare Scope sph_scope.
Infix "⊕" := Z.lxor (at level 50, left associativity) : sph_scope.
#[global] Open Scope sph_scope.

(** ** Definitions *)

(** [(sph_u64)x] and [SPH_T64(x)]. *)
Definition u64 (x : Z) : Z := x `mod` 2 ^ 64.

(** [SPH_ROTL64(x, n)]. *)
Definition SPH_ROTL64 (x n : Z) : Z := u64 (Z.lor (Z.shiftl x n) (Z.shiftr x (64 - n))).

(** [sph_dec64le_aligned] of eight bytes, [sph_enc64le] and [sph_enc64be]. *)
Definition dec64le (l : list Z) : Z :=
  foldr (λ b w, Z.lor b (Z.shiftl w 8)) 0 l.

Definition enc64le (x : Z) : list Z :=
  (λ i, Z.land (Z.shiftr x (8 * i)) 0xFF) <$> [0; 1; 2; 3; 4; 5; 6; 7].

Definition sph_enc64be (x : Z) : list Z :=
  (λ i, Z.land (Z.shiftr x i) 0xFF) <$> [56; 48; 40; 32; 24; 16; 8; 0].

(** ** Words and their bytes *)

Definition is_word (w : Z) : Prop := 0 ≤ w < 2 ^ 64.

#[export] Instance is_word_dec w : Decision (is_word w).
Proof. unfold is_word. apply _. Defined.

Lemma word_bits w : is_word w ↔ 0 ≤ w ∧ ∀ i, 64 ≤ i → Z.testbit w i = false.
Proof.
  unfold is_word. split.
  - intros [H0 H]. split; [done|]. intros i Hi.
    destruct (decide (w = 0)) as [->|]; [apply Z.testbit_0_l|].
    apply Z.bits_above_log2; [done|].
    apply Z.log2_lt_pow2; [lia|]. pose proof (Z.pow_le_mono_r 2 64 i). lia.
  - intros [H0 H]. split; [done|].
    destruct (decide (w = 0)) as [->|]; [done|].
    apply Z.log2_lt_pow2; [lia|]. destruct (decide (Z.log2 w < 64)); [done|].
    specialize (H (Z.log2 w) ltac:(lia)). rewrite Z.bit_log2 in H by lia. done.
Qed.

Lemma word_lxor a b : is_word a → is_word b → is_word (a ⊕ b).
Proof.
  rewrite !word_bits. intros [Ha Ha'] [Hb Hb']. split; [by apply Z.lxor_nonneg|].
  intros i Hi. by rewrite Z.lxor_spec, Ha', Hb' by done.
Qed.

Lemma byte_lxor i a b :
  Z.land (Z.shiftr (a ⊕ b) i) 0xFF = Z.land (Z.shiftr a i) 0xFF ⊕ Z.land (Z.shiftr b i) 0xFF.
Proof.
  rewrite Z.shiftr_lxor. apply Z.bits_inj'. intros n Hn.
  rewrite !Z.lxor_spec, !Z.land_spec, Z.lxor_spec.
  destruct (Z.testbit (Z.shiftr a i) n), (Z.testbit (Z.shiftr b i) n), (Z.testbit 0xFF n); done.
Qed.

Lemma length_enc64le w : length (enc64le w) = 8%nat.
Proof. done. Qed.

Lemma land_byte x : is_byte (Z.land x 0xFF).
Proof. change 0xFF with (Z.ones 8). rewrite Z.land_ones by lia. apply Z.mod_pos_bound. lia. Qed.

Lemma enc64le_bytes w : Forall is_byte (enc64le w).
Proof. unfold enc64le. apply Forall_fmap, Forall_true. intros i. apply land_byte. Qed.

(** Eight bytes and their word. *)
Lemma dec64le_cons b l :
  is_byte b → Z.land (dec64le (b :: l)) 0xFF = b ∧ Z.shiftr (dec64le (b :: l)) 8 = dec64le l.
Proof.
  intros Hb. unfold is_byte in Hb. cbn [dec64le foldr].
  change (foldr _ 0 l) with (dec64le l). split.
  - rewrite Z.land_lor_distr_l. change 0xFF with (Z.ones 8). rewrite !Z.land_ones by lia.
    rewrite Z.shiftl_mul_pow2, Z.mod_mul, Z.lor_0_r by lia. by rewrite Z.mod_small by lia.
  - rewrite Z.shiftr_lor, Z.shiftr_shiftl_l, Z.sub_diag, Z.shiftl_0_r by lia.
    rewrite (Z.shiftr_div_pow2 b), Z.div_small by lia. done.
Qed.

#[local] Fixpoint le_split (n : nat) (w : Z) : list Z :=
  match n with O => [] | S n => Z.land w 0xFF :: le_split n (Z.shiftr w 8) end.

Lemma enc64le_split w : enc64le w = le_split 8 w.
Proof. unfold enc64le. simpl. by rewrite !Z.shiftr_shiftr by lia. Qed.

Lemma enc64le_dec64le l : length l = 8%nat → Forall is_byte l → enc64le (dec64le l) = l.
Proof.
  intros Hl HF. rewrite enc64le_split, <- Hl. clear Hl.
  induction HF as [|b l Hb _ IH]; [done|]. cbn [length le_split].
  destruct (dec64le_cons b l Hb) as [-> ->]. by rewrite IH.
Qed.

Lemma dec64le_range l : Forall is_byte l → 0 ≤ dec64le l < 2 ^ (8 * Z.of_nat (length l)).
Proof.
  induction 1 as [|b l Hb _ IH]; [simpl; lia|].
  destruct (dec64le_cons b l Hb) as [Hlow Hdiv]. cbn [length].
  replace (8 * Z.of_nat (S (length l))) with (8 * Z.of_nat (length l) + 8) by lia.
  rewrite Z.pow_add_r by lia. rewrite Z.shiftr_div_pow2 in Hdiv by lia.
  change 0xFF with (Z.ones 8) in Hlow. rewrite Z.land_ones in Hlow by lia.
  pose proof (Z.div_mod (dec64le (b :: l)) (2 ^ 8) ltac:(lia)) as E.
  rewrite Hdiv, Hlow in E. unfold is_byte in Hb. lia.
Qed.

Lemma dec64le_word l : length l = 8%nat → Forall is_byte l → is_word (dec64le l).
Proof. intros Hl HF. unfold is_word. pose proof (dec64le_range l HF) as H. by rewrite Hl in H. Qed.

(** The number of blocks, in 64 bits. *)
Lemma sph_enc64be_u64 x :
  sph_enc64be (u64 x) = (λ i, (x `div` 256 ^ i) `mod` 256) <$> [7; 6; 5; 4; 3; 2; 1; 0].
Proof.
  assert (E : ∀ i, 0 ≤ i < 8 → Z.land (Z.shiftr (u64 x) (8 * i)) 0xFF = (x `div` 256 ^ i) `mod` 256).
  { intros i Hi. change 0xFF with (Z.ones 8). rewrite Z.land_ones by lia.
    replace (256 ^ i) with (2 ^ (8 * i)) by (by rewrite Z.pow_mul_r by lia).
    rewrite <- Z.shiftr_div_pow2 by lia. change 256 with (2 ^ 8).
    apply Z.bits_inj'. intros j Hj. destruct (decide (j < 8)).
    - rewrite !Z.mod_pow2_bits_low, !Z.shiftr_spec by lia.
      unfold u64. by rewrite Z.mod_pow2_bits_low by lia.
    - by rewrite !Z.mod_pow2_bits_high by lia. }
  unfold sph_enc64be. cbn [fmap list_fmap].
  by rewrite <- !E by lia.
Qed.

Lemma sph_enc64be_bytes x : Forall is_byte (sph_enc64be x).
Proof. apply Forall_fmap, Forall_true. intros i. apply land_byte. Qed.
