(* ===== verification/SphBuffer.v ===== *)
(** * The buffers of the hash functions

    The hash functions of sphlib collect the bytes they are fed with in a buffer
    of their context, in the same way: [groestl_small_core], [groestl_big_core]
    and [keccak_core] have the text of [feed] below and differ in the size of a
    block and in what they do with a full one. *)

From S2P Require Import Prelude.

(** [memcpy] from [n] bytes of [data], and to offset [off] of a buffer. *)
Definition load (data : list Z) (off n : Z) : outcome (list Z) :=
  if (0 <=? off) && (0 <=? n) && (off + n <=? Z.of_nat (length data))
  then mret (take (Z.to_nat n) (drop (Z.to_nat off) data)) else Undef.

Definition store (b : list Z) (off : Z) (bytes : list Z) : outcome (list Z) :=
  if (0 <=? off) && (off + Z.of_nat (length bytes) <=? Z.of_nat (length b))
  then mret (take (Z.to_nat off) b ++ bytes ++ drop (Z.to_nat off + length bytes) b) else Undef.

Section feed.
Context {S : Type} (size : Z) (block : list Z → S → S).

(** The loop [while (len > 0)]; every iteration consumes a byte. *)
Fixpoint feed_loop (fuel : nat) (b : list Z) (p : Z) (s : S) (data : list Z) (len : Z)
    : outcome (list Z * Z * S) :=
  if len <=? 0 then mret (b, p, s)
  else
    match fuel with
    | O => Undef
    | Datatypes.S fuel =>
      let clen := size - p in
      let clen := if len <? clen then len else clen in
      bytes ← load data 0 clen;
      b ← store b p bytes;
      let p := p + clen in
      let data := drop (Z.to_nat clen) data in
      let len := len - clen in
      if p =? size then feed_loop fuel b 0 (block b s) data len
      else feed_loop fuel b p s data len
    end.

Definition feed (b : list Z) (p : Z) (s : S) (data : list Z) (len : Z)
    : outcome (list Z * Z * S) :=
  if len <? size - p then
    bytes ← load data 0 len;
    b ← store b p bytes;
    mret (b, p + len, s)
  else feed_loop (Z.to_nat len) b p s data len.
End feed.

(** ** Copies *)

Lemma load_in data off n :
  0 ≤ off → 0 ≤ n → off + n ≤ Z.of_nat (length data) →
  load data off n = Ret (take (Z.to_nat n) (drop (Z.to_nat off) data)).
Proof. intros H1 H2 H. unfold load. by replace (_ && _ && _) with true by lia. Qed.

Lemma load_prefix data n :
  0 ≤ n ≤ Z.of_nat (length data) → load data 0 n = Ret (take (Z.to_nat n) data).
Proof. intros H. by rewrite load_in by lia. Qed.

Lemma store_in b off bytes :
  0 ≤ off → off + Z.of_nat (length bytes) ≤ Z.of_nat (length b) →
  store b off bytes
  = Ret (take (Z.to_nat off) b ++ bytes ++ drop (Z.to_nat off + length bytes) b).
Proof. intros H0 H. unfold store. by replace (_ && _) with true by lia. Qed.

(** ** The invariant of a buffer

    A buffer of [cap] bytes collects blocks of [bs] bytes; what happens to a
    full block does not depend on the bytes behind it. *)

Section invariant.
Context {S : Type} (cap bs : nat) (block : list Z → S → S).
Hypothesis bs_pos : (0 < bs ≤ cap)%nat.
Hypothesis block_prefix : ∀ b s, length b = cap → block b s = block (take bs b) s.

(** The state after the first [n] blocks of a message. *)
Fixpoint blocks (n : nat) (s : S) (msg : list Z) : S :=
  match n with
  | O => s
  | Datatypes.S n => blocks n (block (take bs msg) s) (drop bs msg)
  end.

Lemma blocks_app n s msg x :
  (n * bs ≤ length msg)%nat → blocks n s (msg ++ x) = blocks n s msg.
Proof.
  revert s msg. induction n as [|n IH]; intros s msg Hn; [done|]. cbn [blocks].
  rewrite take_app_le, drop_app_le by lia. apply IH. rewrite length_drop. lia.
Qed.

Lemma blocks_last n s msg :
  blocks (Datatypes.S n) s msg = block (take bs (drop (n * bs) msg)) (blocks n s msg).
Proof.
  revert s msg. induction n as [|n IH]; intros s msg; [done|].
  change (blocks (Datatypes.S (Datatypes.S n)) s msg)
    with (blocks (Datatypes.S n) (block (take bs msg) s) (drop bs msg)).
  rewrite IH, drop_drop. cbn [blocks]. do 3 f_equal; lia.
Qed.

(** Started in [s0], a buffer [b] with fill level [p] and the state [s] have
    absorbed the bytes [msg]. *)
Record fed (s0 : S) (b : list Z) (p : Z) (s : S) (msg : list Z) : Prop := Fed {
  fed_buffer : length b = cap;
  fed_level : p = Z.of_nat (length msg mod bs);
  fed_partial : take (length msg mod bs) b = drop (length msg / bs * bs) msg;
  fed_state : s = blocks (length msg / bs) s0 msg
}.

Lemma fed_start s0 b : length b = cap → fed s0 b 0 s0 [].
Proof.
  intros Hb. split; cbn [length]; rewrite ?(Nat.div_small 0), ?(Nat.mod_small 0) by lia; done.
Qed.

(** [memcpy] into the free part of the buffer. *)
Lemma fed_store s0 b p s msg chunk :
  fed s0 b p s msg → (length msg mod bs + length chunk ≤ bs)%nat →
  ∃ b', store b p chunk = Ret b' ∧ length b' = cap
    ∧ take (length msg mod bs + length chunk) b' = drop (length msg / bs * bs) (msg ++ chunk).
Proof.
  intros [Hb -> Ht _] Hc. rewrite store_in by lia. rewrite Nat2Z.id.
  eexists. split; [done|].
  assert (Hl : length (take (length msg mod bs) b) = (length msg mod bs)%nat)
    by (rewrite length_take; lia).
  split.
  - rewrite !length_app, Hl, length_drop. lia.
  - rewrite (app_assoc _ chunk), take_app_le by (rewrite length_app, Hl; lia).
    rewrite firstn_all2 by (rewrite length_app, Hl; lia).
    rewrite Ht, drop_app_le; [done|].
    pose proof (Nat.div_mod_eq (length msg) bs). lia.
Qed.

(** After a store that leaves room in the block. *)
Lemma fed_room s0 b p s msg chunk b' :
  fed s0 b p s msg → (length msg mod bs + length chunk < bs)%nat → length b' = cap →
  take (length msg mod bs + length chunk) b' = drop (length msg / bs * bs) (msg ++ chunk) →
  fed s0 b' (p + Z.of_nat (length chunk)) s (msg ++ chunk).
Proof.
  intros [Hb -> Hp ->] Hl Hb' Ht. pose proof (Nat.div_mod_eq (length msg) bs) as E.
  assert (Eq : (length (msg ++ chunk) / bs = length msg / bs)%nat).
  { rewrite length_app. symmetry.
    apply (Nat.div_unique _ _ _ (length msg mod bs + length chunk)); lia. }
  assert (Em : (length (msg ++ chunk) mod bs = length msg mod bs + length chunk)%nat).
  { rewrite length_app. symmetry. apply (Nat.mod_unique _ _ (length msg / bs)); lia. }
  split; rewrite ?Eq, ?Em; [done|lia|done|].
  by rewrite blocks_app by lia.
Qed.

(** After a store that completes the block. *)
Lemma fed_block s0 b p s msg chunk b' :
  fed s0 b p s msg → (length msg mod bs + length chunk = bs)%nat → length b' = cap →
  take (length msg mod bs + length chunk) b' = drop (length msg / bs * bs) (msg ++ chunk) →
  fed s0 b' 0 (block b' s) (msg ++ chunk).
Proof.
  intros [Hb -> Hp ->] Hl Hb' Ht. pose proof (Nat.div_mod_eq (length msg) bs) as E.
  assert (Eq : (length (msg ++ chunk) / bs = Datatypes.S (length msg / bs))%nat).
  { rewrite length_app. symmetry. apply (Nat.div_unique _ _ _ 0); lia. }
  assert (Em : (length (msg ++ chunk) mod bs = 0)%nat).
  { rewrite length_app. symmetry. apply (Nat.mod_unique _ _ (Datatypes.S (length msg / bs))); lia. }
  rewrite Hl in Ht. split; rewrite ?Eq, ?Em; [done|done| |].
  - rewrite take_0. symmetry. apply drop_ge. rewrite length_app. lia.
  - rewrite block_prefix, Ht, blocks_last, blocks_app by (done || lia).
    f_equal. symmetry. apply firstn_all2. rewrite length_drop, length_app. lia.
Qed.

(** ** Feeding *)

Lemma feed_loop_spec fuel s0 b p s msg data len :
  fed s0 b p s msg → 0 ≤ len ≤ Z.of_nat (length data) → len ≤ Z.of_nat fuel →
  ∃ b' p' s', feed_loop (Z.of_nat bs) block fuel b p s data len = Ret (b', p', s')
    ∧ fed s0 b' p' s' (msg ++ take (Z.to_nat len) data).
Proof.
  revert b p s msg data len.
  induction fuel as [|fuel IH]; intros b p s msg data len A Hl Hfuel; cbn [feed_loop].
  { replace (len <=? 0) with true by lia. replace len with 0 by lia.
    rewrite app_nil_r. by do 3 eexists. }
  destruct (Z.leb_spec len 0).
  { replace len with 0 by lia. rewrite app_nil_r. by do 3 eexists. }
  pose proof (Nat.mod_upper_bound (length msg) bs ltac:(lia)).
  pose proof (fed_level _ _ _ _ _ A) as Hptr.
  set (clen := if len <? Z.of_nat bs - p then len else Z.of_nat bs - p).
  assert (Hclen : 0 < clen ≤ len ∧ clen ≤ Z.of_nat bs - p)
    by (unfold clen; case_bool; lia). clearbody clen.
  rewrite load_prefix by lia. cbn [mbind outcome_bind].
  assert (Hcl : length (take (Z.to_nat clen) data) = Z.to_nat clen) by (rewrite length_take; lia).
  assert (Esplit : take (Z.to_nat len) data = take (Z.to_nat clen) data
    ++ take (Z.to_nat (len - clen)) (drop (Z.to_nat clen) data)).
  { by rewrite take_take_drop, <- Z2Nat.inj_add, Zplus_minus by lia. }
  destruct (fed_store _ _ _ _ _ (take (Z.to_nat clen) data) A ltac:(lia)) as (b' & -> & Hb & Ht).
  cbn [mbind outcome_bind]. rewrite Esplit, app_assoc.
  destruct (Z.eqb_spec (p + clen) (Z.of_nat bs)); (apply IH; [|rewrite length_drop; lia|lia]).
  - eapply fed_block; (done || lia).
  - replace (p + clen) with (p + Z.of_nat (length (take (Z.to_nat clen) data))) by lia.
    eapply fed_room; (done || lia).
Qed.

Lemma feed_spec s0 b p s msg data len :
  fed s0 b p s msg → 0 ≤ len ≤ Z.of_nat (length data) →
  ∃ b' p' s', feed (Z.of_nat bs) block b p s data len = Ret (b', p', s')
    ∧ fed s0 b' p' s' (msg ++ take (Z.to_nat len) data).
Proof.
  intros A Hl. unfold feed.
  destruct (Z.ltb_spec len (Z.of_nat bs - p)) as [Hlt|]; [|apply feed_loop_spec; (done || lia)].
  rewrite (fed_level _ _ _ _ _ A) in Hlt.
  assert (Hcl : length (take (Z.to_nat len) data) = Z.to_nat len) by (rewrite length_take; lia).
  rewrite load_prefix by lia. cbn [mbind outcome_bind].
  destruct (fed_store _ _ _ _ _ (take (Z.to_nat len) data) A ltac:(lia)) as (b' & -> & Hb & Ht).
  cbn [mbind outcome_bind]. do 3 eexists. split; [done|].
  replace (p + len) with (p + Z.of_nat (length (take (Z.to_nat len) data))) by lia.
  eapply fed_room; (done || lia).
Qed.
End invariant.
