(* ===== verification/Groestl.v ===== *)
(** * Groestl (sphlib/groestl.c)

    The hash functions Groestl-224, 256, 384 and 512 in the 64-bit
    implementation with tables for little-endian machines. A context may be fed
    with data in pieces. *)

From S2P Require Import Prelude CModel SphTypes SphBuffer GroestlTables.

(** ** Words *)

(** [B64_0(x)] to [B64_7(x)]; the last one needs no mask. *)
Definition B64 (i : nat) (x : Z) : Z :=
  if (i =? 7)%nat then Z.shiftr x 56 else Z.land (Z.shiftr x (8 * Z.of_nat i)) 0xFF.

Definition PC64 (j r : Z) : Z := u64 (j + r).
Definition QC64 (j r : Z) : Z := u64 (Z.shiftl r 56) ⊕ u64 (Z.lnot (u64 (Z.shiftl j 56))).

(** ** Rounds

    A state is the list of its columns, 8 or 16 words. [RSTT] and [RBTT] are
    the same macro. *)

Definition RSTT (a : list Z) (b0 b1 b2 b3 b4 b5 b6 b7 : nat) : Z :=
  nthZ T0 (B64 0 (a !!! b0))
  ⊕ nthZ T1 (B64 1 (a !!! b1))
  ⊕ nthZ T2 (B64 2 (a !!! b2))
  ⊕ nthZ T3 (B64 3 (a !!! b3))
  ⊕ nthZ T4 (B64 4 (a !!! b4))
  ⊕ nthZ T5 (B64 5 (a !!! b5))
  ⊕ nthZ T6 (B64 6 (a !!! b6))
  ⊕ nthZ T7 (B64 7 (a !!! b7)).

Definition RBTT : list Z → nat → nat → nat → nat → nat → nat → nat → nat → Z := RSTT.

(** Column [j] gets the constant [f (0x10 * j) r]. *)
Definition add_constants (f : Z → Z → Z) (r : Z) (a : list Z) : list Z :=
  imap (λ j w, w ⊕ f (0x10 * Z.of_nat j) r) a.

Definition ROUND_SMALL_P (a : list Z) (r : Z) : list Z :=
  let a := add_constants PC64 r a in
  [RSTT a 0 1 2 3 4 5 6 7;
   RSTT a 1 2 3 4 5 6 7 0;
   RSTT a 2 3 4 5 6 7 0 1;
   RSTT a 3 4 5 6 7 0 1 2;
   RSTT a 4 5 6 7 0 1 2 3;
   RSTT a 5 6 7 0 1 2 3 4;
   RSTT a 6 7 0 1 2 3 4 5;
   RSTT a 7 0 1 2 3 4 5 6].

Definition ROUND_SMALL_Q (a : list Z) (r : Z) : list Z :=
  let a := add_constants QC64 r a in
  [RSTT a 1 3 5 7 0 2 4 6;
   RSTT a 2 4 6 0 1 3 5 7;
   RSTT a 3 5 7 1 2 4 6 0;
   RSTT a 4 6 0 2 3 5 7 1;
   RSTT a 5 7 1 3 4 6 0 2;
   RSTT a 6 0 2 4 5 7 1 3;
   RSTT a 7 1 3 5 6 0 2 4;
   RSTT a 0 2 4 6 7 1 3 5].

Definition ROUND_BIG_P (a : list Z) (r : Z) : list Z :=
  let a := add_constants PC64 r a in
  [RBTT a 0 1 2 3 4 5 6 11;
   RBTT a 1 2 3 4 5 6 7 12;
   RBTT a 2 3 4 5 6 7 8 13;
   RBTT a 3 4 5 6 7 8 9 14;
   RBTT a 4 5 6 7 8 9 10 15;
   RBTT a 5 6 7 8 9 10 11 0;
   RBTT a 6 7 8 9 10 11 12 1;
   RBTT a 7 8 9 10 11 12 13 2;
   RBTT a 8 9 10 11 12 13 14 3;
   RBTT a 9 10 11 12 13 14 15 4;
   RBTT a 10 11 12 13 14 15 0 5;
   RBTT a 11 12 13 14 15 0 1 6;
   RBTT a 12 13 14 15 0 1 2 7;
   RBTT a 13 14 15 0 1 2 3 8;
   RBTT a 14 15 0 1 2 3 4 9;
   RBTT a 15 0 1 2 3 4 5 10].

Definition ROUND_BIG_Q (a : list Z) (r : Z) : list Z :=
  let a := add_constants QC64 r a in
  [RBTT a 1 3 5 11 0 2 4 6;
   RBTT a 2 4 6 12 1 3 5 7;
   RBTT a 3 5 7 13 2 4 6 8;
   RBTT a 4 6 8 14 3 5 7 9;
   RBTT a 5 7 9 15 4 6 8 10;
   RBTT a 6 8 10 0 5 7 9 11;
   RBTT a 7 9 11 1 6 8 10 12;
   RBTT a 8 10 12 2 7 9 11 13;
   RBTT a 9 11 13 3 8 10 12 14;
   RBTT a 10 12 14 4 9 11 13 15;
   RBTT a 11 13 15 5 10 12 14 0;
   RBTT a 12 14 0 6 11 13 15 1;
   RBTT a 13 15 1 7 12 14 0 2;
   RBTT a 14 0 2 8 13 15 1 3;
   RBTT a 15 1 3 9 14 0 2 4;
   RBTT a 0 2 4 10 15 1 3 5].

(** ** Permutations

    The loops [for (r = 0; r < n; r += 2)] with two rounds in their body. *)

Definition rounds (ROUND : list Z → Z → list Z) (rs : list Z) (a : list Z) : list Z :=
  foldl (λ a r, ROUND (ROUND a (r + 0)) (r + 1)) a rs.

Definition PERM_SMALL_P : list Z → list Z := rounds ROUND_SMALL_P [0; 2; 4; 6; 8].
Definition PERM_SMALL_Q : list Z → list Z := rounds ROUND_SMALL_Q [0; 2; 4; 6; 8].
Definition PERM_BIG_P : list Z → list Z := rounds ROUND_BIG_P [0; 2; 4; 6; 8; 10; 12].
Definition PERM_BIG_Q : list Z → list Z := rounds ROUND_BIG_Q [0; 2; 4; 6; 8; 10; 12].

(** ** Compression *)

(** The words of a buffer. *)
Definition read_words (n : nat) (buf : list Z) : list Z :=
  (λ u, dec64le (take 8 (drop (8 * u) buf))) <$> seq 0 n.

Definition xor_words (a b : list Z) : list Z := zip_with Z.lxor a b.

Definition COMPRESS_SMALL (buf H : list Z) : list Z :=
  let m := read_words 8 buf in
  let g := xor_words m H in
  let g := PERM_SMALL_P g in
  let m := PERM_SMALL_Q m in
  xor_words H (xor_words g m).

Definition FINAL_SMALL (H : list Z) : list Z := xor_words H (PERM_SMALL_P H).

Definition COMPRESS_BIG (buf H : list Z) : list Z :=
  let m := read_words 16 buf in
  let g := xor_words m H in
  let g := PERM_BIG_P g in
  let m := PERM_BIG_Q m in
  xor_words H (xor_words g m).

Definition FINAL_BIG (H : list Z) : list Z := xor_words H (PERM_BIG_P H).

(** ** Contexts

    [sph_groestl_small_context] and [sph_groestl_big_context] differ in the
    sizes of [buf] (64 and 128 bytes) and [wide] (8 and 16 words). *)
Record groestl_context := MkContext {
  buf : list Z;
  ptr : Z;
  wide : list Z;
  count : Z
}.

(** The two variants of the functions below have the same text but for the
    macros and numbers in this record: the size of [buf], the words of the
    state, those of the digest, the size of [pad]. *)
Record variant := MkVariant {
  v_size : Z;
  v_words : nat;
  v_out : nat;
  v_pad : Z;
  COMPRESS : list Z → list Z → list Z;
  FINAL : list Z → list Z
}.

Definition small : variant := MkVariant 64 8 4 72 COMPRESS_SMALL FINAL_SMALL.
Definition big : variant := MkVariant 128 16 8 136 COMPRESS_BIG FINAL_BIG.

Section functions.
Context (v : variant).

Definition init (sc : groestl_context) (out_size : Z) : groestl_context :=
  MkContext (buf sc) 0
    (replicate (v_words v - 1) 0
     ++ [Z.lor (u64 (Z.shiftl (Z.land out_size 0xFF) 56)) (u64 (Z.shiftl (Z.land out_size 0xFF00) 40))])
    0.

Definition core (sc : groestl_context) (data : list Z) (len : Z) : outcome groestl_context :=
  '(b, p, (H, cnt)) ← feed (v_size v) (λ b '(H, cnt), (COMPRESS v b H, u64 (cnt + 1)))
                        (buf sc) (ptr sc) (wide sc, count sc) data len;
  mret (MkContext b p H cnt).

(** The digest and the context afterwards. Writing more than the bytes of
    [pad] would overflow it. *)
Definition close (sc : groestl_context) (ub n out_len : Z) : outcome (list Z * groestl_context) :=
  let z := Z.shiftr 0x80 n in
  let pad0 := Z.land (Z.lor (Z.land ub (u32 (- z))) z) 0xFF in
  let '(pad_len, cnt) :=
    if ptr sc <? v_size v - 8 then (v_size v - ptr sc, u64 (count sc + 1))
    else (2 * v_size v - ptr sc, u64 (count sc + 2)) in
  if (pad_len <? 9) || (v_pad v <? pad_len) then Undef
  else
    let pad := pad0 :: replicate (Z.to_nat (pad_len - 9)) 0 ++ sph_enc64be cnt in
    sc ← core sc pad pad_len;
    let H := FINAL v (wide sc) in
    let digest := seq 0 (v_out v) ≫= λ u, enc64le (H !!! (u + v_out v)%nat) in
    dst ← load digest (8 * Z.of_nat (v_out v) - out_len) out_len;
    mret (dst, init sc (u32 (Z.shiftl out_len 3))).
End functions.

Definition groestl_small_init : groestl_context → Z → groestl_context := init small.
Definition groestl_small_core : groestl_context → list Z → Z → outcome groestl_context := core small.
Definition groestl_small_close
    : groestl_context → Z → Z → Z → outcome (list Z * groestl_context) := close small.
Definition groestl_big_init : groestl_context → Z → groestl_context := init big.
Definition groestl_big_core : groestl_context → list Z → Z → outcome groestl_context := core big.
Definition groestl_big_close
    : groestl_context → Z → Z → Z → outcome (list Z * groestl_context) := close big.

(** ** The functions of sph_groestl.h *)

Definition sph_groestl224_init (cc : groestl_context) := groestl_small_init cc 224.
Definition sph_groestl224 := groestl_small_core.
Definition sph_groestl224_close (cc : groestl_context) := groestl_small_close cc 0 0 28.
Definition sph_groestl224_addbits_and_close (cc : groestl_context) (ub n : Z) :=
  groestl_small_close cc ub n 28.

Definition sph_groestl256_init (cc : groestl_context) := groestl_small_init cc 256.
Definition sph_groestl256 := groestl_small_core.
Definition sph_groestl256_close (cc : groestl_context) := groestl_small_close cc 0 0 32.
Definition sph_groestl256_addbits_and_close (cc : groestl_context) (ub n : Z) :=
  groestl_small_close cc ub n 32.

Definition sph_groestl384_init (cc : groestl_context) := groestl_big_init cc 384.
Definition sph_groestl384 := groestl_big_core.
Definition sph_groestl384_close (cc : groestl_context) := groestl_big_close cc 0 0 48.
Definition sph_groestl384_addbits_and_close (cc : groestl_context) (ub n : Z) :=
  groestl_big_close cc ub n 48.

Definition sph_groestl512_init (cc : groestl_context) := groestl_big_init cc 512.
Definition sph_groestl512 := groestl_big_core.
Definition sph_groestl512_close (cc : groestl_context) := groestl_big_close cc 0 0 64.
Definition sph_groestl512_addbits_and_close (cc : groestl_context) (ub n : Z) :=
  groestl_big_close cc ub n 64.
