(* ===== verification/GroestlSpec.v ===== *)
(** * The hash function of the Groestl submission

    A specification on bytes, independent of tables and words: the AES S-box
    from inversion in the field with 256 elements, the four round
    transformations on a matrix of bytes, the compression function, padding,
    iteration and output transformation. *)

From S2P Require Import Prelude.

(** ** The field: polynomials modulo x^8 + x^4 + x^3 + x + 1 *)

Definition xtime (x : Z) : Z := if x <? 128 then 2 * x else Z.lxor (2 * x) 0x11B.

Definition aes_mul (a b : Z) : Z :=
  foldr (λ i acc, Z.lxor (if Z.testbit a i then Nat.iter (Z.to_nat i) xtime b else 0) acc) 0
    [0; 1; 2; 3; 4; 5; 6; 7].

(** The inverse is the power 254; it maps 0 to 0. *)
Definition aes_inv (x : Z) : Z := Nat.iter 253 (aes_mul x) x.

Definition rotl8 (x n : Z) : Z := Z.land (Z.lor (Z.shiftl x n) (Z.shiftr x (8 - n))) 0xFF.

(** The S-box of AES. *)
Definition sbox (x : Z) : Z :=
  let y := aes_inv x in
  Z.lxor (Z.lxor (Z.lxor (Z.lxor (Z.lxor y (rotl8 y 1)) (rotl8 y 2)) (rotl8 y 3)) (rotl8 y 4)) 0x63.

(** ** States

    The columns of a matrix with 8 rows and 8 or 16 columns. *)

Definition column := list Z.
Definition matrix := list column.

Definition xor_column (a b : column) : column := zip_with Z.lxor a b.
Definition xor_matrix (a b : matrix) : matrix := zip_with xor_column a b.

(** AddRoundConstant of P: row 0 of column [c] gets [16 c] and the round. *)
Definition AddRoundConstant_P (r : Z) (m : matrix) : matrix :=
  imap (λ c col, xor_column col [Z.lxor (16 * Z.of_nat c) r; 0; 0; 0; 0; 0; 0; 0]) m.

(** AddRoundConstant of Q: all bytes are reversed, row 7 gets the constant. *)
Definition AddRoundConstant_Q (r : Z) (m : matrix) : matrix :=
  imap (λ c col, xor_column col [0xFF; 0xFF; 0xFF; 0xFF; 0xFF; 0xFF; 0xFF;
                                 Z.lxor 0xFF (Z.lxor (16 * Z.of_nat c) r)]) m.

Definition SubBytes (m : matrix) : matrix := map (map sbox) m.

(** Row [i] is rotated to the left by [shifts !!! i]. *)
Definition ShiftBytes (shifts : list nat) (m : matrix) : matrix :=
  (λ c, imap (λ i s, (m !!! ((c + s) mod length m)%nat) !!! i) shifts) <$> seq 0 (length m).

(** The circulant matrix of MixBytes. *)
Definition mix_coefficient (k i : nat) : Z :=
  [2; 2; 3; 4; 5; 3; 5; 7] !!! ((i + 8 - k) mod 8)%nat.

Definition mix_column (col : column) : column :=
  (λ k, foldr Z.lxor 0 (imap (λ i x, aes_mul (mix_coefficient k i) x) col)) <$> seq 0 8.

Definition MixBytes (m : matrix) : matrix := map mix_column m.

(** ** Permutations *)

Definition round_P (shifts : list nat) (m : matrix) (r : Z) : matrix :=
  MixBytes (ShiftBytes shifts (SubBytes (AddRoundConstant_P r m))).

Definition round_Q (shifts : list nat) (m : matrix) (r : Z) : matrix :=
  MixBytes (ShiftBytes shifts (SubBytes (AddRoundConstant_Q r m))).

(** ** The hash function *)

Record parameters := MkParameters {
  columns : nat;
  nrounds : Z;
  shifts_P : list nat;
  shifts_Q : list nat
}.

(** Groestl-224 and 256 work on 512 bits, Groestl-384 and 512 on 1024. *)
Definition groestl_512 : parameters := MkParameters 8 10 [0; 1; 2; 3; 4; 5; 6; 7]%nat [1; 3; 5; 7; 0; 2; 4; 6]%nat.
Definition groestl_1024 : parameters := MkParameters 16 14 [0; 1; 2; 3; 4; 5; 6; 11]%nat [1; 3; 5; 11; 0; 2; 4; 6]%nat.

Section hash.
Context (p : parameters).

Definition perm_P (m : matrix) : matrix := foldl (round_P (shifts_P p)) m (range 0 (nrounds p)).
Definition perm_Q (m : matrix) : matrix := foldl (round_Q (shifts_Q p)) m (range 0 (nrounds p)).

Definition block_size : nat := 8 * columns p.

(** A block of bytes as a matrix, column by column. *)
Definition to_matrix (block : list Z) : matrix :=
  (λ c, take 8 (drop (8 * c) block)) <$> seq 0 (columns p).

(** f(h, m) = P(h + m) + Q(m) + h. *)
Definition compression (h : matrix) (block : list Z) : matrix :=
  let m := to_matrix block in
  xor_matrix h (xor_matrix (perm_P (xor_matrix m h)) (perm_Q m)).

(** All blocks of a message whose length is a multiple of the block size. *)
Fixpoint chain (n : nat) (h : matrix) (msg : list Z) : matrix :=
  match n with
  | O => h
  | S n => chain n (compression h (take block_size msg)) (drop block_size msg)
  end.

(** The digest size in bits, in the last two bytes. *)
Definition initial_value (bits : Z) : matrix :=
  replicate (columns p - 1) (replicate 8 0) ++ [replicate 6 0 ++ [bits `div` 256; bits `mod` 256]].

(** A message of whole bytes and the [n] high bits of [ub] is followed by a
    one bit, zero bits, and the number of blocks in 64 bits. *)
Definition last_byte (ub : Z) (n : nat) : Z :=
  of_bits (take n (to_bits 8 ub) ++ [1] ++ replicate (7 - n) 0).

Definition padded_blocks (len : nat) : nat := Nat.div (len + 9 + block_size - 1) block_size.

Definition padding (len : nat) (ub : Z) (n : nat) : list Z :=
  let blocks := padded_blocks len in
  last_byte ub n :: replicate (blocks * block_size - len - 9) 0
  ++ ((λ i, (Z.of_nat blocks `div` 256 ^ i) `mod` 256) <$> [7; 6; 5; 4; 3; 2; 1; 0]).

(** The output transformation keeps the last [out_len] bytes of P(h) + h. *)
Definition output (h : matrix) (out_len : nat) : list Z :=
  let bytes := mjoin (xor_matrix h (perm_P h)) in
  drop (length bytes - out_len) bytes.

Definition groestl (out_len : nat) (msg : list Z) (ub : Z) (n : nat) : list Z :=
  let padded := msg ++ padding (length msg) ub n in
  output (chain (padded_blocks (length msg)) (initial_value (8 * Z.of_nat out_len)) padded) out_len.
End hash.
