(* ===== verification/GroestlTheory.v ===== *)
(** * The tables and macros of groestl.c against the specification

    A state of the code is a list of words, one per column, whose bytes in
    memory are the columns of the matrix of the specification. The tables, the
    round macros, the permutations and the compression macros are related to
    the byte-level functions of GroestlSpec. *)

From S2P Require Import Prelude CModel SphTypes SphBuffer GroestlTables Groestl GroestlSpec.

(** ** States *)

(** The columns of a state. *)
Definition cols (a : list Z) : matrix := map enc64le a.

Lemma enc64le_lxor a b : enc64le (a ⊕ b) = xor_column (enc64le a) (enc64le b).
Proof. unfold enc64le, xor_column. simpl. by rewrite !byte_lxor. Qed.

(** The selectors of the macros are the bytes of the word. *)
Lemma B64_byte i w : (i < 8)%nat → is_word w → enc64le w !! i = Some (B64 i w).
Proof.
  intros Hi Hw. unfold B64, enc64le.
  do 8 (destruct i as [|i]; [try done|]); [|lia]. cbn [Nat.eqb fmap list_fmap lookup list_lookup].
  f_equal. change 0xFF with (Z.ones 8). rewrite Z.land_ones by lia.
  apply Z.mod_small. rewrite Z.shiftr_div_pow2 by lia. unfold is_word in Hw.
  split; [apply Z.div_pos; lia|apply Z.div_lt_upper_bound; lia].
Qed.

Lemma B64_range i w : (i < 8)%nat → is_word w → is_byte (B64 i w).
Proof.
  intros Hi Hw. pose proof (B64_byte i w Hi Hw) as E.
  pose proof (enc64le_bytes w) as H. rewrite Forall_lookup in H. by apply (H i).
Qed.

(** ** The tables

    Entry [x] of table [i] is the contribution of a byte [x] in row [i] to the
    column that MixBytes produces from the substituted bytes. *)

Definition tables : list (list Z) := [T0; T1; T2; T3; T4; T5; T6; T7].

Definition table_entry (i : nat) (x : Z) : Z := nthZ (tables !!! i) x.

(** The check for a byte [x] whose substitute is [s]. *)
Definition table_entry_ok (x s : Z) (i : nat) : bool :=
  bool_decide (is_word (table_entry i x))
  && bool_decide (enc64le (table_entry i x) = (λ k, aes_mul (mix_coefficient k i) s) <$> seq 0 8).

Definition table_row_ok (x : Z) : bool :=
  let s := sbox x in forallb (table_entry_ok x s) (seq 0 8).

Lemma tables_checked : all_range 0 256 table_row_ok = true.
Proof. vm_compute. reflexivity. Qed.

Lemma table_spec i x : (i < 8)%nat → is_byte x →
  is_word (table_entry i x)
  ∧ enc64le (table_entry i x) = (λ k, aes_mul (mix_coefficient k i) (sbox x)) <$> seq 0 8.
Proof.
  intros Hi Hx. pose proof (all_range_spec 0 256 table_row_ok tables_checked x Hx) as H.
  unfold table_row_ok in H. rewrite forallb_forall in H.
  specialize (H i (proj2 (in_seq 8 0 i) (conj (Nat.le_0_l i) Hi))).
  apply andb_true_iff in H as [H1 H2].
  apply bool_decide_eq_true in H1, H2. by split.
Qed.

(** ** One column of a round *)

(** The column whose row [i] is byte [i] of word [b_i]. *)
Definition gather (a : list Z) (bs : list nat) : column := imap (λ i b, B64 i (a !!! b)) bs.

Definition in_state (a : list Z) (b : nat) : Prop := is_word (a !!! b).

Definition RSTT_of (a : list Z) (bs : list nat) : Z :=
  match bs with
  | [b0; b1; b2; b3; b4; b5; b6; b7] => RSTT a b0 b1 b2 b3 b4 b5 b6 b7
  | _ => 0
  end.

Lemma xor_column_map {A} (f g : A → Z) l :
  xor_column (f <$> l) (g <$> l) = (λ k, f k ⊕ g k) <$> l.
Proof. unfold xor_column. induction l as [|x l IH]; [done|]. cbn. f_equal. exact IH. Qed.

Lemma RSTT_spec a bs :
  length bs = 8%nat → Forall (in_state a) bs →
  is_word (RSTT_of a bs) ∧ enc64le (RSTT_of a bs) = mix_column (map sbox (gather a bs)).
Proof.
  intros Hl HF. do 9 (destruct bs as [|? bs]; [try discriminate Hl|]); [|discriminate Hl].
  clear Hl. unfold in_state in HF.
  repeat (rewrite Forall_cons in HF; destruct HF as [? HF]). clear HF.
  pose proof (λ i b Hi Hb, table_spec i (B64 i (a !!! b)) Hi (B64_range i _ Hi Hb)) as T.
  unfold RSTT_of, RSTT.
  repeat match goal with |- context [nthZ ?t (B64 ?i (a !!! ?b))] =>
    change (nthZ t (B64 i (a !!! b))) with (table_entry i (B64 i (a !!! b))) end.
  split.
  - repeat apply word_lxor; apply T; (lia || done).
  - rewrite !enc64le_lxor.
    rewrite !(λ i b Hi Hb, proj2 (T i b Hi Hb)) by (lia || done).
    rewrite !xor_column_map. unfold mix_column, gather.
    apply list_fmap_ext. intros _ k _. cbn [imap map foldr compose].
    by rewrite Z.lxor_0_r, !Z.lxor_assoc.
Qed.

(** ** Rounds *)

(** A state of [n] words. *)
Definition words (n : nat) (a : list Z) : Prop := length a = n ∧ Forall is_word a.

Lemma words_in_state n a b : words n a → (b < n)%nat → in_state a b.
Proof.
  intros [<- HF] Hb. unfold in_state.
  destruct (lookup_lt_is_Some_2 a b Hb) as [w E].
  rewrite (list_lookup_total_correct _ _ _ E). by eapply Forall_lookup in HF.
Qed.

Lemma SubBytes_cols n a b i :
  words n a → (b < n)%nat → (i < 8)%nat →
  (SubBytes (cols a) !!! b) !!! i = sbox (B64 i (a !!! b)).
Proof.
  intros Ha Hb Hi. pose proof (words_in_state n a b Ha Hb) as Hw.
  destruct Ha as [<- _]. destruct (lookup_lt_is_Some_2 a b Hb) as [w E].
  unfold in_state in Hw. rewrite (list_lookup_total_correct _ _ _ E) in Hw |- *.
  apply list_lookup_total_correct. unfold SubBytes, cols, matrix, column.
  rewrite list_lookup_total_alt, !list_lookup_fmap, E.
  change (map sbox (enc64le w) !! i = Some (sbox (B64 i w))).
  by rewrite (list_lookup_fmap sbox), B64_byte.
Qed.

(** Column [c] of a round reads the words [c + s] for the shifts [s]. *)
Definition sources (shifts : list nat) (n : nat) : list (list nat) :=
  (λ c, (λ s, (c + s) mod n)%nat <$> shifts) <$> seq 0 n.

Definition shifted_round (shifts : list nat) (a : list Z) : list Z :=
  RSTT_of a <$> sources shifts (length a).

Lemma shifted_round_spec shifts n a :
  words n a → length shifts = 8%nat →
  words n (shifted_round shifts a)
  ∧ cols (shifted_round shifts a) = MixBytes (ShiftBytes shifts (SubBytes (cols a))).
Proof.
  intros Ha Hs. pose proof (proj1 Ha) as Hn. unfold shifted_round, sources. rewrite Hn.
  assert (R : ∀ c, c ∈ seq 0 n →
    is_word (RSTT_of a ((λ s, (c + s) mod n)%nat <$> shifts))
    ∧ enc64le (RSTT_of a ((λ s, (c + s) mod n)%nat <$> shifts))
      = mix_column (map sbox (gather a ((λ s, (c + s) mod n)%nat <$> shifts)))).
  { intros c Hc. apply elem_of_seq in Hc. apply RSTT_spec; [by rewrite length_fmap|].
    apply Forall_fmap, Forall_true. intros s.
    apply (words_in_state n); [done|]. apply Nat.mod_upper_bound. lia. }
  split.
  - split; [by rewrite !length_fmap, length_seq|]. apply Forall_fmap, Forall_fmap, Forall_forall.
    intros c Hc. by apply R.
  - unfold MixBytes, ShiftBytes.
    replace (length (SubBytes (cols a))) with n by (unfold SubBytes, cols; by rewrite !length_map).
    unfold cols at 1.
    repeat change (map ?f (?g <$> ?l)) with (map f (map g l)). rewrite !map_map.
    apply map_ext_in. intros c Hc%list_elem_of_In.
    rewrite (proj2 (R c Hc)). f_equal. unfold gather.
    rewrite imap_fmap, fmap_imap. apply imap_ext. intros i s Hi. cbn [compose].
    apply elem_of_seq in Hc. pose proof (lookup_lt_Some _ _ _ Hi).
    rewrite <- (SubBytes_cols n) by (done || lia || (apply Nat.mod_upper_bound; lia)).
    done.
Qed.

(** ** Round constants *)

Definition constant_P (r : Z) (c : nat) : column := [Z.lxor (16 * Z.of_nat c) r; 0; 0; 0; 0; 0; 0; 0].
Definition constant_Q (r : Z) (c : nat) : column :=
  [0xFF; 0xFF; 0xFF; 0xFF; 0xFF; 0xFF; 0xFF; Z.lxor 0xFF (Z.lxor (16 * Z.of_nat c) r)].

(** Constants of the macros, as bytes. *)
Definition gives_constants (f : Z → Z → Z) (k : Z → nat → column) (c : nat) (r : Z) : bool :=
  bool_decide (is_word (f (0x10 * Z.of_nat c) r)) && bool_decide (enc64le (f (0x10 * Z.of_nat c) r) = k r c).

Lemma constants_checked f k :
  forallb (λ c, all_range 0 16 (gives_constants f k c)) (seq 0 16) = true →
  ∀ c r, (c < 16)%nat → 0 ≤ r < 16 →
  is_word (f (0x10 * Z.of_nat c) r) ∧ enc64le (f (0x10 * Z.of_nat c) r) = k r c.
Proof.
  rewrite forallb_forall. intros H c r Hc Hr.
  specialize (H c (proj2 (in_seq 16 0 c) (conj (Nat.le_0_l c) Hc))).
  apply (all_range_spec _ _ _ H), andb_true_iff in Hr as [H1 H2].
  apply bool_decide_eq_true in H1, H2. by split.
Qed.

Lemma add_constants_spec f k n a r :
  forallb (λ c, all_range 0 16 (gives_constants f k c)) (seq 0 16) = true →
  words n a → (n ≤ 16)%nat → 0 ≤ r < 16 →
  words n (add_constants f r a)
  ∧ cols (add_constants f r a) = imap (λ c col, xor_column col (k r c)) (cols a).
Proof.
  intros Hk [Hn HF] Hle Hr. unfold add_constants. split.
  - split; [by rewrite length_imap|]. apply Forall_lookup. intros i x Hi.
    rewrite list_lookup_imap in Hi. destruct (a !! i) as [w|] eqn:E; simplify_eq/=.
    apply word_lxor; [by eapply Forall_lookup in HF|].
    apply (constants_checked f k Hk); [|done]. apply lookup_lt_Some in E. lia.
  - unfold cols. change (map ?f (imap ?g ?l)) with (f <$> imap g l).
    change (imap ?f (map ?g ?l)) with (imap f (g <$> l)).
    rewrite fmap_imap, imap_fmap. apply imap_ext. intros c w Hc.
    unfold compose. rewrite enc64le_lxor. apply lookup_lt_Some in Hc.
    by rewrite (proj2 (constants_checked f k Hk c r ltac:(lia) Hr)).
Qed.

(** ** The round macros

    A round of the code on [n] words implements a round of the
    specification. *)
Definition implements_round (n : nat) (ROUND : list Z → Z → list Z)
    (round : matrix → Z → matrix) : Prop :=
  ∀ a r, words n a → 0 ≤ r < 16 →
  words n (ROUND a r) ∧ cols (ROUND a r) = round (cols a) r.

Lemma shifted_implements n ROUND f k shifts :
  forallb (λ c, all_range 0 16 (gives_constants f k c)) (seq 0 16) = true →
  (n ≤ 16)%nat → length shifts = 8%nat →
  (∀ a r, length a = n → ROUND a r = shifted_round shifts (add_constants f r a)) →
  implements_round n ROUND (λ m r,
    MixBytes (ShiftBytes shifts (SubBytes (imap (λ c col, xor_column col (k r c)) m)))).
Proof.
  intros Hk Hn Hs HR a r Ha Hr.
  destruct (add_constants_spec f k n a r Hk Ha Hn Hr) as [Hw E].
  rewrite HR by apply Ha. rewrite <- E. by apply shifted_round_spec.
Qed.

Lemma constants_P_checked :
  forallb (λ c, all_range 0 16 (gives_constants PC64 constant_P c)) (seq 0 16) = true.
Proof. vm_compute. reflexivity. Qed.

Lemma constants_Q_checked :
  forallb (λ c, all_range 0 16 (gives_constants QC64 constant_Q c)) (seq 0 16) = true.
Proof. vm_compute. reflexivity. Qed.

(** The arguments [b0] to [b7] of the macros. *)
Ltac round_macro shifts n :=
  let a := fresh in let r := fresh in let E := fresh in
  let S := eval vm_compute in (sources shifts n) in
  intros a r E; unfold shifted_round, add_constants; rewrite length_imap, E;
  replace (sources shifts n) with S by (vm_compute; reflexivity);
  reflexivity.

Lemma ROUND_SMALL_P_implements : implements_round 8 ROUND_SMALL_P (round_P (shifts_P groestl_512)).
Proof. apply (shifted_implements 8 _ PC64 constant_P _ constants_P_checked); [lia|done|round_macro (shifts_P groestl_512) 8%nat]. Qed.

Lemma ROUND_SMALL_Q_implements : implements_round 8 ROUND_SMALL_Q (round_Q (shifts_Q groestl_512)).
Proof. apply (shifted_implements 8 _ QC64 constant_Q _ constants_Q_checked); [lia|done|round_macro (shifts_Q groestl_512) 8%nat]. Qed.

Lemma ROUND_BIG_P_implements : implements_round 16 ROUND_BIG_P (round_P (shifts_P groestl_1024)).
Proof. apply (shifted_implements 16 _ PC64 constant_P _ constants_P_checked); [lia|done|round_macro (shifts_P groestl_1024) 16%nat]. Qed.

Lemma ROUND_BIG_Q_implements : implements_round 16 ROUND_BIG_Q (round_Q (shifts_Q groestl_1024)).
Proof. apply (shifted_implements 16 _ QC64 constant_Q _ constants_Q_checked); [lia|done|round_macro (shifts_Q groestl_1024) 16%nat]. Qed.

(** ** Permutations *)

Lemma rounds_spec n ROUND round rs a :
  implements_round n ROUND round → Forall (λ r, 0 ≤ r < 15) rs → words n a →
  words n (rounds ROUND rs a)
  ∧ cols (rounds ROUND rs a) = foldl round (cols a) (rs ≫= λ r, [r + 0; r + 1]).
Proof.
  intros HR Hrs. revert a. unfold rounds.
  induction Hrs as [|r rs Hr _ IH]; intros a Ha; [done|]. cbn [foldl].
  destruct (HR a (r + 0) Ha ltac:(lia)) as [H1 E1].
  destruct (HR _ (r + 1) H1 ltac:(lia)) as [H2 E2].
  destruct (IH _ H2) as [H3 E3]. split; [done|]. rewrite E3, E2, E1. done.
Qed.

(** A permutation on [n] words. *)
Definition implements_perm (n : nat) (PERM : list Z → list Z) (perm : matrix → matrix) : Prop :=
  ∀ a, words n a → words n (PERM a) ∧ cols (PERM a) = perm (cols a).

Lemma rounds_implements n ROUND round rs l :
  implements_round n ROUND round → Forall (λ r, 0 ≤ r < 15) rs →
  (rs ≫= λ r, [r + 0; r + 1]) = l →
  implements_perm n (rounds ROUND rs) (λ m, foldl round m l).
Proof. intros HR Hrs <- a Ha. by apply rounds_spec. Qed.

Lemma PERM_SMALL_P_implements : implements_perm 8 PERM_SMALL_P (perm_P groestl_512).
Proof. apply (rounds_implements _ _ _ _ (range 0 10) ROUND_SMALL_P_implements); [|done]. repeat constructor; lia. Qed.
Lemma PERM_SMALL_Q_implements : implements_perm 8 PERM_SMALL_Q (perm_Q groestl_512).
Proof. apply (rounds_implements _ _ _ _ (range 0 10) ROUND_SMALL_Q_implements); [|done]. repeat constructor; lia. Qed.
Lemma PERM_BIG_P_implements : implements_perm 16 PERM_BIG_P (perm_P groestl_1024).
Proof. apply (rounds_implements _ _ _ _ (range 0 14) ROUND_BIG_P_implements); [|done]. repeat constructor; lia. Qed.
Lemma PERM_BIG_Q_implements : implements_perm 16 PERM_BIG_Q (perm_Q groestl_1024).
Proof. apply (rounds_implements _ _ _ _ (range 0 14) ROUND_BIG_Q_implements); [|done]. repeat constructor; lia. Qed.

(** ** Compression *)

Lemma xor_words_spec n a b :
  words n a → words n b →
  words n (xor_words a b) ∧ cols (xor_words a b) = xor_matrix (cols a) (cols b).
Proof.
  intros [Ha Fa] [Hb Fb]. unfold xor_words. split.
  - split; [rewrite length_zip_with; lia|].
    clear Ha Hb. revert b Fb. induction Fa as [|x a Hx _ IH]; intros b Fb; [constructor|].
    destruct Fb as [|y b Hy Fb]; constructor; [by apply word_lxor|by apply IH].
  - clear. unfold cols, xor_matrix. revert b.
    induction a as [|x a IH]; intros [|y b]; [done..|].
    cbn [zip_with map]. by rewrite enc64le_lxor, IH.
Qed.

Lemma read_words_spec n buf :
  (8 * n ≤ length buf)%nat → Forall is_byte buf →
  words n (read_words n buf)
  ∧ cols (read_words n buf) = (λ c, take 8 (drop (8 * c) buf)) <$> seq 0 n.
Proof.
  intros Hl HF. unfold read_words.
  assert (W : ∀ c, c ∈ seq 0 n →
    length (take 8 (drop (8 * c) buf)) = 8%nat ∧ Forall is_byte (take 8 (drop (8 * c) buf))).
  { intros c Hc%elem_of_seq. rewrite length_take, length_drop.
    split; [lia|]. by apply Forall_take, Forall_drop. }
  split.
  - split; [by rewrite length_fmap, length_seq|]. apply Forall_fmap, Forall_forall.
    intros c Hc. by apply dec64le_word; apply W.
  - unfold cols. change (map ?f (?g <$> ?l)) with (map f (map g l)). rewrite map_map.
    apply map_ext_in. intros c Hc%list_elem_of_In. by apply enc64le_dec64le; apply W.
Qed.

(** The compression macro for the parameters [p]. *)
Definition implements_compression (p : parameters) (COMPRESS : list Z → list Z → list Z) : Prop :=
  ∀ buf H, length buf = block_size p → Forall is_byte buf → words (columns p) H →
  words (columns p) (COMPRESS buf H) ∧ cols (COMPRESS buf H) = compression p (cols H) buf.

Definition implements_final (p : parameters) (FINAL : list Z → list Z) : Prop :=
  ∀ H, words (columns p) H →
  words (columns p) (FINAL H) ∧ cols (FINAL H) = xor_matrix (cols H) (perm_P p (cols H)).

Section compress.
Context (p : parameters) (P Q : list Z → list Z).
Hypothesis HP : implements_perm (columns p) P (perm_P p).
Hypothesis HQ : implements_perm (columns p) Q (perm_Q p).

Lemma compress_spec :
  implements_compression p (λ buf H,
    let m := read_words (columns p) buf in
    xor_words H (xor_words (P (xor_words m H)) (Q m))).
Proof.
  intros buf H Hl HF HH. unfold block_size in Hl.
  destruct (read_words_spec (columns p) buf) as [Hm Em]; [lia|done|].
  destruct (xor_words_spec _ _ _ Hm HH) as [Hg Eg].
  destruct (HP _ Hg) as [Hg' Eg']. destruct (HQ _ Hm) as [Hm' Em'].
  destruct (xor_words_spec _ _ _ Hg' Hm') as [Hx Ex].
  destruct (xor_words_spec _ _ _ HH Hx) as [Hr Er]. split; [done|].
  cbv zeta. rewrite Er, Ex, Eg', Em', Eg, Em. done.
Qed.

Lemma final_spec : implements_final p (λ H, xor_words H (P H)).
Proof.
  intros H HH. destruct (HP _ HH) as [H' E'].
  destruct (xor_words_spec _ _ _ HH H') as [Hr Er]. split; [done|]. by rewrite Er, E'.
Qed.
End compress.
