(* ===== verification/GroestlContext.v ===== *)
(** * Hashing in pieces

    What a context of groestl.c has absorbed, and that the functions of
    sph_groestl.h feed and close it as the specification of the hash function
    says. The functions are the same for both variants: they rely on the
    interface [Implements] between the numbers and macros of a variant and the
    parameters of the specification. *)

From S2P Require Import Prelude CModel SphTypes SphBuffer GroestlTables Groestl GroestlSpec GroestlTheory.

(** ** The interface *)

Class Implements (v : variant) (p : parameters) : Prop := {
  impl_words : v_words v = columns p;
  impl_size : v_size v = Z.of_nat (block_size p);
  impl_columns : columns p = (2 * v_out v)%nat;
  impl_pad : v_pad v = v_size v + 8;
  impl_out : (4 ≤ v_out v ≤ 8)%nat;
  impl_compress : implements_compression p (COMPRESS v);
  impl_final : implements_final p (FINAL v)
}.

#[export] Instance small_implements : Implements small groestl_512.
Proof.
  split; [done..|cbn; lia| |].
  - exact (compress_spec groestl_512 _ _ PERM_SMALL_P_implements PERM_SMALL_Q_implements).
  - exact (final_spec groestl_512 _ PERM_SMALL_P_implements).
Qed.

#[export] Instance big_implements : Implements big groestl_1024.
Proof.
  split; [done..|cbn; lia| |].
  - exact (compress_spec groestl_1024 _ _ PERM_BIG_P_implements PERM_BIG_Q_implements).
  - exact (final_spec groestl_1024 _ PERM_BIG_P_implements).
Qed.

(** ** The invariant of a context *)

Section context.
Context (v : variant) (p : parameters) `{V : !Implements v p}.

#[local] Abbreviation bs := (block_size p).

Lemma block_size_pos : (64 ≤ bs)%nat.
Proof. unfold block_size. rewrite (impl_columns (v := v)). pose proof (impl_out (v := v) (p := p)). lia. Qed.

(** What happens to a full block. *)
Definition absorb_block (b : list Z) (s : list Z * Z) : list Z * Z :=
  let '(H, cnt) := s in (COMPRESS v b H, u64 (cnt + 1)).

Lemma groestl_absorb_block_prefix b s : length b = bs → absorb_block b s = absorb_block (take bs b) s.
Proof. intros Hb. by rewrite firstn_all2 by lia. Qed.

Lemma groestl_absorb_blocks n H0 msg :
  words (columns p) H0 → Forall is_byte msg → (n * bs ≤ length msg)%nat →
  let s := blocks bs absorb_block n (H0, 0) msg in
  words (columns p) s.1 ∧ cols s.1 = chain p n (cols H0) msg ∧ s.2 = u64 (Z.of_nat n).
Proof.
  intros HH HF. change 0 with (u64 0). replace (Z.of_nat n) with (0 + Z.of_nat n) by lia.
  revert H0 msg HH HF. generalize 0 as k.
  induction n as [|n IH]; intros k H0 msg HH HF Hn.
  { cbn [blocks fst snd chain]. by rewrite Z.add_0_r. }
  cbn [blocks chain absorb_block].
  destruct (impl_compress (v := v) (take bs msg) H0) as [Hw Ew];
    [rewrite length_take; lia|by apply Forall_take|done|].
  replace (u64 (u64 k + 1)) with (u64 (k + 1)) by (unfold u64; by rewrite Z.add_mod_idemp_l by lia).
  destruct (IH (k + 1) (COMPRESS v (take bs msg) H0) (drop bs msg)) as (I1 & I2 & I3);
    [done|by apply Forall_drop|rewrite length_drop; lia|].
  split; [done|]. rewrite I2, I3, Ew. split; [done|]. f_equal. lia.
Qed.

(** The state for digests of [bits] bits. *)
Definition size_word (bits : Z) : Z :=
  Z.lor (u64 (Z.shiftl (Z.land bits 0xFF) 56)) (u64 (Z.shiftl (Z.land bits 0xFF00) 40)).

Definition initial_wide (bits : Z) : list Z := replicate (v_words v - 1) 0 ++ [size_word bits].

(** The context [sc], initialised for digests of [len] bytes, has been fed
    with the bytes [msg]. *)
Record absorbed (len : nat) (sc : groestl_context) (msg : list Z) : Prop := Absorbed {
  abs_len : (len ≤ 64)%nat;
  abs_bytes : Forall is_byte msg;
  abs_fed : fed bs bs absorb_block (initial_wide (8 * Z.of_nat len), 0)
              (buf sc) (ptr sc) (wide sc, count sc) msg
}.

(** ** Initialisation *)

Definition size_word_ok (len : Z) : bool :=
  bool_decide (is_word (size_word (8 * len)))
  && bool_decide (enc64le (size_word (8 * len))
                  = replicate 6 0 ++ [(8 * len) `div` 256; (8 * len) `mod` 256]).

Lemma size_words_checked : all_range 0 65 size_word_ok = true.
Proof. vm_compute. reflexivity. Qed.

Lemma initial_wide_spec len :
  0 ≤ len ≤ 64 →
  words (columns p) (initial_wide (8 * len)) ∧ cols (initial_wide (8 * len)) = initial_value p (8 * len).
Proof.
  intros Hl.
  pose proof (all_range_spec _ _ _ size_words_checked len ltac:(lia)) as H.
  apply andb_true_iff in H as [Hw He]. apply bool_decide_eq_true in Hw, He.
  unfold initial_wide. rewrite (impl_words (v := v) (p := p)).
  assert (Hc : (4 ≤ columns p)%nat)
    by (rewrite (impl_columns (v := v)); pose proof (impl_out (v := v) (p := p)); lia).
  split.
  - split; [rewrite length_app, length_replicate; simpl; lia|].
    apply Forall_app. split; [|by apply Forall_singleton]. apply Forall_replicate. by vm_compute.
  - unfold cols, initial_value. rewrite map_app. cbn [map]. rewrite He. f_equal.
    change (map enc64le (replicate ?n ?x)) with (enc64le <$> replicate n x).
    by rewrite fmap_replicate.
Qed.

Lemma groestl_init_spec sc len :
  length (buf sc) = bs → (len ≤ 64)%nat → absorbed len (init v sc (8 * Z.of_nat len)) [].
Proof.
  intros Hb Hl. split; [done|done|]. pose proof block_size_pos.
  by apply (fed_start bs bs absorb_block ltac:(lia)).
Qed.

(** What an absorbed message says about the context. *)
Lemma absorbed_state len sc msg :
  absorbed len sc msg →
  words (columns p) (wide sc)
  ∧ cols (wide sc) = chain p (length msg / bs) (initial_value p (8 * Z.of_nat len)) msg
  ∧ count sc = u64 (Z.of_nat (length msg / bs)).
Proof.
  intros [Hl HF A]. pose proof block_size_pos.
  destruct (initial_wide_spec (Z.of_nat len)) as [Hw <-]; [lia|].
  destruct (groestl_absorb_blocks (length msg / bs) _ msg Hw HF) as (B1 & B2 & B3).
  { pose proof (Nat.div_mod_eq (length msg) bs). lia. }
  by rewrite <- (fed_state _ _ _ _ _ _ _ _ A) in B1, B2, B3.
Qed.

(** ** Feeding *)

Lemma groestl_core_spec len0 sc msg data len :
  absorbed len0 sc msg → Forall is_byte data → 0 ≤ len ≤ Z.of_nat (length data) →
  ∃ sc', core v sc data len = Ret sc' ∧ absorbed len0 sc' (msg ++ take (Z.to_nat len) data).
Proof.
  intros [Hl0 HF A] Hd Hl. unfold core. rewrite (impl_size (v := v) (p := p)).
  pose proof block_size_pos.
  destruct (feed_spec bs bs absorb_block ltac:(lia) groestl_absorb_block_prefix _ _ _ _ _ data len A Hl)
    as (b' & p' & [H' c'] & E & A').
  eexists. split; [refine (bind_ret_eq _ _ _ _ E eq_refl)|].
  split; [done| |done]. apply Forall_app. split; [done|]. by apply Forall_take.
Qed.

(** ** Padding *)

(** The first byte of the padding depends on the low 8 bits of [ub] only. *)
Definition first_pad (ub n : Z) : Z :=
  let z := Z.shiftr 0x80 n in Z.land (Z.lor (Z.land ub (u32 (- z))) z) 0xFF.

Definition first_pad_ok (n : nat) (ub : Z) : bool := first_pad ub (Z.of_nat n) =? last_byte ub n.

Lemma first_pads_checked : forallb (λ n, all_range 0 256 (first_pad_ok n)) (seq 0 8) = true.
Proof. vm_compute. reflexivity. Qed.

Lemma first_pad_spec ub n : (n < 8)%nat → first_pad ub (Z.of_nat n) = last_byte ub n.
Proof.
  intros Hn.
  assert (E1 : first_pad ub (Z.of_nat n) = first_pad (ub `mod` 2 ^ 8) (Z.of_nat n)).
  { unfold first_pad. cbv zeta. apply Z.bits_inj'. intros i Hi.
    rewrite !Z.land_spec, !Z.lor_spec, !Z.land_spec.
    destruct (decide (i < 8)); [by rewrite Z.mod_pow2_bits_low by lia|].
    change 0xFF with (Z.ones 8). rewrite Z.ones_spec_high, !andb_false_r by lia. done. }
  assert (E2 : to_bits 8 ub = to_bits 8 (ub `mod` 2 ^ 8)).
  { cbn [to_bits]. by rewrite !Z.mod_pow2_bits_low by lia. }
  unfold last_byte. rewrite E1, E2.
  pose proof (Z.mod_pos_bound ub (2 ^ 8) ltac:(lia)) as Hb.
  clear E1 E2. revert Hb. generalize (ub `mod` 2 ^ 8). clear - Hn. intros b Hb.
  pose proof first_pads_checked as H. rewrite forallb_forall in H.
  specialize (H n (proj2 (in_seq 8 0 n) (conj (Nat.le_0_l n) Hn))).
  apply (all_range_spec _ _ _ H), Z.eqb_eq in Hb. done.
Qed.

(** The bytes that [close] appends and the count it encodes. *)
Definition pad_length (len : nat) : nat :=
  if decide (len mod bs < bs - 8)%nat then (bs - len mod bs)%nat else (2 * bs - len mod bs)%nat.

Lemma groestl_padded_blocks_spec len :
  padded_blocks p len = (len / bs + if decide (len mod bs < bs - 8) then 1 else 2)%nat
  ∧ (padded_blocks p len * bs = len + pad_length len)%nat.
Proof.
  pose proof block_size_pos as Hpos. pose proof (Nat.div_mod_eq len bs) as E.
  pose proof (Nat.mod_upper_bound len bs ltac:(lia)) as Hm.
  assert (Hq : padded_blocks p len = (len / bs + if decide (len mod bs < bs - 8) then 1 else 2)%nat).
  { unfold padded_blocks. symmetry. case_decide.
    - apply (Nat.div_unique _ _ _ (len mod bs + 8)); nia.
    - apply (Nat.div_unique _ _ _ (len mod bs + 8 - bs)); nia. }
  split; [done|]. rewrite Hq. unfold pad_length. case_decide; nia.
Qed.

Lemma padding_spec len ub n :
  padding p len ub n
  = last_byte ub n :: replicate (pad_length len - 9) 0
    ++ sph_enc64be (u64 (Z.of_nat (padded_blocks p len))).
Proof.
  unfold padding. rewrite sph_enc64be_u64. do 3 f_equal.
  pose proof (proj2 (groestl_padded_blocks_spec len)). lia.
Qed.

Lemma pad_length_bounds len : (9 ≤ pad_length len ≤ bs + 8)%nat.
Proof.
  pose proof block_size_pos. pose proof (Nat.mod_upper_bound len bs ltac:(lia)).
  unfold pad_length. case_decide; lia.
Qed.

Lemma last_byte_byte ub n : (n < 8)%nat → is_byte (last_byte ub n).
Proof. intros Hn. rewrite <- first_pad_spec by done. apply land_byte. Qed.

Lemma padding_bytes len ub n :
  (n < 8)%nat → Forall is_byte (padding p len ub n) ∧ length (padding p len ub n) = pad_length len.
Proof.
  intros Hn. rewrite padding_spec. pose proof (pad_length_bounds len). split.
  - constructor; [by apply last_byte_byte|]. apply Forall_app. split; [|apply sph_enc64be_bytes].
    by apply Forall_replicate.
  - cbn [length]. rewrite length_app, length_replicate.
    change (length (sph_enc64be _)) with 8%nat. lia.
Qed.

(** ** Closing *)

Lemma length_mjoin_cols a : length (mjoin (cols a)) = (8 * length a)%nat.
Proof.
  induction a as [|w a IH]; [done|]. cbn [length].
  change (mjoin (cols (w :: a))) with (enc64le w ++ mjoin (cols a)).
  rewrite length_app, length_enc64le, IH. lia.
Qed.

(** The last [v_out] words of a state are the second half of its bytes. *)
Lemma digest_bytes a :
  length a = columns p →
  (seq 0 (v_out v) ≫= λ u, enc64le (a !!! (u + v_out v)%nat))
  = drop (8 * v_out v) (mjoin (cols a)).
Proof.
  rewrite (impl_columns (v := v)). generalize (v_out v). clear. intros k Hl.
  transitivity (drop (8 * k) (mjoin (cols (take k a ++ drop k a)))); [|by rewrite take_drop].
  unfold cols. rewrite map_app, join_app.
  rewrite drop_app_length' by (change (map enc64le ?l) with (cols l); rewrite length_mjoin_cols, length_take; lia).
  assert (E : drop k a = (λ u, a !!! (u + k)%nat) <$> seq 0 k).
  { apply list_eq. intros i. rewrite lookup_drop, list_lookup_fmap.
    destruct (decide (i < k)%nat) as [Hi|].
    - rewrite lookup_seq_lt by done. simpl. rewrite Nat.add_comm.
      apply list_lookup_lookup_total_lt. lia.
    - rewrite lookup_seq_ge, lookup_ge_None_2 by lia. done. }
  rewrite E. change (map ?f (?g <$> ?l)) with (map f (map g l)). rewrite map_map.
  generalize (seq 0 k). intros l. induction l as [|x l IH]; [done|].
  exact (f_equal (app (enc64le (a !!! (x + k)%nat))) IH).
Qed.

Lemma groestl_close_spec sc msg ub n out_len :
  absorbed out_len sc msg → (n < 8)%nat → (out_len ≤ 8 * v_out v)%nat →
  ∃ sc', close v sc ub (Z.of_nat n) (Z.of_nat out_len) = Ret (groestl p out_len msg ub n, sc')
    ∧ absorbed out_len sc' []
    ∧ length (groestl p out_len msg ub n) = out_len.
Proof.
  intros A Hn Hout. pose proof block_size_pos as Hpos. unfold close. cbv zeta.
  fold (first_pad ub (Z.of_nat n)). rewrite first_pad_spec by done.
  rewrite (impl_pad (v := v) (p := p)), (impl_size (v := v) (p := p)).
  pose proof (groestl_padded_blocks_spec (length msg)) as [Hpb Hpl].
  pose proof (pad_length_bounds (length msg)) as Hbounds.
  assert (E : (if ptr sc <? Z.of_nat bs - 8 then (Z.of_nat bs - ptr sc, u64 (count sc + 1))
      else (2 * Z.of_nat bs - ptr sc, u64 (count sc + 2)))
    = (Z.of_nat (pad_length (length msg)), u64 (Z.of_nat (padded_blocks p (length msg))))).
  { destruct (absorbed_state _ _ _ A) as (_ & _ & ->).
    rewrite (fed_level _ _ _ _ _ _ _ _ (abs_fed _ _ _ A)), Hpb. unfold pad_length, u64.
    pose proof (Nat.mod_upper_bound (length msg) bs ltac:(lia)).
    case_decide; case_bool; try lia; (f_equal; [lia|]);
      rewrite Z.add_mod_idemp_l by lia; f_equal; lia. }
  rewrite E. replace (_ || _) with false by lia.
  replace (Z.to_nat (Z.of_nat (pad_length (length msg)) - 9))
    with (pad_length (length msg) - 9)%nat by lia.
  rewrite <- padding_spec.
  destruct (padding_bytes (length msg) ub n Hn) as [HF HL].
  destruct (groestl_core_spec _ sc msg (padding p (length msg) ub n) (Z.of_nat (pad_length (length msg))) A HF)
    as (sc' & -> & A'); [lia|]. cbn [mbind outcome_bind].
  rewrite Nat2Z.id, firstn_all2 in A' by lia.
  destruct (absorbed_state _ _ _ A') as (Hw & Hch & _).
  destruct (impl_final (v := v) (p := p) (wide sc')) as [[Hfl Hfw] Hfe]; [done|].
  rewrite digest_bytes by done.
  pose proof (impl_columns (v := v) (p := p)) as Hcol.
  pose proof (length_mjoin_cols (FINAL v (wide sc'))) as Hmj.
  rewrite load_in by (rewrite ?length_drop; lia). cbn [mbind outcome_bind].
  replace (u32 (Z.shiftl (Z.of_nat out_len) 3)) with (8 * Z.of_nat out_len).
  2: { unfold u32. rewrite Z.shiftl_mul_pow2 by lia.
       pose proof (impl_out (v := v) (p := p)). rewrite Z.mod_small by lia. lia. }
  assert (Hlen : (length (msg ++ padding p (length msg) ub n) / bs)%nat = padded_blocks p (length msg))
    by (rewrite length_app, HL, <- Hpl; apply Nat.div_mul; lia).
  assert (Hdst : groestl p out_len msg ub n = drop (8 * v_out v + (8 * v_out v - out_len))
      (mjoin (cols (FINAL v (wide sc'))))).
  { unfold groestl, output. rewrite <- Hlen, <- Hch, <- Hfe, Hmj. f_equal. lia. }
  eexists. split; [|split].
  - rewrite drop_drop, firstn_all2, Hdst by (rewrite length_drop; lia). do 4 f_equal. lia.
  - apply groestl_init_spec; [apply (abs_fed _ _ _ A')|apply A'].
  - rewrite Hdst, length_drop. lia.
Qed.
End context.
