(* ===== verification/GroestlProps.v ===== *)
(** * Correctness of Groestl

    The functions of sph_groestl.h against the specification of the hash
    function, for all four digest sizes. *)

From S2P Require Import Prelude CModel SphTypes SphBuffer GroestlTables Groestl GroestlSpec GroestlTheory GroestlContext.

(** ** The functions of the four digest sizes *)

Inductive digest_size := G224 | G256 | G384 | G512.

Definition init_of (d : digest_size) : groestl_context → groestl_context :=
  match d with
  | G224 => sph_groestl224_init | G256 => sph_groestl256_init
  | G384 => sph_groestl384_init | G512 => sph_groestl512_init
  end.

Definition update_of (d : digest_size) : groestl_context → list Z → Z → outcome groestl_context :=
  match d with
  | G224 => sph_groestl224 | G256 => sph_groestl256
  | G384 => sph_groestl384 | G512 => sph_groestl512
  end.

Definition close_of (d : digest_size) : groestl_context → outcome (list Z * groestl_context) :=
  match d with
  | G224 => sph_groestl224_close | G256 => sph_groestl256_close
  | G384 => sph_groestl384_close | G512 => sph_groestl512_close
  end.

Definition addbits_and_close_of (d : digest_size)
    : groestl_context → Z → Z → outcome (list Z * groestl_context) :=
  match d with
  | G224 => sph_groestl224_addbits_and_close | G256 => sph_groestl256_addbits_and_close
  | G384 => sph_groestl384_addbits_and_close | G512 => sph_groestl512_addbits_and_close
  end.

(** Their parameters in the specification. *)
Definition variant_of (d : digest_size) : variant :=
  match d with G224 | G256 => small | G384 | G512 => big end.
Definition parameters_of (d : digest_size) : parameters :=
  match d with G224 | G256 => groestl_512 | G384 | G512 => groestl_1024 end.
Definition digest_length (d : digest_size) : nat :=
  match d with G224 => 28 | G256 => 32 | G384 => 48 | G512 => 64 end.

Definition buffer_size (d : digest_size) : nat := block_size (parameters_of d).

#[local] Instance variant_implements d : Implements (variant_of d) (parameters_of d).
Proof. destruct d; apply _. Qed.

Definition fed_of (d : digest_size) : groestl_context → list Z → Prop :=
  absorbed (variant_of d) (parameters_of d) (digest_length d).

Lemma init_fed d sc : length (buf sc) = buffer_size d → fed_of d (init_of d sc) [].
Proof.
  intros H. pose proof (groestl_init_spec (variant_of d) (parameters_of d) sc (digest_length d) H) as I.
  destruct d; apply I; cbn; lia.
Qed.

Lemma update_fed d sc msg data :
  fed_of d sc msg → Forall is_byte data →
  ∃ sc', update_of d sc data (Z.of_nat (length data)) = Ret sc' ∧ fed_of d sc' (msg ++ data).
Proof.
  intros A HF.
  destruct (groestl_core_spec (variant_of d) (parameters_of d) _ sc msg data (Z.of_nat (length data)) A HF)
    as (sc' & E & A'); [lia|].
  rewrite Nat2Z.id, firstn_all in A'. exists sc'. split; [|done]. by destruct d.
Qed.

Lemma close_fed d sc msg ub n :
  fed_of d sc msg → (n < 8)%nat →
  ∃ sc', addbits_and_close_of d sc ub (Z.of_nat n)
      = Ret (groestl (parameters_of d) (digest_length d) msg ub n, sc')
    ∧ fed_of d sc' []
    ∧ length (groestl (parameters_of d) (digest_length d) msg ub n) = digest_length d.
Proof.
  intros A Hn.
  destruct (groestl_close_spec (variant_of d) (parameters_of d) sc msg ub n (digest_length d) A Hn)
    as (sc' & E & A' & Hl); [by destruct d; cbn; lia|].
  exists sc'. split; [by destruct d|done].
Qed.

(** ** Hashing in pieces *)

Definition feed_pieces (d : digest_size) (pieces : list (list Z)) (sc : groestl_context)
    : outcome groestl_context :=
  foldM (λ data sc, update_of d sc data (Z.of_nat (length data))) pieces sc.

Lemma groestl_feed_fed d pieces sc msg :
  fed_of d sc msg → Forall (Forall is_byte) pieces →
  ∃ sc', feed_pieces d pieces sc = Ret sc' ∧ fed_of d sc' (msg ++ mjoin pieces).
Proof.
  intros A HF. revert sc msg A. induction HF as [|data pieces Hd _ IH]; intros sc msg A.
  - exists sc. by rewrite app_nil_r.
  - destruct (update_fed d sc msg data A Hd) as (sc1 & E1 & A1).
    destruct (IH sc1 _ A1) as (sc' & E & A'). exists sc'. split.
    + unfold feed_pieces in *. cbn [foldM]. by rewrite E1.
    + cbn [mjoin list_join]. by rewrite app_assoc.
Qed.

(** C17: For each of the four digest sizes, whatever a context of the right
    buffer size held before, initialising it, feeding it with a message in
    pieces of any lengths and closing it with [n < 8] extra bits runs without
    an access outside a buffer and returns the digest of the specification for
    the whole message, of the right length. Closing without extra bits is the
    case of no bits. *)
Theorem groestl_hash_in_pieces d sc pieces ub n :
  length (buf sc) = buffer_size d → Forall (Forall is_byte) pieces → (n < 8)%nat →
  let digest ub n := groestl (parameters_of d) (digest_length d) (mjoin pieces) ub n in
  (∃ sc', (sc ← feed_pieces d pieces (init_of d sc); addbits_and_close_of d sc ub (Z.of_nat n))
    = Ret (digest ub n, sc'))
  ∧ (∃ sc', (sc ← feed_pieces d pieces (init_of d sc); close_of d sc) = Ret (digest 0 0%nat, sc'))
  ∧ length (digest ub n) = digest_length d.
Proof.
  intros Hb HF Hn.
  destruct (groestl_feed_fed d pieces _ _ (init_fed d sc Hb) HF) as (sc1 & -> & A1).
  destruct (close_fed d sc1 _ ub n A1 Hn) as (sc2 & E2 & _ & Hl).
  destruct (close_fed d sc1 _ 0 0 A1 ltac:(lia)) as (sc3 & E3 & _).
  split; [by exists sc2|]. split; [|done]. exists sc3. cbn [mbind outcome_bind].
  transitivity (addbits_and_close_of d sc1 0 (Z.of_nat 0)); [by destruct d|exact E3].
Qed.

(** The digest of [abc]. *)
Lemma groestl_hash_in_pieces_witness :
  let run := (sc ← feed_pieces G256 [[97]; []; [98; 99]] (init_of G256 (MkContext (replicate 64 7) 0 [] 0));
              close_of G256 sc) in
  (∃ sc', run = Ret (groestl groestl_512 32 [97; 98; 99] 0 0, sc'))
  ∧ fst <$> outcome_value run = Some
    [0xf3; 0xc1; 0xbb; 0x19; 0xc0; 0x48; 0x80; 0x13; 0x26; 0xa7; 0xef; 0xbc; 0xf1; 0x6e; 0x3d; 0x78; 0x87; 0x44; 0x62; 0x49; 0x82; 0x9c; 0x37; 0x9e; 0x18; 0x40; 0xd1; 0xa3; 0xa1; 0xe7; 0xd4; 0xd2].
Proof.
  intros run. split.
  - apply (groestl_hash_in_pieces G256 (MkContext (replicate 64 7) 0 [] 0) [[97]; []; [98; 99]] 0 0);
      [reflexivity|repeat constructor; lia|lia].
  - vm_compute. reflexivity.
Defined.

(** ** The life of a context *)

(** The bytes a context was fed with since it was last initialised; closing a
    context initialises it. *)
Inductive history (d : digest_size) : groestl_context → list Z → Prop :=
  | history_init sc :
      length (buf sc) = buffer_size d → history d (init_of d sc) []
  | history_update sc msg data sc' :
      history d sc msg → Forall is_byte data →
      update_of d sc data (Z.of_nat (length data)) = Ret sc' → history d sc' (msg ++ data)
  | history_close sc msg ub n digest sc' :
      history d sc msg → (n < 8)%nat →
      addbits_and_close_of d sc ub (Z.of_nat n) = Ret (digest, sc') → history d sc' [].

Lemma history_fed d sc msg : history d sc msg → fed_of d sc msg.
Proof.
  induction 1 as [sc Hb|sc msg data sc' _ A HF E|sc msg ub n digest sc' _ A Hn E].
  - by apply init_fed.
  - destruct (update_fed d sc msg data A HF) as (sc1 & E1 & A1). congruence.
  - destruct (close_fed d sc msg ub n A Hn) as (sc1 & E1 & A1 & _). congruence.
Qed.

(** C18: In every context that calls can produce, the fill level stays below
    the size of the buffer and is the length of the data modulo that size;
    the number of blocks is counted modulo [2^64]; feeding any bytes and
    closing with fewer than eight extra bits are always defined, and a closed
    context can be reused: its next digest is that of the bytes fed since. *)
Theorem groestl_context_invariant d sc msg :
  history d sc msg →
  length (buf sc) = buffer_size d
  ∧ ptr sc = Z.of_nat (length msg mod buffer_size d) ∧ ptr sc < Z.of_nat (buffer_size d)
  ∧ count sc = u64 (Z.of_nat (length msg / buffer_size d))
  ∧ (∀ data, Forall is_byte data → ∃ sc', update_of d sc data (Z.of_nat (length data)) = Ret sc')
  ∧ (∀ ub n, (n < 8)%nat → ∃ sc',
      addbits_and_close_of d sc ub (Z.of_nat n)
      = Ret (groestl (parameters_of d) (digest_length d) msg ub n, sc')
      ∧ history d sc' []).
Proof.
  intros H. pose proof (history_fed d sc msg H) as A.
  destruct (absorbed_state _ _ _ _ _ A) as (_ & _ & Hc).
  pose proof (abs_fed _ _ _ _ _ A) as [Hb Hp _ _].
  pose proof (block_size_pos (variant_of d) (parameters_of d)).
  pose proof (Nat.mod_upper_bound (length msg) (block_size (parameters_of d)) ltac:(lia)).
  split; [done|]. split; [done|]. split; [unfold buffer_size; lia|]. split; [done|]. split.
  - intros data HF. destruct (update_fed d sc msg data A HF) as (sc' & E & _). by exists sc'.
  - intros ub n Hn. destruct (close_fed d sc msg ub n A Hn) as (sc' & E & _).
    exists sc'. split; [done|]. by eapply history_close.
Qed.

Lemma groestl_context_invariant_witness :
  ptr (init_of G512 (MkContext (replicate 128 0) 5 [] 3)) < 128.
Proof.
  apply (groestl_context_invariant G512 _ []). apply history_init. reflexivity.
Defined.

(** ** Rounds and compression *)

(** C19: On states of 64-bit words and round numbers below 16, the four round
    macros, which look up eight tables of 256 words, compute the rounds of the
    specification on the bytes of the words: round constant, AES S-box,
    rotation of the rows and multiplication by the circulant matrix. *)
Theorem groestl_rounds_reference r a b :
  0 ≤ r < 16 → words 8 a → words 16 b →
  cols (ROUND_SMALL_P a r) = round_P (shifts_P groestl_512) (cols a) r
  ∧ cols (ROUND_SMALL_Q a r) = round_Q (shifts_Q groestl_512) (cols a) r
  ∧ cols (ROUND_BIG_P b r) = round_P (shifts_P groestl_1024) (cols b) r
  ∧ cols (ROUND_BIG_Q b r) = round_Q (shifts_Q groestl_1024) (cols b) r.
Proof.
  intros Hr Ha Hb. repeat split;
    [apply ROUND_SMALL_P_implements|apply ROUND_SMALL_Q_implements
    |apply ROUND_BIG_P_implements|apply ROUND_BIG_Q_implements]; done.
Qed.

Lemma groestl_rounds_reference_witness :
  cols (ROUND_SMALL_P (replicate 8 0x0123456789ABCDEF) 9)
  = round_P [0; 1; 2; 3; 4; 5; 6; 7]%nat (replicate 8 [0xEF; 0xCD; 0xAB; 0x89; 0x67; 0x45; 0x23; 0x01]) 9.
Proof.
  apply (groestl_rounds_reference 9 (replicate 8 0x0123456789ABCDEF) (replicate 16 0)); [lia| |];
    (split; [reflexivity|repeat constructor; discriminate]).
Defined.

(** C20: The compression macros map a state and a block of bytes to the
    compression function [P(h + m) + Q(m) + h] of the specification, and the
    final macros to [P(h) + h]; the results are states of 64-bit words. *)
Theorem groestl_compression_reference d block H :
  length block = buffer_size d → Forall is_byte block → words (columns (parameters_of d)) H →
  let compress := COMPRESS (variant_of d) block H in
  let final := FINAL (variant_of d) H in
  words (columns (parameters_of d)) compress
  ∧ cols compress = compression (parameters_of d) (cols H) block
  ∧ words (columns (parameters_of d)) final
  ∧ cols final = xor_matrix (cols H) (perm_P (parameters_of d) (cols H)).
Proof.
  intros Hb HF HH.
  destruct (impl_compress (v := variant_of d) block H Hb HF HH) as [Hc Ec].
  destruct (impl_final (v := variant_of d) (p := parameters_of d) H HH) as [Hf Ef].
  done.
Qed.

Lemma groestl_compression_reference_witness :
  cols (COMPRESS (variant_of G256) (replicate 64 0x5A) (replicate 8 1))
  = compression (parameters_of G256) (cols (replicate 8 1)) (replicate 64 0x5A).
Proof.
  destruct (groestl_compression_reference G256 (replicate 64 0x5A) (replicate 8 1))
    as (_ & E & _); [reflexivity|apply Forall_replicate; unfold is_byte; lia| |exact E].
  split; [reflexivity|apply Forall_replicate; unfold is_word; lia].
Defined.
