(* ===== verification/Keccak.v ===== *)
(** * Keccak (sphlib/keccak.c)

    The hash functions Keccak-224, 256, 384 and 512 in the 64-bit
    implementation that works on the context in place and unrolls eight rounds
    (the build for x86-64). Some words of the state are kept complemented, and
    the words are permuted by renaming them from round to round. *)

From S2P Require Import Prelude CModel SphTypes SphBuffer.

(** ** The state

    25 words; the name [axy] of a word is its index in the array [wide]. *)

Definition a00 : nat := 0.
Definition a10 : nat := 1.
Definition a20 : nat := 2.
Definition a30 : nat := 3.
Definition a40 : nat := 4.
Definition a01 : nat := 5.
Definition a11 : nat := 6.
Definition a21 : nat := 7.
Definition a31 : nat := 8.
Definition a41 : nat := 9.
Definition a02 : nat := 10.
Definition a12 : nat := 11.
Definition a22 : nat := 12.
Definition a32 : nat := 13.
Definition a42 : nat := 14.
Definition a03 : nat := 15.
Definition a13 : nat := 16.
Definition a23 : nat := 17.
Definition a33 : nat := 18.
Definition a43 : nat := 19.
Definition a04 : nat := 20.
Definition a14 : nat := 21.
Definition a24 : nat := 22.
Definition a34 : nat := 23.
Definition a44 : nat := 24.

Definition NOT64 (s : Z) : Z := u64 (Z.lnot s).

(** ** Steps of a round

    The macros take 25 names of words as arguments, [b00] to [b44]; here they
    take the list of these names, in which [bxy] has the position [5 x + y]. *)

Definition arg (P : list nat) (x y : nat) : nat := P !!! (5 * x + y)%nat.
Definition get (P : list nat) (a : list Z) (x y : nat) : Z := a !!! arg P x y.

Definition TH_ELT (c0 c1 c2 c3 c4 d0 d1 d2 d3 d4 : Z) : Z :=
  let tt0 := d0 ⊕ d1 in
  let tt1 := d2 ⊕ d3 in
  let tt0 := tt0 ⊕ d4 in
  let tt0 := tt0 ⊕ tt1 in
  let tt0 := SPH_ROTL64 tt0 1 in
  let tt2 := c0 ⊕ c1 in
  let tt3 := c2 ⊕ c3 in
  let tt0 := tt0 ⊕ c4 in
  let tt2 := tt2 ⊕ tt3 in
  tt0 ⊕ tt2.

(** [XOR64(bx0, bx0, t)] to [XOR64(bx4, bx4, t)]. *)
Definition xor_sheet (P : list nat) (x : nat) (t : Z) (a : list Z) : list Z :=
  foldl (λ a y, alter (λ b, b ⊕ t) (arg P x y) a) a [0; 1; 2; 3; 4]%nat.

Definition THETA (P : list nat) (a : list Z) : list Z :=
  let t0 := TH_ELT (get P a 4 0) (get P a 4 1) (get P a 4 2) (get P a 4 3) (get P a 4 4)
              (get P a 1 0) (get P a 1 1) (get P a 1 2) (get P a 1 3) (get P a 1 4) in
  let t1 := TH_ELT (get P a 0 0) (get P a 0 1) (get P a 0 2) (get P a 0 3) (get P a 0 4)
              (get P a 2 0) (get P a 2 1) (get P a 2 2) (get P a 2 3) (get P a 2 4) in
  let t2 := TH_ELT (get P a 1 0) (get P a 1 1) (get P a 1 2) (get P a 1 3) (get P a 1 4)
              (get P a 3 0) (get P a 3 1) (get P a 3 2) (get P a 3 3) (get P a 3 4) in
  let t3 := TH_ELT (get P a 2 0) (get P a 2 1) (get P a 2 2) (get P a 2 3) (get P a 2 4)
              (get P a 4 0) (get P a 4 1) (get P a 4 2) (get P a 4 3) (get P a 4 4) in
  let t4 := TH_ELT (get P a 3 0) (get P a 3 1) (get P a 3 2) (get P a 3 3) (get P a 3 4)
              (get P a 0 0) (get P a 0 1) (get P a 0 2) (get P a 0 3) (get P a 0 4) in
  let a := xor_sheet P 0 t0 a in
  let a := xor_sheet P 1 t1 a in
  let a := xor_sheet P 2 t2 a in
  let a := xor_sheet P 3 t3 a in
  xor_sheet P 4 t4 a.

(** [ROL64(bxy, bxy, n)] for the listed [x], [y] and [n]. *)
Definition RHO (P : list nat) (a : list Z) : list Z :=
  foldl (λ a '(x, y, n), alter (λ b, SPH_ROTL64 b n) (arg P x y) a) a
  [(0, 1, 36%Z); (0, 2, 3%Z); (0, 3, 41%Z); (0, 4, 18%Z); (1, 0, 1%Z); (1, 1, 44%Z);
   (1, 2, 10%Z); (1, 3, 45%Z); (1, 4, 2%Z); (2, 0, 62%Z); (2, 1, 6%Z); (2, 2, 43%Z);
   (2, 3, 15%Z); (2, 4, 61%Z); (3, 0, 28%Z); (3, 1, 55%Z); (3, 2, 25%Z); (3, 3, 21%Z);
   (3, 4, 56%Z); (4, 0, 27%Z); (4, 1, 20%Z); (4, 2, 39%Z); (4, 3, 8%Z); (4, 4, 14%Z)]%nat.

Definition KHI_XO (a b c : Z) : Z := a ⊕ Z.lor b c.
Definition KHI_XA (a b c : Z) : Z := a ⊕ Z.land b c.

(** [MOV64(b0y, c0)] to [MOV64(b4y, c4)]. *)
Definition move (P : list nat) (y : nat) (c0 c1 c2 c3 c4 : Z) (a : list Z) : list Z :=
  <[arg P 4 y := c4]> (<[arg P 3 y := c3]> (<[arg P 2 y := c2]>
  (<[arg P 1 y := c1]> (<[arg P 0 y := c0]> a)))).

(** The five parts of [KHI], one for each [y]. *)
Definition KHI_0 (P : list nat) (a : list Z) : list Z :=
  let bnn := NOT64 (get P a 2 0) in
  let c0 := KHI_XO (get P a 0 0) (get P a 1 0) (get P a 2 0) in
  let c1 := KHI_XO (get P a 1 0) bnn (get P a 3 0) in
  let c2 := KHI_XA (get P a 2 0) (get P a 3 0) (get P a 4 0) in
  let c3 := KHI_XO (get P a 3 0) (get P a 4 0) (get P a 0 0) in
  let c4 := KHI_XA (get P a 4 0) (get P a 0 0) (get P a 1 0) in
  move P 0 c0 c1 c2 c3 c4 a.

Definition KHI_1 (P : list nat) (a : list Z) : list Z :=
  let bnn := NOT64 (get P a 4 1) in
  let c0 := KHI_XO (get P a 0 1) (get P a 1 1) (get P a 2 1) in
  let c1 := KHI_XA (get P a 1 1) (get P a 2 1) (get P a 3 1) in
  let c2 := KHI_XO (get P a 2 1) (get P a 3 1) bnn in
  let c3 := KHI_XO (get P a 3 1) (get P a 4 1) (get P a 0 1) in
  let c4 := KHI_XA (get P a 4 1) (get P a 0 1) (get P a 1 1) in
  move P 1 c0 c1 c2 c3 c4 a.

Definition KHI_2 (P : list nat) (a : list Z) : list Z :=
  let bnn := NOT64 (get P a 3 2) in
  let c0 := KHI_XO (get P a 0 2) (get P a 1 2) (get P a 2 2) in
  let c1 := KHI_XA (get P a 1 2) (get P a 2 2) (get P a 3 2) in
  let c2 := KHI_XA (get P a 2 2) bnn (get P a 4 2) in
  let c3 := KHI_XO bnn (get P a 4 2) (get P a 0 2) in
  let c4 := KHI_XA (get P a 4 2) (get P a 0 2) (get P a 1 2) in
  move P 2 c0 c1 c2 c3 c4 a.

Definition KHI_3 (P : list nat) (a : list Z) : list Z :=
  let bnn := NOT64 (get P a 3 3) in
  let c0 := KHI_XA (get P a 0 3) (get P a 1 3) (get P a 2 3) in
  let c1 := KHI_XO (get P a 1 3) (get P a 2 3) (get P a 3 3) in
  let c2 := KHI_XO (get P a 2 3) bnn (get P a 4 3) in
  let c3 := KHI_XA bnn (get P a 4 3) (get P a 0 3) in
  let c4 := KHI_XO (get P a 4 3) (get P a 0 3) (get P a 1 3) in
  move P 3 c0 c1 c2 c3 c4 a.

Definition KHI_4 (P : list nat) (a : list Z) : list Z :=
  let bnn := NOT64 (get P a 1 4) in
  let c0 := KHI_XA (get P a 0 4) bnn (get P a 2 4) in
  let c1 := KHI_XO bnn (get P a 2 4) (get P a 3 4) in
  let c2 := KHI_XA (get P a 2 4) (get P a 3 4) (get P a 4 4) in
  let c3 := KHI_XO (get P a 3 4) (get P a 4 4) (get P a 0 4) in
  let c4 := KHI_XA (get P a 4 4) (get P a 0 4) (get P a 1 4) in
  move P 4 c0 c1 c2 c3 c4 a.

Definition KHI (P : list nat) (a : list Z) : list Z :=
  KHI_4 P (KHI_3 P (KHI_2 P (KHI_1 P (KHI_0 P a)))).

Definition IOTA (r : Z) (a : list Z) : list Z := alter (λ b, b ⊕ r) a00 a.

Definition P0 : list nat :=
  [a00; a01; a02; a03; a04; a10; a11; a12; a13; a14; a20; a21; a22;
   a23; a24; a30; a31; a32; a33; a34; a40; a41; a42; a43; a44].
Definition P1 : list nat :=
  [a00; a30; a10; a40; a20; a11; a41; a21; a01; a31; a22; a02; a32;
   a12; a42; a33; a13; a43; a23; a03; a44; a24; a04; a34; a14].
Definition P2 : list nat :=
  [a00; a33; a11; a44; a22; a41; a24; a02; a30; a13; a32; a10; a43;
   a21; a04; a23; a01; a34; a12; a40; a14; a42; a20; a03; a31].
Definition P3 : list nat :=
  [a00; a23; a41; a14; a32; a24; a42; a10; a33; a01; a43; a11; a34;
   a02; a20; a12; a30; a03; a21; a44; a31; a04; a22; a40; a13].
Definition P4 : list nat :=
  [a00; a12; a24; a31; a43; a42; a04; a11; a23; a30; a34; a41; a03;
   a10; a22; a21; a33; a40; a02; a14; a13; a20; a32; a44; a01].
Definition P5 : list nat :=
  [a00; a21; a42; a13; a34; a04; a20; a41; a12; a33; a03; a24; a40;
   a11; a32; a02; a23; a44; a10; a31; a01; a22; a43; a14; a30].
Definition P6 : list nat :=
  [a00; a02; a04; a01; a03; a20; a22; a24; a21; a23; a40; a42; a44;
   a41; a43; a10; a12; a14; a11; a13; a30; a32; a34; a31; a33].
Definition P7 : list nat :=
  [a00; a10; a20; a30; a40; a22; a32; a42; a02; a12; a44; a04; a14;
   a24; a34; a11; a21; a31; a41; a01; a33; a43; a03; a13; a23].
Definition P8 : list nat :=
  [a00; a11; a22; a33; a44; a32; a43; a04; a10; a21; a14; a20; a31;
   a42; a03; a41; a02; a13; a24; a30; a23; a34; a40; a01; a12].

(** ** The permutation *)

(** [MOV64(t, c0); MOV64(c0, c1); ...; MOV64(cn, t)]. *)
Fixpoint move_cycle (t : Z) (i : nat) (l : list nat) (a : list Z) : list Z :=
  match l with
  | [] => <[i := t]> a
  | j :: l => move_cycle t j l (<[i := a !!! j]> a)
  end.

Definition rotate_cycle (a : list Z) (c : list nat) : list Z :=
  match c with [] => a | i :: l => move_cycle (a !!! i) i l a end.

Definition P8_TO_P0 (a : list Z) : list Z :=
  foldl rotate_cycle a
  [[a01; a11; a43]; [a02; a22; a31]; [a03; a33; a24]; [a04; a44; a12];
   [a10; a32; a13]; [a14; a21; a20]; [a23; a42; a40]; [a30; a41; a34]].

Definition RC : list Z :=
  [0x0000000000000001; 0x0000000000008082; 0x800000000000808A; 0x8000000080008000;
   0x000000000000808B; 0x0000000080000001; 0x8000000080008081; 0x8000000000008009;
   0x000000000000008A; 0x0000000000000088; 0x0000000080008009; 0x000000008000000A;
   0x000000008000808B; 0x800000000000008B; 0x8000000000008089; 0x8000000000008003;
   0x8000000000008002; 0x8000000000000080; 0x000000000000800A; 0x800000008000000A;
   0x8000000080008081; 0x8000000000008080; 0x0000000080000001; 0x8000000080008008].

Definition KF_ELT (r s : list nat) (k : Z) (a : list Z) : list Z :=
  let a := THETA r a in
  let a := RHO r a in
  let a := KHI s a in
  IOTA k a.

(** The body of the loop [for (j = 0; j < 24; j += 8)]. *)
Definition KECCAK_8_ROUNDS (a : list Z) (j : Z) : list Z :=
  let a := KF_ELT P0 P1 (nthZ RC (j + 0)) a in
  let a := KF_ELT P1 P2 (nthZ RC (j + 1)) a in
  let a := KF_ELT P2 P3 (nthZ RC (j + 2)) a in
  let a := KF_ELT P3 P4 (nthZ RC (j + 3)) a in
  let a := KF_ELT P4 P5 (nthZ RC (j + 4)) a in
  let a := KF_ELT P5 P6 (nthZ RC (j + 5)) a in
  let a := KF_ELT P6 P7 (nthZ RC (j + 6)) a in
  let a := KF_ELT P7 P8 (nthZ RC (j + 7)) a in
  P8_TO_P0 a.

Definition KECCAK_F_1600 (a : list Z) : list Z := foldl KECCAK_8_ROUNDS a [0; 8; 16].

(** The words of the first [size] bytes of the buffer. *)
Definition INPUT_BUF (size : Z) (buf a : list Z) : list Z :=
  foldl (λ a j, alter (λ w, w ⊕ dec64le (take 8 (drop (8 * j) buf))) j a) a
    (seq 0 (Z.to_nat (size `div` 8))).

(** ** Contexts *)

Record keccak_context := MkContext {
  buf : list Z;
  ptr : Z;
  lim : Z;
  wide : list Z
}.

(** The words that are kept complemented between permutations. *)
Definition complemented : list nat := [1; 2; 8; 12; 17; 20]%nat.

Definition keccak_init (kc : keccak_context) (out_size : Z) : keccak_context :=
  MkContext (buf kc) 0 (200 - Z.shiftr out_size 2)
    (foldl (λ a i, <[i := 0xFFFFFFFFFFFFFFFF]> a) (replicate 25 0) complemented).

(** [if (ptr == lim) { INPUT_BUF(lim); KECCAK_F_1600; ... }] *)
Definition full_block (lim : Z) (b a : list Z) : list Z := KECCAK_F_1600 (INPUT_BUF lim b a).

Definition keccak_core (kc : keccak_context) (data : list Z) (len lim' : Z) : outcome keccak_context :=
  '(b, p, a) ← feed lim' (full_block lim') (buf kc) (ptr kc) (wide kc) data len;
  mret (MkContext b p (lim kc) a).

(** The bytes [u.tmp[0..j)] that [DEFCLOSE] appends to the message. Filling a
    negative number of bytes is undefined. *)
Definition close_padding (lim ptr ub n : Z) : outcome (list Z) :=
  let eb := u8 (Z.shiftr (Z.lor 0x100 (Z.land ub 0xFF)) (8 - n)) in
  if ptr =? lim - 1 then
    if n =? 7 then mret ([eb] ++ replicate (Z.to_nat (lim - 1)) 0 ++ [0x80])
    else mret [Z.lor eb 0x80]
  else
    let j := lim - ptr in
    if j <? 2 then Undef else mret ([eb] ++ replicate (Z.to_nat (j - 2)) 0 ++ [0x80]).

(** [DEFCLOSE(d, lim)]: the digest, written over [u.tmp] word by word, and the
    context afterwards. *)
Definition DEFCLOSE (d lim' : Z) (kc : keccak_context) (ub n : Z) : outcome (list Z * keccak_context) :=
  tmp ← close_padding lim' (ptr kc) ub n;
  kc ← keccak_core kc tmp (Z.of_nat (length tmp)) lim';
  let a := foldl (λ a i, alter NOT64 i a) (wide kc) complemented in
  let words := (d + 7) `div` 8 in
  if lim' + 1 <? 8 * words then Undef
  else
    dst ← load (seq 0 (Z.to_nat words) ≫= λ i, enc64le (a !!! i)) 0 d;
    mret (dst, keccak_init (MkContext (buf kc) (ptr kc) (lim kc) a) (u32 (Z.shiftl d 3))).

(** ** The functions of sph_keccak.h *)

Definition keccak_close28 := DEFCLOSE 28 144.
Definition sph_keccak224_init (cc : keccak_context) := keccak_init cc 224.
Definition sph_keccak224 (cc : keccak_context) (data : list Z) (len : Z) := keccak_core cc data len 144.
Definition sph_keccak224_addbits_and_close (cc : keccak_context) (ub n : Z) := keccak_close28 cc ub n.
Definition sph_keccak224_close (cc : keccak_context) := sph_keccak224_addbits_and_close cc 0 0.

Definition keccak_close32 := DEFCLOSE 32 136.
Definition sph_keccak256_init (cc : keccak_context) := keccak_init cc 256.
Definition sph_keccak256 (cc : keccak_context) (data : list Z) (len : Z) := keccak_core cc data len 136.
Definition sph_keccak256_addbits_and_close (cc : keccak_context) (ub n : Z) := keccak_close32 cc ub n.
Definition sph_keccak256_close (cc : keccak_context) := sph_keccak256_addbits_and_close cc 0 0.

Definition keccak_close48 := DEFCLOSE 48 104.
Definition sph_keccak384_init (cc : keccak_context) := keccak_init cc 384.
Definition sph_keccak384 (cc : keccak_context) (data : list Z) (len : Z) := keccak_core cc data len 104.
Definition sph_keccak384_addbits_and_close (cc : keccak_context) (ub n : Z) := keccak_close48 cc ub n.
Definition sph_keccak384_close (cc : keccak_context) := sph_keccak384_addbits_and_close cc 0 0.

Definition keccak_close64 := DEFCLOSE 64 72.
Definition sph_keccak512_init (cc : keccak_context) := keccak_init cc 512.
Definition sph_keccak512 (cc : keccak_context) (data : list Z) (len : Z) := keccak_core cc data len 72.
Definition sph_keccak512_addbits_and_close (cc : keccak_context) (ub n : Z) := keccak_close64 cc ub n.
Definition sph_keccak512_close (cc : keccak_context) := sph_keccak512_addbits_and_close cc 0 0.
