(* ===== verification/KeccakSpec.v ===== *)
(** * The hash function of the Keccak submission

    A specification of the permutation Keccak-f[1600] on 5 by 5 lanes of 64
    bits, with the rotation offsets and the round constants computed, and of the
    sponge with the padding 10*1 on bit strings. *)

From S2P Require Import Prelude.

(** ** Lanes and states *)

(** Rotation of a lane by [n] places, 0 ≤ [n] < 64. *)
Definition rot (w n : Z) : Z := (w * 2 ^ n) `mod` 2 ^ 64 + w `div` 2 ^ (64 - n).

Definition ones64 : Z := 2 ^ 64 - 1.

(** Lane [(x, y)] of a state is at the place [5 x + y]; coordinates are taken
    modulo 5. *)
Definition state := list Z.
Definition lane (A : state) (x y : nat) : Z := A !!! (5 * (x mod 5) + y mod 5)%nat.
Definition tabulate (f : nat → nat → Z) : state :=
  (λ i, f (i / 5)%nat (i mod 5)%nat) <$> seq 0 25.

(** ** The step mappings *)

Definition parity (A : state) (x : nat) : Z :=
  foldr Z.lxor 0 ((λ y, lane A x y) <$> seq 0 5).

Definition theta (A : state) : state :=
  let sums := parity A <$> seq 0 5 in
  tabulate (λ x y, Z.lxor (lane A x y)
    (Z.lxor (sums !!! ((x + 4) mod 5)%nat) (rot (sums !!! ((x + 1) mod 5)%nat) 1))).

(** The offsets along the walk [(x, y) -> (y, 2 x + 3 y)] from [(1, 0)] are the
    triangular numbers. *)
Fixpoint rho_walk (steps : nat) (t : Z) (x y : nat) : list (nat * Z) :=
  match steps with
  | O => []
  | S steps => ((5 * x + y)%nat, (((t + 1) * (t + 2)) `div` 2) `mod` 64)
               :: rho_walk steps (t + 1) y ((2 * x + 3 * y) mod 5)%nat
  end.

Definition rho_offsets : list Z :=
  foldl (λ l '(i, n), <[i := n]> l) (replicate 25 0) (rho_walk 24 0 1 0).

Definition rho (A : state) : state := zip_with rot A rho_offsets.

Definition pi (A : state) : state := tabulate (λ x y, lane A (x + 3 * y) x).

Definition chi (A : state) : state :=
  tabulate (λ x y, Z.lxor (lane A x y)
    (Z.land (Z.lxor (lane A (x + 1) y) ones64) (lane A (x + 2) y))).

(** The linear feedback shift register x^8 + x^6 + x^5 + x^4 + 1. *)
Definition lfsr_step (r : Z) : Z := if r <? 128 then 2 * r else Z.lxor (2 * r) 0x171.
Definition rc_bit (t : nat) : Z := Nat.iter t lfsr_step 1 `mod` 2.

Definition round_constant (k : nat) : Z :=
  foldr Z.add 0 ((λ j, rc_bit (j + 7 * k) * 2 ^ (2 ^ Z.of_nat j - 1)) <$> seq 0 7).

Definition iota (k : nat) (A : state) : state :=
  match A with [] => [] | w :: A => Z.lxor w (round_constant k) :: A end.

Definition round (A : state) (k : nat) : state := iota k (chi (pi (rho (theta A)))).

Definition keccak_f (A : state) : state := foldl round A (seq 0 24).

(** ** The sponge *)

(** Bytes are strings of eight bits, the least significant one first. *)
Fixpoint pack (bits : list Z) : list Z :=
  match bits with
  | b0 :: b1 :: b2 :: b3 :: b4 :: b5 :: b6 :: b7 :: bits =>
    of_bits [b7; b6; b5; b4; b3; b2; b1; b0] :: pack bits
  | _ => []
  end.

Definition from_bytes (l : list Z) : Z := foldr (λ b w, b + 256 * w) 0 l.
Definition lane_bytes (w : Z) : list Z := (λ i, (w `div` 256 ^ i) `mod` 256) <$> [0; 1; 2; 3; 4; 5; 6; 7].

(** The lanes of a block, in the order [(0,0), (1,0), ..., (0,1), ...]. *)
Definition block_lanes (block : list Z) : state :=
  tabulate (λ x y, from_bytes (take 8 (drop (8 * (x + 5 * y)) block))).

Definition absorb (A : state) (block : list Z) : state :=
  keccak_f (zip_with Z.lxor A (block_lanes block)).

Section sponge.
Context (rate : nat).

Fixpoint absorb_all (n : nat) (A : state) (msg : list Z) : state :=
  match n with
  | O => A
  | S n => absorb_all n (absorb A (take rate msg)) (drop rate msg)
  end.

(** A message of [len] bytes is followed by the [n] high bits of [ub] (the
    lowest of them first), a one, as few zeros as possible, and a one. *)
Definition extra_bits (ub : Z) (n : nat) : list Z := drop (8 - n) (rev (to_bits 8 ub)).

Definition padded_blocks (len n : nat) : nat :=
  Nat.div (8 * len + n + 2 + 8 * rate - 1) (8 * rate).

Definition padding (len : nat) (ub : Z) (n : nat) : list Z :=
  pack (extra_bits ub n ++ [1]
    ++ replicate (padded_blocks len n * (8 * rate) - 8 * len - n - 2) 0 ++ [1]).

Definition squeeze (A : state) (d : nat) : list Z :=
  take d (seq 0 25 ≫= λ i, lane_bytes (lane A i (i / 5))).

Definition keccak (d : nat) (msg : list Z) (ub : Z) (n : nat) : list Z :=
  let padded := msg ++ padding (length msg) ub n in
  squeeze (absorb_all (padded_blocks (length msg) n) (replicate 25 0) padded) d.
End sponge.
