(* ===== verification/KeccakTheory.v ===== *)
(** * The permutation of keccak.c against the specification

    A round of the code reads the words of the context under the names of one
    list of arguments and leaves them under those of the next list; six lanes
    are kept complemented. The [view] of the words under a list of names,
    complemented, is the state of the specification. *)

From Stdlib Require Import Btauto.
From S2P Require Import Prelude CModel SphTypes SphBuffer Keccak KeccakSpec.

(** ** Operations on words *)

Lemma word_u64 x : is_word (u64 x).
Proof. apply Z.mod_pos_bound. lia. Qed.

Lemma word_high w i : is_word w → 64 ≤ i → Z.testbit w i = false.
Proof. rewrite word_bits. intros [_ H]. apply H. Qed.

Lemma word_eq a b :
  is_word a → is_word b → (∀ i, 0 ≤ i < 64 → Z.testbit a i = Z.testbit b i) → a = b.
Proof.
  intros Ha Hb H. apply Z.bits_inj'. intros i Hi. destruct (decide (i < 64)); [apply H; lia|].
  by rewrite !word_high by (done || lia).
Qed.

Lemma word_lor a b : is_word a → is_word b → is_word (Z.lor a b).
Proof.
  rewrite !word_bits. intros [Ha Ha'] [Hb Hb']. split; [by apply Z.lor_nonneg|].
  intros i Hi. by rewrite Z.lor_spec, Ha', Hb' by done.
Qed.

Lemma word_land a b : is_word a → is_word b → is_word (Z.land a b).
Proof.
  rewrite !word_bits. intros [Ha Ha'] [Hb Hb']. split; [apply Z.land_nonneg; by left|].
  intros i Hi. by rewrite Z.land_spec, Ha' by done.
Qed.

Lemma word_rotl x n : is_word (SPH_ROTL64 x n).
Proof. apply word_u64. Qed.

Lemma word_not x : is_word (NOT64 x).
Proof. apply word_u64. Qed.

Lemma word_ones : is_word ones64.
Proof. by vm_compute. Qed.

Lemma word_0 : is_word 0.
Proof. by vm_compute. Qed.

Create HintDb words.
#[export] Hint Resolve word_lxor word_lor word_land word_rotl word_not word_ones word_0 word_u64 : words.

Lemma bit_ones i : 0 ≤ i < 64 → Z.testbit ones64 i = true.
Proof. intros Hi. change ones64 with (Z.ones 64). by rewrite Z.ones_spec_low. Qed.

Lemma NOT64_ones x : is_word x → NOT64 x = x ⊕ ones64.
Proof.
  intros Hx. apply word_eq; auto with words. intros i Hi.
  unfold NOT64, u64. rewrite Z.mod_pow2_bits_low, Z.lnot_spec, Z.lxor_spec, bit_ones by lia.
  by rewrite xorb_true_r.
Qed.

(** Rotations move the bits around. *)
Lemma bit_rotl x n i :
  is_word x → 0 ≤ n < 64 → 0 ≤ i < 64 →
  Z.testbit (SPH_ROTL64 x n) i = Z.testbit x ((i - n) `mod` 64).
Proof.
  intros Hx Hn Hi. unfold SPH_ROTL64, u64.
  rewrite Z.mod_pow2_bits_low, Z.lor_spec, Z.shiftl_spec, Z.shiftr_spec by lia.
  destruct (decide (i < n)).
  - rewrite (Z.testbit_neg_r x (i - n)) by lia.
    replace ((i - n) `mod` 64) with (i + (64 - n)); [done|].
    apply (Z.mod_unique_pos _ _ (-1)); lia.
  - rewrite (word_high x (i + (64 - n))), orb_false_r by (done || lia).
    by rewrite Z.mod_small by lia.
Qed.

Lemma rotl_rot x n : is_word x → 0 ≤ n < 64 → SPH_ROTL64 x n = rot x n.
Proof.
  intros Hx Hn. unfold rot.
  rewrite <- Z.shiftl_mul_pow2, <- Z.shiftr_div_pow2 by lia.
  assert (D : Z.land (Z.shiftl x n `mod` 2 ^ 64) (Z.shiftr x (64 - n)) = 0).
  { apply Z.bits_inj'. intros i Hi. rewrite Z.land_spec, Z.bits_0, Z.shiftr_spec by lia.
    destruct (decide (i < n)).
    - rewrite Z.mod_pow2_bits_low, Z.shiftl_spec, Z.testbit_neg_r by lia. done.
    - rewrite (word_high x (i + (64 - n))) by (done || lia). apply andb_false_r. }
  rewrite Z.add_nocarry_lxor, Z.lxor_lor by done.
  unfold SPH_ROTL64, u64. apply Z.bits_inj'. intros i Hi. rewrite Z.lor_spec.
  destruct (decide (i < 64)).
  - by rewrite !Z.mod_pow2_bits_low, Z.lor_spec by lia.
  - rewrite !Z.mod_pow2_bits_high, Z.shiftr_spec, (word_high x) by (done || lia). done.
Qed.

(** Equality of words, bit by bit. *)
Ltac word_bits :=
  apply word_eq; [auto 20 with words..|];
  let i := fresh "i" in let Hi := fresh in intros i Hi;
  rewrite ?NOT64_ones by (auto 20 with words);
  repeat first
    [ rewrite Z.lxor_spec | rewrite Z.land_spec | rewrite Z.lor_spec
    | rewrite bit_ones by (done || apply Z.mod_pos_bound; done)
    | rewrite bit_rotl by (auto 20 with words || lia)
    | rewrite Z.bits_0 ];
  repeat match goal with |- context [Z.testbit ?a ?n] => generalize (Z.testbit a n); intros ? end;
  btauto.

Lemma rotl_ones x n : is_word x → 0 ≤ n < 64 → SPH_ROTL64 (x ⊕ ones64) n = SPH_ROTL64 x n ⊕ ones64.
Proof. intros Hx Hn. word_bits. Qed.

Lemma rotl_0 x : is_word x → SPH_ROTL64 x 0 = x.
Proof.
  intros Hx. apply word_eq; [auto with words..|]. intros i Hi.
  by rewrite bit_rotl, Z.sub_0_r, Z.mod_small by (done || lia).
Qed.

Lemma TH_ELT_spec c0 c1 c2 c3 c4 d0 d1 d2 d3 d4 :
  is_word d0 → is_word d1 → is_word d2 → is_word d3 → is_word d4 →
  TH_ELT c0 c1 c2 c3 c4 d0 d1 d2 d3 d4
  = foldr Z.lxor 0 [c0; c1; c2; c3; c4] ⊕ SPH_ROTL64 (foldr Z.lxor 0 [d0; d1; d2; d3; d4]) 1.
Proof.
  intros. unfold TH_ELT. cbn [foldr].
  replace (d0 ⊕ d1 ⊕ d4 ⊕ (d2 ⊕ d3)) with (d0 ⊕ (d1 ⊕ (d2 ⊕ (d3 ⊕ (d4 ⊕ 0))))).
  - generalize (SPH_ROTL64 (d0 ⊕ (d1 ⊕ (d2 ⊕ (d3 ⊕ (d4 ⊕ 0))))) 1). intros r.
    apply Z.bits_inj'. intros i _. rewrite !Z.lxor_spec, Z.bits_0. btauto.
  - apply Z.bits_inj'. intros i _. rewrite !Z.lxor_spec, Z.bits_0. btauto.
Qed.

(** ** Views

    The words of a context under a list of names. *)

Definition names_ok (P : list nat) : Prop :=
  length P = 25%nat ∧ NoDup P ∧ Forall (λ i, (i < 25)%nat) P.

#[export] Instance names_ok_dec P : Decision (names_ok P).
Proof. unfold names_ok. apply _. Defined.

Definition view (P : list nat) (a : list Z) : list Z := (λ i, a !!! i) <$> P.

(** The names of a view itself. *)
Definition own : list nat := seq 0 25.

Section view.
Context (P : list nat) (HP : names_ok P).

Lemma view_length a : length (view P a) = 25%nat.
Proof. unfold view. rewrite length_fmap. apply HP. Qed.

Lemma view_lookup a j : (j < 25)%nat → view P a !!! j = a !!! (P !!! j).
Proof.
  intros Hj. destruct HP as (Hl & _ & _). unfold view.
  destruct (lookup_lt_is_Some_2 P j) as [i Hi]; [lia|].
  rewrite (list_lookup_total_correct _ _ _ Hi). apply list_lookup_total_correct.
  by rewrite list_lookup_fmap, Hi.
Qed.

Lemma get_view a x y : (5 * x + y < 25)%nat → get P a x y = get own (view P a) x y.
Proof.
  intros Hj. unfold get, arg, own.
  rewrite (list_lookup_total_correct (seq 0 25) _ (5 * x + y)%nat) by (by rewrite lookup_seq_lt).
  by rewrite view_lookup.
Qed.

Lemma view_alter f a x y :
  length a = 25%nat → (5 * x + y < 25)%nat →
  view P (alter f (arg P x y) a) = alter f (arg own x y) (view P a).
Proof.
  intros Ha Hj. unfold arg, own.
  rewrite (list_lookup_total_correct (seq 0 25) _ (5 * x + y)%nat) by (by rewrite lookup_seq_lt).
  generalize dependent (5 * x + y)%nat. intros j Hj. destruct HP as (Hl & HN & HF).
  destruct (lookup_lt_is_Some_2 P j) as [p Hp]; [lia|].
  rewrite (list_lookup_total_correct _ _ _ Hp).
  apply list_eq. intros i. unfold view. rewrite list_lookup_fmap.
  destruct (decide (i = j)) as [->|Hne].
  - rewrite list_lookup_alter_eq, list_lookup_fmap, Hp. simpl. f_equal.
    eapply Forall_lookup in HF; [|done].
    destruct (lookup_lt_is_Some_2 a p) as [w Hw]; [lia|].
    apply list_lookup_total_correct. rewrite list_lookup_alter_eq, Hw. simpl.
    by rewrite (list_lookup_total_correct _ _ _ Hw).
  - rewrite list_lookup_alter_ne, list_lookup_fmap by done.
    destruct (P !! i) as [q|] eqn:Hq; [|done]. simpl. f_equal.
    rewrite !list_lookup_total_alt, list_lookup_alter_ne; [done|].
    intros ->. apply Hne. eapply NoDup_lookup; done.
Qed.

Lemma view_insert w a x y :
  length a = 25%nat → (5 * x + y < 25)%nat →
  view P (<[arg P x y := w]> a) = <[arg own x y := w]> (view P a).
Proof. intros Ha Hj. rewrite !list_insert_alter. by apply view_alter. Qed.

(** The steps of a round under the names [P] are the steps on the view. *)
Lemma length_xor_sheet x t a : length (xor_sheet P x t a) = length a.
Proof. unfold xor_sheet. cbn [foldl]. by rewrite !length_alter. Qed.

Lemma xor_sheet_view x t a :
  length a = 25%nat → (x < 5)%nat → view P (xor_sheet P x t a) = xor_sheet own x t (view P a).
Proof.
  intros Ha Hx. unfold xor_sheet. cbn [foldl].
  by rewrite !view_alter by (rewrite ?length_alter; lia).
Qed.

Lemma length_THETA a : length (THETA P a) = length a.
Proof. unfold THETA. cbv zeta. by rewrite !length_xor_sheet. Qed.

Lemma THETA_view a : length a = 25%nat → view P (THETA P a) = THETA own (view P a).
Proof.
  intros Ha. unfold THETA. rewrite !get_view by lia. cbv zeta.
  by rewrite !xor_sheet_view by (rewrite ?length_xor_sheet; lia).
Qed.

Lemma length_RHO a : length (RHO P a) = length a.
Proof. unfold RHO. cbn [foldl]. by rewrite !length_alter. Qed.

Lemma RHO_view a : length a = 25%nat → view P (RHO P a) = RHO own (view P a).
Proof.
  intros Ha. unfold RHO. cbn [foldl].
  by rewrite !view_alter by (rewrite ?length_alter; lia).
Qed.

Lemma length_move y c0 c1 c2 c3 c4 a : length (move P y c0 c1 c2 c3 c4 a) = length a.
Proof. unfold move. by rewrite !length_insert. Qed.

Lemma move_view y c0 c1 c2 c3 c4 a :
  length a = 25%nat → (y < 5)%nat →
  view P (move P y c0 c1 c2 c3 c4 a) = move own y c0 c1 c2 c3 c4 (view P a).
Proof.
  intros Ha Hy. unfold move. by rewrite !view_insert by (rewrite ?length_insert; lia).
Qed.

Ltac khi_view := intros Ha; cbv beta zeta delta [KHI_0 KHI_1 KHI_2 KHI_3 KHI_4];
  rewrite move_view, !get_view by lia; reflexivity.

Lemma KHI_0_view a : length a = 25%nat → view P (KHI_0 P a) = KHI_0 own (view P a).
Proof. khi_view. Qed.
Lemma KHI_1_view a : length a = 25%nat → view P (KHI_1 P a) = KHI_1 own (view P a).
Proof. khi_view. Qed.
Lemma KHI_2_view a : length a = 25%nat → view P (KHI_2 P a) = KHI_2 own (view P a).
Proof. khi_view. Qed.
Lemma KHI_3_view a : length a = 25%nat → view P (KHI_3 P a) = KHI_3 own (view P a).
Proof. khi_view. Qed.
Lemma KHI_4_view a : length a = 25%nat → view P (KHI_4 P a) = KHI_4 own (view P a).
Proof. khi_view. Qed.

Lemma length_KHI_parts a :
  length (KHI_0 P a) = length a ∧ length (KHI_1 P a) = length a ∧ length (KHI_2 P a) = length a
  ∧ length (KHI_3 P a) = length a ∧ length (KHI_4 P a) = length a.
Proof. by repeat split; apply length_move. Qed.

Lemma length_KHI a : length (KHI P a) = length a.
Proof.
  unfold KHI. etrans; [apply length_KHI_parts|]. etrans; [apply length_KHI_parts|].
  etrans; [apply length_KHI_parts|]. etrans; [apply length_KHI_parts|]. apply length_KHI_parts.
Qed.

Lemma KHI_view a : length a = 25%nat → view P (KHI P a) = KHI own (view P a).
Proof.
  intros Ha. unfold KHI.
  pose proof (length_KHI_parts a) as (L0 & _).
  pose proof (length_KHI_parts (KHI_0 P a)) as (_ & L1 & _).
  pose proof (length_KHI_parts (KHI_1 P (KHI_0 P a))) as (_ & _ & L2 & _).
  pose proof (length_KHI_parts (KHI_2 P (KHI_1 P (KHI_0 P a)))) as (_ & _ & _ & L3 & _).
  by rewrite KHI_4_view, KHI_3_view, KHI_2_view, KHI_1_view, KHI_0_view by congruence.
Qed.
End view.

(** ** Complemented lanes *)

(** Adding [ones64] to the lanes where a mask is set. *)
Definition complement (mask : list bool) (A : list Z) : list Z :=
  zip_with (λ (m : bool) w, if m then w ⊕ ones64 else w) mask A.

(** The masks between rounds and between [THETA] and [KHI], by the places
    [5 x + y]. *)
Definition mask_round : list bool :=
  [false; false; false; false; true;   true; false; false; false; false;
   true; false; true; true; false;     false; true; false; false; false;
   false; false; false; false; false].
Definition mask_theta : list bool :=
  [true; true; true; true; false;      true; false; false; false; false;
   true; false; true; true; false;     true; false; true; true; true;
   false; false; false; false; false].

(** A state of 25 lanes of 64 bits. *)
Definition lanes (A : list Z) : Prop := length A = 25%nat ∧ Forall is_word A.

Ltac explode A HA :=
  let Hl := fresh in let HF := fresh in
  destruct HA as [Hl HF];
  do 25 (destruct A as [|? A]; [discriminate Hl|]); destruct A as [|? A]; [|discriminate Hl];
  clear Hl; repeat (apply Forall_cons in HF as [? HF]); clear HF.

(** The lanes of both sides, by the bits. *)
Ltac lanes_eq := repeat (apply f_equal2; [word_bits|]); reflexivity.

Lemma theta_complement A :
  lanes A → THETA own (complement mask_round A) = complement mask_theta (theta A).
Proof.
  intros HA. explode A HA.
  cbv -[Z.lxor Z.land Z.lor TH_ELT rot ones64].
  rewrite !TH_ELT_spec by auto with words. cbn [foldr].
  rewrite <- !rotl_rot by (auto 20 with words || lia).
  lanes_eq.
Qed.

Lemma rho_complement A :
  lanes A → RHO own (complement mask_theta A) = complement mask_theta (rho A).
Proof.
  intros HA. explode A HA.
  cbv -[Z.lxor Z.land Z.lor SPH_ROTL64 rot ones64].
  rewrite <- !rotl_rot by (auto 20 with words || lia).
  rewrite !rotl_ones, rotl_0 by (auto 20 with words || lia). reflexivity.
Qed.

(** Between [RHO] and [KHI] the lanes move by a change of names. *)
Lemma khi_complement A :
  lanes A → KHI own (pi (complement mask_theta A)) = complement mask_round (chi (pi A)).
Proof.
  intros HA. explode A HA.
  cbv -[Z.lxor Z.land Z.lor NOT64 ones64]. lanes_eq.
Qed.

Lemma iota_complement k A :
  IOTA (round_constant k) (complement mask_round A) = complement mask_round (iota k A).
Proof.
  unfold iota. generalize (round_constant k). intros r.
  destruct A as [|w A]; [done|]. reflexivity.
Qed.

(** *** The step mappings keep lanes of 64 bits *)

Lemma lane_word A x y : lanes A → is_word (lane A x y).
Proof.
  intros [Hl HF]. unfold lane.
  pose proof (Nat.mod_upper_bound x 5 ltac:(lia)). pose proof (Nat.mod_upper_bound y 5 ltac:(lia)).
  destruct (lookup_lt_is_Some_2 A (5 * (x mod 5) + y mod 5)%nat) as [w E]; [lia|].
  rewrite (list_lookup_total_correct _ _ _ E). by eapply Forall_lookup in HF.
Qed.

Lemma lanes_tabulate f : (∀ x y, is_word (f x y)) → lanes (tabulate f).
Proof. intros Hf. split; [done|]. apply Forall_fmap, Forall_true. intros i. apply Hf. Qed.

Lemma lanes_theta A : lanes A → lanes (theta A).
Proof.
  intros HA. explode A HA. cbv -[Z.lxor rot is_word ones64].
  rewrite <- !rotl_rot by (auto 20 with words || lia).
  split; [done|]. repeat (apply Forall_cons_2; [auto 20 with words|]). apply Forall_nil_2.
Qed.

Lemma lanes_rho A : lanes A → lanes (rho A).
Proof.
  intros HA. explode A HA. cbv -[Z.lxor rot is_word ones64].
  rewrite <- !rotl_rot by (auto 20 with words || lia).
  split; [done|]. repeat (apply Forall_cons_2; [auto 20 with words|]). apply Forall_nil_2.
Qed.

Lemma lanes_pi A : lanes A → lanes (pi A).
Proof. intros HA. apply lanes_tabulate. intros x y. by apply lane_word. Qed.

Lemma lanes_chi A : lanes A → lanes (chi A).
Proof. intros HA. apply lanes_tabulate. intros x y. auto 20 using lane_word with words. Qed.

Lemma lanes_iota k A : (k < 24)%nat → lanes A → lanes (iota k A).
Proof.
  intros Hk [Hl HF]. assert (Hr : is_word (round_constant k)).
  { assert (C : forallb (λ k, bool_decide (is_word (round_constant k))) (seq 0 24) = true)
      by (vm_compute; reflexivity).
    rewrite forallb_forall in C. apply (bool_decide_eq_true _), C, in_seq. lia. }
  destruct A as [|w A]; [done|]. split; [done|].
  apply Forall_cons in HF as [Hw HF]. constructor; [by apply word_lxor|done].
Qed.

Lemma lanes_round k A : (k < 24)%nat → lanes A → lanes (round A k).
Proof.
  intros Hk HA. apply lanes_iota; [done|]. by apply lanes_chi, lanes_pi, lanes_rho, lanes_theta.
Qed.

(** ** Rounds *)

(** The words [a] under the names [P] hold the state [A]. *)
Record holds (P : list nat) (a : list Z) (A : list Z) : Prop := Holds {
  holds_length : length a = 25%nat;
  holds_lanes : lanes A;
  holds_view : view P a = complement mask_round A
}.

(** The names after a round. *)
Definition pi_names (P : list nat) : list nat :=
  (λ i, arg P ((i / 5 + 3 * (i mod 5)) mod 5) (i / 5)) <$> seq 0 25.

Lemma view_pi P a : names_ok P → view (pi_names P) a = pi (view P a).
Proof.
  intros HP. unfold view at 1, pi_names, pi, tabulate. rewrite <- list_fmap_compose.
  apply list_fmap_ext. intros _ i Hi%list_elem_of_lookup_2. apply elem_of_seq in Hi.
  unfold compose, lane, arg. rewrite view_lookup; [|done|].
  - do 2 f_equal. rewrite (Nat.mod_small (i / 5)); [done|]. apply Nat.Div0.div_lt_upper_bound. lia.
  - pose proof (Nat.mod_upper_bound (i / 5 + 3 * (i mod 5)) 5 ltac:(lia)).
    pose proof (Nat.mod_upper_bound (i / 5) 5 ltac:(lia)). lia.
Qed.

(** Names that a round may start and end with. *)
Definition step_ok (P P' : list nat) : Prop :=
  names_ok P ∧ names_ok P' ∧ P' = pi_names P ∧ arg P' 0 0 = a00.

#[export] Instance step_ok_dec P P' : Decision (step_ok P P').
Proof. unfold step_ok. apply _. Defined.

Lemma KF_ELT_spec P P' k a A :
  step_ok P P' → (k < 24)%nat → holds P a A →
  holds P' (KF_ELT P P' (round_constant k) a) (round A k).
Proof.
  intros (HP & HP' & Hpi & H0) Hk [Ha HA Hv].
  assert (HAt : lanes (theta A)) by (by apply lanes_theta).
  split; [|by apply lanes_round|].
  - unfold KF_ELT, IOTA. by rewrite length_alter, length_KHI, length_RHO, length_THETA.
  - unfold KF_ELT, IOTA. cbv zeta. rewrite <- H0.
    rewrite view_alter by (rewrite ?length_KHI, ?length_RHO, ?length_THETA; (done || lia)).
    rewrite KHI_view by (rewrite ?length_RHO, ?length_THETA; done).
    rewrite Hpi, view_pi, RHO_view, THETA_view, Hv by (rewrite ?length_THETA; done).
    rewrite theta_complement, rho_complement, khi_complement by (done || by apply lanes_rho).
    apply iota_complement.
Qed.

Lemma RC_constants k : (k < 24)%nat → nthZ RC (Z.of_nat k) = round_constant k.
Proof.
  intros Hk. assert (C : forallb (λ k, nthZ RC (Z.of_nat k) =? round_constant k) (seq 0 24) = true)
    by (vm_compute; reflexivity).
  rewrite forallb_forall in C. apply Z.eqb_eq, C, in_seq. lia.
Qed.

Lemma KF_ELT_RC P P' j k a A :
  step_ok P P' → 0 ≤ j + k < 24 → holds P a A →
  holds P' (KF_ELT P P' (nthZ RC (j + k)) a) (round A (Z.to_nat (j + k))).
Proof.
  intros HP Hk Ha. rewrite <- (Z2Nat.id (j + k)) at 1 by lia.
  rewrite RC_constants by lia. apply KF_ELT_spec; [done|lia|done].
Qed.

Lemma P8_TO_P0_spec a A : holds P8 a A → holds P0 (P8_TO_P0 a) A.
Proof.
  intros [Ha HA Hv]. split; [|done|rewrite <- Hv]; clear Hv.
  - do 25 (destruct a as [|? a]; [done|]). by destruct a.
  - do 25 (destruct a as [|? a]; [done|]). by destruct a.
Qed.

Lemma KECCAK_8_ROUNDS_spec a A j :
  holds P0 a A → 0 ≤ j ≤ 16 →
  holds P0 (KECCAK_8_ROUNDS a j)
    (foldl round A ((λ k, Z.to_nat (j + k)) <$> [0; 1; 2; 3; 4; 5; 6; 7])).
Proof.
  intros HA Hj. unfold KECCAK_8_ROUNDS. cbn [fmap list_fmap foldl].
  apply P8_TO_P0_spec.
  do 8 (apply KF_ELT_RC; [apply (bool_decide_unpack _); vm_compute; exact I|lia|]). done.
Qed.

(** The permutation of the code is that of the specification. *)
Lemma KECCAK_F_1600_spec a A : holds P0 a A → holds P0 (KECCAK_F_1600 a) (keccak_f A).
Proof.
  intros HA. unfold KECCAK_F_1600, keccak_f. cbn [foldl].
  assert (E : seq 0 24 = ((λ k, Z.to_nat (0 + k)) <$> [0; 1; 2; 3; 4; 5; 6; 7])
    ++ ((λ k, Z.to_nat (8 + k)) <$> [0; 1; 2; 3; 4; 5; 6; 7])
    ++ ((λ k, Z.to_nat (16 + k)) <$> [0; 1; 2; 3; 4; 5; 6; 7])) by reflexivity.
  rewrite E, !foldl_app. by repeat (apply KECCAK_8_ROUNDS_spec; [|lia]).
Qed.
