(* ===== verification/KeccakContext.v ===== *)
(** * The sponge of keccak.c

    Input of blocks, padding and closing of contexts, and the invariant of a
    context that has absorbed a message. *)

From S2P Require Import Prelude CModel SphTypes SphBuffer Keccak KeccakSpec KeccakTheory.

(** ** Lanes and bytes *)

Lemma from_bytes_dec64le l : Forall is_byte l → from_bytes l = dec64le l.
Proof.
  induction 1 as [|b l Hb _ IH]; [done|]. cbn [from_bytes foldr].
  change (foldr _ 0 l) with (from_bytes l). rewrite IH.
  destruct (dec64le_cons b l Hb) as [Hlow Hdiv].
  change 0xFF with (Z.ones 8) in Hlow. rewrite Z.land_ones in Hlow by lia.
  rewrite Z.shiftr_div_pow2 in Hdiv by lia.
  pose proof (Z.div_mod (dec64le (b :: l)) (2 ^ 8) ltac:(lia)). lia.
Qed.

Lemma lane_bytes_enc64le w : lane_bytes w = enc64le w.
Proof.
  apply list_fmap_ext. intros _ i Hi%list_elem_of_lookup_2.
  assert (0 ≤ i) by (set_unfold; lia).
  change 0xFF with (Z.ones 8). rewrite Z.land_ones, Z.shiftr_div_pow2 by lia.
  by rewrite Z.pow_mul_r by lia.
Qed.

Lemma from_bytes_word l : Forall is_byte l → (length l ≤ 8)%nat → is_word (from_bytes l).
Proof.
  intros HF Hl. rewrite from_bytes_dec64le by done. pose proof (dec64le_range l HF) as H.
  unfold is_word. split; [lia|]. eapply Z.lt_le_trans; [apply H|].
  apply Z.pow_le_mono_r; lia.
Qed.

Lemma lanes_block_lanes block : Forall is_byte block → lanes (block_lanes block).
Proof.
  intros HF. apply lanes_tabulate. intros x y. apply from_bytes_word.
  - by apply Forall_take, Forall_drop.
  - rewrite length_take. lia.
Qed.

(** ** Input *)

Lemma foldl_ext_in {A B} (f g : A → B → A) l a :
  (∀ a x, x ∈ l → f a x = g a x) → foldl f a l = foldl g a l.
Proof.
  revert a. induction l as [|x l IH]; intros a H; [done|]. cbn [foldl].
  rewrite H by left. apply IH. intros a' y Hy. apply H. by right.
Qed.

Lemma take_drop_take {A} k n m (l : list A) :
  (n + k ≤ m)%nat → take k (drop n (take m l)) = take k (drop n l).
Proof. intros H. rewrite skipn_firstn_comm, take_take. f_equal. lia. Qed.

Lemma words_of_bytes m : Z.to_nat (Z.of_nat (8 * m) `div` 8) = m.
Proof. replace (Z.of_nat (8 * m)) with (Z.of_nat m * 8) by lia. rewrite Z.div_mul by lia. lia. Qed.

Lemma INPUT_BUF_prefix m b a :
  INPUT_BUF (Z.of_nat (8 * m)) b a = INPUT_BUF (Z.of_nat (8 * m)) (take (8 * m) b) a.
Proof.
  unfold INPUT_BUF. rewrite words_of_bytes. apply foldl_ext_in. intros a' j Hj%elem_of_seq.
  rewrite take_drop_take by lia. done.
Qed.

(** The words of a block of [m] words, the others zero. *)
Definition block_words (m : nat) (b : list Z) : list Z :=
  (λ i, if decide (i < m)%nat then dec64le (take 8 (drop (8 * i) b)) else 0) <$> seq 0 25.

Lemma INPUT_BUF_words m b a :
  length a = 25%nat → INPUT_BUF (Z.of_nat (8 * m)) b a = zip_with Z.lxor a (block_words m b).
Proof.
  intros Ha. unfold INPUT_BUF. rewrite words_of_bytes.
  apply list_eq. intros i.
  assert (L : foldl (λ a j, alter (λ w, w ⊕ dec64le (take 8 (drop (8 * j) b))) j a) a (seq 0 m) !! i
    = (λ w, w ⊕ if decide (i < m)%nat then dec64le (take 8 (drop (8 * i) b)) else 0) <$> a !! i).
  { induction m as [|m IH].
    - simpl. destruct (a !! i); [|done]. simpl. by rewrite Z.lxor_0_r.
    - rewrite seq_S, foldl_app. cbn [foldl Nat.add]. destruct (decide (i = m)) as [->|Hne].
      + rewrite list_lookup_alter_eq, IH, decide_False, decide_True by lia.
        destruct (a !! m); [|done]. simpl. by rewrite Z.lxor_0_r.
      + rewrite list_lookup_alter_ne, IH by done. destruct (a !! i); [|done].
        simpl. do 2 f_equal. repeat case_decide; done || lia. }
  rewrite L, lookup_zip_with. unfold block_words. rewrite list_lookup_fmap.
  destruct (a !! i) as [w|] eqn:E; [|done]. apply lookup_lt_Some in E.
  by rewrite lookup_seq_lt by lia.
Qed.

(** The array [wide] holds the lanes row by row. *)
Lemma P0_rows : P0 = (λ i, (i / 5 + 5 * (i mod 5))%nat) <$> seq 0 25.
Proof. reflexivity. Qed.

Lemma view_block_words m b :
  Forall is_byte b → view P0 (block_words m b) = block_lanes (take (8 * m) b).
Proof.
  intros HF. unfold view, block_lanes, tabulate. rewrite P0_rows, <- list_fmap_compose.
  apply list_fmap_ext. intros _ i Hi%list_elem_of_lookup_2. apply elem_of_seq in Hi.
  unfold compose, block_words.
  assert (i / 5 < 5)%nat by (apply Nat.Div0.div_lt_upper_bound; lia).
  pose proof (Nat.mod_upper_bound i 5 ltac:(lia)).
  rewrite (list_lookup_total_correct _ (i / 5 + 5 * (i mod 5))%nat _)
    by (rewrite list_lookup_fmap, lookup_seq_lt by lia; reflexivity).
  case_decide.
  - rewrite take_drop_take, from_bytes_dec64le by (lia || by apply Forall_take, Forall_drop). done.
  - rewrite drop_ge by (rewrite length_take; lia). done.
Qed.

Lemma view_zip P a W :
  names_ok P → length a = 25%nat → length W = 25%nat →
  view P (zip_with Z.lxor a W) = zip_with Z.lxor (view P a) (view P W).
Proof.
  intros (_ & _ & HF) Ha HW. unfold view. induction HF as [|i P Hi _ IH]; [done|].
  cbn [fmap list_fmap zip_with]. f_equal; [|exact IH].
  destruct (lookup_lt_is_Some_2 a i) as [x Hx]; [lia|].
  destruct (lookup_lt_is_Some_2 W i) as [y Hy]; [lia|].
  rewrite (list_lookup_total_correct _ _ _ Hx), (list_lookup_total_correct _ _ _ Hy).
  apply list_lookup_total_correct. by rewrite lookup_zip_with, Hx, Hy.
Qed.

Lemma complement_zip mask A W :
  complement mask (zip_with Z.lxor A W) = zip_with Z.lxor (complement mask A) W.
Proof.
  unfold complement. revert A W. induction mask as [|b mask IH]; intros [|x A] [|y W]; [done..|].
  cbn [zip_with]. rewrite IH. destruct b; [|done]. f_equal.
  by rewrite !Z.lxor_assoc, (Z.lxor_comm y).
Qed.

Lemma lanes_zip A W : lanes A → lanes W → lanes (zip_with Z.lxor A W).
Proof.
  intros [Ha HA] [Hw HW]. split; [rewrite length_zip_with; lia|]. clear Ha Hw.
  revert W HW. induction HA as [|x A Hx _ IH]; intros W HW; [constructor|].
  destruct HW as [|y W Hy HW]; constructor; [by apply word_lxor|by apply IH].
Qed.

(** A full block is absorbed as the specification says. *)
Lemma absorb_holds m b a A :
  holds P0 a A → Forall is_byte b → (m ≤ 25)%nat →
  holds P0 (KECCAK_F_1600 (INPUT_BUF (Z.of_nat (8 * m)) b a)) (absorb A (take (8 * m) b)).
Proof.
  intros [Ha HA Hv] HF Hm. apply KECCAK_F_1600_spec.
  assert (HP : names_ok P0) by (apply (bool_decide_unpack _); vm_compute; exact I).
  rewrite INPUT_BUF_words by done. split.
  - rewrite length_zip_with. change (length (block_words m b)) with 25%nat. lia.
  - apply lanes_zip; [done|]. by apply lanes_block_lanes, Forall_take.
  - by rewrite view_zip, view_block_words, Hv, complement_zip by done.
Qed.

(** ** Padding *)

Lemma pack_app l1 l2 : length l1 = 8%nat → pack (l1 ++ l2) = pack l1 ++ pack l2.
Proof. intros H. do 8 (destruct l1 as [|? l1]; [done|]). by destruct l1. Qed.

Lemma pack_zeros k l : pack (replicate (8 * k) 0 ++ l) = replicate k 0 ++ pack l.
Proof.
  induction k as [|k IH]; [done|].
  replace (8 * S k)%nat with (8 + 8 * k)%nat by lia.
  rewrite replicate_add, <- app_assoc, pack_app, IH by done. done.
Qed.

Lemma pack_last : pack (replicate 7 0 ++ [1]) = [0x80].
Proof. reflexivity. Qed.

(** The first byte: the extra bits and the one behind them. *)
Definition end_byte (ub n : Z) : Z := u8 (Z.shiftr (Z.lor 0x100 (Z.land ub 0xFF)) (8 - n)).

Definition end_byte_ok (n : nat) (ub : Z) : bool :=
  let e := end_byte ub (Z.of_nat n) in
  bool_decide (pack (extra_bits ub n ++ [1] ++ replicate (7 - n) 0) = [e])
  && ((n =? 7)%nat || bool_decide (pack (extra_bits ub n ++ [1] ++ replicate (6 - n) 0 ++ [1]) = [Z.lor e 0x80]))
  && bool_decide (is_byte e) && bool_decide (is_byte (Z.lor e 0x80)).

Lemma end_bytes_checked : forallb (λ n, all_range 0 256 (end_byte_ok n)) (seq 0 8) = true.
Proof. vm_compute. reflexivity. Qed.

Lemma end_byte_spec ub n :
  (n < 8)%nat →
  pack (extra_bits ub n ++ [1] ++ replicate (7 - n) 0) = [end_byte ub (Z.of_nat n)]
  ∧ (n ≠ 7%nat → pack (extra_bits ub n ++ [1] ++ replicate (6 - n) 0 ++ [1])
                 = [Z.lor (end_byte ub (Z.of_nat n)) 0x80])
  ∧ is_byte (end_byte ub (Z.of_nat n)) ∧ is_byte (Z.lor (end_byte ub (Z.of_nat n)) 0x80).
Proof.
  intros Hn.
  assert (E1 : end_byte ub (Z.of_nat n) = end_byte (ub `mod` 2 ^ 8) (Z.of_nat n)).
  { unfold end_byte. change 0xFF with (Z.ones 8). by rewrite !Z.land_ones, Z.mod_mod by lia. }
  assert (E2 : extra_bits ub n = extra_bits (ub `mod` 2 ^ 8) n).
  { unfold extra_bits. cbn [to_bits]. by rewrite !Z.mod_pow2_bits_low by lia. }
  rewrite E1, E2. pose proof (Z.mod_pos_bound ub (2 ^ 8) ltac:(lia)) as Hb.
  clear E1 E2. revert Hb. generalize (ub `mod` 2 ^ 8). clear - Hn. intros b Hb.
  pose proof end_bytes_checked as H. rewrite forallb_forall in H.
  specialize (H n (proj2 (in_seq 8 0 n) (conj (Nat.le_0_l n) Hn))).
  apply (all_range_spec _ _ _ H) in Hb. unfold end_byte_ok in Hb. cbv zeta in Hb.
  rewrite !andb_true_iff, orb_true_iff, !bool_decide_eq_true, Nat.eqb_eq in Hb.
  destruct Hb as [[[H1 H2] H3] H4]. split; [done|]. split; [|done].
  intros Hne. by destruct H2.
Qed.

Lemma length_extra_bits ub n : (n < 8)%nat → length (extra_bits ub n) = n.
Proof. intros Hn. unfold extra_bits. rewrite length_drop, length_rev, length_to_bits. lia. Qed.

Section padding.
Context (rate : nat).
Hypothesis rate_pos : (2 ≤ rate)%nat.

Lemma keccak_padded_blocks_spec len n :
  (n < 8)%nat →
  padded_blocks rate len n
  = (len / rate + if decide (len mod rate = rate - 1 ∧ n = 7) then 2 else 1)%nat.
Proof.
  intros Hn. unfold padded_blocks. symmetry.
  pose proof (Nat.div_mod_eq len rate) as E. pose proof (Nat.mod_upper_bound len rate ltac:(lia)) as Hm.
  case_decide as H.
  - apply (Nat.div_unique _ _ _ (8 * (len mod rate) + n + 2 - 1 - 8 * rate)); [lia|]. nia.
  - apply (Nat.div_unique _ _ _ (8 * (len mod rate) + n + 2 - 1)); [|nia].
    destruct (decide (len mod rate = rate - 1)%nat); lia.
Qed.

(** The bytes of [DEFCLOSE] are the padding of the specification. *)
Lemma close_padding_spec len ub n :
  (n < 8)%nat →
  close_padding (Z.of_nat rate) (Z.of_nat (len mod rate)) ub (Z.of_nat n) = Ret (padding rate len ub n)
  ∧ Forall is_byte (padding rate len ub n)
  ∧ (len + length (padding rate len ub n) = padded_blocks rate len n * rate)%nat.
Proof.
  intros Hn. destruct (end_byte_spec ub n Hn) as (B1 & B2 & B3 & B4).
  pose proof (Nat.div_mod_eq len rate) as E. pose proof (Nat.mod_upper_bound len rate ltac:(lia)) as Hm.
  pose proof (length_extra_bits ub n Hn) as Hx.
  unfold close_padding. fold (end_byte ub (Z.of_nat n)). cbv zeta.
  rewrite keccak_padded_blocks_spec by done. unfold padding. rewrite keccak_padded_blocks_spec by done.
  assert (Hlong : ∀ k, pack (extra_bits ub n ++ [1] ++ replicate (7 - n + 8 * k + 7) 0 ++ [1])
    = [end_byte ub (Z.of_nat n)] ++ replicate k 0 ++ [0x80]).
  { intros k. rewrite !replicate_add, <- !app_assoc.
    rewrite (app_assoc [1]), (app_assoc (extra_bits _ _)).
    rewrite pack_app by (rewrite !length_app, length_replicate; cbn [length]; lia).
    by rewrite B1, pack_zeros, pack_last. }
  case_decide as Hc.
  - destruct Hc as [Hr ->]. rewrite Hr.
    rewrite (proj2 (Z.eqb_eq (Z.of_nat (rate - 1)) (Z.of_nat rate - 1))) by (clear - rate_pos; lia).
    change (Z.of_nat 7 =? 7) with true. cbv iota.
    replace ((len / rate + 2) * (8 * rate) - 8 * len - 7 - 2)%nat with (7 - 7 + 8 * (rate - 1) + 7)%nat by nia.
    rewrite Hlong. replace (Z.to_nat (Z.of_nat rate - 1)) with (rate - 1)%nat by lia.
    split; [done|]. split.
    + apply Forall_app. split; [by apply Forall_singleton|]. apply Forall_app.
      split; [by apply Forall_replicate|by apply Forall_singleton].
    + rewrite !length_app, length_replicate. cbn [length]. nia.
  - destruct (decide (len mod rate = rate - 1)%nat) as [Hr|Hr].
    + assert (n ≠ 7%nat) by tauto. rewrite Hr.
      rewrite (proj2 (Z.eqb_eq (Z.of_nat (rate - 1)) (Z.of_nat rate - 1))) by (clear - rate_pos; lia).
      rewrite (proj2 (Z.eqb_neq (Z.of_nat n) 7)) by lia.
      replace ((len / rate + 1) * (8 * rate) - 8 * len - n - 2)%nat with (6 - n)%nat by nia.
      rewrite B2 by done. split; [done|]. split; [by apply Forall_singleton|]. cbn [length]. nia.
    + rewrite (proj2 (Z.eqb_neq (Z.of_nat (len mod rate)) (Z.of_nat rate - 1))) by lia.
      rewrite (proj2 (Z.ltb_ge (Z.of_nat rate - Z.of_nat (len mod rate)) 2)) by lia.
      replace ((len / rate + 1) * (8 * rate) - 8 * len - n - 2)%nat
        with (7 - n + 8 * (rate - len mod rate - 2) + 7)%nat by nia.
      rewrite Hlong.
      replace (Z.to_nat (Z.of_nat rate - Z.of_nat (len mod rate) - 2)) with (rate - len mod rate - 2)%nat by lia.
      split; [done|]. split.
      * apply Forall_app. split; [by apply Forall_singleton|]. apply Forall_app.
        split; [by apply Forall_replicate|by apply Forall_singleton].
      * rewrite !length_app, length_replicate. cbn [length]. nia.
Qed.
End padding.

(** ** Contexts

    Contexts for blocks of [8 m] bytes and digests of [d] bytes. *)

Lemma bind_ext_in {A B} (f g : A → list B) l :
  (∀ x, x ∈ l → f x = g x) → l ≫= f = l ≫= g.
Proof.
  induction l as [|x l IH]; intros H; [done|].
  change ((x :: l) ≫= ?h) with (h x ++ (l ≫= h)).
  rewrite H by left. f_equal. apply IH. intros y Hy. apply H. by right.
Qed.

Lemma length_bind_const {A B} (f : A → list B) k l :
  (∀ x, length (f x) = k) → length (l ≫= f) = (k * length l)%nat.
Proof.
  intros H. induction l as [|x l IH]; [simpl; lia|].
  change ((x :: l) ≫= f) with (f x ++ (l ≫= f)). cbn [length]. rewrite length_app, H, IH. lia.
Qed.

Section context.
Context (m : nat).
Hypothesis m_range : (0 < m ≤ 18)%nat.

#[local] Abbreviation rate := (8 * m)%nat.

#[local] Abbreviation absorb_block := (full_block (Z.of_nat rate)).

Lemma keccak_absorb_block_prefix b a : length b = 144%nat → absorb_block b a = absorb_block (take rate b) a.
Proof. intros _. unfold full_block. by rewrite (INPUT_BUF_prefix m b). Qed.

Lemma keccak_absorb_blocks n a A msg :
  holds P0 a A → Forall is_byte msg →
  holds P0 (blocks rate absorb_block n a msg) (absorb_all rate n A msg).
Proof.
  revert a A msg. induction n as [|n IH]; intros a A msg Ha HF; [done|]. cbn [blocks absorb_all].
  apply IH; [|by apply Forall_drop]. unfold full_block.
  replace (absorb A (take rate msg)) with (absorb A (take rate (take rate msg)))
    by (by rewrite take_take, Nat.min_id).
  apply absorb_holds; [done|by apply Forall_take|lia].
Qed.

Lemma absorb_all_app n A msg x :
  (n * rate ≤ length msg)%nat → absorb_all rate n A (msg ++ x) = absorb_all rate n A msg.
Proof.
  revert A msg. induction n as [|n IH]; intros A msg Hn; [done|]. cbn [absorb_all].
  rewrite take_app_le, drop_app_le by lia. apply IH. rewrite length_drop. lia.
Qed.

(** The words of a new context hold the zero state. *)
Definition initial_wide : list Z :=
  foldl (λ a i, <[i := 0xFFFFFFFFFFFFFFFF]> a) (replicate 25 0) complemented.

Lemma initial_holds : holds P0 initial_wide (replicate 25 0).
Proof.
  split; [done| |by vm_compute]. split; [done|]. apply Forall_replicate. auto with words.
Qed.

(** The context [kc] has absorbed the bytes [msg]. *)
Record absorbed (kc : keccak_context) (msg : list Z) : Prop := Absorbed {
  abs_bytes : Forall is_byte msg;
  abs_fed : fed 144 rate absorb_block initial_wide (buf kc) (ptr kc) (wide kc) msg
}.

Lemma absorbed_holds kc msg :
  absorbed kc msg →
  holds P0 (wide kc) (absorb_all rate (length msg / rate) (replicate 25 0) msg).
Proof.
  intros [HF A]. rewrite (fed_state _ _ _ _ _ _ _ _ A).
  apply keccak_absorb_blocks; [apply initial_holds|done].
Qed.

Lemma keccak_init_spec kc out_size : length (buf kc) = 144%nat → absorbed (keccak_init kc out_size) [].
Proof.
  intros Hb. split; [done|]. by apply (fed_start 144 rate absorb_block ltac:(lia)).
Qed.

Lemma keccak_core_spec kc msg data len :
  absorbed kc msg → Forall is_byte data → 0 ≤ len ≤ Z.of_nat (length data) →
  ∃ kc', keccak_core kc data len (Z.of_nat rate) = Ret kc'
    ∧ absorbed kc' (msg ++ take (Z.to_nat len) data).
Proof.
  intros [HF A] Hd Hl.
  destruct (feed_spec 144 rate absorb_block ltac:(lia) keccak_absorb_block_prefix _ _ _ _ _ data len A Hl)
    as (b' & p' & a' & E & A').
  unfold keccak_core. rewrite E. cbn [mbind outcome_bind].
  eexists. split; [reflexivity|].
  split; [|exact A']. apply Forall_app. split; [done|]. by apply Forall_take.
Qed.

(** Complementing the lanes back gives the state, row by row. *)
Lemma uncomplement a A :
  holds P0 a A →
  foldl (λ a i, alter NOT64 i a) a complemented = (λ i, lane A i (i / 5)) <$> seq 0 25.
Proof.
  intros [Ha HA Hv]. explode A HA.
  do 25 (destruct a as [|? a]; [discriminate Ha|]). destruct a; [|discriminate Ha]. clear Ha.
  cbv -[Z.lxor ones64] in Hv. simplify_eq.
  cbv -[Z.lxor ones64 NOT64]. rewrite !NOT64_ones by auto with words.
  by rewrite !Z.lxor_assoc, !Z.lxor_nilpotent, !Z.lxor_0_r.
Qed.

(** Digests of [d] bytes. *)
Context (d : nat).
Hypothesis d_range : (0 < d ≤ 8 * m)%nat.

(** The bytes of [u.tmp] that hold the digest end at a word. *)
Lemma digest_words :
  Z.to_nat ((Z.of_nat d + 7) `div` 8) = ((d + 7) / 8)%nat ∧ (d ≤ 8 * ((d + 7) / 8) ≤ 8 * m)%nat
  ∧ 8 * ((Z.of_nat d + 7) `div` 8) ≤ Z.of_nat rate.
Proof.
  assert (E : (Z.of_nat d + 7) `div` 8 = Z.of_nat ((d + 7) / 8)) by (rewrite Nat2Z.inj_div; f_equal; lia).
  assert (B : (d ≤ 8 * ((d + 7) / 8) ≤ 8 * m)%nat).
  { pose proof (Nat.div_mod_eq (d + 7) 8). pose proof (Nat.mod_upper_bound (d + 7) 8 ltac:(lia)).
    assert ((d + 7) / 8 < m + 1)%nat by (apply Nat.Div0.div_lt_upper_bound; lia). lia. }
  rewrite E. lia.
Qed.

Lemma keccak_close_spec kc msg ub n :
  absorbed kc msg → (n < 8)%nat →
  ∃ kc', DEFCLOSE (Z.of_nat d) (Z.of_nat rate) kc ub (Z.of_nat n)
      = Ret (keccak rate d msg ub n, kc')
    ∧ absorbed kc' [] ∧ length (keccak rate d msg ub n) = d.
Proof.
  intros A Hn. pose proof digest_words as (W1 & W2 & W3).
  destruct (close_padding_spec rate ltac:(lia) (length msg) ub n Hn) as (E & HF & HL).
  unfold DEFCLOSE. rewrite (fed_level _ _ _ _ _ _ _ _ (abs_fed _ _ A)), E.
  cbn [mbind outcome_bind].
  destruct (keccak_core_spec kc msg (padding rate (length msg) ub n)
    (Z.of_nat (length (padding rate (length msg) ub n))) A HF) as (kc' & -> & A'); [lia|].
  cbn [mbind outcome_bind]. rewrite Nat2Z.id, firstn_all in A'.
  pose proof (absorbed_holds _ _ A') as Hh.
  rewrite length_app, HL, Nat.div_mul in Hh by lia.
  cbv zeta. rewrite (uncomplement _ _ Hh), (proj2 (Z.ltb_ge _ _)), W1 by lia.
  set (S := absorb_all _ _ _ _) in *.
  assert (Ed : take d (seq 0 ((d + 7) / 8) ≫= λ i, enc64le (((λ i, lane S i (i / 5)) <$> seq 0 25) !!! i))
    = keccak rate d msg ub n).
  { unfold keccak, squeeze. fold S.
    assert (E25 : seq 0 25 = seq 0 ((d + 7) / 8) ++ seq ((d + 7) / 8) (25 - (d + 7) / 8)).
    { etrans; [|exact (seq_app ((d + 7) / 8) (25 - (d + 7) / 8) 0)]. f_equal. lia. }
    transitivity (take d ((seq 0 ((d + 7) / 8) ++ seq ((d + 7) / 8) (25 - (d + 7) / 8))
      ≫= λ i, lane_bytes (lane S i (i / 5)))); [|by rewrite <- E25].
    rewrite bind_app, take_app_le
      by (rewrite (length_bind_const _ 8), length_seq; [lia|done]).
    f_equal. apply bind_ext_in. intros i Hi%elem_of_seq.
    rewrite lane_bytes_enc64le. f_equal. apply list_lookup_total_correct.
    by rewrite list_lookup_fmap, lookup_seq_lt by lia. }
  assert (Hlen : length (seq 0 ((d + 7) / 8) ≫=
      λ i, enc64le (((λ i, lane S i (i / 5)) <$> seq 0 25) !!! i)) = (8 * ((d + 7) / 8))%nat)
    by (rewrite (length_bind_const _ 8), length_seq; done).
  rewrite load_prefix, Nat2Z.id, Ed by lia. cbn [mbind outcome_bind].
  eexists. split; [reflexivity|]. split.
  - apply keccak_init_spec. apply (fed_buffer _ _ _ _ _ _ _ _ (abs_fed _ _ A')).
  - rewrite <- Ed, length_take. lia.
Qed.
End context.
