(* ===== verification/KeccakProps.v ===== *)
(** * Correctness of Keccak

    The functions of sph_keccak.h against the specification of the sponge, for
    all four digest sizes. *)

From S2P Require Import Prelude CModel SphTypes SphBuffer Keccak KeccakSpec KeccakTheory KeccakContext.

(** ** The functions of the four digest sizes *)

Inductive keccak_size := K224 | K256 | K384 | K512.

Definition init_of (d : keccak_size) : keccak_context → keccak_context :=
  match d with
  | K224 => sph_keccak224_init | K256 => sph_keccak256_init
  | K384 => sph_keccak384_init | K512 => sph_keccak512_init
  end.

Definition update_of (d : keccak_size) : keccak_context → list Z → Z → outcome keccak_context :=
  match d with
  | K224 => sph_keccak224 | K256 => sph_keccak256
  | K384 => sph_keccak384 | K512 => sph_keccak512
  end.

Definition close_of (d : keccak_size) : keccak_context → outcome (list Z * keccak_context) :=
  match d with
  | K224 => sph_keccak224_close | K256 => sph_keccak256_close
  | K384 => sph_keccak384_close | K512 => sph_keccak512_close
  end.

Definition addbits_and_close_of (d : keccak_size)
    : keccak_context → Z → Z → outcome (list Z * keccak_context) :=
  match d with
  | K224 => sph_keccak224_addbits_and_close | K256 => sph_keccak256_addbits_and_close
  | K384 => sph_keccak384_addbits_and_close | K512 => sph_keccak512_addbits_and_close
  end.

(** Bytes of a digest, and words and bytes of a block: the capacity is twice
    the size of the digest. *)
Definition digest_length (d : keccak_size) : nat :=
  match d with K224 => 28 | K256 => 32 | K384 => 48 | K512 => 64 end.
Definition rate_words (d : keccak_size) : nat := 25 - digest_length d / 4.
Definition rate_of (d : keccak_size) : nat := 8 * rate_words d.

Definition fed_of (d : keccak_size) : keccak_context → list Z → Prop := absorbed (rate_words d).

Lemma rate_words_range d : (0 < rate_words d ≤ 18)%nat.
Proof. destruct d; cbv; lia. Qed.

Lemma keccak_init_fed d kc : length (buf kc) = 144%nat → fed_of d (init_of d kc) [].
Proof. intros H. pose proof (rate_words_range d). destruct d; by apply keccak_init_spec. Qed.

Lemma keccak_update_fed d kc msg data :
  fed_of d kc msg → Forall is_byte data →
  ∃ kc', update_of d kc data (Z.of_nat (length data)) = Ret kc' ∧ fed_of d kc' (msg ++ data).
Proof.
  intros A HF.
  destruct (keccak_core_spec (rate_words d) (rate_words_range d) kc msg data
    (Z.of_nat (length data)) A HF) as (kc' & E & A'); [lia|].
  rewrite Nat2Z.id, firstn_all in A'. exists kc'. split; [|done]. by destruct d.
Qed.

Lemma keccak_close_fed d kc msg ub n :
  fed_of d kc msg → (n < 8)%nat →
  ∃ kc', addbits_and_close_of d kc ub (Z.of_nat n)
      = Ret (keccak (rate_of d) (digest_length d) msg ub n, kc')
    ∧ fed_of d kc' []
    ∧ length (keccak (rate_of d) (digest_length d) msg ub n) = digest_length d.
Proof.
  intros A Hn.
  destruct (keccak_close_spec (rate_words d) (rate_words_range d) (digest_length d)
    ltac:(destruct d; cbv; lia) kc msg ub n A Hn) as (kc' & E & A' & Hl).
  exists kc'. split; [by destruct d|done].
Qed.

(** ** Hashing in pieces *)

Definition feed_pieces (d : keccak_size) (pieces : list (list Z)) (kc : keccak_context)
    : outcome keccak_context :=
  foldM (λ data kc, update_of d kc data (Z.of_nat (length data))) pieces kc.

Lemma feed_pieces_fed d pieces kc msg :
  fed_of d kc msg → Forall (Forall is_byte) pieces →
  ∃ kc', feed_pieces d pieces kc = Ret kc' ∧ fed_of d kc' (msg ++ mjoin pieces).
Proof.
  intros A HF. revert kc msg A. induction HF as [|data pieces Hd _ IH]; intros kc msg A.
  - exists kc. by rewrite app_nil_r.
  - destruct (keccak_update_fed d kc msg data A Hd) as (kc1 & E1 & A1).
    destruct (IH kc1 _ A1) as (kc' & E & A'). exists kc'. split.
    + unfold feed_pieces in *. cbn [foldM]. by rewrite E1.
    + cbn [mjoin list_join]. by rewrite app_assoc.
Qed.

(** C14: For each of the four digest sizes, whatever a context held before,
    initialising it, feeding it with a message in pieces of any lengths and
    closing it with [n < 8] extra bits runs without an access outside a buffer
    and returns the digest of the specified sponge for the whole message, of
    the right length. Closing without extra bits is the case of no bits. *)
Theorem keccak_hash_in_pieces d kc pieces ub n :
  length (buf kc) = 144%nat → Forall (Forall is_byte) pieces → (n < 8)%nat →
  let digest ub n := keccak (rate_of d) (digest_length d) (mjoin pieces) ub n in
  (∃ kc', (kc ← feed_pieces d pieces (init_of d kc); addbits_and_close_of d kc ub (Z.of_nat n))
    = Ret (digest ub n, kc'))
  ∧ (∃ kc', (kc ← feed_pieces d pieces (init_of d kc); close_of d kc) = Ret (digest 0 0%nat, kc'))
  ∧ length (digest ub n) = digest_length d.
Proof.
  intros Hb HF Hn.
  destruct (feed_pieces_fed d pieces _ _ (keccak_init_fed d kc Hb) HF) as (kc1 & -> & A1).
  destruct (keccak_close_fed d kc1 _ ub n A1 Hn) as (kc2 & E2 & _ & Hl).
  destruct (keccak_close_fed d kc1 _ 0 0 A1 ltac:(lia)) as (kc3 & E3 & _).
  split; [by exists kc2|]. split; [|done]. exists kc3. cbn [mbind outcome_bind].
  transitivity (addbits_and_close_of d kc1 0 (Z.of_nat 0)); [by destruct d|exact E3].
Qed.

(** The digest of [abc]. *)
Lemma keccak_hash_in_pieces_witness :
  let run := (kc ← feed_pieces K256 [[97]; []; [98; 99]]
                     (init_of K256 (MkContext (replicate 144 7) 0 0 []));
              close_of K256 kc) in
  (∃ kc', run = Ret (keccak 136 32 [97; 98; 99] 0 0, kc'))
  ∧ fst <$> outcome_value run = Some
    [0x4e; 0x03; 0x65; 0x7a; 0xea; 0x45; 0xa9; 0x4f; 0xc7; 0xd4; 0x7b; 0xa8; 0x26; 0xc8; 0xd6; 0x67;
     0xc0; 0xd1; 0xe6; 0xe3; 0x3a; 0x64; 0xa0; 0x36; 0xec; 0x44; 0xf5; 0x8f; 0xa1; 0x2d; 0x6c; 0x45].
Proof.
  intros run. split.
  - apply (keccak_hash_in_pieces K256 (MkContext (replicate 144 7) 0 0 []) [[97]; []; [98; 99]] 0 0);
      [reflexivity|repeat constructor; lia|lia].
  - vm_compute. reflexivity.
Defined.

(** ** The life of a context *)

(** The bytes a context was fed with since it was last initialised; closing a
    context initialises it. *)
Inductive keccak_history (d : keccak_size) : keccak_context → list Z → Prop :=
  | history_init kc :
      length (buf kc) = 144%nat → keccak_history d (init_of d kc) []
  | history_update kc msg data kc' :
      keccak_history d kc msg → Forall is_byte data →
      update_of d kc data (Z.of_nat (length data)) = Ret kc' → keccak_history d kc' (msg ++ data)
  | history_close kc msg ub n digest kc' :
      keccak_history d kc msg → (n < 8)%nat →
      addbits_and_close_of d kc ub (Z.of_nat n) = Ret (digest, kc') → keccak_history d kc' [].

Lemma keccak_history_fed d kc msg : keccak_history d kc msg → fed_of d kc msg.
Proof.
  induction 1 as [kc Hb|kc msg data kc' _ A HF E|kc msg ub n digest kc' _ A Hn E].
  - by apply keccak_init_fed.
  - destruct (keccak_update_fed d kc msg data A HF) as (kc1 & E1 & A1). congruence.
  - destruct (keccak_close_fed d kc msg ub n A Hn) as (kc1 & E1 & A1 & _). congruence.
Qed.

(** C16: In every context that calls can produce, the words hold the lanes of
    the specified sponge after the full blocks of the data, six of them
    complemented, and the fill level is the number of bytes behind these
    blocks, below the size of a block; feeding bytes and closing with fewer
    than eight extra bits are always defined, and a closed context can be
    reused. *)
Theorem keccak_context_invariant d kc msg :
  keccak_history d kc msg →
  holds P0 (wide kc)
    (absorb_all (rate_of d) (length msg / rate_of d) (replicate 25 0) msg)
  ∧ ptr kc = Z.of_nat (length msg mod rate_of d) ∧ ptr kc < Z.of_nat (rate_of d)
  ∧ (∀ data, Forall is_byte data → ∃ kc', update_of d kc data (Z.of_nat (length data)) = Ret kc')
  ∧ (∀ ub n, (n < 8)%nat → ∃ kc',
      addbits_and_close_of d kc ub (Z.of_nat n)
      = Ret (keccak (rate_of d) (digest_length d) msg ub n, kc')
      ∧ keccak_history d kc' []).
Proof.
  intros H. pose proof (keccak_history_fed d kc msg H) as A.
  pose proof (rate_words_range d) as Hr.
  split; [exact (absorbed_holds (rate_words d) Hr kc msg A)|].
  pose proof (fed_level _ _ _ _ _ _ _ _ (abs_fed _ _ _ A)) as Hp.
  pose proof (Nat.mod_upper_bound (length msg) (rate_of d) ltac:(unfold rate_of; lia)).
  split; [exact Hp|]. split; [rewrite Hp; fold (rate_of d); lia|]. split.
  - intros data HF. destruct (keccak_update_fed d kc msg data A HF) as (kc' & E & _). by exists kc'.
  - intros ub n Hn. destruct (keccak_close_fed d kc msg ub n A Hn) as (kc' & E & _).
    exists kc'. split; [done|]. by eapply history_close.
Qed.

Lemma keccak_context_invariant_witness :
  ptr (init_of K512 (MkContext (replicate 144 0) 5 0 [])) < 72.
Proof.
  apply (keccak_context_invariant K512 _ []). apply history_init. reflexivity.
Defined.

(** ** The permutation *)

(** C15: On 25 words of 64 bits that hold a state with six lanes complemented,
    the unrolled, in-place permutation of the code, which renames the words
    from round to round and applies and's and or's to complemented lanes,
    leaves the words that hold the state after Keccak-f[1600] of the
    specification; complementing the six words gives its lanes, row by row. *)
Theorem keccak_permutation_reference a A :
  holds P0 a A →
  holds P0 (KECCAK_F_1600 a) (keccak_f A)
  ∧ foldl (λ a i, alter NOT64 i a) (KECCAK_F_1600 a) complemented
    = (λ i, lane (keccak_f A) i (i / 5)) <$> seq 0 25.
Proof.
  intros H. apply KECCAK_F_1600_spec in H. split; [done|]. by apply uncomplement.
Qed.

Lemma keccak_permutation_reference_witness :
  foldl (λ a i, alter NOT64 i a) (KECCAK_F_1600 initial_wide) complemented !! 0%nat
  = Some 0xF1258F7940E1DDE7
  ∧ holds P0 (KECCAK_F_1600 initial_wide) (keccak_f (replicate 25 0)).
Proof.
  split; [vm_compute; reflexivity|].
  exact (proj1 (keccak_permutation_reference initial_wide (replicate 25 0) initial_holds)).
Defined.
