(* ===== verification/JBase.v ===== *)
(** * Run time of Jansson

    Allocation (jansson/memory.c) over the run time of [CModel], the
    combinators for error returns that the callers handle, and the judgement
    [wp] in which the routines of Jansson are specified. *)

From S2P Require Import Prelude CModel.
From stdpp Require Import strings.
From Stdlib Require Ascii String.
#[local] Open Scope Z_scope.

(** Linear arithmetic with divisions by constants. *)
Ltac byte_arith := Z.to_euclidean_division_equations; lia.

(** Conversion to [size_t]. *)
Definition size_t (x : Z) : Z := x `mod` 2 ^ 64.

(** The bytes of a string literal. *)
Definition str (s : string) : list Z :=
  map (λ c, Z.of_N (Ascii.N_of_ascii c)) (String.list_ascii_of_string s).

(** ** memory.c *)

(** [jsonp_malloc]: a request for nothing is refused; the block itself is
    built by the caller. *)
Definition jsonp_malloc (size : Z) : M unit :=
  if size =? 0 then fail else malloc size.

(** The copy of a string with its terminator; strings are lists of the bytes
    before the NUL. *)
Definition jsonp_strdup (str : list Z) : M (list Z) :=
  _ ← jsonp_malloc (Z.of_nat (length str) + 1);
  mret str.

(** ** Error returns *)

Definition sfail {S A} : SM S A := λ s w, ((Fail, s), w).
Definition sundef {S A} : SM S A := λ s w, ((Undef, s), w).

(** A call whose error return is examined by the caller; the changes that it
    made before it failed stay. *)
Definition attempt {S A} (m : SM S A) : SM S (option A) := λ s w,
  match m s w with
  | ((Ret a, s'), w') => ((Ret (Some a), s'), w')
  | ((Fail, s'), w') => ((Ret None, s'), w')
  | ((Undef, s'), w') => ((Undef, s'), w')
  end.

(** [assert(b)]: the program is aborted when it does not hold. *)
Definition assert {S} (b : bool) : SM S unit := if b then mret tt else sundef.

(** A value that must be there, an access that must be within its block. *)
Definition liftS {S A} (o : outcome A) : SM S A := lift (liftO o).

(** [if(m) goto out]: clean up and return the error. *)
Definition or_else {S A} (m : SM S A) (cleanup : SM S unit) : SM S A :=
  r ← attempt m;
  match r with
  | Some a => mret a
  | None => _ ← cleanup; sfail
  end.

(** ** Specifications

    [wp m s Q]: with memory, [m] ends in an outcome and an object in [Q]. *)
Definition wp {S A} (m : SM S A) (s : S) (Q : outcome A → S → Prop) : Prop :=
  ∀ w, plenty w → plenty (m s w).2 ∧ Q (m s w).1.1 (m s w).1.2.

(** A routine that returns with a value and an object in [Q]. *)
Abbreviation wpr m s Q :=
  (wp m s (λ o s', match o with Ret a => Q a s' | _ => False end)).

Section rules.
Context {S : Type}.

Lemma wp_mono {A} (m : SM S A) s (P Q : outcome A → S → Prop) :
  wp m s P → (∀ o s', P o s' → Q o s') → wp m s Q.
Proof. intros H HPQ w Hw. destruct (H w Hw) as [Hw' HP]. auto. Qed.

Lemma wp_ret {A} (a : A) s (Q : outcome A → S → Prop) : Q (Ret a) s → wp (mret a) s Q.
Proof. intros HQ w Hw. by split. Qed.

Lemma wp_fail {A} s (Q : outcome A → S → Prop) : Q Fail s → wp sfail s Q.
Proof. intros HQ w Hw. by split. Qed.

Lemma wp_undef {A} s (Q : outcome A → S → Prop) : Q Undef s → wp sundef s Q.
Proof. intros HQ w Hw. by split. Qed.

Lemma wp_bind {A B} (m : SM S A) (f : A → SM S B) s Q :
  wp m s (λ o s', match o with
                  | Ret a => wp (f a) s' Q
                  | Fail => Q Fail s'
                  | Undef => Q Undef s'
                  end) →
  wp (m ≫= f) s Q.
Proof.
  intros H w Hw. destruct (H w Hw) as [Hw' HQ]. unfold mbind, SM_bind.
  destruct (m s w) as [[[a| |] s'] w']; simpl in *; [by apply HQ|done|done].
Qed.

(** The usual case: the first statement returns. *)
Lemma wp_seq {A B} (m : SM S A) (f : A → SM S B) s (P : A → S → Prop) Q :
  wpr m s P → (∀ a s', P a s' → wp (f a) s' Q) → wp (m ≫= f) s Q.
Proof.
  intros Hm Hf. apply wp_bind. eapply wp_mono; [exact Hm|].
  intros [a| |] s' HP; [by apply Hf|done|done].
Qed.

Lemma wp_get_bind {A} (f : S → SM S A) s Q : wp (f s) s Q → wp (get ≫= f) s Q.
Proof. done. Qed.

Lemma wp_put_bind {A} (f : unit → SM S A) s s' Q : wp (f tt) s' Q → wp (put s' ≫= f) s Q.
Proof. done. Qed.

Lemma wp_ret_bind {A B} (a : A) (f : A → SM S B) s Q : wp (f a) s Q → wp (mret a ≫= f) s Q.
Proof. done. Qed.

Lemma wp_put s s' (Q : outcome unit → S → Prop) : Q (Ret tt) s' → wp (put s') s Q.
Proof. intros HQ w Hw. by split. Qed.

Lemma wp_liftS_bind {A B} (o : outcome A) a (f : A → SM S B) s Q :
  o = Ret a → wp (f a) s Q → wp (liftS o ≫= f) s Q.
Proof. by intros ->. Qed.

Lemma wp_assert_bind {A} (b : bool) (f : unit → SM S A) s Q :
  b = true → wp (f tt) s Q → wp (assert b ≫= f) s Q.
Proof. by intros ->. Qed.

Lemma wp_attempt {A} (m : SM S A) s Q :
  wp m s (λ o s', match o with
                  | Ret a => Q (Ret (Some a)) s'
                  | Fail => Q (Ret None) s'
                  | Undef => Q Undef s'
                  end) →
  wp (attempt m) s Q.
Proof.
  intros H w Hw. destruct (H w Hw) as [Hw' HQ]. unfold attempt.
  by destruct (m s w) as [[[a| |] s'] w'].
Qed.

Lemma wp_lift_malloc {A} n (f : unit → SM S A) s Q :
  0 < n → wp (f tt) s Q → wp (lift (jsonp_malloc n) ≫= f) s Q.
Proof.
  intros Hn H w Hw. unfold jsonp_malloc. rewrite (proj2 (Z.eqb_neq _ _)) by lia.
  unfold mbind, SM_bind, lift, malloc. rewrite Hw, (proj2 (Z.leb_le _ _)) by lia.
  apply H. intros i. apply Hw.
Qed.

Lemma wp_lift_strdup {A} str (f : list Z → SM S A) s Q :
  wp (f str) s Q → wp (lift (jsonp_strdup str) ≫= f) s Q.
Proof.
  intros H w Hw. unfold jsonp_strdup, jsonp_malloc.
  rewrite (proj2 (Z.eqb_neq _ _)) by lia.
  unfold mbind, SM_bind, M_bind, lift, malloc. rewrite Hw, (proj2 (Z.leb_le _ _)) by lia.
  apply H. intros i. apply Hw.
Qed.
End rules.

(** Evaluating a routine on a concrete object with memory. *)
Definition rich : world := World (λ _, true) 0 None (Statics [] ∅ ∅).

Definition run {S A} (m : SM S A) (s : S) : outcome A * S := (m s rich).1.

Lemma wp_run {S A} (m : SM S A) s Q : wp m s Q → Q (run m s).1 (run m s).2.
Proof. intros H. by apply H. Qed.
