(* ===== verification/JUtf.v ===== *)
(** * UTF-8 (jansson/utf.c)

    Encoding, checking and iterating over UTF-8, with a specification of the
    encoding of sequences of Unicode scalar values. Bytes are values of
    [unsigned char], to which the code converts the [char]s it looks at. *)

From S2P Require Import Prelude JBase.

(** ** The routines *)

(** Conversion to [int]. *)
Definition s32 (x : Z) : Z := (x + 2 ^ 31) `mod` 2 ^ 32 - 2 ^ 31.

(** Strings of C end with a NUL. *)
Fixpoint strlen (s : list Z) : outcome Z :=
  match s with
  | [] => Undef
  | c :: s => if c =? 0 then mret 0 else n ← strlen s; mret (n + 1)
  end.

(** The bytes written to [buffer], or [None] for the result -1. *)
Definition utf8_encode (codepoint : Z) : option (list Z) :=
  if codepoint <? 0 then None
  else if codepoint <? 0x80 then Some [codepoint]
  else if codepoint <? 0x800 then
    Some [u8 (0xC0 + Z.shiftr (Z.land codepoint 0x7C0) 6);
          u8 (0x80 + Z.land codepoint 0x03F)]
  else if codepoint <? 0x10000 then
    Some [u8 (0xE0 + Z.shiftr (Z.land codepoint 0xF000) 12);
          u8 (0x80 + Z.shiftr (Z.land codepoint 0x0FC0) 6);
          u8 (0x80 + Z.land codepoint 0x003F)]
  else if codepoint <=? 0x10FFFF then
    Some [u8 (0xF0 + Z.shiftr (Z.land codepoint 0x1C0000) 18);
          u8 (0x80 + Z.shiftr (Z.land codepoint 0x03F000) 12);
          u8 (0x80 + Z.shiftr (Z.land codepoint 0x000FC0) 6);
          u8 (0x80 + Z.land codepoint 0x00003F)]
  else None.

Definition utf8_check_first (byte : Z) : Z :=
  let u := u8 byte in
  if u <? 0x80 then 1
  else if (0x80 <=? u) && (u <=? 0xBF) then 0
  else if (u =? 0xC0) || (u =? 0xC1) then 0
  else if (0xC2 <=? u) && (u <=? 0xDF) then 2
  else if (0xE0 <=? u) && (u <=? 0xEF) then 3
  else if (0xF0 <=? u) && (u <=? 0xF4) then 4
  else 0.

(** The loop over the continuation bytes; [None] is the result 0. *)
Fixpoint continuation (n : nat) (buffer : list Z) (i value : Z) : outcome (option Z) :=
  match n with
  | O => mret (Some value)
  | S n =>
    u ← readZ buffer i;
    if (u <? 0x80) || (0xBF <? u) then mret None
    else continuation n buffer (i + 1) (Z.shiftl value 6 + Z.land u 0x3F)
  end.

(** The value that the code stores through [codepoint], [None] for 0. *)
Definition utf8_check_full (buffer : list Z) (size : Z) : outcome (option Z) :=
  u ← readZ buffer 0;
  let start :=
    if size =? 2 then Some (Z.land u 0x1F)
    else if size =? 3 then Some (Z.land u 0xF)
    else if size =? 4 then Some (Z.land u 0x7)
    else None in
  match start with
  | None => mret None
  | Some value =>
    value ← continuation (Z.to_nat (size - 1)) buffer 1 value;
    match value with
    | None => mret None
    | Some value =>
      if 0x10FFFF <? value then mret None
      else if (0xD800 <=? value) && (value <=? 0xDFFF) then mret None
      else if ((size =? 2) && (value <? 0x80)) || ((size =? 3) && (value <? 0x800))
              || ((size =? 4) && (value <? 0x10000)) then mret None
      else mret (Some value)
    end
  end.

(** At the start of a buffer that ends with a NUL: the buffer behind the first
    character and its code point, no code point at the NUL; [Fail] is the
    result NULL. *)
Definition utf8_iterate (buffer : list Z) : outcome (list Z * option Z) :=
  b ← readZ buffer 0;
  if b =? 0 then mret (buffer, None)
  else
    let count := utf8_check_first b in
    if count <=? 0 then Fail
    else
      value ← (if count =? 1 then mret (Some b) else utf8_check_full buffer count);
      match value with
      | None => Fail
      | Some value => mret (drop (Z.to_nat count) buffer, Some value)
      end.

(** The loop over a string of [length] bytes, from byte [i] on. *)
Fixpoint check_from (fuel : nat) (string : list Z) (i length : Z) : outcome bool :=
  if length <=? i then mret true
  else
    match fuel with
    | O => Undef
    | S fuel =>
      b ← readZ string i;
      let count := utf8_check_first b in
      if count =? 0 then mret false
      else if 1 <? count then
        if length <? i + count then mret false
        else
          full ← utf8_check_full (drop (Z.to_nat i) string) count;
          match full with
          | None => mret false
          | Some _ => check_from fuel string (i + (count - 1) + 1) length
          end
      else check_from fuel string (i + 1) length
    end.

(** The length -1 asks for [strlen], whose result is converted to [int]. *)
Definition utf8_check_string (string : list Z) (length : Z) : outcome bool :=
  length ← (if length =? -1 then n ← strlen string; mret (s32 n) else mret length);
  check_from (Z.to_nat length) string 0 length.

(** ** Specification *)

(** Unicode scalar values: code points but the halves of surrogate pairs. *)
Definition scalar (v : Z) : Prop := 0 ≤ v ≤ 0x10FFFF ∧ ¬ (0xD800 ≤ v ≤ 0xDFFF).

#[export] Instance scalar_dec v : Decision (scalar v).
Proof. unfold scalar. apply _. Defined.

(** The encoding of the standard, by the bits of the code point. *)
Definition utf8 (v : Z) : list Z :=
  if v <? 0x80 then [v]
  else if v <? 0x800 then [0xC0 + v `div` 64; 0x80 + v `mod` 64]
  else if v <? 0x10000 then [0xE0 + v `div` 4096; 0x80 + (v `div` 64) `mod` 64; 0x80 + v `mod` 64]
  else [0xF0 + v `div` 262144; 0x80 + (v `div` 4096) `mod` 64; 0x80 + (v `div` 64) `mod` 64;
        0x80 + v `mod` 64].

(** The encoding of a sequence. *)
Definition utf8s (vs : list Z) : list Z := vs ≫= utf8.

(** ** Encoding *)

(** Six bits of a code point from bit [n] on. *)
Lemma field n m v : 0 ≤ n → 0 ≤ m →
  Z.shiftr (Z.land v (Z.shiftl (Z.ones m) n)) n = (v `div` 2 ^ n) `mod` 2 ^ m.
Proof.
  intros Hn Hm. rewrite Z.shiftr_land, Z.shiftr_shiftl_l, Z.sub_diag, Z.shiftl_0_r by lia.
  by rewrite Z.land_ones, Z.shiftr_div_pow2 by lia.
Qed.

Lemma utf8_encode_spec v : 0 ≤ v ≤ 0x10FFFF → utf8_encode v = Some (utf8 v).
Proof.
  intros Hv. unfold utf8_encode, utf8, u8.
  rewrite (field 6 5), (field 12 4), (field 6 6), (field 18 3), (field 12 6) by lia.
  change 0x03F with (Z.ones 6). change 0x003F with (Z.ones 6). rewrite Z.land_ones by lia.
  change (2 ^ 6) with 64. change (2 ^ 12) with 4096. change (2 ^ 18) with 262144.
  change (2 ^ 5) with 32. change (2 ^ 4) with 16. change (2 ^ 3) with 8.
  rewrite (proj2 (Z.ltb_ge v 0)), (proj2 (Z.leb_le v 0x10FFFF)) by lia.
  repeat case_bool; try done; do 2 f_equal; try lia;
    repeat f_equal; Z.to_euclidean_division_equations; lia.
Qed.

(** ** Checking *)

Lemma length_utf8 v : (1 ≤ length (utf8 v) ≤ 4)%nat.
Proof. unfold utf8. repeat case_match; simpl; lia. Qed.

Lemma utf8_bytes v : 0 ≤ v ≤ 0x10FFFF → Forall is_byte (utf8 v).
Proof.
  intros Hv. unfold utf8, is_byte.
  repeat case_bool; repeat constructor; Z.to_euclidean_division_equations; lia.
Qed.

(** The length that the first byte of a sequence announces. *)
Definition announced (b : Z) : Z :=
  if b <? 0x80 then 1 else if b <? 0xC2 then 0 else if b <? 0xE0 then 2
  else if b <? 0xF0 then 3 else if b <? 0xF5 then 4 else 0.

Lemma utf8_check_first_announced b : is_byte b → utf8_check_first b = announced b.
Proof.
  intros Hb. apply Z.eqb_eq.
  by apply (all_range_spec 0 256 (λ b, utf8_check_first b =? announced b)).
Qed.

Lemma check_first_utf8 v b l :
  scalar v → utf8 v = b :: l → utf8_check_first b = Z.of_nat (length (utf8 v)).
Proof.
  intros [Hv _] E. pose proof (utf8_bytes v Hv) as Hb. rewrite E in Hb. inv Hb.
  rewrite utf8_check_first_announced by done. unfold utf8, announced in *.
  repeat (case_bool; simplify_eq/=; try byte_arith).
Qed.

(** What a full check accepts, as arithmetic on the bytes. *)
Definition cont (b : Z) : Prop := 0x80 ≤ b < 0xC0.

#[export] Instance cont_dec b : Decision (cont b).
Proof. unfold cont. apply _. Defined.

Lemma continuation_step n buffer i value b :
  is_byte b → readZ buffer i = Ret b →
  continuation (S n) buffer i value =
    if decide (cont b) then continuation n buffer (i + 1) (value * 64 + b `mod` 64) else Ret None.
Proof.
  intros Hb E. cbn [continuation]. rewrite E. cbn [mbind outcome_bind].
  rewrite Z.shiftl_mul_pow2 by lia. change 0x3F with (Z.ones 6). rewrite Z.land_ones by lia.
  destruct (decide (cont b)) as [Hc|Hc]; unfold cont in Hc.
  - by rewrite (proj2 (Z.ltb_ge _ _)), (proj2 (Z.ltb_ge _ _)) by lia.
  - destruct (Z.ltb_spec b 0x80); [done|]. by rewrite (proj2 (Z.ltb_lt _ _)) by lia.
Qed.

(** The bits of a code point in the first byte and the least code point of
    each size. *)
Definition lead (size b : Z) : Z := b `mod` (if size =? 2 then 32 else if size =? 3 then 16 else 8).
Definition least (size : Z) : Z := if size =? 2 then 0x80 else if size =? 3 then 0x800 else 0x10000.

Definition proper (size v : Z) : Prop := least size ≤ v ∧ scalar v.

#[export] Instance proper_dec size v : Decision (proper size v).
Proof. unfold proper. apply _. Defined.

Lemma check_full_spec buffer size b :
  2 ≤ size ≤ 4 → readZ buffer 0 = Ret b →
  utf8_check_full buffer size =
    (v ← continuation (Z.to_nat (size - 1)) buffer 1 (lead size b);
     Ret (match v with
          | Some v => if bool_decide (proper size v) then Some v else None
          | None => None
          end)).
Proof.
  intros Hsize E. unfold utf8_check_full. rewrite E. cbn [mbind outcome_bind].
  assert (Hl : (if size =? 2 then Some (Z.land b (Z.ones 5))
                else if size =? 3 then Some (Z.land b (Z.ones 4))
                else if size =? 4 then Some (Z.land b (Z.ones 3)) else None)
               = Some (lead size b)).
  { unfold lead. rewrite !Z.land_ones by lia. repeat case_bool; try lia; done. }
  change (Z.ones 5) with 0x1F in Hl. change (Z.ones 4) with 0xF in Hl.
  change (Z.ones 3) with 0x7 in Hl. rewrite Hl. clear Hl.
  destruct (continuation _ _ _ _) as [[v|]| |]; cbn [mbind outcome_bind]; try done.
  unfold proper, least, scalar.
  case_bool_decide; repeat (case_bool; simpl; try done; try (exfalso; lia)).
Qed.

(** The code point that the payload bits of a sequence make. *)
Definition payload (size b : Z) (l : list Z) : Z := foldl (λ v b, v * 64 + b `mod` 64) (lead size b) l.

Lemma readZ_middle pre b rest : readZ (pre ++ b :: rest) (Z.of_nat (length pre)) = Ret b.
Proof.
  unfold readZ. rewrite (proj2 (Z.leb_le _ _)), Nat2Z.id by lia. by rewrite list_lookup_middle.
Qed.

Lemma continuation_spec l pre rest value :
  Forall is_byte l →
  continuation (length l) (pre ++ l ++ rest) (Z.of_nat (length pre)) value =
    Ret (if decide (Forall cont l) then Some (foldl (λ v b, v * 64 + b `mod` 64) value l) else None).
Proof.
  intros Hl. revert pre value. induction Hl as [|b l Hb Hl IH]; intros pre value; [done|].
  cbn [length foldl]. change ((b :: l) ++ rest) with (b :: l ++ rest).
  rewrite (continuation_step _ _ _ _ b Hb).
  - destruct (decide (cont b)) as [Hc|Hc].
    + specialize (IH (pre ++ [b]) (value * 64 + b `mod` 64)).
      rewrite <- app_assoc, length_app, Nat2Z.inj_add in IH. simpl app in IH.
      change (Z.of_nat (length [b])) with 1 in IH. rewrite IH.
      f_equal. apply decide_ext. rewrite Forall_cons. naive_solver.
    + rewrite decide_False; [done|]. rewrite Forall_cons. naive_solver.
  - apply readZ_middle.
Qed.

Lemma check_full_cons b l rest :
  2 ≤ Z.of_nat (S (length l)) ≤ 4 → Forall is_byte l →
  let size := Z.of_nat (S (length l)) in
  utf8_check_full (b :: l ++ rest) size =
    Ret (if decide (Forall cont l ∧ proper size (payload size b l)) then Some (payload size b l) else None).
Proof.
  intros Hs Hl size. rewrite (check_full_spec (b :: l ++ rest) size b Hs eq_refl).
  replace (Z.to_nat (size - 1)) with (length l) by lia.
  rewrite (continuation_spec l [b] rest _ Hl : continuation _ (b :: l ++ rest) 1 _ = _).
  unfold payload. cbn [mbind outcome_bind]. f_equal.
  repeat (case_decide || case_bool_decide); simpl in *; naive_solver.
Qed.

(** Sequences of the announced length whose payload is proper are exactly the
    encodings. *)
Lemma utf8_payload b l :
  is_byte b → 2 ≤ announced b → announced b = Z.of_nat (S (length l)) → Forall cont l →
  proper (announced b) (payload (announced b) b l) →
  utf8 (payload (announced b) b l) = b :: l.
Proof.
  unfold announced. intros Hb H2 Hlen Hc Hp.
  repeat (case_bool; try (exfalso; lia)); unfold payload, proper, least, scalar, lead, utf8 in *;
    destruct l as [|c [|d [|e []]]]; simpl in Hlen; try lia;
    repeat match goal with H : Forall cont (_ :: _) |- _ => inv H end;
    unfold cont in *; cbn [foldl] in *; simpl in Hp;
    repeat (case_bool; try (exfalso; byte_arith)); repeat f_equal; byte_arith.
Qed.

Lemma payload_utf8 v b l :
  scalar v → utf8 v = b :: l → l ≠ [] →
  let size := Z.of_nat (S (length l)) in
  Forall cont l ∧ proper size (payload size b l) ∧ payload size b l = v.
Proof.
  intros Hv E Hl size. pose proof Hv as [Hr _]. unfold utf8 in E. subst size.
  assert (∀ x y, x = y → scalar y → scalar x) as Hsc by (by intros ?? ->).
  repeat case_bool; simplify_eq/=; unfold proper, payload, lead, least; cbn [foldl]; simpl;
    repeat split; repeat constructor; unfold cont; try byte_arith;
    (eapply Hsc; [|exact Hv]; byte_arith).
Qed.

(** ** Strings *)

Definition valid (s : list Z) : Prop := ∃ vs, Forall scalar vs ∧ s = utf8s vs.

Lemma valid_nil : valid [].
Proof. by exists []. Qed.

Lemma valid_app s1 s2 : valid s1 → valid s2 → valid (s1 ++ s2).
Proof.
  intros (vs1 & H1 & ->) (vs2 & H2 & ->). exists (vs1 ++ vs2).
  split; [by apply Forall_app|]. unfold utf8s. by rewrite bind_app.
Qed.

Lemma valid_utf8 v : scalar v → valid (utf8 v).
Proof. intros Hv. exists [v]. split; [by constructor|]. unfold utf8s. cbn. by rewrite app_nil_r. Qed.

Lemma valid_bytes s : valid s → Forall is_byte s.
Proof.
  intros (vs & Hvs & ->). unfold utf8s. induction Hvs as [|v vs [Hv _] _ IH]; [constructor|].
  cbn. apply Forall_app. by split; [apply utf8_bytes|].
Qed.

Lemma utf8_cons v : ∃ b l, utf8 v = b :: l.
Proof. unfold utf8. repeat case_match; eauto. Qed.

(** One character of a valid string. *)
Lemma valid_cons b t :
  valid (b :: t) ↔ ∃ v l s, scalar v ∧ utf8 v = b :: l ∧ t = l ++ s ∧ valid s.
Proof.
  split.
  - intros ([|v vs] & Hvs & E); [done|]. inv Hvs.
    destruct (utf8_cons v) as (c & l & El). unfold utf8s in E. cbn in E. rewrite El in E.
    simplify_eq/=. exists v, l, (utf8s vs). split_and!; try done. by exists vs.
  - intros (v & l & s & Hv & E & -> & Hs).
    replace (b :: l ++ s) with (utf8 v ++ s) by (by rewrite E). by apply valid_app; [apply valid_utf8|].
Qed.

Lemma utf8_ascii b : 0 ≤ b < 0x80 → utf8 b = [b].
Proof. intros H. unfold utf8. by rewrite (proj2 (Z.ltb_lt _ _)) by lia. Qed.

Lemma scalar_ascii b : 0 ≤ b < 0x80 → scalar b.
Proof. unfold scalar. lia. Qed.

Lemma announced_ascii b : is_byte b → announced b = 1 ↔ b < 0x80.
Proof. unfold announced, is_byte. repeat case_bool; lia. Qed.

(** The sequence that starts a string is one that [utf8_check_full] accepts. *)
Lemma full_check_decodes b l rest :
  is_byte b → Forall is_byte l → 2 ≤ announced b → announced b = Z.of_nat (S (length l)) →
  (∃ v, utf8_check_full (b :: l ++ rest) (announced b) = Ret (Some v) ∧ scalar v ∧ utf8 v = b :: l)
  ∨ (utf8_check_full (b :: l ++ rest) (announced b) = Ret None ∧ ∀ v, scalar v → utf8 v ≠ b :: l).
Proof.
  intros Hb Hl H2 Hlen. assert (H4 : announced b ≤ 4) by (unfold announced; repeat case_bool; lia).
  rewrite Hlen, check_full_cons by (done || lia). case_decide as Hd.
  - left. eexists. split; [done|]. destruct Hd as [Hc [Hp Hs]]. split; [done|].
    rewrite <- Hlen in *. by apply utf8_payload; [..|split].
  - right. split; [done|]. intros v Hv E. destruct Hd.
    destruct (payload_utf8 v b l Hv E) as (? & ? & ?); [|done].
    destruct l; [|done]. simpl in Hlen. lia.
Qed.

Lemma check_from_spec fuel pre s rest :
  Forall is_byte s → (length s ≤ fuel)%nat →
  ∃ ok, check_from fuel (pre ++ s ++ rest) (Z.of_nat (length pre))
          (Z.of_nat (length pre) + Z.of_nat (length s)) = Ret ok ∧ (ok = true ↔ valid s).
Proof.
  revert pre s. induction fuel as [|fuel IH]; intros pre s Hs Hf.
  - destruct s; [|simpl in Hf; lia]. exists true. cbn [check_from length].
    rewrite (proj2 (Z.leb_le _ _)) by lia. split; [done|]. by split; [intros _; apply valid_nil|].
  - destruct Hs as [|b t Hb Ht].
    { exists true. cbn [check_from length]. rewrite (proj2 (Z.leb_le _ _)) by lia. split; [done|]. by split; [intros _; apply valid_nil|]. }
    cbn [check_from length]. rewrite (proj2 (Z.leb_gt _ _)) by lia.
    change ((b :: t) ++ rest) with (b :: t ++ rest).
    rewrite readZ_middle. cbn [mbind outcome_bind]. rewrite utf8_check_first_announced by done.
    assert (Hfirst : ∀ v l, scalar v → utf8 v = b :: l → announced b = Z.of_nat (S (length l))).
    { intros v l Hv El. rewrite <- utf8_check_first_announced, (check_first_utf8 v b l), El by done. done. }
    destruct (Z.eqb_spec (announced b) 0) as [E0|Hn0].
    { exists false. split; [done|]. split; [done|]. intros (v & l & u & Hv & El & _)%valid_cons.
      specialize (Hfirst v l Hv El). lia. }
    destruct (Z.ltb_spec 1 (announced b)) as [H2|H1].
    + destruct (Z.ltb_spec (Z.of_nat (length pre) + Z.of_nat (S (length t)))
        (Z.of_nat (length pre) + announced b)) as [Hshort|Hlong].
      { exists false. split; [done|]. split; [done|]. intros (v & l & u & Hv & El & -> & _)%valid_cons.
        specialize (Hfirst v l Hv El). rewrite length_app in Hshort. lia. }
      rewrite Nat2Z.id, drop_app_length.
      set (k := (Z.to_nat (announced b) - 1)%nat).
      rewrite <- (take_drop k t). set (l := take k t). set (u := drop k t).
      assert (Hl : length l = k) by (unfold l; rewrite length_take; lia).
      rewrite <- app_assoc. rewrite <- (take_drop k t) in Ht. apply Forall_app in Ht as [Htl Htu].
      destruct (full_check_decodes b l (u ++ rest)) as [(v & -> & Hv & Ev)|[-> Hno]];
        try done; try lia; cbn [mbind outcome_bind].
      * destruct (IH (pre ++ b :: l) u) as (ok & Eok & Hok); [done|unfold u; rewrite length_drop; simpl in Hf; lia|].
        exists ok. split.
        -- rewrite <- Eok, <- !app_assoc. f_equal; rewrite !length_app; simpl; lia.
        -- rewrite Hok, valid_cons. split; [by exists v, l, u|].
           intros (v' & l' & u' & Hv' & Ev' & Et & Hu'). specialize (Hfirst v' l' Hv' Ev').
           apply app_inj_1 in Et as [_ ->]; [done|]. lia.
      * exists false. split; [done|]. split; [done|].
        intros (v' & l' & u' & Hv' & Ev' & Et & Hu')%valid_cons. specialize (Hfirst v' l' Hv' Ev').
        apply app_inj_1 in Et as [-> _]; [|lia]. by destruct (Hno v').
    + assert (Hb1 : announced b = 1) by (unfold announced in *; repeat case_bool; lia).
      apply announced_ascii in Hb1; [|done].
      destruct (IH (pre ++ [b]) t) as (ok & Eok & Hok); [done|simpl in Hf; lia|].
      exists ok. split.
      * rewrite <- Eok, <- app_assoc. f_equal; rewrite length_app; simpl; lia.
      * rewrite Hok, valid_cons. split.
        -- intros Hv. exists b, [], t. unfold is_byte in Hb.
           rewrite utf8_ascii by lia. auto using scalar_ascii with lia.
        -- intros (v & l & u & Hv & El & -> & Hu). specialize (Hfirst v l Hv El).
           assert (l = []) as -> by (apply length_zero_iff_nil; lia). done.
Qed.

(** Bytes of C strings: none of them ends the string. *)
Definition text_byte (b : Z) : Prop := is_byte b ∧ b ≠ 0.

#[export] Instance text_byte_dec b : Decision (text_byte b).
Proof. unfold text_byte. apply _. Defined.

Lemma text_bytes s : Forall text_byte s → Forall is_byte s.
Proof. intros H. eapply Forall_impl; [exact H|]. by intros b [? _]. Qed.

Lemma strlen_spec s rest : Forall text_byte s → strlen (s ++ 0 :: rest) = Ret (Z.of_nat (length s)).
Proof.
  induction 1 as [|b s [_ Hb] _ IH]; [done|]. cbn [app strlen length].
  rewrite (proj2 (Z.eqb_neq _ _)) by done. rewrite IH. cbn. f_equal. lia.
Qed.

Lemma utf8_check_string_spec s rest :
  Forall is_byte s →
  ∃ ok, utf8_check_string (s ++ rest) (Z.of_nat (length s)) = Ret ok ∧ (ok = true ↔ valid s).
Proof.
  intros Hs. unfold utf8_check_string. rewrite (proj2 (Z.eqb_neq _ _)) by lia.
  cbn [mbind outcome_bind mret outcome_ret]. rewrite Nat2Z.id.
  by apply (check_from_spec (length s) [] s rest).
Qed.

Lemma utf8_check_cstring s :
  Forall text_byte s → Z.of_nat (length s) < 2 ^ 31 →
  ∃ ok, utf8_check_string (s ++ [0]) (-1) = Ret ok ∧ (ok = true ↔ valid s).
Proof.
  intros Hs Hlen. destruct (utf8_check_string_spec s [0] (text_bytes s Hs)) as (ok & E & Hok).
  exists ok. split; [|done]. rewrite <- E. unfold utf8_check_string.
  rewrite strlen_spec by done. change (-1 =? -1) with true.
  rewrite (proj2 (Z.eqb_neq (Z.of_nat (length s)) _)) by lia.
  cbn [mbind outcome_bind mret outcome_ret]. unfold s32.
  rewrite Z.mod_small, Z.add_simpl_r by lia. done.
Qed.

(** A NUL ends a sequence that is cut short. *)
Lemma continuation_short l n pre rest value :
  Forall is_byte l → (length l < n)%nat →
  continuation n (pre ++ l ++ 0 :: rest) (Z.of_nat (length pre)) value = Ret None.
Proof.
  intros Hl. revert n pre value. induction Hl as [|b l Hb Hl IH]; intros [|n] pre value Hn;
    cbn [length] in Hn; try lia.
  - rewrite (continuation_step n _ _ _ 0); [done|by split|]. apply readZ_middle.
  - change ((b :: l) ++ 0 :: rest) with (b :: l ++ 0 :: rest).
    rewrite (continuation_step n _ _ _ b Hb); [|apply readZ_middle].
    destruct (decide (cont b)); [|done].
    specialize (IH n (pre ++ [b]) (value * 64 + b `mod` 64)).
    rewrite <- app_assoc, length_app, Nat2Z.inj_add in IH. apply IH. lia.
Qed.

(** One step of the iteration over a C string. *)
Lemma utf8_iterate_valid v u :
  scalar v → v ≠ 0 → utf8_iterate (utf8 v ++ u) = Ret (u, Some v).
Proof.
  intros Hv H0. destruct (utf8_cons v) as (b & l & El). pose proof (check_first_utf8 v b l Hv El) as Ec.
  pose proof Hv as [Hr _]. pose proof (utf8_bytes v Hr) as Hb. rewrite El in *. inv Hb.
  cbn [length] in Ec. unfold utf8_iterate. change (readZ ((b :: l) ++ u) 0) with (Ret b).
  cbn [mbind outcome_bind].
  assert (Hz : b ≠ 0).
  { intros ->. rewrite utf8_check_first_announced in Ec by done.
    assert (l = []) as -> by (apply length_zero_iff_nil; unfold announced in Ec; simpl in Ec; lia).
    unfold utf8 in El. repeat case_match; simplify_eq/=. }
  rewrite (proj2 (Z.eqb_neq _ _)) by done. rewrite Ec. rewrite (proj2 (Z.leb_gt _ _)) by lia.
  rewrite Nat2Z.id. change (S (length l)) with (length (b :: l)). rewrite drop_app_length.
  destruct l as [|c l].
  - unfold utf8 in El. repeat case_match; simplify_eq/=. done.
  - rewrite (proj2 (Z.eqb_neq _ _)) by (simpl; lia).
    destruct (payload_utf8 v b (c :: l) Hv El) as (Hc & Hp & Ep); [done|].
    assert (H4 : (length (utf8 v) ≤ 4)%nat) by apply length_utf8. rewrite El in H4.
    change ((b :: c :: l) ++ u) with (b :: (c :: l) ++ u).
    change (length (b :: c :: l)) with (S (length (c :: l))).
    rewrite check_full_cons by (done || (simpl in *; lia)).
    rewrite decide_True by done. cbn [mbind outcome_bind]. by rewrite Ep.
Qed.

Lemma utf8_iterate_invalid b t :
  Forall text_byte (b :: t) → (∀ v u, scalar v → b :: t ≠ utf8 v ++ u) →
  utf8_iterate (b :: t ++ [0]) = Fail.
Proof.
  intros Hs Hno. inv Hs. destruct H1 as [Hb Hb0]. pose proof (text_bytes _ H2) as Ht.
  unfold utf8_iterate. change (readZ (b :: t ++ [0]) 0) with (Ret b). cbn [mbind outcome_bind].
  rewrite (proj2 (Z.eqb_neq _ _)) by done. rewrite utf8_check_first_announced by done.
  destruct (Z.leb_spec (announced b) 0); [done|].
  destruct (Z.eqb_spec (announced b) 1) as [E1|E1].
  { apply announced_ascii in E1; [|done]. unfold is_byte in Hb. exfalso.
    apply (Hno b t); [apply scalar_ascii; lia|]. by rewrite utf8_ascii by lia. }
  assert (H4 : announced b ≤ 4) by (unfold announced; repeat case_bool; lia).
  set (k := (Z.to_nat (announced b) - 1)%nat).
  destruct (decide (k ≤ length t)%nat) as [Hk|Hk].
  - rewrite <- (take_drop k t), <- app_assoc. rewrite <- (take_drop k t) in Ht.
    apply Forall_app in Ht as [Ht1 Ht2].
    destruct (full_check_decodes b (take k t) (drop k t ++ [0])) as [(v & _ & Hv & E)|[-> _]];
      try done; try lia; [rewrite length_take; lia|].
    destruct (Hno v (drop k t)); [done|]. rewrite E. simpl. by rewrite take_drop.
  - rewrite (check_full_spec (b :: t ++ [0]) _ b) by (done || lia).
    pose proof (continuation_short t (Z.to_nat (announced b - 1)) [b] []
      (lead (announced b) b) Ht ltac:(lia)) as E.
    change (continuation (Z.to_nat (announced b - 1)) (b :: t ++ [0]) 1 (lead (announced b) b)
            = Ret None) in E. by rewrite E.
Qed.

(** A text begins with a character, or it does not. *)
Lemma utf8_first b s :
  Forall text_byte (b :: s) →
  (∃ v r, scalar v ∧ b :: s = utf8 v ++ r) ∨ ∀ v r, scalar v → b :: s ≠ utf8 v ++ r.
Proof.
  intros Hs. pose proof Hs as [[Hb Hb0] Ht]%Forall_cons. apply text_bytes in Ht.
  destruct (decide (b < 0x80)) as [Hlo|Hhi].
  { left. exists b, s. unfold is_byte in Hb. split; [apply scalar_ascii; lia|]. by rewrite utf8_ascii by lia. }
  assert (Hcount : ∀ v r, scalar v → b :: s = utf8 v ++ r →
    announced b = Z.of_nat (length (utf8 v)) ∧ utf8 v = b :: take (length (utf8 v) - 1) s).
  { intros v r Hv E. destruct (utf8_cons v) as (c & l & El). rewrite El in *. simplify_eq/=.
    pose proof (check_first_utf8 v c l Hv El) as Ec. rewrite utf8_check_first_announced, El in Ec by done.
    split; [done|]. by rewrite Nat.sub_0_r, take_app_length. }
  destruct (decide (2 ≤ announced b ∧ announced b ≤ Z.of_nat (S (length s)))) as [[H2 Hlen]|Hno].
  - set (k := (Z.to_nat (announced b) - 1)%nat).
    destruct (full_check_decodes b (take k s) [] Hb) as [(v & _ & Hv & E)|[_ Hno]].
    + by apply Forall_take.
    + done.
    + rewrite length_take. lia.
    + left. exists v, (drop k s). split; [done|]. rewrite E. cbn [app]. by rewrite take_drop.
    + right. intros v r Hv E. destruct (Hcount v r Hv E) as [Ec Eu]. apply (Hno v Hv). rewrite Eu at 1.
      unfold k. do 2 f_equal. lia.
  - right. intros v r Hv E. destruct (Hcount v r Hv E) as [Ec Eu]. pose proof (length_utf8 v) as Hl.
    apply Hno. apply (f_equal length) in E. rewrite length_app in E. simpl in E. split; [|lia].
    destruct (decide (announced b = 1)) as [E1|]; [apply announced_ascii in E1; [lia|done]|lia].
Qed.
