(* ===== verification/JStrbuf.v ===== *)
(** * String buffers (jansson/strbuffer.c)

    Buffers that grow by doubling, and the abstract view of them as lists of
    bytes that the lexer and the dumper use. *)

From S2P Require Import Prelude CModel JBase.

Definition STRBUFFER_MIN_SIZE : Z := 16.
Definition STRBUFFER_FACTOR : Z := 2.
Definition STRBUFFER_SIZE_MAX : Z := 2 ^ 64 - 1.

Record strbuffer_t := Strbuffer {
  sb_value : option carray;   (* NULL or a block of [sb_size] bytes *)
  sb_length : Z;              (* bytes used *)
  sb_size : Z                 (* bytes allocated *)
}.

(** [memcpy(a + off, l, n)] from a list of [n] bytes. *)
Fixpoint awrite (off : Z) (l : list Z) (a : carray) : outcome carray :=
  match l with
  | [] => mret a
  | b :: l => a ← aset off b a; awrite (off + 1) l a
  end.

(** [memcpy(dst, src, n)]. *)
Definition acopy (src : carray) (n : Z) (dst : carray) : outcome carray :=
  for_range 0 n (λ k dst, v ← aget src k; aset k v dst) dst.

(** The object before [strbuffer_init] is not initialised. *)
Definition strbuffer_init : SM strbuffer_t unit :=
  _ ← put (Strbuffer None 0 STRBUFFER_MIN_SIZE);
  _ ← lift (jsonp_malloc STRBUFFER_MIN_SIZE);
  value ← liftS (aset 0 0 (anew STRBUFFER_MIN_SIZE));
  put (Strbuffer (Some value) 0 STRBUFFER_MIN_SIZE).

Definition strbuffer_close : SM strbuffer_t unit := put (Strbuffer None 0 0).

Definition strbuffer_clear : SM strbuffer_t unit :=
  s ← get;
  value ← liftS (deref (sb_value s));
  value ← liftS (aset 0 0 value);
  put (Strbuffer (Some value) 0 (sb_size s)).

Definition strbuffer_value (s : strbuffer_t) : option carray := sb_value s.

Definition strbuffer_steal_value : SM strbuffer_t (option carray) :=
  s ← get;
  _ ← attempt strbuffer_init;
  mret (sb_value s).

Definition strbuffer_append_bytes (data : list Z) : SM strbuffer_t unit :=
  s ← get;
  let size := Z.of_nat (length data) in
  _ ← (if sb_size s - sb_length s <=? size then
         if (STRBUFFER_SIZE_MAX `div` STRBUFFER_FACTOR <? sb_size s)
            || (STRBUFFER_SIZE_MAX - 1 <? size)
            || (STRBUFFER_SIZE_MAX - 1 - size <? sb_length s) then sfail
         else
           let new_size := Z.max (sb_size s * STRBUFFER_FACTOR) (sb_length s + size + 1) in
           _ ← lift (jsonp_malloc new_size);
           value ← liftS (deref (sb_value s));
           new_value ← liftS (acopy value (sb_length s) (anew new_size));
           put (Strbuffer (Some new_value) (sb_length s) new_size)
       else mret tt);
  s ← get;
  value ← liftS (deref (sb_value s));
  value ← liftS (awrite (sb_length s) data value);
  value ← liftS (aset (sb_length s + size) 0 value);
  put (Strbuffer (Some value) (sb_length s + size) (sb_size s)).

(** The string is the list of the bytes before its NUL. *)
Definition strbuffer_append (string : list Z) : SM strbuffer_t unit :=
  strbuffer_append_bytes string.

Definition strbuffer_append_byte (byte : Z) : SM strbuffer_t unit :=
  strbuffer_append_bytes [u8 byte].

(** The result is a [char]. *)
Definition strbuffer_pop : SM strbuffer_t Z :=
  s ← get;
  if 0 <? sb_length s then
    value ← liftS (deref (sb_value s));
    c ← liftS (aget value (sb_length s - 1));
    value ← liftS (aset (sb_length s - 1) 0 value);
    _ ← put (Strbuffer (Some value) (sb_length s - 1) (sb_size s));
    mret (s8 c)
  else mret 0.

(** ** Buffers as lists of bytes *)

(** The block starts with [l]. *)
Definition starts (a : carray) (l : list Z) : Prop :=
  ∀ i, (i < length l)%nat → acells a !! Z.of_nat i = l !! i.

Record holds (s : strbuffer_t) (l : list Z) : Prop := {
  holds_length : sb_length s = Z.of_nat (length l);
  holds_size : STRBUFFER_MIN_SIZE ≤ sb_size s ∧ Z.of_nat (length l) < sb_size s ≤ STRBUFFER_SIZE_MAX;
  holds_block : ∃ a, sb_value s = Some a ∧ alen a = sb_size s ∧ starts a (l ++ [0])
}.

Lemma aset_ok i v a : 0 ≤ i < alen a → aset i v a = Ret (CArray (alen a) (<[i:=v]> (acells a))).
Proof.
  intros H. unfold aset. by rewrite (proj2 (Z.leb_le _ _)), (proj2 (Z.ltb_lt _ _)) by lia.
Qed.

Lemma awrite_spec off l a :
  0 ≤ off → off + Z.of_nat (length l) ≤ alen a →
  ∃ a', awrite off l a = Ret a' ∧ alen a' = alen a ∧
    (∀ i, (i < length l)%nat → acells a' !! (off + Z.of_nat i) = l !! i) ∧
    (∀ j, ¬ (off ≤ j < off + Z.of_nat (length l)) → acells a' !! j = acells a !! j).
Proof.
  revert off a. induction l as [|b l IH]; intros off a Ho Hl; cbn [awrite length] in *.
  - exists a. split_and!; try done. intros i Hi. lia.
  - rewrite aset_ok by lia. cbn [mbind outcome_bind].
    destruct (IH (off + 1) (CArray (alen a) (<[off:=b]> (acells a)))) as (a' & -> & Hlen & Hin & Hout);
      [lia|simpl; lia|].
    exists a'. split_and!; [done|done|..]; simpl in *.
    + intros [|i] Hi.
      * rewrite Hout by lia. replace (off + Z.of_nat 0) with off by lia. by rewrite lookup_insert_eq.
      * replace (off + Z.of_nat (S i)) with (off + 1 + Z.of_nat i) by lia. apply Hin. lia.
    + intros j Hj. rewrite Hout by lia. by rewrite lookup_insert_ne by lia.
Qed.

Lemma acopy_spec src l n dst :
  starts src l → Z.of_nat (length l) ≤ alen dst → n = Z.of_nat (length l) →
  ∃ a, acopy src n dst = Ret a ∧ alen a = alen dst ∧ starts a l.
Proof.
  intros Hsrc Hlen ->. unfold acopy.
  destruct (for_range_inv (λ n a, alen a = alen dst ∧
      ∀ i, Z.of_nat i < n → acells a !! Z.of_nat i = l !! i)
    0 (Z.of_nat (length l)) (λ k dst, v ← aget src k; aset k v dst) dst) as (a & -> & Ha & Hl).
  - lia.
  - split; [done|]. lia.
  - intros k a Hk [Ha Hl]. unfold aget.
    pose proof (Hsrc (Z.to_nat k) ltac:(lia)) as E. rewrite Z2Nat.id in E by lia. rewrite E. clear E.
    destruct (l !! Z.to_nat k) as [v|] eqn:E; [|apply lookup_ge_None in E; lia].
    cbn [deref mbind outcome_bind]. rewrite aset_ok by lia. eexists. split; [done|].
    split; [done|]. intros i Hi. simpl. destruct (decide (Z.of_nat i = k)) as [<-|].
    + by rewrite lookup_insert_eq, <- E, Nat2Z.id.
    + rewrite lookup_insert_ne by done. apply Hl. lia.
  - exists a. split_and!; [done|done|]. intros i Hi. apply Hl. lia.
Qed.

Lemma starts_app_inv a l l' : starts a (l ++ l') → starts a l.
Proof.
  intros H i Hi. rewrite H by (rewrite length_app; lia). by rewrite lookup_app_l.
Qed.

Lemma starts_snoc a l b : starts a l → acells a !! Z.of_nat (length l) = Some b → starts a (l ++ [b]).
Proof.
  intros H Hb i Hi. rewrite length_app in Hi. simpl in Hi.
  destruct (decide (i < length l)%nat).
  - rewrite lookup_app_l by done. by apply H.
  - assert (i = length l) as -> by lia. by rewrite Hb, list_lookup_middle.
Qed.

(** Writing behind what the block starts with. *)
Lemma starts_insert a l n v :
  starts a l → Z.of_nat (length l) ≤ n → starts (CArray (alen a) (<[n:=v]> (acells a))) l.
Proof. intros H Hn i Hi. simpl. rewrite lookup_insert_ne by lia. by apply H. Qed.

Lemma holds_init s : wpr strbuffer_init s (λ _ s', holds s' []).
Proof.
  unfold strbuffer_init. apply wp_put_bind, wp_lift_malloc; [done|].
  eapply wp_liftS_bind; [by rewrite aset_ok|]. apply wp_put.
  split; [done|by split|]. eexists. split; [done|]. split; [done|].
  apply starts_snoc; [intros i; simpl; lia|done].
Qed.

Lemma holds_clear s l : holds s l → wpr strbuffer_clear s (λ _ s', holds s' []).
Proof.
  intros [Hl Hs (a & Ha & Hla & Hb)]. unfold strbuffer_clear. apply wp_get_bind. rewrite Ha.
  eapply wp_liftS_bind; [done|]. unfold STRBUFFER_MIN_SIZE in Hs.
  eapply wp_liftS_bind; [by rewrite aset_ok by lia|]. apply wp_put.
  split; [done|simpl; unfold STRBUFFER_MIN_SIZE; lia|]. eexists. split; [done|]. split; [done|].
  apply starts_snoc; [intros i; simpl; lia|]. simpl. by rewrite lookup_insert_eq.
Qed.

(** The bytes behind the old ones, and the new terminator. *)
Lemma append_block a l data :
  starts a l → Z.of_nat (length l + length data) < alen a →
  ∃ a1 a2, awrite (Z.of_nat (length l)) data a = Ret a1 ∧
    aset (Z.of_nat (length l) + Z.of_nat (length data)) 0 a1 = Ret a2 ∧
    alen a2 = alen a ∧ starts a2 ((l ++ data) ++ [0]).
Proof.
  intros Hb Hlen.
  destruct (awrite_spec (Z.of_nat (length l)) data a) as (a1 & E1 & Hl1 & Hin & Hout); [lia|lia|].
  exists a1. rewrite aset_ok by lia. eexists. split; [done|]. split; [done|]. split; [done|].
  rewrite <- Nat2Z.inj_add, <- length_app. apply starts_snoc; [|by simpl; rewrite lookup_insert_eq].
  apply starts_insert; [|lia]. intros i Hi. rewrite length_app in Hi.
  destruct (decide (i < length l)%nat).
  - rewrite Hout by lia. rewrite lookup_app_l by done. by apply Hb.
  - rewrite lookup_app_r by lia. rewrite <- Hin by lia. f_equal. lia.
Qed.

(** The second half of an append, into a block that is large enough. *)
Lemma append_room s l data a :
  sb_value s = Some a → sb_length s = Z.of_nat (length l) → alen a = sb_size s → starts a l →
  STRBUFFER_MIN_SIZE ≤ sb_size s →
  Z.of_nat (length l + length data) < sb_size s ≤ STRBUFFER_SIZE_MAX →
  wpr (s ← get;
       value ← liftS (deref (sb_value s));
       value ← liftS (awrite (sb_length s) data value);
       value ← liftS (aset (sb_length s + Z.of_nat (length data)) 0 value);
       put (Strbuffer (Some value) (sb_length s + Z.of_nat (length data)) (sb_size s))) s
    (λ _ s', holds s' (l ++ data)).
Proof.
  intros Ha Hl Hla Hb Hmin Hs. destruct (append_block a l data) as (a1 & a2 & E1 & E2 & Hl2 & Hb2);
    [done|lia|].
  apply wp_get_bind. rewrite Ha, Hl. eapply wp_liftS_bind; [done|].
  eapply wp_liftS_bind; [exact E1|]. eapply wp_liftS_bind; [exact E2|]. apply wp_put.
  split; simpl; [rewrite length_app; lia|rewrite length_app; lia|].
  exists a2. split_and!; [done|lia|done].
Qed.

(** Appending fails only when the buffer cannot grow. *)
Lemma holds_append s l data :
  holds s l →
  wp (strbuffer_append_bytes data) s (λ o s',
    match o with
    | Ret _ => holds s' (l ++ data)
    | Fail => s' = s ∧ STRBUFFER_SIZE_MAX `div` 2 ≤ Z.of_nat (length l + length data)
    | Undef => False
    end).
Proof.
  intros [Hl [Hmin Hs] (a & Ha & Hla & Hb)].
  apply starts_app_inv in Hb. unfold strbuffer_append_bytes. apply wp_get_bind. rewrite Hl.
  destruct (Z.leb_spec (sb_size s - Z.of_nat (length l)) (Z.of_nat (length data))) as [Hgrow|Hfit].
  - destruct (_ || _) eqn:Eo.
    + apply wp_bind, wp_fail. split; [done|]. unfold STRBUFFER_SIZE_MAX, STRBUFFER_FACTOR in *.
      rewrite !orb_true_iff, !Z.ltb_lt in Eo.
      destruct Eo as [[?|?]|?]; byte_arith.
    + rewrite !orb_false_iff, !Z.ltb_ge in Eo. destruct Eo as [[Eo1 Eo2] Eo3].
      assert (Hmax : sb_size s * STRBUFFER_FACTOR ≤ STRBUFFER_SIZE_MAX)
        by (unfold STRBUFFER_SIZE_MAX, STRBUFFER_FACTOR in *; byte_arith).
      unfold STRBUFFER_MIN_SIZE in Hmin. unfold STRBUFFER_FACTOR in *. set (new_size := Z.max _ _).
      destruct (acopy_spec a l (Z.of_nat (length l)) (anew new_size)) as (a' & E' & Hla' & Hb');
        [done|simpl; lia|done|]. simpl in Hla'.
      eapply wp_seq with (P := λ _ s', s' = Strbuffer (Some a') (Z.of_nat (length l)) new_size).
      { apply wp_lift_malloc; [lia|]. rewrite Ha. eapply wp_liftS_bind; [done|].
        eapply wp_liftS_bind; [exact E'|]. by apply wp_put. }
      intros _ s' ->. eapply wp_mono; [eapply append_room; try done; simpl|].
      * unfold STRBUFFER_MIN_SIZE. lia.
      * lia.
      * by intros [] ?.
  - apply wp_ret_bind. eapply wp_mono; [eapply append_room; try done; lia|]. by intros [] ?.
Qed.

Lemma holds_pop s l c : holds s (l ++ [c]) → wpr strbuffer_pop s (λ d s', d = s8 c ∧ holds s' l).
Proof.
  intros [Hl [Hmin Hs] (a & Ha & Hla & Hb)]. rewrite length_app in *. cbn [length] in *.
  unfold strbuffer_pop. apply wp_get_bind. rewrite (proj2 (Z.ltb_lt _ _)), Ha by lia.
  eapply wp_liftS_bind; [done|].
  replace (sb_length s - 1) with (Z.of_nat (length l)) by lia.
  eapply wp_liftS_bind.
  { unfold aget. rewrite (Hb (length l)) by (rewrite !length_app; simpl; lia).
    rewrite <- app_assoc. simpl. by rewrite list_lookup_middle. }
  eapply wp_liftS_bind; [by rewrite aset_ok by lia|]. apply wp_put_bind, wp_ret.
  split; [done|]. split; simpl; [done|lia|]. eexists. split_and!; [done|done|].
  apply starts_snoc; [|by simpl; rewrite lookup_insert_eq].
  apply starts_insert; [|done]. by do 2 eapply starts_app_inv.
Qed.

Lemma holds_pop_empty s : holds s [] → wpr strbuffer_pop s (λ d s', d = 0 ∧ s' = s).
Proof.
  intros [Hl _ _]. unfold strbuffer_pop. apply wp_get_bind. rewrite Hl. by apply wp_ret.
Qed.

(** What a reader of the block finds. *)
Lemma holds_get s l i :
  holds s l → 0 ≤ i ≤ Z.of_nat (length l) →
  (a ← deref (sb_value s); aget a i) = deref ((l ++ [0]) !! Z.to_nat i).
Proof.
  intros [_ _ (a & -> & _ & Hb)] Hi. cbn [deref mbind outcome_bind]. unfold aget.
  rewrite <- Hb by (rewrite length_app; simpl; lia). by rewrite Z2Nat.id by lia.
Qed.
