(* ===== verification/JHash.v ===== *)
(** * Hash tables (jansson/hashtable.c)

    The pairs of a table are the nodes of one circular list, on which the pairs
    of a bucket are neighbours; a bucket points to the first and the last of
    them. The pairs of a table belong to it alone: its heap is a part of the
    table here, a map from addresses to links and to pairs, in which an access
    to a freed pair is undefined. Values belong to the caller: they are released
    by its [json_decref], which works on a state [S] of its own. *)

From S2P Require Import Prelude CModel JBase.

(** Addresses of [list_t] nodes: the node of the table itself and the pairs. *)
Definition HEAD : Z := 0.

Record list_t := List { next : Z; prev : Z }.
Record bucket_t := Bucket { first : Z; last : Z }.
Record pair_t (V : Type) := Pair { p_hash : Z; p_serial : Z; p_value : V; p_key : list Z }.
Arguments Pair {V} _ _ _ _.
Arguments p_hash {V} _.
Arguments p_serial {V} _.
Arguments p_value {V} _.
Arguments p_key {V} _.

Record hashtable_t (V : Type) := Hashtable {
  h_size : Z;
  h_buckets : option (list bucket_t);   (* NULL or a block of [num_buckets] *)
  h_num_buckets : Z;                    (* index to [primes] *)
  h_links : Zmap list_t;                (* the [list_t] of every node *)
  h_pairs : Zmap (pair_t V);
  h_brk : Z                             (* the next address of the allocator *)
}.
Arguments Hashtable {V} _ _ _ _ _ _.
Arguments h_size {V} _.
Arguments h_buckets {V} _.
Arguments h_num_buckets {V} _.
Arguments h_links {V} _.
Arguments h_pairs {V} _.
Arguments h_brk {V} _.

(** A [char] is signed and extended to [size_t]. *)
Definition hash_str (str : list Z) : Z :=
  foldl (λ hash c, size_t (size_t (size_t (Z.shiftl hash 5) + hash) + size_t (s8 c))) 5381 str.

(** ** Links *)

Abbreviation links := (Zmap list_t).

Definition set_next (a v : Z) (ls : links) : outcome links :=
  l ← deref (ls !! a); mret (<[a := List v (prev l)]> ls).

Definition set_prev (a v : Z) (ls : links) : outcome links :=
  l ← deref (ls !! a); mret (<[a := List (next l) v]> ls).

Definition list_init (list : Z) (ls : links) : links := <[list := List list list]> ls.

Definition list_insert (list node : Z) (ls : links) : outcome links :=
  ls ← set_next node list ls;
  l ← deref (ls !! list);
  ls ← set_prev node (prev l) ls;
  l ← deref (ls !! list);
  ls ← set_next (prev l) node ls;
  set_prev list node ls.

Definition list_remove (list : Z) (ls : links) : outcome links :=
  l ← deref (ls !! list);
  ls ← set_next (prev l) (next l) ls;
  l ← deref (ls !! list);
  set_prev (next l) (prev l) ls.

Definition primes : list Z :=
  [5; 13; 23; 53; 97; 193; 389; 769; 1543; 3079; 6151; 12289; 24593;
   49157; 98317; 196613; 393241; 786433; 1572869; 3145739; 6291469;
   12582917; 25165843; 50331653; 100663319; 201326611; 402653189;
   805306457; 1610612741].

(** The size of a [bucket_t] and of a [pair_t] without its key. *)
Definition sizeof_bucket : Z := 16.
Definition offsetof_key : Z := 40.

Section hashtable.
Context {V : Type}.
Abbreviation hashtable_t := (hashtable_t V).

Definition with_links (ls : links) (h : hashtable_t) : hashtable_t :=
  Hashtable (h_size h) (h_buckets h) (h_num_buckets h) ls (h_pairs h) (h_brk h).
Definition with_buckets (bs : option (list bucket_t)) (h : hashtable_t) : hashtable_t :=
  Hashtable (h_size h) bs (h_num_buckets h) (h_links h) (h_pairs h) (h_brk h).
Definition with_pairs (ps : Zmap (pair_t V)) (h : hashtable_t) : hashtable_t :=
  Hashtable (h_size h) (h_buckets h) (h_num_buckets h) (h_links h) ps (h_brk h).
Definition with_size (n : Z) (h : hashtable_t) : hashtable_t :=
  Hashtable n (h_buckets h) (h_num_buckets h) (h_links h) (h_pairs h) (h_brk h).

Definition num_buckets (h : hashtable_t) : outcome Z := readZ primes (h_num_buckets h).

(** [hashtable->buckets[index]]. *)
Definition get_bucket (index : Z) (h : hashtable_t) : outcome bucket_t :=
  bs ← deref (h_buckets h); deref (bs !! Z.to_nat index).

Definition set_bucket (index : Z) (b : bucket_t) (h : hashtable_t) : outcome hashtable_t :=
  bs ← deref (h_buckets h);
  if (Z.to_nat index <? length bs)%nat then mret (with_buckets (Some (<[Z.to_nat index := b]> bs)) h)
  else Undef.

(** [list_to_pair(list)], for an access to the pair. *)
Definition get_pair (list : Z) (h : hashtable_t) : outcome (pair_t V) := deref (h_pairs h !! list).

Definition bucket_is_empty (b : bucket_t) : bool := (first b =? HEAD) && (first b =? last b).

(** [insert_to_bucket(hashtable, &hashtable->buckets[index], list)]. *)
Definition insert_to_bucket (index list : Z) (h : hashtable_t) : outcome hashtable_t :=
  bucket ← get_bucket index h;
  if bucket_is_empty bucket then
    ls ← list_insert HEAD list (h_links h);
    set_bucket index (Bucket list list) (with_links ls h)
  else
    ls ← list_insert (first bucket) list (h_links h);
    set_bucket index (Bucket list (last bucket)) (with_links ls h).

(** The loop over the nodes of a bucket, from [list] on; a table of [size]
    pairs ends it within [size] rounds. *)
Fixpoint find_loop (fuel : nat) (h : hashtable_t) (bucket : bucket_t) (key : list Z) (hash list : Z)
    : outcome (option Z) :=
  match fuel with
  | O => Undef
  | S fuel =>
    pair ← get_pair list h;
    if (p_hash pair =? hash) && bool_decide (p_key pair = key) then mret (Some list)
    else if list =? last bucket then mret None
    else
      l ← deref (h_links h !! list);
      find_loop fuel h bucket key hash (next l)
  end.

Definition hashtable_find_pair (h : hashtable_t) (bucket : bucket_t) (key : list Z) (hash : Z)
    : outcome (option Z) :=
  if bucket_is_empty bucket then mret None
  else find_loop (Z.to_nat (h_size h)) h bucket key hash (first bucket).

(** [free(pair)]. *)
Definition free_pair (list : Z) (h : hashtable_t) : hashtable_t :=
  with_links (delete list (h_links h)) (with_pairs (delete list (h_pairs h)) h).

(** The index of the bucket of [key], and the pair. *)
Definition lookup_pair (h : hashtable_t) (key : list Z) (hash : Z) : outcome (Z * option Z) :=
  n ← num_buckets h;
  let index := hash `mod` n in
  bucket ← get_bucket index h;
  found ← hashtable_find_pair h bucket key hash;
  mret (index, found).

Definition hashtable_get (h : hashtable_t) (key : list Z) : outcome (option V) :=
  '(_, found) ← lookup_pair h key (hash_str key);
  match found with
  | None => mret None
  | Some list => p ← get_pair list h; mret (Some (p_value p))
  end.

(** ** Iterators: addresses of nodes *)

Definition hashtable_iter_next (h : hashtable_t) (iter : Z) : outcome (option Z) :=
  l ← deref (h_links h !! iter);
  if next l =? HEAD then mret None else mret (Some (next l)).

Definition hashtable_iter (h : hashtable_t) : outcome (option Z) := hashtable_iter_next h HEAD.

Definition hashtable_iter_at (h : hashtable_t) (key : list Z) : outcome (option Z) :=
  '(_, found) ← lookup_pair h key (hash_str key);
  mret found.

Definition hashtable_iter_key (h : hashtable_t) (iter : Z) : outcome (list Z) :=
  p ← get_pair iter h; mret (p_key p).
Definition hashtable_iter_serial (h : hashtable_t) (iter : Z) : outcome Z :=
  p ← get_pair iter h; mret (p_serial p).
Definition hashtable_iter_value (h : hashtable_t) (iter : Z) : outcome V :=
  p ← get_pair iter h; mret (p_value p).

(** ** Operations that allocate or release *)

(** [&hashtable->list] in every bucket. *)
Definition empty_buckets (n : Z) : list bucket_t := replicate (Z.to_nat n) (Bucket HEAD HEAD).

Definition hashtable_init : SM hashtable_t unit :=
  _ ← put (Hashtable 0 None 0 ∅ ∅ 1);
  h ← get;
  n ← liftS (num_buckets h);
  _ ← lift (jsonp_malloc (n * sizeof_bucket));
  put (with_links (list_init HEAD ∅) (with_buckets (Some (empty_buckets n)) h)).

(** The loop of [hashtable_do_rehash] over the old list, from [list] on. *)
Fixpoint rehash_loop (fuel : nat) (new_size list : Z) (h : hashtable_t) : outcome hashtable_t :=
  if list =? HEAD then mret h
  else
    match fuel with
    | O => Undef
    | S fuel =>
      l ← deref (h_links h !! list);
      pair ← get_pair list h;
      h ← insert_to_bucket (p_hash pair `mod` new_size) list h;
      rehash_loop fuel new_size (next l) h
    end.

Definition hashtable_do_rehash : SM hashtable_t unit :=
  h ← get;
  _ ← put (Hashtable (h_size h) None (h_num_buckets h + 1) (h_links h) (h_pairs h) (h_brk h));
  h ← get;
  new_size ← liftS (num_buckets h);
  _ ← lift (jsonp_malloc (new_size * sizeof_bucket));
  let h := with_buckets (Some (empty_buckets new_size)) h in
  l ← liftS (deref (h_links h !! HEAD));
  h ← liftS (rehash_loop (Z.to_nat (h_size h)) new_size (next l)
               (with_links (list_init HEAD (h_links h)) h));
  put h.

Section values.
Context {S : Type} (json_decref : V → SM S unit).

(** Statements on the table and on the state of the values. *)
Definition on_table {A} (m : SM hashtable_t A) : SM (hashtable_t * S) A :=
  zoom fst (λ h s, (h, s.2)) m.
Definition on_values {A} (m : SM S A) : SM (hashtable_t * S) A :=
  zoom snd (λ t s, (s.1, t)) m.
Definition get_table : SM (hashtable_t * S) hashtable_t := on_table get.
Definition put_table (h : hashtable_t) : SM (hashtable_t * S) unit := on_table (put h).

(** [false] for the result -1. *)
Definition hashtable_do_del (key : list Z) (hash : Z) : SM (hashtable_t * S) bool :=
  h ← get_table;
  '(index, found) ← liftS (lookup_pair h key hash);
  match found with
  | None => mret false
  | Some list =>
    bucket ← liftS (get_bucket index h);
    l ← liftS (deref (h_links h !! list));
    h ← liftS (if (list =? first bucket) && (list =? last bucket)
               then set_bucket index (Bucket HEAD HEAD) h
               else if list =? first bucket then set_bucket index (Bucket (next l) (last bucket)) h
               else if list =? last bucket then set_bucket index (Bucket (first bucket) (prev l)) h
               else mret h);
    ls ← liftS (list_remove list (h_links h));
    _ ← put_table (with_links ls h);
    pair ← liftS (get_pair list h);
    _ ← on_values (json_decref (p_value pair));
    h ← get_table;
    let h := free_pair list h in
    _ ← put_table (with_size (h_size h - 1) h);
    mret true
  end.

Definition hashtable_del (key : list Z) : SM (hashtable_t * S) bool :=
  hashtable_do_del key (hash_str key).

(** The loop of [hashtable_do_clear], from [list] on. *)
Fixpoint clear_loop (fuel : nat) (list : Z) : SM (hashtable_t * S) unit :=
  if list =? HEAD then mret tt
  else
    match fuel with
    | O => sundef
    | Datatypes.S fuel =>
      h ← get_table;
      l ← liftS (deref (h_links h !! list));
      pair ← liftS (get_pair list h);
      _ ← on_values (json_decref (p_value pair));
      h ← get_table;
      _ ← put_table (free_pair list h);
      clear_loop fuel (next l)
    end.

Definition hashtable_do_clear : SM (hashtable_t * S) unit :=
  h ← get_table;
  l ← liftS (deref (h_links h !! HEAD));
  clear_loop (Z.to_nat (h_size h)) (next l).

(** The table must not be used any more. *)
Definition hashtable_close : SM (hashtable_t * S) unit :=
  _ ← hashtable_do_clear;
  h ← get_table;
  put_table (with_buckets None h).

Definition hashtable_clear : SM (hashtable_t * S) unit :=
  _ ← hashtable_do_clear;
  h ← get_table;
  n ← liftS (num_buckets h);
  _ ← liftS (deref (h_buckets h));
  put_table (with_size 0 (with_links (list_init HEAD (h_links h))
                            (with_buckets (Some (empty_buckets n)) h))).

Definition hashtable_set (key : list Z) (serial : Z) (value : V) : SM (hashtable_t * S) unit :=
  h ← get_table;
  n ← liftS (num_buckets h);
  _ ← (if n <=? h_size h then on_table hashtable_do_rehash else mret tt);
  h ← get_table;
  let hash := hash_str key in
  '(index, found) ← liftS (lookup_pair h key hash);
  match found with
  | Some list =>
    pair ← liftS (get_pair list h);
    _ ← on_values (json_decref (p_value pair));
    h ← get_table;
    put_table (with_pairs (<[list := Pair (p_hash pair) (p_serial pair) value (p_key pair)]>
                             (h_pairs h)) h)
  | None =>
    _ ← lift (jsonp_malloc (offsetof_key + Z.of_nat (length key) + 1));
    let list := h_brk h in
    let h := Hashtable (h_size h) (h_buckets h) (h_num_buckets h)
               (list_init list (h_links h))
               (<[list := Pair hash serial value key]> (h_pairs h)) (list + 1) in
    h ← liftS (insert_to_bucket index list h);
    put_table (with_size (h_size h + 1) h)
  end.

Definition hashtable_iter_set (iter : Z) (value : V) : SM (hashtable_t * S) unit :=
  h ← get_table;
  pair ← liftS (get_pair iter h);
  _ ← on_values (json_decref (p_value pair));
  h ← get_table;
  put_table (with_pairs (<[iter := Pair (p_hash pair) (p_serial pair) value (p_key pair)]>
                           (h_pairs h)) h).
End values.
End hashtable.
