(* ===== verification/JHashTheory.v ===== *)
(** * Theory of hash tables

    The circular list and the buckets that [rep] describes, and what every
    operation does with them; [table h l] is the view of clients, a list of
    pairs with distinct keys, in the order of iteration. *)

From S2P Require Import Prelude CModel JBase JHash.

(** ** Circular lists *)

Definition nxt (ls : links) (a : Z) : option Z := next <$> ls !! a.
Definition prv (ls : links) (a : Z) : option Z := prev <$> ls !! a.

Definition edge (ls : links) (a b : Z) : Prop := nxt ls a = Some b ∧ prv ls b = Some a.

(** Neighbours are linked in both directions. *)
Fixpoint linked (ls : links) (l : list Z) : Prop :=
  match l with
  | a :: (b :: _) as l => edge ls a b ∧ linked ls l
  | _ => True
  end.

Definition cycle (ls : links) (l : list Z) : Prop := linked ls (HEAD :: l ++ [HEAD]).

Lemma linked_app ls l1 x l2 : linked ls (l1 ++ x :: l2) ↔ linked ls (l1 ++ [x]) ∧ linked ls (x :: l2).
Proof.
  induction l1 as [|a l1 IH]; [simpl; naive_solver|].
  destruct l1 as [|b l1]; simpl in *; [naive_solver|]. rewrite IH. naive_solver.
Qed.

(** Links that agree at the sources and the targets of the edges. *)
Lemma linked_frame ls ls' l :
  linked ls l → (∀ a, a ∈ removelast l → nxt ls' a = nxt ls a) →
  (∀ b, b ∈ tail l → prv ls' b = prv ls b) → linked ls' l.
Proof.
  induction l as [|a l IH]; [done|]. destruct l as [|b l]; [done|].
  intros [[Hn Hp] Hl] Hnxt Hprv. split.
  - split; [rewrite Hnxt|rewrite Hprv]; try done; simpl; left.
  - apply IH; [done|..]; intros c Hc; [apply Hnxt|apply Hprv]; simpl; [by right|].
    by destruct l; [apply elem_of_nil in Hc|right].
Qed.

Lemma set_next_spec a v ls l :
  ls !! a = Some l →
  ∃ ls', set_next a v ls = Ret ls' ∧
    (∀ b, nxt ls' b = if decide (b = a) then Some v else nxt ls b) ∧
    (∀ b, prv ls' b = prv ls b) ∧ (∀ b, b ≠ a → ls' !! b = ls !! b).
Proof.
  intros E. unfold set_next. rewrite E. eexists. split; [done|].
  unfold nxt, prv. split_and!; intros b; [..|intros; by rewrite lookup_insert_ne];
    destruct (decide (b = a)) as [->|]; rewrite ?lookup_insert_eq, ?lookup_insert_ne by done; by rewrite ?E.
Qed.

Lemma set_prev_spec a v ls l :
  ls !! a = Some l →
  ∃ ls', set_prev a v ls = Ret ls' ∧
    (∀ b, prv ls' b = if decide (b = a) then Some v else prv ls b) ∧
    (∀ b, nxt ls' b = nxt ls b) ∧ (∀ b, b ≠ a → ls' !! b = ls !! b).
Proof.
  intros E. unfold set_prev. rewrite E. eexists. split; [done|].
  unfold nxt, prv. split_and!; intros b; [..|intros; by rewrite lookup_insert_ne];
    destruct (decide (b = a)) as [->|]; rewrite ?lookup_insert_eq, ?lookup_insert_ne by done; by rewrite ?E.
Qed.

Lemma nxt_prv ls a n p : nxt ls a = Some n → prv ls a = Some p → ls !! a = Some (List n p).
Proof. unfold nxt, prv. destruct (ls !! a) as [[]|]; naive_solver. Qed.

Lemma prv_lookup ls a p : prv ls a = Some p → ∃ n, ls !! a = Some (List n p).
Proof. unfold prv. destruct (ls !! a) as [[]|]; naive_solver. Qed.

Lemma nxt_lookup ls a n : nxt ls a = Some n → ∃ p, ls !! a = Some (List n p).
Proof. unfold nxt. destruct (ls !! a) as [[]|]; naive_solver. Qed.

(** The nodes around the place between [l1] and [l2] on the circle. *)
Record gap (ls : links) (l1 l2 A : list Z) (p x : Z) (B : list Z) : Prop := {
  gap_before : HEAD :: l1 = A ++ [p];
  gap_behind : l2 ++ [HEAD] = x :: B;
  gap_left : linked ls (A ++ [p]);
  gap_right : linked ls (x :: B);
  gap_p_left : p ∉ A;
  gap_p_right : p ∉ l2;
  gap_x_left : x ∉ l1;
  gap_x_right : x ∉ B
}.

Lemma cycle_gap ls l1 l2 :
  cycle ls (l1 ++ l2) → NoDup (HEAD :: l1 ++ l2) →
  ∃ A p x B, gap ls l1 l2 A p x B ∧ edge ls p x.
Proof.
  intros Hc Hnd. unfold cycle in Hc.
  destruct (exists_last (l := HEAD :: l1)) as (A & p & EA); [done|].
  destruct (l2 ++ [HEAD]) as [|x B] eqn:EB; [by destruct l2|].
  rewrite <- app_assoc, EB, app_comm_cons, EA, <- app_assoc in Hc. simpl in Hc.
  apply linked_app in Hc as [HA [He HB]].
  assert (H1 : NoDup ((A ++ [p]) ++ l2)) by (by rewrite <- EA).
  assert (H2 : NoDup (l1 ++ x :: B)).
  { rewrite <- EB, app_assoc. rewrite (Permutation_app_comm _ [HEAD]). done. }
  rewrite !NoDup_app in H1. destruct H1 as ((_ & H1 & _) & H1' & _).
  rewrite NoDup_app, NoDup_cons in H2. destruct H2 as (_ & H2 & H2' & _).
  exists A, p, x, B. split; [|done]. split; try done.
  - intros ?. apply (H1 p); [done|]. left.
  - apply H1'. set_solver.
  - intros ?. apply (H2 x); [done|]. left.
Qed.

Lemma gap_hd ls l1 l2 A p x B : gap ls l1 l2 A p x B → hd HEAD l2 = x.
Proof. intros [_ E _ _ _ _ _ _]. destruct l2; simplify_eq/=; done. Qed.

Lemma gap_lookup ls l1 l2 A p x B :
  gap ls l1 l2 A p x B → edge ls p x →
  (∃ n, ls !! x = Some (List n p)) ∧ (∃ q, ls !! p = Some (List x q)) ∧
  p ∈ HEAD :: l1 ∧ x ∈ l2 ++ [HEAD].
Proof.
  intros [EA EB _ _ _ _ _ _] [Hn Hp]. rewrite EA, EB.
  split_and!; [by apply prv_lookup|by apply nxt_lookup|set_solver..].
Qed.

(** Closing the gap with a path from [p] to [x]. *)
Lemma gap_close ls ls' l1 l2 A p x B mid :
  gap ls l1 l2 A p x B →
  (∀ a, a ≠ p → a ∉ mid → nxt ls' a = nxt ls a) →
  (∀ b, b ≠ x → b ∉ mid → prv ls' b = prv ls b) →
  (∀ m, m ∈ mid → m ∉ HEAD :: l1 ++ l2) →
  linked ls' (p :: mid ++ [x]) →
  cycle ls' (l1 ++ mid ++ l2).
Proof.
  intros [EA EB HA HB HpA Hp2 Hx1 HxB] Hnxt Hprv Hmid Hl. unfold cycle.
  rewrite <- !app_assoc, EB, app_comm_cons, EA, <- app_assoc. simpl.
  apply linked_app. split; [|rewrite app_comm_cons; apply linked_app; split; [done|]].
  - apply (linked_frame ls); [done|..].
    + rewrite removelast_last. intros a Ha.
      assert (a ∈ HEAD :: l1) by (rewrite EA; set_solver). apply Hnxt; [set_solver|].
      intros Hm. apply (Hmid a Hm). set_solver.
    + rewrite <- EA. simpl. intros b Hb. apply Hprv; [set_solver|].
      intros Hm. apply (Hmid b Hm). set_solver.
  - apply (linked_frame ls); [done|..].
    + rewrite <- EB, removelast_last. intros a Ha. apply Hnxt; [set_solver|].
      intros Hm. apply (Hmid a Hm). set_solver.
    + simpl. intros b Hb. assert (b ∈ l2 ++ [HEAD]) by (rewrite EB; set_solver).
      apply Hprv; [set_solver|]. intros Hm. apply (Hmid b Hm). set_solver.
Qed.

(** [list_insert] puts the node in front of the first of [l2]. *)
Lemma list_insert_spec ls l1 l2 node n :
  cycle ls (l1 ++ l2) → NoDup (HEAD :: l1 ++ l2) → node ∉ HEAD :: l1 ++ l2 →
  ls !! node = Some n →
  ∃ ls', list_insert (hd HEAD l2) node ls = Ret ls' ∧ cycle ls' (l1 ++ node :: l2) ∧
    ∀ b, b ∉ HEAD :: node :: l1 ++ l2 → ls' !! b = ls !! b.
Proof.
  intros Hc Hnd Hnode Hn. destruct (cycle_gap ls l1 l2 Hc Hnd) as (A & p & x & B & Hgap & He).
  rewrite (gap_hd _ _ _ _ _ _ _ Hgap).
  destruct (gap_lookup _ _ _ _ _ _ _ Hgap He) as ((nx & Elx) & (pp & Elp) & Hpin & Hxin).
  assert (Hnx : node ≠ x) by set_solver. assert (Hnp : node ≠ p) by set_solver.
  unfold list_insert.
  destruct (set_next_spec node x ls n Hn) as (ls1 & E1 & Hn1 & Hp1 & Ho1).
  destruct (set_prev_spec node p ls1 (List x (prev n))) as (ls2 & E2 & Hp2 & Hn2 & Ho2).
  { apply nxt_prv; [by rewrite Hn1, decide_True|rewrite Hp1; unfold prv; by rewrite Hn]. }
  destruct (set_next_spec p node ls2 (List x pp)) as (ls3 & E3 & Hn3 & Hp3 & Ho3);
    [by rewrite Ho2, Ho1 by done|].
  destruct (prv_lookup ls3 x p) as (n3 & El3).
  { rewrite Hp3, Hp2, Hp1, decide_False by done. unfold prv. by rewrite Elx. }
  destruct (set_prev_spec x node ls3 _ El3) as (ls4 & E4 & Hp4 & Hn4 & Ho4).
  exists ls4. split_and!.
  - rewrite E1. cbn [mbind outcome_bind]. rewrite (Ho1 x), Elx by done.
    cbn [deref mbind outcome_bind prev]. rewrite E2. cbn [mbind outcome_bind].
    rewrite (Ho2 x), (Ho1 x), Elx by done. cbn [deref mbind outcome_bind prev].
    rewrite E3. exact E4.
  - apply (gap_close ls ls4 _ _ A p x B [node]); [done|..].
    + intros a Ha Hm. rewrite Hn4, Hn3, Hn2, Hn1, !decide_False; set_solver.
    + intros b Hb Hm. rewrite Hp4, Hp3, Hp2, Hp1, !decide_False; set_solver.
    + set_solver.
    + simpl. unfold edge. rewrite !Hn4, !Hn3, !Hn2, !Hn1, !Hp4, !Hp3, !Hp2, !Hp1.
      repeat case_decide; split_and!; (done || congruence).
  - intros b Hb. rewrite Ho4, Ho3, Ho2, Ho1; set_solver.
Qed.

(** [list_remove] takes the node out. *)
Lemma list_remove_spec ls l1 node l2 :
  cycle ls (l1 ++ node :: l2) → NoDup (HEAD :: l1 ++ node :: l2) →
  ∃ ls', list_remove node ls = Ret ls' ∧ cycle ls' (l1 ++ l2) ∧
    ∀ b, b ∉ HEAD :: l1 ++ l2 → ls' !! b = ls !! b.
Proof.
  intros Hc Hnd. assert (Hnode : node ∉ HEAD :: l1 ++ l2).
  { rewrite <- Permutation_middle, NoDup_cons, NoDup_cons in Hnd. set_solver. }
  destruct (cycle_gap ls l1 (node :: l2) Hc Hnd) as (A & p & y & B' & G1 & He1).
  destruct (cycle_gap ls (l1 ++ [node]) l2) as (A' & p' & x & B & G2 & He2);
    [by rewrite <- app_assoc..|].
  pose proof (gap_behind _ _ _ _ _ _ _ G1) as EB. simpl in EB. injection EB as <- <-.
  pose proof (gap_before _ _ _ _ _ _ _ G2) as E2.
  rewrite app_comm_cons in E2. apply app_inj_tail in E2 as [<- <-].
  destruct (gap_lookup _ _ _ _ _ _ _ G1 He1) as ((n & En) & (q & Ep) & Hpin & _).
  destruct (gap_lookup _ _ _ _ _ _ _ G2 He2) as ((n' & Ex) & (q' & En') & _ & Hxin).
  assert (n = x ∧ q' = p) as [-> ->] by naive_solver.
  assert (Hxn : x ≠ node) by set_solver. assert (Hpn : p ≠ node) by set_solver.
  destruct (set_next_spec p x ls _ Ep) as (ls1 & E1 & Hn1 & Hp1 & Ho1).
  destruct (prv_lookup ls1 x node) as (n1 & Ex1).
  { rewrite Hp1. unfold prv. by rewrite Ex. }
  destruct (set_prev_spec x p ls1 _ Ex1) as (ls2 & E2 & Hp2 & Hn2 & Ho2).
  exists ls2. split_and!.
  - unfold list_remove. rewrite En. cbn [deref mbind outcome_bind prev next]. rewrite E1.
    cbn [mbind outcome_bind]. rewrite (Ho1 node), En by done. exact E2.
  - destruct G1 as [EA _ HA _ HpA Hp2' _ _]. destruct G2 as [_ EB _ HB _ _ Hx1 HxB].
    apply (gap_close ls ls2 l1 l2 A p x B []).
    + split; try done; set_solver.
    + intros a Ha _. by rewrite Hn2, Hn1, decide_False.
    + intros b Hb _. by rewrite Hp2, Hp1, decide_False.
    + set_solver.
    + simpl. unfold edge. by rewrite Hn2, Hn1, Hp2, !decide_True.
  - intros b Hb. rewrite Ho2, Ho1; set_solver.
Qed.

(** ** Buckets as groups of neighbours *)

Section theory.
Context {V : Type}.
Abbreviation entry := (Z * pair_t V)%type.
Abbreviation groups := (list (Z * list entry)).
Abbreviation hashtable_t := (hashtable_t V).

(** The pairs of the groups, in the order of the list. *)
Definition flat (gs : groups) : list entry := gs ≫= snd.

Definition addrs (l : list entry) : list Z := l.*1.

Fixpoint group (i : Z) (gs : groups) : list entry :=
  match gs with
  | [] => []
  | (j, g) :: gs => if decide (j = i) then g else group i gs
  end.

Definition bucket_of (g : list entry) : bucket_t :=
  Bucket (hd HEAD (addrs g)) (List.last (addrs g) HEAD).

(** Insertion in front of the bucket, behind all others if it is empty. *)
Fixpoint ins (i : Z) (e : entry) (gs : groups) : groups :=
  match gs with
  | [] => [(i, [e])]
  | (j, g) :: gs => if decide (j = i) then (i, e :: g) :: gs else (j, g) :: ins i e gs
  end.

Definition bidx (n : Z) (e : entry) : Z := p_hash e.2 `mod` n.

Definition group_ok (n : Z) (ig : Z * list entry) : Prop :=
  0 ≤ ig.1 < n ∧ ig.2 ≠ [] ∧ Forall (λ e, bidx n e = ig.1) ig.2.

(** A block of buckets that delimit the groups. *)
Definition buckets_ok (obs : option (list bucket_t)) (n : Z) (gs : groups) : Prop :=
  ∃ bs, obs = Some bs ∧ Z.of_nat (length bs) = n ∧
    ∀ i, 0 ≤ i < n → bs !! Z.to_nat i = Some (bucket_of (group i gs)).

(** The parts of a table that an insertion touches. *)
Record layout (h : hashtable_t) (n : Z) (gs : groups) : Prop := {
  core_indexes : NoDup gs.*1;
  core_groups : Forall (group_ok n) gs;
  core_buckets : buckets_ok (h_buckets h) n gs;
  core_addrs : NoDup (HEAD :: addrs (flat gs));
  core_cycle : cycle (h_links h) (addrs (flat gs))
}.

Lemma flat_cons i g gs : flat ((i, g) :: gs) = g ++ flat gs.
Proof. done. Qed.

Lemma flat_app gs1 gs2 : flat (gs1 ++ gs2) = flat gs1 ++ flat gs2.
Proof. apply bind_app. Qed.

Lemma addrs_app l1 l2 : addrs (l1 ++ l2) = addrs l1 ++ addrs l2.
Proof. apply fmap_app. Qed.

Lemma group_none i gs : i ∉ gs.*1 → group i gs = [].
Proof.
  induction gs as [|[j g] gs IH]; [done|]. simpl. intros Hi.
  rewrite decide_False by set_solver. apply IH. set_solver.
Qed.

Lemma group_some i g gs : NoDup gs.*1 → (i, g) ∈ gs → group i gs = g.
Proof.
  induction gs as [|[j g'] gs IH]; intros Hnd Hin; [by apply elem_of_nil in Hin|].
  apply NoDup_cons in Hnd as [Hj Hnd]. simpl in *. apply elem_of_cons in Hin as [?|Hin].
  - simplify_eq. by rewrite decide_True.
  - rewrite decide_False; [by apply IH|]. intros ->. apply Hj. apply list_elem_of_fmap. by exists (i, g).
Qed.

Lemma group_in i gs : group i gs ≠ [] → (i, group i gs) ∈ gs.
Proof.
  induction gs as [|[j g] gs IH]; [done|]. simpl. case_decide as E; [subst; left|right; by apply IH].
Qed.

Lemma group_ins i j e gs : group j (ins i e gs) = if decide (j = i) then e :: group i gs else group j gs.
Proof.
  induction gs as [|[k g] gs IH]; simpl; [repeat case_decide; congruence|].
  destruct (decide (k = i)) as [->|]; simpl; [repeat case_decide; congruence|].
  rewrite IH. repeat case_decide; congruence.
Qed.

Lemma ins_fst i e gs : (ins i e gs).*1 = if decide (i ∈ gs.*1) then gs.*1 else gs.*1 ++ [i].
Proof.
  induction gs as [|[k g] gs IH]; cbn [ins]; [done|].
  destruct (decide (k = i)) as [->|]; rewrite !fmap_cons; simpl; [rewrite decide_True; [done|left]|].
  rewrite IH. repeat case_decide; try done; set_solver.
Qed.

Lemma ins_nodup i e gs : NoDup gs.*1 → NoDup (ins i e gs).*1.
Proof.
  intros H. rewrite ins_fst. case_decide; [done|]. apply NoDup_app. split; [done|].
  split; [set_solver|]. apply NoDup_singleton.
Qed.

Lemma ins_groups n e gs :
  0 < n → Forall (group_ok n) gs → Forall (group_ok n) (ins (bidx n e) e gs).
Proof.
  intros Hn. induction 1 as [|[k g] gs (Hk & Hg & Hf) Hgs IH]; simpl.
  - constructor; [|done]. split; simpl; [apply Z.mod_pos_bound; lia|]. split; [done|]. by constructor.
  - case_decide as E; constructor; try done. simpl in *. subst k.
    split; [done|]. split; [done|]. by constructor.
Qed.

(** Where the new pair is linked in. *)
Lemma ins_split n i e gs :
  Forall (group_ok n) gs →
  ∃ l1 l2, flat gs = l1 ++ l2 ∧ flat (ins i e gs) = l1 ++ e :: l2 ∧
    (group i gs = [] → l2 = []) ∧
    hd HEAD (addrs l2) = hd HEAD (addrs (group i gs)).
Proof.
  induction 1 as [|[k g] gs (Hk & Hg & Hf) Hgs IH]; simpl; [by exists [], []|].
  destruct (decide (k = i)) as [->|].
  - exists [], (g ++ flat gs). split_and!; [done|done|done|]. simpl in *. by destruct g.
  - destruct IH as (l1 & l2 & E1 & E2 & E3 & E4). exists (g ++ l1), l2.
    rewrite !flat_cons, E1, E2, !app_assoc. done.
Qed.

Lemma ins_flat n i e gs : Forall (group_ok n) gs → flat (ins i e gs) ≡ₚ e :: flat gs.
Proof.
  intros H. destruct (ins_split n i e gs H) as (l1 & l2 & -> & -> & _). by rewrite Permutation_middle.
Qed.

Lemma bucket_empty_of n i gs h :
  layout h n gs → bucket_is_empty (bucket_of (group i gs)) = bool_decide (group i gs = []).
Proof.
  intros Hc. destruct (group i gs) as [|e g] eqn:E; [done|].
  rewrite bool_decide_false by done. unfold bucket_is_empty. simpl.
  rewrite (proj2 (Z.eqb_neq _ _)); [done|].
  assert (Hin : (i, e :: g) ∈ gs) by (rewrite <- E; apply group_in; by rewrite E).
  pose proof (core_addrs _ _ _ Hc) as Hnd. apply NoDup_cons in Hnd as [Hnd _].
  intros E'. apply Hnd. rewrite <- E'. unfold addrs. apply list_elem_of_fmap. exists e. split; [done|].
  unfold flat. apply list_elem_of_bind. exists (i, e :: g). split; [left|done].
Qed.

Lemma get_bucket_spec (h : hashtable_t) n gs i :
  buckets_ok (h_buckets h) n gs → 0 ≤ i < n → get_bucket i h = Ret (bucket_of (group i gs)).
Proof. intros (bs & E & Hl & Hb) Hi. unfold get_bucket. rewrite E. simpl. by rewrite Hb. Qed.

Lemma set_bucket_spec (h : hashtable_t) n gs gs' i g :
  buckets_ok (h_buckets h) n gs → 0 ≤ i < n →
  (∀ j, 0 ≤ j < n → group j gs' = if decide (j = i) then g else group j gs) →
  ∃ obs, set_bucket i (bucket_of g) h = Ret (with_buckets obs h) ∧ buckets_ok obs n gs'.
Proof.
  intros (bs & E & Hl & Hb) Hi Hg. unfold set_bucket. rewrite E. simpl.
  rewrite (proj2 (Nat.ltb_lt _ _)) by lia. eexists. split; [done|].
  eexists. split; [done|]. split; [by rewrite length_insert|]. intros j Hj.
  rewrite Hg by done. destruct (decide (j = i)) as [->|].
  - rewrite list_lookup_insert_eq; [done|lia].
  - rewrite list_lookup_insert_ne by lia. by apply Hb.
Qed.

(** The links of a table changed only. *)
Definition same_data (h h' : hashtable_t) : Prop :=
  h_size h' = h_size h ∧ h_num_buckets h' = h_num_buckets h ∧ h_pairs h' = h_pairs h ∧ h_brk h' = h_brk h.

Lemma insert_to_bucket_spec h n gs e node :
  0 < n → layout h n gs → e.1 ∉ HEAD :: addrs (flat gs) → h_links h !! e.1 = Some node →
  ∃ h', insert_to_bucket (bidx n e) e.1 h = Ret h' ∧ layout h' n (ins (bidx n e) e gs) ∧
    same_data h h' ∧
    ∀ b, b ∉ HEAD :: e.1 :: addrs (flat gs) → h_links h' !! b = h_links h !! b.
Proof.
  intros Hn Hc He Hnode. set (i := bidx n e).
  assert (Hi : 0 ≤ i < n) by (apply Z.mod_pos_bound; lia).
  destruct (ins_split n i e gs (core_groups _ _ _ Hc)) as (l1 & l2 & E1 & E2 & Hempty & Hhd).
  pose proof (core_addrs _ _ _ Hc) as Hnd. pose proof (core_cycle _ _ _ Hc) as Hcy.
  rewrite E1, addrs_app in Hnd, Hcy, He.
  destruct (list_insert_spec (h_links h) (addrs l1) (addrs l2) e.1 node) as (ls & Els & Hcyc & Hout); try done.
  destruct (set_bucket_spec (with_links ls h) n gs (ins i e gs) i (e :: group i gs)) as (obs & Eobs & Hobs);
    [exact (core_buckets _ _ _ Hc)|done|by intros j _; rewrite group_ins|].
  exists (with_buckets obs (with_links ls h)). split_and!.
  - unfold insert_to_bucket. rewrite (get_bucket_spec h n gs i) by (done || apply Hc).
    cbn [mbind outcome_bind]. rewrite (bucket_empty_of n i gs h Hc).
    case_bool_decide as Eg; simpl.
    + rewrite (Hempty Eg) in Els. rewrite Eg in Eobs. simpl in Els. rewrite Els. exact Eobs.
    + rewrite <- Hhd, Els. simpl. rewrite <- Eobs. f_equal. unfold bucket_of. simpl.
      destruct (group i gs) as [|? []]; done.
  - destruct Hc. split; simpl; [by apply ins_nodup|by apply ins_groups|done|..].
    + rewrite E2, addrs_app. simpl. rewrite <- Permutation_middle. apply NoDup_cons in Hnd as [? ?].
      rewrite !NoDup_cons. set_solver.
    + by rewrite E2, addrs_app.
  - done.
  - intros b Hb. apply Hout. rewrite <- addrs_app, <- E1. done.
Qed.

(** ** Lookup *)

Definition find_pair (key : list Z) (l : list entry) : option entry :=
  snd <$> list_find (λ e : entry, p_key e.2 = key) l.

Definition pair_ok (e : entry) : Prop := p_hash e.2 = hash_str (p_key e.2).

(** A well-formed table. *)
Record rep (h : hashtable_t) (n : Z) (gs : groups) : Prop := {
  rep_core : layout h n gs;
  rep_n : num_buckets h = Ret n ∧ 0 < n;
  rep_size : h_size h = Z.of_nat (length (flat gs));
  rep_pairs : ∀ e, e ∈ flat gs → h_pairs h !! e.1 = Some e.2;
  rep_brk : ∀ e, e ∈ flat gs → e.1 < h_brk h;
  rep_brk_pos : 0 < h_brk h;
  rep_hash : Forall pair_ok (flat gs);
  rep_keys : NoDup ((λ e : entry, p_key e.2) <$> flat gs)
}.

Lemma hash_str_nonneg s : 0 ≤ hash_str s.
Proof.
  unfold hash_str. assert (H : 0 ≤ 5381) by lia. revert H. generalize 5381.
  induction s as [|c s IH]; intros a Ha; simpl; [done|]. apply IH. unfold size_t.
  by apply Z.mod_pos_bound.
Qed.

Lemma cycle_next ls l1 a l2 : cycle ls (l1 ++ a :: l2) → nxt ls a = Some (hd HEAD l2).
Proof.
  intros Hc. unfold cycle in Hc. rewrite <- app_assoc in Hc.
  apply (linked_app ls (HEAD :: l1) a (l2 ++ [HEAD])) in Hc as [_ Hc].
  destruct l2; simpl in Hc; by destruct Hc as [[? _] _].
Qed.

Lemma cycle_first ls l : cycle ls l → nxt ls HEAD = Some (hd HEAD l).
Proof. intros Hc. unfold cycle in Hc. destruct l; simpl in Hc; by destruct Hc as [[? _] _]. Qed.

Lemma addrs_nodup_split l1 e l2 : NoDup (addrs (l1 ++ e :: l2)) → e.1 ∉ addrs (l1 ++ l2).
Proof.
  rewrite !addrs_app. simpl. rewrite <- Permutation_middle, NoDup_cons. naive_solver.
Qed.

Lemma last_addr g1 (e : entry) g2 :
  NoDup (addrs (g1 ++ e :: g2)) → e.1 = List.last (addrs (g1 ++ e :: g2)) HEAD → g2 = [].
Proof.
  intros Hnd E. destruct (decide (g2 = [])) as [|Hg]; [done|].
  destruct (exists_last Hg) as (g & x & ->). exfalso. apply (addrs_nodup_split _ _ _ Hnd).
  rewrite E, app_comm_cons, app_assoc, !addrs_app. simpl. rewrite last_last. set_solver.
Qed.

Lemma find_loop_spec h n gs i b key g1 g2 fuel :
  rep h n gs → group i gs = g1 ++ g2 → last b = List.last (addrs (group i gs)) HEAD →
  g2 ≠ [] → (length g2 ≤ fuel)%nat →
  find_loop fuel h b key (hash_str key) (hd HEAD (addrs g2)) = Ret (fst <$> find_pair key g2).
Proof.
  intros Hrep Eg Hb Hg2 Hfuel. revert g1 g2 Eg Hg2 Hfuel.
  induction fuel as [|fuel IH]; intros g1 g2 Eg Hg2 Hfuel; [by destruct g2; simpl in *; [|lia]|].
  destruct g2 as [|e g2]; [done|]. cbn [find_loop hd addrs fmap list_fmap].
  assert (Hin : (i, group i gs) ∈ gs) by (apply group_in; rewrite Eg; by destruct g1).
  apply list_elem_of_split in Hin as (gs1 & gs2 & Egs).
  assert (Ef : flat gs = flat gs1 ++ (g1 ++ e :: g2) ++ flat gs2).
  { rewrite Egs at 1. rewrite flat_app, flat_cons, Eg. done. }
  assert (Hine : e ∈ flat gs) by (rewrite Ef; set_solver).
  unfold get_pair. rewrite (rep_pairs _ _ _ Hrep e Hine). cbn [deref mbind outcome_bind].
  pose proof (rep_hash _ _ _ Hrep) as Hh. rewrite Forall_forall in Hh. rewrite (Hh e Hine).
  unfold find_pair. cbn [list_find]. destruct (decide (p_key e.2 = key)) as [Ek|Ek].
  { rewrite Ek, Z.eqb_refl, bool_decide_true by done. done. }
  rewrite (bool_decide_false (p_key e.2 = key)), andb_false_r by done.
  pose proof (core_addrs _ _ _ (rep_core _ _ _ Hrep)) as Hnd. apply NoDup_cons in Hnd as [_ Hnd].
  rewrite Ef, !addrs_app in Hnd. apply NoDup_app in Hnd as (_ & _ & Hnd).
  apply NoDup_app in Hnd as (Hnd & _). rewrite <- addrs_app in Hnd.
  rewrite Hb, Eg.
  destruct (decide (g2 = [])) as [->|Hg].
  - rewrite addrs_app. simpl. by rewrite last_last, Z.eqb_refl.
  - rewrite (proj2 (Z.eqb_neq _ _)) by (intros E; by apply Hg, (last_addr g1 e)).
    pose proof (core_cycle _ _ _ (rep_core _ _ _ Hrep)) as Hcy.
    rewrite Ef, <- app_assoc, app_assoc, !addrs_app in Hcy. simpl in Hcy.
    rewrite <- !addrs_app in Hcy. apply cycle_next in Hcy.
    apply nxt_lookup in Hcy as (pv & ->). cbn [deref mbind outcome_bind next].
    rewrite addrs_app. destruct g2 as [|e' g2]; [done|]. cbn [hd addrs fmap list_fmap app].
    specialize (IH (g1 ++ [e]) (e' :: g2)). rewrite <- app_assoc in IH.
    specialize (IH Eg ltac:(done) ltac:(simpl in *; lia)). simpl in IH. rewrite IH. f_equal.
    unfold find_pair. simpl. case_decide; [done|]. by destruct (list_find _ g2) as [[]|].
Qed.

Definition keys (l : list entry) : list (list Z) := (λ e : entry, p_key e.2) <$> l.

Lemma find_pair_in key l e : find_pair key l = Some e → e ∈ l ∧ p_key e.2 = key.
Proof.
  unfold find_pair. intros ([j x] & E & ->)%fmap_Some. apply list_find_Some in E as (E & Hk & _).
  split; [by eapply list_elem_of_lookup_2|done].
Qed.

Lemma find_pair_spec key l e :
  NoDup (keys l) → find_pair key l = Some e ↔ e ∈ l ∧ p_key e.2 = key.
Proof.
  intros Hnd. split; [apply find_pair_in|]. intros [Hin Hk].
  destruct (find_pair key l) as [e'|] eqn:E.
  - apply find_pair_in in E as [Hin' Hk'].
    apply list_elem_of_lookup in Hin as [i Ei]. apply list_elem_of_lookup in Hin' as [j Ej].
    f_equal. assert (i = j) as ->; [|congruence].
    apply (NoDup_lookup (keys l) i j key); [done|..]; unfold keys;
      rewrite list_lookup_fmap; [rewrite Ei|rewrite Ej]; simpl; congruence.
  - unfold find_pair in E. apply fmap_None, list_find_None in E.
    rewrite Forall_forall in E. by destruct (E e Hin).
Qed.

Lemma find_pair_none key l : find_pair key l = None ↔ key ∉ keys l.
Proof.
  unfold find_pair, keys. rewrite fmap_None, list_find_None, Forall_forall, list_elem_of_fmap. naive_solver.
Qed.

Lemma find_pair_perm key l l' : NoDup (keys l) → l ≡ₚ l' → find_pair key l = find_pair key l'.
Proof.
  intros Hnd Hp. apply option_eq. intros e.
  rewrite !find_pair_spec; [by rewrite Hp|unfold keys; by rewrite <- Hp|done].
Qed.

Lemma flat_group n gs e :
  NoDup gs.*1 → Forall (group_ok n) gs → e ∈ flat gs ↔ e ∈ group (bidx n e) gs.
Proof.
  intros Hnd Hok. rewrite Forall_forall in Hok. unfold flat. rewrite list_elem_of_bind. split.
  - intros ([i g] & Hin & He). destruct (Hok _ He) as (_ & _ & Hg). simpl in *.
    rewrite Forall_forall in Hg. rewrite (Hg e Hin). by rewrite (group_some i g).
  - intros Hin. exists (bidx n e, group (bidx n e) gs). split; [done|]. apply group_in. by intros E; rewrite E in Hin; apply elem_of_nil in Hin.
Qed.

Lemma group_sublist i gs : sublist (group i gs) (flat gs).
Proof.
  induction gs as [|[j g] gs IH]; cbn [group]; [constructor|]. rewrite flat_cons.
  case_decide; [by apply sublist_inserts_r|by apply sublist_inserts_l].
Qed.

Lemma find_in_group h n gs key :
  rep h n gs → find_pair key (group (hash_str key `mod` n) gs) = find_pair key (flat gs).
Proof.
  intros Hrep. pose proof (rep_keys _ _ _ Hrep) as Hnd. pose proof (rep_hash _ _ _ Hrep) as Hh.
  rewrite Forall_forall in Hh. destruct (rep_core _ _ _ Hrep) as [Hi Hg _ _ _].
  assert (Hnd' : NoDup (keys (group (hash_str key `mod` n) gs))).
  { eapply sublist_NoDup; [exact Hnd|]. apply fmap_sublist, group_sublist. }
  apply option_eq. intros e. rewrite !find_pair_spec by done. rewrite (flat_group n gs e) by done.
  assert (Hb : e ∈ flat gs → p_key e.2 = key → bidx n e = hash_str key `mod` n).
  { intros Hin <-. unfold bidx. by rewrite (Hh e Hin). }
  split; intros [Hin Hk]; (split; [|done]).
  - assert (Hf : e ∈ flat gs) by (eapply elem_of_sublist; [exact Hin|apply group_sublist]).
    by rewrite (Hb Hf Hk).
  - rewrite <- (Hb); [done| |done]. by apply (flat_group n).
Qed.

Lemma lookup_pair_spec h n gs key :
  rep h n gs →
  lookup_pair h key (hash_str key) = Ret (hash_str key `mod` n, fst <$> find_pair key (flat gs)).
Proof.
  intros Hrep. destruct (rep_n _ _ _ Hrep) as [En Hn]. unfold lookup_pair. rewrite En.
  cbn [mbind outcome_bind]. set (i := hash_str key `mod` n).
  assert (Hi : 0 ≤ i < n) by (apply Z.mod_pos_bound; lia).
  pose proof (rep_core _ _ _ Hrep) as Hc.
  rewrite (get_bucket_spec h n gs i) by (done || apply (core_buckets _ _ _ Hc)).
  cbn [mbind outcome_bind]. unfold hashtable_find_pair. rewrite (bucket_empty_of n i gs h Hc).
  rewrite <- (find_in_group h n gs key Hrep). fold i.
  case_bool_decide as Eg; [by rewrite Eg|].
  change (first (bucket_of (group i gs))) with (hd HEAD (addrs (group i gs))).
  rewrite (find_loop_spec h n gs i _ key [] (group i gs)); try done.
  rewrite (rep_size _ _ _ Hrep), Nat2Z.id. apply sublist_length, group_sublist.
Qed.

Lemma get_pair_spec h n gs e : rep h n gs → e ∈ flat gs → get_pair e.1 h = Ret e.2.
Proof. intros Hrep He. unfold get_pair. by rewrite (rep_pairs _ _ _ Hrep e He). Qed.

Lemma hashtable_get_spec h n gs key :
  rep h n gs → hashtable_get h key = Ret ((λ e : entry, p_value e.2) <$> find_pair key (flat gs)).
Proof.
  intros Hrep. unfold hashtable_get. rewrite (lookup_pair_spec h n gs key Hrep).
  cbn [mbind outcome_bind]. destruct (find_pair key (flat gs)) as [e|] eqn:E; [|done].
  apply find_pair_in in E as [He _]. simpl. by rewrite (get_pair_spec h n gs e Hrep He).
Qed.

(** ** Iteration *)

Lemma iter_next_spec h n gs l1 e l2 :
  rep h n gs → flat gs = l1 ++ e :: l2 → hashtable_iter_next h e.1 = Ret (fst <$> head l2).
Proof.
  intros Hrep E. pose proof (core_cycle _ _ _ (rep_core _ _ _ Hrep)) as Hc.
  pose proof (core_addrs _ _ _ (rep_core _ _ _ Hrep)) as Hnd.
  rewrite E, addrs_app in Hc, Hnd. simpl in Hc. apply cycle_next, nxt_lookup in Hc as (pv & Hl).
  unfold hashtable_iter_next. rewrite Hl. cbn [deref mbind outcome_bind next].
  destruct l2 as [|x l2]; [done|]. simpl. rewrite (proj2 (Z.eqb_neq _ _)); [done|].
  apply NoDup_cons in Hnd as [Hnd _]. simpl in Hnd. set_solver.
Qed.

Lemma iter_spec h n gs : rep h n gs → hashtable_iter h = Ret (fst <$> head (flat gs)).
Proof.
  intros Hrep. pose proof (core_cycle _ _ _ (rep_core _ _ _ Hrep)) as Hc.
  pose proof (core_addrs _ _ _ (rep_core _ _ _ Hrep)) as Hnd.
  apply cycle_first, nxt_lookup in Hc as (pv & Hl).
  unfold hashtable_iter, hashtable_iter_next. rewrite Hl. cbn [deref mbind outcome_bind next].
  destruct (flat gs) as [|x l]; [done|]. simpl. rewrite (proj2 (Z.eqb_neq _ _)); [done|].
  apply NoDup_cons in Hnd as [Hnd _]. set_solver.
Qed.

(** ** Empty tables and rehashing *)

Lemma prime_pos i n : readZ primes i = Ret n → 0 < n.
Proof.
  unfold readZ. destruct (0 <=? i); [|done]. destruct (primes !! Z.to_nat i) as [p|] eqn:E; [|done].
  simpl. intros [= <-]. apply list_elem_of_lookup_2 in E.
  assert (H : Forall (λ p, 0 < p) primes) by (apply (bool_decide_unpack _); vm_compute; exact I).
  by apply (proj1 (Forall_forall _ _) H).
Qed.

Lemma empty_buckets_ok n : 0 < n → buckets_ok (Some (empty_buckets n)) n [].
Proof.
  intros Hn. eexists. split; [done|]. unfold empty_buckets. rewrite length_replicate.
  split; [lia|]. intros i Hi. by rewrite lookup_replicate_2 by lia.
Qed.

Lemma cycle_empty ls : cycle (list_init HEAD ls) [].
Proof.
  unfold cycle, list_init. simpl. unfold edge, nxt, prv. by rewrite lookup_insert_eq.
Qed.

Lemma core_empty (h : hashtable_t) n ls :
  0 < n → layout (with_links (list_init HEAD ls) (with_buckets (Some (empty_buckets n)) h)) n [].
Proof.
  intros Hn. split; simpl; [constructor|constructor|by apply empty_buckets_ok|apply NoDup_singleton|apply cycle_empty].
Qed.

Lemma hashtable_init_spec h0 : wpr hashtable_init h0 (λ _ h, rep h 5 []).
Proof.
  unfold hashtable_init. apply wp_put_bind, wp_get_bind.
  eapply wp_liftS_bind; [done|]. apply wp_lift_malloc; [done|]. apply wp_put.
  split; [by apply core_empty|done|done|by intros e ?%elem_of_nil..|done|constructor|constructor].
Qed.

(** The old list is followed by the links that it had. *)
Lemma rehash_loop_spec n ls0 l1 fuel (h : hashtable_t) gs rest :
  0 < n → layout h n gs → NoDup (HEAD :: addrs (flat gs ++ rest)) →
  cycle ls0 (addrs (l1 ++ rest)) →
  (∀ e, e ∈ rest → h_links h !! e.1 = ls0 !! e.1) →
  (∀ e, e ∈ rest → h_pairs h !! e.1 = Some e.2) →
  (length rest ≤ fuel)%nat →
  ∃ h' gs', rehash_loop fuel n (hd HEAD (addrs rest)) h = Ret h' ∧ layout h' n gs' ∧
    flat gs' ≡ₚ flat gs ++ rest ∧ same_data h h'.
Proof.
  intros Hn. revert l1 h gs rest.
  induction fuel as [|fuel IH]; intros l1 h gs rest Hc Hnd Hcy Hl Hp Hf;
    (destruct rest as [|e rest];
      [exists h, gs; rewrite app_nil_r; by destruct Hc|]); [simpl in Hf; lia|].
  assert (He0 : e.1 ≠ HEAD).
  { apply NoDup_cons in Hnd as [Hnd _]. rewrite addrs_app in Hnd. set_solver. }
  cbn [rehash_loop hd addrs fmap list_fmap]. rewrite (proj2 (Z.eqb_neq _ _)) by done.
  pose proof Hcy as Hnx. rewrite addrs_app in Hnx. apply cycle_next, nxt_lookup in Hnx as (pv & Hle).
  rewrite <- (Hl e) in Hle by left. rewrite Hle. cbn [deref mbind outcome_bind next].
  unfold get_pair. rewrite (Hp e) by left. cbn [deref mbind outcome_bind].
  assert (Hnd' : NoDup (HEAD :: addrs (e :: flat gs ++ rest))).
  { unfold addrs in *. by rewrite <- Permutation_middle in Hnd. }
  simpl in Hnd'. rewrite addrs_app in Hnd'.
  destruct (insert_to_bucket_spec h n gs e (List (hd HEAD rest.*1) pv)) as (h1 & E1 & Hc1 & Hd1 & Ho1);
    [done|done| |done|].
  { rewrite !NoDup_cons in Hnd'. set_solver. }
  fold (bidx n e). rewrite E1. cbn [mbind outcome_bind].
  destruct (IH (l1 ++ [e]) h1 (ins (bidx n e) e gs) rest) as (h2 & gs2 & E2 & Hc2 & Hp2 & Hd2).
  - done.
  - unfold addrs in *. rewrite (ins_flat n) by apply Hc. simpl. by rewrite <- Permutation_middle in Hnd.
  - by rewrite <- app_assoc.
  - intros x Hx. rewrite Ho1; [apply Hl; by right|].
    rewrite !NoDup_cons, NoDup_app in Hnd'. unfold addrs in *.
    assert (x.1 ∈ rest.*1) by (apply list_elem_of_fmap; eauto). set_solver.
  - intros x Hx. destruct Hd1 as (_ & _ & -> & _). apply Hp. by right.
  - simpl in Hf. lia.
  - exists h2, gs2. split; [exact E2|]. split; [done|]. split.
    + rewrite Hp2, (ins_flat n) by apply Hc. simpl. by rewrite Permutation_middle.
    + unfold same_data in *. intuition congruence.
Qed.

(** Tables with the same pairs in another order. *)
Lemma rep_perm h h' n n' gs gs' :
  rep h n gs → layout h' n' gs' → num_buckets h' = Ret n' → 0 < n' → flat gs' ≡ₚ flat gs →
  h_size h' = h_size h → h_pairs h' = h_pairs h → h_brk h' = h_brk h → rep h' n' gs'.
Proof.
  intros [_ _ Hs Hp Hb Hb0 Hh Hk] Hc Hn Hn0 Hperm Es Ep Eb. split; try done.
  - by rewrite Es, Hs, Hperm.
  - intros e He. rewrite Ep. apply Hp. by rewrite <- Hperm.
  - intros e He. rewrite Eb. apply Hb. by rewrite <- Hperm.
  - by rewrite Eb.
  - by rewrite Hperm.
  - by rewrite Hperm.
Qed.

Lemma hashtable_do_rehash_spec h n gs :
  rep h n gs → h_num_buckets h < 28 →
  wpr hashtable_do_rehash h (λ _ h', ∃ n' gs', rep h' n' gs' ∧ flat gs' ≡ₚ flat gs ∧ h_brk h' = h_brk h).
Proof.
  intros Hrep Hi. unfold hashtable_do_rehash. apply wp_get_bind, wp_put_bind, wp_get_bind.
  assert (Hi0 : 0 ≤ h_num_buckets h).
  { destruct (rep_n _ _ _ Hrep) as [E _]. unfold num_buckets, readZ in E. by case_bool. }
  assert (Hn : ∃ n', readZ primes (h_num_buckets h + 1) = Ret n').
  { unfold readZ. rewrite (proj2 (Z.leb_le _ _)) by lia.
    destruct (primes !! Z.to_nat (h_num_buckets h + 1)) as [p|] eqn:E; [by exists p|].
    apply lookup_ge_None in E. change (length primes) with 29%nat in E. lia. }
  destruct Hn as (n' & En). pose proof (prime_pos _ _ En) as Hn'.
  eapply wp_liftS_bind; [exact En|]. apply wp_lift_malloc; [unfold sizeof_bucket; lia|].
  pose proof (core_cycle _ _ _ (rep_core _ _ _ Hrep)) as Hc.
  pose proof (core_addrs _ _ _ (rep_core _ _ _ Hrep)) as Hnd.
  pose proof (cycle_first _ _ Hc) as Hf. apply nxt_lookup in Hf as (pv & Hf).
  eapply wp_liftS_bind; [cbn [h_links with_buckets]; by rewrite Hf|]. cbn [next].
  set (h1 := with_links _ _).
  destruct (rehash_loop_spec n' (h_links h) [] (Z.to_nat (h_size h)) h1 [] (flat gs))
    as (h' & gs' & E & Hc' & Hp & Hs); try done.
  - by apply core_empty.
  - intros e He. apply lookup_insert_ne. apply NoDup_cons in Hnd as [Hnd _].
    intros E0. apply Hnd. rewrite E0. apply list_elem_of_fmap. eauto.
  - intros e He. by apply (rep_pairs _ _ _ Hrep).
  - rewrite (rep_size _ _ _ Hrep), Nat2Z.id. lia.
  - eapply wp_liftS_bind; [exact E|]. apply wp_put. exists n', gs'. simpl in Hp.
    destruct Hs as (Es & Ei & Ep & Eb). split; [|done].
    eapply (rep_perm h); try done. unfold num_buckets. by rewrite Ei.
Qed.

(** ** Changing a value *)

Definition set_value (a : Z) (v : V) (e : entry) : entry :=
  if decide (e.1 = a) then (a, Pair (p_hash e.2) (p_serial e.2) v (p_key e.2)) else e.

Definition upd (a : Z) (v : V) (gs : groups) : groups :=
  (λ ig : Z * list entry, (ig.1, set_value a v <$> ig.2)) <$> gs.

Lemma set_value_same a v e :
  (set_value a v e).1 = e.1 ∧ p_hash (set_value a v e).2 = p_hash e.2 ∧
  p_key (set_value a v e).2 = p_key e.2 ∧ p_serial (set_value a v e).2 = p_serial e.2.
Proof. unfold set_value. by case_decide. Qed.

Lemma flat_upd a v gs : flat (upd a v gs) = set_value a v <$> flat gs.
Proof.
  induction gs as [|[i g] gs IH]; [done|]. unfold upd. rewrite fmap_cons. fold (upd a v gs).
  by rewrite !flat_cons, IH, fmap_app.
Qed.

Lemma addrs_upd a v l : addrs (set_value a v <$> l) = addrs l.
Proof.
  unfold addrs. rewrite <- list_fmap_compose. apply list_fmap_ext. intros _ e _. apply set_value_same.
Qed.

Lemma keys_upd a v l : keys (set_value a v <$> l) = keys l.
Proof.
  unfold keys. rewrite <- list_fmap_compose. apply list_fmap_ext. intros _ e _. apply set_value_same.
Qed.

Lemma group_upd i a v gs : group i (upd a v gs) = set_value a v <$> group i gs.
Proof. induction gs as [|[j g] gs IH]; simpl; [done|]. by case_decide. Qed.

Lemma core_upd h n gs a v ps : layout h n gs → layout (with_pairs ps h) n (upd a v gs).
Proof.
  intros [H1 H2 (bs & Hb1 & Hb2 & Hb3) H4 H5]. split; simpl.
  - unfold upd. rewrite <- list_fmap_compose. done.
  - unfold upd. rewrite Forall_fmap. eapply Forall_impl; [exact H2|]. intros [i g] (? & ? & Hg). simpl in *.
    split; [done|]. split; [by destruct g|]. apply Forall_fmap. eapply Forall_impl; [exact Hg|].
    intros e <-. unfold bidx. simpl. by destruct (set_value_same a v e) as (_ & -> & _).
  - exists bs. split_and!; [done..|]. intros i Hi. rewrite Hb3 by done.
    unfold bucket_of. by rewrite group_upd, addrs_upd.
  - by rewrite flat_upd, addrs_upd.
  - by rewrite flat_upd, addrs_upd.
Qed.

Lemma addr_inj h n gs e e' : rep h n gs → e ∈ flat gs → e' ∈ flat gs → e.1 = e'.1 → e = e'.
Proof.
  intros Hrep He He' E. pose proof (rep_pairs _ _ _ Hrep) as Hp.
  pose proof (Hp e He) as H1. rewrite E, (Hp e' He') in H1. destruct e, e'; simpl in *; congruence.
Qed.

Lemma rep_update h n gs e v :
  rep h n gs → e ∈ flat gs →
  rep (with_pairs (<[e.1 := Pair (p_hash e.2) (p_serial e.2) v (p_key e.2)]> (h_pairs h)) h) n (upd e.1 v gs).
Proof.
  intros Hrep He. pose proof Hrep as [Hc Hn Hs Hp Hb Hb0 Hh Hk].
  split; simpl; try done; [by apply core_upd|..]; rewrite flat_upd.
  - by rewrite length_fmap.
  - intros x (y & -> & Hy)%list_elem_of_fmap. unfold set_value. case_decide as E; simpl.
    + rewrite lookup_insert_eq. by rewrite (addr_inj h n gs y e).
    + rewrite lookup_insert_ne by done. by apply Hp.
  - intros x (y & -> & Hy)%list_elem_of_fmap. destruct (set_value_same e.1 v y) as (-> & _). by apply Hb.
  - rewrite Forall_fmap. eapply Forall_impl; [exact Hh|]. intros x Hx. unfold pair_ok in *. simpl.
    by destruct (set_value_same e.1 v x) as (_ & -> & -> & _).
  - fold (keys (set_value e.1 v <$> flat gs)). by rewrite keys_upd.
Qed.

(** ** Insertion *)

Definition MAX_PAIRS : Z := 1610612741.

Lemma readZ_nth i n : readZ primes i = Ret n → 28 ≤ i → n = MAX_PAIRS.
Proof.
  unfold readZ. case_bool; [|done]. intros E Hi.
  assert (i < 29).
  { destruct (decide (i < 29)); [done|].
    rewrite lookup_ge_None_2 in E; [done|]. change (length primes) with 29%nat. lia. }
  assert (i = 28) as -> by lia. vm_compute in E. by simplify_eq.
Qed.

(** ** Removal *)

(** A group that may have become empty. *)
Definition mk_group (i : Z) (g : list entry) : groups := match g with [] => [] | _ => [(i, g)] end.

Lemma flat_mk_group i g : flat (mk_group i g) = g.
Proof. destruct g; [done|]. apply app_nil_r. Qed.

Lemma group_app j gs1 gs2 : group j (gs1 ++ gs2) = if decide (j ∈ gs1.*1) then group j gs1 else group j gs2.
Proof.
  induction gs1 as [|[k g] gs1 IH]; cbn [group app]; [done|]. rewrite fmap_cons, IH. simpl.
  repeat case_decide; try done; set_solver.
Qed.

Lemma group_replace j i g g' gs1 gs2 :
  NoDup (gs1 ++ (i, g) :: gs2).*1 →
  group j (gs1 ++ mk_group i g' ++ gs2) = if decide (j = i) then g' else group j (gs1 ++ (i, g) :: gs2).
Proof.
  rewrite fmap_app, NoDup_app, fmap_cons, NoDup_cons. intros (_ & Hd & Hi & _).
  destruct g' as [|x g']; cbn [mk_group app]; rewrite !group_app; cbn [group];
    destruct (decide (j = i)) as [->|Hj]; rewrite ?(decide_False (P := i = j)) by done; try done;
    rewrite (decide_False (P := i ∈ gs1.*1)) by (intros ?; apply (Hd i); [done|left]).
  - by apply group_none.
  - by rewrite decide_True.
Qed.

Lemma cycle_prev ls l1 a l2 : cycle ls (l1 ++ a :: l2) → prv ls a = Some (List.last (HEAD :: l1) HEAD).
Proof.
  intros Hc. unfold cycle in Hc. rewrite <- app_assoc in Hc.
  destruct (exists_last (l := HEAD :: l1)) as (A & p & E); [done|].
  change (linked ls ((HEAD :: l1) ++ a :: l2 ++ [HEAD])) in Hc. rewrite E, <- app_assoc in Hc.
  apply linked_app in Hc as [_ [[_ Hp] _]]. rewrite E, last_last. done.
Qed.

(** The bucket that the code stores for the group without [e]. *)
Lemma removed_bucket g1 e g2 nx pv :
  NoDup (addrs (g1 ++ e :: g2)) →
  (g2 ≠ [] → nx = hd HEAD (addrs g2)) → (g1 ≠ [] → pv = List.last (addrs g1) HEAD) →
  let b := bucket_of (g1 ++ e :: g2) in
  bucket_of (g1 ++ g2) =
    if (e.1 =? first b) && (e.1 =? last b) then Bucket HEAD HEAD
    else if e.1 =? first b then Bucket nx (last b)
    else if e.1 =? last b then Bucket (first b) pv else b.
Proof.
  intros Hnd Hnx Hpv b.
  assert (Hf : (e.1 =? first b) = bool_decide (g1 = [])).
  { unfold b, bucket_of. cbn [first]. destruct g1 as [|x g1]; [by apply Z.eqb_refl|].
    apply Z.eqb_neq. intros E. apply (addrs_nodup_split _ _ _ Hnd). rewrite E. left. }
  assert (Hl : (e.1 =? last b) = bool_decide (g2 = [])).
  { destruct (decide (g2 = [])) as [->|Hg].
    - unfold b, bucket_of. cbn [last]. rewrite addrs_app. simpl. rewrite last_last. apply Z.eqb_refl.
    - rewrite bool_decide_false by done. apply Z.eqb_neq. intros E. by apply Hg, (last_addr g1 e). }
  rewrite Hf, Hl. clear Hf Hl. unfold b, bucket_of.
  destruct g1 as [|x g1]; destruct (decide (g2 = [])) as [->|Hg]; cbn [first last].
  - done.
  - rewrite (bool_decide_false (g2 = [])) by done. simpl. rewrite <- Hnx by done. by destruct g2.
  - simpl. by rewrite app_nil_r, Hpv by done.
  - rewrite (bool_decide_false (g2 = [])), bool_decide_false by done.
    destruct (exists_last Hg) as (g & y & ->). f_equal.
    replace ((x :: g1) ++ g ++ [y]) with (((x :: g1) ++ g) ++ [y]) by (by rewrite <- app_assoc).
    replace ((x :: g1) ++ e :: g ++ [y]) with (((x :: g1) ++ e :: g) ++ [y]) by (by rewrite <- app_assoc).
    rewrite !(addrs_app _ [y]). change (addrs [y]) with [y.1]. by rewrite !last_last.
Qed.

Lemma update_bucket (h : hashtable_t) n gs gs' i g' (c1 c2 c3 : bool) b1 b2 b3 :
  buckets_ok (h_buckets h) n gs → 0 ≤ i < n →
  (∀ j, 0 ≤ j < n → group j gs' = if decide (j = i) then g' else group j gs) →
  bucket_of g' = (if c1 then b1 else if c2 then b2 else if c3 then b3 else bucket_of (group i gs)) →
  ∃ obs, (if c1 then set_bucket i b1 h else if c2 then set_bucket i b2 h
          else if c3 then set_bucket i b3 h else mret h) = Ret (with_buckets obs h) ∧ buckets_ok obs n gs'.
Proof.
  intros Hb Hi Hg E. destruct c1, c2, c3; rewrite <- ?E; try by eapply set_bucket_spec.
  exists (h_buckets h). split; [by destruct h|].
  destruct Hb as (bs & Ebs & Hl & Hbs). exists bs. split_and!; [done..|]. intros j Hj.
  rewrite Hg, Hbs by done. case_decide as Ej; [|done]. by rewrite Ej, E.
Qed.

Section values.
Context {S : Type} (json_decref : V → SM S unit).

Lemma wp_on_table {A} (m : SM hashtable_t A) h (s : S) (Q : outcome A → hashtable_t * S → Prop) :
  wp m h (λ o h', Q o (h', s)) → wp (on_table m) (h, s) Q.
Proof.
  intros H w Hw. destruct (H w Hw) as [Hw' HQ]. unfold on_table, zoom. simpl.
  by destruct (m h w) as [[o h'] w'].
Qed.

Lemma wp_on_values {A} (m : SM S A) (h : hashtable_t) s (Q : outcome A → hashtable_t * S → Prop) :
  wp m s (λ o s', Q o (h, s')) → wp (on_values m) (h, s) Q.
Proof.
  intros H w Hw. destruct (H w Hw) as [Hw' HQ]. unfold on_values, zoom. simpl.
  by destruct (m s w) as [[o s'] w'].
Qed.

Lemma wp_get_table {A} (f : hashtable_t → SM (hashtable_t * S) A) h s Q :
  wp (f h) (h, s) Q → wp (get_table ≫= f) (h, s) Q.
Proof. done. Qed.

Lemma wp_put_table (h h' : hashtable_t) (s : S) (Q : outcome unit → hashtable_t * S → Prop) :
  Q (Ret tt) (h', s) → wp (put_table h') (h, s) Q.
Proof. intros HQ w Hw. by split. Qed.

Lemma wp_put_table_bind {A} (f : unit → SM (hashtable_t * S) A) h h' s Q :
  wp (f tt) (h', s) Q → wp (put_table h' ≫= f) (h, s) Q.
Proof. done. Qed.

Lemma maybe_rehash h n gs (s : S) :
  rep h n gs → Z.of_nat (length (flat gs)) < MAX_PAIRS →
  wpr (if n <=? h_size h then on_table hashtable_do_rehash else mret tt) (h, s)
    (λ _ (hs : hashtable_t * S), hs.2 = s ∧ ∃ n' gs', rep hs.1 n' gs' ∧ flat gs' ≡ₚ flat gs ∧ h_brk hs.1 = h_brk h).
Proof.
  intros Hrep Hlen. destruct (Z.leb_spec n (h_size h)) as [Hle|].
  - apply wp_on_table. eapply wp_mono; [apply (hashtable_do_rehash_spec h n gs Hrep)|].
    + destruct (decide (28 ≤ h_num_buckets h)) as [H28|]; [|lia].
      destruct (rep_n _ _ _ Hrep) as [En _]. apply readZ_nth in En; [|done].
      rewrite (rep_size _ _ _ Hrep) in Hle. lia.
    + intros [[]| |] h' H; [by split|done|done].
  - apply wp_ret. split; [done|]. by exists n, gs.
Qed.

Lemma hashtable_set_new h n gs (s : S) key serial value :
  rep h n gs → Z.of_nat (length (flat gs)) < MAX_PAIRS → find_pair key (flat gs) = None →
  wpr (hashtable_set json_decref key serial value) (h, s) (λ _ (hs : hashtable_t * S), hs.2 = s ∧
    ∃ n' gs', rep hs.1 n' gs' ∧
      flat gs' ≡ₚ (h_brk h, Pair (hash_str key) serial value key) :: flat gs).
Proof.
  intros Hrep Hlen Hnew. unfold hashtable_set. apply wp_get_table.
  eapply wp_liftS_bind; [apply (rep_n _ _ _ Hrep)|].
  eapply wp_seq; [by apply (maybe_rehash h n gs)|]. clear Hlen.
  intros _ [h1 s1] (E0 & n1 & gs1 & Hrep1 & Hp1 & Eb). simpl in *. subst s1. apply wp_get_table.
  rewrite (find_pair_perm key _ (flat gs1)) in Hnew by (apply (rep_keys _ _ _ Hrep) || done).
  eapply wp_liftS_bind; [apply (lookup_pair_spec h1 n1 gs1); done|]. rewrite Hnew. simpl fmap. cbv iota beta.
  apply wp_lift_malloc; [unfold offsetof_key; lia|].
  set (p := Pair (hash_str key) serial value key). set (a := h_brk h1).
  assert (Ha : a ∉ HEAD :: addrs (flat gs1)).
  { pose proof (rep_brk_pos _ _ _ Hrep1). unfold a. apply not_elem_of_cons. split; [unfold HEAD; lia|].
    intros (e & Ee & He)%list_elem_of_fmap. pose proof (rep_brk _ _ _ Hrep1 e He). lia. }
  destruct (rep_n _ _ _ Hrep1) as [En1 Hn1].
  set (h2 := Hashtable (h_size h1) (h_buckets h1) (h_num_buckets h1) (list_init a (h_links h1))
               (<[a := p]> (h_pairs h1)) (a + 1)).
  assert (Hc2 : layout h2 n1 gs1).
  { destruct (rep_core _ _ _ Hrep1) as [? ? ? ? Hcy]. split; try done. simpl.
    apply (linked_frame (h_links h1)); [done|..]; intros b Hb; unfold nxt, prv, list_init;
      rewrite lookup_insert_ne; try done.
    - intros <-. apply Ha. rewrite app_comm_cons, removelast_last in Hb. done.
    - intros <-. apply Ha. simpl in Hb. set_solver. }
  destruct (insert_to_bucket_spec h2 n1 gs1 (a, p) (List a a)) as (h3 & E3 & Hc3 & Hd3 & Ho3);
    [done|done|done|by apply lookup_insert_eq|].
  eapply wp_liftS_bind; [exact E3|]. apply wp_put_table. split; [done|]. simpl fst.
  exists n1, (ins (bidx n1 (a, p)) (a, p) gs1).
  pose proof (ins_flat n1 (bidx n1 (a, p)) (a, p) gs1 (core_groups _ _ _ Hc2)) as Hfl.
  split; [|rewrite Hfl, <- Hp1; unfold a; by rewrite Eb].
  destruct Hd3 as (D1 & D2 & D3 & D4). split.
  - by destruct Hc3.
  - unfold num_buckets. simpl. by rewrite D2.
  - rewrite Hfl. simpl. rewrite D1. simpl. rewrite (rep_size _ _ _ Hrep1). lia.
  - intros e. rewrite Hfl. simpl. rewrite D3. simpl. intros [->|He]%elem_of_cons; [by apply lookup_insert_eq|].
    rewrite lookup_insert_ne; [by apply (rep_pairs _ _ _ Hrep1)|].
    intros ->. apply Ha. apply elem_of_cons. right. apply list_elem_of_fmap. eauto.
  - intros e. rewrite Hfl. simpl. rewrite D4. simpl. intros [->|He]%elem_of_cons; [simpl; lia|].
    pose proof (rep_brk _ _ _ Hrep1 e He). unfold a. lia.
  - simpl. rewrite D4. simpl. pose proof (rep_brk_pos _ _ _ Hrep1). unfold a. lia.
  - rewrite Hfl. constructor; [done|]. apply (rep_hash _ _ _ Hrep1).
  - rewrite Hfl. simpl. apply NoDup_cons. split; [by apply find_pair_none|]. apply (rep_keys _ _ _ Hrep1).
Qed.

Lemma hashtable_set_old h n gs (s : S) key serial value e R :
  rep h n gs → Z.of_nat (length (flat gs)) < MAX_PAIRS → find_pair key (flat gs) = Some e →
  wpr (json_decref (p_value e.2)) s (λ _, R) →
  wpr (hashtable_set json_decref key serial value) (h, s) (λ _ (hs : hashtable_t * S), R hs.2 ∧
    ∃ n' gs', rep hs.1 n' gs' ∧ flat gs' ≡ₚ (set_value e.1 value <$> flat gs)).
Proof.
  intros Hrep Hlen Hold HR. unfold hashtable_set. apply wp_get_table.
  eapply wp_liftS_bind; [apply (rep_n _ _ _ Hrep)|].
  eapply wp_seq; [by apply (maybe_rehash h n gs)|]. clear Hlen.
  intros _ [h1 s1] (E0 & n1 & gs1 & Hrep1 & Hp1 & Eb). simpl in *. subst s1. apply wp_get_table.
  rewrite (find_pair_perm key _ (flat gs1)) in Hold by (apply (rep_keys _ _ _ Hrep) || done).
  eapply wp_liftS_bind; [apply (lookup_pair_spec h1 n1 gs1); done|]. rewrite Hold. simpl fmap. cbv iota beta.
  apply find_pair_in in Hold as [He Hk].
  eapply wp_liftS_bind; [by apply (get_pair_spec h1 n1 gs1)|].
  eapply wp_seq with (P := λ _ (hs : hashtable_t * S), R hs.2 ∧ hs.1 = h1).
  { apply wp_on_values. eapply wp_mono; [exact HR|]. by intros [[]| |]. }
  intros _ [h2 s2] [HRs E2]. simpl in HRs, E2. subst h2. apply wp_get_table, wp_put_table. split; [done|].
  exists n1, (upd e.1 value gs1). split; [by apply rep_update|]. by rewrite flat_upd, Hp1.
Qed.

Lemma hashtable_del_none h n gs (s : S) key :
  rep h n gs → find_pair key (flat gs) = None →
  wpr (hashtable_del json_decref key) (h, s) (λ b (hs : hashtable_t * S), b = false ∧ hs = (h, s)).
Proof.
  intros Hrep Hn. unfold hashtable_del, hashtable_do_del. apply wp_get_table.
  eapply wp_liftS_bind; [by apply (lookup_pair_spec h n gs)|]. rewrite Hn. by apply wp_ret.
Qed.

(** The table without [e]. *)
Lemma rep_remove h n gs1 i g1 e g2 gs2 obs ls ps :
  rep h n (gs1 ++ (i, g1 ++ e :: g2) :: gs2) →
  let gs' := gs1 ++ mk_group i (g1 ++ g2) ++ gs2 in
  buckets_ok obs n gs' → cycle ls (addrs (flat gs')) →
  (∀ b, b ≠ e.1 → ps !! b = h_pairs h !! b) →
  rep (Hashtable (h_size h - 1) obs (h_num_buckets h) (delete e.1 ls) ps (h_brk h)) n gs'.
Proof.
  intros Hrep gs' Hobs Hcy Hps. pose proof Hrep as [[Hc1 Hc2 Hc3 Hc4 Hc5] Hn Hs Hp Hb Hb0 Hh Hk].
  assert (Hf : flat (gs1 ++ (i, g1 ++ e :: g2) :: gs2) ≡ₚ e :: flat gs').
  { unfold gs'. rewrite !flat_app, flat_cons, flat_mk_group, <- !app_assoc. simpl.
    by rewrite <- !Permutation_middle. }
  unfold addrs in Hc4. rewrite Hf in *. simpl in Hc4, Hk.
  rewrite NoDup_cons in Hk. destruct Hk as [_ Hk].
  rewrite !NoDup_cons in Hc4. destruct Hc4 as (H0 & H1 & H2). fold (addrs (flat gs')) in *.
  split; simpl; try done.
  - split; simpl; try done.
    + unfold gs'. destruct (g1 ++ g2); simpl; rewrite !fmap_app in *; [|done].
      rewrite NoDup_app, fmap_cons, NoDup_cons in Hc1. rewrite NoDup_app. set_solver.
    + apply Forall_app in Hc2 as [Hg1 [(Hir & _ & Hg) Hg2]%Forall_cons].
      simpl in Hg. apply Forall_app in Hg as [Hga [_ Hgb]%Forall_cons].
      unfold gs'. rewrite !Forall_app. split_and!; try done.
      destruct (g1 ++ g2) eqn:E; simpl; [constructor|].
      constructor; [|done]. split; [done|]. split; [done|]. simpl. rewrite <- E. by apply Forall_app.
    + apply NoDup_cons. set_solver.
    + apply (linked_frame ls); [done|..]; intros b Hb'; unfold nxt, prv; rewrite lookup_delete_ne; try done;
        intros <-; [rewrite app_comm_cons, removelast_last in Hb'|simpl in Hb']; set_solver.
  - rewrite Hs. simpl. lia.
  - intros x Hx. rewrite Hps; [apply Hp; rewrite Hf; by right|]. intros E. apply H1. rewrite <- E.
    apply list_elem_of_fmap. eauto.
  - intros x Hx. apply Hb. rewrite Hf. by right.
  - by apply Forall_cons in Hh as [_ Hh].
Qed.

Lemma hashtable_del_some h n gs (s : S) key e R :
  rep h n gs → find_pair key (flat gs) = Some e →
  wpr (json_decref (p_value e.2)) s (λ _, R) →
  wpr (hashtable_del json_decref key) (h, s) (λ b (hs : hashtable_t * S), b = true ∧ R hs.2 ∧
    ∃ gs' l1 l2, rep hs.1 n gs' ∧ flat gs = l1 ++ e :: l2 ∧ flat gs' = l1 ++ l2).
Proof.
  intros Hrep Hf HR. pose proof Hrep as [Hc _ _ _ _ _ _ _]. pose proof Hc as [Hci Hcg Hcb Hca Hcc].
  set (i := hash_str key `mod` n).
  pose proof (find_in_group h n gs key Hrep) as Hg. rewrite Hf in Hg.
  apply find_pair_in in Hg as [Hing Hk]. apply find_pair_in in Hf as Hf'. destruct Hf' as [Hinf _].
  assert (Hin : (i, group i gs) ∈ gs) by (apply group_in; by intros E; unfold i in E; rewrite E in Hing; apply elem_of_nil in Hing).
  apply list_elem_of_split in Hing as (g1 & g2 & Eg). fold i in Eg. rewrite Eg in Hin.
  apply list_elem_of_split in Hin as (gs1 & gs2 & Egs).
  assert (Ef : flat gs = (flat gs1 ++ g1) ++ e :: (g2 ++ flat gs2)).
  { rewrite Egs, flat_app, flat_cons, <- !app_assoc. done. }
  assert (Hi : 0 ≤ i < n) by (apply Z.mod_pos_bound; apply (rep_n _ _ _ Hrep)).
  assert (Hndg : NoDup (addrs (g1 ++ e :: g2))).
  { apply NoDup_cons in Hca as [_ Hca]. eapply sublist_NoDup; [exact Hca|].
    apply fmap_sublist. rewrite <- Eg. apply group_sublist. }
  rewrite Ef, addrs_app in Hca, Hcc. simpl in Hca, Hcc. fold (addrs (g2 ++ flat gs2)) in *.
  pose proof (cycle_next _ _ _ _ Hcc) as Hnx. pose proof (cycle_prev _ _ _ _ Hcc) as Hpv.
  pose proof (nxt_prv _ _ _ _ Hnx Hpv) as Hle.
  destruct (list_remove_spec _ _ _ _ Hcc Hca) as (ls & Els & Hcyc & Hout).
  pose proof (removed_bucket g1 e g2 (hd HEAD (addrs (g2 ++ flat gs2)))
    (List.last (HEAD :: addrs (flat gs1 ++ g1)) HEAD) Hndg) as Hrb.
  destruct (update_bucket h n gs (gs1 ++ mk_group i (g1 ++ g2) ++ gs2) i (g1 ++ g2)
    ((e.1 =? first (bucket_of (g1 ++ e :: g2))) && (e.1 =? last (bucket_of (g1 ++ e :: g2))))
    (e.1 =? first (bucket_of (g1 ++ e :: g2))) (e.1 =? last (bucket_of (g1 ++ e :: g2))) 
    (Bucket HEAD HEAD) (Bucket (hd HEAD (addrs (g2 ++ flat gs2))) (last (bucket_of (g1 ++ e :: g2))))
    (Bucket (first (bucket_of (g1 ++ e :: g2))) (List.last (HEAD :: addrs (flat gs1 ++ g1)) HEAD)))
    as (obs & Eobs & Hobs); [done|done| | |].
  { intros j _. rewrite (group_replace j i (g1 ++ e :: g2)) by (by rewrite <- Egs). by rewrite <- Egs. }
  { rewrite Eg. apply Hrb; intros Hne.
    - by destruct g2.
    - destruct (exists_last Hne) as (g & y & ->). rewrite app_assoc, !(addrs_app _ [y]), app_comm_cons.
      change (addrs [y]) with [y.1]. by rewrite !last_last. }
  unfold hashtable_del, hashtable_do_del. apply wp_get_table.
  eapply wp_liftS_bind; [by apply (lookup_pair_spec h n gs)|]. rewrite Hf. simpl fmap. cbv iota beta. fold i.
  eapply wp_liftS_bind; [by apply (get_bucket_spec h n gs)|].
  eapply wp_liftS_bind; [by rewrite Hle|]. rewrite Eg. cbn [next prev].
  eapply wp_liftS_bind; [exact Eobs|]. eapply wp_liftS_bind; [exact Els|]. apply wp_put_table_bind.
  eapply wp_liftS_bind; [by apply (get_pair_spec h n gs)|].
  eapply wp_seq with (P := λ _ (hs : hashtable_t * S), R hs.2 ∧ hs.1 = with_links ls (with_buckets obs h)).
  { apply wp_on_values. eapply wp_mono; [exact HR|]. by intros [[]| |]. }
  intros _ [h2 s2] [HRs E2]. simpl in HRs, E2. subst h2. apply wp_get_table, wp_put_table_bind, wp_ret.
  split; [done|]. split; [done|].
  exists (gs1 ++ mk_group i (g1 ++ g2) ++ gs2), (flat gs1 ++ g1), (g2 ++ flat gs2).
  assert (Ef' : flat (gs1 ++ mk_group i (g1 ++ g2) ++ gs2) = (flat gs1 ++ g1) ++ g2 ++ flat gs2).
  { by rewrite !flat_app, flat_mk_group, <- !app_assoc. }
  split; [|done]. apply (rep_remove h n gs1 i g1 e g2 gs2 obs ls (delete e.1 (h_pairs h))); [by rewrite <- Egs|done|by rewrite Ef', addrs_app|].
  intros b Hb. simpl. by rewrite lookup_delete_ne.
Qed.

(** The values are released in the order of the list; [I rest] holds while those
    of [rest] are left. *)
Context (I : list entry → S → Prop).
Hypothesis (decref_step : ∀ e rest s, I (e :: rest) s →
  wpr (json_decref (p_value e.2)) s (λ _, I rest)).

Definition same_frame (h h' : hashtable_t) : Prop :=
  h_num_buckets h' = h_num_buckets h ∧ h_buckets h' = h_buckets h ∧ h_brk h' = h_brk h.

Lemma clear_loop_spec ls0 l1 fuel rest h s :
  NoDup (HEAD :: addrs rest) → cycle ls0 (addrs (l1 ++ rest)) →
  (∀ e, e ∈ rest → h_links h !! e.1 = ls0 !! e.1) →
  (∀ e, e ∈ rest → h_pairs h !! e.1 = Some e.2) →
  (length rest ≤ fuel)%nat → I rest s →
  wpr (clear_loop json_decref fuel (hd HEAD (addrs rest))) (h, s)
    (λ _ (hs : hashtable_t * S), I [] hs.2 ∧ same_frame h hs.1).
Proof.
  revert l1 rest h s. induction fuel as [|fuel IH]; intros l1 rest h s Hnd Hcy Hl Hp Hf HI;
    (destruct rest as [|e rest]; [by apply wp_ret|]); [simpl in Hf; lia|].
  pose proof Hnd as Hnd0. simpl in Hnd. rewrite !NoDup_cons in Hnd. destruct Hnd as (H0 & He & Hnd).
  cbn [clear_loop hd addrs fmap list_fmap]. rewrite (proj2 (Z.eqb_neq _ _)) by set_solver.
  pose proof Hcy as Hnx. rewrite addrs_app in Hnx. apply cycle_next, nxt_lookup in Hnx as (pv & Hle).
  apply wp_get_table. eapply wp_liftS_bind; [rewrite (Hl e) by left; by rewrite Hle|].
  eapply wp_liftS_bind; [unfold get_pair; by rewrite (Hp e) by left|].
  eapply wp_seq with (P := λ _ (hs : hashtable_t * S), I rest hs.2 ∧ hs.1 = h).
  { apply wp_on_values. eapply wp_mono; [by apply decref_step|]. by intros [[]| |]. }
  intros _ [h2 s2] [HI2 E2]. simpl in HI2, E2. subst h2. apply wp_get_table, wp_put_table_bind.
  cbn [next].
  assert (Hne : ∀ x, x ∈ rest → e.1 ≠ x.1).
  { intros x Hx E. apply He. rewrite E. apply list_elem_of_fmap. eauto. }
  eapply wp_mono; [apply (IH (l1 ++ [e]) rest)|].
  - apply NoDup_cons. split; [|done]. by intros ?; apply H0; right.
  - by rewrite <- app_assoc.
  - intros x Hx. simpl. rewrite lookup_delete_ne by auto. apply Hl. by right.
  - intros x Hx. simpl. rewrite lookup_delete_ne by auto. apply Hp. by right.
  - simpl in Hf. lia.
  - done.
  - by intros [[]| |] [h3 s3].
Qed.

Lemma do_clear_spec h n gs s :
  rep h n gs → I (flat gs) s →
  wpr (hashtable_do_clear json_decref) (h, s)
    (λ _ (hs : hashtable_t * S), I [] hs.2 ∧ same_frame h hs.1).
Proof.
  intros Hrep HI. unfold hashtable_do_clear. apply wp_get_table.
  destruct (rep_core _ _ _ Hrep) as [_ _ _ Hnd Hcy].
  pose proof (cycle_first _ _ Hcy) as Hf. apply nxt_lookup in Hf as (pv & Hf).
  eapply wp_liftS_bind; [by rewrite Hf|]. cbn [next].
  apply (clear_loop_spec (h_links h) []); try done.
  - by apply (rep_pairs _ _ _ Hrep).
  - rewrite (rep_size _ _ _ Hrep). lia.
Qed.

Lemma hashtable_close_spec h n gs s :
  rep h n gs → I (flat gs) s →
  wpr (hashtable_close json_decref) (h, s) (λ _ (hs : hashtable_t * S), I [] hs.2).
Proof.
  intros Hrep HI. unfold hashtable_close. eapply wp_seq; [by apply (do_clear_spec h n gs)|].
  intros _ [h' s'] [HI' _]. apply wp_get_table. by apply wp_put_table.
Qed.

Lemma hashtable_clear_spec h n gs s :
  rep h n gs → I (flat gs) s →
  wpr (hashtable_clear json_decref) (h, s)
    (λ _ (hs : hashtable_t * S), I [] hs.2 ∧ rep hs.1 n []).
Proof.
  intros Hrep HI. unfold hashtable_clear. eapply wp_seq; [by apply (do_clear_spec h n gs)|].
  intros _ [h' s'] (HI' & En & Eb & Ek). simpl in *. apply wp_get_table.
  destruct (rep_n _ _ _ Hrep) as [Hn Hn0]. destruct (rep_core _ _ _ Hrep) as [_ _ (bs & Ebs & _) _ _].
  eapply wp_liftS_bind; [unfold num_buckets; rewrite En; exact Hn|].
  eapply wp_liftS_bind; [by rewrite Eb, Ebs|]. apply wp_put_table. split; [done|].
  split; simpl; try done.
  - destruct (core_empty h' n (h_links h') Hn0). by split.
  - unfold num_buckets in *. simpl. by rewrite En.
  - by intros e ?%elem_of_nil.
  - by intros e ?%elem_of_nil.
  - rewrite Ek. apply (rep_brk_pos _ _ _ Hrep).
  - constructor.
Qed.
End values.

(** ** The view of clients *)

(** The table holds the pairs [l], with distinct addresses and keys. *)
Definition table (h : hashtable_t) (l : list entry) : Prop := ∃ n gs, rep h n gs ∧ flat gs = l.

Lemma table_keys h l : table h l → NoDup (keys l).
Proof. intros (n & gs & Hrep & <-). apply (rep_keys _ _ _ Hrep). Qed.

Lemma table_addrs h l : table h l → NoDup (addrs l).
Proof.
  intros (n & gs & Hrep & <-). destruct (rep_core _ _ _ Hrep) as [_ _ _ Hnd _].
  by apply NoDup_cons in Hnd as [_ Hnd].
Qed.

Lemma table_size h l : table h l → h_size h = Z.of_nat (length l).
Proof. intros (n & gs & Hrep & <-). apply (rep_size _ _ _ Hrep). Qed.

Lemma table_pair h l e : table h l → e ∈ l → get_pair e.1 h = Ret e.2.
Proof. intros (n & gs & Hrep & <-) He. by eapply get_pair_spec. Qed.
End theory.
