(* ===== verification/JValue.v ===== *)
(** * JSON values (jansson/value.c, jansson.h)

    Values live in a heap of reference-counted cells. [json_t *] is an
    [option ref]: NULL, one of the three static values, or the address of a
    cell. A freed cell is gone from the heap, so every later access to it is
    undefined. A routine that takes a reference over ([.._new]) releases it
    when it fails. *)

From S2P Require Import Prelude CModel JBase JUtf JHash.
From Stdlib Require Import SpecFloat.

(** ** Cells *)

Inductive json_type :=
  | JSON_OBJECT | JSON_ARRAY | JSON_STRING | JSON_INTEGER | JSON_REAL
  | JSON_TRUE | JSON_FALSE | JSON_NULL.

#[export] Instance json_type_eq_dec : EqDecision json_type.
Proof. solve_decision. Defined.

Inductive ref := the_true | the_false | the_null | Ref (a : Z).

#[export] Instance ref_eq_dec : EqDecision ref.
Proof. solve_decision. Defined.

(** A [double]: the values of the binary64 format. *)
Abbreviation double := spec_float.

Definition isnan (x : double) : bool := match x with S754_nan => true | _ => false end.
Definition isinf (x : double) : bool := match x with S754_infinity _ => true | _ => false end.

Record json_array_t := JsonArray {
  a_size : Z;                      (* allocated entries *)
  a_entries : Z;                   (* entries in use *)
  a_table : list (option ref);     (* [a_size] pointers, some not initialised *)
  a_visited : Z
}.

Record json_object_t := JsonObject {
  o_hashtable : hashtable_t ref;
  o_serial : Z;
  o_visited : Z
}.

Inductive body :=
  | Object (o : json_object_t)
  | Array (a : json_array_t)
  | String_ (value : list Z)       (* the bytes before the NUL *)
  | Integer (value : Z)
  | Real (value : double).

Record cell := Cell { refcount : Z; content : body }.

Record heap := Heap { cells : Zmap cell; brk : Z }.

(** The count of the static values, which is never changed. *)
Definition STATIC_COUNT : Z := 2 ^ 64 - 1.

(** ** Access to cells *)

Definition get_cell (a : Z) : SM heap cell := s ← get; liftS (deref (cells s !! a)).

(** A store into an existing cell. *)
Definition put_cell (a : Z) (c : cell) : SM heap unit :=
  s ← get;
  _ ← liftS (deref (cells s !! a));
  put (Heap (<[a := c]> (cells s)) (brk s)).

Definition put_content (a : Z) (b : body) : SM heap unit :=
  c ← get_cell a; put_cell a (Cell (refcount c) b).

(** [json_init] in a new block: one reference. *)
Definition json_init (b : body) : SM heap ref :=
  s ← get;
  _ ← put (Heap (<[brk s := Cell 1 b]> (cells s)) (brk s + 1));
  mret (Ref (brk s)).

(** [jsonp_free] of a cell. *)
Definition free_cell (a : Z) : SM heap unit :=
  s ← get;
  _ ← liftS (deref (cells s !! a));
  put (Heap (delete a (cells s)) (brk s)).

Definition type_of (b : body) : json_type :=
  match b with
  | Object _ => JSON_OBJECT | Array _ => JSON_ARRAY | String_ _ => JSON_STRING
  | Integer _ => JSON_INTEGER | Real _ => JSON_REAL
  end.

Definition json_typeof (json : ref) : SM heap json_type :=
  match json with
  | the_true => mret JSON_TRUE
  | the_false => mret JSON_FALSE
  | the_null => mret JSON_NULL
  | Ref a => c ← get_cell a; mret (type_of (content c))
  end.

(** [json_to_object(json)] when [json_is_object(json)], and so on. *)
Definition json_to_object (json : option ref) : SM heap (option (Z * json_object_t)) :=
  match json with
  | Some (Ref a) => c ← get_cell a; mret (match content c with Object o => Some (a, o) | _ => None end)
  | _ => mret None
  end.

Definition json_to_array (json : option ref) : SM heap (option (Z * json_array_t)) :=
  match json with
  | Some (Ref a) => c ← get_cell a; mret (match content c with Array t => Some (a, t) | _ => None end)
  | _ => mret None
  end.

Definition json_to_string (json : option ref) : SM heap (option (Z * list Z)) :=
  match json with
  | Some (Ref a) => c ← get_cell a; mret (match content c with String_ t => Some (a, t) | _ => None end)
  | _ => mret None
  end.

Definition json_to_integer (json : option ref) : SM heap (option (Z * Z)) :=
  match json with
  | Some (Ref a) => c ← get_cell a; mret (match content c with Integer t => Some (a, t) | _ => None end)
  | _ => mret None
  end.

Definition json_to_real (json : option ref) : SM heap (option (Z * double)) :=
  match json with
  | Some (Ref a) => c ← get_cell a; mret (match content c with Real t => Some (a, t) | _ => None end)
  | _ => mret None
  end.

(** A statement on the hash table of the object at [a], during which the cells
    can change. *)
Definition with_table {A} (a : Z) (m : SM (hashtable_t ref * heap) A) : SM heap A := λ s w,
  match cells s !! a with
  | Some (Cell n (Object o)) =>
    let '((r, (h, s')), w') := m (o_hashtable o, s) w in
    match cells s' !! a with
    | Some (Cell n' (Object o')) =>
      ((r, Heap (<[a := Cell n' (Object (JsonObject h (o_serial o') (o_visited o')))]> (cells s')) (brk s')), w')
    | _ => ((Undef, s'), w')
    end
  | _ => ((Undef, s), w)
  end.

(** ** Reference counts *)

Definition json_incref (json : option ref) : SM heap (option ref) :=
  match json with
  | Some (Ref a) =>
    c ← get_cell a;
    _ ← (if refcount c =? STATIC_COUNT then mret tt
         else put_cell a (Cell (size_t (refcount c + 1)) (content c)));
    mret json
  | _ => mret json
  end.

(** The deletion of a value with the routine that releases its parts. The
    pointers of an array are released in order. *)
Fixpoint release_entries (json_decref : ref → SM heap unit) (l : list (option ref)) : SM heap unit :=
  match l with
  | [] => mret tt
  | p :: l =>
    p ← liftS (deref p);
    _ ← json_decref p;
    release_entries json_decref l
  end.

Definition json_delete_object (json_decref : ref → SM heap unit) (a : Z) : SM heap unit :=
  _ ← with_table a (hashtable_close json_decref);
  free_cell a.

Definition json_delete_array (json_decref : ref → SM heap unit) (a : Z) (t : json_array_t) : SM heap unit :=
  _ ← release_entries json_decref (take (Z.to_nat (a_entries t)) (a_table t));
  free_cell a.

Definition json_delete_string (a : Z) : SM heap unit := free_cell a.
Definition json_delete_integer (a : Z) : SM heap unit := free_cell a.
Definition json_delete_real (a : Z) : SM heap unit := free_cell a.

Definition json_delete_with (json_decref : ref → SM heap unit) (a : Z) : SM heap unit :=
  c ← get_cell a;
  match content c with
  | Object _ => json_delete_object json_decref a
  | Array t => json_delete_array json_decref a t
  | String_ _ => json_delete_string a
  | Integer _ => json_delete_integer a
  | Real _ => json_delete_real a
  end.

(** Every level of the recursion works on another cell, so that there are at
    most as many as addresses. *)
Fixpoint decref_fuel (fuel : nat) (json : ref) : SM heap unit :=
  match json with
  | Ref a =>
    c ← get_cell a;
    if refcount c =? STATIC_COUNT then mret tt
    else
      let n := size_t (refcount c - 1) in
      _ ← put_cell a (Cell n (content c));
      if n =? 0 then
        match fuel with
        | O => sundef
        | S fuel => json_delete_with (decref_fuel fuel) a
        end
      else mret tt
  | _ => mret tt
  end.

Definition json_decref_ref (json : ref) : SM heap unit :=
  s ← get; decref_fuel (Z.to_nat (brk s)) json.

Definition json_delete (a : Z) : SM heap unit :=
  s ← get; json_delete_with (decref_fuel (Z.to_nat (brk s))) a.

Definition json_decref (json : option ref) : SM heap unit :=
  match json with
  | Some json => json_decref_ref json
  | None => mret tt
  end.

(** Release the argument and return the error. *)
Definition reject {A} (value : option ref) : SM heap A := _ ← json_decref value; sfail.

(** ** Objects *)

Definition sizeof_object : Z := 72.
Definition sizeof_array : Z := 48.
Definition sizeof_pointer : Z := 8.
Definition sizeof_scalar : Z := 24.

Definition json_object : SM heap ref :=
  _ ← lift (jsonp_malloc sizeof_object);
  h ← lift (x ← run_on (Hashtable 0 None 0 ∅ ∅ 0) hashtable_init; mret x.2);
  json_init (Object (JsonObject h 0 0)).

Definition json_object_size (json : option ref) : SM heap Z :=
  o ← json_to_object json;
  mret (match o with Some (_, o) => h_size (o_hashtable o) | None => 0 end).

Definition json_object_get (json : option ref) (key : list Z) : SM heap (option ref) :=
  o ← json_to_object json;
  match o with
  | Some (_, o) => liftS (hashtable_get (o_hashtable o) key)
  | None => mret None
  end.

(** Keys can be NULL. *)
Definition json_object_set_new_nocheck (json : option ref) (key : option (list Z)) (value : option ref)
    : SM heap unit :=
  match value with
  | None => sfail
  | Some v =>
    o ← json_to_object json;
    match key, o with
    | Some key, Some (a, o) =>
      if bool_decide (json = value) then reject value
      else
        let serial := o_serial o in
        _ ← put_content a (Object (JsonObject (o_hashtable o) (size_t (serial + 1)) (o_visited o)));
        or_else (with_table a (hashtable_set json_decref_ref key serial v)) (json_decref value)
    | _, _ => reject value
    end
  end.

Definition json_object_set_new (json : option ref) (key : option (list Z)) (value : option ref)
    : SM heap unit :=
  match key with
  | None => reject value
  | Some k =>
    ok ← liftS (utf8_check_string (k ++ [0]) (-1));
    if (ok : bool) then json_object_set_new_nocheck json key value else reject value
  end.

Definition json_object_set (json : option ref) (key : option (list Z)) (value : option ref) : SM heap unit :=
  value ← json_incref value; json_object_set_new json key value.

Definition json_object_set_nocheck (json : option ref) (key : option (list Z)) (value : option ref)
    : SM heap unit :=
  value ← json_incref value; json_object_set_new_nocheck json key value.

Definition json_object_del (json : option ref) (key : list Z) : SM heap unit :=
  o ← json_to_object json;
  match o with
  | None => sfail
  | Some (a, _) =>
    found ← with_table a (hashtable_del json_decref_ref key);
    if (found : bool) then mret tt else sfail
  end.

Definition json_object_clear (json : option ref) : SM heap unit :=
  o ← json_to_object json;
  match o with
  | None => sfail
  | Some (a, _) =>
    _ ← with_table a (hashtable_clear json_decref_ref);
    c ← get_cell a;
    match content c with
    | Object o => put_content a (Object (JsonObject (o_hashtable o) 0 (o_visited o)))
    | _ => sundef
    end
  end.

(** *** Iteration. Iterators are addresses of pairs; a key that an iterator
    hands out is the pointer into its pair, from which
    [json_object_key_to_iter] recovers it. *)

Definition json_object_iter (json : option ref) : SM heap (option Z) :=
  o ← json_to_object json;
  match o with Some (_, o) => liftS (hashtable_iter (o_hashtable o)) | None => mret None end.

Definition json_object_iter_at (json : option ref) (key : option (list Z)) : SM heap (option Z) :=
  o ← json_to_object json;
  match key, o with
  | Some key, Some (_, o) => liftS (hashtable_iter_at (o_hashtable o) key)
  | _, _ => mret None
  end.

Definition json_object_iter_next (json : option ref) (iter : option Z) : SM heap (option Z) :=
  o ← json_to_object json;
  match o, iter with
  | Some (_, o), Some iter => liftS (hashtable_iter_next (o_hashtable o) iter)
  | _, _ => mret None
  end.

(** The accessors of iterators are given the object whose pairs they read. *)
Definition json_object_iter_key (json : option ref) (iter : option Z) : SM heap (option (list Z)) :=
  match iter with
  | None => mret None
  | Some iter =>
    o ← json_to_object json;
    match o with
    | Some (_, o) => key ← liftS (hashtable_iter_key (o_hashtable o) iter); mret (Some key)
    | None => sundef
    end
  end.

Definition json_object_iter_value (json : option ref) (iter : option Z) : SM heap (option ref) :=
  match iter with
  | None => mret None
  | Some iter =>
    o ← json_to_object json;
    match o with
    | Some (_, o) => value ← liftS (hashtable_iter_value (o_hashtable o) iter); mret (Some value)
    | None => sundef
    end
  end.

Definition json_object_iter_set_new (json : option ref) (iter : option Z) (value : option ref) : SM heap unit :=
  o ← json_to_object json;
  match o, iter, value with
  | Some (a, _), Some iter, Some v => with_table a (hashtable_iter_set json_decref_ref iter v)
  | _, _, _ => sfail
  end.

Definition json_object_iter_set (json : option ref) (iter : option Z) (value : option ref) : SM heap unit :=
  value ← json_incref value; json_object_iter_set_new json iter value.

(** [json_object_foreach(json, key, value)] from [iter] on. The body can change
    the object. *)
Fixpoint foreach_from (fuel : nat) (json : option ref) (iter : option Z)
    (body : list Z → ref → SM heap unit) : SM heap unit :=
  key ← json_object_iter_key json iter;
  match key with
  | None => mret tt
  | Some key =>
    value ← json_object_iter_value json iter;
    match value, fuel with
    | None, _ => mret tt
    | Some _, O => sundef
    | Some value, S fuel =>
      _ ← body key value;
      iter ← json_object_iter_next json iter;
      foreach_from fuel json iter body
    end
  end.

(** A body that sets existing keys of the object that is walked through can
    rehash it once, which moves the pairs ahead of the iterator again. *)
Definition json_object_foreach (json : option ref) (body : list Z → ref → SM heap unit) : SM heap unit :=
  n ← json_object_size json;
  iter ← json_object_iter json;
  foreach_from (Z.to_nat (2 * n)) json iter body.

Definition json_object_update (object other : option ref) : SM heap unit :=
  o ← json_to_object object;
  p ← json_to_object other;
  match o, p with
  | Some _, Some _ =>
    json_object_foreach other (λ key value, json_object_set_nocheck object (Some key) (Some value))
  | _, _ => sfail
  end.

(** The results of the insertions are ignored. *)
Definition ignore {S A} (m : SM S A) : SM S unit := _ ← attempt m; mret tt.

Definition json_object_update_existing (object other : option ref) : SM heap unit :=
  o ← json_to_object object;
  p ← json_to_object other;
  match o, p with
  | Some _, Some _ =>
    json_object_foreach other (λ key value,
      old ← json_object_get object key;
      match old with
      | Some _ => ignore (json_object_set_nocheck object (Some key) (Some value))
      | None => mret tt
      end)
  | _, _ => sfail
  end.

Definition json_object_update_missing (object other : option ref) : SM heap unit :=
  o ← json_to_object object;
  p ← json_to_object other;
  match o, p with
  | Some _, Some _ =>
    json_object_foreach other (λ key value,
      old ← json_object_get object key;
      match old with
      | Some _ => mret tt
      | None => ignore (json_object_set_nocheck object (Some key) (Some value))
      end)
  | _, _ => sfail
  end.
