(* ===== verification/JArray.v ===== *)
(** * Arrays, strings, numbers, comparison and copies (jansson/value.c)

    The table of an array is a block of pointers of which the first ones are in
    use; moving pointers out of the block is undefined. *)

From S2P Require Import Prelude CModel JBase JUtf JHash JValue.
From Stdlib Require Import SpecFloat.

(** ** Blocks of pointers *)

Abbreviation block := (list (option ref)).

Definition blen (t : block) : Z := Z.of_nat (length t).

(** [memmove(&table[dest], &table[src], count)]. *)
Definition array_move (t : block) (dest src count : Z) : outcome block :=
  if (0 <=? count) && (dest + count <=? blen t) && (src + count <=? blen t) then
    mret (take (Z.to_nat dest) t ++ take (Z.to_nat count) (drop (Z.to_nat src) t)
          ++ drop (Z.to_nat (dest + count)) t)
  else Undef.

(** [memcpy(&dest[dpos], &src[spos], count)]. *)
Definition array_copy (dest : block) (dpos : Z) (src : block) (spos count : Z) : outcome block :=
  if (0 <=? count) && (dpos + count <=? blen dest) && (spos + count <=? blen src) then
    mret (take (Z.to_nat dpos) dest ++ take (Z.to_nat count) (drop (Z.to_nat spos) src)
          ++ drop (Z.to_nat (dpos + count)) dest)
  else Undef.

(** [table[i] = p]. *)
Definition table_set (t : block) (i : Z) (p : option ref) : outcome block :=
  if (0 <=? i) && (i <? blen t) then mret (<[Z.to_nat i := p]> t) else Undef.

(** [table[i]], a pointer that was stored. *)
Definition table_get (t : block) (i : Z) : outcome ref :=
  if 0 <=? i then p ← deref (t !! Z.to_nat i); deref p else Undef.

Definition with_entries (n : Z) (t : block) (a : json_array_t) : json_array_t :=
  JsonArray (a_size a) n t (a_visited a).

(** ** Arrays *)

Definition json_array : SM heap ref :=
  _ ← lift (jsonp_malloc sizeof_array);
  _ ← lift (jsonp_malloc (8 * sizeof_pointer));
  json_init (Array (JsonArray 8 0 (replicate 8 None) 0)).

Definition json_array_size (json : option ref) : SM heap Z :=
  a ← json_to_array json;
  mret (match a with Some (_, a) => a_entries a | None => 0 end).

Definition json_array_get (json : option ref) (index : Z) : SM heap (option ref) :=
  a ← json_to_array json;
  match a with
  | Some (_, a) =>
    if a_entries a <=? index then mret None
    else p ← liftS (table_get (a_table a) index); mret (Some p)
  | None => mret None
  end.

(** The array at an address again, after calls that can change the heap. *)
Definition reload (a : Z) : SM heap json_array_t :=
  c ← get_cell a;
  match content c with Array t => mret t | _ => sundef end.

Definition json_array_set_new (json : option ref) (index : Z) (value : option ref) : SM heap unit :=
  match value with
  | None => sfail
  | Some _ =>
    t ← json_to_array json;
    match t with
    | None => reject value
    | Some (a, t) =>
      if bool_decide (json = value) then reject value
      else if a_entries t <=? index then reject value
      else
        old ← liftS (table_get (a_table t) index);
        _ ← json_decref (Some old);
        t ← reload a;
        tab ← liftS (table_set (a_table t) index value);
        put_content a (Array (with_entries (a_entries t) tab t))
    end
  end.

(** [json_array_grow(array, amount, 1)]: the pointers are copied. *)
Definition json_array_grow_copy (a amount : Z) : SM heap unit :=
  t ← reload a;
  if a_entries t + amount <=? a_size t then mret tt
  else
    let new_size := Z.max (a_size t + amount) (a_size t * 2) in
    _ ← lift (jsonp_malloc (new_size * sizeof_pointer));
    tab ← liftS (array_copy (replicate (Z.to_nat new_size) None) 0 (a_table t) 0 (a_entries t));
    put_content a (Array (JsonArray new_size (a_entries t) tab (a_visited t))).

(** [json_array_grow(array, amount, 0)]: the old table, when there is a new one
    that the caller has to fill. *)
Definition json_array_grow_nocopy (a amount : Z) : SM heap (option block) :=
  t ← reload a;
  if a_entries t + amount <=? a_size t then mret None
  else
    let new_size := Z.max (a_size t + amount) (a_size t * 2) in
    _ ← lift (jsonp_malloc (new_size * sizeof_pointer));
    _ ← put_content a (Array (JsonArray new_size (a_entries t)
                                (replicate (Z.to_nat new_size) None) (a_visited t)));
    mret (Some (a_table t)).

Definition json_array_append_new (json value : option ref) : SM heap unit :=
  match value with
  | None => sfail
  | Some _ =>
    t ← json_to_array json;
    match t with
    | None => reject value
    | Some (a, _) =>
      if bool_decide (json = value) then reject value
      else
        _ ← or_else (json_array_grow_copy a 1) (json_decref value);
        t ← reload a;
        tab ← liftS (table_set (a_table t) (a_entries t) value);
        put_content a (Array (with_entries (a_entries t + 1) tab t))
    end
  end.

Definition json_array_insert_new (json : option ref) (index : Z) (value : option ref) : SM heap unit :=
  match value with
  | None => sfail
  | Some _ =>
    t ← json_to_array json;
    match t with
    | None => reject value
    | Some (a, t) =>
      if bool_decide (json = value) then reject value
      else if a_entries t <? index then reject value
      else
        old_table ← or_else (json_array_grow_nocopy a 1) (json_decref value);
        t ← reload a;
        tab ← (match old_table with
               | Some old =>
                 tab ← liftS (array_copy (a_table t) 0 old 0 index);
                 liftS (array_copy tab (index + 1) old index (a_entries t - index))
               | None => liftS (array_move (a_table t) (index + 1) index (a_entries t - index))
               end);
        tab ← liftS (table_set tab index value);
        put_content a (Array (with_entries (a_entries t + 1) tab t))
    end
  end.

Definition json_array_remove (json : option ref) (index : Z) : SM heap unit :=
  t ← json_to_array json;
  match t with
  | None => sfail
  | Some (a, t) =>
    if a_entries t <=? index then sfail
    else
      old ← liftS (table_get (a_table t) index);
      _ ← json_decref (Some old);
      t ← reload a;
      tab ← liftS (array_move (a_table t) index (index + 1) (a_entries t - index));
      put_content a (Array (with_entries (a_entries t - 1) tab t))
  end.

(** The loop that releases the entries, from [i] on; the array is looked up
    again after each of them. *)
Fixpoint clear_entries (fuel : nat) (a i : Z) : SM heap unit :=
  t ← reload a;
  if a_entries t <=? i then mret tt
  else
    match fuel with
    | O => sundef
    | S fuel =>
      p ← liftS (table_get (a_table t) i);
      _ ← json_decref (Some p);
      clear_entries fuel a (i + 1)
    end.

Definition json_array_clear (json : option ref) : SM heap unit :=
  t ← json_to_array json;
  match t with
  | None => sfail
  | Some (a, t) =>
    _ ← clear_entries (Z.to_nat (a_entries t)) a 0;
    t ← reload a;
    put_content a (Array (with_entries 0 (a_table t) t))
  end.

Definition json_array_extend (json other_json : option ref) : SM heap unit :=
  t ← json_to_array json;
  o ← json_to_array other_json;
  match t, o with
  | Some (a, t), Some (b, o) =>
    _ ← json_array_grow_copy a (a_entries o);
    _ ← for_range 0 (a_entries o) (λ i (_ : unit),
          o ← reload b;
          p ← liftS (table_get (a_table o) i);
          _ ← json_incref (Some p);
          mret tt) tt;
    t ← reload a;
    o ← reload b;
    tab ← liftS (array_copy (a_table t) (a_entries t) (a_table o) 0 (a_entries o));
    put_content a (Array (with_entries (a_entries t + a_entries o) tab t))
  | _, _ => sfail
  end.

Definition json_array_set (json : option ref) (index : Z) (value : option ref) : SM heap unit :=
  value ← json_incref value; json_array_set_new json index value.

Definition json_array_append (json value : option ref) : SM heap unit :=
  value ← json_incref value; json_array_append_new json value.

Definition json_array_insert (json : option ref) (index : Z) (value : option ref) : SM heap unit :=
  value ← json_incref value; json_array_insert_new json index value.

(** ** Strings *)

Definition json_string_nocheck (value : option (list Z)) : SM heap ref :=
  match value with
  | None => sfail
  | Some value =>
    _ ← lift (jsonp_malloc sizeof_scalar);
    value ← lift (jsonp_strdup value);
    json_init (String_ value)
  end.

(** [value && utf8_check_string(value, -1)]. *)
Definition checked (value : option (list Z)) : SM heap bool :=
  match value with
  | None => mret false
  | Some value => liftS (utf8_check_string (value ++ [0]) (-1))
  end.

Definition json_string (value : option (list Z)) : SM heap ref :=
  ok ← checked value;
  if (ok : bool) then json_string_nocheck value else sfail.

Definition json_string_value (json : option ref) : SM heap (option (list Z)) :=
  s ← json_to_string json;
  mret (snd <$> s).

Definition json_string_set_nocheck (json : option ref) (value : option (list Z)) : SM heap unit :=
  s ← json_to_string json;
  match s, value with
  | Some (a, _), Some value =>
    dup ← lift (jsonp_strdup value);
    put_content a (String_ dup)
  | _, _ => sfail
  end.

Definition json_string_set (json : option ref) (value : option (list Z)) : SM heap unit :=
  ok ← checked value;
  if (ok : bool) then json_string_set_nocheck json value else sfail.

(** ** Numbers *)

Definition json_integer (value : Z) : SM heap ref :=
  _ ← lift (jsonp_malloc sizeof_scalar); json_init (Integer value).

Definition json_integer_value (json : option ref) : SM heap Z :=
  i ← json_to_integer json;
  mret (match i with Some (_, i) => i | None => 0 end).

Definition json_integer_set (json : option ref) (value : Z) : SM heap unit :=
  i ← json_to_integer json;
  match i with Some (a, _) => put_content a (Integer value) | None => sfail end.

Definition json_real (value : double) : SM heap ref :=
  if isnan value || isinf value then sfail
  else _ ← lift (jsonp_malloc sizeof_scalar); json_init (Real value).

Definition json_real_value (json : option ref) : SM heap double :=
  r ← json_to_real json;
  mret (match r with Some (_, r) => r | None => S754_zero false end).

Definition json_real_set (json : option ref) (value : double) : SM heap unit :=
  r ← json_to_real json;
  match r with
  | Some (a, _) => if isnan value || isinf value then sfail else put_content a (Real value)
  | None => sfail
  end.

(** [(double)value]: rounded to the nearest double. *)
Definition double_of_Z (value : Z) : double := binary_normalize 53 1024 value 0 false.

Definition json_number_value (json : option ref) : SM heap double :=
  i ← json_to_integer json;
  match i with
  | Some (_, i) => mret (double_of_Z i)
  | None => json_real_value json
  end.

Definition json_true : ref := the_true.
Definition json_false : ref := the_false.
Definition json_null : ref := the_null.

(** ** Comparison *)

(** The loops that stop at the first difference. *)
Fixpoint equal_members (equal : option ref → option ref → SM heap bool) (fuel : nat)
    (object1 object2 : option ref) (iter : option Z) : SM heap bool :=
  key ← json_object_iter_key object1 iter;
  match key with
  | None => mret true
  | Some key =>
    value1 ← json_object_iter_value object1 iter;
    match fuel with
    | O => sundef
    | S fuel =>
      value2 ← json_object_get object2 key;
      same ← equal value1 value2;
      if (same : bool) then
        iter ← json_object_iter_next object1 iter;
        equal_members equal fuel object1 object2 iter
      else mret false
    end
  end.

Definition json_object_equal (equal : option ref → option ref → SM heap bool)
    (object1 object2 : option ref) : SM heap bool :=
  n1 ← json_object_size object1;
  n2 ← json_object_size object2;
  if negb (n1 =? n2) then mret false
  else
    iter ← json_object_iter object1;
    equal_members equal (Z.to_nat n1) object1 object2 iter.

Fixpoint equal_entries (equal : option ref → option ref → SM heap bool) (n : nat) (i : Z)
    (array1 array2 : option ref) : SM heap bool :=
  match n with
  | O => mret true
  | S n =>
    value1 ← json_array_get array1 i;
    value2 ← json_array_get array2 i;
    same ← equal value1 value2;
    if (same : bool) then equal_entries equal n (i + 1) array1 array2 else mret false
  end.

Definition json_array_equal (equal : option ref → option ref → SM heap bool)
    (array1 array2 : option ref) : SM heap bool :=
  size ← json_array_size array1;
  size2 ← json_array_size array2;
  if negb (size =? size2) then mret false
  else equal_entries equal (Z.to_nat size) 0 array1 array2.

Definition json_string_equal (string1 string2 : option ref) : SM heap bool :=
  s1 ← json_string_value string1;
  s2 ← json_string_value string2;
  match s1, s2 with Some s1, Some s2 => mret (bool_decide (s1 = s2)) | _, _ => sundef end.

Definition json_integer_equal (integer1 integer2 : option ref) : SM heap bool :=
  i1 ← json_integer_value integer1;
  i2 ← json_integer_value integer2;
  mret (i1 =? i2).

Definition json_real_equal (real1 real2 : option ref) : SM heap bool :=
  r1 ← json_real_value real1;
  r2 ← json_real_value real2;
  mret (SFeqb r1 r2).

(** The recursion does not end on cyclic values. *)
Fixpoint json_equal (fuel : nat) (json1 json2 : option ref) : SM heap bool :=
  match json1, json2 with
  | Some j1, Some j2 =>
    t1 ← json_typeof j1;
    t2 ← json_typeof j2;
    if negb (bool_decide (t1 = t2)) then mret false
    else if bool_decide (json1 = json2) then mret true
    else
      match t1, fuel with
      | JSON_OBJECT, S fuel => json_object_equal (json_equal fuel) json1 json2
      | JSON_ARRAY, S fuel => json_array_equal (json_equal fuel) json1 json2
      | JSON_OBJECT, O | JSON_ARRAY, O => sundef
      | JSON_STRING, _ => json_string_equal json1 json2
      | JSON_INTEGER, _ => json_integer_equal json1 json2
      | JSON_REAL, _ => json_real_equal json1 json2
      | _, _ => mret false
      end
  | _, _ => mret false
  end.

(** ** Copies *)

Definition json_object_copy (object : option ref) : SM heap ref :=
  result ← json_object;
  _ ← json_object_foreach object (λ key value,
        ignore (json_object_set_nocheck (Some result) (Some key) (Some value)));
  mret result.

Definition json_array_copy (array : option ref) : SM heap ref :=
  result ← json_array;
  n ← json_array_size array;
  _ ← for_range 0 n (λ i (_ : unit),
        p ← json_array_get array i;
        ignore (json_array_append (Some result) p)) tt;
  mret result.

Definition json_string_copy (string : option ref) : SM heap ref :=
  value ← json_string_value string; json_string_nocheck value.

Definition json_integer_copy (integer : option ref) : SM heap ref :=
  value ← json_integer_value integer; json_integer value.

Definition json_real_copy (real : option ref) : SM heap ref :=
  value ← json_real_value real; json_real value.

Definition json_copy (json : option ref) : SM heap ref :=
  match json with
  | None => sfail
  | Some j =>
    t ← json_typeof j;
    match t with
    | JSON_OBJECT => json_object_copy json
    | JSON_ARRAY => json_array_copy json
    | JSON_STRING => json_string_copy json
    | JSON_INTEGER => json_integer_copy json
    | JSON_REAL => json_real_copy json
    | JSON_TRUE | JSON_FALSE | JSON_NULL => mret j
    end
  end.

(** A member or an element that cannot be copied is left out. *)
Definition json_object_deep_copy (deep_copy : option ref → SM heap ref) (object : option ref) : SM heap ref :=
  result ← json_object;
  _ ← json_object_foreach object (λ key value,
        copy ← attempt (deep_copy (Some value));
        ignore (json_object_set_new_nocheck (Some result) (Some key) copy));
  mret result.

Definition json_array_deep_copy (deep_copy : option ref → SM heap ref) (array : option ref) : SM heap ref :=
  result ← json_array;
  n ← json_array_size array;
  _ ← for_range 0 n (λ i (_ : unit),
        p ← json_array_get array i;
        copy ← attempt (deep_copy p);
        ignore (json_array_append_new (Some result) copy)) tt;
  mret result.

Fixpoint json_deep_copy (fuel : nat) (json : option ref) : SM heap ref :=
  match json with
  | None => sfail
  | Some j =>
    t ← json_typeof j;
    match t, fuel with
    | JSON_OBJECT, S fuel => json_object_deep_copy (json_deep_copy fuel) json
    | JSON_ARRAY, S fuel => json_array_deep_copy (json_deep_copy fuel) json
    | JSON_OBJECT, O | JSON_ARRAY, O => sundef
    | JSON_STRING, _ => json_string_copy json
    | JSON_INTEGER, _ => json_integer_copy json
    | JSON_REAL, _ => json_real_copy json
    | _, _ => mret j
    end
  end.
