(* ===== verification/JReal.v ===== *)
(** * Real numbers (jansson/strconv.c)

    Conversion between decimal text and doubles. [strtod] and the format
    ["%.17g"] of the C library are modelled for what the callers pass: decimal
    numbers, rounded to the nearest double with ties to even, and finite
    doubles, with 17 correctly rounded significant digits. The locale is "C". *)

From S2P Require Import Prelude CModel JBase JUtf JHash JValue.
From stdpp Require Import strings.
From Stdlib Require Import SpecFloat.
#[local] Open Scope Z_scope.

(** ** Rounding *)

(** The integer nearest to [n / d], the even one of two. *)
Definition div_half_even (n d : Z) : Z :=
  let q := n `div` d in
  let r := n `mod` d in
  if 2 * r <? d then q else if d <? 2 * r then q + 1 else if Z.even q then q else q + 1.

(** [n / d] divided by [b ^ e]. *)
Definition scale (b e n d : Z) : Z * Z := if 0 <=? e then (n, d * b ^ e) else (n * b ^ (- e), d).

(** The greatest [k] with [b ^ k <= n / d], from a lower bound [k] on. *)
Fixpoint find_exponent (fuel : nat) (b n d k : Z) : Z :=
  match fuel with
  | O => k
  | S fuel =>
    let '(n', d') := scale b (k + 1) n d in
    if d' <=? n' then find_exponent fuel b n d (k + 1) else k
  end.

(** *** binary64 *)

Definition EMIN : Z := -1074.
Definition EMAX : Z := 971.

(** The double nearest to [n / d], both positive. *)
Definition round_double (sign : bool) (n d : Z) : double :=
  let l := find_exponent 2 2 n d (Z.log2 n - Z.log2 d - 1) in
  let e := Z.max EMIN (l - 52) in
  let '(n', d') := scale 2 e n d in
  let m := div_half_even n' d' in
  let '(m, e) := if m =? 2 ^ 53 then (2 ^ 52, e + 1) else (m, e) in
  if EMAX <? e then S754_infinity sign
  else match m with Zpos p => S754_finite sign p e | _ => S754_zero sign end.

(** The double denotes exactly [n / d]. *)
Definition is_exact (x : double) (n d : Z) : bool :=
  match x with
  | S754_finite _ m e => let '(n', d') := scale 2 e n d in n' =? Zpos m * d'
  | _ => false
  end.

(** ** strtod *)

Definition digit (c : Z) : bool := (48 <=? c) && (c <=? 57).

(** The digits at the start of a text and the rest. *)
Fixpoint span_digits (s : list Z) : list Z * list Z :=
  match s with
  | c :: s' => if digit c then let '(ds, rest) := span_digits s' in (c :: ds, rest) else ([], s)
  | [] => ([], [])
  end.

Definition number (ds : list Z) : Z := foldl (λ acc c, acc * 10 + (c - 48)) 0 ds.

(** A sign and the rest. *)
Definition sign_of (s : list Z) : bool * list Z :=
  match s with
  | c :: s' => if c =? 45 then (true, s') else if c =? 43 then (false, s') else (false, s)
  | [] => (false, s)
  end.

(** The exponent part, when it is complete. *)
Definition exponent_of (s : list Z) : Z * list Z :=
  match s with
  | c :: s' =>
    if (c =? 101) || (c =? 69) then
      let '(neg, s'') := sign_of s' in
      match span_digits s'' with
      | ([], _) => (0, s)
      | (ds, rest) => ((if neg then - number ds else number ds), rest)
      end
    else (0, s)
  | [] => (0, s)
  end.

(** A decimal number [(-1)^sign * m * 10 ^ e] and what follows it. *)
Definition decimal_of (s : list Z) : (bool * Z * Z) * list Z :=
  let '(sign, s) := sign_of s in
  let '(ip, s) := span_digits s in
  let '(fp, s) := match s with
                  | c :: s' => if c =? 46 then span_digits s' else ([], s)
                  | [] => ([], s)
                  end in
  let '(e, s) := exponent_of s in
  ((sign, number (ip ++ fp), e - Z.of_nat (length fp)), s).

(** Numbers with an exponent outside [-400, 400] after scaling to one digit
    before the point are infinite or zero; they are not expanded. *)
Definition double_of_decimal (sign : bool) (m e : Z) : double :=
  if m =? 0 then S754_zero sign
  else if 400 <? Z.log2 m `div` 4 + e then S754_infinity sign
  else if Z.log2 m + e <? -400 then S754_zero sign
  else if 0 <=? e then round_double sign (m * 10 ^ e) 1
  else round_double sign m (10 ^ (- e)).

(** [errno == ERANGE]: the result overflows, or is too small to be exact. *)
Definition out_of_range (m e : Z) (x : double) : bool :=
  match x with
  | S754_infinity _ => true
  | S754_zero _ => negb (m =? 0)
  | S754_finite _ p _ =>
    (Zpos p <? 2 ^ 52) &&
    negb (if 0 <=? e then is_exact x (m * 10 ^ e) 1 else is_exact x m (10 ^ (- e)))
  | S754_nan => false
  end.

(** The value, whether [errno] is set, and the bytes used. *)
Definition strtod (s : list Z) : double * bool * Z :=
  let '((sign, m, e), rest) := decimal_of s in
  let x := double_of_decimal sign m e in
  (x, out_of_range m e x, Z.of_nat (length s) - Z.of_nat (length rest)).

Definition is_zero (x : double) : bool := match x with S754_zero _ => true | _ => false end.

(** [jsonp_strtod] on the text of the buffer; [None] is the result -1. *)
Definition jsonp_strtod (text : list Z) : outcome (option double) :=
  let '(value, erange, consumed) := strtod text in
  if negb (consumed =? Z.of_nat (length text)) then Undef
  else if (erange : bool) && negb (is_zero value) then mret None
  else mret (Some value).

(** ** "%.17g" *)

(** The decimal digits of a number, at least [n] of them. *)
Fixpoint decimal_digits (fuel : nat) (n : Z) (acc : list Z) : list Z :=
  match fuel with
  | O => acc
  | S fuel =>
    let acc := 48 + n `mod` 10 :: acc in
    if n <? 10 then acc else decimal_digits fuel (n `div` 10) acc
  end.

Definition digits_of (n : Z) : list Z := decimal_digits (S (Z.to_nat (Z.log2 n))) n [].

(** [n] written with [w] digits. *)
Fixpoint padded (w : nat) (n : Z) : list Z :=
  match w with
  | O => []
  | S w => padded w (n `div` 10) ++ [48 + n `mod` 10]
  end.

(** 17 significant digits and the decimal exponent of the first one. *)
Definition significant (n d : Z) : Z * Z :=
  let x := find_exponent 4 10 n d (((Z.log2 n - Z.log2 d - 1) * 30103) `div` 100000 - 1) in
  let '(n', d') := scale 10 (x - 16) n d in
  let q := div_half_even n' d' in
  if q =? 10 ^ 17 then (10 ^ 16, x + 1) else (q, x).

(** Trailing zeros and a point without digits behind it are dropped. *)
Fixpoint strip_zeros (s : list Z) : list Z :=
  match s with
  | [] => []
  | c :: s =>
    match strip_zeros s with
    | [] => if (c =? 48) then [] else [c]
    | s => c :: s
    end
  end.

Definition fraction (s : list Z) : list Z := match strip_zeros s with [] => [] | s => 46 :: s end.

Definition format_17g (x : double) : list Z :=
  let minus (s : bool) := if s then [45] else [] in
  match x with
  | S754_nan => str "nan"
  | S754_infinity s => minus s ++ str "inf"
  | S754_zero s => minus s ++ [48]
  | S754_finite s m e =>
    let '(n, d) := if 0 <=? e then (Zpos m * 2 ^ e, 1) else (Zpos m, 2 ^ (- e)) in
    let '(q, x) := significant n d in
    minus s ++
    if (-4 <=? x) && (x <? 17) then
      digits_of (q `div` 10 ^ (16 - x)) ++ fraction (padded (Z.to_nat (16 - x)) (q `mod` 10 ^ (16 - x)))
    else
      digits_of (q `div` 10 ^ 16) ++ fraction (padded 16 (q `mod` 10 ^ 16)) ++
      [101; (if x <? 0 then 45 else 43)] ++
      (if Z.abs x <? 10 then [48] else []) ++ digits_of (Z.abs x)
  end.

(** ** jsonp_dtostr *)

(** The position of the first [c], [strchr] on the text of a buffer. *)
Fixpoint position (c : Z) (s : list Z) : option nat :=
  match s with
  | [] => None
  | x :: s => if x =? c then Some O else S <$> position c s
  end.

Definition contains (c : Z) (s : list Z) : bool := match position c s with Some _ => true | None => false end.

(** The zeros from position [i] on. *)
Fixpoint skip_zeros (s : list Z) : list Z :=
  match s with
  | c :: s' => if c =? 48 then skip_zeros s' else s
  | [] => []
  end.

(** The exponent [s] behind the letter without a plus sign and leading zeros. *)
Definition trim_exponent (s : list Z) : list Z :=
  match s with
  | [] => []
  | c :: s' => if c =? 45 then c :: skip_zeros s' else skip_zeros s'
  end.

(** The text that the buffer of [size] bytes holds, [None] for the result -1. *)
Definition jsonp_dtostr (size : Z) (value : double) : option (list Z) :=
  let buffer := format_17g value in
  let length_ := Z.of_nat (length buffer) in
  if size <=? length_ then None
  else
    let buffer :=
      if negb (contains 46 buffer) && negb (contains 101 buffer) then
        if size <=? length_ + 3 then None else Some (buffer ++ [46; 48])
      else Some buffer in
    match buffer with
    | None => None
    | Some buffer =>
      match position 101 buffer with
      | None => Some buffer
      | Some i => Some (take (S i) buffer ++ trim_exponent (drop (S i) buffer))
      end
    end.
