(* ===== verification/JLex.v ===== *)
(** * The lexical analyser (jansson/load.c, jansson/error.c)

    Bytes come from a source through its [get] function; the stream checks that
    they are UTF-8, counts lines and columns, and can put the last character
    back. Characters are [char]s, which are signed, as in the code. The loops
    over input consume a character in every round and carry fuel for it. A
    failing [assert] is undefined. *)

From S2P Require Import Prelude CModel JBase JUtf JStrbuf JHash JValue JArray JReal.
From stdpp Require Import strings.
From Stdlib Require Import SpecFloat.
#[local] Open Scope Z_scope.

(** ** Sources

    [source_get] returns the next byte as an [unsigned char] or EOF. *)
Definition EOF : Z := -1.

Class Source (D : Type) := source_get : D → Z * D.

(** [string_get]: the bytes of a string up to its NUL, which need not be given
    when it is the last one. *)
Record string_data_t := StringData { sd_data : list Z; sd_pos : nat }.

Definition string_get (s : string_data_t) : Z * string_data_t :=
  match sd_data s !! sd_pos s with
  | None => (EOF, s)
  | Some c => if c =? 0 then (EOF, s) else (c, StringData (sd_data s) (S (sd_pos s)))
  end.

#[export] Instance string_source : Source string_data_t := string_get.

(** [buffer_get]: [len] bytes, which the caller of [json_loadb] must have. *)
Record buffer_data_t := BufferData { bd_data : list Z; bd_len : Z; bd_pos : nat }.

Definition buffer_get (s : buffer_data_t) : Z * buffer_data_t :=
  if bd_len s <=? Z.of_nat (bd_pos s) then (EOF, s)
  else (bd_data s !!! bd_pos s, BufferData (bd_data s) (bd_len s) (S (bd_pos s))).

#[export] Instance buffer_source : Source buffer_data_t := buffer_get.

(** [callback_get]: the callback of the user fills a buffer of 1024 bytes. It is
    given by the results of its calls to come: the bytes that it stores, which
    are followed by those of earlier calls, or [None] for the result -1. *)
Record callback_data_t := CallbackData {
  cd_callback : list (option (list Z));
  cd_data : list Z;
  cd_len : Z;
  cd_pos : nat
}.

Definition callback_fill (s : callback_data_t) : callback_data_t :=
  match cd_callback s with
  | [] => CallbackData [] (cd_data s) 0 0
  | None :: l => CallbackData l (cd_data s) (2 ^ 64 - 1) 0
  | Some bytes :: l =>
    CallbackData l (bytes ++ drop (length bytes) (cd_data s)) (Z.of_nat (length bytes)) 0
  end.

Definition callback_read (s : callback_data_t) : Z * callback_data_t :=
  (cd_data s !!! cd_pos s,
   CallbackData (cd_callback s) (cd_data s) (cd_len s) (S (cd_pos s))).

Definition callback_get (s : callback_data_t) : Z * callback_data_t :=
  if cd_len s <=? Z.of_nat (cd_pos s) then
    let s := callback_fill s in
    if (cd_len s =? 0) || (cd_len s =? 2 ^ 64 - 1) then (EOF, s) else callback_read s
  else callback_read s.

#[export] Instance callback_source : Source callback_data_t := callback_get.

(** ** Constants *)

Definition STREAM_STATE_OK : Z := 0.
Definition STREAM_STATE_EOF : Z := -1.
Definition STREAM_STATE_ERROR : Z := -2.

Definition TOKEN_INVALID : Z := -1.
Definition TOKEN_EOF : Z := 0.
Definition TOKEN_STRING : Z := 256.
Definition TOKEN_INTEGER : Z := 257.
Definition TOKEN_REAL : Z := 258.
Definition TOKEN_TRUE : Z := 259.
Definition TOKEN_FALSE : Z := 260.
Definition TOKEN_NULL : Z := 261.

Definition l_isupper (c : Z) : bool := (65 <=? c) && (c <=? 90).
Definition l_islower (c : Z) : bool := (97 <=? c) && (c <=? 122).
Definition l_isalpha (c : Z) : bool := l_isupper c || l_islower c.
Definition l_isdigit (c : Z) : bool := (48 <=? c) && (c <=? 57).
(** As the macro is written. *)
Definition l_isxdigit (c : Z) : bool :=
  l_isdigit c || (65 <=? c) || (c <=? 70) || (97 <=? c) || (c <=? 102).

(** ** State *)

Record stream_t (D : Type) := Stream {
  st_data : D;
  st_buffer : carray;         (* char buffer[5] *)
  st_buffer_pos : Z;
  st_state : Z;
  st_line : Z;
  st_column : Z;
  st_last_column : Z;
  st_position : Z
}.
Arguments Stream {D} _ _ _ _ _ _ _ _.
Arguments st_data {D} _.
Arguments st_buffer {D} _.
Arguments st_buffer_pos {D} _.
Arguments st_state {D} _.
Arguments st_line {D} _.
Arguments st_column {D} _.
Arguments st_last_column {D} _.
Arguments st_position {D} _.

(** The union of the values of a token. *)
Inductive lex_value :=
  | VString (s : option (list Z))
  | VInteger (i : Z)
  | VReal (r : double).

Definition JSON_ERROR_TEXT_LENGTH : Z := 160.
Definition JSON_ERROR_SOURCE_LENGTH : Z := 80.

Record json_error_t := JsonError {
  e_line : Z;
  e_column : Z;
  e_position : Z;
  e_source : list Z;
  e_text : list Z
}.

(** The lexer, the error structure of the caller, which can be NULL, and the
    heap of values. *)
Record context (D : Type) := Context {
  stream : stream_t D;
  saved_text : strbuffer_t;
  token : Z;
  value : lex_value;
  error : option json_error_t;
  values : heap
}.
Arguments Context {D} _ _ _ _ _ _.
Arguments stream {D} _.
Arguments saved_text {D} _.
Arguments token {D} _.
Arguments value {D} _.
Arguments error {D} _.
Arguments values {D} _.

(** ** Errors (error.c) *)

(** [snprintf] into a text of [n] bytes with its NUL. *)
Definition truncated (n : Z) (s : list Z) : list Z := take (Z.to_nat (n - 1)) s.

Definition jsonp_error_set_source (source : list Z) (e : json_error_t) : json_error_t :=
  let length_ := Z.of_nat (length source) in
  JsonError (e_line e) (e_column e) (e_position e)
    (if length_ <? JSON_ERROR_SOURCE_LENGTH then source
     else let extra := length_ - JSON_ERROR_SOURCE_LENGTH + 4 in
          str "..." ++ drop (Z.to_nat extra) source)
    (e_text e).

Definition jsonp_error_init (source : list Z) (e : option json_error_t) : option json_error_t :=
  (λ e, jsonp_error_set_source source (JsonError (-1) (-1) 0 (e_source e) [])) <$> e.

(** The first error is kept. *)
Definition jsonp_error_set (line column position : Z) (text : list Z) (e : option json_error_t)
    : option json_error_t :=
  (λ e, match e_text e with
        | [] => JsonError line column position (e_source e) (truncated JSON_ERROR_TEXT_LENGTH text)
        | _ => e
        end) <$> e.

(** The string in a block, from byte [i] on. *)
Fixpoint cstring (fuel : nat) (a : carray) (i : Z) : outcome (list Z) :=
  match fuel with
  | O => Undef
  | S fuel => c ← aget a i; if c =? 0 then mret [] else s ← cstring fuel a (i + 1); mret (c :: s)
  end.

(** ["%x"] and ["%04X"]. *)
Definition hex_digit (ten d : Z) : Z := if d <? 10 then 48 + d else ten + (d - 10).

Definition hex (c : Z) : list Z :=
  (if c <? 16 then [] else [hex_digit 97 (c `div` 16)]) ++ [hex_digit 97 (c `mod` 16)].

Definition hex4 (ten v : Z) : list Z :=
  [hex_digit ten ((v `div` 4096) `mod` 16); hex_digit ten ((v `div` 256) `mod` 16);
   hex_digit ten ((v `div` 16) `mod` 16); hex_digit ten (v `mod` 16)].

Section lexer.
Context {D : Type} `{Source D}.
Abbreviation context := (context D).

Definition get_stream : SM context (stream_t D) := x ← get; mret (stream x).
Definition put_stream (s : stream_t D) : SM context unit :=
  x ← get; put (Context s (saved_text x) (token x) (value x) (error x) (values x)).
Definition put_token (t : Z) : SM context unit :=
  x ← get; put (Context (stream x) (saved_text x) t (value x) (error x) (values x)).
Definition put_value (v : lex_value) : SM context unit :=
  x ← get; put (Context (stream x) (saved_text x) (token x) v (error x) (values x)).
Definition put_error (e : option json_error_t) : SM context unit :=
  x ← get; put (Context (stream x) (saved_text x) (token x) (value x) e (values x)).

(** Statements on the text and on the values. *)
Definition on_saved {A} (m : SM strbuffer_t A) : SM context A :=
  zoom saved_text (λ b x, Context (stream x) b (token x) (value x) (error x) (values x)) m.
Definition on_heap {A} (m : SM heap A) : SM context A :=
  zoom values (λ h x, Context (stream x) (saved_text x) (token x) (value x) (error x) h) m.

(** [error_set(error, lex, ...)] with the formatted message. *)
Definition error_set (msg : list Z) : SM context unit :=
  x ← get;
  match error x with
  | None => mret tt
  | Some _ =>
    let msg_text := truncated JSON_ERROR_TEXT_LENGTH msg in
    text ← liftS (match sb_value (saved_text x) with
                  | None => mret []
                  | Some a => cstring (Z.to_nat (sb_size (saved_text x))) a 0
                  end);
    let result :=
      match text with
      | [] => if st_state (stream x) =? STREAM_STATE_ERROR then msg_text
              else truncated JSON_ERROR_TEXT_LENGTH (msg_text ++ str " near end of file")
      | _ => if sb_length (saved_text x) <=? 20
             then truncated JSON_ERROR_TEXT_LENGTH (msg_text ++ str " near '" ++ text ++ str "'")
             else msg_text
      end in
    put_error (jsonp_error_set (st_line (stream x)) (st_column (stream x)) (st_position (stream x))
                 result (error x))
  end.

(** ** Streams *)

Definition stream_init (data : D) : outcome (stream_t D) :=
  buffer ← aset 0 0 (anew 5);
  mret (Stream data buffer 0 STREAM_STATE_OK 1 0 0 0).

(** The bytes of a sequence behind its first one, to [buffer[i]] .. *)
Fixpoint read_sequence (n : nat) (i : Z) (data : D) (buffer : carray) : outcome (D * carray) :=
  match n with
  | O => mret (data, buffer)
  | S n =>
    let '(c, data) := source_get data in
    buffer ← aset i (u8 c) buffer;
    read_sequence n (i + 1) data buffer
  end.

(** The bytes of a block. *)
Fixpoint buffer_bytes (n : nat) (i : Z) (a : carray) : outcome (list Z) :=
  match n with
  | O => mret []
  | S n => c ← aget a i; l ← buffer_bytes n (i + 1) a; mret (c :: l)
  end.

(** Fill the buffer with the next character; the result tells whether there is
    one, otherwise what [stream_get] returns. *)
Definition stream_fill : SM context (option Z) :=
  s ← get_stream;
  let '(c, data) := source_get (st_data s) in
  if c =? EOF then
    _ ← put_stream (Stream data (st_buffer s) (st_buffer_pos s) STREAM_STATE_EOF (st_line s)
                      (st_column s) (st_last_column s) (st_position s));
    mret (Some STREAM_STATE_EOF)
  else
    buffer ← liftS (aset 0 (u8 c) (st_buffer s));
    let out data buffer :=
      _ ← put_stream (Stream data buffer 0 STREAM_STATE_ERROR (st_line s)
                        (st_column s) (st_last_column s) (st_position s));
      _ ← error_set (str "unable to decode byte 0x" ++ hex c);
      mret (Some STREAM_STATE_ERROR) in
    if (0x80 <=? c) && (c <=? 0xFF) then
      let count := utf8_check_first c in
      if count =? 0 then out data buffer
      else
        _ ← assert (2 <=? count);
        '(data, buffer) ← liftS (read_sequence (Z.to_nat (count - 1)) 1 data buffer);
        bytes ← liftS (buffer_bytes (Z.to_nat count) 0 buffer);
        full ← liftS (utf8_check_full bytes count);
        match full with
        | None => out data buffer
        | Some _ =>
          buffer ← liftS (aset count 0 buffer);
          _ ← put_stream (Stream data buffer 0 (st_state s) (st_line s)
                            (st_column s) (st_last_column s) (st_position s));
          mret None
        end
    else
      buffer ← liftS (aset 1 0 buffer);
      _ ← put_stream (Stream data buffer 0 (st_state s) (st_line s)
                        (st_column s) (st_last_column s) (st_position s));
      mret None.

Definition stream_get : SM context Z :=
  s ← get_stream;
  if negb (st_state s =? STREAM_STATE_OK) then mret (st_state s)
  else
    c ← liftS (aget (st_buffer s) (st_buffer_pos s));
    filled ← (if c =? 0 then stream_fill else mret None);
    match filled with
    | Some c => mret c
    | None =>
      s ← get_stream;
      b ← liftS (aget (st_buffer s) (st_buffer_pos s));
      let c := s8 b in
      let pos := st_buffer_pos s + 1 in
      let position := st_position s + 1 in
      _ ← put_stream
        (if c =? 10 then Stream (st_data s) (st_buffer s) pos (st_state s) (st_line s + 1) 0
                           (st_column s) position
         else Stream (st_data s) (st_buffer s) pos (st_state s) (st_line s)
                (if utf8_check_first c =? 0 then st_column s else st_column s + 1)
                (st_last_column s) position);
      mret c
    end.

Definition stream_unget (c : Z) : SM context unit :=
  if (c =? STREAM_STATE_EOF) || (c =? STREAM_STATE_ERROR) then mret tt
  else
    s ← get_stream;
    let position := st_position s - 1 in
    let '(line, column) :=
      if c =? 10 then (st_line s - 1, st_last_column s)
      else (st_line s, if utf8_check_first c =? 0 then st_column s else st_column s - 1) in
    _ ← assert (0 <? st_buffer_pos s);
    let pos := st_buffer_pos s - 1 in
    b ← liftS (aget (st_buffer s) pos);
    _ ← assert (s8 b =? c);
    put_stream (Stream (st_data s) (st_buffer s) pos (st_state s) line column (st_last_column s) position).

(** ** Characters *)

Definition lex_get : SM context Z := stream_get.

(** The result of the append is ignored. *)
Definition lex_save (c : Z) : SM context unit := ignore (on_saved (strbuffer_append_byte c)).

Definition lex_get_save : SM context Z :=
  c ← stream_get;
  _ ← (if (c =? STREAM_STATE_EOF) || (c =? STREAM_STATE_ERROR) then mret tt else lex_save c);
  mret c.

Definition lex_unget (c : Z) : SM context unit := stream_unget c.

Definition lex_unget_unsave (c : Z) : SM context unit :=
  if (c =? STREAM_STATE_EOF) || (c =? STREAM_STATE_ERROR) then mret tt
  else
    _ ← stream_unget c;
    d ← on_saved strbuffer_pop;
    assert (c =? d).

(** The rest of the character in the buffer, of at most four bytes. *)
Fixpoint save_cached (n : nat) : SM context unit :=
  match n with
  | O => sundef
  | S n =>
    s ← get_stream;
    b ← liftS (aget (st_buffer s) (st_buffer_pos s));
    if b =? 0 then mret tt
    else
      _ ← lex_save (s8 b);
      _ ← put_stream (Stream (st_data s) (st_buffer s) (st_buffer_pos s + 1) (st_state s) (st_line s)
                        (st_column s) (st_last_column s) (st_position s + 1));
      save_cached n
  end.

Definition lex_save_cached : SM context unit := save_cached 6.

(** [while(test(c)) c = lex_get_save(lex, error)]. *)
Fixpoint get_save_while (test : Z → bool) (fuel : nat) (c : Z) : SM context Z :=
  if test c then
    match fuel with
    | O => sundef
    | S fuel => c ← lex_get_save; get_save_while test fuel c
    end
  else mret c.
End lexer.
