(* ===== verification/JScan.v ===== *)
(** * Tokens (jansson/load.c)

    Strings with their escapes, numbers and words. *)

From S2P Require Import Prelude CModel JBase JUtf JStrbuf JHash JValue JArray JReal JLex.
From stdpp Require Import strings.
From Stdlib Require Import SpecFloat.
#[local] Open Scope Z_scope.

Section scanner.
Context {D : Type} `{Source D}.
Abbreviation context := (context D).

(** ** Strings *)

(** The character [buffer[i]] as a [char]. *)
Definition char_at (a : carray) (i : Z) : outcome Z := c ← aget a i; mret (s8 c).

(** The loop of [decode_unicode_escape] over the characters from [i] on. *)
Fixpoint decode_hex (n : nat) (a : carray) (i value : Z) : outcome Z :=
  match n with
  | O => mret value
  | S n =>
    c ← char_at a i;
    let value := Z.shiftl value 4 in
    if l_isdigit c then decode_hex n a (i + 1) (value + (c - 48))
    else if l_islower c then decode_hex n a (i + 1) (value + (c - 97 + 10))
    else if l_isupper c then decode_hex n a (i + 1) (value + (c - 65 + 10))
    else Undef
  end.

Definition decode_unicode_escape (a : carray) (str : Z) : outcome Z :=
  c ← char_at a str;
  if c =? 117 then decode_hex 4 a (str + 1) 0 else Undef.

(** The loop over the input up to the closing quote. The result tells whether
    it was found. *)
Fixpoint scan_hex (n : nat) (c : Z) : SM context (option Z) :=
  match n with
  | O => mret (Some c)
  | S n =>
    if negb (l_isxdigit c) then
      _ ← error_set (str "invalid escape"); mret None
    else c ← lex_get_save; scan_hex n c
  end.

Definition is_escape (c : Z) : bool :=
  (c =? 34) || (c =? 92) || (c =? 47) || (c =? 98) || (c =? 102) || (c =? 110) || (c =? 114) || (c =? 116).

Fixpoint scan_chars (fuel : nat) (c : Z) : SM context bool :=
  if c =? 34 then mret true
  else if c =? STREAM_STATE_ERROR then mret false
  else if c =? STREAM_STATE_EOF then
    _ ← error_set (str "premature end of input"); mret false
  else if (0 <=? c) && (c <=? 0x1F) then
    _ ← lex_unget_unsave c;
    _ ← error_set (if c =? 10 then str "unexpected newline" else str "control character 0x" ++ hex c);
    mret false
  else
    next_char ←
      (if c =? 92 then
         c ← lex_get_save;
         if c =? 117 then c ← lex_get_save; scan_hex 4 c
         else if is_escape c then c ← lex_get_save; mret (Some c)
         else _ ← error_set (str "invalid escape"); mret None
       else c ← lex_get_save; mret (Some c));
    match next_char, fuel with
    | None, _ => mret false
    | Some _, O => sundef
    | Some c, S fuel => scan_chars fuel c
    end.

(** [*t++ = c] into a block of [size] bytes that already holds [t]. *)
Definition put_char (size : Z) (t : list Z) (c : Z) : outcome (list Z) :=
  if Z.of_nat (length t) <? size then mret (t ++ [c]) else Undef.

Definition put_chars (size : Z) (t s : list Z) : outcome (list Z) :=
  foldM (λ c t, put_char size t c) s t.

(** The code point of an escape at [p], which points to the [u], and the
    position behind it; an error message otherwise. *)
Definition unicode_escape (a : carray) (p : Z) : outcome (Z * Z + list Z) :=
  value ← decode_unicode_escape a p;
  let p := p + 5 in
  if (0xD800 <=? value) && (value <=? 0xDBFF) then
    c0 ← char_at a p;
    c1 ← (if c0 =? 92 then char_at a (p + 1) else mret 0);
    if (c0 =? 92) && (c1 =? 117) then
      value2 ← decode_unicode_escape a (p + 1);
      let p := p + 6 in
      if (0xDC00 <=? value2) && (value2 <=? 0xDFFF) then
        mret (inl (Z.shiftl (value - 0xD800) 10 + (value2 - 0xDC00) + 0x10000, p))
      else mret (inr (str "invalid Unicode '\u" ++ hex4 65 value ++ str "\u" ++ hex4 65 value2 ++ str "'"))
    else mret (inr (str "invalid Unicode '\u" ++ hex4 65 value ++ str "'"))
  else if (0xDC00 <=? value) && (value <=? 0xDFFF) then
    mret (inr (str "invalid Unicode '\u" ++ hex4 65 value ++ str "'"))
  else if value =? 0 then mret (inr (str "\u0000 is not allowed"))
  else mret (inl (value, p)).

(** The character that a short escape stands for. *)
Definition short_escape (c : Z) : option Z :=
  if (c =? 34) || (c =? 92) || (c =? 47) then Some c
  else if c =? 98 then Some 8
  else if c =? 102 then Some 12
  else if c =? 110 then Some 10
  else if c =? 114 then Some 13
  else if c =? 116 then Some 9
  else None.

(** The loop that copies the text from [p] on to a block of [size] bytes. *)
Fixpoint unescape (fuel : nat) (a : carray) (size p : Z) (t : list Z) : outcome (list Z + list Z) :=
  c ← char_at a p;
  if c =? 34 then mret (inl t)
  else
    match fuel with
    | O => Undef
    | S fuel =>
      if c =? 92 then
        let p := p + 1 in
        c ← char_at a p;
        if c =? 117 then
          r ← unicode_escape a p;
          match r with
          | inr msg => mret (inr msg)
          | inl (value, p) =>
            bytes ← deref (utf8_encode value);
            t ← put_chars size t bytes;
            unescape fuel a size p t
          end
        else
          e ← deref (short_escape c);
          t ← put_char size t e;
          unescape fuel a size (p + 1) t
      else
        t ← put_char size t (u8 c);
        unescape fuel a size (p + 1) t
    end.

Definition lex_scan_string (fuel : nat) : SM context unit :=
  _ ← put_value (VString None);
  _ ← put_token TOKEN_INVALID;
  c ← lex_get_save;
  found ← scan_chars fuel c;
  if negb found then mret tt
  else
    x ← get;
    let size := sb_length (saved_text x) + 1 in
    allocated ← attempt (lift (jsonp_malloc size));
    match allocated with
    | None => mret tt
    | Some _ =>
      a ← liftS (deref (strbuffer_value (saved_text x)));
      r ← liftS (unescape (Z.to_nat size) a size 1 []);
      match r with
      | inr msg => error_set msg   (* the block is freed behind [out] *)
      | inl t =>
        _ ← liftS (put_char size t 0);
        _ ← put_value (VString (Some t));
        put_token TOKEN_STRING
      end
    end.

(** ** Numbers *)

Definition LLONG_MAX : Z := 2 ^ 63 - 1.
Definition LLONG_MIN : Z := - 2 ^ 63.

(** [strtoll(s, &end, 10)]: the value, [errno == ERANGE] and the bytes used. *)
Definition strtoll (s : list Z) : Z * bool * Z :=
  let '(neg, s') := sign_of s in
  let '(ds, rest) := span_digits s' in
  match ds with
  | [] => (0, false, 0)
  | _ =>
    let v := if neg then - number ds else number ds in
    let used := Z.of_nat (length s) - Z.of_nat (length rest) in
    if LLONG_MAX <? v then (LLONG_MAX, true, used)
    else if v <? LLONG_MIN then (LLONG_MIN, true, used)
    else (v, false, used)
  end.

(** The saved text as a string. *)
Definition saved_string : SM context (list Z) :=
  x ← get;
  a ← liftS (deref (strbuffer_value (saved_text x)));
  liftS (cstring (Z.to_nat (sb_size (saved_text x))) a 0).

Definition scan_integer (c : Z) : SM context bool :=
  _ ← lex_unget_unsave c;
  text ← saved_string;
  let '(v, erange, used) := strtoll text in
  if (erange : bool) then
    _ ← error_set (if v <? 0 then str "too big negative integer" else str "too big integer");
    mret false
  else
    x ← get;
    _ ← assert (used =? sb_length (saved_text x));
    _ ← put_token TOKEN_INTEGER;
    _ ← put_value (VInteger v);
    mret true.

(** The fraction; [None] for [goto out]. *)
Definition scan_fraction (fuel : nat) (c : Z) : SM context (option Z) :=
  if c =? 46 then
    c ← lex_get;
    if negb (l_isdigit c) then _ ← lex_unget c; mret None
    else
      _ ← lex_save c;
      c ← lex_get_save;
      c ← get_save_while l_isdigit fuel c;
      mret (Some c)
  else mret (Some c).

Definition scan_exponent (fuel : nat) (c : Z) : SM context (option Z) :=
  if (c =? 69) || (c =? 101) then
    c ← lex_get_save;
    c ← (if (c =? 43) || (c =? 45) then lex_get_save else mret c);
    if negb (l_isdigit c) then _ ← lex_unget_unsave c; mret None
    else
      c ← lex_get_save;
      c ← get_save_while l_isdigit fuel c;
      mret (Some c)
  else mret (Some c).

Definition scan_real (fuel : nat) (c : Z) : SM context bool :=
  r ← scan_fraction fuel c;
  match r with
  | None => mret false
  | Some c =>
    r ← scan_exponent fuel c;
    match r with
    | None => mret false
    | Some c =>
      _ ← lex_unget_unsave c;
      text ← saved_string;
      v ← liftS (jsonp_strtod text);
      match v with
      | None => _ ← error_set (str "real number overflow"); mret false
      | Some v => _ ← put_token TOKEN_REAL; _ ← put_value (VReal v); mret true
      end
    end
  end.

(** [true] for the result 0. *)
Definition lex_scan_number (fuel : nat) (c : Z) : SM context bool :=
  _ ← put_token TOKEN_INVALID;
  c ← (if c =? 45 then lex_get_save else mret c);
  integer ←
    (if c =? 48 then
       c ← lex_get_save;
       if l_isdigit c then _ ← lex_unget_unsave c; mret None else mret (Some c)
     else if l_isdigit c then
       c ← lex_get_save;
       c ← get_save_while l_isdigit fuel c;
       mret (Some c)
     else _ ← lex_unget_unsave c; mret None);
  match integer with
  | None => mret false
  | Some c =>
    if negb (c =? 46) && negb (c =? 69) && negb (c =? 101) then scan_integer c
    else scan_real fuel c
  end.

(** ** Tokens *)

Definition is_space (c : Z) : bool := (c =? 32) || (c =? 9) || (c =? 10) || (c =? 13).

(** [while(c == ' ' || ...) c = lex_get(lex, error)]. *)
Fixpoint skip_spaces (fuel : nat) (c : Z) : SM context Z :=
  if is_space c then
    match fuel with
    | O => sundef
    | S fuel => c ← lex_get; skip_spaces fuel c
    end
  else mret c.

Definition is_punctuation (c : Z) : bool :=
  (c =? 123) || (c =? 125) || (c =? 91) || (c =? 93) || (c =? 58) || (c =? 44).

Definition word_token (text : list Z) : Z :=
  if bool_decide (text = str "true") then TOKEN_TRUE
  else if bool_decide (text = str "false") then TOKEN_FALSE
  else if bool_decide (text = str "null") then TOKEN_NULL
  else TOKEN_INVALID.

Definition scan_word (fuel : nat) : SM context unit :=
  c ← lex_get_save;
  c ← get_save_while l_isalpha fuel c;
  _ ← lex_unget_unsave c;
  text ← saved_string;
  put_token (word_token text).

Definition lex_scan (fuel : nat) : SM context Z :=
  _ ← on_saved strbuffer_clear;
  x ← get;
  _ ← (if token x =? TOKEN_STRING then put_value (VString None) else mret tt);
  c ← lex_get;
  c ← skip_spaces fuel c;
  _ ← (if c =? STREAM_STATE_EOF then put_token TOKEN_EOF
       else if c =? STREAM_STATE_ERROR then put_token TOKEN_INVALID
       else
         _ ← lex_save c;
         if is_punctuation c then put_token c
         else if c =? 34 then lex_scan_string fuel
         else if l_isdigit c || (c =? 45) then _ ← lex_scan_number fuel c; mret tt
         else if l_isalpha c then scan_word fuel
         else _ ← lex_save_cached; put_token TOKEN_INVALID);
  x ← get;
  mret (token x).

(** The string of the token, which the caller owns from now on. *)
Definition lex_steal_string : SM context (option (list Z)) :=
  x ← get;
  if token x =? TOKEN_STRING then
    match value x with
    | VString s => _ ← put_value (VString None); mret s
    | _ => sundef
    end
  else mret None.

(** The lexer for a source, over the error structure and the values of the
    caller. *)
Definition lex_init (data : D) (e : option json_error_t) (h : heap) : M context :=
  s ← liftO (stream_init data);
  '(_, saved) ← run_on (Strbuffer None 0 0) strbuffer_init;
  mret (Context s saved TOKEN_INVALID (VString None) e h).

(** [lex_close]: the text is released. *)
Definition lex_close : SM context unit := on_saved strbuffer_close.
End scanner.
