(* ===== verification/JLoad.v ===== *)
(** * The parser (jansson/load.c)

    Recursive descent over the tokens. The recursion and the loops carry fuel:
    every round reads a token. *)

From S2P Require Import Prelude CModel JBase JUtf JStrbuf JHash JValue JArray JReal JLex JScan.
From stdpp Require Import strings.
From Stdlib Require Import SpecFloat.
#[local] Open Scope Z_scope.

Definition JSON_REJECT_DUPLICATES : Z := 0x1.
Definition JSON_DISABLE_EOF_CHECK : Z := 0x2.
Definition JSON_DECODE_ANY : Z := 0x4.

Definition has (flags flag : Z) : bool := truth (Z.land flags flag).

Section parser.
Context {D : Type} `{Source D}.
Abbreviation context := (context D).

Section nested.
(** [parse_value] one level below and the fuel of the loops. *)
Context (parse_value : SM context ref) (fuel : nat) (flags : Z).

(** [goto error]: release the value under construction. *)
Definition abandon {A} (json : ref) : SM context A :=
  _ ← on_heap (json_decref (Some json)); sfail.

(** The body of the loop of [parse_object]; the result tells whether a comma
    follows. *)
Definition object_member (object : ref) : SM context bool :=
  x ← get;
  if negb (token x =? TOKEN_STRING) then
    _ ← error_set (str "string or '}' expected"); abandon object
  else
    key ← lex_steal_string;
    match key with
    | None => sfail
    | Some key =>
      duplicate ← (if has flags JSON_REJECT_DUPLICATES
                   then old ← on_heap (json_object_get (Some object) key);
                        mret (match old with Some _ => true | None => false end)
                   else mret false);
      if (duplicate : bool) then
        _ ← error_set (str "duplicate object key"); abandon object
      else
        t ← lex_scan fuel;
        if negb (t =? 58) then
          _ ← error_set (str "':' expected"); abandon object
        else
          _ ← lex_scan fuel;
          v ← attempt parse_value;
          match v with
          | None => abandon object
          | Some v =>
            _ ← or_else (on_heap (json_object_set_nocheck (Some object) (Some key) (Some v)))
                  (_ ← on_heap (json_decref (Some v)); on_heap (json_decref (Some object)));
            _ ← on_heap (json_decref (Some v));
            t ← lex_scan fuel;
            if negb (t =? 44) then mret false
            else _ ← lex_scan fuel; mret true
          end
    end.

Fixpoint object_loop (n : nat) (object : ref) : SM context unit :=
  more ← object_member object;
  if (more : bool) then
    match n with
    | O => sundef
    | S n => object_loop n object
    end
  else mret tt.

Definition parse_object : SM context ref :=
  object ← on_heap json_object;
  t ← lex_scan fuel;
  if t =? 125 then mret object
  else
    _ ← object_loop fuel object;
    x ← get;
    if negb (token x =? 125) then
      _ ← error_set (str "'}' expected"); abandon object
    else mret object.

(** The loop of [parse_array]. *)
Fixpoint array_loop (n : nat) (array : ref) : SM context unit :=
  x ← get;
  if token x =? TOKEN_EOF then mret tt
  else
    elem ← or_else parse_value (on_heap (json_decref (Some array)));
    _ ← or_else (on_heap (json_array_append (Some array) (Some elem)))
          (_ ← on_heap (json_decref (Some elem)); on_heap (json_decref (Some array)));
    _ ← on_heap (json_decref (Some elem));
    t ← lex_scan fuel;
    if negb (t =? 44) then mret tt
    else
      _ ← lex_scan fuel;
      match n with
      | O => sundef
      | S n => array_loop n array
      end.

Definition parse_array : SM context ref :=
  array ← on_heap json_array;
  t ← lex_scan fuel;
  if t =? 93 then mret array
  else
    _ ← array_loop fuel array;
    x ← get;
    if negb (token x =? 93) then
      _ ← error_set (str "']' expected"); abandon array
    else mret array.
End nested.

Fixpoint parse_value (depth fuel : nat) (flags : Z) : SM context ref :=
  x ← get;
  let t := token x in
  if t =? TOKEN_STRING then
    match value x with
    | VString s => on_heap (json_string_nocheck s)
    | _ => sundef
    end
  else if t =? TOKEN_INTEGER then
    match value x with VInteger i => on_heap (json_integer i) | _ => sundef end
  else if t =? TOKEN_REAL then
    match value x with VReal r => on_heap (json_real r) | _ => sundef end
  else if t =? TOKEN_TRUE then mret json_true
  else if t =? TOKEN_FALSE then mret json_false
  else if t =? TOKEN_NULL then mret json_null
  else if t =? 123 then
    match depth with O => sundef | S depth => parse_object (parse_value depth fuel flags) fuel flags end
  else if t =? 91 then
    match depth with O => sundef | S depth => parse_array (parse_value depth fuel flags) fuel end
  else if t =? TOKEN_INVALID then _ ← error_set (str "invalid token"); sfail
  else _ ← error_set (str "unexpected token"); sfail.

Definition parse_json (fuel : nat) (flags : Z) : SM context ref :=
  t ← lex_scan fuel;
  if negb (has flags JSON_DECODE_ANY) && negb (t =? 91) && negb (t =? 123) then
    _ ← error_set (str "'[' or '{' expected"); sfail
  else
    result ← parse_value fuel fuel flags;
    _ ← (if has flags JSON_DISABLE_EOF_CHECK then mret tt
         else
           t ← lex_scan fuel;
           if negb (t =? TOKEN_EOF) then
             _ ← error_set (str "end of file expected"); abandon result
           else mret tt);
    x ← get;
    _ ← put_error ((λ e, JsonError (e_line e) (e_column e) (st_position (stream x))
                           (e_source e) (e_text e)) <$> error x);
    mret result.

(** Parse what a source delivers: the values in the heap and the error
    structure change. *)
Definition load (fuel : nat) (data : D) (flags : Z) : SM (heap * option json_error_t) ref := λ he w,
  let '(h, e) := he in
  match lex_init data e h w with
  | (Ret x, w') =>
    let '((r, x'), w'') := (r ← attempt (parse_json fuel flags);
                            _ ← lex_close;
                            match r with Some r => mret r | None => sfail end) x w' in
    ((r, (values x', error x')), w'')
  | (Fail, w') => ((Fail, he), w')
  | (Undef, w') => ((Undef, he), w')
  end.
End parser.

(** ** Entry points *)

Definition init_error (source : list Z) : SM (heap * option json_error_t) unit :=
  he ← get; put (he.1, jsonp_error_init source he.2).

(** [error_set(error, NULL, "wrong arguments")]. *)
Definition wrong_arguments {A} : SM (heap * option json_error_t) A :=
  he ← get;
  _ ← put (he.1, jsonp_error_set (-1) (-1) 0 (str "wrong arguments") he.2);
  sfail.

(** Every round of the loops reads at least a byte of the text. *)
Definition json_loads (string : option (list Z)) (flags : Z) : SM (heap * option json_error_t) ref :=
  _ ← init_error (str "<string>");
  match string with
  | None => wrong_arguments
  | Some s => load (S (S (length s))) (StringData s 0) flags
  end.

Definition json_loadb (buffer : option (list Z)) (buflen flags : Z) : SM (heap * option json_error_t) ref :=
  _ ← init_error (str "<buffer>");
  match buffer with
  | None => wrong_arguments
  | Some s => load (S (S (Z.to_nat buflen))) (BufferData s buflen 0) flags
  end.

(** The callback hands out at most 1024 bytes in each of its calls to come. *)
Definition json_load_callback (callback : option (list (option (list Z)))) (flags : Z)
    : SM (heap * option json_error_t) ref :=
  _ ← init_error (str "<callback>");
  match callback with
  | None => wrong_arguments
  | Some results =>
    load (S (S (1024 * S (length results)))) (CallbackData results (replicate 1024 0) 0 0) flags
  end.
