(* ===== verification/JDump.v ===== *)
(** * The encoder (jansson/dump.c)

    Values are written through a callback with a state of its own. The flag
    [visited] of an array or an object is set while it is being written, which
    detects cycles and bounds the recursion by the number of cells. *)

From S2P Require Import Prelude CModel JBase JUtf JStrbuf JHash JValue JArray JReal JLex JLoad.
From stdpp Require Import strings sorting.
From Stdlib Require Import SpecFloat.
#[local] Open Scope Z_scope.

Definition JSON_INDENT (flags : Z) : Z := Z.land flags 0x1F.
Definition JSON_COMPACT : Z := 0x20.
Definition JSON_ENSURE_ASCII : Z := 0x40.
Definition JSON_SORT_KEYS : Z := 0x80.
Definition JSON_PRESERVE_ORDER : Z := 0x100.
Definition JSON_ENCODE_ANY : Z := 0x200.
Definition JSON_ESCAPE_SLASH : Z := 0x400.

Definition MAX_INTEGER_STR_LENGTH : Z := 100.
Definition MAX_REAL_STR_LENGTH : Z := 100.

Definition whitespace : list Z := replicate 32 32.

(** ["%lld"]. *)
Definition format_integer (i : Z) : list Z := (if i <? 0 then [45] else []) ++ digits_of (Z.abs i).

(** ** Strings *)

Definition needs_escape (flags codepoint : Z) : bool :=
  (codepoint =? 92) || (codepoint =? 34) || (codepoint <? 0x20)
  || (has flags JSON_ESCAPE_SLASH && (codepoint =? 47))
  || (has flags JSON_ENSURE_ASCII && (0x7F <? codepoint)).

(** The text of an escape. *)
Definition escape (codepoint : Z) : list Z :=
  if codepoint =? 92 then [92; 92]
  else if codepoint =? 34 then [92; 34]
  else if codepoint =? 8 then [92; 98]
  else if codepoint =? 12 then [92; 102]
  else if codepoint =? 10 then [92; 110]
  else if codepoint =? 13 then [92; 114]
  else if codepoint =? 9 then [92; 116]
  else if codepoint =? 47 then [92; 47]
  else if codepoint <? 0x10000 then [92; 117] ++ hex4 97 codepoint
  else
    let codepoint := codepoint - 0x10000 in
    let first := Z.lor 0xD800 (Z.shiftr (Z.land codepoint 0xffc00) 10) in
    let last := Z.lor 0xDC00 (Z.land codepoint 0x003ff) in
    [92; 117] ++ hex4 97 first ++ [92; 117] ++ hex4 97 last.

(** The inner loop of [dump_string] from [pos] on, a suffix of the string with
    its NUL: the character in front of which it stops, what is behind that
    character, and its code point; none at the end of the string. *)
Fixpoint plain_run (fuel : nat) (flags : Z) (pos : list Z) : outcome (list Z * list Z * option Z) :=
  c ← readZ pos 0;
  if c =? 0 then mret (pos, pos, None)
  else
    match fuel with
    | O => Undef
    | S fuel =>
      '(end_, codepoint) ← utf8_iterate pos;
      codepoint ← deref codepoint;
      if needs_escape flags codepoint then mret (pos, end_, Some codepoint)
      else plain_run fuel flags end_
    end.

(** [strcmp] on keys and [object_key_compare_serials]. *)
Fixpoint strcmp_le (a b : list Z) : bool :=
  match a, b with
  | [], _ => true
  | _ :: _, [] => false
  | x :: a, y :: b => if x <? y then true else if y <? x then false else strcmp_le a b
  end.

Record object_key := ObjectKey { k_serial : Z; k_key : list Z }.

Definition compare_keys (x y : object_key) : Prop := strcmp_le (k_key x) (k_key y) = true.
Definition compare_serials (x y : object_key) : Prop := k_serial x ≤ k_serial y.

#[export] Instance compare_keys_dec : RelDecision compare_keys.
Proof. intros x y. unfold compare_keys. apply _. Defined.
#[export] Instance compare_serials_dec : RelDecision compare_serials.
Proof. intros x y. unfold compare_serials. apply _. Defined.

(** [qsort]; no two keys or serials of an object are equal. *)
Definition object_key_sort (flags : Z) (keys : list object_key) : list object_key :=
  if has flags JSON_SORT_KEYS then merge_sort compare_keys keys else merge_sort compare_serials keys.

Definition sizeof_object_key : Z := 16.

Section dump.
Context {S : Type} (dump : list Z → SM S unit).
Abbreviation state := (heap * S)%type.

Definition emit (text : list Z) : SM state unit := zoom snd (λ d s, (s.1, d)) (dump text).
Definition on_values {A} (m : SM heap A) : SM state A := zoom fst (λ h s, (h, s.2)) m.

Definition dump_indent (flags depth : Z) (space : bool) : SM state unit :=
  if 0 <? JSON_INDENT flags then
    let ws_count := JSON_INDENT flags in
    _ ← emit [10];
    for_range 0 depth (λ _ (_ : unit), emit (take (Z.to_nat ws_count) whitespace)) tt
  else if space && negb (has flags JSON_COMPACT) then emit [32]
  else mret tt.

(** The outer loop of [dump_string], from [str] on. *)
Fixpoint string_loop (fuel : nat) (flags : Z) (str : list Z) : SM state unit :=
  '(pos, end_, codepoint) ← liftS (plain_run (length str) flags str);
  let n := (length str - length pos)%nat in
  _ ← (if bool_decide (n = O) then mret tt else emit (take n str));
  match codepoint, fuel with
  | None, _ => mret tt
  | Some _, O => sundef
  | Some codepoint, Datatypes.S fuel =>
    _ ← emit (escape codepoint);
    string_loop fuel flags end_
  end.

Definition dump_string (str : list Z) (flags : Z) : SM state unit :=
  _ ← emit [34];
  _ ← string_loop (length str) flags (str ++ [0]);
  emit [34].

(** [array->visited = v] and [object->visited = v]. *)
Definition set_visited (a v : Z) : SM heap unit :=
  c ← get_cell a;
  match content c with
  | Array t => put_content a (Array (JsonArray (a_size t) (a_entries t) (a_table t) v))
  | Object o => put_content a (Object (JsonObject (o_hashtable o) (o_serial o) v))
  | _ => sundef
  end.

Section nested.
(** [do_dump] one level below. *)
Context (do_dump : option ref → Z → SM state unit) (flags depth : Z).

(** What stands behind an element, a comma or the line of the bracket. *)
Definition separate (more : bool) : SM state unit :=
  if more then _ ← emit [44]; dump_indent flags (depth + 1) true
  else dump_indent flags depth false.

(** The elements [i], .. of an array of [n]. *)
Fixpoint dump_elements (fuel : nat) (json : option ref) (i n : Z) : SM state unit :=
  match fuel with
  | O => mret tt
  | Datatypes.S fuel =>
    p ← on_values (json_array_get json i);
    _ ← do_dump p (depth + 1);
    _ ← separate (i <? n - 1);
    dump_elements fuel json (i + 1) n
  end.

Definition dump_array (json : option ref) : SM state unit :=
  n ← on_values (json_array_size json);
  _ ← emit [91];
  if n =? 0 then mret tt
  else
    _ ← dump_indent flags (depth + 1) false;
    dump_elements (Z.to_nat n) json 0 n.

Definition separator : list Z := if has flags JSON_COMPACT then [58] else [58; 32].

(** A member; the result of [dump_string] is ignored. *)
Definition dump_member (key : list Z) (value : option ref) (more : bool) : SM state unit :=
  _ ← ignore (dump_string key flags);
  _ ← emit separator;
  _ ← do_dump value (depth + 1);
  separate more.

(** The members from [iter] on, in the order of the table. *)
Fixpoint dump_members (fuel : nat) (json : option ref) (iter : Z) : SM state unit :=
  next ← on_values (json_object_iter_next json (Some iter));
  key ← on_values (json_object_iter_key json (Some iter));
  key ← liftS (deref key);
  value ← on_values (json_object_iter_value json (Some iter));
  _ ← dump_member key value (match next with Some _ => true | None => false end);
  match next, fuel with
  | None, _ => mret tt
  | Some _, O => sundef
  | Some next, Datatypes.S fuel => dump_members fuel json next
  end.

(** The loop that collects the keys, from [iter] on. *)
Fixpoint collect_keys (fuel : nat) (json : option ref) (iter : option Z) : SM heap (list object_key) :=
  match iter, fuel with
  | None, _ => mret []
  | Some _, O => sundef
  | Some i, Datatypes.S fuel =>
    o ← json_to_object json;
    match o with
    | None => sundef
    | Some (_, o) =>
      serial ← liftS (hashtable_iter_serial (o_hashtable o) i);
      key ← json_object_iter_key json iter;
      key ← liftS (deref key);
      iter ← json_object_iter_next json iter;
      keys ← collect_keys fuel json iter;
      mret (ObjectKey serial key :: keys)
    end
  end.

(** The members in the order of the sorted keys. *)
Fixpoint dump_sorted (json : option ref) (keys : list object_key) : SM state unit :=
  match keys with
  | [] => mret tt
  | k :: keys =>
    value ← on_values (json_object_get json (k_key k));
    _ ← assert (match value with Some _ => true | None => false end);
    _ ← dump_member (k_key k) value (match keys with [] => false | _ => true end);
    dump_sorted json keys
  end.

Definition dump_object (json : option ref) : SM state unit :=
  iter ← on_values (json_object_iter json);
  _ ← emit [123];
  match iter with
  | None => mret tt
  | Some i =>
    _ ← dump_indent flags (depth + 1) false;
    size ← on_values (json_object_size json);
    if has flags JSON_SORT_KEYS || has flags JSON_PRESERVE_ORDER then
      _ ← lift (jsonp_malloc (size * sizeof_object_key));
      keys ← on_values (collect_keys (Z.to_nat size) json iter);
      _ ← assert (Z.of_nat (length keys) =? size);
      dump_sorted json (object_key_sort flags keys)
    else dump_members (Z.to_nat size) json i
  end.

(** Write a container between setting and clearing its flag. *)
Definition guarded (a visited close : Z) (m : SM state unit) : SM state unit :=
  let clear := on_values (set_visited a 0) in
  if negb (visited =? 0) then _ ← clear; sfail
  else
    _ ← on_values (set_visited a 1);
    _ ← or_else m clear;
    _ ← clear;
    emit [close].
End nested.

Fixpoint do_dump (fuel : nat) (json : option ref) (flags depth : Z) : SM state unit :=
  json' ← liftS (deref json);
  match json' with
  | the_null => emit (str "null")
  | the_true => emit (str "true")
  | the_false => emit (str "false")
  | Ref a =>
    c ← on_values (get_cell a);
    match content c with
    | Integer i =>
      let buffer := format_integer i in
      if MAX_INTEGER_STR_LENGTH <=? Z.of_nat (length buffer) then sfail else emit buffer
    | Real r =>
      match jsonp_dtostr MAX_REAL_STR_LENGTH r with
      | None => sfail
      | Some buffer => emit buffer
      end
    | String_ s => dump_string s flags
    | Array t =>
      match fuel with
      | O => if negb (a_visited t =? 0) then guarded a (a_visited t) 93 sundef else sundef
      | Datatypes.S fuel =>
        guarded a (a_visited t) 93 (dump_array (λ p d, do_dump fuel p flags d) flags depth json)
      end
    | Object o =>
      match fuel with
      | O => if negb (o_visited o =? 0) then guarded a (o_visited o) 125 sundef else sundef
      | Datatypes.S fuel =>
        guarded a (o_visited o) 125 (dump_object (λ p d, do_dump fuel p flags d) flags depth json)
      end
    end
  end.

(** There are at most as many containers as addresses. *)
Definition json_dump_callback (json : option ref) (flags : Z) : SM state unit :=
  s ← get;
  is_container ←
    (if has flags JSON_ENCODE_ANY then mret true
     else
       a ← on_values (json_to_array json);
       o ← on_values (json_to_object json);
       mret (match a, o with None, None => false | _, _ => true end));
  if negb is_container then sfail else do_dump (Z.to_nat (brk s.1)) json flags 0.
End dump.

(** [dump_to_strbuffer]. *)
Definition dump_to_strbuffer (buffer : list Z) : SM strbuffer_t unit := strbuffer_append_bytes buffer.

(** The text, or NULL. *)
Definition json_dumps (json : option ref) (flags : Z) : SM heap (list Z) := λ h w,
  match run_on (Strbuffer None 0 0) strbuffer_init w with
  | (Ret (_, b), w) =>
    let '((r, (h, b)), w) := json_dump_callback dump_to_strbuffer json flags (h, b) w in
    match r with
    | Ret _ =>
      lift (text ← liftO (a ← deref (sb_value b); cstring (Z.to_nat (sb_size b)) a 0);
            jsonp_strdup text) h w
    | Fail => ((Fail, h), w)
    | Undef => ((Undef, h), w)
    end
  | (Fail, w) => ((Fail, h), w)
  | (Undef, w) => ((Undef, h), w)
  end.
