(* ===== verification/JSpec.v ===== *)
(** * JSON texts and the values they denote

    A grammar of JSON texts (RFC 4627) as inductive relations between bytes and
    values, independent of the code. Strings are UTF-8; integers fit 64 bits;
    of the members of an object with the same name the last one counts. *)

From S2P Require Import Prelude CModel JBase JUtf JHash JValue JReal.
From stdpp Require Import strings.
From Stdlib Require Import SpecFloat.
#[local] Open Scope Z_scope.

(** ** Values *)

Inductive jv :=
  | JObject (ms : list (list Z * jv))
  | JArray (vs : list jv)
  | JString (s : list Z)
  | JInteger (i : Z)
  | JReal (r : double)
  | JTrue
  | JFalse
  | JNull.

(** Induction with the hypothesis for all parts. *)
Section jv_ind.
Context (P : jv → Prop)
  (Hobject : ∀ ms, Forall (λ kv : list Z * jv, P kv.2) ms → P (JObject ms))
  (Harray : ∀ vs, Forall P vs → P (JArray vs))
  (Hstring : ∀ s, P (JString s)) (Hinteger : ∀ i, P (JInteger i)) (Hreal : ∀ r, P (JReal r))
  (Htrue : P JTrue) (Hfalse : P JFalse) (Hnull : P JNull).

Fixpoint jv_induction (v : jv) : P v :=
  match v with
  | JObject ms =>
    Hobject ms ((fix go ms : Forall (λ kv : list Z * jv, P kv.2) ms :=
      match ms with
      | [] => Forall_nil_2 _
      | (k, v) :: ms => Forall_cons_2 (λ kv : list Z * jv, P kv.2) (k, v) ms (jv_induction v) (go ms)
      end) ms)
  | JArray vs =>
    Harray vs ((fix go vs : Forall P vs :=
      match vs with
      | [] => Forall_nil_2 _
      | v :: vs => Forall_cons_2 P v vs (jv_induction v) (go vs)
      end) vs)
  | JString s => Hstring s
  | JInteger i => Hinteger i
  | JReal r => Hreal r
  | JTrue => Htrue
  | JFalse => Hfalse
  | JNull => Hnull
  end.
End jv_ind.

(** A member is added to an object, or replaces the one with its name. *)
Fixpoint set_member (k : list Z) (v : jv) (ms : list (list Z * jv)) : list (list Z * jv) :=
  match ms with
  | [] => [(k, v)]
  | (k', v') :: ms => if decide (k' = k) then (k, v) :: ms else (k', v') :: set_member k v ms
  end.

Definition members_of (l : list (list Z * jv)) : list (list Z * jv) :=
  foldl (λ ms kv, set_member kv.1 kv.2 ms) [] l.

(** ** Lexical grammar *)

Definition white (c : Z) : Prop := c = 32 ∨ c = 9 ∨ c = 10 ∨ c = 13.

#[export] Instance white_dec c : Decision (white c).
Proof. unfold white. apply _. Defined.

Definition ws (w : list Z) : Prop := Forall white w.

Definition is_digit (c : Z) : Prop := 48 ≤ c ≤ 57.

(** The value of a hexadecimal digit. *)
Definition hex_value (c : Z) : option Z :=
  if (48 <=? c) && (c <=? 57) then Some (c - 48)
  else if (65 <=? c) && (c <=? 70) then Some (c - 55)
  else if (97 <=? c) && (c <=? 102) then Some (c - 87)
  else None.

(** Four digits. *)
Definition hex4_value (ds : list Z) : option Z :=
  match ds with
  | [a; b; c; d] =>
    a ← hex_value a; b ← hex_value b; c ← hex_value c; d ← hex_value d;
    Some (4096 * a + 256 * b + 16 * c + d)
  | _ => None
  end.

(** The two-character escapes. *)
Definition short_escapes : list (Z * Z) :=
  [(34, 34); (92, 92); (47, 47); (98, 8); (102, 12); (110, 10); (114, 13); (116, 9)].

Definition high_surrogate (v : Z) : Prop := 0xD800 ≤ v ≤ 0xDBFF.
Definition low_surrogate (v : Z) : Prop := 0xDC00 ≤ v ≤ 0xDFFF.

(** One character of a string and the bytes it stands for. NUL cannot be
    written. *)
Inductive char_text : list Z → list Z → Prop :=
  | C_plain v : scalar v → 0x20 ≤ v → v ≠ 34 → v ≠ 92 → char_text (utf8 v) (utf8 v)
  | C_short c v : (c, v) ∈ short_escapes → char_text [92; c] [v]
  | C_unicode ds v : hex4_value ds = Some v → scalar v → v ≠ 0 → char_text (92 :: 117 :: ds) (utf8 v)
  | C_pair ds1 ds2 v1 v2 :
      hex4_value ds1 = Some v1 → hex4_value ds2 = Some v2 → high_surrogate v1 → low_surrogate v2 →
      char_text (92 :: 117 :: ds1 ++ 92 :: 117 :: ds2)
        (utf8 (0x10000 + (v1 - 0xD800) * 0x400 + (v2 - 0xDC00))).

(** The characters between the quotes. *)
Inductive chars_text : list Z → list Z → Prop :=
  | Cs_nil : chars_text [] []
  | Cs_cons t s ts ss : char_text t s → chars_text ts ss → chars_text (t ++ ts) (s ++ ss).

(** Integers: no leading zeros, in the range of [long long]. *)
Inductive digits_text : list Z → Prop :=
  | D_zero : digits_text [48]
  | D_many d ds : 49 ≤ d ≤ 57 → Forall is_digit ds → digits_text (d :: ds).

Inductive int_text : list Z → Z → Prop :=
  | I_pos ds : digits_text ds → int_text ds (number ds)
  | I_neg ds : digits_text ds → int_text (45 :: ds) (- number ds).

Definition in_range (i : Z) : Prop := - 2 ^ 63 ≤ i < 2 ^ 63.

(** Fractions and exponents. *)
Inductive frac_text : list Z → Prop :=
  | F_frac d ds : is_digit d → Forall is_digit ds → frac_text (46 :: d :: ds).

Inductive exp_text : list Z → Prop :=
  | E_exp e sign d ds :
      e = 69 ∨ e = 101 → sign = [] ∨ sign = [43] ∨ sign = [45] →
      is_digit d → Forall is_digit ds → exp_text (e :: sign ++ d :: ds).

Inductive real_text : list Z → Prop :=
  | R_frac ip i fp : int_text ip i → frac_text fp → real_text (ip ++ fp)
  | R_exp ip i ep : int_text ip i → exp_text ep → real_text (ip ++ ep)
  | R_both ip i fp ep : int_text ip i → frac_text fp → exp_text ep → real_text (ip ++ fp ++ ep).

(** ** Values and texts *)

Inductive value_text : list Z → jv → Prop :=
  | T_string t s : chars_text t s → value_text (34 :: t ++ [34]) (JString s)
  | T_integer t i : int_text t i → in_range i → value_text t (JInteger i)
  | T_real t r : real_text t → jsonp_strtod t = Ret (Some r) → value_text t (JReal r)
  | T_true : value_text (str "true") JTrue
  | T_false : value_text (str "false") JFalse
  | T_null : value_text (str "null") JNull
  | T_empty_array w : ws w → value_text (91 :: w ++ [93]) (JArray [])
  | T_array t vs : elements_text t vs → value_text (91 :: t ++ [93]) (JArray vs)
  | T_empty_object w : ws w → value_text (123 :: w ++ [125]) (JObject [])
  | T_object t ms : members_text t ms → value_text (123 :: t ++ [125]) (JObject (members_of ms))
with elements_text : list Z → list jv → Prop :=
  | Es_one w1 t v w2 : ws w1 → value_text t v → ws w2 → elements_text (w1 ++ t ++ w2) [v]
  | Es_cons w1 t v w2 ts vs :
      ws w1 → value_text t v → ws w2 → elements_text ts vs →
      elements_text (w1 ++ t ++ w2 ++ 44 :: ts) (v :: vs)
with members_text : list Z → list (list Z * jv) → Prop :=
  | Ms_one w1 tk k w2 w3 t v w4 :
      ws w1 → chars_text tk k → ws w2 → ws w3 → value_text t v → ws w4 →
      members_text (w1 ++ 34 :: tk ++ 34 :: w2 ++ 58 :: w3 ++ t ++ w4) [(k, v)]
  | Ms_cons w1 tk k w2 w3 t v w4 ts ms :
      ws w1 → chars_text tk k → ws w2 → ws w3 → value_text t v → ws w4 → members_text ts ms →
      members_text (w1 ++ 34 :: tk ++ 34 :: w2 ++ 58 :: w3 ++ t ++ w4 ++ 44 :: ts) ((k, v) :: ms).

Scheme value_text_mind := Induction for value_text Sort Prop
  with elements_text_mind := Induction for elements_text Sort Prop
  with members_text_mind := Induction for members_text Sort Prop.
Combined Scheme text_ind from value_text_mind, elements_text_mind, members_text_mind.

(** A text is a value with white space around it. *)
Inductive json_text : list Z → jv → Prop :=
  | Json_text w1 t v w2 : ws w1 → value_text t v → ws w2 → json_text (w1 ++ t ++ w2) v.
