(* ===== verification/JLexTheory.v ===== *)
(** * Theory of the lexer: characters

    What the stream, the saved text and the functions that move characters
    between them do. A source delivers UTF-8 up to its end or up to [junk]
    that is none. [at_ x l prev rest]: the lexer has saved [l], can put [prev]
    back, and reads [rest] next, in front of the junk. *)

From S2P Require Import Prelude CModel JBase JUtf JStrbuf JHash JValue JArray JReal JLex.
From stdpp Require Import strings.
From Stdlib Require Import SpecFloat.
#[local] Open Scope Z_scope.

(** ** What a source promises

    [upcoming d] are the bytes still to come; behind them [source_get] returns
    EOF. *)
Class SourceLaws (D : Type) `{Source D} := {
  upcoming : D → list Z;
  source_some d c l : upcoming d = c :: l → ∃ d', source_get d = (c, d') ∧ upcoming d' = l;
  source_none d : upcoming d = [] → ∃ d', source_get d = (EOF, d')
}.

(** The bytes of a string before its NUL. *)
Fixpoint until_nul (l : list Z) : list Z :=
  match l with [] => [] | c :: l => if c =? 0 then [] else c :: until_nul l end.

Lemma until_nul_all l : Forall (λ c, c ≠ 0) l → until_nul l = l.
Proof. induction 1 as [|c l Hc Hl IH]; [done|]. cbn. by rewrite (proj2 (Z.eqb_neq _ _)), IH. Qed.

#[export, program] Instance string_source_laws : SourceLaws string_data_t := {|
  upcoming s := until_nul (drop (sd_pos s) (sd_data s))
|}.
Next Obligation.
  intros [data pos] c l E. unfold source_get, string_source, string_get. simpl in *.
  destruct (drop pos data) as [|b r] eqn:Ed; [done|]. simpl in E.
  assert (Hl : data !! pos = Some b) by (by rewrite <- (Nat.add_0_r pos), <- lookup_drop, Ed).
  rewrite Hl. destruct (b =? 0); [done|]. simplify_eq. eexists. split; [done|]. simpl.
  replace (S pos) with (pos + 1)%nat by lia. by rewrite <- drop_drop, Ed.
Qed.
Next Obligation.
  intros [data pos] E. unfold source_get, string_source, string_get. simpl in *.
  destruct (data !! pos) as [b|] eqn:Hb; [|by eexists].
  rewrite (drop_S _ _ _ Hb) in E. simpl in E. destruct (b =? 0); [by eexists|done].
Qed.

(** The [n] cells from [i] on. *)
Definition segment (data : list Z) (i n : nat) : list Z := (λ j, data !!! j) <$> seq i n.

Lemma segment_S data i n : segment data i (S n) = data !!! i :: segment data (S i) n.
Proof. done. Qed.

#[export, program] Instance buffer_source_laws : SourceLaws buffer_data_t := {|
  upcoming s := segment (bd_data s) (bd_pos s) (Z.to_nat (bd_len s) - bd_pos s)
|}.
Next Obligation.
  intros [data len pos] c l E. unfold source_get, buffer_source, buffer_get. simpl in *.
  destruct (Z.to_nat len - pos)%nat as [|n] eqn:En; [done|].
  rewrite (proj2 (Z.leb_gt _ _)) by lia. rewrite segment_S in E. simplify_eq.
  eexists. split; [done|]. simpl. f_equal. lia.
Qed.
Next Obligation.
  intros [data len pos] E. unfold source_get, buffer_source, buffer_get. simpl in *.
  destruct (Z.to_nat len - pos)%nat as [|n] eqn:En; [|done].
  rewrite (proj2 (Z.leb_le _ _)) by lia. by eexists.
Qed.

(** The bytes that a callback hands out before it ends the input: by an empty
    block or by the result -1, which is also the length [2^64 - 1]. *)
Definition ends (r : option (list Z)) : bool :=
  match r with
  | Some bytes => (Z.of_nat (length bytes) =? 0) || (Z.of_nat (length bytes) =? 2 ^ 64 - 1)
  | None => true
  end.

Fixpoint callback_bytes (l : list (option (list Z))) : list Z :=
  match l with
  | r :: l => if ends r then [] else default [] r ++ callback_bytes l
  | [] => []
  end.

Lemma segment_prefix s t : segment (s ++ t) 0 (length s) = s.
Proof.
  unfold segment. apply list_eq. intros i. rewrite list_lookup_fmap.
  destruct (decide (i < length s)%nat) as [Hi|Hi].
  - rewrite lookup_seq_lt by done. simpl. rewrite list_lookup_total_alt, lookup_app_l by done.
    by destruct (lookup_lt_is_Some_2 s i Hi) as [x ->].
  - rewrite lookup_seq_ge by lia. symmetry. apply lookup_ge_None_2. lia.
Qed.

Definition callback_upcoming (s : callback_data_t) : list Z :=
  segment (cd_data s) (cd_pos s) (Z.to_nat (cd_len s) - cd_pos s) ++ callback_bytes (cd_callback s).

Lemma callback_read_spec s c l :
  callback_upcoming s = c :: l → Z.of_nat (cd_pos s) < cd_len s →
  ∃ d', callback_read s = (c, d') ∧ callback_upcoming d' = l.
Proof.
  destruct s as [cb data len pos]. unfold callback_upcoming, callback_read. simpl. intros E Hlt.
  destruct (Z.to_nat len - pos)%nat as [|n] eqn:En; [lia|]. rewrite segment_S in E. simplify_eq/=.
  eexists. split; [done|]. simpl. by replace (Z.to_nat len - S pos)%nat with n by lia.
Qed.

#[export, program] Instance callback_source_laws : SourceLaws callback_data_t := {|
  upcoming := callback_upcoming
|}.
Next Obligation.
  intros d c l E. unfold source_get, callback_source, callback_get.
  destruct (Z.leb_spec (cd_len d) (Z.of_nat (cd_pos d))) as [Hle|Hlt]; [|by apply callback_read_spec].
  destruct d as [[|r cb] data len pos]; unfold callback_upcoming in E; simpl in *;
    replace (Z.to_nat len - pos)%nat with O in E by lia; simpl in E; [done|].
  destruct (ends r) eqn:Er; [done|]. destruct r as [bytes|]; [|done]. simpl in Er, E.
  unfold callback_fill. cbn [cd_callback cd_data cd_len]. rewrite Er.
  apply orb_false_iff in Er as [Er _]. apply Z.eqb_neq in Er.
  apply callback_read_spec; [|simpl; lia]. unfold callback_upcoming. simpl.
  by rewrite Nat.sub_0_r, Nat2Z.id, segment_prefix.
Qed.
Next Obligation.
  intros d E. unfold source_get, callback_source, callback_get.
  destruct (Z.leb_spec (cd_len d) (Z.of_nat (cd_pos d))) as [Hle|Hlt].
  - destruct d as [[|r cb] data len pos]; unfold callback_upcoming in E; simpl in *; [by eexists|].
    replace (Z.to_nat len - pos)%nat with O in E by lia. simpl in E.
    unfold callback_fill. cbn [cd_callback].
    destruct (ends r) eqn:Er; destruct r as [bytes|]; try done; simpl in Er; cbn [cd_len].
    + rewrite Er. by eexists.
    + by eexists.
    + simpl in E. apply app_eq_nil in E as [-> _]. done.
  - unfold callback_upcoming in E. destruct d as [cb data len pos]. simpl in *.
    destruct (Z.to_nat len - pos)%nat as [|n] eqn:En; [lia|]. done.
Qed.

(** ** What is not UTF-8 *)

(** Bytes that do not start with a character. *)
Definition stuck (l : list Z) : Prop :=
  l = [] ∨ Forall text_byte l ∧ ∀ v r, scalar v → l ≠ utf8 v ++ r.

(** A source delivers UTF-8 in front of such bytes. *)
Class Tail := { junk : list Z; junk_stuck : stuck junk }.

#[program] Definition no_tail : Tail := {| junk := [] |}.
Next Obligation. by left. Defined.

(** What [stream_get] returns at the end. *)
Definition fin {T : Tail} : Z := match junk with [] => STREAM_STATE_EOF | _ => STREAM_STATE_ERROR end.

Lemma fin_state {T : Tail} : (fin =? STREAM_STATE_EOF) || (fin =? STREAM_STATE_ERROR) = true.
Proof. unfold fin. by destruct junk. Qed.

Lemma fin_cases {T : Tail} : fin = STREAM_STATE_EOF ∧ junk = [] ∨ fin = STREAM_STATE_ERROR ∧ junk ≠ [].
Proof. unfold fin. destruct junk; auto. Qed.

(** Bytes that are read where some may be missing: those past the end are 255. *)
Lemma stuck_sequence b t l :
  stuck (b :: t) → Forall is_byte l → 2 ≤ announced b → announced b = Z.of_nat (S (length l)) →
  (∃ r, t = l ++ r) ∨ ¬ Forall cont l → utf8_check_full (b :: l) (announced b) = Ret None.
Proof.
  intros [|[Hb Hno]] Hl H2 Hlen Ht; [done|]. apply Forall_cons in Hb as [[Hb _] _].
  destruct (full_check_decodes b l [] Hb Hl H2 Hlen) as [(v & E & Hv & Ev)|[E _]]; rewrite app_nil_r in E; [|done].
  destruct Ht as [(r & ->)|Hc].
  - destruct (Hno v r Hv). by rewrite Ev.
  - destruct Hc. assert (Hn : l ≠ []) by (intros ->; simpl in Hlen; lia).
    by destruct (payload_utf8 v b l Hv Ev Hn).
Qed.

(** ** The stream *)

Section streams.
Context {D : Type} {HS : Source D} {HL : SourceLaws D} {T : Tail}.
Abbreviation context := (context D).

Definition with_stream (s : stream_t D) (x : context) : context :=
  Context s (saved_text x) (token x) (value x) (error x) (values x).

Lemma wp_get_stream {A} (f : stream_t D → SM context A) x Q :
  wp (f (stream x)) x Q → wp (get_stream ≫= f) x Q.
Proof. done. Qed.

Lemma wp_put_stream s x (Q : outcome unit → context → Prop) :
  Q (Ret tt) (with_stream s x) → wp (put_stream s) x Q.
Proof. intros HQ w Hw. by split. Qed.

Lemma wp_put_stream_bind {A} (f : unit → SM context A) s x Q :
  wp (f tt) (with_stream s x) Q → wp (put_stream s ≫= f) x Q.
Proof. done. Qed.

(** Bytes of UTF-8 but NUL: as characters they differ from the states. *)
Definition char_byte (b : Z) : Prop := 0 < b < 0xF5.

Lemma char_byte_text b : char_byte b → text_byte b.
Proof. unfold char_byte, text_byte, is_byte. lia. Qed.

Lemma char_bytes_text l : Forall char_byte l → Forall text_byte l.
Proof. intros Hl. eapply Forall_impl; [exact Hl|apply char_byte_text]. Qed.

Lemma s8_char b : char_byte b → s8 b ≠ STREAM_STATE_EOF ∧ s8 b ≠ STREAM_STATE_ERROR.
Proof.
  unfold char_byte, s8, u8, STREAM_STATE_EOF, STREAM_STATE_ERROR. intros Hb.
  rewrite Z.mod_small by lia. case_bool; lia.
Qed.

Lemma s8_ascii b : 0 ≤ b < 0x80 → s8 b = b.
Proof. intros Hb. unfold s8, u8. rewrite Z.mod_small by lia. by rewrite (proj2 (Z.ltb_lt _ _)) by lia. Qed.

Lemma s8_high b : 0x80 ≤ b < 0x100 → s8 b < 0.
Proof. intros Hb. unfold s8, u8. rewrite Z.mod_small by lia. rewrite (proj2 (Z.ltb_ge _ _)); lia. Qed.

(** The characters [front] of the buffer were read, [back] come next, and then
    the source delivers [vs]. *)
Record feeding (s : stream_t D) (front back : list Z) (vs : list Z) : Prop := {
  feeding_state : st_state s = STREAM_STATE_OK;
  feeding_pos : st_buffer_pos s = Z.of_nat (length front);
  feeding_buffer : starts (st_buffer s) ((front ++ back) ++ [0]);
  feeding_size : alen (st_buffer s) = 5;
  feeding_room : (length front + length back ≤ 4)%nat;
  feeding_back : Forall char_byte back;
  feeding_scalar : Forall scalar vs;
  feeding_text : Forall (λ v, v ≠ 0) vs;
  feeding_upcoming : upcoming (st_data s) = utf8s vs ++ junk
}.

Lemma starts_get a l i b : starts a l → l !! Z.to_nat i = Some b → 0 ≤ i → aget a i = Ret b.
Proof.
  intros Ha Hl Hi. unfold aget. rewrite <- (Z2Nat.id i), (Ha (Z.to_nat i)), Hl; [done| |done].
  by apply lookup_lt_Some in Hl.
Qed.

Lemma starts_get_middle a l b r : starts a (l ++ b :: r) → aget a (Z.of_nat (length l)) = Ret b.
Proof. intros Ha. eapply starts_get; [done| |lia]. by rewrite Nat2Z.id, list_lookup_middle. Qed.

(** Writing behind the prefix [l], over what was there. *)
Lemma starts_set a l b :
  starts a l → Z.of_nat (length l) < alen a →
  ∃ a', aset (Z.of_nat (length l)) b a = Ret a' ∧ starts a' (l ++ [b]) ∧ alen a' = alen a.
Proof.
  intros Ha Hl. rewrite aset_ok by lia. eexists. split; [done|]. split; [|done].
  apply starts_snoc; [by apply starts_insert|]. simpl. by rewrite lookup_insert_eq.
Qed.

Lemma read_sequence_spec l d r pre buffer :
  upcoming d = l ++ r → Forall is_byte l → starts buffer pre →
  Z.of_nat (length pre + length l) ≤ alen buffer →
  ∃ d' buffer', read_sequence (length l) (Z.of_nat (length pre)) d buffer = Ret (d', buffer') ∧
    upcoming d' = r ∧ starts buffer' (pre ++ l) ∧ alen buffer' = alen buffer.
Proof.
  intros Hd Hl. revert d pre buffer Hd. induction Hl as [|c l Hc Hl IH]; intros d pre buffer Hd Hb Hlen.
  - exists d, buffer. by rewrite app_nil_r.
  - cbn [length read_sequence]. destruct (source_some d c (l ++ r) Hd) as (d' & -> & Hd').
    unfold u8. rewrite Z.mod_small by done. simpl in Hlen.
    destruct (starts_set buffer pre c Hb) as (b1 & -> & Hb1 & Hl1); [lia|]. cbn [mbind outcome_bind].
    destruct (IH d' (pre ++ [c]) b1) as (d2 & b2 & E & Hd2 & Hb2 & Hl2); try done.
    { rewrite length_app. simpl. lia. }
    exists d2, b2. rewrite length_app in E. simpl in E.
    replace (Z.of_nat (length pre) + 1) with (Z.of_nat (length pre + 1)) by lia.
    rewrite E, <- app_assoc in *. split_and!; try done. congruence.
Qed.

Lemma buffer_bytes_spec l pre r a :
  starts a (pre ++ l ++ r) → buffer_bytes (length l) (Z.of_nat (length pre)) a = Ret l.
Proof.
  revert pre. induction l as [|c l IH]; intros pre Ha; [done|]. cbn [length buffer_bytes].
  rewrite (starts_get_middle a pre c (l ++ r)) by done. cbn [mbind outcome_bind].
  specialize (IH (pre ++ [c])). rewrite <- app_assoc, length_app in IH. simpl in IH.
  replace (Z.of_nat (length pre) + 1) with (Z.of_nat (length pre + 1)) by lia.
  by rewrite IH.
Qed.

Lemma utf8_chars v : scalar v → v ≠ 0 → Forall char_byte (utf8 v).
Proof.
  intros [Hv Hs] H0. unfold utf8, char_byte.
  repeat case_bool; repeat constructor; byte_arith.
Qed.

(** A stream whose buffer is used up gets the next character of its source. *)
Lemma stream_fill_spec x front v vs :
  feeding (stream x) front [] (v :: vs) →
  wpr stream_fill x (λ r x', r = None ∧ ∃ s, x' = with_stream s x ∧ feeding s [] (utf8 v) vs ∧
    st_line s = st_line (stream x) ∧ st_column s = st_column (stream x) ∧
    st_last_column s = st_last_column (stream x) ∧ st_position s = st_position (stream x)).
Proof.
  intros [Hst Hpos Hbuf Hsize Hroom _ Hsc Htx Hup]. apply Forall_cons in Hsc as [Hv Hsc].
  apply Forall_cons in Htx as [H0 Htx]. pose proof (utf8_chars v Hv H0) as Hch.
  destruct (utf8_cons v) as (b & l & El). rewrite El in Hch. pose proof (char_bytes_text _ Hch) as Ht.
  apply Forall_cons in Ht as [[Hb Hb0] Ht].
  unfold utf8s in Hup. cbn [mbind list_bind] in Hup. rewrite El, <- !app_assoc in Hup. cbn [app] in Hup.
  change (list_bind _ _ utf8 vs) with (utf8s vs) in Hup.
  unfold stream_fill. apply wp_get_stream.
  destruct (source_some (st_data (stream x)) b (l ++ utf8s vs ++ junk) Hup) as (d1 & -> & Hd1).
  rewrite (proj2 (Z.eqb_neq b EOF)) by (unfold EOF, is_byte in *; lia).
  unfold u8. rewrite Z.mod_small by done.
  destruct (starts_set (st_buffer (stream x)) [] b) as (b1 & Eb1 & Hb1 & Hl1); [intros ? ?; simpl in *; lia|simpl; lia|].
  eapply wp_liftS_bind; [exact Eb1|]. pose proof (check_first_utf8 v b l Hv El) as Ec.
  pose proof (length_utf8 v) as H4. rewrite El in Ec, H4. cbn [length] in Ec, H4.
  destruct (Z.leb_spec 0x80 b) as [Hhi|Hlo].
  - rewrite (proj2 (Z.leb_le b 0xFF)) by (unfold is_byte in Hb; lia). cbn [andb]. rewrite Ec.
    rewrite (proj2 (Z.eqb_neq _ 0)) by lia.
    assert (Hl : l ≠ []).
    { intros ->. unfold utf8 in El. repeat case_bool; simplify_eq; lia. }
    assert (Hl1' : (1 ≤ length l)%nat) by (destruct l; simpl; [done|lia]).
    apply wp_assert_bind; [apply Z.leb_le; lia|].
    destruct (read_sequence_spec l d1 (utf8s vs ++ junk) [b] b1) as (d2 & b2 & E2 & Hd2 & Hb2 & Hl2);
      [done|by apply text_bytes|done|simpl; lia|].
    replace (Z.to_nat (Z.of_nat (S (length l)) - 1)) with (length l) by lia.
    eapply wp_liftS_bind; [exact E2|]. rewrite Nat2Z.id.
    eapply wp_liftS_bind; [apply (buffer_bytes_spec (b :: l) [] [] b2); by rewrite app_nil_r|].
    destruct (payload_utf8 v b l Hv El Hl) as (Hc & Hp & Ep).
    pose proof (check_full_cons b l [] ltac:(lia) (text_bytes _ Ht)) as Hfull. cbv zeta in Hfull.
    rewrite decide_True in Hfull by done. rewrite app_nil_r in Hfull.
    eapply wp_liftS_bind; [exact Hfull|].
    destruct (starts_set b2 (b :: l) 0) as (b3 & E3 & Hb3 & Hl3); [done|cbn [length] in *; lia|].
    eapply wp_liftS_bind; [exact E3|]. apply wp_put_stream_bind, wp_ret. split; [done|].
    eexists. split; [done|]. split; [|done]. split; simpl; rewrite ?El; try done; simpl; lia || congruence.
  - cbn [andb]. assert (l = []) as ->.
    { assert (E1 : utf8_check_first b = 1).
      { rewrite utf8_check_first_announced by done. by apply announced_ascii. }
      rewrite E1 in Ec. apply length_zero_iff_nil. lia. }
    destruct (starts_set b1 [b] 0) as (b3 & E3 & Hb3 & Hl3); [done|simpl; lia|].
    eapply wp_liftS_bind; [exact E3|]. apply wp_put_stream_bind, wp_ret. split; [done|].
    eexists. split; [done|]. split; [|done]. split; simpl; rewrite ?El; try done; simpl; lia || congruence.
Qed.

(** The saved text, when it holds no NUL. *)
Lemma cstring_spec fuel a l r pre :
  starts a (pre ++ l ++ 0 :: r) → Forall (λ b, b ≠ 0) l → (length l < fuel)%nat →
  cstring fuel a (Z.of_nat (length pre)) = Ret l.
Proof.
  revert fuel pre. induction l as [|b l IH]; intros fuel pre Ha Hl Hf; (destruct fuel as [|fuel]; [lia|]);
    cbn [cstring].
  - by rewrite (starts_get_middle a pre 0 r).
  - apply Forall_cons in Hl as [Hb Hl]. rewrite (starts_get_middle a pre b (l ++ 0 :: r)) by done.
    cbn [mbind outcome_bind]. rewrite (proj2 (Z.eqb_neq b 0)) by done.
    specialize (IH fuel (pre ++ [b])). rewrite <- app_assoc, length_app in IH. simpl in IH.
    replace (Z.of_nat (length pre) + 1) with (Z.of_nat (length pre + 1)) by lia.
    simpl in Hf. by rewrite IH by (done || lia).
Qed.

Lemma holds_cstring s l :
  holds s l → Forall (λ b, b ≠ 0) l →
  ∃ a, sb_value s = Some a ∧ cstring (Z.to_nat (sb_size s)) a 0 = Ret l.
Proof.
  intros [Hl Hs (a & -> & _ & Ha)] Hn. exists a. split; [done|].
  apply (cstring_spec _ a l [] []); [done|done|lia].
Qed.
(** The stream can put [prev] back and delivers [rest]. *)
Definition feeds (s : stream_t D) (prev : option Z) (rest : list Z) : Prop :=
  (st_state s = fin ∧ prev = None ∧ rest = []) ∨
  ∃ front back vs, feeding s front back vs ∧ rest = back ++ utf8s vs ∧
    ∀ b, prev = Some b → char_byte b ∧ ∃ f, front = f ++ [b].

Lemma feeds_end s prev :
  feeds s prev [] → (st_state s = fin ∧ prev = None) ∨ ∃ front, feeding s front [] [].
Proof.
  intros [(Hs & -> & _)|(front & back & vs & Hf & E & _)]; [by left|right].
  symmetry in E. apply app_eq_nil in E as [-> Evs]. exists front. destruct vs as [|v vs]; [done|].
  destruct (utf8_cons v) as (b & l & El). unfold utf8s in Evs. cbn in Evs. by rewrite El in Evs.
Qed.

Lemma read_sequence_total n pre d buffer :
  starts buffer pre → Z.of_nat (length pre + n) ≤ alen buffer →
  ∃ d' buffer' l, read_sequence n (Z.of_nat (length pre)) d buffer = Ret (d', buffer') ∧
    starts buffer' (pre ++ l) ∧ alen buffer' = alen buffer ∧ length l = n ∧ Forall is_byte l.
Proof.
  revert pre d buffer. induction n as [|n IH]; intros pre d buffer Hb Hlen.
  - exists d, buffer, []. rewrite app_nil_r. by split_and!.
  - cbn [read_sequence]. destruct (source_get d) as [c d'].
    destruct (starts_set buffer pre (u8 c) Hb) as (b1 & -> & Hb1 & Hl1); [lia|]. cbn [mbind outcome_bind].
    destruct (IH (pre ++ [u8 c]) d' b1) as (d2 & b2 & l & E2 & Hb2 & Hl2 & Hll & Hlb); try done.
    { rewrite length_app. simpl. lia. }
    rewrite length_app in E2. simpl in E2.
    replace (Z.of_nat (length pre) + 1) with (Z.of_nat (length pre + 1)) by lia.
    exists d2, b2, (u8 c :: l). rewrite <- app_assoc in Hb2. split_and!; try done; [congruence|simpl; lia|].
    constructor; [unfold is_byte, u8; byte_arith|done].
Qed.

Lemma read_sequence_any n pre d buffer :
  Forall is_byte (upcoming d) → starts buffer pre → Z.of_nat (length pre + n) ≤ alen buffer →
  ∃ d' buffer' l, read_sequence n (Z.of_nat (length pre)) d buffer = Ret (d', buffer') ∧
    starts buffer' (pre ++ l) ∧ alen buffer' = alen buffer ∧ length l = n ∧ Forall is_byte l ∧
    ((∃ r, upcoming d = l ++ r) ∨ ¬ Forall cont l).
Proof.
  revert pre d buffer. induction n as [|n IH]; intros pre d buffer Hd Hb Hlen.
  - exists d, buffer, []. rewrite app_nil_r. split_and!; try done. left. by exists (upcoming d).
  - cbn [read_sequence]. destruct (source_get d) as [c d'] eqn:Ed.
    destruct (starts_set buffer pre (u8 c) Hb) as (b1 & -> & Hb1 & Hl1); [lia|]. cbn [mbind outcome_bind].
    assert (Hu : is_byte (u8 c)) by (unfold is_byte, u8; byte_arith).
    destruct (upcoming d) as [|c0 r] eqn:Eu.
    + destruct (source_none d Eu) as (d0 & E). rewrite E in Ed. simplify_eq.
      destruct (read_sequence_total n (pre ++ [u8 EOF]) d' b1) as (d2 & b2 & l & E2 & Hb2 & Hl2 & Hll & Hlb); try done.
      { rewrite length_app. simpl. lia. }
      rewrite length_app in E2. simpl in E2.
      replace (Z.of_nat (length pre) + 1) with (Z.of_nat (length pre + 1)) by lia.
      exists d2, b2, (u8 EOF :: l). rewrite <- app_assoc in Hb2. split_and!; try done; [congruence|simpl; lia|by constructor|].
      right. intros [Hc _]%Forall_cons. unfold cont in Hc. change (u8 EOF) with 255 in Hc. lia.
    + destruct (source_some d c0 r Eu) as (d0 & E & Er). rewrite E in Ed. simplify_eq.
      apply Forall_cons in Hd as [Hc Hr].
      destruct (IH (pre ++ [u8 c]) d' b1) as (d2 & b2 & l & E2 & Hb2 & Hl2 & Hll & Hlb & Hcase); try done.
      { rewrite length_app. simpl. lia. }
      rewrite length_app in E2. simpl in E2.
      replace (Z.of_nat (length pre) + 1) with (Z.of_nat (length pre + 1)) by lia.
      exists d2, b2, (u8 c :: l). rewrite <- app_assoc in Hb2. split_and!; try done; [congruence|simpl; lia|by constructor|].
      destruct Hcase as [(r' & ->)|Hn]; [left|right; by intros [_ ?]%Forall_cons].
      exists r'. unfold u8. by rewrite Z.mod_small.
Qed.

(** The error is seen only when there is no junk. *)
Definition shown (e : option json_error_t) : option json_error_t := match junk with [] => e | _ => None end.

(** The source is used up; what is no UTF-8 is an error. *)
Definition ended (x x' : context) : Prop :=
  ∃ s e, x' = Context s (saved_text x) (token x) (value x) e (values x) ∧ st_state s = fin ∧
    shown e = shown (error x).

(** [error_set] with the text that was saved. *)
Lemma error_set_total msg l (x : context) :
  holds (saved_text x) l → Forall (λ b, b ≠ 0) l →
  wpr (error_set msg) x (λ _ x', ∃ e, x' = Context (stream x) (saved_text x) (token x) (value x) e (values x)).
Proof.
  intros Hh Hl. unfold error_set. apply wp_get_bind. destruct (error x) as [er|] eqn:Ee.
  - destruct (holds_cstring _ _ Hh Hl) as (a & Ea & Ec). rewrite Ea.
    eapply wp_liftS_bind; [exact Ec|]. apply wp_get_bind, wp_put. by eexists.
  - apply wp_ret. exists None. rewrite <- Ee. by destruct x.
Qed.

(** The end of the function that reads a character, when there is none. *)
Lemma fill_out c d buffer l (x : context) :
  junk ≠ [] → holds (saved_text x) l → Forall (λ b, b ≠ 0) l →
  let s := stream x in
  wpr (_ ← put_stream (Stream d buffer 0 STREAM_STATE_ERROR (st_line s)
                        (st_column s) (st_last_column s) (st_position s));
       _ ← error_set (str "unable to decode byte 0x" ++ hex c);
       mret (Some STREAM_STATE_ERROR)) x (λ r x', r = Some fin ∧ ended x x').
Proof.
  intros Ht Hh Hl s. apply wp_put_stream_bind. eapply wp_seq; [by apply (error_set_total _ l)|].
  intros [] x' (e & ->). apply wp_ret. unfold ended, shown, fin.
  destruct junk as [|b r]; [done|]. split; [done|]. by eexists _, _.
Qed.

Lemma stream_fill_end x front l :
  feeding (stream x) front [] [] → holds (saved_text x) l → Forall (λ b, b ≠ 0) l →
  wpr stream_fill x (λ r x', r = Some fin ∧ ended x x').
Proof.
  intros [Hst Hpos Hbuf Hsize Hroom _ _ _ Hup] Hh Hl. simpl in Hup. unfold stream_fill. apply wp_get_stream.
  pose proof junk_stuck as Hs. destruct junk as [|b t] eqn:Et.
  - destruct (source_none _ Hup) as (d' & ->). rewrite Z.eqb_refl. apply wp_put_stream_bind, wp_ret.
    unfold ended, shown, fin. rewrite Et. split; [done|]. by eexists _, _.
  - destruct (source_some _ _ _ Hup) as (d1 & -> & Hd1).
    assert (Htb : Forall text_byte (b :: t)) by (by destruct Hs as [|[? _]]).
    pose proof Htb as [[Hb Hb0] Ht]%Forall_cons. apply text_bytes in Ht.
    rewrite (proj2 (Z.eqb_neq b EOF)) by (unfold EOF, is_byte in *; lia).
    unfold u8. rewrite Z.mod_small by done.
    destruct (starts_set (st_buffer (stream x)) [] b) as (b1 & Eb1 & Hb1 & Hl1); [intros ? ?; simpl in *; lia|simpl; lia|].
    eapply wp_liftS_bind; [exact Eb1|].
    assert (Hhi : 0x80 ≤ b).
    { destruct (Z.leb_spec 0x80 b) as [|Hlo]; [done|]. destruct Hs as [|[_ Hno]]; [done|]. unfold is_byte in Hb.
      destruct (Hno b t); [apply scalar_ascii; lia|]. by rewrite utf8_ascii by lia. }
    rewrite (proj2 (Z.leb_le 0x80 b)), (proj2 (Z.leb_le b 0xFF)) by (unfold is_byte in Hb; lia). cbn [andb].
    rewrite utf8_check_first_announced by done.
    assert (Hout : ∀ d buffer, wpr (_ ← put_stream (Stream d buffer 0 STREAM_STATE_ERROR (st_line (stream x))
        (st_column (stream x)) (st_last_column (stream x)) (st_position (stream x)));
       _ ← error_set (str "unable to decode byte 0x" ++ hex b); mret (Some STREAM_STATE_ERROR)) x
       (λ r x', r = Some fin ∧ ended x x')).
    { intros d buffer. apply (fill_out b d buffer l x); [by rewrite Et|done..]. }
    destruct (Z.eqb_spec (announced b) 0) as [|Hn0]; [apply Hout|].
    assert (Hn : announced b ≠ 1) by (rewrite announced_ascii by done; lia).
    assert (H24 : 2 ≤ announced b ≤ 4) by (unfold announced in *; repeat case_bool; lia).
    apply wp_assert_bind; [apply Z.leb_le; lia|].
    destruct (read_sequence_any (Z.to_nat (announced b - 1)) [b] d1 b1) as (d2 & b2 & s & E2 & Hb2 & Hl2 & Hls & Hsb & Hcase);
      [by rewrite Hd1|done|simpl; lia|].
    eapply wp_liftS_bind; [exact E2|].
    replace (Z.to_nat (announced b)) with (length (b :: s)) by (simpl; lia).
    eapply wp_liftS_bind; [apply (buffer_bytes_spec (b :: s) [] [] b2); by rewrite app_nil_r|].
    eapply wp_liftS_bind; [apply (stuck_sequence b t s); try done; [lia|simpl; lia|by rewrite <- Hd1]|].
    apply Hout.
Qed.

Lemma stream_get_end x prev l :
  feeds (stream x) prev [] → holds (saved_text x) l → Forall (λ b, b ≠ 0) l →
  wpr stream_get x (λ c x', c = fin ∧ ended x x').
Proof.
  intros [(Hs & ->)|(front & Hf)]%feeds_end Hh Hl; unfold stream_get; apply wp_get_stream.
  - rewrite Hs. assert (negb (fin =? STREAM_STATE_OK) = true) as -> by (by destruct fin_cases as [[-> _]|[-> _]]).
    apply wp_ret. split; [done|]. exists (stream x), (error x). by destruct x.
  - pose proof Hf as [Hst Hpos Hbuf Hsize Hroom _ _ _ Hup]. rewrite Hst. cbn [negb Z.eqb STREAM_STATE_OK].
    rewrite app_nil_r in Hbuf.
    eapply wp_liftS_bind; [rewrite Hpos; by apply (starts_get_middle _ front 0 [])|].
    rewrite Z.eqb_refl. eapply wp_seq; [by apply (stream_fill_end x front l)|].
    intros r x' (-> & Hx'). by apply wp_ret.
Qed.

(** A character that is in the buffer. *)
Lemma stream_get_buffered x front b back vs (s := stream x) :
  feeding s front (b :: back) vs →
  wpr (s ← get_stream;
       b ← liftS (aget (st_buffer s) (st_buffer_pos s));
       let c := s8 b in
       let pos := st_buffer_pos s + 1 in
       let position := st_position s + 1 in
       _ ← put_stream
         (if c =? 10 then Stream (st_data s) (st_buffer s) pos (st_state s) (st_line s + 1) 0
                            (st_column s) position
          else Stream (st_data s) (st_buffer s) pos (st_state s) (st_line s)
                 (if utf8_check_first c =? 0 then st_column s else st_column s + 1)
                 (st_last_column s) position);
       mret c) x
    (λ c x', c = s8 b ∧ ∃ s', x' = with_stream s' x ∧ feeding s' (front ++ [b]) back vs).
Proof.
  intros [Hst Hpos Hbuf Hsize Hroom Hback Hsc Htx Hup]. apply wp_get_stream. fold s.
  eapply wp_liftS_bind.
  { rewrite Hpos. apply (starts_get_middle _ front b (back ++ [0])). by rewrite <- app_assoc in Hbuf. }
  apply wp_put_stream_bind, wp_ret. split; [done|]. eexists. split; [done|].
  apply Forall_cons in Hback as [_ Hback].
  simpl in Hroom. case_bool; split; simpl; try done; rewrite ?length_app; simpl; try (fold s; lia); try lia;
    by rewrite <- (app_assoc front [b]).
Qed.

Lemma utf8s_cons v vs : utf8s (v :: vs) = utf8 v ++ utf8s vs.
Proof. done. Qed.

Lemma stream_get_next x prev b rest :
  feeds (stream x) prev (b :: rest) →
  wpr stream_get x (λ c x', c = s8 b ∧ char_byte b ∧ ∃ s, x' = with_stream s x ∧ feeds s (Some b) rest).
Proof.
  intros [(_ & _ & ?)|(front & back & vs & Hf & E & _)]; [done|]. unfold stream_get. apply wp_get_stream.
  pose proof Hf as [Hst Hpos Hbuf Hsize Hroom Hback Hsc Htx Hup]. rewrite Hst. cbn [negb Z.eqb STREAM_STATE_OK].
  assert (Hpost : ∀ x1 f back1 vs1, feeding (stream x1) f (b :: back1) vs1 → rest = back1 ++ utf8s vs1 →
    x1 = with_stream (stream x1) x →
    wpr (s ← get_stream;
         b ← liftS (aget (st_buffer s) (st_buffer_pos s));
         let c := s8 b in
         let pos := st_buffer_pos s + 1 in
         let position := st_position s + 1 in
         _ ← put_stream
           (if c =? 10 then Stream (st_data s) (st_buffer s) pos (st_state s) (st_line s + 1) 0
                              (st_column s) position
            else Stream (st_data s) (st_buffer s) pos (st_state s) (st_line s)
                   (if utf8_check_first c =? 0 then st_column s else st_column s + 1)
                   (st_last_column s) position);
         mret c) x1
      (λ c x', c = s8 b ∧ char_byte b ∧ ∃ s, x' = with_stream s x ∧ feeds s (Some b) rest)).
  { intros x1 f back1 vs1 H1 E1 Ex1. eapply wp_mono; [by apply (stream_get_buffered x1 f b back1 vs1)|].
    intros [c| |] x' Hx'; [|done..]. destruct Hx' as (-> & s' & -> & Hs').
    pose proof (feeding_back _ _ _ _ H1) as Hb. apply Forall_cons in Hb as [Hb _].
    split; [done|]. split; [done|]. exists s'. split; [by rewrite Ex1|]. right.
    exists (f ++ [b]), back1, vs1. split; [done|]. split; [done|]. intros ? [= <-]. eauto. }
  destruct back as [|b' back].
  - destruct vs as [|v vs]; [done|]. rewrite app_nil_r in Hbuf.
    eapply wp_liftS_bind; [rewrite Hpos; by apply (starts_get_middle _ front 0 [])|].
    rewrite Z.eqb_refl. eapply wp_seq; [by apply (stream_fill_spec x front v vs)|].
    intros r x1 (-> & s1 & -> & H1 & _). rewrite utf8s_cons in E.
    destruct (utf8_cons v) as (c & l & El). rewrite El in *. simplify_eq/=. by eapply Hpost.
  - simplify_eq/=. apply Forall_cons in Hback as [Hb' Hback].
    eapply wp_liftS_bind.
    { rewrite Hpos. apply (starts_get_middle _ front b' (back ++ [0])). by rewrite <- app_assoc in Hbuf. }
    rewrite (proj2 (Z.eqb_neq b' 0)) by (unfold char_byte in Hb'; lia). apply wp_ret_bind.
    eapply Hpost; [exact Hf|done|by destruct x].
Qed.

Lemma stream_unget_spec x b rest :
  feeds (stream x) (Some b) rest →
  wpr (stream_unget (s8 b)) x (λ _ x', ∃ s, x' = with_stream s x ∧ feeds s None (b :: rest)).
Proof.
  intros [(_ & ? & _)|(front & back & vs & Hf & -> & Hprev)]; [done|].
  destruct (Hprev b eq_refl) as (Hb & f & ->). destruct (s8_char b Hb) as [H1 H2].
  pose proof Hf as [Hst Hpos Hbuf Hsize Hroom Hback Hsc Htx Hup]. unfold stream_unget.
  rewrite (proj2 (Z.eqb_neq _ _) H1), (proj2 (Z.eqb_neq _ _) H2). cbn [orb]. apply wp_get_stream.
  rewrite length_app in Hpos. simpl in Hpos.
  set (lc := if s8 b =? 10 then _ else _). destruct lc as [line column].
  apply wp_assert_bind; [apply Z.ltb_lt; lia|].
  assert (Eb : aget (st_buffer (stream x)) (st_buffer_pos (stream x) - 1) = Ret b).
  { replace (st_buffer_pos (stream x) - 1) with (Z.of_nat (length f)) by lia.
    apply (starts_get_middle _ f b (back ++ [0])). by rewrite <- !app_assoc in Hbuf. }
  eapply wp_liftS_bind; [exact Eb|]. apply wp_assert_bind; [apply Z.eqb_refl|]. apply wp_put_stream.
  eexists. split; [done|]. right. exists f, (b :: back), vs. split; [|by split].
  rewrite length_app in Hroom. simpl in Hroom.
  split; simpl; try done; [lia|by rewrite <- (app_assoc f [b]) in Hbuf|lia|by constructor].
Qed.

(** ** Characters and the saved text *)

Definition LIMIT : Z := 2 ^ 62.

Record at_ (x : context) (l : list Z) (prev : option Z) (rest : list Z) : Prop := {
  at_saved : holds (saved_text x) l;
  at_bytes : Forall char_byte l;
  at_feeds : feeds (stream x) prev rest;
  at_limit : Z.of_nat (length l + length rest) < LIMIT
}.

(** Only the stream and the text change, and the error when junk is read. *)
Definition keeps (x x' : context) : Prop :=
  token x' = token x ∧ value x' = value x ∧ shown (error x') = shown (error x) ∧ values x' = values x.

Lemma keeps_refl x : keeps x x.
Proof. done. Qed.

Lemma keeps_trans x y z : keeps x y → keeps y z → keeps x z.
Proof. unfold keeps. intuition congruence. Qed.

Lemma keeps_stream x s : keeps x (with_stream s x).
Proof. done. Qed.

(** The character that is read next, a state behind the last one. *)
Definition cur (rest : list Z) : Z := match rest with [] => fin | b :: _ => s8 b end.

(** [rest] comes next, and its first character was read and saved. *)
Definition look (x : context) (l rest : list Z) : Prop :=
  match rest with
  | [] => at_ x l None []
  | b :: r => char_byte b ∧ at_ x (l ++ [b]) (Some b) r
  end.

Lemma wp_on_saved {A} (m : SM strbuffer_t A) x (Q : outcome A → context → Prop) :
  wp m (saved_text x) (λ o b, Q o (Context (stream x) b (token x) (value x) (error x) (values x))) →
  wp (on_saved m) x Q.
Proof.
  intros Hm w Hw. destruct (Hm w Hw) as [Hw' HQ]. unfold on_saved, zoom.
  by destruct (m (saved_text x) w) as [[o b] w'].
Qed.

Lemma wp_on_heap {A} (m : SM heap A) x (Q : outcome A → context → Prop) :
  wp m (values x) (λ o h, Q o (Context (stream x) (saved_text x) (token x) (value x) (error x) h)) →
  wp (on_heap m) x Q.
Proof.
  intros Hm w Hw. destruct (Hm w Hw) as [Hw' HQ]. unfold on_heap, zoom.
  by destruct (m (values x) w) as [[o b] w'].
Qed.

Lemma wp_ignore {S A} (m : SM S A) s (Q : outcome unit → S → Prop) :
  wp m s (λ o s', match o with Undef => Q Undef s' | _ => Q (Ret tt) s' end) → wp (ignore m) s Q.
Proof.
  intros Hm. unfold ignore. apply wp_bind, wp_attempt. eapply wp_mono; [exact Hm|].
  intros [a| |] s' HQ; [by apply wp_ret..|done].
Qed.

Lemma char_bytes_nonzero l : Forall char_byte l → Forall (λ b, b ≠ 0) l.
Proof. intros Hl. eapply Forall_impl; [exact Hl|]. unfold char_byte. lia. Qed.

Lemma lex_get_spec x l prev rest :
  at_ x l prev rest →
  wpr lex_get x (λ c x', c = cur rest ∧ keeps x x' ∧
    match rest with
    | [] => at_ x' l None []
    | b :: r => char_byte b ∧ at_ x' l (Some b) r
    end).
Proof.
  intros [Hs Hb Hf Hl]. unfold lex_get. destruct rest as [|b r].
  - eapply wp_mono; [eapply stream_get_end; [exact Hf|exact Hs|by apply char_bytes_nonzero]|].
    intros [c| |] x' Hx; [|done..]. destruct Hx as (-> & s & e & -> & Hs' & He). split_and!; try done.
    split; try done. by left.
  - eapply wp_mono; [by eapply stream_get_next|]. intros [c| |] x' Hx; [|done..].
    destruct Hx as (-> & Hc & s & -> & Hs'). split_and!; try done. split; simpl in *; try done. lia.
Qed.

Lemma lex_save_spec x l prev rest b :
  at_ x l prev rest → char_byte b → Z.of_nat (length l + length rest) + 1 < LIMIT →
  wpr (lex_save (s8 b)) x (λ _ x', at_ x' (l ++ [b]) prev rest ∧ keeps x x').
Proof.
  intros [Hs Hbs Hf Hl] Hb Hlim. unfold lex_save. apply wp_ignore, wp_on_saved.
  unfold strbuffer_append_byte.
  assert (Eb : u8 (s8 b) = b).
  { unfold char_byte, u8, s8 in *. case_bool; unfold u8 in *; byte_arith. }
  rewrite Eb. eapply wp_mono; [by apply holds_append|].
  intros [[]| |] sb Hsb; [|exfalso|done].
  - split; [|done]. split; [done|apply Forall_app; by split; [|constructor]|done|]. rewrite length_app. simpl. lia.
  - destruct Hsb as [_ Hbig]. unfold LIMIT, STRBUFFER_SIZE_MAX in *. simpl in Hbig. byte_arith.
Qed.

Lemma not_states b : char_byte b → (s8 b =? STREAM_STATE_EOF) || (s8 b =? STREAM_STATE_ERROR) = false.
Proof. intros Hb. destruct (s8_char b Hb). apply orb_false_iff. by split; apply Z.eqb_neq. Qed.

Lemma lex_get_save_spec x l prev rest :
  at_ x l prev rest →
  wpr lex_get_save x (λ c x', c = cur rest ∧ keeps x x' ∧ look x' l rest).
Proof.
  intros Hx. unfold lex_get_save. eapply wp_seq; [by apply (lex_get_spec x l prev rest)|].
  intros c x1 (-> & Hk & Hx1). destruct rest as [|b r].
  - cbn [cur]. rewrite fin_state. by apply wp_ret.
  - destruct Hx1 as [Hb Hx1]. cbn [cur]. rewrite (not_states b Hb).
    eapply wp_seq; [apply (lex_save_spec x1 l (Some b) r b); try done|].
    + pose proof (at_limit _ _ _ _ Hx). simpl in *. lia.
    + intros _ x2 [Hx2 Hk2]. apply wp_ret. split; [done|]. split; [by eapply keeps_trans|]. by split.
Qed.

(** Reading on. *)
Lemma look_next x l b rest :
  look x l (b :: rest) →
  wpr lex_get_save x (λ c x', c = cur rest ∧ keeps x x' ∧ look x' (l ++ [b]) rest).
Proof. intros [_ Hx]. by eapply lex_get_save_spec. Qed.

Lemma lex_unget_spec x l b rest :
  at_ x l (Some b) rest → Z.of_nat (length l + length rest) + 1 < LIMIT →
  wpr (lex_unget (s8 b)) x (λ _ x', at_ x' l None (b :: rest) ∧ keeps x x').
Proof.
  intros [Hs Hb Hf Hl] Hlim. eapply wp_mono; [by apply stream_unget_spec|].
  intros [[]| |] x' Hx; [|done..]. destruct Hx as (s & -> & Hs'). split; [|done].
  split; [done|done|done|]. simpl. lia.
Qed.

Lemma lex_unget_unsave_spec x l rest :
  look x l rest →
  wpr (lex_unget_unsave (cur rest)) x (λ _ x', at_ x' l None rest ∧ keeps x x').
Proof.
  unfold lex_unget_unsave. destruct rest as [|b r]; simpl; [intros Hx; rewrite fin_state; by apply wp_ret|].
  intros [Hb Hx]. rewrite (not_states b Hb). pose proof Hx as [Hs [Hbs _]%Forall_app Hf Hl].
  eapply wp_seq; [by apply (stream_unget_spec x b r)|]. intros _ x1 (s & -> & Hs1).
  eapply wp_seq with (P := λ d x', d = s8 b ∧ at_ x' l None (b :: r) ∧ keeps x x').
  - apply wp_on_saved. eapply wp_mono; [by apply holds_pop|].
    intros [d| |] sb Hd; [|done..]. destruct Hd as [-> Hd]. split; [done|]. split; [|done].
    split; [done|done|done|]. rewrite length_app in Hl. simpl in *. lia.
  - intros d x2 (-> & Hx2 & Hk). rewrite Z.eqb_refl. by apply wp_ret.
Qed.

Lemma get_save_while_spec test fuel x l ds rest :
  look x l (ds ++ rest) → Forall (λ d, test (s8 d) = true) ds → test (cur rest) = false →
  (length ds ≤ fuel)%nat →
  wpr (get_save_while test fuel (cur (ds ++ rest))) x
    (λ c x', c = cur rest ∧ keeps x x' ∧ look x' (l ++ ds) rest).
Proof.
  revert fuel x l. induction ds as [|d ds IH]; intros fuel x l Hx Hds Hrest Hf.
  - rewrite app_nil_r. simpl app in *. destruct fuel; cbn [get_save_while]; rewrite Hrest; by apply wp_ret.
  - apply Forall_cons in Hds as [Hd Hds]. destruct fuel as [|fuel]; [simpl in Hf; lia|].
    cbn [get_save_while app cur]. rewrite Hd. eapply wp_seq; [by apply (look_next x l d (ds ++ rest))|].
    intros c x1 (-> & Hk & Hx1). eapply wp_mono; [apply (IH fuel x1 (l ++ [d])); try done; simpl in Hf; lia|].
    intros [c'| |] x2 Hx2; [|done..]. destruct Hx2 as (-> & Hk2 & Hx2). split; [done|].
    split; [by eapply keeps_trans|]. by rewrite <- (app_assoc l [d]) in Hx2.
Qed.
End streams.
