(* ===== verification/JFile.v ===== *)
(** * Files (jansson/load.c, jansson/dump.c)

    [json_loadf], [json_load_file], [json_dumpf] and [json_dump_file] over the
    files of the C library: a file that is read delivers its bytes one by one;
    what [fopen], [strerror] and [fwrite] do is a parameter. *)

From S2P Require Import Prelude CModel JBase JUtf JStrbuf JHash JValue JArray JReal JLex JScan JLoad JDump JLexTheory.
From stdpp Require Import strings.
From Stdlib Require Import SpecFloat.
#[local] Open Scope Z_scope.

(** ** Reading *)

(** [f_stdin]: the file is [stdin]. *)
Record FILE := File { f_stdin : bool; f_rest : list Z }.

Definition fgetc (f : FILE) : Z * FILE :=
  match f_rest f with
  | [] => (EOF, f)
  | c :: rest => (c, File (f_stdin f) rest)
  end.

#[export] Instance file_source : Source FILE := fgetc.

#[export, program] Instance file_source_laws : SourceLaws FILE := {| upcoming := f_rest |}.
Next Obligation. intros [b rest] c l E. simpl in E. subst rest. by eexists. Qed.
Next Obligation. intros [b rest] E. simpl in E. subst rest. by eexists. Qed.

Definition json_loadf (input : option FILE) (flags : Z) : SM (heap * option json_error_t) ref :=
  let source := match input with
                | Some f => if f_stdin f then str "<stdin>" else str "<stream>"
                | None => str "<stream>"
                end in
  _ ← init_error source;
  match input with
  | None => wrong_arguments
  | Some f => load (S (S (length (f_rest f)))) f flags
  end.

Section files.
(** [fopen(path, "rb")], and [strerror(errno)] when it fails. *)
Context (fopen : list Z → option FILE) (strerror : list Z).

(** The error structure gets the source of [json_loadf] in the end. *)
Definition json_load_file (path : option (list Z)) (flags : Z) : SM (heap * option json_error_t) ref :=
  he ← get;
  _ ← put (he.1, match path with
                 | Some path => jsonp_error_init path he.2
                 | None => (λ _, JsonError (-1) (-1) 0 [] []) <$> he.2
                 end);
  match path with
  | None => wrong_arguments
  | Some path =>
    match fopen path with
    | None =>
      he ← get;
      _ ← put (he.1, jsonp_error_set (-1) (-1) 0
                       (truncated JSON_ERROR_TEXT_LENGTH (str "unable to open " ++ path ++ str ": " ++ strerror)) he.2);
      sfail
    | Some fp => json_loadf (Some fp) flags
    end
  end.
End files.

(** ** Writing *)

Section output.
(** [fwrite(buffer, size, 1, dest)]: the number of blocks written. *)
Context {S : Type} (fwrite : list Z → SM S Z).

Definition dump_to_file (buffer : list Z) : SM S unit :=
  n ← fwrite buffer;
  if negb (n =? 1) then sfail else mret tt.

Definition json_dumpf (json : option ref) (flags : Z) : SM (heap * S) unit :=
  json_dump_callback dump_to_file json flags.

(** [fopen(path, "w")] and [fclose]; the result is that of the dump. *)
Context (fopen : list Z → SM S unit) (fclose : SM S unit).

Definition json_dump_file (json : option ref) (path : list Z) (flags : Z) : SM (heap * S) unit :=
  let on_file {A} (m : SM S A) : SM (heap * S) A := zoom snd (λ d s, (s.1, d)) m in
  _ ← on_file (fopen path);
  result ← attempt (json_dumpf json flags);
  _ ← on_file fclose;
  match result with Some _ => mret tt | None => sfail end.
End output.
