(* ===== verification/JStringTheory.v ===== *)
(** * Theory of the lexer: strings

    The characters of a string are scanned to the closing quote, and
    [lex_scan_string] returns the bytes that the text stands for. *)

From S2P Require Import Prelude CModel JBase JUtf JStrbuf JHash JValue JArray JReal JLex JScan.
From S2P Require Import JSpec JLexTheory.
From stdpp Require Import strings.
From Stdlib Require Import SpecFloat.
#[local] Open Scope Z_scope.

(** ** Bytes of strings *)

(** Bytes that stand for themselves. *)
Definition plain_byte (b : Z) : Prop := char_byte b ∧ 0x20 ≤ b ∧ b ≠ 34 ∧ b ≠ 92.

Lemma utf8_plain v : scalar v → 0x20 ≤ v → v ≠ 34 → v ≠ 92 → Forall plain_byte (utf8 v).
Proof.
  intros [Hv Hs] H1 H2 H3. unfold utf8, plain_byte, char_byte.
  repeat case_bool; repeat constructor; byte_arith.
Qed.

Lemma hex_value_spec c v :
  hex_value c = Some v →
  (48 ≤ c ≤ 57 ∧ v = c - 48) ∨ (65 ≤ c ≤ 70 ∧ v = c - 55) ∨ (97 ≤ c ≤ 102 ∧ v = c - 87).
Proof. unfold hex_value. repeat case_bool; simpl; intros [= <-]; lia. Qed.

Lemma hex4_value_spec ds v :
  hex4_value ds = Some v →
  ∃ a b c d va vb vc vd, ds = [a; b; c; d] ∧ hex_value a = Some va ∧ hex_value b = Some vb ∧
    hex_value c = Some vc ∧ hex_value d = Some vd ∧ v = 4096 * va + 256 * vb + 16 * vc + vd.
Proof.
  destruct ds as [|a [|b [|c [|d []]]]]; try done. simpl.
  destruct (hex_value a) eqn:Ea; [|done]. destruct (hex_value b) eqn:Eb; [|done].
  destruct (hex_value c) eqn:Ec; [|done]. destruct (hex_value d) eqn:Ed; [|done].
  simpl. intros [= <-]. eauto 20.
Qed.

Lemma hex_value_byte c v : hex_value c = Some v → char_byte c ∧ 0 ≤ c < 0x80 ∧ 0 ≤ v < 16.
Proof. intros H. apply hex_value_spec in H. unfold char_byte. lia. Qed.

Lemma hex4_bytes ds v : hex4_value ds = Some v → Forall char_byte ds.
Proof.
  intros (a & b & c & d & va & vb & vc & vd & -> & Ha & Hb & Hc & Hd & _)%hex4_value_spec.
  rewrite !Forall_cons. split_and!; try by eapply hex_value_byte. constructor.
Qed.

Lemma hex4_range ds v : hex4_value ds = Some v → 0 ≤ v < 0x10000.
Proof.
  intros (a & b & c & d & va & vb & vc & vd & -> & Ha & Hb & Hc & Hd & ->)%hex4_value_spec.
  repeat match goal with H : hex_value _ = Some _ |- _ => apply hex_value_byte in H as (_ & _ & ?) end. lia.
Qed.

(** The macro accepts every character. *)
Lemma l_isxdigit_true c : l_isxdigit c = true.
Proof. unfold l_isxdigit. destruct (Z.leb_spec 65 c), (Z.leb_spec c 70); rewrite ?orb_true_r; try done. lia. Qed.

Lemma short_escapes_spec c v :
  (c, v) ∈ short_escapes →
  is_escape c = true ∧ short_escape c = Some v ∧ c ≠ 117 ∧ 0 < c < 0x80 ∧ 0 < v < 0x80.
Proof.
  intros Hin. assert (Hall : Forall (λ cv : Z * Z, is_escape cv.1 = true ∧ short_escape cv.1 = Some cv.2 ∧
    cv.1 ≠ 117 ∧ 0 < cv.1 < 0x80 ∧ 0 < cv.2 < 0x80) short_escapes).
  { apply (bool_decide_unpack _). vm_compute. exact I. }
  exact (proj1 (Forall_forall _ _) Hall (c, v) Hin).
Qed.

Lemma char_text_bytes t s : char_text t s → Forall char_byte t.
Proof.
  destruct 1 as [v Hv H1 H2 H3|c v Hin|ds v Hds Hv H0|ds1 ds2 v1 v2 H1 H2 _ _].
  - eapply Forall_impl; [by apply utf8_plain|]. by intros b [? _].
  - apply short_escapes_spec in Hin. unfold char_byte. repeat constructor; lia.
  - apply hex4_bytes in Hds. unfold char_byte in *. repeat constructor; try lia. done.
  - apply hex4_bytes in H1, H2. rewrite !app_comm_cons, Forall_app, !Forall_cons. unfold char_byte in *.
    repeat split; try lia; done.
Qed.

Lemma chars_text_bytes t s : chars_text t s → Forall char_byte t.
Proof. induction 1; [constructor|]. apply Forall_app. eauto using char_text_bytes. Qed.

(** Escapes are longer than what they stand for. *)
Lemma char_text_length t s : char_text t s → (length s ≤ length t)%nat ∧ (1 ≤ length t)%nat.
Proof.
  destruct 1 as [v Hv H1 H2 H3|c v Hin|ds v Hds Hv H0|ds1 ds2 v1 v2 H1 H2 _ _].
  - pose proof (length_utf8 v). lia.
  - simpl. lia.
  - apply hex4_value_spec in Hds as (a & b & c & d & va & vb & vc & vd & -> & _).
    pose proof (length_utf8 v). simpl. lia.
  - apply hex4_value_spec in H1 as (? & ? & ? & ? & ? & ? & ? & ? & -> & _).
    set (v := 0x10000 + _ + _). pose proof (length_utf8 v). simpl. lia.
Qed.

Lemma chars_text_length t s : chars_text t s → (length s ≤ length t)%nat.
Proof.
  induction 1 as [|t s ts ss Ht Hts IH]; [done|]. apply char_text_length in Ht.
  rewrite !length_app. lia.
Qed.

Section tokens.
Context {D : Type} {HS : Source D} {HL : SourceLaws D} {T : Tail}.
Abbreviation context := (context D).

(** ** The loop over the characters of a string *)

Lemma plain_tests b :
  plain_byte b →
  (s8 b =? 34) = false ∧ (s8 b =? STREAM_STATE_ERROR) = false ∧ (s8 b =? STREAM_STATE_EOF) = false ∧
  (0 <=? s8 b) && (s8 b <=? 0x1F) = false ∧ (s8 b =? 92) = false.
Proof.
  intros (Hc & H1 & H2 & H3). destruct (s8_char b Hc) as [H4 H5]. unfold char_byte in Hc.
  assert (Hs : s8 b = b ∨ s8 b < 0).
  { destruct (decide (b < 0x80)); [left; apply s8_ascii; lia|right; apply s8_high; lia]. }
  rewrite !Z.eqb_neq, andb_false_iff, !Z.leb_gt. lia.
Qed.

Lemma scan_plain fuel x l b rest (Q : outcome bool → context → Prop) :
  look x l (b :: rest) → plain_byte b →
  (∀ x', keeps x x' → look x' (l ++ [b]) rest → wp (scan_chars fuel (cur rest)) x' Q) →
  wp (scan_chars (S fuel) (s8 b)) x Q.
Proof.
  intros Hx Hb HQ. destruct (plain_tests b Hb) as (E1 & E2 & E3 & E4 & E5).
  cbn [scan_chars]. rewrite E1, E2, E3, E4, E5.
  apply (wp_seq _ _ _ (λ r x', r = Some (cur rest) ∧ keeps x x' ∧ look x' (l ++ [b]) rest)).
  - eapply wp_seq; [by apply (look_next x l b rest)|]. intros c x1 (-> & Hk & Hx1). by apply wp_ret.
  - intros r x' (-> & Hk & Hx'). by apply HQ.
Qed.

Lemma scan_plains bs fuel x l rest (Q : outcome bool → context → Prop) :
  look x l (bs ++ rest) → Forall plain_byte bs →
  (∀ x', keeps x x' → look x' (l ++ bs) rest → wp (scan_chars fuel (cur rest)) x' Q) →
  wp (scan_chars (length bs + fuel) (cur (bs ++ rest))) x Q.
Proof.
  revert x l. induction bs as [|b bs IH]; intros x l Hx Hbs HQ; simpl in *.
  - apply HQ; [done|]. by rewrite app_nil_r.
  - apply Forall_cons in Hbs as [Hb Hbs]. apply (scan_plain _ x l b (bs ++ rest)); [done|done|].
    intros x' Hk Hx'. apply (IH x' (l ++ [b])); [done|done|].
    intros x2 Hk2 Hx2. apply HQ; [by eapply keeps_trans|]. by rewrite <- (app_assoc l [b]) in Hx2.
Qed.

(** The four digits behind [\u]. *)
Lemma scan_hex_spec x l ds rest :
  look x l (ds ++ rest) → 
  wpr (scan_hex (length ds) (cur (ds ++ rest))) x
    (λ r x', r = Some (cur rest) ∧ keeps x x' ∧ look x' (l ++ ds) rest).
Proof.
  revert x l. induction ds as [|d ds IH]; intros x l Hx; simpl in *.
  - apply wp_ret. split; [done|]. split; [done|]. by rewrite app_nil_r.
  - rewrite l_isxdigit_true. simpl. eapply wp_seq; [by apply (look_next x l d (ds ++ rest))|].
    intros c x1 (-> & Hk & Hx1). eapply wp_mono; [by apply (IH x1 (l ++ [d]))|].
    intros [r| |] x2 Hx2; [|done..]. destruct Hx2 as (-> & Hk2 & Hx2). split; [done|].
    split; [by eapply keeps_trans|]. by rewrite <- (app_assoc l [d]) in Hx2.
Qed.

(** A backslash and what [scan] reads behind it. *)
Lemma scan_backslash fuel x l t rest (Q : outcome bool → context → Prop) :
  look x l (92 :: t ++ rest) →
  (∀ x1, keeps x x1 → look x1 (l ++ [92]) (t ++ rest) →
    wpr (if cur (t ++ rest) =? 117 then c ← lex_get_save; scan_hex 4 c
         else if is_escape (cur (t ++ rest)) then c ← lex_get_save; mret (Some c)
         else _ ← error_set (str "invalid escape"); mret None) x1
      (λ r x', r = Some (cur rest) ∧ keeps x1 x' ∧ look x' (l ++ 92 :: t) rest)) →
  (∀ x', keeps x x' → look x' (l ++ 92 :: t) rest → wp (scan_chars fuel (cur rest)) x' Q) →
  wp (scan_chars (S fuel) 92) x Q.
Proof.
  intros Hx Hscan HQ. cbn [scan_chars].
  change (92 =? 34) with false. change (92 =? STREAM_STATE_ERROR) with false.
  change (92 =? STREAM_STATE_EOF) with false. change ((0 <=? 92) && (92 <=? 0x1F)) with false.
  change (92 =? 92) with true. cbv iota.
  apply (wp_seq _ _ _ (λ r x', r = Some (cur rest) ∧ keeps x x' ∧ look x' (l ++ 92 :: t) rest)).
  - eapply wp_seq; [by apply (look_next x l 92 (t ++ rest))|]. intros c x1 (-> & Hk & Hx1).
    eapply wp_mono; [by apply Hscan|]. intros [r| |] x2 Hx2; [|done..].
    destruct Hx2 as (-> & Hk2 & Hx2). split; [done|]. split; [by eapply keeps_trans|done].
  - intros r x' (-> & Hk & Hx'). by apply HQ.
Qed.

Lemma scan_short_escape fuel x l c rest (Q : outcome bool → context → Prop) :
  look x l (92 :: c :: rest) → is_escape c = true → c ≠ 117 → 0 < c < 0x80 →
  (∀ x', keeps x x' → look x' (l ++ [92; c]) rest → wp (scan_chars fuel (cur rest)) x' Q) →
  wp (scan_chars (S fuel) 92) x Q.
Proof.
  intros Hx Hc H117 Hr HQ. apply (scan_backslash fuel x l [c] rest); [done| |done].
  intros x1 Hk Hx1. simpl. rewrite s8_ascii by lia.
  rewrite (proj2 (Z.eqb_neq c 117)), Hc by done.
  eapply wp_seq; [by apply (look_next x1 (l ++ [92]) c rest)|]. intros d x2 (-> & Hk2 & Hx2).
  apply wp_ret. split; [done|]. split; [done|]. by rewrite <- app_assoc in Hx2.
Qed.

Lemma scan_unicode_escape fuel x l ds rest (Q : outcome bool → context → Prop) :
  look x l (92 :: 117 :: ds ++ rest) → length ds = 4%nat →
  (∀ x', keeps x x' → look x' (l ++ 92 :: 117 :: ds) rest → wp (scan_chars fuel (cur rest)) x' Q) →
  wp (scan_chars (S fuel) 92) x Q.
Proof.
  intros Hx Hl HQ. apply (scan_backslash fuel x l (117 :: ds) rest); [done| |done].
  intros x1 Hk Hx1. cbn [app cur]. change (s8 117 =? 117) with true. cbv iota.
  eapply wp_seq; [by apply (look_next x1 (l ++ [92]) 117 (ds ++ rest))|]. intros d x2 (-> & Hk2 & Hx2).
  rewrite <- Hl. eapply wp_mono; [exact (scan_hex_spec x2 _ ds rest Hx2)|].
  intros [r| |] x3 Hx3; [|done..]. destruct Hx3 as (-> & Hk3 & Hx3). split; [done|].
  split; [by eapply keeps_trans|]. by rewrite <- !app_assoc in Hx3.
Qed.

(** One character, whatever way it is written. *)
Lemma scan_char t s fuel x l rest (Q : outcome bool → context → Prop) :
  char_text t s → look x l (t ++ rest) →
  (∀ n x', keeps x x' → look x' (l ++ t) rest → (fuel ≤ n)%nat → wp (scan_chars n (cur rest)) x' Q) →
  wp (scan_chars (length t + fuel) (cur (t ++ rest))) x Q.
Proof.
  destruct 1 as [v Hv H1 H2 H3|c v Hin|ds v Hds Hv H0|ds1 ds2 v1 v2 H1 H2 _ _]; intros Hx HQ.
  - apply (scan_plains _ fuel x l rest); [done|by apply utf8_plain|]. intros x' Hk Hx'. by apply HQ.
  - apply short_escapes_spec in Hin as (He & _ & H117 & Hr & _). cbn [app length Nat.add cur] in *.
    change (s8 92) with 92.
    apply (scan_short_escape (S fuel) x l c rest); try done. intros x' Hk Hx'. apply HQ; [done|done|lia].
  - assert (Hl : length ds = 4%nat).
    { by apply hex4_value_spec in Hds as (? & ? & ? & ? & ? & ? & ? & ? & -> & _). }
    cbn [app length Nat.add cur] in *. change (s8 92) with 92.
    apply (scan_unicode_escape _ x l ds rest); try done. intros x' Hk Hx'. apply HQ; [done|done|lia].
  - assert (Hl1 : length ds1 = 4%nat).
    { by apply hex4_value_spec in H1 as (? & ? & ? & ? & ? & ? & ? & ? & -> & _). }
    assert (Hl2 : length ds2 = 4%nat).
    { by apply hex4_value_spec in H2 as (? & ? & ? & ? & ? & ? & ? & ? & -> & _). }
    cbn [app length Nat.add cur] in *. rewrite <- app_assoc in *. cbn [app] in *. change (s8 92) with 92.
    replace (S (S (length (ds1 ++ 92 :: 117 :: ds2) + fuel))) with (S (S (10 + fuel)))
      by (rewrite length_app; simpl; lia).
    apply (scan_unicode_escape _ x l ds1 (92 :: 117 :: ds2 ++ rest)); try done. intros x' Hk Hx'.
    apply (scan_unicode_escape (10 + fuel) x' (l ++ 92 :: 117 :: ds1) ds2 rest); try done. intros x2 Hk2 Hx2.
    apply HQ; [by eapply keeps_trans| |lia]. by rewrite <- app_assoc in Hx2.
Qed.

Lemma scan_chars_spec t s fuel x l rest :
  chars_text t s → look x l (t ++ 34 :: rest) → (length t ≤ fuel)%nat →
  wpr (scan_chars fuel (cur (t ++ 34 :: rest))) x
    (λ ok x', ok = true ∧ keeps x x' ∧ look x' (l ++ t) (34 :: rest)).
Proof.
  intros Ht. revert fuel x l. induction Ht as [|t s ts ss Ht Hts IH]; intros fuel x l Hx Hf.
  - simpl in *. assert (E : scan_chars fuel (s8 34) = mret true) by (by destruct fuel). rewrite E.
    apply wp_ret. split; [done|]. split; [done|]. by rewrite app_nil_r.
  - rewrite length_app in Hf. rewrite <- app_assoc in *.
    replace fuel with (length t + (fuel - length t))%nat by lia.
    eapply (scan_char t s); [done|done|]. intros n x' Hk Hx' Hn.
    eapply wp_mono; [apply (IH n x' (l ++ t)); [done|lia]|].
    intros [ok| |] x2 Hx2; [|done..]. destruct Hx2 as (-> & Hk2 & Hx2). split; [done|].
    split; [by eapply keeps_trans|]. by rewrite <- app_assoc in Hx2.
Qed.
End tokens.

(** ** The copy without escapes *)

Lemma char_at_middle a pre c rest :
  starts a (pre ++ c :: rest) → char_at a (Z.of_nat (length pre)) = Ret (s8 c).
Proof. intros Ha. unfold char_at. by rewrite (starts_get_middle a pre c rest). Qed.

Lemma decode_hex_step n a pre c v acc rest :
  starts a (pre ++ c :: rest) → hex_value c = Some v →
  decode_hex (S n) a (Z.of_nat (length pre)) acc
  = decode_hex n a (Z.of_nat (length (pre ++ [c]))) (16 * acc + v).
Proof.
  intros Ha Hv. cbn [decode_hex]. rewrite (char_at_middle a pre c rest) by done.
  cbn [mbind outcome_bind]. apply hex_value_spec in Hv. rewrite (s8_ascii c) by lia.
  rewrite length_app, Z.shiftl_mul_pow2 by lia. simpl length. change (2 ^ 4) with 16.
  replace (Z.of_nat (length pre) + 1) with (Z.of_nat (length pre + 1)) by lia.
  unfold l_isdigit, l_islower, l_isupper.
  repeat case_bool; try lia; f_equal; lia.
Qed.

Lemma decode_unicode_escape_spec a pre ds v rest :
  starts a (pre ++ 117 :: ds ++ rest) → hex4_value ds = Some v →
  decode_unicode_escape a (Z.of_nat (length pre)) = Ret v.
Proof.
  intros Ha Hds. unfold decode_unicode_escape. rewrite (char_at_middle a pre 117 (ds ++ rest)) by done.
  cbn [mbind outcome_bind]. change (s8 117 =? 117) with true. cbv iota.
  apply hex4_value_spec in Hds as (b & c & d & e & vb & vc & vd & ve & -> & Hb & Hc & Hd & He & ->).
  replace (Z.of_nat (length pre) + 1) with (Z.of_nat (length (pre ++ [117]))) by (rewrite length_app; simpl; lia).
  cbn [app] in Ha.
  rewrite (decode_hex_step 3 a _ b vb 0 (c :: d :: e :: rest)) by (by rewrite <- ?app_assoc).
  rewrite (decode_hex_step 2 a _ c vc _ (d :: e :: rest)) by (by rewrite <- ?app_assoc).
  rewrite (decode_hex_step 1 a _ d vd _ (e :: rest)) by (by rewrite <- ?app_assoc).
  rewrite (decode_hex_step 0 a _ e ve _ rest) by (by rewrite <- ?app_assoc).
  cbn [decode_hex]. unfold mret, outcome_ret. f_equal. lia.
Qed.

Lemma put_chars_spec size t s :
  Z.of_nat (length t + length s) ≤ size → put_chars size t s = Ret (t ++ s).
Proof.
  unfold put_chars. revert t. induction s as [|c s IH]; intros t Hs; cbn [foldM].
  - by rewrite app_nil_r.
  - unfold put_char. simpl in Hs. rewrite (proj2 (Z.ltb_lt _ _)) by lia. cbn [mbind outcome_bind].
    unfold mret, outcome_ret. cbn [mbind outcome_bind]. rewrite IH by (rewrite length_app; simpl; lia).
    by rewrite <- app_assoc.
Qed.

(** An escape of the grammar at [p], which points behind the backslash. *)
Lemma unicode_escape_bmp a pre ds v rest :
  starts a (pre ++ 117 :: ds ++ rest) → hex4_value ds = Some v → scalar v → v ≠ 0 →
  unicode_escape a (Z.of_nat (length pre)) = Ret (inl (v, Z.of_nat (length (pre ++ 117 :: ds)))).
Proof.
  intros Ha Hds [_ Hs] H0. unfold unicode_escape.
  rewrite (decode_unicode_escape_spec a pre ds v rest) by done. cbn [mbind outcome_bind].
  assert (Hl : length ds = 4%nat).
  { by apply hex4_value_spec in Hds as (? & ? & ? & ? & ? & ? & ? & ? & -> & _). }
  replace (Z.of_nat (length (pre ++ 117 :: ds))) with (Z.of_nat (length pre) + 5)
    by (rewrite length_app; simpl; lia).
  repeat case_bool; (lia || done).
Qed.

Lemma unicode_escape_pair a pre ds1 ds2 v1 v2 rest :
  starts a (pre ++ 117 :: ds1 ++ 92 :: 117 :: ds2 ++ rest) →
  hex4_value ds1 = Some v1 → hex4_value ds2 = Some v2 → high_surrogate v1 → low_surrogate v2 →
  unicode_escape a (Z.of_nat (length pre)) =
  Ret (inl (0x10000 + (v1 - 0xD800) * 0x400 + (v2 - 0xDC00),
            Z.of_nat (length (pre ++ 117 :: ds1 ++ 92 :: 117 :: ds2)))).
Proof.
  intros Ha H1 H2 Hh Hl. unfold unicode_escape, high_surrogate, low_surrogate in *.
  rewrite (decode_unicode_escape_spec a pre ds1 v1 (92 :: 117 :: ds2 ++ rest)) by done.
  cbn [mbind outcome_bind].
  assert (Hl1 : length ds1 = 4%nat).
  { by apply hex4_value_spec in H1 as (? & ? & ? & ? & ? & ? & ? & ? & -> & _). }
  assert (Hl2 : length ds2 = 4%nat).
  { by apply hex4_value_spec in H2 as (? & ? & ? & ? & ? & ? & ? & ? & -> & _). }
  case_bool; [|lia]. case_bool; [|lia]. cbn [andb].
  set (pre1 := pre ++ 117 :: ds1).
  assert (E1 : Z.of_nat (length pre) + 5 = Z.of_nat (length pre1)).
  { unfold pre1. rewrite length_app. simpl. lia. }
  assert (Ha1 : starts a (pre1 ++ 92 :: 117 :: ds2 ++ rest)).
  { unfold pre1. by rewrite <- app_assoc. }
  rewrite E1, (char_at_middle a pre1 92 (117 :: ds2 ++ rest)) by done. cbn [mbind outcome_bind].
  change (s8 92 =? 92) with true. cbv iota.
  assert (E2 : Z.of_nat (length pre1) + 1 = Z.of_nat (length (pre1 ++ [92]))).
  { rewrite length_app. simpl. lia. }
  rewrite E2, (char_at_middle a (pre1 ++ [92]) 117 (ds2 ++ rest)) by (by rewrite <- app_assoc).
  cbn [mbind outcome_bind]. change (s8 117 =? 117) with true. cbn [andb].
  rewrite (decode_unicode_escape_spec a (pre1 ++ [92]) ds2 v2 rest) by (done || by rewrite <- app_assoc).
  cbn [mbind outcome_bind]. case_bool; [|lia]. case_bool; [|lia]. cbn [andb].
  rewrite Z.shiftl_mul_pow2 by lia. change (2 ^ 10) with 0x400. unfold mret, outcome_ret. do 3 f_equal; [lia|].
  unfold pre1. rewrite !length_app. simpl. rewrite length_app. simpl. lia.
Qed.

(** ** One character *)

Lemma pair_scalar v1 v2 :
  high_surrogate v1 → low_surrogate v2 → scalar (0x10000 + (v1 - 0xD800) * 0x400 + (v2 - 0xDC00)).
Proof. unfold high_surrogate, low_surrogate, scalar. lia. Qed.

Lemma u8_s8 b : 0 ≤ b < 0x100 → u8 (s8 b) = b.
Proof. intros Hb. unfold s8. case_bool; unfold u8 in *; byte_arith. Qed.

Lemma unescape_plains bs fuel a size pre rest acc :
  starts a (pre ++ bs ++ rest) → Forall plain_byte bs → Z.of_nat (length acc + length bs) ≤ size →
  unescape (length bs + fuel) a size (Z.of_nat (length pre)) acc =
  unescape fuel a size (Z.of_nat (length (pre ++ bs))) (acc ++ bs).
Proof.
  revert pre acc. induction bs as [|b bs IH]; intros pre acc Ha Hbs Hs; [by rewrite !app_nil_r|].
  apply Forall_cons in Hbs as [Hb Hbs]. cbn [length Nat.add unescape].
  rewrite (char_at_middle a pre b (bs ++ rest)) by done. cbn [mbind outcome_bind].
  destruct (plain_tests b Hb) as (E1 & _ & _ & _ & E5). rewrite E1, E5.
  destruct Hb as [Hb _]. unfold char_byte in Hb. rewrite u8_s8 by lia. unfold put_char.
  simpl in Hs. rewrite (proj2 (Z.ltb_lt _ _)) by lia. unfold mret, outcome_ret. cbn [mbind outcome_bind].
  replace (Z.of_nat (length pre) + 1) with (Z.of_nat (length (pre ++ [b]))) by (rewrite length_app; simpl; lia).
  rewrite IH; [by rewrite <- !app_assoc|by rewrite <- app_assoc|done|rewrite length_app; simpl; lia].
Qed.

Lemma unescape_backslash fuel a size pre c rest acc :
  starts a (pre ++ 92 :: c :: rest) → 
  unescape (S fuel) a size (Z.of_nat (length pre)) acc =
  (let p := Z.of_nat (length (pre ++ [92])) in
   if s8 c =? 117 then
     r ← unicode_escape a p;
     match r with
     | inr msg => mret (inr msg)
     | inl (value, p) =>
       bytes ← deref (utf8_encode value);
       t ← put_chars size acc bytes;
       unescape fuel a size p t
     end
   else
     e ← deref (short_escape (s8 c));
     t ← put_char size acc e;
     unescape fuel a size (p + 1) t).
Proof.
  intros Ha. cbn [unescape]. rewrite (char_at_middle a pre 92 (c :: rest)) by done.
  cbn [mbind outcome_bind]. change (s8 92 =? 34) with false. change (s8 92 =? 92) with true. cbv iota.
  replace (Z.of_nat (length pre) + 1) with (Z.of_nat (length (pre ++ [92]))) by (rewrite length_app; simpl; lia).
  by rewrite (char_at_middle a (pre ++ [92]) c rest) by (by rewrite <- app_assoc).
Qed.

Lemma unescape_code_point fuel a size pre t rest acc v :
  starts a (pre ++ 92 :: 117 :: t ++ rest) →
  unicode_escape a (Z.of_nat (length (pre ++ [92]))) =
    Ret (inl (v, Z.of_nat (length ((pre ++ [92]) ++ 117 :: t)))) →
  scalar v → Z.of_nat (length acc + length (utf8 v)) ≤ size →
  unescape (S fuel) a size (Z.of_nat (length pre)) acc =
  unescape fuel a size (Z.of_nat (length (pre ++ 92 :: 117 :: t))) (acc ++ utf8 v).
Proof.
  intros Ha Hv [Hr _] Hs. rewrite (unescape_backslash fuel a size pre 117 (t ++ rest)) by done.
  change (s8 117 =? 117) with true. cbv iota zeta. rewrite Hv. cbn [mbind outcome_bind].
  rewrite utf8_encode_spec by done. cbn [deref mbind outcome_bind]. rewrite put_chars_spec by done.
  cbn [mbind outcome_bind]. by rewrite <- app_assoc.
Qed.

Lemma unescape_char t s fuel a size pre rest acc :
  char_text t s → starts a (pre ++ t ++ rest) → Z.of_nat (length acc + length s) ≤ size →
  ∃ n, (fuel ≤ n)%nat ∧
    unescape (length t + fuel) a size (Z.of_nat (length pre)) acc =
    unescape n a size (Z.of_nat (length (pre ++ t))) (acc ++ s).
Proof.
  destruct 1 as [v Hv H1 H2 H3|c v Hin|ds v Hds Hv H0|ds1 ds2 v1 v2 H1 H2 Hh Hl]; intros Ha Hs.
  - exists fuel. split; [done|]. by apply (unescape_plains _ fuel a size pre rest acc); [|apply utf8_plain|].
  - exists (S fuel). split; [lia|]. apply short_escapes_spec in Hin as (_ & He & H117 & Hr & _).
    cbn [length Nat.add]. rewrite (unescape_backslash _ a size pre c rest) by done. cbv zeta.
    rewrite s8_ascii by lia. rewrite (proj2 (Z.eqb_neq c 117)), He by done.
    cbn [deref mbind outcome_bind]. unfold put_char. simpl in Hs. rewrite (proj2 (Z.ltb_lt _ _)) by lia.
    unfold mret, outcome_ret. cbn [mbind outcome_bind]. f_equal. rewrite !length_app. simpl. lia.
  - exists (5 + fuel)%nat. split; [lia|]. cbn [length Nat.add].
    replace (S (S (length ds + fuel))) with (S (5 + fuel)).
    2:{ apply hex4_value_spec in Hds as (? & ? & ? & ? & ? & ? & ? & ? & -> & _). done. }
    apply (unescape_code_point _ a size pre ds rest); try done.
    apply (unicode_escape_bmp a (pre ++ [92]) ds v rest); try done. by rewrite <- app_assoc.
  - set (t := 92 :: 117 :: ds1 ++ 92 :: 117 :: ds2) in *. exists (length t - 1 + fuel)%nat. split; [lia|].
    replace (length t + fuel)%nat with (S (length t - 1 + fuel)) by (unfold t; simpl; lia).
    apply (unescape_code_point _ a size pre (ds1 ++ 92 :: 117 :: ds2) rest); try done;
      [|by apply pair_scalar].
    apply (unicode_escape_pair a (pre ++ [92]) ds1 ds2 v1 v2 rest); try done. unfold t in Ha.
    rewrite <- app_assoc. simpl in *. by rewrite <- app_assoc in Ha.
Qed.

Lemma unescape_spec t s fuel a size pre rest acc :
  chars_text t s → starts a (pre ++ t ++ 34 :: rest) → Z.of_nat (length acc + length s) ≤ size →
  (length t ≤ fuel)%nat →
  unescape fuel a size (Z.of_nat (length pre)) acc = Ret (inl (acc ++ s)).
Proof.
  intros Ht. revert fuel pre acc. induction Ht as [|t s ts ss Ht Hts IH]; intros fuel pre acc Ha Hs Hf.
  - simpl in Ha. assert (E : char_at a (Z.of_nat (length pre)) = Ret (s8 34)) by (by apply (char_at_middle a pre 34 rest)).
    rewrite app_nil_r. destruct fuel; cbn [unescape]; by rewrite E.
  - rewrite length_app in Hf, Hs. rewrite <- app_assoc in Ha.
    destruct (unescape_char t s (fuel - length t) a size pre (ts ++ 34 :: rest) acc) as (n & Hn & E);
      [done|done|lia|].
    replace (length t + (fuel - length t))%nat with fuel in E by lia. rewrite E.
    rewrite (IH n (pre ++ t) (acc ++ s)); [by rewrite <- app_assoc|by rewrite <- app_assoc| |lia].
    rewrite length_app. lia.
Qed.

(** ** The token *)

Section tokens.
Context {D : Type} {HS : Source D} {HL : SourceLaws D} {T : Tail}.
Abbreviation context := (context D).

Definition with_token (t : Z) (x : context) : context :=
  Context (stream x) (saved_text x) t (value x) (error x) (values x).
Definition with_value (v : lex_value) (x : context) : context :=
  Context (stream x) (saved_text x) (token x) v (error x) (values x).

Lemma wp_put_token t x (Q : outcome unit → context → Prop) :
  Q (Ret tt) (with_token t x) → wp (put_token t) x Q.
Proof. intros HQ w Hw. by split. Qed.

Lemma wp_put_token_bind {A} (f : unit → SM context A) t x Q :
  wp (f tt) (with_token t x) Q → wp (put_token t ≫= f) x Q.
Proof. done. Qed.

Lemma wp_put_value v x (Q : outcome unit → context → Prop) :
  Q (Ret tt) (with_value v x) → wp (put_value v) x Q.
Proof. intros HQ w Hw. by split. Qed.

Lemma wp_put_value_bind {A} (f : unit → SM context A) v x Q :
  wp (f tt) (with_value v x) Q → wp (put_value v ≫= f) x Q.
Proof. done. Qed.

Lemma at_with_token t x l prev rest : at_ x l prev rest → at_ (with_token t x) l prev rest.
Proof. by intros []. Qed.
Lemma at_with_value v x l prev rest : at_ x l prev rest → at_ (with_value v x) l prev rest.
Proof. by intros []. Qed.

(** A token was read: its kind, its value, and the text behind it. *)
Definition outside (x x' : context) : Prop := shown (error x') = shown (error x) ∧ values x' = values x.

Definition ready (x : context) (rest : list Z) : Prop := ∃ l prev, at_ x l prev rest.

Lemma keeps_outside x x' : keeps x x' → outside x x'.
Proof. by intros (_ & _ & ? & ?). Qed.

Lemma outside_trans x y z : outside x y → outside y z → outside x z.
Proof. unfold outside. intuition congruence. Qed.

Lemma wp_saved_block x l {A} (f : carray → SM context A) R :
  holds (saved_text x) l →
  (∀ a, starts a (l ++ [0]) → wp (f a) x R) →
  wp (liftS (deref (strbuffer_value (saved_text x))) ≫= f) x R.
Proof.
  intros [_ _ (a & Ha & _ & Hb)] Hf. eapply wp_liftS_bind; [|by apply Hf].
  unfold strbuffer_value. by rewrite Ha.
Qed.

Lemma lex_scan_string_spec t s fuel x rest :
  chars_text t s → at_ x [34] (Some 34) (t ++ 34 :: rest) → (length t ≤ fuel)%nat →
  wpr (lex_scan_string fuel) x
    (λ _ x', token x' = TOKEN_STRING ∧ value x' = VString (Some s) ∧ outside x x' ∧ ready x' rest).
Proof.
  intros Ht Hx Hf. unfold lex_scan_string. apply wp_put_value_bind, wp_put_token_bind.
  eapply (at_with_value (VString None)), (at_with_token TOKEN_INVALID) in Hx.
  set (x0 := with_token _ _) in *.
  eapply wp_seq; [by apply (lex_get_save_spec x0 [34] (Some 34) (t ++ 34 :: rest))|].
  intros c x1 (-> & Hk1 & Hx1). eapply wp_seq; [by apply (scan_chars_spec t s fuel x1 [34] rest)|].
  intros ok x2 (-> & Hk2 & Hx2). cbn [negb]. apply wp_get_bind.
  destruct Hx2 as [_ Hx2]. pose proof Hx2 as [Hh _ _]. pose proof (holds_length _ _ Hh) as Hlen.
  pose proof (chars_text_length t s Ht) as Hst.
  rewrite !length_app in Hlen. simpl in Hlen.
  apply (wp_seq _ _ _ (λ r x', r = Some tt ∧ x' = x2)).
  { apply wp_attempt. unfold jsonp_malloc, wp, lift, malloc. intros w Hw.
    rewrite (proj2 (Z.eqb_neq _ _)), Hw, (proj2 (Z.leb_le _ _)) by lia. split; [|done].
    intros i. apply Hw. }
  intros r x' (-> & ->). apply (wp_saved_block x2 _ _ _ Hh).
  intros a Ha. eapply wp_liftS_bind.
  { apply (unescape_spec t s _ a _ [34] [0] []); [done| |simpl; lia|lia].
    by rewrite <- !app_assoc in Ha. }
  simpl app. eapply wp_liftS_bind.
  { unfold put_char. rewrite (proj2 (Z.ltb_lt _ _)) by lia. done. }
  apply wp_put_value_bind, wp_put_token. split; [done|]. split; [done|]. split.
  - eapply outside_trans; [by apply (keeps_outside x0 x1)|]. by apply (keeps_outside x1 x2).
  - exists (([34] ++ t) ++ [34]), (Some 34). by apply at_with_token, at_with_value.
Qed.
End tokens.
