(* ===== verification/JTokenTheory.v ===== *)
(** * Theory of the lexer: numbers, words and tokens *)

From S2P Require Import Prelude CModel JBase JUtf JStrbuf JHash JValue JArray JReal JLex JScan.
From S2P Require Import JSpec JLexTheory JStringTheory.
From stdpp Require Import strings.
From Stdlib Require Import SpecFloat.
#[local] Open Scope Z_scope.

(** ** Digits *)

Lemma is_digit_byte d : is_digit d → char_byte d ∧ s8 d = d ∧ l_isdigit (s8 d) = true ∧ digit d = true.
Proof.
  unfold is_digit, char_byte, l_isdigit, digit. intros Hd. rewrite s8_ascii by lia.
  split; [lia|]. split; [done|]. split; apply andb_true_iff; lia.
Qed.

Lemma digits_bytes ds : Forall is_digit ds → Forall char_byte ds.
Proof. intros Hds. eapply Forall_impl; [exact Hds|apply is_digit_byte]. Qed.

Lemma digits_test ds : Forall is_digit ds → Forall (λ d, l_isdigit (s8 d) = true) ds.
Proof. intros Hds. eapply Forall_impl; [exact Hds|apply is_digit_byte]. Qed.

Lemma digits_text_digits ds : digits_text ds → Forall is_digit ds ∧ ds ≠ [].
Proof. unfold is_digit. destruct 1; split; try done; repeat constructor; try lia. done. Qed.

Lemma int_text_bytes t i : int_text t i → Forall char_byte t.
Proof.
  destruct 1 as [ds Hd|ds Hd]; apply digits_text_digits in Hd as [Hd _]; apply digits_bytes in Hd; [done|].
  constructor; [unfold char_byte; lia|done].
Qed.

Lemma frac_text_bytes t : frac_text t → Forall char_byte t.
Proof.
  destruct 1 as [d ds Hd Hds]. constructor; [unfold char_byte; lia|].
  constructor; [by apply is_digit_byte|by apply digits_bytes].
Qed.

Lemma exp_text_bytes t : exp_text t → Forall char_byte t.
Proof.
  destruct 1 as [e sign d ds He Hs Hd Hds]. apply digits_bytes in Hds.
  apply is_digit_byte in Hd as (Hd & _). constructor; [unfold char_byte; lia|].
  apply Forall_app. split; [|by constructor].
  destruct Hs as [->|[->| ->]]; unfold char_byte; repeat constructor; lia.
Qed.

Lemma real_text_bytes t : real_text t → Forall char_byte t.
Proof.
  destruct 1; rewrite ?Forall_app; split_and!; eauto using int_text_bytes, frac_text_bytes, exp_text_bytes.
Qed.

Lemma span_digits_spec ds : Forall is_digit ds → span_digits ds = (ds, []).
Proof.
  induction 1 as [|d ds Hd Hds IH]; [done|]. cbn [span_digits].
  destruct (is_digit_byte d Hd) as (_ & _ & _ & ->). by rewrite IH.
Qed.

(** The limits of [long long] take the place of a number beyond them. *)
Lemma strtoll_text t i :
  int_text t i →
  strtoll t = (if LLONG_MAX <? i then (LLONG_MAX, true, Z.of_nat (length t))
               else if i <? LLONG_MIN then (LLONG_MIN, true, Z.of_nat (length t))
               else (i, false, Z.of_nat (length t))).
Proof.
  unfold strtoll. destruct 1 as [ds Hd|ds Hd]; apply digits_text_digits in Hd as [Hd Hn].
  - assert (sign_of ds = (false, ds)) as ->.
    { destruct ds as [|d ds]; [done|]. apply Forall_cons in Hd as [Hd _]. unfold is_digit in Hd. simpl.
      by rewrite (proj2 (Z.eqb_neq d 45)), (proj2 (Z.eqb_neq d 43)) by lia. }
    rewrite span_digits_spec by done. destruct ds as [|d ds]; [done|]. by rewrite Z.sub_0_r.
  - cbn [sign_of]. change (45 =? 45) with true. cbv iota. rewrite span_digits_spec by done.
    destruct ds as [|d ds]; [done|]. by rewrite Z.sub_0_r.
Qed.

Lemma strtoll_spec t i : int_text t i → in_range i → strtoll t = (i, false, Z.of_nat (length t)).
Proof.
  intros Ht [H1 H2]. rewrite (strtoll_text t i Ht). unfold LLONG_MAX, LLONG_MIN.
  by rewrite (proj2 (Z.ltb_ge _ i)), (proj2 (Z.ltb_ge i _)) by lia.
Qed.

(** What cannot follow a number or a word. *)
Definition delimits {T : Tail} (rest : list Z) : Prop :=
  l_isdigit (cur rest) = false ∧ l_isalpha (cur rest) = false ∧ cur rest ≠ 46.

Lemma delimits_exp {T : Tail} rest : delimits rest → (cur rest =? 69) || (cur rest =? 101) = false.
Proof.
  intros (_ & Ha & _). unfold l_isalpha, l_isupper, l_islower in Ha. apply orb_false_iff in Ha as [H1 H2].
  apply andb_false_iff in H1, H2. rewrite !Z.leb_gt in *. rewrite orb_false_iff, !Z.eqb_neq. lia.
Qed.

Section tokens.
Context {D : Type} {HS : Source D} {HL : SourceLaws D} {T : Tail}.
Abbreviation context := (context D).

(** The routines that read on while they save. *)
Abbreviation reads m x t l rest :=
  (wpr m x (λ r x', r = Some (cur rest) ∧ keeps x x' ∧ look x' (l ++ t) rest)).

Lemma look_digits fuel x l d ds rest :
  look x l (d :: ds ++ rest) → Forall is_digit ds → l_isdigit (cur rest) = false → (length ds ≤ fuel)%nat →
  reads (c ← lex_get_save; c ← get_save_while l_isdigit fuel c; mret (Some c)) x (d :: ds) l rest.
Proof.
  intros Hx Hds Hrest Hf. eapply wp_seq; [by apply (look_next x l d (ds ++ rest))|].
  intros c x1 (-> & Hk & Hx1).
  eapply wp_seq; [apply (get_save_while_spec l_isdigit fuel x1 (l ++ [d]) ds rest Hx1 (digits_test ds Hds)); done|].
  intros c x2 (-> & Hk2 & Hx2). apply wp_ret. split; [done|]. split; [by eapply keeps_trans|].
  by rewrite <- (app_assoc l [d]) in Hx2.
Qed.

Lemma scan_sign x l ip i rest :
  look x l (ip ++ rest) → int_text ip i →
  wpr (if cur (ip ++ rest) =? 45 then lex_get_save else mret (cur (ip ++ rest))) x
    (λ c x', ∃ sign ds, ip = sign ++ ds ∧ digits_text ds ∧ c = cur (ds ++ rest) ∧ keeps x x' ∧
      look x' (l ++ sign) (ds ++ rest)).
Proof.
  intros Hx Ht. destruct Ht as [ds Hd|ds Hd].
  - pose proof (digits_text_digits ds Hd) as [Hds Hn]. destruct ds as [|d ds]; [done|].
    apply Forall_cons in Hds as [Hb _]. cbn [app cur]. destruct (is_digit_byte d Hb) as (_ & -> & _).
    unfold is_digit in Hb. rewrite (proj2 (Z.eqb_neq d 45)) by lia. apply wp_ret. exists [], (d :: ds).
    split; [done|]. split; [done|]. split; [cbn [app cur]; by rewrite s8_ascii by lia|]. split; [done|].
    by rewrite app_nil_r.
  - cbn [app cur]. change (s8 45 =? 45) with true. cbv iota.
    eapply wp_mono; [by apply (look_next x l 45 (ds ++ rest))|]. intros [c| |] x1 Hx1; [|done..].
    destruct Hx1 as (-> & Hk & Hx1). exists [45], ds. by split_and!.
Qed.

Lemma scan_digits fuel x l ds rest :
  look x l (ds ++ rest) → digits_text ds → l_isdigit (cur rest) = false → (length ds ≤ fuel)%nat →
  reads (if cur (ds ++ rest) =? 48 then
           c ← lex_get_save;
           if l_isdigit c then _ ← lex_unget_unsave c; mret None else mret (Some c)
         else if l_isdigit (cur (ds ++ rest)) then
           c ← lex_get_save;
           c ← get_save_while l_isdigit fuel c;
           mret (Some c)
         else _ ← lex_unget_unsave (cur (ds ++ rest)); mret None) x ds l rest.
Proof.
  intros Hx Hd Hrest Hf. destruct Hd as [|d ds Hd Hds].
  - cbn [app cur] in *. change (s8 48 =? 48) with true. cbv iota.
    eapply wp_seq; [by apply (look_next x l 48 rest)|]. intros c x1 (-> & Hk & Hx1). rewrite Hrest.
    by apply wp_ret.
  - cbn [app cur] in *. assert (Hd' : is_digit d) by (unfold is_digit; lia).
    destruct (is_digit_byte d Hd') as (_ & E & -> & _). rewrite E, (proj2 (Z.eqb_neq d 48)) by lia.
    apply (look_digits fuel x l d ds rest); try done. simpl in Hf. lia.
Qed.

Lemma scan_fraction_spec fuel x l fp rest :
  look x l (fp ++ rest) → frac_text fp → l_isdigit (cur rest) = false → (length fp ≤ fuel)%nat →
  reads (scan_fraction fuel (cur (fp ++ rest))) x fp l rest.
Proof.
  intros Hx Ht Hrest Hf. destruct Ht as [d ds Hd Hds]. cbn [app cur] in *. unfold scan_fraction.
  change (s8 46 =? 46) with true. cbv iota. destruct Hx as [Hb Hx].
  eapply wp_seq; [by apply (lex_get_spec x (l ++ [46]) (Some 46) (d :: ds ++ rest))|]. intros c x1 (-> & Hk & Hd1 & Hx1).
  cbn [cur]. destruct (is_digit_byte d Hd) as (_ & _ & -> & _). cbn [negb].
  pose proof (at_limit _ _ _ _ Hx) as Hlim. simpl in Hlim.
  eapply wp_seq; [apply (lex_save_spec x1 (l ++ [46]) (Some d) (ds ++ rest) d Hx1 Hd1); lia|]. intros _ x2 [Hx2 Hk2].
  eapply wp_mono; [apply (look_digits fuel x2 (l ++ [46]) d ds rest); [by split|done|done|simpl in Hf; lia]|].
  intros [r| |] x3 Hx3; [|done..]. destruct Hx3 as (-> & Hk3 & Hx3). split; [done|].
  split; [eapply keeps_trans; [done|]; by eapply keeps_trans|]. by rewrite <- (app_assoc l [46]) in Hx3.
Qed.

Lemma scan_fraction_none fuel x l rest :
  look x l rest → cur rest ≠ 46 → reads (scan_fraction fuel (cur rest)) x [] l rest.
Proof.
  intros Hx Hc. unfold scan_fraction. rewrite (proj2 (Z.eqb_neq _ _)) by done. apply wp_ret.
  split; [done|]. split; [done|]. by rewrite app_nil_r.
Qed.

Lemma scan_exponent_spec fuel x l ep rest :
  look x l (ep ++ rest) → exp_text ep → l_isdigit (cur rest) = false → (length ep ≤ fuel)%nat →
  reads (scan_exponent fuel (cur (ep ++ rest))) x ep l rest.
Proof.
  intros Hx Ht Hrest Hf. destruct Ht as [e sign d ds He Hs Hd Hds]. cbn [app] in *. rewrite <- app_assoc in *. cbn [app cur] in *.
  unfold scan_exponent. rewrite s8_ascii by lia.
  assert ((e =? 69) || (e =? 101) = true) as -> by (apply orb_true_iff; rewrite !Z.eqb_eq; lia).
  eapply wp_seq; [by apply (look_next x l e (sign ++ d :: ds ++ rest))|]. intros c x1 (-> & Hk & Hx1).
  destruct (is_digit_byte d Hd) as (_ & Es & Et & _).
  apply (wp_seq _ _ _ (λ c x', c = d ∧ keeps x1 x' ∧ look x' ((l ++ [e]) ++ sign) (d :: ds ++ rest))).
  - unfold is_digit in Hd. destruct Hs as [->|[->| ->]]; cbn [app cur] in *.
    + rewrite Es, (proj2 (Z.eqb_neq d 43)), (proj2 (Z.eqb_neq d 45)) by lia. apply wp_ret.
      split; [done|]. split; [done|]. by rewrite app_nil_r.
    + change ((s8 43 =? 43) || (s8 43 =? 45)) with true. cbv iota.
      eapply wp_mono; [by apply (look_next x1 (l ++ [e]) 43 (d :: ds ++ rest))|].
      intros [c| |] x2 Hx2; [|done..]. cbn [cur] in Hx2. by rewrite Es in Hx2.
    + change ((s8 45 =? 43) || (s8 45 =? 45)) with true. cbv iota.
      eapply wp_mono; [by apply (look_next x1 (l ++ [e]) 45 (d :: ds ++ rest))|].
      intros [c| |] x2 Hx2; [|done..]. cbn [cur] in Hx2. by rewrite Es in Hx2.
  - intros c x2 (-> & Hk2 & Hx2). rewrite Es in Et. rewrite Et. cbn [negb].
    assert (Hlen : (length ds ≤ fuel)%nat) by (simpl in Hf; rewrite length_app in Hf; simpl in Hf; lia).
    eapply wp_mono; [by apply (look_digits fuel x2 ((l ++ [e]) ++ sign) d ds rest)|].
    intros [r| |] x3 Hx3; [|done..]. destruct Hx3 as (-> & Hk3 & Hx3). split; [done|].
    split; [eapply keeps_trans; [done|]; by eapply keeps_trans|]. by rewrite <- !app_assoc in Hx3.
Qed.

Lemma scan_exponent_none fuel x l rest :
  look x l rest → delimits rest → reads (scan_exponent fuel (cur rest)) x [] l rest.
Proof.
  intros Hx Hd. unfold scan_exponent. rewrite (delimits_exp rest Hd). apply wp_ret.
  split; [done|]. split; [done|]. by rewrite app_nil_r.
Qed.

(** ** Numbers *)

Lemma saved_string_spec x l prev rest (Q : outcome (list Z) → context → Prop) :
  at_ x l prev rest → Forall char_byte l → Q (Ret l) x → wp saved_string x Q.
Proof.
  intros Hx Hl HQ. unfold saved_string. apply wp_get_bind.
  destruct (holds_cstring (saved_text x) l) as (a & Ea & Ec); [by destruct Hx| |].
  { eapply Forall_impl; [exact Hl|]. unfold char_byte. lia. }
  eapply wp_liftS_bind; [unfold strbuffer_value; by rewrite Ea|]. unfold liftS. rewrite Ec.
  intros w Hw. by split.
Qed.

(** The kind and the value of a token that is read. *)
Definition scanned (x : context) (kind : Z) (v : option lex_value) (rest : list Z) (x' : context) : Prop :=
  token x' = kind ∧ (∀ u, v = Some u → value x' = u) ∧ outside x x' ∧ ready x' rest.

Lemma scan_integer_spec x t i rest :
  look x t rest → int_text t i → in_range i →
  wpr (scan_integer (cur rest)) x (λ ok x', ok = true ∧ scanned x TOKEN_INTEGER (Some (VInteger i)) rest x').
Proof.
  intros Hx Ht Hi. unfold scan_integer.
  eapply wp_seq; [by apply (lex_unget_unsave_spec x t rest)|]. intros _ x1 [Hx1 Hk].
  apply (wp_seq _ _ _ (λ s x', s = t ∧ x' = x1)).
  { eapply saved_string_spec; [done|by eapply int_text_bytes|done]. }
  intros s x2 (-> & ->). rewrite (strtoll_spec t i) by done. apply wp_get_bind.
  apply wp_assert_bind.
  { pose proof (holds_length _ _ (at_saved _ _ _ _ Hx1)) as ->. apply Z.eqb_refl. }
  apply wp_put_token_bind, wp_put_value_bind, wp_ret. split; [done|]. split; [done|].
  split; [by intros u [= <-]|]. split; [by apply (keeps_outside x x1)|].
  exists t, None. by apply at_with_value, at_with_token.
Qed.

Lemma scan_real_end x t r rest :
  look x t rest → Forall char_byte t → jsonp_strtod t = Ret (Some r) →
  wpr (_ ← lex_unget_unsave (cur rest);
       text ← saved_string;
       v ← liftS (jsonp_strtod text);
       match v with
       | None => _ ← error_set (str "real number overflow"); mret false
       | Some v => _ ← put_token TOKEN_REAL; _ ← put_value (VReal v); mret true
       end) x (λ ok x', ok = true ∧ scanned x TOKEN_REAL (Some (VReal r)) rest x').
Proof.
  intros Hx Ht Hr.
  eapply wp_seq; [by apply (lex_unget_unsave_spec x t rest)|]. intros _ x1 [Hx1 Hk].
  apply (wp_seq _ _ _ (λ s x', s = t ∧ x' = x1)).
  { by eapply saved_string_spec. }
  intros s x2 (-> & ->). eapply wp_liftS_bind; [exact Hr|].
  apply wp_put_token_bind, wp_put_value_bind, wp_ret. split; [done|]. split; [done|].
  split; [by intros u [= <-]|]. split; [by apply (keeps_outside x x1)|].
  exists t, None. by apply at_with_value, at_with_token.
Qed.

(** The number up to its fraction and exponent, of which [k] reads the rest. *)
Lemma scan_number_start ip i fuel x rest (k : Z → SM context bool) (Q : outcome bool → context → Prop) :
  look x [] (ip ++ rest) → int_text ip i → l_isdigit (cur rest) = false → (length ip ≤ fuel)%nat →
  (∀ x', outside x x' → token x' = TOKEN_INVALID → look x' ip rest → wp (k (cur rest)) x' Q) →
  wp (_ ← put_token TOKEN_INVALID;
      c ← (if cur (ip ++ rest) =? 45 then lex_get_save else mret (cur (ip ++ rest)));
      integer ←
        (if c =? 48 then
           c ← lex_get_save;
           if l_isdigit c then _ ← lex_unget_unsave c; mret None else mret (Some c)
         else if l_isdigit c then
           c ← lex_get_save;
           c ← get_save_while l_isdigit fuel c;
           mret (Some c)
         else _ ← lex_unget_unsave c; mret None);
      match integer with
      | None => mret false
      | Some c => k c
      end) x Q.
Proof.
  intros Hx Hip Hrest Hf HQ. apply wp_put_token_bind. set (x0 := with_token _ x).
  assert (Hx0 : look x0 [] (ip ++ rest)).
  { destruct (ip ++ rest); [by apply at_with_token|]. destruct Hx. split; [done|by apply at_with_token]. }
  eapply wp_seq; [by apply (scan_sign x0 [] ip i rest)|].
  intros c x1 (sign & ds & -> & Hd & -> & Hk1 & Hx1). rewrite length_app in Hf.
  eapply wp_seq; [apply (scan_digits fuel x1 sign ds rest); [done|done|done|lia]|].
  intros r x2 (-> & Hk2 & Hx2). pose proof (keeps_trans _ _ _ Hk1 Hk2) as Hk.
  apply HQ; [by apply (keeps_outside x0 x2)|by destruct Hk as (-> & _)|done].
Qed.

Lemma scanned_outside x x1 kind v rest x' :
  outside x x1 → scanned x1 kind v rest x' → scanned x kind v rest x'.
Proof. intros Ho (? & ? & Ho' & ?). split_and!; try done. by eapply outside_trans. Qed.

Lemma lex_scan_integer_spec t i fuel x rest :
  look x [] (t ++ rest) → int_text t i → in_range i → delimits rest → (length t ≤ fuel)%nat →
  wpr (lex_scan_number fuel (cur (t ++ rest))) x
    (λ ok x', ok = true ∧ scanned x TOKEN_INTEGER (Some (VInteger i)) rest x').
Proof.
  intros Hx Ht Hi Hd Hf. unfold lex_scan_number. apply (scan_number_start t i); try done; [by apply Hd|].
  intros x1 Ho _ Hx1. pose proof (delimits_exp rest Hd) as [E1 E2]%orb_false_iff. destruct Hd as (_ & _ & H46).
  rewrite E1, E2, (proj2 (Z.eqb_neq _ _) H46). cbn [negb andb].
  eapply wp_mono; [by apply (scan_integer_spec x1 t i rest)|]. intros [ok| |] x2 H2; [|done..].
  destruct H2 as (-> & H2). split; [done|]. by eapply scanned_outside.
Qed.

(** A number with a fraction, an exponent or both. *)
Lemma scan_real_spec fuel x ip fp ep t r rest :
  look x ip (fp ++ ep ++ rest) → (fp = [] ∨ frac_text fp) → (ep = [] ∨ exp_text ep) →
  t = ip ++ fp ++ ep → Forall char_byte t → jsonp_strtod t = Ret (Some r) →
  delimits rest → (length fp + length ep ≤ fuel)%nat →
  wpr (scan_real fuel (cur (fp ++ ep ++ rest))) x
    (λ ok x', ok = true ∧ scanned x TOKEN_REAL (Some (VReal r)) rest x').
Proof.
  intros Hx Hfp Hep -> Ht Hr Hd Hf. unfold scan_real.
  assert (Hep46 : l_isdigit (cur (ep ++ rest)) = false ∧ cur (ep ++ rest) ≠ 46).
  { destruct Hep as [->|He]; [split; apply Hd|]. destruct He as [e sign d ds He _ _ _]. cbn [app cur].
    rewrite s8_ascii by lia. unfold l_isdigit. destruct He as [->| ->]; done. }
  apply (wp_seq _ _ _ (λ r x', r = Some (cur (ep ++ rest)) ∧ keeps x x' ∧ look x' (ip ++ fp) (ep ++ rest))).
  { destruct Hfp as [->|Hfp]; [apply (scan_fraction_none fuel x ip (ep ++ rest)); [done|apply Hep46]|]. apply scan_fraction_spec; try done; [apply Hep46|lia]. }
  intros c x1 (-> & Hk1 & Hx1).
  apply (wp_seq _ _ _ (λ r x', r = Some (cur rest) ∧ keeps x1 x' ∧ look x' ((ip ++ fp) ++ ep) rest)).
  { destruct Hep as [->|Hep]; [by apply scan_exponent_none|]. apply scan_exponent_spec; try done; [apply Hd|lia]. }
  intros c x2 (-> & Hk2 & Hx2). rewrite <- app_assoc in Hx2.
  eapply wp_mono; [by apply (scan_real_end x2 (ip ++ fp ++ ep) r rest)|]. intros [ok| |] x3 H3; [|done..].
  destruct H3 as (-> & H3). split; [done|]. eapply scanned_outside; [|done].
  eapply outside_trans; [by apply (keeps_outside x x1)|by apply (keeps_outside x1 x2)].
Qed.

Lemma real_text_parts t :
  real_text t →
  ∃ ip i fp ep, t = ip ++ fp ++ ep ∧ int_text ip i ∧ (fp = [] ∨ frac_text fp) ∧ (ep = [] ∨ exp_text ep) ∧
    (fp ≠ [] ∨ ep ≠ []).
Proof.
  destruct 1 as [ip i fp Hi Hf|ip i ep Hi He|ip i fp ep Hi Hf He].
  - exists ip, i, fp, []. rewrite app_nil_r. split_and!; auto. left. by destruct Hf.
  - exists ip, i, [], ep. split_and!; auto. right. by destruct He.
  - exists ip, i, fp, ep. split_and!; auto. left. by destruct Hf.
Qed.

Lemma real_continues fp ep rest :
  (fp = [] ∨ frac_text fp) → (ep = [] ∨ exp_text ep) → (fp ≠ [] ∨ ep ≠ []) →
  (cur (fp ++ ep ++ rest) = 46 ∨ cur (fp ++ ep ++ rest) = 69 ∨ cur (fp ++ ep ++ rest) = 101).
Proof.
  intros [->|Hf] He Hn; [|destruct Hf; by left]. destruct He as [->|He]; [by destruct Hn|].
  destruct He as [e sign d ds He _ _ _]. cbn [app cur]. rewrite s8_ascii by lia. by right.
Qed.

Lemma lex_scan_real_spec t r fuel x rest :
  look x [] (t ++ rest) → real_text t → jsonp_strtod t = Ret (Some r) → delimits rest →
  (length t ≤ fuel)%nat →
  wpr (lex_scan_number fuel (cur (t ++ rest))) x
    (λ ok x', ok = true ∧ scanned x TOKEN_REAL (Some (VReal r)) rest x').
Proof.
  intros Hx Ht Hr Hd Hf. pose proof (real_text_bytes t Ht) as Hb.
  destruct (real_text_parts t Ht) as (ip & i & fp & ep & -> & Hi & Hfp & Hep & Hn).
  pose proof (real_continues fp ep rest Hfp Hep Hn) as Hc. rewrite !length_app in Hf.
  rewrite <- !app_assoc in *. unfold lex_scan_number. apply (scan_number_start ip i); try done.
  { unfold l_isdigit. by destruct Hc as [->|[->| ->]]. }
  { lia. }
  intros x1 Ho _ Hx1. set (c := cur (fp ++ ep ++ rest)) in *.
  assert (negb (c =? 46) && negb (c =? 69) && negb (c =? 101) = false) as -> by (by destruct Hc as [->|[->| ->]]).
  eapply wp_mono; [apply (scan_real_spec fuel x1 ip fp ep (ip ++ fp ++ ep) r rest); try done; lia|].
  intros [ok| |] x2 H2; [|done..]. destruct H2 as (-> & H2). split; [done|]. by eapply scanned_outside.
Qed.

(** ** Words *)

Lemma scan_word_spec t fuel x rest :
  look x [] (t ++ rest) → Forall (λ c, char_byte c ∧ l_isalpha (s8 c) = true) t → l_isalpha (cur rest) = false →
  (1 ≤ length t ≤ fuel)%nat →
  wpr (scan_word fuel) x (λ _ x', scanned x (word_token t) None rest x').
Proof.
  intros Hx Ht Hd Hf. destruct t as [|c t]; [simpl in Hf; lia|]. apply Forall_cons in Ht as [Hc Ht].
  unfold scan_word. cbn [app] in Hx.
  eapply wp_seq; [by apply (look_next x [] c (t ++ rest))|]. intros d x1 (-> & Hk1 & Hx1).
  assert (Hal : Forall (λ c, l_isalpha (s8 c) = true) t).
  { eapply Forall_impl; [exact Ht|]. by intros ? [_ ?]. }
  eapply wp_seq; [apply (get_save_while_spec l_isalpha fuel x1 ([] ++ [c]) t rest Hx1 Hal); [done|simpl in Hf; lia]|].
  intros d x2 (-> & Hk2 & Hx2). cbn [app] in Hx2.
  eapply wp_seq; [by apply (lex_unget_unsave_spec x2 (c :: t) rest)|]. intros _ x3 [Hx3 Hk3].
  apply (wp_seq _ _ _ (λ s x', s = c :: t ∧ x' = x3)).
  { eapply saved_string_spec; [done| |done]. constructor; [by destruct Hc|].
    eapply Forall_impl; [exact Ht|]. by intros ? [? _]. }
  intros s x4 (-> & ->). apply wp_put_token. split; [done|]. split; [done|]. split.
  - eapply outside_trans; [by apply (keeps_outside x x1)|]. eapply outside_trans; [by apply (keeps_outside x1 x2)|].
    by apply (keeps_outside x2 x3).
  - exists (c :: t), None. by apply at_with_token.
Qed.
End tokens.

(** The tokens: their text, kind and value. *)
Inductive lexeme : list Z → Z → option lex_value → Prop :=
  | L_string t s : chars_text t s → lexeme (34 :: t ++ [34]) TOKEN_STRING (Some (VString (Some s)))
  | L_integer t i : int_text t i → in_range i → lexeme t TOKEN_INTEGER (Some (VInteger i))
  | L_real t r : real_text t → jsonp_strtod t = Ret (Some r) → lexeme t TOKEN_REAL (Some (VReal r))
  | L_true : lexeme (str "true") TOKEN_TRUE None
  | L_false : lexeme (str "false") TOKEN_FALSE None
  | L_null : lexeme (str "null") TOKEN_NULL None
  | L_punctuation c : is_punctuation c = true → lexeme [c] c None.

(** Numbers and words end where another character comes. *)
Definition needs_end (k : Z) : Prop := TOKEN_INTEGER ≤ k.

Lemma punctuation_char c :
  is_punctuation c = true → char_byte c ∧ s8 c = c ∧ is_space c = false ∧ c ≠ 34 ∧ c < TOKEN_STRING.
Proof.
  intros Hc. assert (Hin : c ∈ [123; 125; 91; 93; 58; 44]).
  { unfold is_punctuation in Hc. rewrite !orb_true_iff, !Z.eqb_eq in Hc. set_solver. }
  assert (Hall : Forall (λ c, (0 < c ∧ c < 0xF5) ∧ s8 c = c ∧ is_space c = false ∧ c ≠ 34 ∧ c < TOKEN_STRING)
    [123; 125; 91; 93; 58; 44]).
  { apply (bool_decide_unpack _). vm_compute. exact I. }
  exact (proj1 (Forall_forall _ _) Hall c Hin).
Qed.

Lemma white_char c : white c → char_byte c ∧ s8 c = c ∧ is_space c = true.
Proof. unfold char_byte. intros [->|[->|[->| ->]]]; split; done || lia. Qed.

(** The first character of a number. *)
Definition number_start (c : Z) : Prop := 48 ≤ c ≤ 57 ∨ c = 45.

Lemma int_text_start t i : int_text t i → ∃ c t', t = c :: t' ∧ number_start c.
Proof.
  unfold number_start. destruct 1 as [ds Hd|ds Hd]; [|eauto].
  destruct Hd as [|d ds Hd Hds]; eexists _, _; (split; [done|]; left; lia).
Qed.

Lemma real_text_start t : real_text t → ∃ c t', t = c :: t' ∧ number_start c.
Proof.
  intros Ht. destruct (real_text_parts t Ht) as (ip & i & fp & ep & -> & Hi & _).
  destruct (int_text_start ip i Hi) as (c & ip' & -> & Hc). by exists c, (ip' ++ fp ++ ep).
Qed.

Section tokens.
Context {D : Type} {HS : Source D} {HL : SourceLaws D} {T : Tail}.
Abbreviation context := (context D).

(** The character [cur u] was read, but not saved. *)
Definition peeked (x : context) (u : list Z) : Prop :=
  match u with
  | [] => at_ x [] None []
  | b :: r => char_byte b ∧ at_ x [] (Some b) r ∧ Z.of_nat (length u) < LIMIT
  end.

Lemma peek x l prev u :
  at_ x l prev u → l = [] → wpr lex_get x (λ c x', c = cur u ∧ keeps x x' ∧ peeked x' u).
Proof.
  intros Hx ->. eapply wp_mono; [by apply (lex_get_spec x [] prev u)|]. intros [c| |] x' H; [|done..].
  destruct H as (-> & Hk & H). split; [done|]. split; [done|]. destruct u as [|b r]; [done|].
  destruct H as [Hb H]. split_and!; [done|done|]. by destruct Hx.
Qed.

Lemma skip_spaces_spec w fuel x u :
  peeked x (w ++ u) → ws w → is_space (cur u) = false → (length w ≤ fuel)%nat →
  wpr (skip_spaces fuel (cur (w ++ u))) x (λ c x', c = cur u ∧ keeps x x' ∧ peeked x' u).
Proof.
  revert fuel x. induction w as [|b w IH]; intros fuel x Hx Hw Hu Hf.
  - cbn [app] in *. destruct fuel; cbn [skip_spaces]; rewrite Hu; by apply wp_ret.
  - apply Forall_cons in Hw as [Hb Hw]. destruct (white_char b Hb) as (_ & E & Hsp).
    destruct fuel as [|fuel]; [simpl in Hf; lia|]. cbn [app cur skip_spaces] in *. rewrite E, Hsp.
    destruct Hx as (_ & Hx & _). eapply wp_seq; [by apply (peek x [] (Some b) (w ++ u))|].
    intros c x1 (-> & Hk & Hx1).
    eapply wp_mono; [apply IH; try done; simpl in Hf; lia|]. intros [c| |] x2 H2; [|done..].
    destruct H2 as (-> & Hk2 & Hx2). split; [done|]. split; [by eapply keeps_trans|done].
Qed.

Lemma clear_saved x l prev u :
  at_ x l prev u →
  wpr (on_saved strbuffer_clear) x (λ _ x', at_ x' [] prev u ∧ keeps x x').
Proof.
  intros [Hh Hbs Hf Hl]. apply wp_on_saved. eapply wp_mono; [by apply (holds_clear _ l)|].
  intros [a| |] b Hb; [|done..]. split; [|done]. split; [done|constructor|done|simpl; lia].
Qed.

(** Up to the first character of the token. *)
Lemma lex_scan_start w u fuel x (k : Z → SM context Z) (Q : outcome Z → context → Prop) :
  ready x (w ++ u) → ws w → is_space (cur u) = false → (length w ≤ fuel)%nat →
  (∀ x', outside x x' → peeked x' u → wp (k (cur u)) x' Q) →
  wp (_ ← on_saved strbuffer_clear;
      x ← get;
      _ ← (if token x =? TOKEN_STRING then put_value (VString None) else mret tt);
      c ← lex_get;
      c ← skip_spaces fuel c;
      k c) x Q.
Proof.
  intros (l & prev & Hx) Hw Hu Hf HQ. eapply wp_seq; [by apply (clear_saved x l prev (w ++ u))|].
  intros _ x1 [Hx1 Hk1]. apply wp_get_bind.
  apply (wp_seq _ _ _ (λ _ x', at_ x' [] prev (w ++ u) ∧ outside x1 x')).
  { case_bool; [apply wp_put_value|apply wp_ret]; (split; [done|done]) || (split; [by apply at_with_value|done]). }
  intros _ x2 [Hx2 Hk2]. eapply wp_seq; [by apply (peek x2 [] prev (w ++ u))|].
  intros c x3 (-> & Hk3 & Hx3). eapply wp_seq; [by apply (skip_spaces_spec w fuel x3 u)|].
  intros c x4 (-> & Hk4 & Hx4). apply HQ; [|done].
  eapply outside_trans; [by apply (keeps_outside x x1)|]. eapply outside_trans; [done|].
  eapply outside_trans; [by apply (keeps_outside x2 x3)|by apply (keeps_outside x3 x4)].
Qed.

(** The part of [lex_scan] that looks at the first character. *)
Definition scan_token (fuel : nat) (c : Z) : SM context unit :=
  if c =? STREAM_STATE_EOF then put_token TOKEN_EOF
  else if c =? STREAM_STATE_ERROR then put_token TOKEN_INVALID
  else
    _ ← lex_save c;
    if is_punctuation c then put_token c
    else if c =? 34 then lex_scan_string fuel
    else if l_isdigit c || (c =? 45) then _ ← lex_scan_number fuel c; mret tt
    else if l_isalpha c then scan_word fuel
    else _ ← lex_save_cached; put_token TOKEN_INVALID.

Lemma scan_token_save c r fuel x (Q : outcome unit → context → Prop) :
  peeked x (c :: r) →
  (∀ x', keeps x x' → look x' [] (c :: r) →
    wp (if is_punctuation (s8 c) then put_token (s8 c)
        else if s8 c =? 34 then lex_scan_string fuel
        else if l_isdigit (s8 c) || (s8 c =? 45) then _ ← lex_scan_number fuel (s8 c); mret tt
        else if l_isalpha (s8 c) then scan_word fuel
        else _ ← lex_save_cached; put_token TOKEN_INVALID) x' Q) →
  wp (scan_token fuel (s8 c)) x Q.
Proof.
  intros (Hc & Hx & Hl) HQ. unfold scan_token. destruct (s8_char c Hc) as [H1 H2].
  rewrite (proj2 (Z.eqb_neq _ _) H1), (proj2 (Z.eqb_neq _ _) H2).
  eapply wp_seq; [apply (lex_save_spec x [] (Some c) r c Hx Hc); simpl in *; lia|].
  intros _ x1 [Hx1 Hk1]. apply HQ; [done|]. by split.
Qed.

Lemma number_start_tests c :
  number_start c →
  s8 c = c ∧ is_space c = false ∧ is_punctuation c = false ∧ (c =? 34) = false ∧ l_isdigit c || (c =? 45) = true.
Proof.
  unfold number_start. intros Hc. split; [apply s8_ascii; lia|].
  unfold is_space, is_punctuation, l_isdigit. rewrite !orb_false_iff, orb_true_iff, andb_true_iff, !Z.eqb_neq. lia.
Qed.

Lemma after_number (m : SM context bool) x (P : context → Prop) :
  wpr m x (λ ok x', ok = true ∧ P x') → wpr (_ ← m; mret tt) x (λ _ x', P x').
Proof.
  intros H. eapply wp_seq; [exact H|]. intros ok x' [_ HP]. by apply wp_ret.
Qed.

(** The letters of a word. *)
Definition letter (c : Z) : Prop :=
  char_byte c ∧ l_isalpha (s8 c) = true ∧ is_space (s8 c) = false ∧ is_punctuation (s8 c) = false ∧
  (s8 c =? 34) = false ∧ l_isdigit (s8 c) || (s8 c =? 45) = false.

Lemma scan_token_word t fuel x rest :
  peeked x (t ++ rest) → Forall letter t → delimits rest → (1 ≤ length t ≤ fuel)%nat →
  wpr (scan_token fuel (cur (t ++ rest))) x (λ _ x', scanned x (word_token t) None rest x').
Proof.
  intros Hx Ht Hd Hf. destruct t as [|c t]; [simpl in Hf; lia|].
  pose proof Ht as [(_ & Hal & _ & Hp & Hq & Hn) _]%Forall_cons. cbn [app cur] in *.
  apply (scan_token_save c (t ++ rest)); [done|]. intros x1 Hk Hx1. rewrite Hp, Hq, Hn, Hal.
  eapply wp_mono; [apply (scan_word_spec (c :: t) fuel x1 rest); try done; try by apply Hd|].
  { eapply Forall_impl; [exact Ht|]. by intros ? (? & ? & _). }
  intros [a| |] x2 H2; [|done..]. eapply scanned_outside; [|done]. by apply (keeps_outside x x1).
Qed.

Lemma letters_of (w : list Z) :
  forallb (λ c, (0 <? c) && (c <? 0xF5) && l_isalpha (s8 c) && negb (is_space (s8 c)) &&
    negb (is_punctuation (s8 c)) && negb (s8 c =? 34) && negb (l_isdigit (s8 c) || (s8 c =? 45))) w = true →
  Forall letter w.
Proof.
  intros H. apply Forall_forall. intros c Hc. apply forallb_forall with (x := c) in H.
  - rewrite !andb_true_iff, !negb_true_iff, !Z.ltb_lt in H. unfold letter, char_byte. intuition.
  - by apply list_elem_of_In.
Qed.

Lemma scan_token_number t rest fuel x c t' kind v :
  peeked x (t ++ rest) → t = c :: t' → number_start c →
  (∀ x1, look x1 [] (t ++ rest) →
    wpr (lex_scan_number fuel (cur (t ++ rest))) x1 (λ ok x', ok = true ∧ scanned x1 kind v rest x')) →
  wpr (scan_token fuel (cur (t ++ rest))) x (λ _ x', scanned x kind v rest x').
Proof.
  intros Hx -> Hc Hscan. destruct (number_start_tests c Hc) as (E & _ & Hp & Hq & Hn).
  cbn [app cur] in *. apply (scan_token_save c (t' ++ rest)); [done|]. intros x1 Hk Hx1.
  rewrite E, Hp, Hq, Hn in *. apply after_number.
  eapply wp_mono; [by apply Hscan|]. intros [ok| |] x2 H2; [|done..]. destruct H2 as [-> H2].
  split; [done|]. eapply scanned_outside; [|done]. by apply (keeps_outside x x1).
Qed.

Lemma scan_token_string t s rest fuel x :
  peeked x (34 :: t ++ 34 :: rest) → chars_text t s → (length t ≤ fuel)%nat →
  wpr (scan_token fuel (s8 34)) x
    (λ _ x', scanned x TOKEN_STRING (Some (VString (Some s))) rest x').
Proof.
  intros Hx Ht Hf. apply (scan_token_save 34 (t ++ 34 :: rest)); [done|]. intros x1 Hk [_ Hx1].
  change (is_punctuation (s8 34)) with false. change (s8 34 =? 34) with true. cbv iota.
  eapply wp_mono; [by apply (lex_scan_string_spec t s fuel x1 rest)|]. intros [a| |] x2 H2; [|done..].
  destruct H2 as (Htok & Hv & Ho & Hr). split; [done|]. split; [by intros u [= <-]|]. split; [|done].
  eapply outside_trans; [|done]. by apply (keeps_outside x x1).
Qed.

Lemma scan_token_spec t kind v rest fuel x :
  peeked x (t ++ rest) → lexeme t kind v → (needs_end kind → delimits rest) → (length t ≤ fuel)%nat →
  wpr (scan_token fuel (cur (t ++ rest))) x (λ _ x', scanned x kind v rest x').
Proof.
  intros Hx Ht Hd Hf. destruct Ht as [t s Ht|t i Ht Hi|t r Ht Hr| | | |c Hc].
  - cbn [app cur] in *. rewrite <- app_assoc in Hx. simpl in Hf. rewrite length_app in Hf. simpl in Hf.
    apply (scan_token_string t s); [done|done|lia].
  - destruct (int_text_start t i Ht) as (c & t' & E & Hc).
    apply (scan_token_number t rest fuel x c t'); [done..|]. intros x1 Hx1.
    apply lex_scan_integer_spec; try done. by apply Hd.
  - destruct (real_text_start t Ht) as (c & t' & E & Hc).
    apply (scan_token_number t rest fuel x c t'); [done..|]. intros x1 Hx1.
    apply lex_scan_real_spec; try done. by apply Hd.
  - apply scan_token_word; [done|by apply letters_of|by apply Hd|split; [|done]; simpl; lia].
  - apply scan_token_word; [done|by apply letters_of|by apply Hd|split; [|done]; simpl; lia].
  - apply scan_token_word; [done|by apply letters_of|by apply Hd|split; [|done]; simpl; lia].
  - destruct (punctuation_char c Hc) as (_ & E & _). cbn [app cur] in *.
    apply (scan_token_save c rest); [done|]. intros x1 Hk Hx1. rewrite E, Hc.
    apply wp_put_token. destruct Hx1 as [_ Hx1]. split; [done|]. split; [done|].
    split; [by apply (keeps_outside x x1)|]. exists [c], (Some c). by apply at_with_token.
Qed.

Lemma lexeme_start t kind v rest : lexeme t kind v → is_space (cur (t ++ rest)) = false.
Proof.
  destruct 1 as [t s Ht|t i Ht Hi|t r Ht Hr| | | |c Hc]; try done.
  - destruct (int_text_start t i Ht) as (c & t' & -> & Hc). cbn [app cur].
    by destruct (number_start_tests c Hc) as (-> & ? & _).
  - destruct (real_text_start t Ht) as (c & t' & -> & Hc). cbn [app cur].
    by destruct (number_start_tests c Hc) as (-> & ? & _).
  - cbn [app cur]. by destruct (punctuation_char c Hc) as (_ & -> & ? & _).
Qed.

(** [lex_scan] reads a token of the grammar. *)
Lemma lex_scan_spec w t kind v rest fuel x :
  ready x (w ++ t ++ rest) → ws w → lexeme t kind v → (needs_end kind → delimits rest) →
  (length w + length t ≤ fuel)%nat →
  wpr (lex_scan fuel) x (λ k x', k = kind ∧ scanned x kind v rest x').
Proof.
  intros Hx Hw Ht Hd Hf.
  apply (lex_scan_start w (t ++ rest) fuel x
    (λ c, _ ← scan_token fuel c; x ← get; mret (token x))); [done|done|by eapply lexeme_start|lia|].
  intros x1 Ho Hx1. eapply wp_seq; [apply (scan_token_spec t kind v rest fuel x1); try done; lia|].
  intros [] x2 H2. apply wp_get_bind, wp_ret. pose proof (proj1 H2) as E. split; [done|]. by eapply scanned_outside.
Qed.

(** Behind the last token. *)
Definition end_token : Z := match junk with [] => TOKEN_EOF | _ => TOKEN_INVALID end.

Lemma lex_scan_end w fuel x :
  ready x w → ws w → (length w ≤ fuel)%nat →
  wpr (lex_scan fuel) x (λ k x', k = end_token ∧ scanned x end_token None [] x').
Proof.
  intros Hx Hw Hf. rewrite <- (app_nil_r w) in Hx. 
  apply (lex_scan_start w [] fuel x (λ c, _ ← scan_token fuel c; x ← get; mret (token x))); try done.
  { cbn [cur]. by destruct fin_cases as [[-> _]|[-> _]]. }
  intros x1 Ho Hx1. apply (wp_seq _ _ _ (λ _ x', scanned x end_token None [] x')).
  - assert (scan_token fuel (cur []) = put_token end_token) as ->.
    { unfold scan_token, cur, fin, end_token. by destruct junk. }
    apply wp_put_token. split; [done|]. split; [done|]. split; [done|]. exists [], None. by apply at_with_token.
  - intros _ x2 H2. apply wp_get_bind, wp_ret. pose proof (proj1 H2) as E. by split.
Qed.
End tokens.
