(* ===== verification/JHeap.v ===== *)
(** * Trees of values in the heap

    [owned m n p v A]: in the cells [m], [p] points to a tree that denotes [v].
    It takes exactly the cells [A]; the count of its root is [n], and every
    other cell has one reference. *)

From S2P Require Import Prelude CModel JBase JUtf JHash JHashTheory JValue JArray JReal JLex JSpec.
From stdpp Require Import strings.
From Stdlib Require Import SpecFloat.
#[local] Open Scope Z_scope.

Abbreviation entry := (Z * pair_t ref)%type.

Definition entry_values (l : list entry) : list ref := (λ e : entry, p_value e.2) <$> l.

(** An array whose entries are [ps]. *)
Record array_of (t : json_array_t) (ps : list ref) : Prop := {
  array_entries : a_entries t = Z.of_nat (length ps);
  array_size : a_size t = Z.of_nat (length (a_table t));
  array_min : 8 ≤ a_size t;
  array_fits : a_entries t ≤ a_size t;
  array_table : take (length ps) (a_table t) = Some <$> ps
}.

Inductive owned (m : Zmap cell) : Z → ref → jv → Zset → Prop :=
  | O_true n : owned m n the_true JTrue ∅
  | O_false n : owned m n the_false JFalse ∅
  | O_null n : owned m n the_null JNull ∅
  | O_cell n a b v A :
      m !! a = Some (Cell n b) → denotes m b v A → a ∉ A → owned m n (Ref a) v ({[a]} ∪ A)
with denotes (m : Zmap cell) : body → jv → Zset → Prop :=
  | D_string s : denotes m (String_ s) (JString s) ∅
  | D_integer i : denotes m (Integer i) (JInteger i) ∅
  | D_real r : denotes m (Real r) (JReal r) ∅
  | D_array t ps vs A :
      array_of t ps → a_visited t = 0 → owned_all m ps vs A → denotes m (Array t) (JArray vs) A
  | D_object o l vs ms A :
      table (o_hashtable o) l → o_visited o = 0 → owned_all m (entry_values l) vs A →
      ms ≡ₚ zip (keys l) vs → denotes m (Object o) (JObject ms) A
with owned_all (m : Zmap cell) : list ref → list jv → Zset → Prop :=
  | O_nil : owned_all m [] [] ∅
  | O_cons p ps v vs A B :
      owned m 1 p v A → owned_all m ps vs B → A ## B → owned_all m (p :: ps) (v :: vs) (A ∪ B).

Scheme owned_mind := Induction for owned Sort Prop
  with denotes_mind := Induction for denotes Sort Prop
  with owned_all_mind := Induction for owned_all Sort Prop.
Combined Scheme owned_ind' from owned_mind, denotes_mind, owned_all_mind.

(** ** Frames *)

Lemma owned_frames m m' :
  (∀ n p v A, owned m n p v A → (∀ a, a ∈ A → m' !! a = m !! a) → owned m' n p v A) ∧
  (∀ b v A, denotes m b v A → (∀ a, a ∈ A → m' !! a = m !! a) → denotes m' b v A) ∧
  (∀ ps vs A, owned_all m ps vs A → (∀ a, a ∈ A → m' !! a = m !! a) → owned_all m' ps vs A).
Proof.
  apply owned_ind'; intros; try by constructor.
  - eapply O_cell; [|eauto with set_solver|done]. by rewrite H0 by set_solver.
  - econstructor; eauto.
  - econstructor; eauto.
  - constructor; [|..]; set_solver.
Qed.

Lemma owned_frame m m' n p v A : owned m n p v A → (∀ a, a ∈ A → m' !! a = m !! a) → owned m' n p v A.
Proof. apply owned_frames. Qed.
Lemma denotes_frame m m' b v A : denotes m b v A → (∀ a, a ∈ A → m' !! a = m !! a) → denotes m' b v A.
Proof. apply owned_frames. Qed.
Lemma owned_all_frame m m' ps vs A :
  owned_all m ps vs A → (∀ a, a ∈ A → m' !! a = m !! a) → owned_all m' ps vs A.
Proof. apply owned_frames. Qed.

(** The cells of a tree exist. *)
Lemma owned_cells m :
  (∀ n p v A, owned m n p v A → ∀ a, a ∈ A → is_Some (m !! a)) ∧
  (∀ b v A, denotes m b v A → ∀ a, a ∈ A → is_Some (m !! a)) ∧
  (∀ ps vs A, owned_all m ps vs A → ∀ a, a ∈ A → is_Some (m !! a)).
Proof.
  apply owned_ind'; set_solver.
Qed.

Lemma owned_all_length m ps vs A : owned_all m ps vs A → length ps = length vs.
Proof. induction 1; simpl; congruence. Qed.

(** ** Shared parts

    [unfolds m p v A]: following the references from [p] through the cells [A]
    ends, and shows the value [v]. The cells may be shared with each other and
    with the rest of the heap. *)
Inductive unfolds (m : Zmap cell) : ref → jv → Zset → Prop :=
  | U_true : unfolds m the_true JTrue ∅
  | U_false : unfolds m the_false JFalse ∅
  | U_null : unfolds m the_null JNull ∅
  | U_cell a n b v A : m !! a = Some (Cell n b) → shows m b v A → a ∉ A → unfolds m (Ref a) v ({[a]} ∪ A)
with shows (m : Zmap cell) : body → jv → Zset → Prop :=
  | W_string s : shows m (String_ s) (JString s) ∅
  | W_integer i : shows m (Integer i) (JInteger i) ∅
  | W_real r : shows m (Real r) (JReal r) ∅
  | W_array t ps vs A :
      array_of t ps → a_visited t = 0 → unfolds_all m ps vs A → shows m (Array t) (JArray vs) A
  | W_object o l vs ms A :
      table (o_hashtable o) l → o_visited o = 0 → unfolds_all m (entry_values l) vs A →
      ms ≡ₚ zip (keys l) vs → shows m (Object o) (JObject ms) A
with unfolds_all (m : Zmap cell) : list ref → list jv → Zset → Prop :=
  | U_nil : unfolds_all m [] [] ∅
  | U_cons p ps v vs A B :
      unfolds m p v A → unfolds_all m ps vs B → unfolds_all m (p :: ps) (v :: vs) (A ∪ B).

Scheme unfolds_mind := Induction for unfolds Sort Prop
  with shows_mind := Induction for shows Sort Prop
  with unfolds_all_mind := Induction for unfolds_all Sort Prop.
Combined Scheme unfolds_ind' from unfolds_mind, shows_mind, unfolds_all_mind.

Lemma owned_shows m :
  (∀ n p v A, owned m n p v A → unfolds m p v A) ∧
  (∀ b v A, denotes m b v A → shows m b v A) ∧
  (∀ ps vs A, owned_all m ps vs A → unfolds_all m ps vs A).
Proof. apply owned_ind'; econstructor; eauto. Qed.

Lemma owned_unfolds m n p v A : owned m n p v A → unfolds m p v A.
Proof. apply owned_shows. Qed.

Lemma unfolds_frames m m' :
  (∀ p v A, unfolds m p v A → (∀ a, a ∈ A → m' !! a = m !! a) → unfolds m' p v A) ∧
  (∀ b v A, shows m b v A → (∀ a, a ∈ A → m' !! a = m !! a) → shows m' b v A) ∧
  (∀ ps vs A, unfolds_all m ps vs A → (∀ a, a ∈ A → m' !! a = m !! a) → unfolds_all m' ps vs A).
Proof.
  apply unfolds_ind'; intros; try by constructor.
  - eapply U_cell; [|eauto with set_solver|done]. by rewrite H0 by set_solver.
  - econstructor; eauto.
  - econstructor; eauto.
  - constructor; set_solver.
Qed.

Lemma unfolds_all_frame m m' ps vs A :
  unfolds_all m ps vs A → (∀ a, a ∈ A → m' !! a = m !! a) → unfolds_all m' ps vs A.
Proof. apply unfolds_frames. Qed.

Lemma unfolds_cells m :
  (∀ p v A, unfolds m p v A → ∀ a, a ∈ A → is_Some (m !! a)) ∧
  (∀ b v A, shows m b v A → ∀ a, a ∈ A → is_Some (m !! a)) ∧
  (∀ ps vs A, unfolds_all m ps vs A → ∀ a, a ∈ A → is_Some (m !! a)).
Proof. apply unfolds_ind'; set_solver. Qed.

Lemma unfolds_all_length m ps vs A : unfolds_all m ps vs A → length ps = length vs.
Proof. induction 1; simpl; congruence. Qed.

Lemma unfolds_all_perm m (l l' : list entry) vs A :
  l ≡ₚ l' → unfolds_all m (entry_values l) vs A →
  ∃ vs', unfolds_all m (entry_values l') vs' A ∧ zip (keys l') vs' ≡ₚ zip (keys l) vs.
Proof.
  intros Hp. revert vs A. induction Hp as [|e l l' Hp IH|e1 e2 l|l l2 l3 H1 IH1 H2 IH2]; intros vs A H.
  - by exists vs.
  - inversion H as [|p ps v vs' B B' Hv Hvs]; subst. destruct (IH _ _ Hvs) as (vs2 & H2 & Hz).
    exists (v :: vs2). split; [by constructor|]. simpl. by rewrite Hz.
  - inversion H as [|p ps v vs' B B' Hv Hvs]; subst.
    inversion Hvs as [|p ps v2 vs2 B2 B2' Hv2 Hvs2]; subst. exists (v2 :: v :: vs2). split.
    + rewrite (assoc_L (∪)), (comm_L (∪) B), <- (assoc_L (∪)). by repeat constructor.
    + simpl. apply Permutation_swap.
  - destruct (IH1 _ _ H) as (vs2 & H3 & Hz). destruct (IH2 _ _ H3) as (vs3 & H4 & Hz').
    exists vs3. split; [done|]. by rewrite Hz'.
Qed.

(** One of several trees, and the others. *)
Lemma owned_all_app m ps1 ps2 vs A :
  owned_all m (ps1 ++ ps2) vs A →
  ∃ vs1 vs2 A1 A2, vs = vs1 ++ vs2 ∧ A = A1 ∪ A2 ∧ A1 ## A2 ∧ length vs1 = length ps1 ∧
    owned_all m ps1 vs1 A1 ∧ owned_all m ps2 vs2 A2.
Proof.
  revert vs A. induction ps1 as [|p ps1 IH]; intros vs A H.
  - exists [], vs, ∅, A. split_and!; [done|set_solver|set_solver|done|constructor|done].
  - simpl in H. inversion_clear H as [|p' ps' v vs' B C Hp Hps HBC].
    destruct (IH _ _ Hps) as (vs1 & vs2 & A1 & A2 & -> & -> & Hd & Hl & H1 & H2).
    exists (v :: vs1), vs2, (B ∪ A1), A2. split_and!; [done|set_solver|set_solver|simpl; lia| |done].
    constructor; [done|done|set_solver].
Qed.

Lemma owned_all_join m ps1 ps2 vs1 vs2 A1 A2 :
  owned_all m ps1 vs1 A1 → owned_all m ps2 vs2 A2 → A1 ## A2 →
  owned_all m (ps1 ++ ps2) (vs1 ++ vs2) (A1 ∪ A2).
Proof.
  intros H1 H2. induction H1 as [|p ps v vs A B Hp Hps IH HAB]; intros Hd; simpl.
  - by rewrite (left_id_L ∅ _).
  - rewrite <- (assoc_L (∪)). constructor; [done|apply IH; set_solver|set_solver].
Qed.

(** ** Access to cells *)

Definition with_cells (m : Zmap cell) (s : heap) : heap := Heap m (brk s).

Lemma wp_get_cell {A} a c (f : cell → SM heap A) s Q :
  cells s !! a = Some c → wp (f c) s Q → wp (get_cell a ≫= f) s Q.
Proof.
  intros Ha HQ. unfold get_cell. apply wp_bind, wp_get_bind. rewrite Ha. by apply wp_ret.
Qed.

Lemma wp_put_cell a c c' s (Q : outcome unit → heap → Prop) :
  cells s !! a = Some c → Q (Ret tt) (with_cells (<[a := c']> (cells s)) s) → wp (put_cell a c') s Q.
Proof.
  intros Ha HQ. unfold put_cell. apply wp_get_bind. rewrite Ha. eapply wp_liftS_bind; [done|]. by apply wp_put.
Qed.

Lemma wp_put_cell_bind {A} a c c' s (f : unit → SM heap A) Q :
  cells s !! a = Some c → wp (f tt) (with_cells (<[a := c']> (cells s)) s) Q → wp (put_cell a c' ≫= f) s Q.
Proof. intros Ha HQ. apply wp_bind. by eapply wp_put_cell. Qed.

Lemma wp_put_content a c b s (Q : outcome unit → heap → Prop) :
  cells s !! a = Some c → Q (Ret tt) (with_cells (<[a := Cell (refcount c) b]> (cells s)) s) →
  wp (put_content a b) s Q.
Proof.
  intros Ha HQ. unfold put_content. eapply wp_get_cell; [done|]. by eapply wp_put_cell.
Qed.

Lemma wp_put_content_bind {A} a c b s (f : unit → SM heap A) Q :
  cells s !! a = Some c → wp (f tt) (with_cells (<[a := Cell (refcount c) b]> (cells s)) s) Q →
  wp (put_content a b ≫= f) s Q.
Proof. intros Ha HQ. apply wp_bind. by eapply wp_put_content. Qed.

Lemma wp_with_table {A} a n o (m : SM (hashtable_t ref * heap) A) s (Q : outcome A → heap → Prop) :
  cells s !! a = Some (Cell n (Object o)) →
  wp m (o_hashtable o, s) (λ r hs, ∃ n' o', cells hs.2 !! a = Some (Cell n' (Object o')) ∧
    Q r (with_cells (<[a := Cell n' (Object (JsonObject hs.1 (o_serial o') (o_visited o')))]> (cells hs.2)) hs.2)) →
  wp (with_table a m) s Q.
Proof.
  intros Ha Hm w Hw. unfold with_table. rewrite Ha. destruct (Hm w Hw) as (Hw' & n' & o' & Ha' & HQ).
  destruct (m (o_hashtable o, s) w) as [[r [h s']] w']. simpl in *. by rewrite Ha'.
Qed.

Lemma wp_free_cell a c s (Q : outcome unit → heap → Prop) :
  cells s !! a = Some c → Q (Ret tt) (with_cells (delete a (cells s)) s) → wp (free_cell a) s Q.
Proof.
  intros Ha HQ. unfold free_cell. apply wp_get_bind. rewrite Ha. eapply wp_liftS_bind; [done|]. by apply wp_put.
Qed.

(** ** Releasing a tree *)

(** The cells of [A] are freed, and nothing else changes. *)
Definition removed (A : Zset) (s s' : heap) : Prop :=
  brk s' = brk s ∧ ∀ a, cells s' !! a = if decide (a ∈ A) then None else cells s !! a.

Lemma removed_out A s s' a : removed A s s' → a ∉ A → cells s' !! a = cells s !! a.
Proof. intros [_ H] Ha. by rewrite H, decide_False. Qed.

Lemma removed_trans A B s s1 s2 : removed A s s1 → removed B s1 s2 → removed (A ∪ B) s s2.
Proof.
  intros [Hb1 H1] [Hb2 H2]. split; [congruence|]. intros a. rewrite H2, H1.
  repeat case_decide; try done; set_solver.
Qed.

Lemma removed_empty s : removed ∅ s s.
Proof. split; [done|]. intros a. by rewrite decide_False by set_solver. Qed.

(** The routine releases trees of at most [n] cells. *)
Definition releases (f : ref → SM heap unit) (n : nat) : Prop :=
  ∀ p s v A, owned (cells s) 1 p v A → (size A ≤ n)%nat → wpr (f p) s (λ _ s', removed A s s').

(** The rest of several trees, of which those outside [C] were released. *)
Definition remaining (s0 : heap) (A : Zset) (ps : list ref) (s : heap) : Prop :=
  ∃ vs C, owned_all (cells s) ps vs C ∧ C ⊆ A ∧ removed (A ∖ C) s0 s.

Lemma remaining_start s A ps vs : owned_all (cells s) ps vs A → remaining s A ps s.
Proof.
  intros H. exists vs, A. split_and!; [done|done|]. rewrite difference_diag_L. apply removed_empty.
Qed.

Lemma remaining_end s0 A s : remaining s0 A [] s → removed A s0 s.
Proof.
  intros (vs & C & H & _ & Hr). inversion H; subst. by rewrite difference_empty_L in Hr.
Qed.

Lemma remaining_step f n s0 A p ps s :
  releases f n → (size A ≤ n)%nat → remaining s0 A (p :: ps) s →
  wpr (f p) s (λ _ s', remaining s0 A ps s').
Proof.
  intros Hf Hn (vs & C & H & HC & Hr). inversion H as [|p' ps' v vs' B B' Hp Hps HBC]; subst.
  eapply wp_mono; [eapply (Hf p s v B); [done|]|].
  { etrans; [|done]. apply subseteq_size. set_solver. }
  intros [[]| |] s' H'; [|done..]. exists vs', B'. split_and!; [|set_solver|].
  - eapply owned_all_frame; [done|]. intros a Ha. apply (removed_out _ _ _ _ H'). set_solver.
  - assert (A ∖ B' = (A ∖ (B ∪ B')) ∪ B) as ->.
    { apply set_eq. intros a. rewrite elem_of_union, !elem_of_difference, elem_of_union.
      destruct (decide (a ∈ B)); set_solver. }
    by eapply removed_trans.
Qed.

Lemma release_entries_spec f n s0 A ps s :
  releases f n → (size A ≤ n)%nat → remaining s0 A ps s →
  wpr (release_entries f (Some <$> ps)) s (λ _ s', removed A s0 s').
Proof.
  intros Hf Hn. revert s. induction ps as [|p ps IH]; intros s Hr; cbn [fmap list_fmap release_entries].
  - apply wp_ret. by apply remaining_end.
  - eapply wp_liftS_bind; [done|]. eapply wp_seq; [by eapply remaining_step|]. intros [] s' H'. by apply IH.
Qed.

(** The parts of a value are released, then its cell. *)
Lemma json_delete_spec f n s a v b A :
  releases f n → (size A ≤ n)%nat → cells s !! a = Some (Cell 0 b) → denotes (cells s) b v A → a ∉ A →
  wpr (json_delete_with f a) s (λ _ s', removed ({[a]} ∪ A) s s').
Proof.
  intros Hf Hn Ha Hd HaA. unfold json_delete_with. eapply wp_get_cell; [done|]. cbn [content].
  assert (Hfree : ∀ s1 c, removed A s s1 ∨ (brk s1 = brk s ∧ ∀ b, b ≠ a → cells s1 !! b = if decide (b ∈ A) then None else cells s !! b) →
    cells s1 !! a = Some c → wpr (free_cell a) s1 (λ _ s', removed ({[a]} ∪ A) s s')).
  { intros s1 c H1 Ha1. eapply wp_free_cell; [done|].
    assert (H1' : brk s1 = brk s ∧ ∀ b, b ≠ a → cells s1 !! b = if decide (b ∈ A) then None else cells s !! b).
    { destruct H1 as [[H1 H2]|H1]; [split; auto|done]. }
    destruct H1' as [Hb H2]. split; [done|]. intros d. simpl. destruct (decide (d = a)) as [->|Hne].
    - rewrite lookup_delete_eq, decide_True by set_solver. done.
    - rewrite lookup_delete_ne, H2 by done. repeat case_decide; try done; set_solver. }
  destruct Hd as [str|i|r|t ps vs A Ht _ Hps|o l vs ms A Ht _ Hps Hms].
  1-3: eapply Hfree; [left; apply removed_empty|done].
  - unfold json_delete_array. rewrite (array_entries _ _ Ht), Nat2Z.id, (array_table _ _ Ht).
    eapply wp_seq; [eapply release_entries_spec; [done|done|by eapply remaining_start]|].
    intros [] s1 H1. eapply Hfree; [by left|]. by rewrite (removed_out _ _ _ _ H1).
  - unfold json_delete_object. destruct Ht as (k & gs & Hrep & <-).
    apply (wp_seq _ _ _ (λ _ s1, (∃ c, cells s1 !! a = Some c) ∧ brk s1 = brk s ∧
      ∀ b, b ≠ a → cells s1 !! b = if decide (b ∈ A) then None else cells s !! b)).
    + eapply wp_with_table; [done|].
      eapply wp_mono; [apply (hashtable_close_spec f (λ l, remaining s A (entry_values l))) with (gs := gs) (n := k)|].
      * intros e rest s1 H1. by eapply remaining_step.
      * done.
      * by eapply remaining_start.
      * intros [[]| |] [h s1] H1; [|done..]. simpl in *. apply remaining_end in H1.
        exists 0, o. rewrite (removed_out _ _ _ _ H1) by done. split; [done|].
        split; [eexists; by rewrite lookup_insert_eq|]. destruct H1 as [H1 H2]. split; [done|]. intros b Hb.
        by rewrite lookup_insert_ne.
    + intros [] s1 ((c & Hc) & H1). eapply Hfree; [by right|done].
Qed.

Lemma decref_cell fuel n s a b Q :
  cells s !! a = Some (Cell n b) → 0 < n < STATIC_COUNT →
  wp (if n - 1 =? 0 then match fuel with O => sundef | S fuel => json_delete_with (decref_fuel fuel) a end
      else mret tt) (with_cells (<[a := Cell (n - 1) b]> (cells s)) s) Q →
  wp (decref_fuel fuel (Ref a)) s Q.
Proof.
  intros Ha Hn HQ. destruct fuel; cbn [decref_fuel]; (eapply wp_get_cell; [done|]); cbn [refcount content];
    unfold STATIC_COUNT in *; rewrite (proj2 (Z.eqb_neq _ _)) by lia;
    unfold size_t; rewrite Z.mod_small by lia; by eapply wp_put_cell_bind.
Qed.

Lemma decref_fuel_spec fuel : releases (decref_fuel fuel) fuel.
Proof.
  induction fuel as [|fuel IH]; intros p s v A Hp Hs;
    inversion Hp as [n|n|n|n a b v' A' Ha Hd HaA]; subst;
    try (cbn [decref_fuel]; apply wp_ret, removed_empty);
    rewrite size_union, size_singleton in Hs by set_solver; [lia|].
  eapply decref_cell; [done|done|]. change (1 - 1 =? 0) with true. cbv iota.
  set (s1 := with_cells _ _).
  eapply wp_mono; [apply (json_delete_spec _ fuel s1 a v b A' IH)|].
  - lia.
  - simpl. by rewrite lookup_insert_eq.
  - eapply denotes_frame; [done|]. intros d Hd'. simpl. rewrite lookup_insert_ne; [done|]. by intros ->.
  - done.
  - intros [[]| |] s2 H12; [|done..]. destruct H12 as [H1 H2]. split; [done|]. intros d. rewrite H2. simpl.
    case_decide; [done|]. rewrite lookup_insert_ne; [done|]. set_solver.
Qed.

(** ** Heaps *)

(** All cells lie below the break. *)
Definition wf (s : heap) : Prop := 0 ≤ brk s ∧ ∀ a, is_Some (cells s !! a) → 0 ≤ a < brk s.

Lemma interval_size (A : Zset) n : (∀ a, a ∈ A → 0 ≤ a < n) → (size A ≤ Z.to_nat n)%nat.
Proof.
  intros HA. transitivity (size (list_to_set (seqZ 0 n) : Zset)).
  - apply subseteq_size. intros a Ha. apply elem_of_list_to_set, elem_of_seqZ. apply HA in Ha. lia.
  - rewrite size_list_to_set by apply NoDup_seqZ. by rewrite length_seqZ.
Qed.

Lemma wf_owned_size s n p v A : wf s → owned (cells s) n p v A → (size A ≤ Z.to_nat (brk s))%nat.
Proof.
  intros [_ Hwf] Hp. apply interval_size. intros a Ha. apply Hwf.
  by eapply (proj1 (owned_cells (cells s))).
Qed.

Lemma wf_unfolds_size s p v A : wf s → unfolds (cells s) p v A → (size A ≤ Z.to_nat (brk s))%nat.
Proof.
  intros [_ Hwf] Hp. apply interval_size. intros a Ha. apply Hwf.
  by eapply (proj1 (unfolds_cells (cells s))).
Qed.

Lemma removed_wf A s s' : removed A s s' → wf s → wf s'.
Proof.
  intros [Hb H] [H0 Hwf]. split; [by rewrite Hb|]. intros a Ha. rewrite Hb. apply Hwf. rewrite H in Ha.
  case_decide; [by destruct Ha|done].
Qed.

(** [json_decref] of the last reference frees the whole tree and nothing else. *)
Lemma json_decref_spec s p v A :
  wf s → owned (cells s) 1 p v A → wpr (json_decref (Some p)) s (λ _ s', removed A s s').
Proof.
  intros Hwf Hp. unfold json_decref, json_decref_ref. apply wp_get_bind.
  eapply decref_fuel_spec; [done|]. by eapply wf_owned_size.
Qed.

(** The count of the root is set to [n]. *)
Definition recounted (p : ref) (n : Z) (s s' : heap) : Prop :=
  brk s' = brk s ∧
  match p with
  | Ref a => ∃ c, cells s !! a = Some c ∧ cells s' = <[a := Cell n (content c)]> (cells s)
  | _ => cells s' = cells s
  end.

Lemma recounted_owned s s' n n' p v A : recounted p n' s s' → owned (cells s) n p v A → owned (cells s') n' p v A.
Proof.
  intros [_ H] Hp. inversion Hp as [k|k|k|k a b v' A' Ha Hd HaA]; subst; [constructor..|].
  destruct H as (c & Hc & ->). simplify_eq. eapply O_cell; [by rewrite lookup_insert_eq| |done].
  eapply denotes_frame; [done|]. intros d Hd'. rewrite lookup_insert_ne; [done|]. by intros ->.
Qed.

Lemma recounted_out s s' n n' p v A a :
  recounted p n' s s' → owned (cells s) n p v A → a ∉ A → cells s' !! a = cells s !! a.
Proof.
  intros [_ H] Hp Ha. inversion Hp as [k|k|k|k d b v' A' Hd Hd' HaA]; subst; [by rewrite H..|].
  destruct H as (c & Hc & ->). rewrite lookup_insert_ne; [done|]. set_solver.
Qed.

Lemma json_incref_spec s n p v A :
  owned (cells s) n p v A → 0 < n < STATIC_COUNT - 1 →
  wpr (json_incref (Some p)) s (λ r s', r = Some p ∧ recounted p (n + 1) s s').
Proof.
  intros Hp Hn. inversion Hp as [k|k|k|k a b v' A' Ha Hd HaA]; subst; try by apply wp_ret.
  unfold json_incref. eapply wp_get_cell; [done|]. cbn [refcount]. unfold STATIC_COUNT in *.
  rewrite (proj2 (Z.eqb_neq _ _)) by lia.
  unfold size_t. rewrite Z.mod_small by lia. eapply wp_put_cell_bind; [done|]. apply wp_ret.
  split; [done|]. split; [done|]. by eexists.
Qed.

Lemma json_decref_shared s n p v A :
  owned (cells s) n p v A → 1 < n < STATIC_COUNT →
  wpr (json_decref (Some p)) s (λ _ s', recounted p (n - 1) s s').
Proof.
  intros Hp Hn. unfold json_decref, json_decref_ref. apply wp_get_bind.
  inversion Hp as [k|k|k|k a b v' A' Ha Hd HaA]; subst;
    try (destruct (Z.to_nat (brk s)); cbn [decref_fuel]; by apply wp_ret).
  eapply decref_cell; [done|lia|]. rewrite (proj2 (Z.eqb_neq _ _)) by lia. apply wp_ret.
  split; [done|]. by eexists.
Qed.

(** ** New values *)

(** A routine that works on the cells [A] leaves [A']: the cells that it added
    are new, those that it gave up are free, and the others are as before. *)
Record grows (A A' : Zset) (s s' : heap) : Prop := {
  grows_wf : wf s';
  grows_brk : brk s ≤ brk s';
  grows_fresh d : d ∈ A' → d ∈ A ∨ brk s ≤ d;
  grows_freed d : d ∈ A → d ∉ A' → cells s' !! d = None;
  grows_frame d : d ∉ A → d ∉ A' → cells s' !! d = cells s !! d
}.

Lemma wf_none s d : wf s → brk s ≤ d → cells s !! d = None.
Proof.
  intros [_ Hwf] Hd. destruct (cells s !! d) eqn:E; [|done]. assert (0 ≤ d < brk s) by (apply Hwf; by eexists). lia.
Qed.

Lemma grows_trans A A' A'' s s1 s2 : wf s → grows A A' s s1 → grows A' A'' s1 s2 → grows A A'' s s2.
Proof.
  intros Hwf [Hw1 Hb1 Hf1 Hr1 Hs1] [Hw2 Hb2 Hf2 Hr2 Hs2]. split; [done|lia| | |].
  - intros d Hd. destruct (Hf2 d Hd) as [H|H]; [by apply Hf1|right; lia].
  - intros d Hd Hd2. destruct (decide (d ∈ A')) as [Hin|Hout]; [by apply Hr2|].
    rewrite Hs2 by done. by apply Hr1.
  - intros d Hd Hd2. destruct (decide (d ∈ A')) as [Hin|Hout].
    + rewrite Hr2 by done. destruct (Hf1 d Hin) as [?|H]; [done|]. symmetry. by apply wf_none.
    + rewrite Hs2 by done. by apply Hs1.
Qed.

(** A part of the cells stays as it is. *)
Lemma grows_with B A A' s s' :
  grows A A' s s' → (∀ d, d ∈ B → d < brk s) → A ## B → grows (A ∪ B) (A' ∪ B) s s'.
Proof.
  intros [Hw Hb Hf Hr Hs] HB Hd. split; [done|done| | |].
  - intros d [H|H]%elem_of_union; [destruct (Hf d H); [left; set_solver|by right]|left; set_solver].
  - intros d H1 H2. apply Hr; set_solver.
  - intros d H1 H2. apply Hs; set_solver.
Qed.

(** The tree [p] was built in new cells. *)
Record built (s : heap) (p : ref) (v : jv) (A : Zset) (s' : heap) : Prop := {
  built_owned : owned (cells s') 1 p v A;
  built_grows : grows ∅ A s s'
}.

Lemma built_frame s p v A s' d : built s p v A s' → d ∉ A → cells s' !! d = cells s !! d.
Proof. intros [_ H] Hd. by apply (grows_frame _ _ _ _ H); [set_solver|]. Qed.

Lemma built_fresh s p v A s' d : built s p v A s' → d ∈ A → brk s ≤ d.
Proof. intros [_ H] Hd. destruct (grows_fresh _ _ _ _ H d Hd); [set_solver|done]. Qed.

Lemma built_static s p v : wf s → owned (cells s) 1 p v ∅ → built s p v ∅ s.
Proof. intros Hwf Hp. split; [done|]. split; [done|done| | |done]; set_solver. Qed.

Lemma json_init_spec s b v :
  wf s → denotes (cells s) b v ∅ → wpr (json_init b) s (λ p s', ∃ A, built s p v A s').
Proof.
  intros [H0 Hwf] Hb. unfold json_init. apply wp_get_bind, wp_put_bind, wp_ret. exists ({[brk s]} ∪ ∅).
  split; simpl.
  - eapply O_cell; [by rewrite lookup_insert_eq| |set_solver]. eapply denotes_frame; [done|set_solver].
  - split; simpl; [|lia| | |].
    + split; simpl; [lia|]. intros a Ha. destruct (decide (a = brk s)) as [->|Hne]; [lia|].
      rewrite lookup_insert_ne in Ha by done. apply Hwf in Ha. lia.
    + intros d Hd. right. set_solver by lia.
    + set_solver.
    + intros d _ Hd. rewrite lookup_insert_ne; [done|]. set_solver.
Qed.

Lemma json_string_spec s str :
  wf s → wpr (json_string_nocheck (Some str)) s (λ p s', ∃ A, built s p (JString str) A s').
Proof.
  intros Hwf. unfold json_string_nocheck. apply wp_lift_malloc; [done|]. apply wp_lift_strdup.
  apply json_init_spec; [done|constructor].
Qed.

Lemma json_integer_spec s i :
  wf s → wpr (json_integer i) s (λ p s', ∃ A, built s p (JInteger i) A s').
Proof.
  intros Hwf. unfold json_integer. apply wp_lift_malloc; [done|]. apply json_init_spec; [done|constructor].
Qed.

Lemma json_real_spec s r :
  wf s → isnan r || isinf r = false → wpr (json_real r) s (λ p s', ∃ A, built s p (JReal r) A s').
Proof.
  intros Hwf Hr. unfold json_real. rewrite Hr. apply wp_lift_malloc; [done|].
  apply json_init_spec; [done|constructor].
Qed.

Lemma json_array_spec s : wf s → wpr json_array s (λ p s', ∃ A, built s p (JArray []) A s').
Proof.
  intros Hwf. unfold json_array. apply wp_lift_malloc; [done|]. apply wp_lift_malloc; [done|].
  apply json_init_spec; [done|]. apply (D_array _ _ []); [by split|done|constructor].
Qed.

Lemma json_object_spec s : wf s → wpr json_object s (λ p s', ∃ A, built s p (JObject []) A s').
Proof.
  intros Hwf. unfold json_object. apply wp_lift_malloc; [done|].
  apply (wp_seq _ _ _ (λ h s', s' = s ∧ table h [])).
  - intros w Hw. pose proof (hashtable_init_spec (V := ref) (Hashtable 0 None 0 ∅ ∅ 0) w Hw) as [Hw' H].
    unfold lift, run_on, mbind, M_bind. destruct (hashtable_init _ w) as [[[[]| |] h] w']; try done.
    split; [done|]. split; [done|]. by exists 5, [].
  - intros h s' (-> & Hh). apply json_init_spec; [done|].
    apply (D_object _ _ [] []); [done|done|constructor|done].
Qed.
