(* ===== verification/JBuild.v ===== *)
(** * Building arrays and objects

    What the routines that the parser calls do to trees: appending to an array,
    setting a member of an object. *)

From S2P Require Import Prelude CModel JBase JUtf JHash JHashTheory JValue JArray JReal JLex JSpec JHeap.
From stdpp Require Import strings.
From Stdlib Require Import SpecFloat.
#[local] Open Scope Z_scope.

(** The cell [a] holds [b], the cells [C] were freed, and the others are as
    before. *)
Record changed (a n : Z) (b : body) (C : Zset) (s s' : heap) : Prop := {
  changed_brk : brk s' = brk s;
  changed_cell : cells s' !! a = Some (Cell n b);
  changed_other d : d ≠ a → cells s' !! d = if decide (d ∈ C) then None else cells s !! d
}.

Lemma changed_put a n b s : changed a n b ∅ s (with_cells (<[a := Cell n b]> (cells s)) s).
Proof.
  split; simpl; [done|by rewrite lookup_insert_eq|]. intros d Hd. rewrite lookup_insert_ne by done.
  by rewrite decide_False by set_solver.
Qed.

(** A value that was stored with a second reference loses the first one. *)
Lemma release_stored s s1 s2 p v B a n b C :
  owned (cells s) 1 p v B → a ∉ B → C ## B → recounted p 2 s s1 → changed a n b C s1 s2 →
  wpr (json_decref (Some p)) s2 (λ _ s3, changed a n b C s s3).
Proof.
  intros Hp HaB HC H1 H2.
  assert (Hp1 : owned (cells s1) 2 p v B) by by eapply recounted_owned.
  assert (Hp2 : owned (cells s2) 2 p v B).
  { eapply owned_frame; [done|]. intros d Hd. rewrite (changed_other _ _ _ _ _ _ H2) by set_solver.
    by rewrite decide_False by set_solver. }
  eapply wp_mono; [by apply (json_decref_shared s2 2 p v B)|]. intros [[]| |] s3 H3; [|done..].
  change (2 - 1) with 1 in H3. split.
  - rewrite (proj1 H3), (changed_brk _ _ _ _ _ _ H2). by destruct H1.
  - by rewrite (recounted_out s2 s3 2 1 p v B a H3 Hp2 HaB), (changed_cell _ _ _ _ _ _ H2).
  - intros d Hd. inversion Hp as [k|k|k|k e c v' A' Hc He HeA]; subst;
      destruct H1 as [_ H1], H3 as [_ H3]; [by rewrite H3, (changed_other _ _ _ _ _ _ H2), H1..|].
    destruct H1 as (c1 & Hc1 & E1), H3 as (c3 & Hc3 & E3). rewrite E3. simplify_eq. simpl in *.
    destruct (decide (d = e)) as [->|Hne].
    + rewrite lookup_insert_eq, decide_False by set_solver.
      rewrite (changed_other _ _ _ _ _ _ H2), decide_False, E1, lookup_insert_eq in Hc3 by set_solver.
      by simplify_eq.
    + rewrite lookup_insert_ne, (changed_other _ _ _ _ _ _ H2), E1 by done.
      by rewrite (lookup_insert_ne _ e) by done.
Qed.

(** ** Arrays *)

Lemma grow_copy_spec s a n t ps :
  cells s !! a = Some (Cell n (Array t)) → array_of t ps →
  wpr (json_array_grow_copy a 1) s (λ _ s', ∃ t', changed a n (Array t') ∅ s s' ∧ array_of t' ps ∧
    a_visited t' = a_visited t ∧ a_entries t < a_size t').
Proof.
  intros Ha [He Hs Hm Hf Ht]. unfold json_array_grow_copy, reload. apply wp_bind. eapply wp_get_cell; [done|].
  cbn [content]. apply wp_ret. case_bool.
  - apply wp_ret. exists t. split; [|split; [done|split; [done|lia]]]. split; [done|done|].
    intros d _. by rewrite decide_False by set_solver.
  - apply wp_lift_malloc; [unfold sizeof_pointer; lia|].
    assert (Hn : 0 ≤ a_entries t ≤ Z.max (a_size t + 1) (a_size t * 2)) by lia.
    eapply wp_liftS_bind.
    { unfold array_copy, blen. rewrite length_replicate, Z2Nat.id by lia.
      by rewrite (proj2 (Z.leb_le 0 _)), (proj2 (Z.leb_le (0 + _) (Z.max _ _))), (proj2 (Z.leb_le (0 + _) (Z.of_nat _))) by lia. }
    eapply wp_put_content; [done|]. eexists. split.
    { apply (changed_put a n). }
    split; [|split; [done|simpl; lia]]. split; simpl; try lia.
    + rewrite length_app, length_take, !length_drop, length_replicate. lia.
    + change (Z.to_nat 0) with O. rewrite drop_0, take_app_le by (rewrite length_take; lia).
      by rewrite take_take, He, Nat2Z.id, Nat.min_id.
Qed.

Lemma json_array_append_new_spec s a n t ps p :
  cells s !! a = Some (Cell n (Array t)) → array_of t ps → p ≠ Ref a →
  wpr (json_array_append_new (Some (Ref a)) (Some p)) s (λ _ s', ∃ t',
    changed a n (Array t') ∅ s s' ∧ array_of t' (ps ++ [p]) ∧ a_visited t' = a_visited t).
Proof.
  intros Ha Ht Hp. unfold json_array_append_new, json_to_array. apply wp_bind. eapply wp_get_cell; [done|].
  cbn [content]. apply wp_ret. rewrite bool_decide_eq_false_2 by congruence.
  apply (wp_seq _ _ _ (λ _ s1, ∃ t1, changed a n (Array t1) ∅ s s1 ∧ array_of t1 ps ∧
    a_visited t1 = a_visited t ∧ a_entries t1 < a_size t1)).
  { unfold or_else. apply wp_bind, wp_attempt. eapply wp_mono; [by apply (grow_copy_spec s a n t ps)|].
    intros [[]| |] s1 H1; [|done..]. apply wp_ret. destruct H1 as (t1 & H1 & Ht1 & Hv & Hlt).
    exists t1. split_and!; try done. by rewrite (array_entries _ _ Ht1), <- (array_entries _ _ Ht). }
  intros [] s1 (t1 & H1 & Ht1 & Hv & Hlt). pose proof (changed_cell _ _ _ _ _ _ H1) as Ha1.
  unfold reload. apply wp_bind. eapply wp_get_cell; [done|]. cbn [content]. apply wp_ret.
  destruct Ht1 as [He Hs Hm Hf Htab].
  eapply wp_liftS_bind.
  { unfold table_set, blen. by rewrite (proj2 (Z.leb_le _ _)), (proj2 (Z.ltb_lt _ _)) by lia. }
  eapply wp_put_content; [done|].
  exists (with_entries (a_entries t1 + 1) (<[Z.to_nat (a_entries t1) := Some p]> (a_table t1)) t1).
  split; [|split; [|done]].
  - destruct H1 as [Hb Hc Ho]. split; simpl; [done|by rewrite lookup_insert_eq|].
    intros d Hd. rewrite lookup_insert_ne by done. by apply Ho.
  - split; simpl; rewrite ?length_app, ?length_insert; simpl; try lia.
    rewrite He, Nat2Z.id. replace (length ps + 1)%nat with (S (length ps)) by lia.
    rewrite (take_S_r _ _ (Some p)) by (rewrite list_lookup_insert_eq; [done|lia]).
    by rewrite take_insert_ge, Htab, fmap_app by lia.
Qed.

(** ** Trees with another root *)

Lemma owned_inv m n a v A :
  owned m n (Ref a) v A → 
    ∃ b B, A = ({[a]} ∪ B) ∧ a ∉ B ∧ m !! a = Some (Cell n b) ∧ denotes m b v B.
Proof. intros H. inversion H; subst. eauto 10. Qed.

Lemma owned_not_in m n p v A a : owned m n p v A → a ∉ A → p ≠ Ref a.
Proof. intros H Ha ->. apply owned_inv in H as (b & B & -> & _). set_solver. Qed.

(** [json_array_append] followed by the release of the reference that the
    caller had. *)
Lemma array_append_spec s a vs A p v B :
  owned (cells s) 1 (Ref a) (JArray vs) A → owned (cells s) 1 p v B → A ## B →
  wpr (json_array_append (Some (Ref a)) (Some p)) s (λ _ s1,
    wpr (json_decref (Some p)) s1 (λ _ s', owned (cells s') 1 (Ref a) (JArray (vs ++ [v])) (A ∪ B) ∧
      brk s' = brk s ∧ ∀ d, d ≠ a → cells s' !! d = cells s !! d)).
Proof.
  intros Ha Hp HAB. apply owned_inv in Ha as (b & A' & -> & HaA & Hc & Hd).
  inversion Hd as [| | |t ps vs' A2 Ht Hv Hps|]; subst. unfold json_array_append.
  eapply wp_seq; [apply (json_incref_spec s 1 p v B Hp); unfold STATIC_COUNT; lia|].
  intros r s1 (-> & H1). change (1 + 1) with 2 in H1.
  assert (HaB : a ∉ B) by set_solver.
  assert (Hc1 : cells s1 !! a = Some (Cell 1 (Array t))) by (by rewrite (recounted_out s s1 1 2 p v B)).
  eapply wp_mono; [by eapply (json_array_append_new_spec s1 a 1 t ps p), (owned_not_in _ _ _ _ _ _ Hp)|].
  intros [[]| |] s2 H2; [|done..]. destruct H2 as (t' & H2 & Ht' & Hv').
  eapply wp_mono; [by apply (release_stored s s1 s2 p v B a 1 (Array t') ∅); try done; set_solver|].
  intros [[]| |] s3 H3; [|done..]. destruct H3 as [Hb3 Hc3 Ho3].
  assert (Hout : ∀ d, d ≠ a → cells s3 !! d = cells s !! d).
  { intros d Hne. rewrite Ho3 by done. by rewrite decide_False by set_solver. }
  split; [|done]. rewrite <- (assoc_L (∪)). eapply O_cell; [done| |set_solver].
  econstructor; [done|congruence|].
  apply owned_all_join; [| |set_solver].
  - eapply owned_all_frame; [done|]. intros d Hd'. apply Hout. by intros ->.
  - rewrite <- (right_id_L ∅ (∪) B). constructor; [|constructor|set_solver].
    eapply owned_frame; [done|]. intros d Hd'. apply Hout. by intros ->.
Qed.

(** ** Members *)

Lemma set_member_new k v ms : k ∉ ms.*1 → set_member k v ms = ms ++ [(k, v)].
Proof.
  induction ms as [|[k' v'] ms IH]; [done|]. intros H. cbn [set_member]. rewrite decide_False by set_solver.
  rewrite IH by set_solver. done.
Qed.

Lemma set_member_old k v v0 ms1 ms2 :
  k ∉ ms1.*1 → set_member k v (ms1 ++ (k, v0) :: ms2) = ms1 ++ (k, v) :: ms2.
Proof.
  induction ms1 as [|[k' v'] ms IH]; intros H; cbn [set_member app].
  - by rewrite decide_True.
  - rewrite decide_False by set_solver. rewrite IH by set_solver. done.
Qed.

Lemma set_member_keys k v ms : NoDup ms.*1 → NoDup (set_member k v ms).*1.
Proof.
  intros H. destruct (decide (k ∈ ms.*1)) as [Hin|Hout].
  - apply list_elem_of_fmap in Hin as ([k' v0] & -> & Hin). apply list_elem_of_split in Hin as (m1 & m2 & ->).
    rewrite fmap_app, fmap_cons in *. rewrite set_member_old.
    + by rewrite fmap_app, fmap_cons.
    + apply NoDup_app in H as (_ & H & _). intros Hk. by apply (H k' Hk), list_elem_of_here.
  - rewrite set_member_new, fmap_app by done. apply NoDup_app. split; [done|].
    split; [set_solver|apply NoDup_singleton].
Qed.

Lemma set_member_perm k v ms ms' :
  NoDup ms.*1 → ms ≡ₚ ms' → set_member k v ms ≡ₚ set_member k v ms'.
Proof.
  intros Hnd Hp. assert (Hnd' : NoDup ms'.*1) by (by rewrite <- Hp).
  assert (Hsplit : ∀ m : list (list Z * jv), NoDup m.*1 → ∀ v0, (k, v0) ∈ m → ∃ m1 m2, m = m1 ++ (k, v0) :: m2 ∧ k ∉ m1.*1).
  { intros m Hm v0 Hin. apply list_elem_of_split in Hin as (m1 & m2 & ->). exists m1, m2. split; [done|].
    rewrite fmap_app, fmap_cons in Hm. apply NoDup_app in Hm as (_ & Hm & _). intros Hk.
    by apply (Hm k Hk), list_elem_of_here. }
  destruct (decide (k ∈ ms.*1)) as [Hin|Hout].
  - apply list_elem_of_fmap in Hin as ([k' v0] & E & Hin). simpl in E. subst k'.
    destruct (Hsplit ms Hnd v0 Hin) as (m1 & m2 & -> & H1).
    destruct (Hsplit ms' Hnd' v0) as (m3 & m4 & -> & H3); [by rewrite <- Hp|].
    rewrite !set_member_old by done. rewrite <- !Permutation_middle in *. apply Permutation_cons_inv in Hp.
    by rewrite Hp.
  - rewrite !set_member_new; [by rewrite Hp| |done]. by rewrite <- Hp.
Qed.

(** ** Tables *)

Lemma table_lookup (h : hashtable_t ref) l key :
  table h l → hashtable_get h key = Ret ((λ e : entry, p_value e.2) <$> find_pair key l).
Proof. intros (n & gs & Hrep & <-). by apply (hashtable_get_spec h n gs). Qed.

Lemma table_set_new (h : hashtable_t ref) l (s : heap) key serial p :
  table h l → Z.of_nat (length l) < MAX_PAIRS → find_pair key l = None →
  wpr (hashtable_set json_decref_ref key serial p) (h, s) (λ _ hs, hs.2 = s ∧ ∃ l' e, table hs.1 l' ∧
    l' ≡ₚ e :: l ∧ p_key e.2 = key ∧ p_value e.2 = p).
Proof.
  intros (n & gs & Hrep & <-) Hl Hf. eapply wp_mono; [by apply (hashtable_set_new json_decref_ref h n gs)|].
  intros [[]| |] [h' s'] H'; [|done..]. destruct H' as (-> & n' & gs' & Hrep' & Hp). split; [done|].
  exists (flat gs'), (h_brk h, Pair (hash_str key) serial p key). split; [by exists n', gs'|done].
Qed.

Lemma table_set_old (h : hashtable_t ref) l (s : heap) key serial p e R :
  table h l → Z.of_nat (length l) < MAX_PAIRS → find_pair key l = Some e →
  wpr (json_decref_ref (p_value e.2)) s (λ _, R) →
  wpr (hashtable_set json_decref_ref key serial p) (h, s) (λ _ hs, R hs.2 ∧ ∃ l', table hs.1 l' ∧
    l' ≡ₚ (set_value e.1 p <$> l)).
Proof.
  intros (n & gs & Hrep & <-) Hl Hf HR.
  eapply wp_mono; [by apply (hashtable_set_old json_decref_ref h n gs s key serial p e R)|].
  intros [[]| |] [h' s'] H'; [|done..]. destruct H' as (HR' & n' & gs' & Hrep' & Hp). split; [done|].
  exists (flat gs'). split; [by exists n', gs'|done].
Qed.

(** The entries in another order. *)
Lemma owned_all_perm m (l l' : list entry) vs A :
  l ≡ₚ l' → owned_all m (entry_values l) vs A →
  ∃ vs', owned_all m (entry_values l') vs' A ∧ zip (keys l') vs' ≡ₚ zip (keys l) vs.
Proof.
  intros Hp. revert vs A. induction Hp as [|e l l' Hp IH|e1 e2 l|l l2 l3 H1 IH1 H2 IH2]; intros vs A H.
  - by exists vs.
  - inversion H as [|p ps v vs' B B' Hv Hvs HB]; subst. destruct (IH _ _ Hvs) as (vs2 & H2 & Hz).
    exists (v :: vs2). split; [by constructor|]. simpl. by rewrite Hz.
  - inversion H as [|p ps v vs' B B' Hv Hvs HB]; subst.
    inversion Hvs as [|p ps v2 vs2 B2 B2' Hv2 Hvs2 HB2]; subst. exists (v2 :: v :: vs2). split.
    + rewrite (assoc_L (∪)), (comm_L (∪) B), <- (assoc_L (∪)). constructor; [done| |set_solver].
      constructor; [done|done|set_solver].
    + simpl. apply Permutation_swap.
  - destruct (IH1 _ _ H) as (vs2 & H3 & Hz). destruct (IH2 _ _ H3) as (vs3 & H4 & Hz').
    exists vs3. split; [done|]. by rewrite Hz'.
Qed.

Lemma keys_zip (l : list entry) (vs : list jv) : length vs = length l → (zip (keys l) vs).*1 = keys l.
Proof. intros Hl. apply fst_zip. unfold keys. rewrite length_fmap. lia. Qed.

(** The object at [a] holds one member more, or another value for it. *)
Record member_set (a : Z) (key : list Z) (v : jv) (ms : list (list Z * jv)) (A B : Zset) (s s' : heap) (C : Zset) : Prop := {
  set_freed : C ⊆ A ∧ a ∉ C;
  set_owned : owned (cells s') 1 (Ref a) (JObject (set_member key v ms)) ((A ∖ C) ∪ B);
  set_brk : brk s' = brk s;
  set_other d : d ≠ a → cells s' !! d = if decide (d ∈ C) then None else cells s !! d
}.

Lemma zip_middle (l1 l2 : list entry) (e : entry) (vs1 vs2 : list jv) v :
  length vs1 = length l1 →
  zip (keys (l1 ++ e :: l2)) (vs1 ++ v :: vs2) = zip (keys l1) vs1 ++ (p_key e.2, v) :: zip (keys l2) vs2.
Proof.
  intros Hl. unfold keys. rewrite fmap_app, fmap_cons. rewrite zip_with_app; [done|]. by rewrite length_fmap.
Qed.

Lemma set_value_others (e : entry) p (l : list entry) : e.1 ∉ addrs l → set_value e.1 p <$> l = l.
Proof.
  induction l as [|e' l IH]; [done|]. intros H. unfold addrs in *. rewrite fmap_cons in *.
  rewrite IH by set_solver. unfold set_value. rewrite decide_False by set_solver. done.
Qed.

Lemma object_set_new m a o l vs ms A key p v B l' (e : entry) :
  table (o_hashtable o) l' → o_visited o = 0 → m !! a = Some (Cell 1 (Object o)) → a ∉ A → a ∉ B → A ## B →
  owned_all m (entry_values l) vs A → owned m 1 p v B → ms ≡ₚ zip (keys l) vs →
  key ∉ keys l → l' ≡ₚ e :: l → p_key e.2 = key → p_value e.2 = p →
  owned m 1 (Ref a) (JObject (set_member key v ms)) ({[a]} ∪ (A ∪ B)).
Proof.
  intros Ht Hvis Hc HaA HaB HAB Hvs Hp Hms Hk Hl' Hek Hev.
  assert (Hlen : length vs = length l).
  { rewrite <- (owned_all_length _ _ _ _ Hvs). unfold entry_values. by rewrite length_fmap. }
  assert (Hall : owned_all m (entry_values (e :: l)) (v :: vs) (B ∪ A)).
  { unfold entry_values. rewrite fmap_cons, Hev. by constructor. }
  destruct (owned_all_perm m (e :: l) l' _ _ (symmetry Hl') Hall) as (vs' & Hvs' & Hz).
  eapply O_cell; [done| |set_solver]. rewrite (comm_L (∪) A). econstructor; [done|done|done|].
  rewrite Hz, set_member_new.
  - unfold keys at 1. rewrite fmap_cons, Hek. simpl. rewrite <- Permutation_cons_append. by rewrite Hms.
  - rewrite Hms, keys_zip; done.
Qed.

Lemma changed_owned a n b C s s' k p v B :
  changed a n b C s s' → owned (cells s) k p v B → a ∉ B → C ## B → owned (cells s') k p v B.
Proof.
  intros [_ _ H] Hp Ha HC. eapply owned_frame; [done|]. intros d Hd.
  rewrite H by set_solver. by rewrite decide_False by set_solver.
Qed.

Lemma changed_owned_all a n b C s s' ps vs B :
  changed a n b C s s' → owned_all (cells s) ps vs B → a ∉ B → C ## B → owned_all (cells s') ps vs B.
Proof.
  intros [_ _ H] Hp Ha HC. eapply owned_all_frame; [done|]. intros d Hd.
  rewrite H by set_solver. by rewrite decide_False by set_solver.
Qed.

Lemma changed_wf a n b C s s' : changed a n b C s s' → wf s → is_Some (cells s !! a) → wf s'.
Proof.
  intros [Hb Ha H] [H0 Hwf] Hs. split; [by rewrite Hb|]. intros d Hd. rewrite Hb. apply Hwf.
  destruct (decide (d = a)) as [->|Hne]; [done|]. rewrite H in Hd by done.
  case_decide; [by destruct Hd|done].
Qed.

Lemma recounted_wf s s' n p v A k : recounted p n s s' → owned (cells s) k p v A → wf s → wf s'.
Proof.
  intros [Hb H] Hp [H0 Hwf]. split; [by rewrite Hb|]. intros d Hd. rewrite Hb. apply Hwf.
  inversion Hp; subst; [by rewrite <- H..|]. destruct H as (c & Hc & E). rewrite E in Hd.
  destruct (decide (d = a)) as [->|Hne]; [by eexists|]. by rewrite lookup_insert_ne in Hd.
Qed.

(** The value of the pair [e] among those of the object. *)
Lemma owned_all_pair m (l : list entry) vs A key e :
  NoDup (keys l) → owned_all m (entry_values l) vs A → find_pair key l = Some e →
  ∃ l1 l2 vs1 v0 vs2 E A1 A2, l = l1 ++ e :: l2 ∧ vs = vs1 ++ v0 :: vs2 ∧ length vs1 = length l1 ∧
    (A = (A1 ∪ (E ∪ A2)) ∧ A1 ## E ∧ A1 ## A2 ∧ E ## A2) ∧ key ∉ keys l1 ∧ p_key e.2 = key ∧
    owned m 1 (p_value e.2) v0 E ∧
    owned_all m (entry_values l1) vs1 A1 ∧ owned_all m (entry_values l2) vs2 A2.
Proof.
  intros Hnd H [He Hk]%find_pair_in. apply list_elem_of_split in He as (l1 & l2 & ->).
  unfold entry_values in H. rewrite fmap_app, fmap_cons in H.
  destruct (owned_all_app _ _ _ _ _ H) as (vs1 & vs2' & A1 & A2' & -> & -> & Hd & Hl & H1 & H2).
  inversion H2 as [|p ps v0 vs2 E A2 Hv Hvs HE]; subst. rewrite length_fmap in Hl.
  exists l1, l2, vs1, v0, vs2, E, A1, A2. split_and!; try done; [set_solver|set_solver|].
  unfold keys in Hnd. rewrite fmap_app, fmap_cons in Hnd. apply NoDup_app in Hnd as (_ & Hnd & _).
  intros Hin. by apply (Hnd _ Hin), list_elem_of_here.
Qed.

Lemma object_set_old m a o l' l1 l2 vs1 vs2 v0 ms A1 A2 p v B (e : entry) :
  NoDup (keys (l1 ++ e :: l2)) → NoDup (addrs (l1 ++ e :: l2)) → length vs1 = length l1 →
  table (o_hashtable o) l' → o_visited o = 0 → m !! a = Some (Cell 1 (Object o)) →
  a ∉ A1 → a ∉ A2 → a ∉ B → A1 ## A2 → A1 ## B → A2 ## B →
  owned_all m (entry_values l1) vs1 A1 → owned_all m (entry_values l2) vs2 A2 → owned m 1 p v B →
  ms ≡ₚ zip (keys (l1 ++ e :: l2)) (vs1 ++ v0 :: vs2) → length vs2 = length l2 →
  l' ≡ₚ set_value e.1 p <$> (l1 ++ e :: l2) →
  owned m 1 (Ref a) (JObject (set_member (p_key e.2) v ms)) ({[a]} ∪ (A1 ∪ (B ∪ A2))).
Proof.
  intros Hnd Hna Hl1 Ht Hvis Hc Ha1 Ha2 HaB H12 H1B H2B H1 H2 Hp Hms Hl2 Hl'.
  rewrite fmap_app, fmap_cons in Hl'. rewrite addrs_app in Hna. cbn [addrs fmap list_fmap] in Hna.
  apply NoDup_app in Hna as (_ & Hna & Hna2). apply NoDup_cons in Hna2 as [Hna2 _].
  rewrite !set_value_others in Hl'; [|done|intros Hin; by apply (Hna _ Hin), list_elem_of_here].
  unfold set_value in Hl'. rewrite decide_True in Hl' by done.
  set (e' := (e.1, _)) in Hl'.
  assert (Hall : owned_all m (entry_values (l1 ++ e' :: l2)) (vs1 ++ v :: vs2) (A1 ∪ (B ∪ A2))).
  { unfold entry_values. rewrite fmap_app, fmap_cons. apply owned_all_join; [done| |set_solver].
    by constructor. }
  destruct (owned_all_perm m _ l' _ _ (symmetry Hl') Hall) as (vs' & Hvs' & Hz).
  eapply O_cell; [done| |set_solver]. econstructor; [done|done|done|].
  rewrite Hz, (zip_middle l1 l2 e') by done. rewrite zip_middle in Hms by done.
  assert (Hlen : length (vs1 ++ v0 :: vs2) = length (l1 ++ e :: l2)) by (rewrite !length_app; simpl; lia).
  pose proof (keys_zip (l1 ++ e :: l2) (vs1 ++ v0 :: vs2) Hlen) as Ek. rewrite zip_middle in Ek by done.
  assert (Hmk : NoDup ms.*1) by (by rewrite Hms, Ek).
  rewrite (set_member_perm _ v _ _ Hmk Hms), set_member_old; [done|].
  - rewrite keys_zip by done.
    unfold keys in *. rewrite fmap_app, fmap_cons in Hnd. apply NoDup_app in Hnd as (_ & Hnd & _).
    intros Hin. by apply (Hnd _ Hin), list_elem_of_here.
Qed.

Lemma object_parts m a ms A :
  owned m 1 (Ref a) (JObject ms) A →
  ∃ o l vs A', A = ({[a]} ∪ A') ∧ a ∉ A' ∧ m !! a = Some (Cell 1 (Object o)) ∧ table (o_hashtable o) l ∧
    o_visited o = 0 ∧ owned_all m (entry_values l) vs A' ∧ ms ≡ₚ zip (keys l) vs ∧ length vs = length l.
Proof.
  intros (b & B & -> & HaB & Hc & Hd)%owned_inv. inversion Hd as [| | | |o l vs ms' A2 Ht Hv Hvs Hms]; subst.
  exists o, l, vs, B. split_and!; try done. rewrite <- (owned_all_length _ _ _ _ Hvs).
  unfold entry_values. by rewrite length_fmap.
Qed.

(** The statement that stores the value, with its second reference. *)
Lemma object_store s a o l vs A ms key serial p v B :
  wf s → cells s !! a = Some (Cell 1 (Object o)) → table (o_hashtable o) l → o_visited o = 0 →
  owned_all (cells s) (entry_values l) vs A → a ∉ A → Z.of_nat (length l) < MAX_PAIRS →
  ms ≡ₚ zip (keys l) vs → length vs = length l → a ∉ B → A ## B →
  wpr (with_table a (hashtable_set json_decref_ref key serial p)) s (λ _ s', ∃ o' C, C ⊆ A ∧
    changed a 1 (Object o') C s s' ∧
    ∀ m, m !! a = Some (Cell 1 (Object o')) → (∀ d, d ∈ A → d ∉ C → m !! d = cells s !! d) →
      owned m 1 p v B →
      owned m 1 (Ref a) (JObject (set_member key v ms)) ({[a]} ∪ ((A ∖ C) ∪ B))).
Proof.
  intros Hwf Hc Ht Hv Hvs HaA Hl Hms Hlen HaB HAB. eapply wp_with_table; [done|].
  destruct (find_pair key l) as [e|] eqn:Hf.
  - destruct (owned_all_pair _ l vs A key e (table_keys _ _ Ht) Hvs Hf)
      as (l1 & l2 & vs1 & v0 & vs2 & E & A1 & A2 & -> & -> & Hl1 & (-> & HE1 & HE2 & HE3) & Hk & <- & He & H1 & H2).
    eapply wp_mono; [eapply (table_set_old _ _ s (p_key e.2) serial p e (λ s', removed E s s')); try done|].
    { by eapply (json_decref_spec s _ v0 E). }
    intros [[]| |] [h s'] H'; [|done..]. destruct H' as (Hr & l' & Ht' & Hp'). simpl in *.
    exists 1, o. rewrite (removed_out _ _ _ _ Hr) by set_solver. split; [done|].
    exists (JsonObject h (o_serial o) (o_visited o)), E. split; [set_solver|]. split.
    + split; simpl; [apply Hr|by rewrite lookup_insert_eq|]. intros d Hd. rewrite lookup_insert_ne by done.
      by destruct Hr as [_ ->].
    + intros m Hma Hmo Hmp.
      assert (((A1 ∪ (E ∪ A2)) ∖ E) ∪ B = A1 ∪ (B ∪ A2)) as ->.
      { apply set_eq. intros d. destruct (decide (d ∈ E)); set_solver. }
      apply not_elem_of_union in HaA as [Ha1 [HaE Ha2]%not_elem_of_union].
      apply disjoint_union_l in HAB as [HB1 [HBE HB2]%disjoint_union_l].
      apply (object_set_old m a (JsonObject h (o_serial o) (o_visited o)) l' l1 l2 vs1 vs2 v0 ms A1 A2 p v B e);
        try done.
      * by eapply table_keys.
      * by eapply table_addrs.
      * eapply owned_all_frame; [done|]. intros d Hd. apply Hmo; set_solver.
      * eapply owned_all_frame; [done|]. intros d Hd. apply Hmo; set_solver.
      * rewrite !length_app in Hlen. simpl in Hlen. lia.
  - eapply wp_mono; [by eapply (table_set_new _ l s key serial p)|].
    intros [[]| |] [h s'] H'; [|done..]. destruct H' as (-> & l' & e & Ht' & Hp' & Hek & Hev). simpl in *.
    exists 1, o. split; [done|]. exists (JsonObject h (o_serial o) (o_visited o)), ∅.
    split; [set_solver|]. split; [apply changed_put|]. intros m Hma Hmo Hmp. rewrite difference_empty_L.
    eapply (object_set_new m a (JsonObject h (o_serial o) (o_visited o)) l vs ms A key p v B l' e); try done.
    + eapply owned_all_frame; [done|]. set_solver.
    + by apply find_pair_none.
Qed.

(** [json_object_set_nocheck] followed by the release of the reference that
    the caller had. *)
Lemma object_set_spec s a ms A key p v B :
  wf s → owned (cells s) 1 (Ref a) (JObject ms) A → owned (cells s) 1 p v B → A ## B →
  Z.of_nat (length ms) < MAX_PAIRS →
  wpr (json_object_set_nocheck (Some (Ref a)) (Some key) (Some p)) s (λ _ s1,
    wpr (json_decref (Some p)) s1 (λ _ s', ∃ C, member_set a key v ms A B s s' C)).
Proof.
  intros Hwf Ha Hp HAB Hl.
  destruct (object_parts _ _ _ _ Ha) as (o & l & vs & A' & -> & HaA & Hc & Ht & Hv & Hvs & Hms & Hlen).
  assert (Hlen' : length ms = length l).
  { apply Permutation_length in Hms. rewrite Hms, length_zip_with. unfold keys. rewrite length_fmap. lia. }
  unfold json_object_set_nocheck.
  eapply wp_seq; [apply (json_incref_spec s 1 p v B Hp); unfold STATIC_COUNT; lia|].
  intros r s1 (-> & H1). change (1 + 1) with 2 in H1.
  assert (HaB : a ∉ B) by set_solver.
  assert (Hc1 : cells s1 !! a = Some (Cell 1 (Object o))) by (by rewrite (recounted_out s s1 1 2 p v B)).
  assert (Hwf1 : wf s1) by by eapply recounted_wf.
  unfold json_object_set_new_nocheck, json_to_object. apply wp_bind. eapply wp_get_cell; [done|].
  cbn [content]. apply wp_ret. rewrite bool_decide_eq_false_2.
  2:{ intros [= E]. by apply (owned_not_in _ _ p v B a Hp HaB). }
  eapply wp_put_content_bind; [done|]. cbn [refcount]. set (o1 := JsonObject _ _ _). set (s2 := with_cells _ s1).
  assert (H2 : changed a 1 (Object o1) ∅ s1 s2) by apply changed_put.
  assert (Hwf2 : wf s2) by (eapply changed_wf; [done|done|by eexists]).
  assert (Hvs2 : owned_all (cells s2) (entry_values l) vs A').
  { eapply changed_owned_all; [done| |done|set_solver]. eapply owned_all_frame; [done|]. intros d Hd.
    eapply (recounted_out s s1 1 2 p v B); [done|done|set_solver]. }
  unfold or_else. apply wp_bind, wp_attempt.
  eapply wp_mono; [apply (object_store s2 a o1 l vs A' ms key (o_serial o) p v B); try done; [apply H2|lia|set_solver]|].
  intros [[]| |] s3 H3; [|done..]. apply wp_ret. destruct H3 as (o3 & C & HC & H3 & Hown).
  assert (H13 : changed a 1 (Object o3) C s1 s3).
  { destruct H3 as [Hb3 Hc3 Ho3]. split; [by rewrite Hb3|done|]. intros d Hd. rewrite Ho3 by done.
    case_decide; [done|]. rewrite (changed_other _ _ _ _ _ _ H2) by done. by rewrite decide_False by set_solver. }
  eapply wp_mono; [apply (release_stored s s1 s3 p v B a 1 (Object o3) C); try done; set_solver|].
  intros [[]| |] s4 H4; [|done..]. exists C. pose proof H4 as [Hb4 Hc4 Ho4]. split; [set_solver| |done|done].
  assert (({[a]} ∪ A') ∖ C ∪ B = {[a]} ∪ ((A' ∖ C) ∪ B)) as ->.
  { apply set_eq. intros d. destruct (decide (d = a)); set_solver. }
  apply Hown; [done| |].
  - intros d Hd HdC. rewrite Ho4, decide_False by (done || intros ->; done).
    rewrite (changed_other _ _ _ _ _ _ H2), decide_False by (set_solver || intros ->; done).
    symmetry. eapply (recounted_out s s1 1 2 p v B); [done|done|set_solver].
  - eapply changed_owned; [done|done|done|set_solver].
Qed.

(** ** A tree and a new value *)

Lemma built_disjoint s n q u A p v B s1 :
  wf s → owned (cells s) n q u A → built s p v B s1 → A ## B ∧ owned (cells s1) n q u A.
Proof.
  intros [_ Hwf] Hq Hp. assert (Hd : A ## B).
  { intros d HA HB. pose proof (built_fresh _ _ _ _ _ d Hp HB). 
    assert (0 ≤ d < brk s) by (by eapply Hwf, (proj1 (owned_cells (cells s)))). lia. }
  split; [done|]. eapply owned_frame; [done|]. intros d HA. apply (built_frame _ _ _ _ _ d Hp). set_solver.
Qed.

Lemma object_add s a ms A s1 key p v B :
  wf s → owned (cells s) 1 (Ref a) (JObject ms) A → built s p v B s1 → Z.of_nat (length ms) < MAX_PAIRS →
  wpr (json_object_set_nocheck (Some (Ref a)) (Some key) (Some p)) s1 (λ _ s2,
    wpr (json_decref (Some p)) s2 (λ _ s3, ∃ A',
      owned (cells s3) 1 (Ref a) (JObject (set_member key v ms)) A' ∧ grows A A' s s3)).
Proof.
  intros Hwf Ha Hp Hl. destruct (built_disjoint _ _ _ _ _ _ _ _ _ Hwf Ha Hp) as [HAB Ha1].
  pose proof Hp as [Hown Hg].
  eapply wp_mono; [apply (object_set_spec s1 a ms A key p v B); try done; by destruct Hg|].
  intros [[]| |] s2 H2; [|done..]. eapply wp_mono; [exact H2|].
  intros [[]| |] s3 H3; [|done..]. destruct H3 as (C & [HC Hown3 Hb Ho]). exists ((A ∖ C) ∪ B). split; [done|].
  pose proof (owned_inv _ _ _ _ _ Ha1) as (b & A' & EA & HaA & Hc & _).
  pose proof (owned_inv _ _ _ _ _ Hown3) as (b3 & A3 & EA3 & _ & Hc3 & _).
  split.
  - pose proof (grows_wf _ _ _ _ Hg) as [Hb0 Hwf1]. split; [by rewrite Hb|]. intros d Hd. rewrite Hb. apply Hwf1.
    destruct (decide (d = a)) as [->|Hne]; [by eexists|]. rewrite Ho in Hd by done.
    case_decide; [by destruct Hd|done].
  - rewrite Hb. apply (grows_brk _ _ _ _ Hg).
  - intros d [Hd|Hd]%elem_of_union; [left; set_solver|right; by eapply built_fresh].
  - intros d Hd Hd2. assert (d ∈ C) by set_solver. assert (d ≠ a) by (intros ->; by destruct HC).
    by rewrite Ho, decide_True.
  - intros d Hd Hd2. assert (d ≠ a) by (intros ->; set_solver).
    rewrite Ho, decide_False by (done || set_solver). eapply built_frame; [done|set_solver].
Qed.

Lemma array_add s a vs A s1 p v B :
  wf s → owned (cells s) 1 (Ref a) (JArray vs) A → built s p v B s1 →
  wpr (json_array_append (Some (Ref a)) (Some p)) s1 (λ _ s2,
    wpr (json_decref (Some p)) s2 (λ _ s3, ∃ A',
      owned (cells s3) 1 (Ref a) (JArray (vs ++ [v])) A' ∧ grows A A' s s3)).
Proof.
  intros Hwf Ha Hp. destruct (built_disjoint _ _ _ _ _ _ _ _ _ Hwf Ha Hp) as [HAB Ha1].
  pose proof Hp as [Hown Hg].
  eapply wp_mono; [by apply (array_append_spec s1 a vs A p v B)|].
  intros [[]| |] s2 H2; [|done..]. eapply wp_mono; [exact H2|].
  intros [[]| |] s3 H3; [|done..]. destruct H3 as (Hown3 & Hb & Ho). exists (A ∪ B). split; [done|].
  pose proof (owned_inv _ _ _ _ _ Ha1) as (b & A' & EA & HaA & Hc & _). split.
  - pose proof (grows_wf _ _ _ _ Hg) as [Hb0 Hwf1]. split; [by rewrite Hb|]. intros d Hd. rewrite Hb. apply Hwf1.
    destruct (decide (d = a)) as [->|Hne]; [by eexists|]. by rewrite Ho in Hd.
  - rewrite Hb. apply (grows_brk _ _ _ _ Hg).
  - intros d [Hd|Hd]%elem_of_union; [by left|right; by eapply built_fresh].
  - set_solver.
  - intros d Hd Hd2. assert (d ≠ a) by (intros ->; set_solver). rewrite Ho by done.
    eapply built_frame; [done|set_solver].
Qed.
