(* ===== verification/JLoadTheory.v ===== *)
(** * Theory of the parser

    Every text of the grammar is accepted, and a tree that denotes its value is
    built in new cells. *)

From S2P Require Import Prelude CModel JBase JUtf JStrbuf JHash JHashTheory JValue JArray JReal.
From S2P Require Import JLex JScan JLoad JSpec JLexTheory JStringTheory JTokenTheory JHeap JBuild.
From stdpp Require Import strings.
From Stdlib Require Import SpecFloat.
#[local] Open Scope Z_scope.

(** ** What follows a value *)

Definition stop (c : Z) : Prop := c = 44 ∨ c = 93 ∨ c = 125.

Lemma delimits_stop {T : Tail} w c rest : ws w → stop c → delimits (w ++ c :: rest).
Proof.
  intros Hw Hc. destruct w as [|b w]; cbn [app].
  - unfold delimits, cur. destruct Hc as [->|[->| ->]]; done.
  - apply Forall_cons in Hw as [Hb _]. unfold delimits, cur. destruct Hb as [->|[->|[->| ->]]]; done.
Qed.

Lemma delimits_end {T : Tail} w : ws w → delimits w.
Proof.
  intros Hw. destruct w as [|b w]; [unfold delimits, cur; by destruct fin_cases as [[-> _]|[-> _]]|].
  apply Forall_cons in Hw as [Hb _]. unfold delimits, cur.
  destruct Hb as [->|[->|[->| ->]]]; done.
Qed.

(** A token that a value can start with. *)
Definition starter (kind : Z) : Prop := kind ≠ TOKEN_EOF ∧ kind ≠ 93 ∧ kind ≠ 125.

Section parser.
Context {D : Type} {HS : Source D} {HL : SourceLaws D} {T : Tail}.
Abbreviation context := (context D).
Context (flags : Z).
Hypothesis no_reject : has flags JSON_REJECT_DUPLICATES = false.

(** The token [kind] with the value [val] was read and [rest] is left. *)
Definition seen (x : context) (kind : Z) (val : option lex_value) (rest : list Z) : Prop :=
  token x = kind ∧ (∀ u, val = Some u → value x = u) ∧ ready x rest.

(** The heap went from [A] to [A'], and [rest] is left. *)
Definition went (x x' : context) (A A' : Zset) : Prop :=
  shown (error x') = shown (error x) ∧ grows A A' (values x) (values x').

Lemma scanned_seen x kind val rest x' : scanned x kind val rest x' → seen x' kind val rest ∧ outside x x'.
Proof. intros (? & ? & ? & ?). by split_and!. Qed.

Lemma next_token w t kind val rest fuel x :
  ready x (w ++ t ++ rest) → ws w → lexeme t kind val → (needs_end kind → delimits rest) →
  (length w + length t ≤ fuel)%nat →
  wpr (lex_scan fuel) x (λ k x', k = kind ∧ seen x' kind val rest ∧ outside x x').
Proof.
  intros. eapply wp_mono; [by apply (lex_scan_spec w t kind val rest fuel x)|].
  intros [k| |] x' Hx'; [|done..]. destruct Hx' as [-> Hx']. split; [done|]. by apply scanned_seen.
Qed.

Lemma next_punctuation w c rest fuel x :
  ready x (w ++ c :: rest) → ws w → is_punctuation c = true → (length w + 1 ≤ fuel)%nat →
  wpr (lex_scan fuel) x (λ k x', k = c ∧ seen x' c None rest ∧ outside x x').
Proof.
  intros Hx Hw Hc Hf. apply (next_token w [c] c None rest fuel x); try done; [by constructor|].
  intros Hn. apply punctuation_char in Hc. unfold needs_end, TOKEN_INTEGER, TOKEN_STRING in *. lia.
Qed.

(** Statements on the heap keep the text. *)
Lemma ready_heap x h rest :
  ready x rest → ready (Context (stream x) (saved_text x) (token x) (value x) (error x) h) rest.
Proof. intros (l & prev & []). by exists l, prev. Qed.

Lemma wp_heap {A} (m : SM heap A) x rest (P : A → heap → Prop) :
  wpr m (values x) P → ready x rest →
  wpr (on_heap m) x (λ a x', P a (values x') ∧ shown (error x') = shown (error x) ∧ ready x' rest ∧ token x' = token x).
Proof.
  intros Hm Hx. apply wp_on_heap. eapply wp_mono; [exact Hm|]. intros [a| |] h Hh; [|done..].
  split_and!; try done. by apply ready_heap.
Qed.

(** [parse_value] builds the value of a text whose first token was read. *)
Definition result (x : context) (v : jv) (rest : list Z) (p : ref) (x' : context) : Prop :=
  shown (error x') = shown (error x) ∧ ready x' rest ∧ ∃ A, built (values x) p v A (values x').

Definition parses (t : list Z) (v : jv) : Prop :=
  ∃ tok kind val t', t = tok ++ t' ∧ lexeme tok kind val ∧ starter kind ∧
    (needs_end kind → ∀ rest, delimits rest → delimits (t' ++ rest)) ∧
    ∀ depth fuel x rest, seen x kind val (t' ++ rest) → delimits rest → wf (values x) →
      (length t ≤ depth)%nat → (length t ≤ fuel)%nat → Z.of_nat (length t) < MAX_PAIRS →
      wpr (parse_value depth fuel flags) x (result x v rest).

(** The tree at [a] was extended to [v]. *)
Definition extended (x : context) (a : Z) (v : jv) (A : Zset) (x' : context) : Prop :=
  shown (error x') = shown (error x) ∧ ∃ A', owned (cells (values x')) 1 (Ref a) v A' ∧ grows A A' (values x) (values x').

(** The loops over elements and members, up to the closing bracket. *)
Definition parses_elements (ts : list Z) (vs : list jv) : Prop :=
  ∃ w tok kind val ts', ts = w ++ tok ++ ts' ∧ ws w ∧ lexeme tok kind val ∧ starter kind ∧
    (needs_end kind → ∀ rest, delimits (ts' ++ 93 :: rest)) ∧
    ∀ depth fuel n x rest a us A, seen x kind val (ts' ++ 93 :: rest) → wf (values x) →
      owned (cells (values x)) 1 (Ref a) (JArray us) A →
      (length ts ≤ depth)%nat → (length ts < fuel)%nat → (length ts ≤ n)%nat → Z.of_nat (length ts) < MAX_PAIRS →
      wpr (array_loop (parse_value depth fuel flags) fuel n (Ref a)) x
        (λ _ x', token x' = 93 ∧ ready x' rest ∧ extended x a (JArray (us ++ vs)) A x').

Definition parses_members (ts : list Z) (ms : list (list Z * jv)) : Prop :=
  ∃ w tk k ts', ts = w ++ (34 :: tk ++ [34]) ++ ts' ∧ ws w ∧ chars_text tk k ∧
    ∀ depth fuel n x rest a us A, seen x TOKEN_STRING (Some (VString (Some k))) (ts' ++ 125 :: rest) →
      wf (values x) → owned (cells (values x)) 1 (Ref a) (JObject us) A →
      (length ts ≤ depth)%nat → (length ts < fuel)%nat → (length ts ≤ n)%nat →
      Z.of_nat (length us + length ts) < MAX_PAIRS →
      wpr (object_loop (parse_value depth fuel flags) fuel flags n (Ref a)) x
        (λ _ x', token x' = 125 ∧ ready x' rest ∧
          extended x a (JObject (foldl (λ ms kv, set_member kv.1 kv.2 ms) us ms)) A x').

Lemma wp_or_else {S A B} (m : SM S A) c (f : A → SM S B) s (P : A → S → Prop) Q :
  wpr m s P → (∀ a s', P a s' → wp (f a) s' Q) → wp (or_else m c ≫= f) s Q.
Proof.
  intros Hm Hf. unfold or_else. apply wp_bind, wp_bind, wp_attempt. eapply wp_mono; [exact Hm|].
  intros [r| |] s' Hr; [|done..]. apply wp_ret. by apply Hf.
Qed.

Lemma extended_trans x x1 x2 a v A A1 :
  wf (values x) → shown (error x1) = shown (error x) → grows A A1 (values x) (values x1) →
  extended x1 a v A1 x2 → extended x a v A x2.
Proof.
  intros Hwf He Hg (He2 & A2 & Hown & Hg2). split; [congruence|]. exists A2. split; [done|].
  by eapply grows_trans.
Qed.

Lemma outside_wf (x x' : context) : outside x x' → wf (values x) → wf (values x').
Proof. by intros [_ ->]. Qed.

(** One round of [array_loop], up to the token behind the element. *)
Lemma array_round t v w2 c rest a us A depth fuel n x tok kind val t' (Q : outcome unit → context → Prop) :
  t = tok ++ t' → starter kind →
  (∀ x, seen x kind val (t' ++ w2 ++ c :: rest) → wf (values x) →
    wpr (parse_value depth fuel flags) x (result x v (w2 ++ c :: rest))) →
  seen x kind val (t' ++ w2 ++ c :: rest) → wf (values x) → ws w2 → is_punctuation c = true →
  owned (cells (values x)) 1 (Ref a) (JArray us) A → (length w2 + 1 ≤ fuel)%nat →
  (∀ x', seen x' c None rest → extended x a (JArray (us ++ [v])) A x' →
    wp (if negb (c =? 44) then mret tt
        else _ ← lex_scan fuel;
             match n with
             | O => sundef
             | S n => array_loop (parse_value depth fuel flags) fuel n (Ref a)
             end) x' Q) →
  wp (array_loop (parse_value depth fuel flags) fuel n (Ref a)) x Q.
Proof.
  intros -> [Hk _] Hparse Hx Hwf Hw Hc Ha Hf HQ.
  assert (Hbody : wp (x ← get;
    if token x =? TOKEN_EOF then mret tt
    else
      elem ← or_else (parse_value depth fuel flags) (on_heap (json_decref (Some (Ref a))));
      _ ← or_else (on_heap (json_array_append (Some (Ref a)) (Some elem)))
            (_ ← on_heap (json_decref (Some elem)); on_heap (json_decref (Some (Ref a))));
      _ ← on_heap (json_decref (Some elem));
      t ← lex_scan fuel;
      if negb (t =? 44) then mret tt
      else
        _ ← lex_scan fuel;
        match n with
        | O => sundef
        | S n => array_loop (parse_value depth fuel flags) fuel n (Ref a)
        end) x Q); [|by destruct n].
  apply wp_get_bind. rewrite (proj1 Hx), (proj2 (Z.eqb_neq _ _) Hk).
  eapply wp_or_else; [by apply Hparse|]. intros p x1 (He1 & Hr1 & B & Hp).
  eapply wp_or_else; [by eapply wp_heap; [apply (array_add (values x) a us A (values x1) p v B)|]|].
  intros [] x2 (H2 & He2 & Hr2 & _).
  eapply wp_seq; [eapply wp_heap; [exact H2|exact Hr2]|]. intros [] x3 ((A' & Hown & Hg) & He3 & Hr3 & _).
  eapply wp_seq; [by apply (next_punctuation w2 c rest fuel x3)|].
  intros k x4 (-> & Hs4 & Ho4). apply HQ; [done|]. split; [destruct Ho4; congruence|].
  exists A'. destruct Ho4 as [_ ->]. by split.
Qed.

Lemma extended_outside x x1 x2 a v A : extended x a v A x1 → outside x1 x2 → extended x a v A x2.
Proof. intros (He & A' & H) [He2 Hv]. split; [congruence|]. exists A'. by rewrite Hv. Qed.

Lemma elements_one w1 t v w2 : ws w1 → parses t v → ws w2 → parses_elements (w1 ++ t ++ w2) [v].
Proof.
  intros Hw1 (tok & kind & val & t' & -> & Hl & Hk & Hd & Hp) Hw2.
  exists w1, tok, kind, val, (t' ++ w2). rewrite <- !app_assoc. split_and!; try done.
  { intros Hn rest. rewrite <- app_assoc. apply Hd; [done|]. apply delimits_stop; [done|]. unfold stop. lia. }
  intros depth fuel n x rest a us A Hx Hwf Ha Hdep Hf Hn Hmax. rewrite !length_app in *. rewrite <- app_assoc in Hx.
  apply (array_round (tok ++ t') v w2 93 rest a us A depth fuel n x tok kind val t'); try done.
  - intros x1 Hx1 Hwf1. apply Hp; try done; [|rewrite ?length_app; lia..].
    apply delimits_stop; [done|]. unfold stop. lia.
  - lia.
  - intros x' Hx' He. change (negb (93 =? 44)) with true. cbv iota. apply wp_ret. split; [apply Hx'|].
    split; [apply Hx'|done].
Qed.

Lemma elements_cons w1 t v w2 ts vs :
  ws w1 → parses t v → ws w2 → parses_elements ts vs → parses_elements (w1 ++ t ++ w2 ++ 44 :: ts) (v :: vs).
Proof.
  intros Hw1 (tok & kind & val & t' & -> & Hl & Hk & Hd & Hp) Hw2
    (w & tok2 & kind2 & val2 & ts' & -> & Hw & Hl2 & Hk2 & Hd2 & Hp2).
  exists w1, tok, kind, val, (t' ++ w2 ++ 44 :: w ++ tok2 ++ ts'). rewrite <- !app_assoc. split_and!; try done.
  { intros Hn rest. rewrite <- !app_assoc. apply Hd; [done|]. apply delimits_stop; [done|]. unfold stop. lia. }
  intros depth fuel n x rest a us A Hx Hwf Ha Hdep Hf Hn Hmax.
  rewrite !length_app in *. cbn [length] in *. rewrite !length_app in *.
  rewrite <- !app_assoc in Hx. cbn [app] in Hx. rewrite <- !app_assoc in Hx.
  apply (array_round (tok ++ t') v w2 44 (w ++ tok2 ++ ts' ++ 93 :: rest) a us A depth fuel n x tok kind val t');
    try done.
  - intros x1 Hx1 Hwf1. apply Hp; [exact Hx1| |done|rewrite ?length_app; lia..].
    apply delimits_stop; [done|]. unfold stop. lia.
  - lia.
  - intros x1 Hx1 (He1 & A1 & Hown1 & Hg1). change (negb (44 =? 44)) with false. cbv iota.
    eapply wp_seq; [apply (next_token w tok2 kind2 val2 (ts' ++ 93 :: rest) fuel x1); [apply Hx1|done|done|by auto|lia]|].
    intros k x2 (-> & Hx2 & Ho2). destruct n as [|n]; [lia|].
    assert (Hwf1 : wf (values x1)) by apply Hg1.
    eapply wp_mono; [apply (Hp2 depth fuel n x2 rest a (us ++ [v]) A1); try done; rewrite ?length_app; try lia|].
    + by apply (outside_wf x1).
    + by destruct Ho2 as [_ ->].
    + intros [[]| |] x3 H3; [|done..]. destruct H3 as (Ht & Hr & He). split; [done|]. split; [done|].
      rewrite <- app_assoc in He. eapply (extended_trans x x1); try done.
      destruct He as (He3 & A3 & Ho3 & Hg3), Ho2 as [Eo Ev]. split; [congruence|]. exists A3. by rewrite <- Ev.
Qed.

Lemma lex_steal_spec x k rest :
  seen x TOKEN_STRING (Some (VString (Some k))) rest →
  wpr lex_steal_string x (λ key x', key = Some k ∧ ready x' rest ∧ outside x x').
Proof.
  intros (Ht & Hv & l & prev & Hr). unfold lex_steal_string. apply wp_get_bind. rewrite Ht, (Hv _ eq_refl).
  change (TOKEN_STRING =? TOKEN_STRING) with true. cbv iota. apply wp_put_value_bind, wp_ret.
  split; [done|]. split; [|done]. exists l, prev. by apply at_with_value.
Qed.

(** [object_member] up to the token behind the value. *)
Lemma member_round k t v w2 w3 w4 c rest a us A depth fuel x (Q : outcome bool → context → Prop) :
  parses t v → ws w2 → ws w3 → ws w4 → is_punctuation c = true → stop c →
  seen x TOKEN_STRING (Some (VString (Some k))) (w2 ++ 58 :: w3 ++ t ++ w4 ++ c :: rest) →
  wf (values x) → owned (cells (values x)) 1 (Ref a) (JObject us) A → Z.of_nat (length us) < MAX_PAIRS →
  (length t ≤ depth)%nat → (length w2 + length w3 + length t + length w4 + 1 ≤ fuel)%nat →
  Z.of_nat (length t) < MAX_PAIRS →
  (∀ x', seen x' c None rest → extended x a (JObject (set_member k v us)) A x' →
    wp (if negb (c =? 44) then mret false else _ ← lex_scan fuel; mret true) x' Q) →
  wp (object_member (parse_value depth fuel flags) fuel flags (Ref a)) x Q.
Proof.
  intros (tok & kind & val & t' & -> & Hl & Hk & Hd & Hp) Hw2 Hw3 Hw4 Hc Hst Hx Hwf Ha Hus Hdep Hf Hmax HQ.
  rewrite length_app in Hf. unfold object_member. apply wp_get_bind. rewrite (proj1 Hx).
  change (negb (TOKEN_STRING =? TOKEN_STRING)) with false. cbv iota.
  eapply wp_seq; [by apply (lex_steal_spec x k _ Hx)|]. intros key x1 (-> & Hr1 & Ho1).
  rewrite no_reject. apply wp_ret_bind. cbv iota.
  eapply wp_seq; [eapply (next_punctuation w2 58); [exact Hr1|done|done|lia]|].
  intros d x2 (-> & Hx2 & Ho2). change (negb (58 =? 58)) with false. cbv iota.
  assert (Hdel : delimits (w4 ++ c :: rest)) by by apply delimits_stop.
  rewrite <- app_assoc in Hx2.
  eapply wp_seq; [apply (next_token w3 tok kind val (t' ++ w4 ++ c :: rest) fuel x2); [apply Hx2|done|done|by auto|lia]|].
  intros d x3 (-> & Hx3 & Ho3).
  assert (Ho : outside x x3) by (eapply outside_trans; [done|]; by eapply outside_trans).
  apply (wp_seq _ _ _ (λ r x', ∃ p, r = Some p ∧ result x3 v (w4 ++ c :: rest) p x')).
  { apply wp_attempt. eapply wp_mono; [apply (Hp depth fuel x3 (w4 ++ c :: rest)); try done|].
    - by apply (outside_wf x).
    - rewrite length_app. lia.
    - intros [p| |] x4 H4; [|done..]. by exists p. }
  intros r x4 (p & -> & He4 & Hr4 & B & Hb). destruct Ho as [Eo Ev]. rewrite Ev in Hb.
  eapply wp_or_else; [by eapply wp_heap; [apply (object_add (values x) a us A (values x4) k p v B)|]|].
  intros [] x5 (H5 & He5 & Hr5 & _).
  eapply wp_seq; [eapply wp_heap; [exact H5|exact Hr5]|]. intros [] x6 ((A' & Hown & Hg) & He6 & Hr6 & _).
  eapply wp_seq; [apply (next_punctuation w4 c rest fuel x6); [done|done|done|lia]|].
  intros d x7 (-> & Hx7 & Ho7). apply HQ; [done|]. split; [destruct Ho7; congruence|].
  exists A'. destruct Ho7 as [_ ->]. by split.
Qed.

Lemma object_loop_unfold (pv : SM context ref) fuel n (o : ref) :
  object_loop pv fuel flags n o =
  (more ← object_member pv fuel flags o;
   if (more : bool) then match n with O => sundef | S n => object_loop pv fuel flags n o end else mret tt).
Proof. by destruct n. Qed.

Lemma members_one w1 tk k w2 w3 t v w4 :
  ws w1 → chars_text tk k → ws w2 → ws w3 → parses t v → ws w4 →
  parses_members (w1 ++ 34 :: tk ++ 34 :: w2 ++ 58 :: w3 ++ t ++ w4) [(k, v)].
Proof.
  intros Hw1 Hk Hw2 Hw3 Hp Hw4. exists w1, tk, k, (w2 ++ 58 :: w3 ++ t ++ w4).
  split; [cbn [app]; by rewrite <- !app_assoc|]. split; [done|]. split; [done|].
  intros depth fuel n x rest a us A Hx Hwf Ha Hdep Hf Hn Hmax. rewrite <- app_assoc in Hx.
  cbn [app] in Hx. rewrite <- !app_assoc in Hx.
  assert (Hlen : length (w1 ++ 34 :: tk ++ 34 :: w2 ++ 58 :: w3 ++ t ++ w4) =
    (length w1 + length tk + length w2 + length w3 + length t + length w4 + 3)%nat).
  { repeat (rewrite ?length_app; cbn [length]). lia. }
  rewrite Hlen in *. rewrite object_loop_unfold.
  apply (wp_seq _ _ _ (λ more x', more = false ∧ token x' = 125 ∧ ready x' rest ∧
    extended x a (JObject (set_member k v us)) A x')).
  - apply (member_round k t v w2 w3 w4 125 rest a us A); try done; [unfold stop; lia|lia..|].
    intros x' Hx' He. apply wp_ret. split_and!; try done; apply Hx'.
  - intros more x' (-> & H'). by apply wp_ret.
Qed.

Lemma set_member_length k v ms : (length (set_member k v ms) ≤ S (length ms))%nat.
Proof. induction ms as [|[k' v'] ms IH]; simpl; [done|]. case_decide; simpl; lia. Qed.

Lemma members_cons w1 tk k w2 w3 t v w4 ts ms :
  ws w1 → chars_text tk k → ws w2 → ws w3 → parses t v → ws w4 → parses_members ts ms →
  parses_members (w1 ++ 34 :: tk ++ 34 :: w2 ++ 58 :: w3 ++ t ++ w4 ++ 44 :: ts) ((k, v) :: ms).
Proof.
  intros Hw1 Hk Hw2 Hw3 Hp Hw4 (w & tk2 & k2 & ts' & -> & Hw & Hk2 & Hp2).
  exists w1, tk, k, (w2 ++ 58 :: w3 ++ t ++ w4 ++ 44 :: w ++ (34 :: tk2 ++ [34]) ++ ts').
  split; [cbn [app]; by rewrite <- !app_assoc|]. split; [done|]. split; [done|].
  intros depth fuel n x rest a us A Hx Hwf Ha Hdep Hf Hn Hmax.
  set (ts := w ++ (34 :: tk2 ++ [34]) ++ ts') in *.
  assert (Hts : (length w + length (34%Z :: tk2 ++ [34%Z]) ≤ length ts)%nat).
  { unfold ts. repeat (rewrite ?length_app; cbn [length]). lia. }
  assert (Hlen : length (w1 ++ 34 :: tk ++ 34 :: w2 ++ 58 :: w3 ++ t ++ w4 ++ 44 :: ts) =
    (length w1 + length tk + length w2 + length w3 + length t + length w4 + 4 + length ts)%nat).
  { repeat (rewrite ?length_app; cbn [length]). lia. }
  rewrite Hlen in *.
  assert (Hx0 : seen x TOKEN_STRING (Some (VString (Some k))) (w2 ++ 58 :: w3 ++ t ++ w4 ++ 44 :: ts ++ 125 :: rest)).
  { by rewrite <- !app_assoc in Hx; cbn [app] in Hx; rewrite <- !app_assoc in Hx; cbn [app] in Hx. }
  rewrite object_loop_unfold.
  apply (wp_seq _ _ _ (λ more x', more = true ∧ seen x' TOKEN_STRING (Some (VString (Some k2))) (ts' ++ 125 :: rest) ∧
    extended x a (JObject (set_member k v us)) A x')).
  - apply (member_round k t v w2 w3 w4 44 (ts ++ 125 :: rest) a us A); try done; [unfold stop; lia|lia..|].
    intros x1 Hx1 He. change (negb (44 =? 44)) with false. cbv iota. unfold ts in Hx1.
    rewrite <- !app_assoc in Hx1.
    eapply wp_seq; [apply (next_token w (34 :: tk2 ++ [34]) TOKEN_STRING (Some (VString (Some k2))) (ts' ++ 125 :: rest) fuel x1);
      [apply Hx1|done|by constructor|done|lia]|].
    intros d x2 (-> & Hx2 & Ho2). apply wp_ret. split; [done|]. split; [done|]. by eapply extended_outside.
  - intros more x1 (-> & Hx1 & He1 & A1 & Hown1 & Hg1). destruct n as [|n]; [lia|].
    pose proof (set_member_length k v us) as Hml.
    eapply wp_mono; [apply (Hp2 depth fuel n x1 rest a (set_member k v us) A1); try done; try lia; apply Hg1|].
    intros [[]| |] x3 H3; [|done..]. destruct H3 as (Ht & Hr & He). split; [done|]. split; [done|].
    by eapply (extended_trans x x1).
Qed.

(** ** Values *)

Lemma result_static x x' kind val v rest p :
  seen x kind val rest → wf (values x) → owned (cells (values x)) 1 p v ∅ → x' = x →
  result x v rest p x'.
Proof.
  intros (_ & _ & Hr) Hwf Hp ->. split; [done|]. split; [done|]. exists ∅. by apply built_static.
Qed.

Lemma result_heap x v rest kind val (m : SM heap ref) :
  seen x kind val rest → wpr m (values x) (λ p s', ∃ A, built (values x) p v A s') →
  wpr (on_heap m) x (result x v rest).
Proof.
  intros (_ & _ & Hr) Hm. eapply wp_mono; [eapply wp_heap; [exact Hm|exact Hr]|]. intros [p| |] x' Hx'; [|done..].
  destruct Hx' as (Hb & He & Hr' & _). by split_and!.
Qed.

(** A value that is one token. *)
Lemma parses_token tok kind val v :
  lexeme tok kind val → starter kind →
  (∀ depth fuel x rest, seen x kind val rest → wf (values x) →
    wpr (parse_value depth fuel flags) x (result x v rest)) →
  parses tok v.
Proof.
  intros Hl Hk Hp. exists tok, kind, val, []. rewrite app_nil_r. split_and!; try done.
  intros depth fuel x rest Hx Hd Hwf _ _ _. by apply Hp.
Qed.

Lemma parse_value_unfold depth fuel (x : context) Q :
  (wp (let t := token x in
       if t =? TOKEN_STRING then
         match value x with VString s => on_heap (json_string_nocheck s) | _ => sundef end
       else if t =? TOKEN_INTEGER then
         match value x with VInteger i => on_heap (json_integer i) | _ => sundef end
       else if t =? TOKEN_REAL then
         match value x with VReal r => on_heap (json_real r) | _ => sundef end
       else if t =? TOKEN_TRUE then mret json_true
       else if t =? TOKEN_FALSE then mret json_false
       else if t =? TOKEN_NULL then mret json_null
       else if t =? 123 then
         match depth with O => sundef | S depth => parse_object (parse_value depth fuel flags) fuel flags end
       else if t =? 91 then
         match depth with O => sundef | S depth => parse_array (parse_value depth fuel flags) fuel end
       else if t =? TOKEN_INVALID then _ ← error_set (str "invalid token"); sfail
       else _ ← error_set (str "unexpected token"); sfail) x Q) →
  wp (parse_value depth fuel flags) x Q.
Proof. by destruct depth. Qed.

Lemma strtod_finite t r : jsonp_strtod t = Ret (Some r) → isnan r || isinf r = false.
Proof.
  unfold jsonp_strtod, strtod. destruct (decimal_of t) as [[[sign m] e] rest].
  set (x := double_of_decimal sign m e). case_bool; [|done].
  assert (Hn : isnan x = false).
  { unfold x, double_of_decimal, round_double. repeat case_bool; try done;
      (destruct (scale _ _ _ _) as [n' d']; destruct (if _ =? 2 ^ 53 then _ else _) as [m' e'];
       case_bool; [done|]; by destruct m'). }
  clearbody x. destruct x as [z|z| |z p k]; try done; cbn [out_of_range is_zero negb andb].
  - by destruct (negb (m =? 0)); intros [= <-].
  - by destruct (_ && _); intros [= <-].
Qed.

Lemma parses_scalars t v :
  (∃ s u, v = JString s ∧ t = 34 :: u ++ [34] ∧ chars_text u s) ∨
  (∃ i, v = JInteger i ∧ int_text t i ∧ in_range i) ∨
  (∃ r, v = JReal r ∧ real_text t ∧ jsonp_strtod t = Ret (Some r)) ∨
  (t = str "true" ∧ v = JTrue) ∨ (t = str "false" ∧ v = JFalse) ∨ (t = str "null" ∧ v = JNull) →
  parses t v.
Proof.
  intros [(s & u & -> & -> & Hu)|[(i & -> & Hi & Hr)|[(r & -> & Hr & Hs)|[[-> ->]|[[-> ->]|[-> ->]]]]]].
  - apply (parses_token _ TOKEN_STRING (Some (VString (Some s)))); [by constructor|done|].
    intros depth fuel x rest Hx Hwf. apply parse_value_unfold. rewrite (proj1 Hx), (proj1 (proj2 Hx) _ eq_refl).
    eapply result_heap; [done|by apply json_string_spec].
  - apply (parses_token _ TOKEN_INTEGER (Some (VInteger i))); [by constructor|done|].
    intros depth fuel x rest Hx Hwf. apply parse_value_unfold. rewrite (proj1 Hx), (proj1 (proj2 Hx) _ eq_refl).
    eapply result_heap; [done|by apply json_integer_spec].
  - apply (parses_token _ TOKEN_REAL (Some (VReal r))); [by constructor|done|].
    intros depth fuel x rest Hx Hwf. apply parse_value_unfold. rewrite (proj1 Hx), (proj1 (proj2 Hx) _ eq_refl).
    eapply result_heap; [done|apply json_real_spec; [done|by eapply strtod_finite]].
  - apply (parses_token _ TOKEN_TRUE None); [by constructor|done|].
    intros depth fuel x rest Hx Hwf. apply parse_value_unfold. rewrite (proj1 Hx).
    apply wp_ret. eapply result_static; [done|done|constructor|done].
  - apply (parses_token _ TOKEN_FALSE None); [by constructor|done|].
    intros depth fuel x rest Hx Hwf. apply parse_value_unfold. rewrite (proj1 Hx).
    apply wp_ret. eapply result_static; [done|done|constructor|done].
  - apply (parses_token _ TOKEN_NULL None); [by constructor|done|].
    intros depth fuel x rest Hx Hwf. apply parse_value_unfold. rewrite (proj1 Hx).
    apply wp_ret. eapply result_static; [done|done|constructor|done].
Qed.

(** A new array or object. *)
Lemma built_cell s p v A s' :
  built s p v A s' → (v = JArray [] ∨ v = JObject []) → ∃ a, p = Ref a.
Proof. intros [Hp _] Hv. inversion Hp; subst; [by destruct Hv..|]. eauto. Qed.

Lemma extended_result x x1 x2 a v A rest :
  wf (values x) → shown (error x1) = shown (error x) → grows ∅ A (values x) (values x1) → extended x1 a v A x2 → ready x2 rest →
  result x v rest (Ref a) x2.
Proof.
  intros Hwf He Hg (He2 & A' & Hown & Hg2) Hr. split; [congruence|]. split; [done|]. exists A'. split; [done|].
  by eapply grows_trans.
Qed.

Lemma parses_empty_array w : ws w → parses (91 :: w ++ [93]) (JArray []).
Proof.
  intros Hw. exists [91], 91, None, (w ++ [93]). split_and!; [done|by constructor|done|done|].
  intros depth fuel x rest Hx Hd Hwf Hdep Hf Hmax. cbn [length] in *. rewrite length_app in *. cbn [length] in *.
  rewrite <- app_assoc in Hx.
  apply parse_value_unfold. rewrite (proj1 Hx). destruct depth as [|depth]; [lia|].
  change (wpr (parse_array (parse_value depth fuel flags) fuel) x (result x (JArray []) rest)).
  unfold parse_array. eapply wp_seq; [eapply wp_heap; [by apply json_array_spec|apply Hx]|].
  intros p x1 ((A & Hb) & He1 & Hr1 & _).
  eapply wp_seq; [apply (next_punctuation w 93 rest fuel x1); [done|done|done|lia]|].
  intros k x2 (-> & Hx2 & [He2 Hv2]). apply wp_ret. split; [congruence|]. split; [apply Hx2|]. exists A. by rewrite Hv2.
Qed.

Lemma parses_empty_object w : ws w → parses (123 :: w ++ [125]) (JObject []).
Proof.
  intros Hw. exists [123], 123, None, (w ++ [125]). split_and!; [done|by constructor|done|done|].
  intros depth fuel x rest Hx Hd Hwf Hdep Hf Hmax. cbn [length] in *. rewrite length_app in *. cbn [length] in *.
  rewrite <- app_assoc in Hx.
  apply parse_value_unfold. rewrite (proj1 Hx). destruct depth as [|depth]; [lia|].
  change (wpr (parse_object (parse_value depth fuel flags) fuel flags) x (result x (JObject []) rest)).
  unfold parse_object. eapply wp_seq; [eapply wp_heap; [by apply json_object_spec|apply Hx]|].
  intros p x1 ((A & Hb) & He1 & Hr1 & _).
  eapply wp_seq; [apply (next_punctuation w 125 rest fuel x1); [done|done|done|lia]|].
  intros k x2 (-> & Hx2 & [He2 Hv2]). apply wp_ret. split; [congruence|]. split; [apply Hx2|]. exists A. by rewrite Hv2.
Qed.

Lemma parses_array t vs : parses_elements t vs → parses (91 :: t ++ [93]) (JArray vs).
Proof.
  intros (w & tok & kind & val & t' & -> & Hw & Hl & Hk & Hdel & Hp).
  exists [91], 91, None, ((w ++ tok ++ t') ++ [93]). split_and!; [done|by constructor|done|done|].
  intros depth fuel x rest Hx Hd Hwf Hdep Hf Hmax. set (ts := w ++ tok ++ t') in *.
  assert (Hts : (length w + length tok ≤ length ts)%nat) by (unfold ts; rewrite !length_app; lia).
  cbn [length] in *. rewrite length_app in *. cbn [length] in *.
  apply parse_value_unfold. rewrite (proj1 Hx). destruct depth as [|depth]; [lia|].
  change (wpr (parse_array (parse_value depth fuel flags) fuel) x (result x (JArray vs) rest)).
  unfold parse_array. eapply wp_seq; [eapply wp_heap; [by apply json_array_spec|apply Hx]|].
  intros p x1 ((A & Hb) & He1 & Hr1 & _). destruct (built_cell _ _ _ _ _ Hb) as [a ->]; [by left|].
  destruct Hb as [Hown Hg]. unfold ts in Hr1. rewrite <- !app_assoc in Hr1.
  eapply wp_seq; [apply (next_token w tok kind val (t' ++ 93 :: rest) fuel x1); [done|done|done|by auto|lia]|].
  intros k x2 (-> & Hx2 & Ho2). destruct Hk as (Hk0 & Hk1 & Hk2). rewrite (proj2 (Z.eqb_neq _ _) Hk1).
  destruct Ho2 as [He2 Hv2].
  eapply wp_seq; [apply (Hp depth fuel fuel x2 rest a [] A); rewrite ?Hv2; try done; try lia; apply Hg|].
  intros [] x3 (Ht3 & Hr3 & He3). apply wp_get_bind. rewrite Ht3. apply wp_ret.
  eapply (extended_result x x2); [done|congruence|by rewrite Hv2|done|done].
Qed.

Lemma parses_object t ms : parses_members t ms → parses (123 :: t ++ [125]) (JObject (members_of ms)).
Proof.
  intros (w & tk & k & t' & -> & Hw & Hk & Hp).
  exists [123], 123, None, ((w ++ (34 :: tk ++ [34]) ++ t') ++ [125]). split_and!; [done|by constructor|done|done|].
  intros depth fuel x rest Hx Hd Hwf Hdep Hf Hmax. set (ts := w ++ (34 :: tk ++ [34]) ++ t') in *.
  assert (Hts : (length w + length (34%Z :: tk ++ [34%Z]) ≤ length ts)%nat).
  { unfold ts. repeat (rewrite ?length_app; cbn [length]). lia. }
  cbn [length] in Hdep, Hf, Hmax. rewrite length_app in Hdep, Hf, Hmax. cbn [length] in Hdep, Hf, Hmax.
  apply parse_value_unfold. rewrite (proj1 Hx). destruct depth as [|depth]; [lia|].
  change (wpr (parse_object (parse_value depth fuel flags) fuel flags) x (result x (JObject (members_of ms)) rest)).
  unfold parse_object. eapply wp_seq; [eapply wp_heap; [by apply json_object_spec|apply Hx]|].
  intros p x1 ((A & Hb) & He1 & Hr1 & _). destruct (built_cell _ _ _ _ _ Hb) as [a ->]; [by right|].
  destruct Hb as [Hown Hg]. unfold ts in Hr1. rewrite <- !app_assoc in Hr1. cbn [app] in Hr1.
  eapply wp_seq.
  { apply (next_token w (34 :: tk ++ [34]) TOKEN_STRING (Some (VString (Some k))) (t' ++ 125 :: rest) fuel x1);
      [|done|by constructor|done|lia].
    cbn [app]. by rewrite <- !app_assoc in *. }
  intros kind x2 (-> & Hx2 & Ho2). change (TOKEN_STRING =? 125) with false. cbv iota. destruct Ho2 as [He2 Hv2].
  eapply wp_seq; [apply (Hp depth fuel fuel x2 rest a [] A); rewrite ?Hv2; try done; try (cbn [length]; lia); apply Hg|].
  intros [] x3 (Ht3 & Hr3 & He3). apply wp_get_bind. rewrite Ht3. apply wp_ret.
  eapply (extended_result x x2); [done|congruence|by rewrite Hv2|done|done].
Qed.

Lemma texts_parse :
  (∀ t v, value_text t v → parses t v) ∧ (∀ t vs, elements_text t vs → parses_elements t vs) ∧
  (∀ t ms, members_text t ms → parses_members t ms).
Proof.
  apply text_ind; intros; eauto using parses_empty_array, parses_empty_object, parses_array, parses_object,
    elements_one, elements_cons, members_one, members_cons; apply parses_scalars; eauto 10.
Qed.
End parser.
