(* ===== verification/JParseTheory.v ===== *)
(** * Theory of the entry points of the parser *)

From S2P Require Import Prelude CModel JBase JUtf JStrbuf JHash JHashTheory JValue JArray JReal.
From S2P Require Import JLex JScan JLoad JSpec JLexTheory JStringTheory JTokenTheory JHeap JBuild.
From S2P Require Import JLoadTheory.
From stdpp Require Import strings.
From Stdlib Require Import SpecFloat.
#[local] Open Scope Z_scope.

(** ** Texts are UTF-8 *)

Definition clean (t : list Z) : Prop := ∃ vs, Forall scalar vs ∧ Forall (λ v, v ≠ 0) vs ∧ t = utf8s vs.

Lemma clean_nil : clean [].
Proof. by exists []. Qed.

Lemma clean_app s t : clean s → clean t → clean (s ++ t).
Proof.
  intros (vs & H1 & H2 & ->) (us & H3 & H4 & ->). exists (vs ++ us). unfold utf8s.
  rewrite bind_app, !Forall_app. by split_and!.
Qed.

Lemma utf8s_nonzero vs : Forall scalar vs → Forall (λ v, v ≠ 0) vs → Forall (λ c, c ≠ 0) (utf8s vs).
Proof.
  intros Hv H0. induction vs as [|v vs IH]; [constructor|]. apply Forall_cons in Hv as [[Hr _] Hvs].
  apply Forall_cons in H0 as [H0 H0s]. rewrite utf8s_cons. apply Forall_app. split; [|by apply IH].
  unfold utf8. repeat case_bool; repeat (apply Forall_cons; split; [byte_arith|]); done.
Qed.

Lemma clean_nonzero t : clean t → Forall (λ c, c ≠ 0) t.
Proof. intros (vs & Hv & H0 & ->). by apply utf8s_nonzero. Qed.

Lemma clean_ascii t : Forall (λ b, 0 < b < 0x80) t → clean t.
Proof.
  intros Ht. exists t. split_and!.
  - eapply Forall_impl; [exact Ht|]. intros b Hb. apply scalar_ascii. simpl in Hb. lia.
  - eapply Forall_impl; [exact Ht|]. intros b Hb. simpl in *. lia.
  - induction Ht as [|b t Hb Ht IH]; [done|]. unfold utf8s in *. cbn. rewrite utf8_ascii by lia. cbn. by f_equal.
Qed.

Lemma clean_cons b t : 0 < b < 0x80 → clean t → clean (b :: t).
Proof. intros Hb Ht. apply (clean_app [b] t); [|done]. apply clean_ascii. constructor; [lia|done]. Qed.

Lemma clean_char t s : char_text t s → clean t.
Proof.
  destruct 1 as [v Hv H1 H2 H3|c v Hin|ds v Hds Hv H0|ds1 ds2 v1 v2 H1 H2 _ _].
  - exists [v]. unfold utf8s. cbn. rewrite app_nil_r. split_and!; [by apply Forall_singleton|apply Forall_singleton; lia|done].
  - apply short_escapes_spec in Hin. apply clean_ascii. repeat (apply Forall_cons; split; [lia|]); done.
  - assert (Hh : Forall (λ b, 0 < b < 0x80) ds).
    { apply hex4_value_spec in Hds as (a & b & c & d & va & vb & vc & vd & -> & Ha & Hb & Hc & Hd & _).
      apply hex_value_spec in Ha, Hb, Hc, Hd. repeat (apply Forall_cons; split; [lia|]); done. }
    do 2 (apply clean_cons; [lia|]). by apply clean_ascii.
  - assert (Hh : ∀ ds v, hex4_value ds = Some v → Forall (λ b, 0 < b < 0x80) ds).
    { intros ds v (a & b & c & d & va & vb & vc & vd & -> & Ha & Hb & Hc & Hd & _)%hex4_value_spec.
      apply hex_value_spec in Ha, Hb, Hc, Hd. repeat (apply Forall_cons; split; [lia|]); done. }
    do 2 (apply clean_cons; [lia|]). apply clean_app; [eapply clean_ascii, Hh; done|].
    do 2 (apply clean_cons; [lia|]). by eapply clean_ascii, Hh.
Qed.

Lemma clean_chars t s : chars_text t s → clean t.
Proof. induction 1; [apply clean_nil|]. apply clean_app; [by eapply clean_char|done]. Qed.

Lemma clean_ws w : ws w → clean w.
Proof.
  intros Hw. apply clean_ascii. eapply Forall_impl; [exact Hw|]. intros b [->|[->|[->| ->]]]; lia.
Qed.

Lemma digits_ascii ds : Forall is_digit ds → Forall (λ b, 0 < b < 0x80) ds.
Proof. intros H. eapply Forall_impl; [exact H|]. intros b Hb. unfold is_digit in Hb. simpl. lia. Qed.

Lemma int_ascii t i : int_text t i → Forall (λ b, 0 < b < 0x80) t.
Proof.
  destruct 1 as [ds Hd|ds Hd]; apply digits_text_digits in Hd as [Hd _]; apply digits_ascii in Hd; [done|].
  by constructor.
Qed.

Lemma real_ascii t : real_text t → Forall (λ b, 0 < b < 0x80) t.
Proof.
  intros (ip & i & fp & ep & -> & Hi & Hf & He & _)%real_text_parts. rewrite !Forall_app.
  split; [by eapply int_ascii|]. split.
  - destruct Hf as [->|[d ds Hd Hds]]; [done|]. apply digits_ascii in Hds. unfold is_digit in Hd.
    constructor; [lia|]. constructor; [lia|done].
  - destruct He as [->|[e sign d ds He Hs Hd Hds]]; [done|]. apply digits_ascii in Hds. unfold is_digit in Hd.
    constructor; [lia|]. apply Forall_app. split; [|constructor; [lia|done]].
    destruct Hs as [->|[->| ->]]; repeat (apply Forall_cons; split; [lia|]); done.
Qed.

Create HintDb clean.
#[export] Hint Resolve clean_nil clean_app clean_ws clean_chars : clean.
#[export] Hint Extern 5 (clean (_ :: _)) => apply clean_cons; [lia|] : clean.

Lemma texts_clean :
  (∀ t v, value_text t v → clean t) ∧ (∀ t vs, elements_text t vs → clean t) ∧
  (∀ t ms, members_text t ms → clean t).
Proof.
  apply text_ind; intros; eauto 20 with clean.
  - by eapply clean_ascii, int_ascii.
  - by eapply clean_ascii, real_ascii.
  - apply clean_ascii. vm_compute. repeat constructor.
  - apply clean_ascii. vm_compute. repeat constructor.
  - apply clean_ascii. vm_compute. repeat constructor.
Qed.

Lemma json_text_clean t v : json_text t v → clean t.
Proof. destruct 1 as [w1 t v w2 Hw1 Ht Hw2]. apply texts_clean in Ht. auto with clean. Qed.

(** ** The parser from its start *)

Section start.
Context {D : Type} {HS : Source D} {HL : SourceLaws D} {T : Tail}.
Abbreviation context := (context D).

Lemma stream_init_spec (d : D) t :
  upcoming d = t ++ junk → clean t → ∃ s, stream_init d = Ret s ∧ feeds s None t.
Proof.
  intros Hd (vs & H1 & H2 & ->). unfold stream_init. rewrite aset_ok by (simpl; lia). cbn [mbind outcome_bind].
  eexists. split; [done|]. right. exists [], [], vs. split; [|by split]. split; try done; [|simpl; lia].
  intros i Hi. simpl in *. replace i with O by lia. done.
Qed.

Lemma lex_init_spec (d : D) e h t w :
  upcoming d = t ++ junk → clean t → Z.of_nat (length t) < LIMIT → plenty w →
  ∃ x w', lex_init d e h w = (Ret x, w') ∧ plenty w' ∧ ready x t ∧ error x = e ∧ values x = h.
Proof.
  intros Hd Ht Hl Hw. destruct (stream_init_spec d t Hd Ht) as (s & Es & Hs). unfold lex_init. rewrite Es.
  destruct (holds_init (Strbuffer None 0 0) w Hw) as [Hw' Hb].
  unfold liftO, run_on, mbind, M_bind. destruct (strbuffer_init _ w) as [[[[]| |] b] w']; [|done..].
  eexists _, w'. split; [done|]. split; [done|]. split; [|done]. exists [], None. by split.
Qed.

(** A load is what the parser does behind the initialisation of the lexer. *)
Lemma load_wp (d : D) t fuel flags h e (Q : outcome ref → heap → option json_error_t → Prop) :
  upcoming d = t ++ junk → clean t → Z.of_nat (length t) < LIMIT →
  (∀ x, ready x t → error x = e → values x = h →
    wp (parse_json fuel flags) x (λ o x', Q o (values x') (error x'))) →
  wp (load fuel d flags) (h, e) (λ o he, Q o he.1 he.2).
Proof.
  intros Hd Hc Hl Hp w Hw. unfold load.
  destruct (lex_init_spec d e h t w Hd Hc Hl Hw) as (x & w1 & E & Hw1 & Hr & He & Hv). rewrite E. clear E.
  assert (H : wp (r ← attempt (parse_json fuel flags);
                  _ ← lex_close;
                  match r with Some r => mret r | None => sfail end) x (λ o x', Q o (values x') (error x'))).
  { apply wp_bind, wp_attempt. eapply wp_mono; [by apply Hp|].
    intros [r| |] x' Hx'; [| |done]; unfold lex_close, strbuffer_close; (eapply wp_seq;
      [apply wp_on_saved, wp_put; instantiate (1 := λ _ x'', values x'' = values x' ∧ error x'' = error x'); done|]);
      intros _ x'' [E1 E2]; [apply wp_ret|apply wp_fail]; by rewrite E1, E2. }
  set (m := (attempt (parse_json fuel flags) ≫= _)) in *.
  destruct (H w1 Hw1) as [Hw2 H2]. by destruct (m x w1) as [[[r| |] x'] w2].
Qed.
End start.

(** ** Texts of the grammar *)

Section parser.
Context {D : Type} {HS : Source D} {HL : SourceLaws D}.
Abbreviation context := (context D).
#[local] Existing Instance no_tail.

Lemma lexeme_open c t kind val :
  lexeme (c :: t) kind val → c = 91 ∨ c = 123 → kind = c.
Proof.
  intros Hl Hc. remember (c :: t) as tok eqn:E. destruct Hl as [u s Hu|u i Hi Hr|u r Hr Hs| | | |d Hd];
    try (injection E; intros; lia); try (unfold str in E; cbn in E; injection E; intros; lia).
  - destruct (int_text_start u i Hi) as (d & u' & -> & Hd). unfold number_start in Hd. injection E. lia.
  - destruct (real_text_start u Hr) as (d & u' & -> & Hd). unfold number_start in Hd. injection E. lia.
Qed.

Lemma lexeme_nonempty t kind val : lexeme t kind val → ∃ c t', t = c :: t'.
Proof.
  destruct 1 as [u s Hu|u i Hi Hr|u r Hr Hs| | | |d Hd]; try (by eexists _, _).
  - destruct (int_text_start u i Hi) as (d & u' & -> & Hd). eauto.
  - destruct (real_text_start u Hr) as (d & u' & -> & Hd). eauto.
Qed.

(** An array or an object, or any value when the flag allows it. *)
Definition allowed (flags : Z) (v : jv) : Prop :=
  has flags JSON_DECODE_ANY = true ∨ (∃ vs, v = JArray vs) ∨ (∃ ms, v = JObject ms).

Lemma open_text t v :
  value_text t v → (∃ vs, v = JArray vs) ∨ (∃ ms, v = JObject ms) → ∃ c t', t = c :: t' ∧ (c = 91 ∨ c = 123).
Proof. intros Ht [[vs ->]|[ms ->]]; inversion Ht; subst; eauto. Qed.

(** The error structure keeps everything but the position. *)
Definition positioned (e e' : option json_error_t) : Prop :=
  ∃ n, e' = (λ e, JsonError (e_line e) (e_column e) n (e_source e) (e_text e)) <$> e.

Lemma parse_json_spec t v fuel flags x :
  ready x t → json_text t v → wf (values x) → has flags JSON_REJECT_DUPLICATES = false → allowed flags v →
  (length t + 1 < fuel)%nat → Z.of_nat (length t) < MAX_PAIRS →
  wpr (parse_json fuel flags) x (λ p x', (∃ A, built (values x) p v A (values x')) ∧ positioned (error x) (error x')).
Proof.
  intros Hx Ht Hwf Hdup Hall Hf Hmax. destruct Ht as [w1 t v w2 Hw1 Ht Hw2]. rewrite !length_app in *.
  destruct (proj1 (texts_parse flags Hdup) t v Ht) as (tok & kind & val & t' & -> & Hl & Hk & Hd & Hp).
  rewrite length_app in *. rewrite <- app_assoc in Hx. unfold parse_json.
  assert (Hdel : delimits w2) by by apply delimits_end.
  eapply wp_seq; [apply (next_token w1 tok kind val (t' ++ w2) fuel x); [done|done|done|by auto|lia]|].
  intros k x1 (-> & Hx1 & [He1 Hv1]).
  assert (negb (has flags JSON_DECODE_ANY) && negb (kind =? 91) && negb (kind =? 123) = false) as ->.
  { destruct Hall as [->|Ho]; [done|]. destruct (open_text _ _ Ht Ho) as (c & t'' & E & Hc).
    destruct (lexeme_nonempty _ _ _ Hl) as (c' & tok' & ->). simplify_eq/=.
    rewrite (lexeme_open _ _ _ _ Hl Hc). destruct Hc as [->| ->]; by rewrite !andb_false_r. }
  eapply wp_seq; [apply (Hp fuel fuel x1 w2); rewrite ?length_app, ?Hv1; try done; lia|].
  intros p x2 (He2 & Hr2 & A & Hb). rewrite Hv1 in Hb.
  apply (wp_seq _ _ _ (λ _ x3, values x3 = values x2 ∧ error x3 = error x2)).
  { case_match; [by apply wp_ret|].
    eapply wp_seq; [by apply (lex_scan_end w2 fuel x2); [done|done|lia]|]. intros k x3 (-> & _ & _ & Ho & _).
    change (negb (TOKEN_EOF =? TOKEN_EOF)) with false. cbv iota. apply wp_ret. by destruct Ho. }
  intros [] x3 (Hv3 & He3). apply wp_get_bind. apply (wp_seq _ _ _ (λ _ x4, values x4 = values x3 ∧ positioned (error x3) (error x4))).
  { intros w Hw. split; [done|]. split; [done|]. by eexists. }
  intros [] x4 (Hv4 & He4). apply wp_ret. rewrite Hv4, Hv3. split; [by exists A|].
  unfold shown in He1, He2. simpl in He1, He2. by rewrite <- He1, <- He2, <- He3.
Qed.

(** A load from any source. *)
Lemma load_spec (d : D) t v fuel flags h e :
  upcoming d = t → json_text t v → wf h → has flags JSON_REJECT_DUPLICATES = false → allowed flags v →
  (length t + 1 < fuel)%nat → Z.of_nat (length t) < MAX_PAIRS →
  wpr (load fuel d flags) (h, e) (λ p he, (∃ A, built h p v A he.1) ∧ positioned e he.2).
Proof.
  intros Hd Ht Hwf Hdup Hall Hf Hmax.
  eapply (load_wp d t fuel flags h e (λ o h' e', match o with
    | Ret p => (∃ A, built h p v A h') ∧ positioned e e' | _ => False end));
    [by rewrite app_nil_r|by eapply json_text_clean|unfold LIMIT, MAX_PAIRS in *; lia|].
  intros x Hx <- <-. by apply (parse_json_spec t v).
Qed.
End parser.

(** [jsonp_error_init] followed by a success. *)
Definition success (source : list Z) (e e' : option json_error_t) : Prop :=
  positioned (jsonp_error_init source e) e'.

Lemma init_error_load {A} source (m : SM (heap * option json_error_t) A) h e Q :
  wp m (h, jsonp_error_init source e) Q → wp (_ ← init_error source; m) (h, e) Q.
Proof. done. Qed.

Lemma json_loads_spec t v flags h e :
  json_text t v → wf h → has flags JSON_REJECT_DUPLICATES = false → allowed flags v →
  Z.of_nat (length t) < MAX_PAIRS →
  wpr (json_loads (Some t) flags) (h, e) (λ p he, (∃ A, built h p v A he.1) ∧ success (str "<string>") e he.2).
Proof.
  intros Ht Hwf Hdup Hall Hmax. unfold json_loads. apply init_error_load.
  apply (load_spec _ t v); try done; [|lia].
  simpl. apply until_nul_all, clean_nonzero. by eapply json_text_clean.
Qed.

Lemma json_loadb_spec buffer buflen v flags h e :
  json_text (take (Z.to_nat buflen) buffer) v → 0 ≤ buflen ≤ Z.of_nat (length buffer) →
  wf h → has flags JSON_REJECT_DUPLICATES = false → allowed flags v → buflen < MAX_PAIRS →
  wpr (json_loadb (Some buffer) buflen flags) (h, e) (λ p he, (∃ A, built h p v A he.1) ∧ success (str "<buffer>") e he.2).
Proof.
  intros Ht Hlen Hwf Hdup Hall Hmax. unfold json_loadb. apply init_error_load.
  apply (load_spec _ (take (Z.to_nat buflen) buffer) v); try done; [|rewrite length_take; lia..].
  simpl. rewrite Nat.sub_0_r.
  pose proof (segment_prefix (take (Z.to_nat buflen) buffer) (drop (Z.to_nat buflen) buffer)) as E.
  by rewrite take_drop, length_take_le in E by lia.
Qed.

Lemma callback_bytes_length results :
  Forall (λ r : option (list Z), (length (default [] r) ≤ 1024)%nat) results →
  (length (callback_bytes results) ≤ 1024 * length results)%nat.
Proof.
  induction 1 as [|r l Hr Hl IH]; cbn [callback_bytes length]; [lia|].
  destruct (ends r); [simpl; lia|]. rewrite length_app. lia.
Qed.

Lemma json_load_callback_spec results v flags h e :
  json_text (callback_bytes results) v →
  Forall (λ r : option (list Z), (length (default [] r) ≤ 1024)%nat) results →
  wf h → has flags JSON_REJECT_DUPLICATES = false → allowed flags v →
  Z.of_nat (length (callback_bytes results)) < MAX_PAIRS →
  wpr (json_load_callback (Some results) flags) (h, e)
    (λ p he, (∃ A, built h p v A he.1) ∧ success (str "<callback>") e he.2).
Proof.
  intros Ht Hres Hwf Hdup Hall Hmax. unfold json_load_callback. apply init_error_load.
  apply (load_spec _ (callback_bytes results) v); try done.
  apply callback_bytes_length in Hres. lia.
Qed.
