(* ===== verification/JSound.v ===== *)
(** * Every text: tokens

    What the lexer does with a text that need not be one of the grammar: it
    reads a token of the grammar, or it says that there is none. The text ends
    or goes on with bytes that are no UTF-8; the only condition is that [\u] is
    followed by hexadecimal digits, which the code does not test. *)

From S2P Require Import Prelude CModel JBase JUtf JStrbuf JHash JHashTheory JValue JArray JReal.
From S2P Require Import JLex JScan JLoad JSpec JLexTheory JStringTheory JTokenTheory JHeap.
From S2P Require Import JBuild JLoadTheory JParseTheory.
From stdpp Require Import strings.
From Stdlib Require Import SpecFloat.
#[local] Open Scope Z_scope.

(** ** Texts *)

Lemma utf8_inj v v' u u' :
  scalar v → v ≠ 0 → scalar v' → v' ≠ 0 → utf8 v ++ u = utf8 v' ++ u' → v = v' ∧ u = u'.
Proof.
  intros Hv H0 Hv' H0' E. pose proof (utf8_iterate_valid v u Hv H0) as H1.
  rewrite E, (utf8_iterate_valid v' u' Hv' H0') in H1. by simplify_eq.
Qed.

Lemma clean_split b r :
  clean (b :: r) → ∃ v r', scalar v ∧ v ≠ 0 ∧ b :: r = utf8 v ++ r' ∧ clean r'.
Proof.
  intros ([|v vs] & Hv & H0 & E); [done|]. apply Forall_cons in Hv as [Hv Hvs]. apply Forall_cons in H0 as [H0 H0s].
  exists v, (utf8s vs). split_and!; try done. by exists vs.
Qed.

Lemma clean_drop s t : clean s → clean (s ++ t) → clean t.
Proof.
  intros (vs & Hv & H0 & ->). induction vs as [|v vs IH]; [done|].
  apply Forall_cons in Hv as [Hv Hvs]. apply Forall_cons in H0 as [H0 H0s].
  rewrite utf8s_cons, <- app_assoc. intros Ht. apply IH; [done..|].
  destruct (utf8_cons v) as (b & l & El). assert (Hc : clean (b :: l ++ utf8s vs ++ t)) by (by rewrite El in Ht).
  destruct (clean_split _ _ Hc) as (v' & r' & Hv' & H0' & E & Hr').
  change (b :: l ++ utf8s vs ++ t) with ((b :: l) ++ utf8s vs ++ t) in E. rewrite <- El in E.
  by apply utf8_inj in E as [_ ->].
Qed.

Lemma clean_bytes t : clean t → Forall char_byte t.
Proof.
  intros (vs & Hv & H0 & ->). induction vs as [|v vs IH]; [constructor|].
  apply Forall_cons in Hv as [Hv Hvs]. apply Forall_cons in H0 as [H0 H0s].
  rewrite utf8s_cons. apply Forall_app. split; [by apply utf8_chars|by apply IH].
Qed.

(** Every [\u] is followed by four hexadecimal digits. *)
Fixpoint escapes_ok (s : list Z) : Prop :=
  match s with
  | [] => True
  | b :: s =>
    if b =? 92 then
      match s with
      | [] => True
      | c :: s =>
        if c =? 117 then
          match s with
          | d1 :: d2 :: d3 :: d4 :: s => is_Some (hex4_value [d1; d2; d3; d4]) ∧ escapes_ok s
          | _ => False
          end
        else escapes_ok s
      end
    else escapes_ok s
  end.

Lemma escapes_skip b s : b ≠ 92 → escapes_ok (b :: s) → escapes_ok s.
Proof. intros Hb. cbn [escapes_ok]. by rewrite (proj2 (Z.eqb_neq b 92)). Qed.

Lemma escapes_skips t s : Forall (λ b, b ≠ 92) t → escapes_ok (t ++ s) → escapes_ok s.
Proof. induction 1 as [|b t Hb Ht IH]; [done|]. intros H. by eapply IH, escapes_skip. Qed.

(** What the lexer can be given. *)
Definition input (u : list Z) : Prop := clean u ∧ escapes_ok u.

Lemma input_skips t s : Forall (λ b, b ≠ 92) t → clean t → input (t ++ s) → input s.
Proof. intros H1 H2 [Hc He]. split; [by apply (clean_drop t)|by apply (escapes_skips t)]. Qed.

Lemma input_ascii t s : Forall (λ b, 0 < b < 0x80 ∧ b ≠ 92) t → input (t ++ s) → input s.
Proof.
  intros Ht. apply input_skips; [|apply clean_ascii]; (eapply Forall_impl; [exact Ht|]); intros b Hb; apply Hb.
Qed.

(** ** Characters of strings *)

(** The characters that the lexer lets pass: escapes may stand for surrogates
    or for NUL. *)
Inductive raw_char : list Z → Prop :=
  | W_plain v : scalar v → 0x20 ≤ v → v ≠ 34 → v ≠ 92 → raw_char (utf8 v)
  | W_short c v : (c, v) ∈ short_escapes → raw_char [92; c]
  | W_unicode ds v : hex4_value ds = Some v → raw_char (92 :: 117 :: ds).

Inductive raw_text : list Z → Prop :=
  | W_nil : raw_text []
  | W_cons t ts : raw_char t → raw_text ts → raw_text (t ++ ts).

Lemma hex4_length ds v : hex4_value ds = Some v → length ds = 4%nat.
Proof. by intros (? & ? & ? & ? & ? & ? & ? & ? & -> & _)%hex4_value_spec. Qed.

Lemma raw_input t s : raw_char t → input (t ++ s) → input s.
Proof.
  destruct 1 as [v Hv H1 H2 H3|c v Hin|ds v Hds]; intros [Hc He].
  - split; [eapply clean_drop; [|exact Hc]; by eapply clean_char; constructor|].
    eapply escapes_skips; [|exact He]. eapply Forall_impl; [by apply utf8_plain|]. by intros b (_ & _ & _ & ?).
  - split; [eapply clean_drop; [|exact Hc]; by eapply clean_char; constructor|].
    apply short_escapes_spec in Hin as (_ & _ & H117 & _). cbn [app escapes_ok] in He.
    by rewrite Z.eqb_refl, (proj2 (Z.eqb_neq c 117)) in He.
  - apply hex4_value_spec in Hds as (b & c & d & e & vb & vc & vd & ve & -> & Hb & Hc' & Hd & Hee & _).
    apply hex_value_spec in Hb, Hc', Hd, Hee. cbn [app] in *. split.
    + eapply (clean_drop [92; 117; b; c; d; e]); [|exact Hc]. apply clean_ascii.
      repeat (apply Forall_cons; split; [lia|]). done.
    + by destruct He as [_ He].
Qed.

Lemma plain_scalar v b r r' :
  scalar v → b :: r = utf8 v ++ r' → 0x20 ≤ b → b ≠ 34 → b ≠ 92 → 0x20 ≤ v ∧ v ≠ 34 ∧ v ≠ 92.
Proof.
  intros [Hv _] E Hb H1 H2. destruct (Z.ltb_spec v 0x80) as [Hlo|Hhi]; [|lia].
  rewrite utf8_ascii in E by lia. simplify_eq/=. lia.
Qed.

(** The first byte of a character of ASCII. *)
Lemma ascii_scalar v b r r' : scalar v → b :: r = utf8 v ++ r' → 0 ≤ b < 0x80 → utf8 v = [b] ∧ r' = r.
Proof.
  intros [Hv _] E Hb. unfold utf8 in *. repeat case_bool; simplify_eq/=; (done || byte_arith).
Qed.

Lemma is_escape_spec c : char_byte c → is_escape (s8 c) = true → ∃ v, (c, v) ∈ short_escapes.
Proof.
  intros Hc H. assert (Hlo : c < 0x80).
  { destruct (Z.ltb_spec c 0x80) as [|Hhi]; [done|]. unfold char_byte in Hc.
    pose proof (s8_high c ltac:(lia)). unfold is_escape in H. rewrite !orb_true_iff, !Z.eqb_eq in H. lia. }
  unfold char_byte in Hc. rewrite s8_ascii in H by lia. unfold is_escape in H.
  rewrite !orb_true_iff, !Z.eqb_eq in H. unfold short_escapes.
  destruct H as [[[[[[[-> | ->] | ->] | ->] | ->] | ->] | ->] | ->]; eexists;
    repeat (apply list_elem_of_here || apply list_elem_of_further).
Qed.

Section sound.
Context {D : Type} {HS : Source D} {HL : SourceLaws D} {T : Tail}.
Abbreviation context := (context D).

(** The saved text is a string. *)
Definition idle (x : context) : Prop := ∃ l, holds (saved_text x) l ∧ Forall (λ b, b ≠ 0) l.

Lemma at_idle x l prev rest : at_ x l prev rest → idle x.
Proof. intros [Hh Hb _ _]. exists l. split; [done|]. by apply char_bytes_nonzero. Qed.

Lemma look_idle x l u : look x l u → idle x.
Proof. destruct u as [|b r]; [apply at_idle|intros [_ H]; by eapply at_idle]. Qed.

(** The routine ends without a token; the values are as before. *)
Definition gave_up (x x' : context) : Prop := token x' = token x ∧ values x' = values x ∧ idle x'.

Lemma keeps_gave_up x x1 x2 : keeps x x1 → gave_up x1 x2 → gave_up x x2.
Proof. intros (Ht & _ & _ & Hv) (Ht2 & Hv2 & Hi). split_and!; congruence || done. Qed.

Lemma keeps_idle x x' : keeps x x' → idle x' → gave_up x x'.
Proof. intros (? & _ & _ & ?) ?. by split_and!. Qed.

Lemma wp_error_set msg (x : context) :
  idle x → wpr (error_set msg) x (λ _ x', gave_up x x').
Proof.
  intros (l & Hh & Hl). eapply wp_mono; [by apply (error_set_total msg l)|]. intros [[]| |] x' Hx'; [|done..].
  destruct Hx' as (e & ->). split_and!; [done|done|by exists l].
Qed.

(** An error and the result [r]. *)
Lemma error_then {A} msg (r : A) (x : context) (Q : outcome A → context → Prop) :
  idle x → (∀ x', gave_up x x' → Q (Ret r) x') → wp (_ ← error_set msg; mret r) x Q.
Proof.
  intros Hi HQ. eapply wp_seq; [by apply wp_error_set|]. intros [] x' Hx'. apply wp_ret. by apply HQ.
Qed.

(** *** The loop over the characters *)

Definition string_end (x : context) (l u : list Z) (o : outcome bool) (x' : context) : Prop :=
  match o with
  | Ret true => ∃ t rest, u = t ++ 34 :: rest ∧ raw_text t ∧ input rest ∧ keeps x x' ∧ look x' (l ++ t) (34 :: rest)
  | Ret false => gave_up x x'
  | _ => False
  end.

Lemma string_end_cons x x1 l t u o x' :
  raw_char t → keeps x x1 → string_end x1 (l ++ t) u o x' → string_end x l (t ++ u) o x'.
Proof.
  intros Ht Hk. destruct o as [[]| |]; simpl; try done.
  - intros (ts & rest & -> & Hts & Hr & Hk' & Hx'). exists (t ++ ts), rest.
    rewrite <- !app_assoc in *. split; [done|]. split; [by constructor|]. split; [done|]. split; [by eapply keeps_trans|done].
  - by apply keeps_gave_up.
Qed.

(** A backslash that starts no escape. *)
Lemma scan_no_escape fuel x l u :
  look x l (92 :: u) → (cur u =? 117) = false → is_escape (cur u) = false →
  wp (scan_chars fuel 92) x (string_end x l (92 :: u)).
Proof.
  intros Hx H1 H2.
  assert (Hbody : wp (next_char ←
      (if 92 =? 92 then
         c ← lex_get_save;
         if c =? 117 then c ← lex_get_save; scan_hex 4 c
         else if is_escape c then c ← lex_get_save; mret (Some c)
         else _ ← error_set (str "invalid escape"); mret None
       else c ← lex_get_save; mret (Some c));
    match next_char, fuel with
    | None, _ => mret false
    | Some _, O => sundef
    | Some c, S fuel => scan_chars fuel c
    end) x (string_end x l (92 :: u))); [|by destruct fuel].
  apply (wp_seq _ _ _ (λ r x', r = None ∧ gave_up x x')).
  - rewrite Z.eqb_refl. eapply wp_seq; [by apply (look_next x l 92 u)|]. intros c x1 (-> & Hk & Hx1).
    rewrite H1, H2. apply error_then; [by eapply look_idle|]. intros x2 Hx2. split; [done|].
    by eapply keeps_gave_up.
  - intros r x' (-> & Hx'). by apply wp_ret.
Qed.

Lemma scan_control fuel x l b r :
  look x l (b :: r) → 0 < b < 0x20 → wp (scan_chars fuel b) x (string_end x l (b :: r)).
Proof.
  intros Hx Hb.
  assert (Hbody : wp (_ ← lex_unget_unsave (cur (b :: r));
      _ ← error_set (if b =? 10 then str "unexpected newline" else str "control character 0x" ++ hex b); mret false) x
      (string_end x l (b :: r))).
  { eapply wp_seq; [by apply (lex_unget_unsave_spec x l (b :: r))|]. intros [] x1 (Hx1 & Hk).
    apply error_then; [by eapply at_idle|]. intros x2 Hx2. by eapply keeps_gave_up. }
  cbn [cur] in Hbody. rewrite s8_ascii in Hbody by lia.
  assert (E : scan_chars fuel b = (_ ← lex_unget_unsave b;
      _ ← error_set (if b =? 10 then str "unexpected newline" else str "control character 0x" ++ hex b); mret false)).
  { destruct fuel; cbn [scan_chars]; unfold STREAM_STATE_ERROR, STREAM_STATE_EOF;
      rewrite (proj2 (Z.eqb_neq b 34)), (proj2 (Z.eqb_neq b (-2))), (proj2 (Z.eqb_neq b (-1))) by lia;
      by rewrite (proj2 (Z.leb_le 0 b)), (proj2 (Z.leb_le b 0x1F)) by lia. }
  by rewrite E.
Qed.

Lemma scan_fin fuel x l : look x l [] → wp (scan_chars fuel (cur [])) x (string_end x l []).
Proof.
  intros Hx. pose proof (look_idle _ _ _ Hx) as Hi. cbn [cur]. destruct fin_cases as [[-> _]|[-> _]].
  - assert (E : scan_chars fuel STREAM_STATE_EOF = (_ ← error_set (str "premature end of input"); mret false))
      by (by destruct fuel).
    rewrite E. by apply error_then.
  - assert (E : scan_chars fuel STREAM_STATE_ERROR = mret false) by (by destruct fuel). rewrite E. by apply wp_ret.
Qed.

Lemma scan_chars_raw n : ∀ u fuel x l,
  (length u ≤ n)%nat → (length u ≤ fuel)%nat → input u → look x l u →
  wp (scan_chars fuel (cur u)) x (string_end x l u).
Proof.
  induction n as [|n IH]; intros u fuel x l Hn Hf Hu Hx.
  { destruct u; [by apply scan_fin|simpl in Hn; lia]. }
  destruct u as [|b r]; [by apply scan_fin|].
  assert (Hnext : ∀ t r' k, raw_char t → b :: r = t ++ r' → t ≠ [] → (fuel ≤ length t + k)%nat → ∀ x', keeps x x' → look x' (l ++ t) r' →
    wp (scan_chars k (cur r')) x' (string_end x l (b :: r))).
  { intros t r' k Ht E Hne Hk x' Hx' Hl'. rewrite E in *. rewrite length_app in *.
    assert (1 ≤ length t)%nat by (destruct t; simpl; [done|lia]).
    eapply wp_mono; [apply (IH r' k x' (l ++ t)); try done; [lia|lia|by eapply raw_input]|].
    intros o x2 Ho. by eapply string_end_cons. }
  destruct Hu as [Hc He]. pose proof (clean_bytes _ Hc) as [Hb Hr]%Forall_cons. unfold char_byte in Hb.
  destruct (clean_split b r Hc) as (v & r' & Hv & H0 & E & Hr').
  destruct (decide (b = 34)) as [->|H34].
  { assert (E' : scan_chars fuel (cur (34 :: r)) = mret true) by (by destruct fuel). rewrite E'. apply wp_ret.
    exists [], r. rewrite app_nil_r. split_and!; try done; [constructor|].
    apply (input_ascii [34]); [|done]. repeat constructor; lia. }
  destruct fuel as [|fuel]; [simpl in Hf; lia|].
  destruct (decide (b = 92)) as [->|H92].
  - cbn [cur]. change (s8 92) with 92. destruct r as [|c r].
    { apply (scan_no_escape _ x l []); [done|..]; by destruct fin_cases as [[E' _]|[E' _]]; cbn [cur]; rewrite E'. }
    apply Forall_cons in Hr as [Hc' Hr]. destruct (decide (c = 117)) as [->|H117].
    + cbn [escapes_ok] in He. change (92 =? 92) with true in He. change (117 =? 117) with true in He. cbv iota in He.
      destruct r as [|d1 [|d2 [|d3 [|d4 r]]]]; try done. destruct He as [[w Hw] He].
      apply (scan_unicode_escape fuel x l [d1; d2; d3; d4] r); [done|done|].
      apply (Hnext [92; 117; d1; d2; d3; d4] r); [by eapply W_unicode|done|done|simpl in *; lia].
    + destruct (is_escape (s8 c)) eqn:Eesc.
      * destruct (is_escape_spec c Hc' Eesc) as (w & Hw). pose proof (short_escapes_spec c w Hw) as (Ee & _ & _ & Hr2 & _).
        apply (scan_short_escape fuel x l c r); [done|done|done|done|].
        apply (Hnext [92; c] r); [by eapply W_short|done|done|simpl in *; lia].
      * apply scan_no_escape; [done| |done]. cbn [cur]. apply Z.eqb_neq. unfold char_byte in Hc'.
        destruct (Z.ltb_spec c 0x80); [by rewrite s8_ascii by lia|]. pose proof (s8_high c ltac:(lia)). lia.
  - destruct (Z.ltb_spec b 0x20) as [Hlo|Hhi].
    + cbn [cur]. rewrite s8_ascii by lia. apply scan_control; [done|lia].
    + destruct (plain_scalar v b r r' Hv E Hhi H34 H92) as (Hv1 & Hv2 & Hv3).
      assert (Hlen : (1 ≤ length (utf8 v))%nat) by apply length_utf8.
      assert (Hf' : (length (utf8 v) ≤ S fuel)%nat) by (rewrite E, length_app in Hf; lia).
      replace (S fuel) with (length (utf8 v) + (S fuel - length (utf8 v)))%nat by lia. rewrite E in Hx |- *.
      apply (scan_plains (utf8 v) (S fuel - length (utf8 v)) x l r'); [done|by apply utf8_plain|].
      rewrite <- E. apply Hnext; [by constructor|done|by intros E'; rewrite E' in Hlen; simpl in Hlen; lia|lia].
Qed.
End sound.

(** ** The copy without escapes *)

Lemma s8_is b c : is_byte b → 0 ≤ c < 0x80 → (s8 b =? c) = (b =? c).
Proof.
  intros Hb Hc. unfold is_byte in Hb. apply eq_bool_prop_intro. rewrite !Is_true_true, !Z.eqb_eq.
  destruct (Z.ltb_spec b 0x80) as [H|H]; [by rewrite s8_ascii by lia|]. pose proof (s8_high b ltac:(lia)). lia.
Qed.

(** A surrogate that is no part of a pair, and NUL. *)
Lemma unicode_escape_bad a pre ds v rest :
  starts a (pre ++ 117 :: ds ++ rest) → hex4_value ds = Some v → v = 0 ∨ low_surrogate v →
  ∃ msg, unicode_escape a (Z.of_nat (length pre)) = Ret (inr msg).
Proof.
  intros Ha Hds Hv. unfold unicode_escape. rewrite (decode_unicode_escape_spec a pre ds v rest) by done.
  cbn [mbind outcome_bind]. unfold low_surrogate in Hv. repeat case_bool; try lia; by eexists.
Qed.

Lemma unicode_escape_lone a pre ds v c r :
  starts a (pre ++ 117 :: ds ++ c :: r) → hex4_value ds = Some v → high_surrogate v → is_byte c →
  (c ≠ 92 ∨ ∃ d r', r = d :: r' ∧ is_byte d ∧
    (d ≠ 117 ∨ ∃ ds2 v2 r2, r' = ds2 ++ r2 ∧ hex4_value ds2 = Some v2 ∧ ¬ low_surrogate v2)) →
  ∃ msg, unicode_escape a (Z.of_nat (length pre)) = Ret (inr msg).
Proof.
  intros Ha Hds Hv Hc Hr. unfold unicode_escape, high_surrogate in *.
  rewrite (decode_unicode_escape_spec a pre ds v (c :: r)) by done. cbn [mbind outcome_bind].
  do 2 (case_bool; [|lia]). cbn [andb].
  assert (E : Z.of_nat (length pre) + 5 = Z.of_nat (length (pre ++ 117 :: ds))).
  { rewrite length_app. simpl. rewrite (hex4_length ds v) by done. lia. }
  assert (Ha1 : starts a ((pre ++ 117 :: ds) ++ c :: r)) by by rewrite <- app_assoc.
  rewrite E, (char_at_middle a _ c r) by done. cbn [mbind outcome_bind]. rewrite (s8_is c 92) by (done || lia).
  destruct (Z.eqb_spec c 92) as [->|Hc92]; cbn [andb]; [|by eexists].
  destruct Hr as [|(d & r' & -> & Hd & Hr)]; [done|].
  assert (E1 : Z.of_nat (length (pre ++ 117 :: ds)) + 1 = Z.of_nat (length ((pre ++ 117 :: ds) ++ [92]))).
  { rewrite (length_app _ [92]). simpl. lia. }
  rewrite E1, (char_at_middle a _ d r') by (by rewrite <- (app_assoc _ [92])). cbn [mbind outcome_bind].
  rewrite (s8_is d 117) by (done || lia). destruct (Z.eqb_spec d 117) as [->|Hd117]; [|by eexists].
  destruct Hr as [|(ds2 & v2 & r2 & -> & Hds2 & Hv2)]; [done|].
  rewrite (decode_unicode_escape_spec a ((pre ++ 117 :: ds) ++ [92]) ds2 v2 r2) by (done || by rewrite <- (app_assoc _ [92])).
  cbn [mbind outcome_bind]. unfold low_surrogate in Hv2. repeat case_bool; try lia; by eexists.
Qed.

(** What stands behind a high surrogate. *)
Lemma behind_high ts rest :
  raw_text ts → is_byte 34 →
  (∃ ds v ts', ts = 92 :: 117 :: ds ++ ts' ∧ hex4_value ds = Some v ∧ low_surrogate v ∧ raw_text ts') ∨
  ∃ c r, ts ++ 34 :: rest = c :: r ∧ is_byte c ∧
    (c ≠ 92 ∨ ∃ d r', r = d :: r' ∧ is_byte d ∧
      (d ≠ 117 ∨ ∃ ds2 v2 r2, r' = ds2 ++ r2 ∧ hex4_value ds2 = Some v2 ∧ ¬ low_surrogate v2)).
Proof.
  intros Hts H34. destruct Hts as [|t ts Ht Hts]; [right; exists 34, rest; auto|].
  destruct Ht as [v Hv H1 H2 H3|c v Hin|ds v Hds].
  - right. pose proof (utf8_plain v Hv H1 H2 H3) as Hp. destruct (utf8_cons v) as (b & l & El). rewrite El in *.
    apply Forall_cons in Hp as [(Hb & _ & _ & Hb92) _]. exists b, (l ++ ts ++ 34 :: rest). cbn [app].
    rewrite <- app_assoc. unfold char_byte, is_byte in *. split; [done|]. split; [lia|by left].
  - right. apply short_escapes_spec in Hin as (_ & _ & H117 & Hr & _). exists 92, (c :: ts ++ 34 :: rest).
    unfold is_byte. split; [done|]. split; [lia|]. right. exists c, (ts ++ 34 :: rest). split; [done|]. split; [lia|by left].
  - destruct (decide (low_surrogate v)) as [Hl|Hl]; [left; by exists ds, v, ts|right].
    exists 92, (117 :: ds ++ ts ++ 34 :: rest). cbn [app]. rewrite <- app_assoc. unfold is_byte.
    split; [done|]. split; [lia|]. right. exists 117, (ds ++ ts ++ 34 :: rest). split; [done|]. split; [lia|].
    right. by exists ds, v, (ts ++ 34 :: rest).
Qed.

(** The text is copied, or it is no text of the grammar. *)
Definition unescaped (r : outcome (list Z + list Z)) (acc t : list Z) : Prop :=
  (∃ s, r = Ret (inl (acc ++ s)) ∧ chars_text t s) ∨ ∃ msg, r = Ret (inr msg).

Lemma unescape_error fuel a size pre ds rest acc msg :
  starts a (pre ++ 92 :: 117 :: ds ++ rest) →
  unicode_escape a (Z.of_nat (length (pre ++ [92]))) = Ret (inr msg) → (0 < fuel)%nat →
  unescape fuel a size (Z.of_nat (length pre)) acc = Ret (inr msg).
Proof.
  intros Ha E Hf. destruct fuel as [|fuel]; [lia|]. rewrite (unescape_backslash fuel a size pre 117 (ds ++ rest)) by done.
  change (s8 117 =? 117) with true. cbv iota zeta. by rewrite E.
Qed.

Lemma unescape_raw n : ∀ t fuel a size pre rest acc,
  (length t ≤ n)%nat → raw_text t → starts a (pre ++ t ++ 34 :: rest) →
  Z.of_nat (length acc + length t) ≤ size → (length t ≤ fuel)%nat →
  unescaped (unescape fuel a size (Z.of_nat (length pre)) acc) acc t.
Proof.
  induction n as [|n IH]; intros t fuel a size pre rest acc Hn Ht Ha Hs Hf.
  { destruct t; [|simpl in Hn; lia]. left. exists []. split; [|constructor].
    apply (unescape_spec [] [] fuel a size pre rest acc); try done. constructor. }
  destruct Ht as [|t ts Ht Hts].
  { left. exists []. split; [|constructor]. apply (unescape_spec [] [] fuel a size pre rest acc); try done. constructor. }
  rewrite length_app in *. rewrite <- app_assoc in Ha.
  assert (Hgood : ∀ t s ts, char_text t s → raw_text ts → (length t + length ts ≤ S n)%nat →
    starts a (pre ++ t ++ ts ++ 34 :: rest) →
    Z.of_nat (length acc + (length t + length ts)) ≤ size → (length t + length ts ≤ fuel)%nat →
    unescaped (unescape fuel a size (Z.of_nat (length pre)) acc) acc (t ++ ts)).
  { clear t ts Ht Hts Ha Hs Hf Hn. intros t s ts Ht Hts Hn Ha Hs Hf. pose proof (char_text_length t s Ht) as [Hl Hl1].
    destruct (unescape_char t s (fuel - length t) a size pre (ts ++ 34 :: rest) acc) as (m & Hm & E); [done|done|lia|].
    replace (length t + (fuel - length t))%nat with fuel in E by lia. rewrite E.
    destruct (IH ts m a size (pre ++ t) rest (acc ++ s)) as [(s' & E' & Hs')|(msg & E')];
      [lia|done|by rewrite <- app_assoc|rewrite length_app; lia|lia| |].
    - left. exists (s ++ s'). split; [by rewrite E', app_assoc|by constructor].
    - right. by exists msg. }
  destruct Ht as [v Hv H1 H2 H3|c v Hin|ds v Hds].
  - by eapply Hgood; [constructor|..].
  - by eapply Hgood; [constructor|..].
  - pose proof (hex4_range ds v Hds) as Hr. pose proof (hex4_length ds v Hds) as Hlen.
    assert (Ha' : starts a ((pre ++ [92]) ++ 117 :: ds ++ ts ++ 34 :: rest)) by (by rewrite <- app_assoc).
    assert (Hbad : ∀ msg, unicode_escape a (Z.of_nat (length (pre ++ [92]))) = Ret (inr msg) →
      unescaped (unescape fuel a size (Z.of_nat (length pre)) acc) acc ((92 :: 117 :: ds) ++ ts)).
    { intros msg E. right. exists msg. apply (unescape_error fuel a size pre ds (ts ++ 34 :: rest)); [done|done|].
      simpl in Hf. lia. }
    destruct (decide (v = 0 ∨ low_surrogate v)) as [Hb|Hb].
    { destruct (unicode_escape_bad a (pre ++ [92]) ds v (ts ++ 34 :: rest)) as (msg & E); try done. by eapply Hbad. }
    destruct (decide (high_surrogate v)) as [Hh|Hh].
    + destruct (behind_high ts rest Hts) as [(ds2 & v2 & ts' & -> & Hds2 & Hl2 & Hts')|(c & r & E & Hc & Hcase)];
        [unfold is_byte; lia| |].
      * pose proof (Hgood (92 :: 117 :: ds ++ 92 :: 117 :: ds2) _ ts' (C_pair ds ds2 v v2 Hds Hds2 Hh Hl2) Hts') as Hp.
        simpl in Hp, Hn, Hs, Hf, Ha |- *. rewrite !length_app in *. simpl in Hp, Hn, Hs, Hf.
        rewrite <- !app_assoc in *. cbn [app] in *. rewrite <- ?app_assoc in *.
        apply Hp; [lia|done|lia|lia].
      * rewrite E in Ha'. destruct (unicode_escape_lone a (pre ++ [92]) ds v c r) as (msg & Em); try done. by eapply Hbad.
    + eapply Hgood; [eapply C_unicode; [done| |tauto]|done..].
      unfold scalar, low_surrogate, high_surrogate in *. lia.
Qed.

(** ** Numbers *)

Lemma span_digits_app ds rest :
  Forall is_digit ds → (∀ c r, rest = c :: r → digit c = false) → span_digits (ds ++ rest) = (ds, rest).
Proof.
  intros Hds Hr. induction Hds as [|d ds Hd Hds IH]; cbn [app span_digits].
  - destruct rest as [|c r]; [done|]. cbn [span_digits]. by rewrite (Hr c r).
  - destruct (is_digit_byte d Hd) as (_ & _ & _ & ->). by rewrite IH.
Qed.

Lemma sign_of_digits d s : is_digit d → sign_of (d :: s) = (false, d :: s).
Proof.
  intros Hd. unfold is_digit in Hd. cbn [sign_of]. by rewrite (proj2 (Z.eqb_neq d 45)), (proj2 (Z.eqb_neq d 43)) by lia.
Qed.

Lemma exponent_of_spec ep : (ep = [] ∨ exp_text ep) → ∃ e, exponent_of ep = (e, []).
Proof.
  intros [->|[e sign d ds He Hs Hd Hds]]; [by eexists|]. cbn [exponent_of].
  assert ((e =? 101) || (e =? 69) = true) as -> by (apply orb_true_iff; rewrite !Z.eqb_eq; lia).
  assert (Hspan : span_digits (d :: ds) = (d :: ds, [])) by (apply span_digits_spec; by constructor).
  destruct Hs as [->|[->| ->]]; cbn [app].
  - rewrite sign_of_digits, Hspan by done. by eexists.
  - cbn [sign_of]. change (43 =? 45) with false. change (43 =? 43) with true. cbv iota. rewrite Hspan. by eexists.
  - cbn [sign_of]. change (45 =? 45) with true. cbv iota. rewrite Hspan. by eexists.
Qed.

(** [strtod] uses the whole text of a number. *)
Lemma jsonp_strtod_total t : real_text t → ∃ v, jsonp_strtod t = Ret v.
Proof.
  intros (ip & i & fp & ep & -> & Hi & Hf & He & _)%real_text_parts.
  assert (Hd : ∃ d, decimal_of (ip ++ fp ++ ep) = (d, [])).
  { assert (∃ sign ds, sign_of (ip ++ fp ++ ep) = (sign, ds ++ fp ++ ep) ∧ Forall is_digit ds) as (sign & ds & Es & Hds).
    { destruct Hi as [ds Hds|ds Hds]; apply digits_text_digits in Hds as [Hds Hn]; [|by exists true, ds].
      destruct ds as [|d ds]; [done|]. pose proof Hds as [Hd _]%Forall_cons.
      exists false, (d :: ds). split; [by apply sign_of_digits|done]. }
    unfold decimal_of. rewrite Es.
    assert (Hep : ∀ c r, ep = c :: r → digit c = false ∧ c ≠ 46).
    { intros c r ->. destruct He as [|He]; [done|]. inversion He; subst. unfold digit.
      destruct (decide (c = 69)) as [->|]; [done|]. destruct (decide (c = 101)) as [->|]; [done|lia]. }
    destruct (exponent_of_spec ep He) as (e & Ee).
    rewrite span_digits_app; [|done|].
    2:{ intros c r E. destruct Hf as [->|Hf]; [by apply (Hep c r)|]. inversion Hf; subst. by injection E as <-. }
    destruct Hf as [->|[d fs Hd Hfs]]; cbn [app].
    - destruct ep as [|c r]; [by eexists|]. rewrite (proj2 (Z.eqb_neq c 46)) by (by eapply Hep).
      rewrite Ee. by eexists.
    - rewrite Z.eqb_refl. change (d :: fs ++ ep) with ((d :: fs) ++ ep). rewrite (span_digits_app (d :: fs) ep); [rewrite Ee; by eexists|by constructor|].
      intros c r E. by eapply Hep. }
  destruct Hd as ([[sign m] e] & Hd). unfold jsonp_strtod, strtod. rewrite Hd. cbn [length].
  rewrite Z.sub_0_r, Z.eqb_refl. cbn [negb]. case_match; by eexists.
Qed.

Section sound.
Context {D : Type} {HS : Source D} {HL : SourceLaws D} {T : Tail}.
Abbreviation context := (context D).

Lemma digit_test c : char_byte c → l_isdigit (s8 c) = true → is_digit c.
Proof.
  intros Hc H. unfold char_byte in Hc. destruct (Z.ltb_spec c 0x80).
  - rewrite s8_ascii in H by lia. unfold l_isdigit in H. unfold is_digit. lia.
  - pose proof (s8_high c ltac:(lia)). unfold l_isdigit in H. lia.
Qed.

(** The part of a text that a loop over characters reads. *)
Lemma span_test (test : Z → bool) u :
  test fin = false → ∃ ds rest, u = ds ++ rest ∧ Forall (λ d, test (s8 d) = true) ds ∧ test (cur rest) = false.
Proof.
  intros Hfin. induction u as [|b u (ds & rest & -> & Hds & Hr)]; [by exists [], []|].
  destruct (test (s8 b)) eqn:E; [exists (b :: ds), rest; split_and!; [done|by constructor|done]|].
  exists [], (b :: ds ++ rest). by split_and!.
Qed.

Lemma digit_fin : l_isdigit fin = false.
Proof. by destruct fin_cases as [[-> _]|[-> _]]. Qed.

Lemma span_digits_text u :
  Forall char_byte u → ∃ ds rest, u = ds ++ rest ∧ Forall is_digit ds ∧ l_isdigit (cur rest) = false.
Proof.
  intros Hu. destruct (span_test l_isdigit u digit_fin) as (ds & rest & -> & Hds & Hr). exists ds, rest.
  split; [done|]. split; [|done]. apply Forall_app in Hu as [Hu _].
  rewrite Forall_forall in *. intros d Hd. apply digit_test; auto.
Qed.

(** An integer part, or none. *)
Definition no_integer (u : list Z) : Prop :=
  ∃ s r, u = s ++ r ∧ (s = [] ∨ s = [45]) ∧ (cur r =? 45) && bool_decide (s = []) = false ∧
    (l_isdigit (cur r) = false ∨ ∃ r', r = 48 :: r' ∧ l_isdigit (cur r') = true).

Lemma split_integer u :
  Forall char_byte u → (∃ c r, u = c :: r ∧ number_start c) →
  (∃ ip i rest, u = ip ++ rest ∧ int_text ip i ∧ l_isdigit (cur rest) = false) ∨ no_integer u.
Proof.
  intros Hu (c & r & -> & Hc).
  assert (Hdigits : ∀ v, Forall char_byte v →
    (∃ ds rest, v = ds ++ rest ∧ digits_text ds ∧ l_isdigit (cur rest) = false) ∨
    l_isdigit (cur v) = false ∨ ∃ r', v = 48 :: r' ∧ l_isdigit (cur r') = true).
  { intros v Hv. destruct (span_digits_text v Hv) as (ds & rest & -> & Hds & Hr).
    destruct ds as [|d ds]; [by right; left|]. apply Forall_cons in Hds as [Hd Hds].
    destruct (decide (d = 48)) as [->|Hd48].
    - destruct ds as [|d ds]; [left; exists [48], rest; split_and!; [done|constructor|done]|].
      right. right. exists (d :: ds ++ rest). split; [done|]. cbn [cur]. apply Forall_cons in Hds as [Hd' _].
      destruct (is_digit_byte d Hd') as (_ & _ & ? & _). done.
    - left. exists (d :: ds), rest. unfold is_digit in Hd. split; [done|]. split; [constructor; [lia|done]|done]. }
  destruct (decide (c = 45)) as [->|H45].
  - apply Forall_cons in Hu as [_ Hu]. destruct (Hdigits r Hu) as [(ds & rest & -> & Hds & Hr)|Hr].
    + left. exists (45 :: ds), (- number ds), rest. split; [done|]. split; [by constructor|done].
    + right. exists [45], r. split; [done|]. split; [by right|]. split; [|done].
      rewrite bool_decide_eq_false_2 by done. apply andb_false_r.
  - destruct (Hdigits (c :: r) Hu) as [(ds & rest & E & Hds & Hr)|Hr].
    + left. exists ds, (number ds), rest. split; [done|]. split; [by constructor|done].
    + right. exists [], (c :: r). split; [done|]. split; [by left|]. split; [|done]. cbn [cur].
      unfold number_start in Hc. rewrite s8_ascii, (proj2 (Z.eqb_neq c 45)) by lia. done.
Qed.

(** A token of the grammar was read, or there is none. *)
Definition lexed (x : context) (u : list Z) (x' : context) : Prop :=
  (∃ t kind v rest, u = t ++ rest ∧ lexeme t kind v ∧ scanned x kind v rest x') ∨
  (token x' = TOKEN_INVALID ∧ values x' = values x ∧ idle x').

Lemma gave_up_lexed (x : context) u x1 x' :
  gave_up x1 x' → token x1 = TOKEN_INVALID → values x1 = values x → lexed x u x'.
Proof. intros (Ht & Hv & Hi) Ht1 Hv1. right. split_and!; congruence || done. Qed.

Lemma gave_up_refl (x : context) : idle x → gave_up x x.
Proof. done. Qed.

Lemma gave_up_trans (x y z : context) : gave_up x y → gave_up y z → gave_up x z.
Proof. intros (Ht & Hv & _) (Ht2 & Hv2 & Hi). split_and!; congruence || done. Qed.

Lemma unget_none x l u :
  look x l u → wpr (_ ← lex_unget_unsave (cur u); mret (None : option Z)) x (λ r x', r = None ∧ gave_up x x').
Proof.
  intros Hx. eapply wp_seq; [by apply (lex_unget_unsave_spec x l u)|]. intros [] x1 (Hx1 & Hk). apply wp_ret.
  split; [done|]. eapply keeps_idle; [done|]. by eapply at_idle.
Qed.

(** The result of a routine that reads on: what it read, or nothing. *)
Definition reads_on (x : context) (l u : list Z) (P : list Z → Prop) (r : option Z) (x' : context) : Prop :=
  match r with
  | Some c => ∃ t rest, u = t ++ rest ∧ P t ∧ c = cur rest ∧ keeps x x' ∧ look x' (l ++ t) rest ∧ l_isdigit (cur rest) = false
  | None => gave_up x x'
  end.

Lemma scan_fraction_sound fuel x l u :
  look x l u → l_isdigit (cur u) = false → Forall char_byte u → (length u ≤ fuel)%nat →
  wpr (scan_fraction fuel (cur u)) x (reads_on x l u (λ t, (t = [] ∧ cur u ≠ 46) ∨ frac_text t)).
Proof.
  intros Hx Hd Hu Hf. destruct (decide (cur u = 46)) as [E|E].
  2:{ eapply wp_mono; [by apply (scan_fraction_none fuel x l u)|]. intros [r| |] x' H; [|done..].
      destruct H as (-> & Hk & Hx'). exists [], u. split_and!; try done. by left. }
  destruct u as [|b r]; [cbn [cur] in E; destruct fin_cases as [[E' _]|[E' _]]; by rewrite E' in E|].
  pose proof Hu as [Hb Hr]%Forall_cons. cbn [cur] in E. pose proof (s8_is b 46) as E'.
  rewrite E, Z.eqb_refl in E'. symmetry in E'. rewrite Z.eqb_eq in E'.
  assert (b = 46) as -> by (apply E'; unfold is_byte, char_byte in *; lia). clear E' E.
  destruct (span_digits_text r Hr) as (ds & rest & -> & Hds & Hrest). destruct ds as [|d ds].
  - cbn [cur app] in *. unfold scan_fraction. change (s8 46 =? 46) with true. cbv iota. destruct Hx as [_ Hx].
    eapply wp_seq; [by apply (lex_get_spec x (l ++ [46]) (Some 46) rest)|]. intros c x1 (-> & Hk & Hx1).
    rewrite Hrest. cbn [negb]. apply (wp_seq _ _ _ (λ _ x', keeps x1 x' ∧ idle x')).
    + destruct rest as [|c r]; cbn [cur].
      * unfold lex_unget, stream_unget. rewrite fin_state. apply wp_ret. split; [done|]. by eapply at_idle.
      * destruct Hx1 as [Hc Hx1]. eapply wp_mono; [apply (lex_unget_spec x1 (l ++ [46]) c r Hx1)|].
        { destruct Hx as [_ _ _ Hl]. simpl in Hl. lia. }
        intros [[]| |] x2 H2; [|done..]. destruct H2 as [H2 Hk2]. split; [done|]. by eapply at_idle.
    + intros [] x2 (Hk2 & Hi). apply wp_ret. eapply keeps_idle; [by eapply keeps_trans|done].
  - pose proof Hds as [Hd1 Hd2]%Forall_cons. assert (Ht : frac_text (46 :: d :: ds)) by by constructor.
    eapply wp_mono; [apply (scan_fraction_spec fuel x l (46 :: d :: ds) rest); [done|done|done|]|].
    { simpl in *. rewrite length_app in Hf. lia. }
    intros [r| |] x' H; [|done..]. destruct H as (-> & Hk & Hx'). exists (46 :: d :: ds), rest. split_and!; try done. by right.
Qed.

Lemma exponent_end fuel x l u :
  look x l u → Forall char_byte u → (length u ≤ fuel)%nat →
  wpr (if negb (l_isdigit (cur u)) then _ ← lex_unget_unsave (cur u); mret None
       else c ← lex_get_save; c ← get_save_while l_isdigit fuel c; mret (Some c)) x
    (reads_on x l u (λ t, ∃ d ds, t = d :: ds ∧ is_digit d ∧ Forall is_digit ds)).
Proof.
  intros Hx Hu Hf. destruct (span_digits_text u Hu) as (ds & rest & -> & Hds & Hrest). destruct ds as [|d ds].
  - cbn [app]. rewrite Hrest. cbn [negb]. eapply wp_mono; [by apply (unget_none x l rest)|].
    intros [r| |] x' H; [|done..]. by destruct H as [-> H].
  - apply Forall_cons in Hds as [Hd Hds]. cbn [app cur] in *. destruct (is_digit_byte d Hd) as (_ & _ & E & _).
    rewrite E. cbn [negb].
    eapply wp_mono; [apply (look_digits fuel x l d ds rest); [done|done|done|]|].
    { simpl in Hf. rewrite length_app in Hf. lia. }
    intros [r| |] x' H; [|done..]. destruct H as (-> & Hk & Hx'). exists (d :: ds), rest. split_and!; eauto.
Qed.

Lemma scan_exponent_sound fuel x l u :
  look x l u → l_isdigit (cur u) = false → Forall char_byte u → (length u ≤ fuel)%nat →
  wpr (scan_exponent fuel (cur u)) x
    (reads_on x l u (λ t, (t = [] ∧ (cur u =? 69) || (cur u =? 101) = false) ∨ exp_text t)).
Proof.
  intros Hx Hd Hu Hf. unfold scan_exponent. destruct ((cur u =? 69) || (cur u =? 101)) eqn:E.
  2:{ apply wp_ret. exists [], u. rewrite app_nil_r. split_and!; try done. by left. }
  destruct u as [|e r]; [cbn [cur] in E; destruct fin_cases as [[E' _]|[E' _]]; by rewrite E' in E|].
  pose proof Hu as [Hb Hr]%Forall_cons. cbn [cur] in E.
  rewrite !s8_is in E by (unfold is_byte, char_byte in *; lia).
  assert (He : e = 69 ∨ e = 101) by (apply orb_true_iff in E; rewrite !Z.eqb_eq in E; done). clear E.
  eapply wp_seq; [by apply (look_next x l e r)|]. intros c x1 (-> & Hk & Hx1).
  apply (wp_seq _ _ _ (λ c x', ∃ sign v, r = sign ++ v ∧ (sign = [] ∨ sign = [43] ∨ sign = [45]) ∧ c = cur v ∧
    keeps x1 x' ∧ look x' ((l ++ [e]) ++ sign) v)).
  - destruct ((cur r =? 43) || (cur r =? 45)) eqn:Es.
    + destruct r as [|s v]; [cbn [cur] in Es; destruct fin_cases as [[E' _]|[E' _]]; by rewrite E' in Es|].
      apply Forall_cons in Hr as [Hs _]. cbn [cur] in Es. rewrite !s8_is in Es by (unfold is_byte, char_byte in *; lia).
      eapply wp_mono; [by apply (look_next x1 (l ++ [e]) s v)|]. intros [c| |] x2 H2; [|done..].
      destruct H2 as (-> & Hk2 & Hx2). exists [s], v. split_and!; try done.
      apply orb_true_iff in Es. rewrite !Z.eqb_eq in Es. destruct Es as [->| ->]; auto.
    + apply wp_ret. exists [], r. rewrite app_nil_r. split_and!; auto using keeps_refl.
  - intros c x2 (sign & v & -> & Hs & -> & Hk2 & Hx2). apply Forall_app in Hr as [_ Hv].
    eapply wp_mono; [apply (exponent_end fuel x2 _ v Hx2 Hv); simpl in Hf; rewrite length_app in Hf; lia|].
    intros [[c|]| |] x3 H3; [| |done..].
    + destruct H3 as (t & rest & -> & (d & ds & -> & Hd1 & Hds) & -> & Hk3 & Hx3 & Hr3).
      exists (e :: sign ++ d :: ds), rest. rewrite <- !app_assoc in Hx3. cbn [app] in *. rewrite <- app_assoc.
      split_and!; try done; [right; by constructor|eapply keeps_trans; [done|]; by eapply keeps_trans].
    + eapply keeps_gave_up; [eapply keeps_trans; [exact Hk|exact Hk2]|done].
Qed.

(** *** Numbers *)

Lemma saved_text_spec x l prev rest {A} (f : list Z → SM context A) Q :
  at_ x l prev rest → wp (f l) x Q → wp (saved_string ≫= f) x Q.
Proof.
  intros Hx HQ. apply (wp_seq _ _ _ (λ s x', s = l ∧ x' = x)).
  - eapply saved_string_spec; [done|by destruct Hx|done].
  - by intros s x' [-> ->].
Qed.

Lemma scan_integer_sound x t i u :
  look x t u → int_text t i →
  wpr (scan_integer (cur u)) x (λ ok x',
    (in_range i ∧ scanned x TOKEN_INTEGER (Some (VInteger i)) u x') ∨ gave_up x x').
Proof.
  intros Hx Ht. destruct (decide (- 2 ^ 63 ≤ i < 2 ^ 63)) as [Hi|Hi].
  { eapply wp_mono; [by apply (scan_integer_spec x t i u)|]. intros [ok| |] x' H; [|done..]. left. split; [done|by destruct H]. }
  unfold scan_integer. eapply wp_seq; [by apply (lex_unget_unsave_spec x t u)|]. intros [] x1 [Hx1 Hk].
  eapply saved_text_spec; [exact Hx1|]. rewrite (strtoll_text t i) by done. unfold LLONG_MAX, LLONG_MIN.
  assert (∃ v, (if 2 ^ 63 - 1 <? i then (2 ^ 63 - 1, true, Z.of_nat (length t))
    else if i <? - 2 ^ 63 then (- 2 ^ 63, true, Z.of_nat (length t)) else (i, false, Z.of_nat (length t))) =
    (v, true, Z.of_nat (length t))) as (v & ->).
  { repeat case_bool; try lia; by eexists. }
  apply error_then; [by eapply at_idle|]. intros x2 Hx2. right. by eapply keeps_gave_up.
Qed.

Lemma real_end_sound x t u :
  look x t u → real_text t →
  wpr (_ ← lex_unget_unsave (cur u);
       text ← saved_string;
       v ← liftS (jsonp_strtod text);
       match v with
       | None => _ ← error_set (str "real number overflow"); mret false
       | Some v => _ ← put_token TOKEN_REAL; _ ← put_value (VReal v); mret true
       end) x (λ ok x', (∃ r, jsonp_strtod t = Ret (Some r) ∧ scanned x TOKEN_REAL (Some (VReal r)) u x') ∨ gave_up x x').
Proof.
  intros Hx Ht. destruct (jsonp_strtod_total t Ht) as ([r|] & E).
  - eapply wp_mono; [apply (scan_real_end x t r u); [done|by apply real_text_bytes|done]|].
    intros [ok| |] x' H; [|done..]. left. exists r. by destruct H.
  - eapply wp_seq; [by apply (lex_unget_unsave_spec x t u)|]. intros [] x1 [Hx1 Hk].
    eapply saved_text_spec; [exact Hx1|]. eapply wp_liftS_bind; [exact E|].
    apply error_then; [by eapply at_idle|]. intros x2 Hx2. right. by eapply keeps_gave_up.
Qed.

Lemma scan_real_sound fuel x ip i u :
  look x ip u → int_text ip i → l_isdigit (cur u) = false → Forall char_byte u → (length u ≤ fuel)%nat →
  cur u = 46 ∨ cur u = 69 ∨ cur u = 101 →
  wpr (scan_real fuel (cur u)) x (λ ok x',
    (∃ t r rest, u = t ++ rest ∧ real_text (ip ++ t) ∧ jsonp_strtod (ip ++ t) = Ret (Some r) ∧
      scanned x TOKEN_REAL (Some (VReal r)) rest x') ∨ gave_up x x').
Proof.
  intros Hx Hip Hd Hu Hf Hc. unfold scan_real. eapply wp_seq; [by apply (scan_fraction_sound fuel x ip u)|].
  intros [c|] x1 H1; [|apply wp_ret; by right].
  destruct H1 as (fp & v & -> & Hfp & -> & Hk1 & Hx1 & Hd1). apply Forall_app in Hu as [_ Hv].
  eapply wp_seq; [apply (scan_exponent_sound fuel x1 (ip ++ fp) v); [done|done|done|rewrite length_app in Hf; lia]|].
  intros [c|] x2 H2; [|apply wp_ret; right; by eapply keeps_gave_up].
  destruct H2 as (ep & rest & -> & Hep & -> & Hk2 & Hx2 & Hd2). rewrite <- app_assoc in Hx2.
  assert (Hreal : real_text (ip ++ fp ++ ep)).
  { destruct Hfp as [[-> Hn46]|Hfp], Hep as [[-> Hne]|Hep].
    - cbn [app] in *. apply orb_false_iff in Hne as [H1 H2]. rewrite Z.eqb_neq in H1, H2. lia.
    - by eapply R_exp.
    - rewrite app_nil_r. by eapply R_frac.
    - by eapply R_both. }
  eapply wp_mono; [by apply (real_end_sound x2 (ip ++ fp ++ ep) rest)|]. intros [ok| |] x3 H3; [|done..].
  assert (Hk : keeps x x2) by by eapply keeps_trans. destruct H3 as [(r & Hr & H3)|H3].
  - left. exists (fp ++ ep), r, rest. split; [by rewrite app_assoc|]. split; [done|]. split; [done|].
    eapply scanned_outside; [|exact H3]. by apply keeps_outside.
  - right. by eapply keeps_gave_up.
Qed.

Lemma no_integer_sound fuel x u :
  look x [] u → no_integer u →
  wpr (lex_scan_number fuel (cur u)) x (λ _ x', token x' = TOKEN_INVALID ∧ values x' = values x ∧ idle x').
Proof.
  intros Hx (s & r & -> & Hs & Hsign & Hd). unfold lex_scan_number. apply wp_put_token_bind.
  set (x0 := with_token TOKEN_INVALID x).
  assert (Hx0 : look x0 [] (s ++ r)).
  { destruct (s ++ r); [by apply at_with_token|]. destruct Hx. split; [done|by apply at_with_token]. }
  apply (wp_seq _ _ _ (λ c x', c = cur r ∧ keeps x0 x' ∧ look x' s r)).
  { destruct Hs as [->| ->]; cbn [app] in *.
    - rewrite bool_decide_eq_true_2, andb_true_r in Hsign by done. rewrite Hsign. by apply wp_ret.
    - cbn [cur]. change (s8 45 =? 45) with true. cbv iota. by apply (look_next x0 [] 45 r). }
  intros c x1 (-> & Hk & Hx1).
  assert (Hgoal : ∀ x', gave_up x1 x' → token x' = TOKEN_INVALID ∧ values x' = values x ∧ idle x').
  { intros x' Hx'. destruct (keeps_gave_up _ _ _ Hk Hx') as (Ht & Hv & Hi). by split_and!. }
  apply (wp_seq _ _ _ (λ i x', i = None ∧ gave_up x1 x')); [|intros i x' (-> & Hx'); apply wp_ret; by apply Hgoal].
  destruct Hd as [Hd|(r' & -> & Hd)].
  - rewrite Hd. assert ((cur r =? 48) = false) as ->.
    { apply Z.eqb_neq. intros E. rewrite E in Hd. done. }
    by apply unget_none with (l := s).
  - cbn [cur]. change (s8 48 =? 48) with true. cbv iota.
    eapply wp_seq; [by apply (look_next x1 s 48 r')|]. intros c x2 (-> & Hk2 & Hx2). rewrite Hd.
    eapply wp_mono; [by apply (unget_none x2 (s ++ [48]) r')|]. intros [i| |] x3 H3; [|done..].
    destruct H3 as [-> H3]. split; [done|]. by eapply keeps_gave_up.
Qed.

Lemma lex_scan_number_sound fuel x c u :
  look x [] (c :: u) → number_start c → Forall char_byte (c :: u) → (length (c :: u) ≤ fuel)%nat →
  wpr (lex_scan_number fuel (cur (c :: u))) x (λ _ x', lexed x (c :: u) x').
Proof.
  intros Hx Hc Hu Hf. destruct (split_integer (c :: u) Hu) as [(ip & i & rest & E & Hip & Hd)|Hno]; [by exists c, u| |].
  2:{ eapply wp_mono; [by apply no_integer_sound|]. intros [ok| |] x' H; [|done..]. by right. }
  rewrite E in *. apply Forall_app in Hu as [_ Hu]. rewrite length_app in Hf.
  unfold lex_scan_number. apply (scan_number_start ip i fuel x rest
    (λ c, if negb (c =? 46) && negb (c =? 69) && negb (c =? 101) then scan_integer c else scan_real fuel c)); try done; [lia|].
  intros x1 Ho Ht1 Hx1.
  assert (Hgave : ∀ x', gave_up x1 x' → lexed x (ip ++ rest) x').
  { intros x' Hx'. eapply gave_up_lexed; [done|done|apply Ho]. }
  destruct (negb (cur rest =? 46) && negb (cur rest =? 69) && negb (cur rest =? 101)) eqn:Ee.
  - eapply wp_mono; [by apply (scan_integer_sound x1 ip i rest)|]. intros [ok| |] x2 H2; [|done..].
    destruct H2 as [[Hi H2]|H2]; [|by apply Hgave].
    left. exists ip, TOKEN_INTEGER, (Some (VInteger i)), rest. split; [done|]. split; [by constructor|]. by eapply scanned_outside.
  - eapply wp_mono; [apply (scan_real_sound fuel x1 ip i rest); try done; [lia|]|].
    { rewrite !andb_false_iff, !negb_false_iff, !Z.eqb_eq in Ee. tauto. }
    intros [ok| |] x2 H2; [|done..]. destruct H2 as [(t & r & rest' & -> & Ht & Hr & H2)|H2]; [|by apply Hgave].
    left. exists (ip ++ t), TOKEN_REAL, (Some (VReal r)), rest'. split; [by rewrite app_assoc|]. split; [by constructor|].
    by eapply scanned_outside.
Qed.
End sound.

(** ** Tokens *)

Lemma ws_input w u : ws w → input (w ++ u) → input u.
Proof. intros Hw. apply input_ascii. eapply Forall_impl; [exact Hw|]. intros b [->|[->|[->| ->]]]; lia. Qed.

Lemma chars_input t s r : chars_text t s → input (t ++ r) → input r.
Proof.
  induction 1 as [|t s ts ss Ht Hts IH]; [done|]. rewrite <- app_assoc. intros H. apply IH.
  destruct Ht as [v Hv H1 H2 H3|c v Hin|ds v Hds Hv H0|ds1 ds2 v1 v2 H1 H2 _ _].
  - eapply raw_input; [|exact H]. by constructor.
  - eapply raw_input; [|exact H]. by eapply W_short.
  - eapply raw_input; [|exact H]. by eapply W_unicode.
  - apply (raw_input (92 :: 117 :: ds2)); [by eapply W_unicode|]. apply (raw_input (92 :: 117 :: ds1)); [by eapply W_unicode|].
    cbn [app] in *. by rewrite <- app_assoc in H.
Qed.

Lemma digits_plain ds : Forall is_digit ds → Forall (λ b, 0 < b < 0x80 ∧ b ≠ 92) ds.
Proof. intros H. eapply Forall_impl; [exact H|]. intros b Hb. unfold is_digit in Hb. simpl. lia. Qed.

Lemma int_plain t i : int_text t i → Forall (λ b, 0 < b < 0x80 ∧ b ≠ 92) t.
Proof.
  destruct 1 as [ds Hd|ds Hd]; apply digits_text_digits in Hd as [Hd _]; apply digits_plain in Hd; [done|].
  by constructor.
Qed.

Lemma real_plain t : real_text t → Forall (λ b, 0 < b < 0x80 ∧ b ≠ 92) t.
Proof.
  intros (ip & i & fp & ep & -> & Hi & Hf & He & _)%real_text_parts. rewrite !Forall_app.
  split; [by eapply int_plain|]. split.
  - destruct Hf as [->|[d ds Hd Hds]]; [done|]. apply digits_plain in Hds. unfold is_digit in Hd.
    constructor; [lia|]. constructor; [lia|done].
  - destruct He as [->|[e sign d ds He Hs Hd Hds]]; [done|]. apply digits_plain in Hds. unfold is_digit in Hd.
    constructor; [lia|]. apply Forall_app. split; [|constructor; [lia|done]].
    destruct Hs as [->|[->| ->]]; repeat (apply Forall_cons; split; [lia|]); done.
Qed.

Lemma punctuation_cases c : is_punctuation c = true → c = 123 ∨ c = 125 ∨ c = 91 ∨ c = 93 ∨ c = 58 ∨ c = 44.
Proof. unfold is_punctuation. rewrite !orb_true_iff, !Z.eqb_eq. lia. Qed.

Lemma lexeme_input t kind v r : lexeme t kind v → input (t ++ r) → input r.
Proof.
  destruct 1 as [t s Ht|t i Ht Hi|t d Ht Hd| | | |c Hc].
  - cbn [app]. rewrite <- app_assoc. intros H. apply (input_ascii [34]) in H; [|repeat constructor; lia].
    apply (chars_input t s) in H; [|done]. apply (input_ascii [34]) in H; [done|repeat constructor; lia].
  - apply input_ascii. by eapply int_plain.
  - apply input_ascii. by eapply real_plain.
  - apply input_ascii. vm_compute. repeat constructor; congruence.
  - apply input_ascii. vm_compute. repeat constructor; congruence.
  - apply input_ascii. vm_compute. repeat constructor; congruence.
  - apply input_ascii. apply punctuation_cases in Hc. constructor; [lia|done].
Qed.

Section sound.
Context {D : Type} {HS : Source D} {HL : SourceLaws D} {T : Tail}.
Abbreviation context := (context D).

Lemma lexed_keeps (x x1 : context) u x' : keeps x x1 → lexed x1 u x' → lexed x u x'.
Proof.
  intros Hk [(t & kind & v & rest & E & Ht & H)|(Ht & Hv & Hi)].
  - left. exists t, kind, v, rest. split; [done|]. split; [done|]. eapply scanned_outside; [|done]. by apply keeps_outside.
  - right. destruct Hk as (_ & _ & _ & Hk). split_and!; congruence || done.
Qed.

Lemma attempt_malloc n (x : context) :
  0 < n → wpr (attempt (lift (jsonp_malloc n))) x (λ r x', r = Some tt ∧ x' = x).
Proof.
  intros Hn. apply wp_attempt. unfold jsonp_malloc, wp, lift, malloc. intros w Hw.
  rewrite (proj2 (Z.eqb_neq _ _)), Hw, (proj2 (Z.leb_le _ _)) by lia. split; [|done]. intros i. apply Hw.
Qed.

Lemma lex_scan_string_sound fuel (x : context) u :
  at_ x [34] (Some 34) u → input u → (length u ≤ fuel)%nat →
  wpr (lex_scan_string fuel) x (λ _ x', lexed x (34 :: u) x').
Proof.
  intros Hx Hu Hf. unfold lex_scan_string. apply wp_put_value_bind, wp_put_token_bind.
  eapply (at_with_value (VString None)), (at_with_token TOKEN_INVALID) in Hx.
  set (x0 := with_token _ _) in *.
  eapply wp_seq; [by apply (lex_get_save_spec x0 [34] (Some 34) u)|]. intros c x1 (-> & Hk1 & Hx1).
  assert (Hgave : ∀ x', gave_up x1 x' → lexed x (34 :: u) x').
  { intros x' Hx'. eapply gave_up_lexed; [exact Hx'|by destruct Hk1 as (-> & _)|by destruct Hk1 as (_ & _ & _ & ->)]. }
  apply wp_bind. eapply wp_mono; [apply (scan_chars_raw (length u) u fuel x1 [34]); done|].
  intros [[]| |] x2 H2; [| |done..]; [|apply wp_ret; by apply Hgave].
  destruct H2 as (t & rest & -> & Ht & Hr & Hk2 & Hx2). cbn [negb]. apply wp_get_bind.
  destruct Hx2 as [_ Hx2]. pose proof Hx2 as [Hh _ _ _]. pose proof (holds_length _ _ Hh) as Hlen.
  rewrite !length_app in Hlen. simpl in Hlen.
  eapply wp_seq; [apply attempt_malloc; lia|]. intros r x' (-> & ->).
  apply (wp_saved_block x2 _ _ _ Hh). intros a Ha. set (size := sb_length (saved_text x2) + 1).
  assert (Ha' : starts a ([34] ++ t ++ 34 :: [0])) by (by rewrite <- !app_assoc in Ha).
  destruct (unescape_raw (length t) t (Z.to_nat size) a size [34] [0] [] ltac:(lia) Ht Ha') as [(s & E & Hs)|(msg & E)];
    [unfold size; simpl; lia|unfold size; lia| |]; (eapply wp_liftS_bind; [exact E|]).
  - simpl app. eapply wp_liftS_bind.
    { unfold put_char. pose proof (chars_text_length t s Hs). rewrite (proj2 (Z.ltb_lt _ _)) by (unfold size; lia). done. }
    apply wp_put_value_bind, wp_put_token. left. exists (34 :: t ++ [34]), TOKEN_STRING, (Some (VString (Some s))), rest.
    split; [cbn [app]; by rewrite <- app_assoc|]. split; [by constructor|]. split; [done|]. split; [by intros v [= <-]|]. split.
    + eapply outside_trans; [by apply (keeps_outside x0 x1)|]. by apply (keeps_outside x1 x2).
    + exists (([34] ++ t) ++ [34]), (Some 34). by apply at_with_token, at_with_value.
  - eapply wp_mono; [apply wp_error_set; by eapply at_idle|]. intros [[]| |] x3 H3; [|done..].
    apply Hgave. by eapply keeps_gave_up.
Qed.

(** *** Words and what is no token *)

Lemma scan_word_sound fuel (x : context) c u :
  look x [] (c :: u) → Forall char_byte (c :: u) → l_isalpha (s8 c) = true → (length (c :: u) ≤ fuel)%nat →
  wpr (scan_word fuel) x (λ _ x', lexed x (c :: u) x').
Proof.
  intros Hx Hu Hc Hf. destruct (span_test l_isalpha (c :: u)) as (t & rest & E & Ht & Hr).
  { by destruct fin_cases as [[-> _]|[-> _]]. }
  assert (Hne : t ≠ []). { intros ->. cbn [app] in E. subst rest. cbn [cur] in Hr. congruence. }
  assert (Ht' : Forall (λ c, char_byte c ∧ l_isalpha (s8 c) = true) t).
  { apply Forall_and. split; [|done]. rewrite E in Hu. by apply Forall_app in Hu as [? _]. }
  rewrite E in *. rewrite length_app in Hf.
  eapply wp_mono; [apply (scan_word_spec t fuel x rest); try done; destruct t; simpl in *; [done|lia]|].
  intros [[]| |] x' H; [|done..]. destruct H as (Ht1 & Hv1 & Ho & Hr1). unfold word_token in Ht1.
  repeat case_bool_decide.
  - left. exists t, TOKEN_TRUE, None, rest. subst t. by split_and!; [|constructor|split_and!].
  - left. exists t, TOKEN_FALSE, None, rest. subst t. by split_and!; [|constructor|split_and!].
  - left. exists t, TOKEN_NULL, None, rest. subst t. by split_and!; [|constructor|split_and!].
  - right. split; [done|]. split; [apply Ho|]. destruct Hr1 as (l & prev & Hat). by eapply at_idle.
Qed.

Lemma save_cached_spec n : ∀ (x : context) l front back vs,
  feeding (stream x) front back vs → holds (saved_text x) l → Forall char_byte l →
  Z.of_nat (length l + length back) < LIMIT → (length back < n)%nat →
  wpr (save_cached n) x (λ _ x', gave_up x x').
Proof.
  induction n as [|n IH]; intros x l front back vs Hx Hh Hl Hlim Hn; [lia|]. cbn [save_cached].
  apply wp_get_stream. pose proof Hx as [Hst Hpos Hbuf Hsize Hroom Hback Hsc Htx Hup]. destruct back as [|b back].
  - rewrite app_nil_r in Hbuf. eapply wp_liftS_bind; [rewrite Hpos; by apply (starts_get_middle _ front 0 [])|].
    rewrite Z.eqb_refl. apply wp_ret. split_and!; try done. exists l. split; [done|]. by apply char_bytes_nonzero.
  - apply Forall_cons in Hback as [Hb Hback]. simpl in Hlim, Hn, Hroom.
    eapply wp_liftS_bind.
    { rewrite Hpos. apply (starts_get_middle _ front b (back ++ [0])). by rewrite <- app_assoc in Hbuf. }
    rewrite (proj2 (Z.eqb_neq b 0)) by (unfold char_byte in Hb; lia).
    apply (wp_seq _ _ _ (λ _ x1, stream x1 = stream x ∧ token x1 = token x ∧ values x1 = values x ∧ holds (saved_text x1) (l ++ [b]))).
    + unfold lex_save. apply wp_ignore, wp_on_saved. unfold strbuffer_append_byte.
      rewrite u8_s8 by (unfold char_byte in Hb; lia). eapply wp_mono; [by apply holds_append|].
      intros [[]| |] sb Hsb; [done|exfalso|done]. destruct Hsb as [_ Hbig].
      unfold LIMIT, STRBUFFER_SIZE_MAX in *. simpl in Hbig. byte_arith.
    + intros [] x1 (Es & Et & Ev & Hh1). apply wp_put_stream_bind. set (x2 := with_stream _ x1).
      eapply wp_mono; [apply (IH x2 (l ++ [b]) (front ++ [b]) back vs)|].
      * unfold x2. split; simpl; try done; try (rewrite length_app; simpl; lia).
        by rewrite <- (app_assoc front [b]).
      * done.
      * apply Forall_app. split; [done|by constructor].
      * rewrite length_app. simpl. lia.
      * lia.
      * intros [[]| |] x3 H3; [|done..]. destruct H3 as (Ht3 & Hv3 & Hi3). unfold x2 in *. simpl in *.
        split_and!; congruence || done.
Qed.

Lemma lex_save_cached_sound (x : context) l b u :
  at_ x l (Some b) u → wpr (_ ← lex_save_cached; put_token TOKEN_INVALID) x
    (λ _ x', token x' = TOKEN_INVALID ∧ values x' = values x ∧ idle x').
Proof.
  intros [Hh Hb [(_ & ? & _)|(front & back & vs & Hf & E & _)] Hl]; [done|].
  eapply wp_seq.
  - unfold lex_save_cached. apply (save_cached_spec 6 x l front back vs); try done.
    + rewrite E, length_app in Hl. lia.
    + destruct Hf as [_ _ _ _ Hroom _ _ _ _]. lia.
  - intros [] x1 (_ & Hv & Hi). by apply wp_put_token.
Qed.

Lemma lex_scan_character fuel (x : context) c u :
  peeked x (c :: u) → input (c :: u) → (length (c :: u) ≤ fuel)%nat →
  wpr (scan_token fuel (cur (c :: u))) x (λ _ x', lexed x (c :: u) x').
Proof.
  intros Hx Hu Hf. pose proof (clean_bytes _ (proj1 Hu)) as Hb. pose proof Hb as [Hc _]%Forall_cons.
  cbn [cur]. apply (scan_token_save c u fuel x); [done|]. intros x1 Hk Hx1.
  eapply wp_mono with (P := λ o x', match o with Ret _ => lexed x1 (c :: u) x' | _ => False end).
  2:{ intros [[]| |] x' H; [|done..]. by eapply lexed_keeps. }
  assert (Hlow : 0 ≤ s8 c → s8 c = c).
  { intros H0. unfold char_byte in Hc. destruct (Z.ltb_spec c 0x80); [apply s8_ascii; lia|].
    pose proof (s8_high c ltac:(lia)). lia. }
  destruct (is_punctuation (s8 c)) eqn:Hp.
  { pose proof (punctuation_cases _ Hp) as Hpc. assert (Ec : s8 c = c) by (apply Hlow; lia).
    rewrite Ec in *. apply wp_put_token. left.
    exists [c], c, None, u. split; [done|]. split; [by constructor|]. split; [done|]. split; [done|]. split; [done|].
    destruct Hx1 as [_ Hx1]. exists [c], (Some c). by apply at_with_token. }
  destruct (Z.eqb_spec (s8 c) 34) as [Hq|Hq].
  { assert (c = 34) as -> by (rewrite Hlow in Hq; lia). destruct Hx1 as [_ Hx1].
    apply lex_scan_string_sound; [done| |simpl in Hf; lia]. eapply (input_ascii [34]); [|exact Hu]. repeat constructor; lia. }
  destruct (l_isdigit (s8 c) || (s8 c =? 45)) eqn:Hn.
  { assert (Hc' : number_start c).
    { unfold number_start. apply orb_true_iff in Hn. unfold l_isdigit in Hn. rewrite Z.eqb_eq in Hn.
      assert (Ec : s8 c = c) by (apply Hlow; lia). lia. }
    eapply wp_seq; [by apply (lex_scan_number_sound fuel x1 c u)|]. intros ok x2 H2. by apply wp_ret. }
  destruct (l_isalpha (s8 c)) eqn:Ha.
  { by apply scan_word_sound. }
  destruct Hx1 as [_ Hx1]. eapply wp_mono; [by eapply lex_save_cached_sound|]. intros [[]| |] x' H; [|done..]. by right.
Qed.

(** The next token and what is behind it, or none. *)
Definition at_token (x : context) (u : list Z) : Prop :=
  (∃ w t kind v rest, u = w ++ t ++ rest ∧ ws w ∧ lexeme t kind v ∧ seen x kind v rest ∧ input rest) ∨
  (idle x ∧ (token x = TOKEN_INVALID ∨ token x = TOKEN_EOF ∧ ws u ∧ junk = [])).

Lemma lex_scan_sound fuel (x : context) u :
  ready x u → input u → (length u ≤ fuel)%nat →
  wpr (lex_scan fuel) x (λ k x', k = token x' ∧ values x' = values x ∧ at_token x' u).
Proof.
  intros Hx Hu Hf. destruct (span_test is_space u) as (w & v & -> & Hw & Hv).
  { by destruct fin_cases as [[-> _]|[-> _]]. }
  assert (Hws : ws w).
  { pose proof (clean_bytes _ (proj1 Hu)) as [Hb _]%Forall_app. unfold ws. rewrite Forall_forall in *. intros b Hin.
    specialize (Hw b Hin). specialize (Hb b Hin). simpl in Hw. unfold is_space in Hw.
    rewrite !s8_is in Hw by (unfold is_byte, char_byte in *; lia). rewrite !orb_true_iff, !Z.eqb_eq in Hw.
    unfold white. tauto. }
  rewrite length_app in Hf. destruct v as [|c v].
  - rewrite app_nil_r in *. eapply wp_mono; [apply (lex_scan_end w fuel x); [done|done|lia]|].
    intros [k| |] x' H; [|done..]. destruct H as (-> & Ht & _ & [_ Ho] & (l & prev & Hr)). split; [done|]. split; [done|].
    right. split; [by eapply at_idle|]. rewrite Ht. unfold end_token. destruct junk eqn:Ej; [by right|by left].
  - pose proof (ws_input w _ Hws Hu) as Hcv.
    apply (lex_scan_start w (c :: v) fuel x (λ c, _ ← scan_token fuel c; x ← get; mret (token x))); try done; [lia|].
    intros x1 Ho Hx1. eapply wp_seq; [apply (lex_scan_character fuel x1 c v); [done|done|lia]|].
    intros [] x2 [(t & kind & val & rest & E & Ht & H2)|(Ht & Hval & Hi)]; apply wp_get_bind, wp_ret; (split; [done|]).
    + destruct (scanned_seen _ _ _ _ _ H2) as [Hs [_ Hvs]]. split; [by rewrite Hvs, (proj2 Ho)|]. left.
      exists w, t, kind, val, rest. rewrite E in *. split_and!; try done. by eapply lexeme_input.
    + split; [by rewrite Hval, (proj2 Ho)|]. right. split; [done|by left].
Qed.
End sound.
