(* ===== verification/JAccept.v ===== *)
(** * Every text: values

    What the parser does with any text: it builds the value of a text of the
    grammar, or it fails and every value that it had begun to build is freed. *)

From S2P Require Import Prelude CModel JBase JUtf JStrbuf JHash JHashTheory JValue JArray JReal.
From S2P Require Import JLex JScan JLoad JSpec JLexTheory JStringTheory JTokenTheory JHeap.
From S2P Require Import JBuild JLoadTheory JParseTheory JSound.
From stdpp Require Import strings.
From Stdlib Require Import SpecFloat.
#[local] Open Scope Z_scope.

(** ** Changes of the heap *)

Lemma grows_refl A s : wf s → grows A A s s.
Proof. intros Hwf. split; [done|done| |done|done]. by left. Qed.

Lemma removed_grows A s s' : wf s → removed A s s' → grows A ∅ s s'.
Proof.
  intros Hwf Hr. pose proof (removed_wf _ _ _ Hr Hwf) as Hwf'. destruct Hr as [Hb Hc].
  split; [done|lia|set_solver| |].
  - intros d Hd _. by rewrite Hc, decide_True.
  - intros d Hd _. by rewrite Hc, decide_False.
Qed.

(** Nothing is left of what was built. *)
Lemma grows_none s s' : grows ∅ ∅ s s' → cells s' = cells s.
Proof. intros [_ _ _ _ Hf]. apply map_eq. intros d. apply Hf; set_solver. Qed.

Lemma grows_none_owned s s' n p v A : grows ∅ ∅ s s' → owned (cells s) n p v A → owned (cells s') n p v A.
Proof. intros Hg. by rewrite (grows_none _ _ Hg). Qed.

Lemma grows_none_trans A A' s s1 s2 : wf s → grows ∅ ∅ s s1 → grows A A' s1 s2 → grows A A' s s2.
Proof.
  intros Hwf Hg [Hw Hb Hf Hr Hs]. pose proof (grows_none _ _ Hg) as E. pose proof (grows_brk _ _ _ _ Hg).
  split; [done|lia| |done|].
  - intros d Hd. destruct (Hf d Hd); [by left|right; lia].
  - intros d H1 H2. by rewrite Hs, E.
Qed.

(** ** The parser *)

Section parser.
Context {D : Type} {HS : Source D} {HL : SourceLaws D} {T : Tail}.
Abbreviation context := (context D).
Context (flags : Z).

Lemma at_token_idle (x : context) u : at_token x u → idle x.
Proof.
  intros [(w & t & kind & v & rest & _ & _ & _ & (_ & _ & l & prev & Hr) & _)|[Hi _]]; [|done]. by eapply at_idle.
Qed.

Lemma ready_idle (x : context) u : ready x u → idle x.
Proof. intros (l & prev & Hr). by eapply at_idle. Qed.

(** The failure of a routine that was given the cells [A]. *)
Definition freed (A : Zset) (x x' : context) : Prop := idle x' ∧ grows A ∅ (values x) (values x').

Lemma wp_heap_idle {A} (m : SM heap A) (x : context) (P : A → heap → Prop) :
  wpr m (values x) P → idle x → wpr (on_heap m) x (λ a x', P a (values x') ∧ idle x').
Proof. intros Hm Hx. apply wp_on_heap. eapply wp_mono; [exact Hm|]. by intros [a| |] h Hh. Qed.

Lemma release (x : context) p v A :
  wf (values x) → owned (cells (values x)) 1 p v A → idle x →
  wpr (on_heap (json_decref (Some p))) x (λ _ x', freed A x x').
Proof.
  intros Hwf Hp Hi. eapply wp_mono; [eapply wp_heap_idle; [by eapply json_decref_spec|done]|].
  intros [[]| |] x' H; [|done..]. destruct H as [Hr Hi']. split; [done|]. by apply removed_grows.
Qed.

Lemma abandon_spec {B} (x : context) p v A :
  wf (values x) → owned (cells (values x)) 1 p v A → idle x →
  wp (abandon p : SM context B) x (λ o x', o = Fail ∧ freed A x x').
Proof.
  intros Hwf Hp Hi. unfold abandon. eapply wp_seq; [by eapply release|]. intros [] x' Hx'. by apply wp_fail.
Qed.

(** An error message in front of it. *)
Lemma error_abandon {B} msg (x : context) p v A :
  wf (values x) → owned (cells (values x)) 1 p v A → idle x →
  wp (_ ← error_set msg; abandon p : SM context B) x (λ o x', o = Fail ∧ freed A x x').
Proof.
  intros Hwf Hp Hi. eapply wp_seq; [by apply wp_error_set|]. intros [] x1 (_ & Hv & Hi1).
  eapply wp_mono; [apply (abandon_spec x1 p v A); rewrite ?Hv; done|]. intros o x' (-> & Hi' & Hg).
  split; [done|]. split; [done|]. by rewrite <- Hv.
Qed.

(** The end of [parse_value] on [u]. *)
Definition value_end (x : context) (u : list Z) (o : outcome ref) (x' : context) : Prop :=
  match o with
  | Ret p => ∃ w t v rest A, u = w ++ t ++ rest ∧ ws w ∧ value_text t v ∧ ready x' rest ∧ input rest ∧
      (token x = 91 → ∃ vs, v = JArray vs) ∧ (token x = 123 → ∃ ms, v = JObject ms) ∧
      built (values x) p v A (values x')
  | Fail => freed ∅ x x'
  | Undef => False
  end.

Lemma lexeme_punctuation t c v : lexeme t c v → is_punctuation c = true → t = [c].
Proof. intros Ht Hc. apply punctuation_char in Hc as (_ & _ & _ & _ & Hc). inversion Ht; subst; (done || by vm_compute in Hc). Qed.

(** The token in front of [rest], when it is a punctuation character. *)
Lemma at_punctuation (x : context) u c :
  at_token x u → token x = c → is_punctuation c = true →
  ∃ w rest, u = w ++ c :: rest ∧ ws w ∧ ready x rest ∧ input rest.
Proof.
  intros [(w & t & kind & v & rest & -> & Hw & Hl & (Hk & _ & Hr) & Hi)|[_ Ht]] Hc Hp.
  - assert (kind = c) as -> by congruence. rewrite (lexeme_punctuation t c v) by done. by exists w, rest.
  - apply punctuation_cases in Hp. unfold TOKEN_INVALID, TOKEN_EOF in Ht. destruct Ht as [Ht|[Ht _]]; lia.
Qed.

Section nested.
(** [parse_value] on shorter texts. *)
Context (pv : SM context ref) (fuel N : nat).
Hypothesis nested : ∀ x u, at_token x u → wf (values x) → (length u ≤ N)%nat → wp pv x (value_end x u).
Hypothesis enough : (N ≤ fuel)%nat.

(** *** Arrays *)

Definition array_end (a : Z) (us : list jv) (A : Zset) (x : context) (u : list Z) (o : outcome unit) (x' : context) : Prop :=
  match o with
  | Ret _ => ∃ vs A', owned (cells (values x')) 1 (Ref a) (JArray (us ++ vs)) A' ∧ grows A A' (values x) (values x') ∧
      idle x' ∧ (token x' = 93 → ∃ ts rest, u = ts ++ 93 :: rest ∧ elements_text ts vs ∧ ready x' rest ∧ input rest)
  | Fail => freed A x x'
  | Undef => False
  end.

(** An element is added, and [f] gets the token behind it. *)
Lemma element_sound (x : context) u a us A (f : Z → SM context unit) Q :
  at_token x u → wf (values x) → owned (cells (values x)) 1 (Ref a) (JArray us) A → (length u ≤ N)%nat →
  (∀ w t v rest A' x', u = w ++ t ++ rest → ws w → value_text t v → at_token x' rest →
    owned (cells (values x')) 1 (Ref a) (JArray (us ++ [v])) A' → grows A A' (values x) (values x') →
    wp (f (token x')) x' Q) →
  (∀ x', freed A x x' → Q Fail x') →
  wp (elem ← or_else pv (on_heap (json_decref (Some (Ref a))));
      _ ← or_else (on_heap (json_array_append (Some (Ref a)) (Some elem)))
            (_ ← on_heap (json_decref (Some elem)); on_heap (json_decref (Some (Ref a))));
      _ ← on_heap (json_decref (Some elem));
      t ← lex_scan fuel; f t) x Q.
Proof.
  intros Hx Hwf Ha Hu HQ HF. unfold or_else at 1. apply wp_bind, wp_bind, wp_attempt.
  eapply wp_mono; [by apply nested|]. intros [p| |] x1 H1; [| |done].
  - destruct H1 as (w & t & v & rest & B & -> & Hw & Ht & Hr & Hi & _ & _ & Hb). apply wp_ret.
    eapply wp_or_else; [eapply wp_heap; [by apply (array_add (values x) a us A (values x1) p v B)|exact Hr]|].
    intros [] x2 (H2 & _ & Hr2 & _).
    eapply wp_seq; [eapply wp_heap; [exact H2|exact Hr2]|]. intros [] x3 ((A' & Hown & Hg) & _ & Hr3 & _).
    rewrite !length_app in Hu. eapply wp_seq; [apply (lex_scan_sound fuel x3 rest); [done|done|lia]|].
    intros k x4 (-> & Hv4 & H4). by apply (HQ w t v rest A'); rewrite ?Hv4.
  - destruct H1 as [Hi1 Hg1]. apply wp_bind.
    eapply wp_mono; [apply (release x1 (Ref a) (JArray us) A); [apply Hg1|by eapply grows_none_owned|done]|].
    intros [[]| |] x2 H2; [|done..]. apply wp_fail, HF. destruct H2 as [Hi2 Hg2]. split; [done|]. by eapply grows_none_trans.
Qed.

Lemma array_loop_unfold n (array : ref) :
  array_loop pv fuel n array =
  (x ← get;
   if token x =? TOKEN_EOF then mret tt
   else
     elem ← or_else pv (on_heap (json_decref (Some array)));
     _ ← or_else (on_heap (json_array_append (Some array) (Some elem)))
           (_ ← on_heap (json_decref (Some elem)); on_heap (json_decref (Some array)));
     _ ← on_heap (json_decref (Some elem));
     t ← lex_scan fuel;
     if negb (t =? 44) then mret tt
     else
       _ ← lex_scan fuel;
       match n with
       | O => sundef
       | S n => array_loop pv fuel n array
       end).
Proof. by destruct n. Qed.

Lemma array_loop_sound n : ∀ (x : context) u a us A,
  at_token x u → wf (values x) → owned (cells (values x)) 1 (Ref a) (JArray us) A →
  (length u ≤ N)%nat → (length u ≤ n)%nat →
  wp (array_loop pv fuel n (Ref a)) x (array_end a us A x u).
Proof.
  induction n as [n IH] using lt_wf_ind. intros x u a us A Hx Hwf Ha Hu Hn.
  rewrite array_loop_unfold.
  apply wp_get_bind. destruct (Z.eqb_spec (token x) TOKEN_EOF) as [E|E].
  { apply wp_ret. exists [], A. rewrite app_nil_r. split; [done|]. split; [by apply grows_refl|].
    split; [by eapply at_token_idle|]. by rewrite E. }
  apply (element_sound x u a us A); [done..| |by intros].
  intros w t v rest A' x1 -> Hw Ht Hx1 Hown Hg. rewrite !length_app in *. destruct (Z.eqb_spec (token x1) 44) as [E44|E44]; cbn [negb].
  - destruct (at_punctuation x1 rest 44 Hx1 E44 eq_refl) as (w2 & rest' & -> & Hw2 & Hr' & Hi').
    rewrite !length_app in *. cbn [length] in *.
    eapply wp_seq; [apply (lex_scan_sound fuel x1 rest'); [done|done|lia]|]. intros k x2 (_ & Hv2 & Hx2).
    destruct n as [|n]; [lia|].
    eapply wp_mono; [apply (IH n ltac:(lia) x2 rest' a (us ++ [v]) A'); rewrite ?Hv2; try done; try lia; apply Hg|].
    intros [[]| |] x3 H3; [| |done].
    + destruct H3 as (vs & A3 & Hown3 & Hg3 & Hi3 & H93). rewrite Hv2 in Hg3. exists (v :: vs), A3.
      rewrite <- app_assoc in Hown3. split; [done|]. split; [by eapply grows_trans|]. split; [done|].
      intros Htok. destruct (H93 Htok) as (ts & r & -> & Hts & Hr & Hi). exists (w ++ t ++ w2 ++ 44 :: ts), r.
      split; [by rewrite <- !app_assoc|]. split; [by constructor|done].
    + destruct H3 as [Hi3 Hg3]. rewrite Hv2 in Hg3. split; [done|]. by eapply grows_trans.
  - apply wp_ret. exists [v], A'. split; [done|]. split; [done|]. split; [by eapply at_token_idle|].
    intros E93. destruct (at_punctuation x1 rest 93 Hx1 E93 eq_refl) as (w2 & rest' & -> & Hw2 & Hr' & Hi').
    exists (w ++ t ++ w2), rest'. split; [by rewrite <- !app_assoc|]. split; [by constructor|done].
Qed.

Lemma parse_array_sound (x : context) u :
  ready x u → input u → wf (values x) → (length u ≤ N)%nat →
  wp (parse_array pv fuel) x (λ o x', match o with
    | Ret p => ∃ t vs rest A, u = t ++ 93 :: rest ∧ (ws t ∧ vs = [] ∨ elements_text t vs) ∧ ready x' rest ∧ input rest ∧
        built (values x) p (JArray vs) A (values x')
    | Fail => freed ∅ x x'
    | Undef => False
    end).
Proof.
  intros Hx Hi Hwf Hu. unfold parse_array. eapply wp_seq; [eapply wp_heap; [by apply json_array_spec|exact Hx]|].
  intros p x1 ((A & Hb) & _ & Hr1 & _). destruct (built_cell _ _ _ _ _ Hb) as [a ->]; [by left|].
  pose proof Hb as [Hown Hg].
  eapply wp_seq; [apply (lex_scan_sound fuel x1 u); [done|done|lia]|]. intros k x2 (-> & Hv2 & Hx2).
  destruct (Z.eqb_spec (token x2) 93) as [E|E].
  { destruct (at_punctuation x2 u 93 Hx2 E eq_refl) as (w & rest & -> & Hw & Hr & Hi2). apply wp_ret.
    exists w, [], rest, A. rewrite Hv2. split; [done|]. split; [by left|]. done. }
  apply wp_bind. eapply wp_mono; [apply (array_loop_sound fuel x2 u a [] A); rewrite ?Hv2; try done; [apply Hg|lia]|].
  intros [[]| |] x3 H3; [| |done].
  2:{ destruct H3 as [Hi3 Hg3]. rewrite Hv2 in Hg3. split; [done|]. by eapply grows_trans. }
  destruct H3 as (vs & A3 & Hown3 & Hg3 & Hi3 & H93). rewrite Hv2 in Hg3. cbn [app] in Hown3.
  assert (Hg' : grows ∅ A3 (values x) (values x3)) by by eapply grows_trans.
  apply wp_get_bind. destruct (Z.eqb_spec (token x3) 93) as [E3|E3]; cbn [negb].
  - destruct (H93 E3) as (ts & rest & -> & Hts & Hr & Hi4). apply wp_ret. exists ts, vs, rest, A3.
    split; [done|]. split; [by right|]. by split_and!.
  - eapply wp_mono; [apply (error_abandon _ x3 (Ref a) (JArray vs) A3); [apply Hg3|done|done]|].
    intros o x4 (-> & Hi4 & Hg4). split; [done|]. by eapply grows_trans.
Qed.

(** *** Objects *)

Lemma object_get_same s a ms A key :
  owned (cells s) 1 (Ref a) (JObject ms) A → wpr (json_object_get (Some (Ref a)) key) s (λ _ s', s' = s).
Proof.
  intros (o & l & vs & A' & -> & _ & Hc & Ht & _)%object_parts. unfold json_object_get, json_to_object.
  apply wp_bind. eapply wp_get_cell; [done|]. cbn [content]. apply wp_ret.
  rewrite (table_lookup _ l) by done. intros w Hw. by split.
Qed.

(** A member in front of [c]. *)
Definition member_in (u : list Z) (c : Z) (k : list Z) (v : jv) (rest : list Z) : Prop :=
  ∃ w1 tk w2 w3 t w4, u = w1 ++ 34 :: tk ++ 34 :: w2 ++ 58 :: w3 ++ t ++ w4 ++ c :: rest ∧
    ws w1 ∧ chars_text tk k ∧ ws w2 ∧ ws w3 ∧ value_text t v ∧ ws w4.

Definition member_end (a : Z) (us : list (list Z * jv)) (A : Zset) (x : context) (u : list Z)
    (o : outcome bool) (x' : context) : Prop :=
  match o with
  | Ret more => ∃ k v A', owned (cells (values x')) 1 (Ref a) (JObject (set_member k v us)) A' ∧
      grows A A' (values x) (values x') ∧ idle x' ∧
      if more then ∃ rest, member_in u 44 k v rest ∧ at_token x' rest
      else token x' = 125 → ∃ rest, member_in u 125 k v rest ∧ ready x' rest ∧ input rest
  | Fail => freed A x x'
  | Undef => False
  end.

Lemma freed_trans A A' (x x1 x2 : context) :
  wf (values x) → grows A A' (values x) (values x1) → freed A' x1 x2 → freed A x x2.
Proof. intros Hwf Hg [Hi Hg2]. split; [done|]. by eapply grows_trans. Qed.

Lemma freed_values A (x x1 x2 : context) : values x1 = values x → freed A x1 x2 → freed A x x2.
Proof. intros E [Hi Hg]. split; [done|]. by rewrite <- E. Qed.

Lemma string_token (x : context) u :
  at_token x u → token x = TOKEN_STRING →
  ∃ w tk k rest, u = w ++ 34 :: tk ++ 34 :: rest ∧ ws w ∧ chars_text tk k ∧ value x = VString (Some k) ∧ ready x rest ∧ input rest.
Proof.
  intros [(w & t & kind & v & rest & -> & Hw & Hl & (Hk & Hv & Hr) & Hi)|[_ Ht]] Hs.
  - assert (kind = TOKEN_STRING) as -> by congruence.
    assert (∃ tk k, t = 34 :: tk ++ [34] ∧ chars_text tk k ∧ v = Some (VString (Some k))) as (tk & k & -> & Htk & ->).
    { inversion Hl; subst; eauto. by vm_compute in H. }
    exists w, tk, k, rest. split; [cbn [app]; by rewrite <- app_assoc|]. split_and!; try done. by apply Hv.
  - rewrite Hs in Ht. by destruct Ht as [|[? _]].
Qed.

(** The value of a member is added; then come a comma or the end. *)
Lemma member_value (x x0 : context) a us A key u :
  wf (values x) → values x0 = values x → owned (cells (values x)) 1 (Ref a) (JObject us) A →
  Z.of_nat (length us) < MAX_PAIRS → at_token x0 u → (length u ≤ N)%nat →
  wp (v ← attempt pv;
      match v with
      | None => abandon (Ref a)
      | Some v =>
        _ ← or_else (on_heap (json_object_set_nocheck (Some (Ref a)) (Some key) (Some v)))
              (_ ← on_heap (json_decref (Some v)); on_heap (json_decref (Some (Ref a))));
        _ ← on_heap (json_decref (Some v));
        t ← lex_scan fuel;
        if negb (t =? 44) then mret false
        else _ ← lex_scan fuel; mret true
      end) x0
    (λ o x', match o with
      | Ret more => ∃ w t v A', ws w ∧ value_text t v ∧
          owned (cells (values x')) 1 (Ref a) (JObject (set_member key v us)) A' ∧
          grows A A' (values x) (values x') ∧ idle x' ∧
          if more then ∃ w4 rest, u = w ++ t ++ w4 ++ 44 :: rest ∧ ws w4 ∧ at_token x' rest
          else token x' = 125 → ∃ w4 rest, u = w ++ t ++ w4 ++ 125 :: rest ∧ ws w4 ∧ ready x' rest ∧ input rest
      | Fail => freed A x x'
      | Undef => False
      end).
Proof.
  intros Hwf Ev Ha Hl Hx Hu. apply wp_bind, wp_attempt. rewrite <- Ev in Ha, Hwf.
  eapply wp_mono; [by apply nested|]. intros [p| |] x1 H1; [| |done].
  2:{ destruct H1 as [Hi1 Hg1]. eapply wp_mono; [apply (abandon_spec x1 (Ref a) (JObject us) A);
        [apply Hg1|by eapply grows_none_owned|done]|].
      intros o x2 (-> & Hi2 & Hg2). split; [done|]. rewrite <- Ev. by eapply grows_none_trans. }
  destruct H1 as (w & t & v & rest & B & -> & Hw & Ht & Hr & Hi & _ & _ & Hb).
  eapply wp_or_else; [eapply wp_heap; [by apply (object_add (values x0) a us A (values x1) key p v B)|exact Hr]|].
  intros [] x2 (H2 & _ & Hr2 & _).
  eapply wp_seq; [eapply wp_heap; [exact H2|exact Hr2]|]. intros [] x3 ((A' & Hown & Hg) & _ & Hr3 & _).
  rewrite Ev in Hg. rewrite !length_app in Hu.
  eapply wp_seq; [apply (lex_scan_sound fuel x3 rest); [done|done|lia]|]. intros k x4 (-> & Hv4 & H4).
  rewrite <- Hv4 in Hown, Hg. destruct (Z.eqb_spec (token x4) 44) as [E|E]; cbn [negb].
  - destruct (at_punctuation x4 rest 44 H4 E eq_refl) as (w4 & rest' & -> & Hw4 & Hr' & Hi').
    rewrite !length_app in *. cbn [length] in *.
    eapply wp_seq; [apply (lex_scan_sound fuel x4 rest'); [done|done|lia]|]. intros k x5 (_ & Hv5 & H5). apply wp_ret.
    rewrite <- Hv5 in Hown, Hg. exists w, t, v, A'. split_and!; try done; [by eapply at_token_idle|]. by exists w4, rest'.
  - apply wp_ret. exists w, t, v, A'. split_and!; try done; [by eapply at_token_idle|]. intros E125.
    destruct (at_punctuation x4 rest 125 H4 E125 eq_refl) as (w4 & rest' & -> & Hw4 & Hr' & Hi'). by exists w4, rest'.
Qed.

Lemma object_member_sound (x : context) u a us A :
  at_token x u → wf (values x) → owned (cells (values x)) 1 (Ref a) (JObject us) A → (length u ≤ N)%nat →
  Z.of_nat (length us) < MAX_PAIRS →
  wp (object_member pv fuel flags (Ref a)) x (member_end a us A x u).
Proof.
  intros Hx Hwf Ha Hu Hl. unfold object_member. apply wp_get_bind.
  destruct (Z.eqb_spec (token x) TOKEN_STRING) as [E|E]; cbn [negb].
  2:{ eapply wp_mono; [apply (error_abandon _ x (Ref a) (JObject us) A); [done|done|by eapply at_token_idle]|].
      by intros o x' (-> & ?). }
  destruct (string_token x u Hx E) as (w1 & tk & key & rest & -> & Hw1 & Htk & Hval & Hr & Hi).
  eapply wp_seq; [apply (lex_steal_spec x key rest); by split_and!; [| |]; try (intros ? [= <-])|].
  intros k x1 (-> & Hr1 & [_ Hv1]). repeat (rewrite length_app in Hu; cbn [length] in Hu).
  apply (wp_seq _ _ _ (λ d x', values x' = values x ∧ ready x' rest)).
  { destruct (has flags JSON_REJECT_DUPLICATES); [|apply wp_ret; done].
    eapply wp_seq; [eapply wp_heap; [apply (object_get_same (values x1) a us A); by rewrite Hv1|exact Hr1]|].
    intros old x2 (E2 & _ & Hr2 & _). apply wp_ret. split; [congruence|done]. }
  intros [] x2 [Hv2 Hr2].
  { eapply wp_mono; [apply (error_abandon _ x2 (Ref a) (JObject us) A); rewrite ?Hv2; [done|done|by eapply ready_idle]|].
    intros o x3 (-> & H3). by apply (freed_values A x x2). }
  eapply wp_seq; [apply (lex_scan_sound fuel x2 rest); [done|done|lia]|]. intros k3 x3 (-> & Hv3 & H3).
  rewrite Hv2 in Hv3. destruct (Z.eqb_spec (token x3) 58) as [E3|E3]; cbn [negb].
  2:{ eapply wp_mono; [apply (error_abandon _ x3 (Ref a) (JObject us) A); rewrite ?Hv3; [done|done|by eapply at_token_idle]|].
      intros o x4 (-> & H4). by apply (freed_values A x x3). }
  destruct (at_punctuation x3 rest 58 H3 E3 eq_refl) as (w2 & rest' & -> & Hw2 & Hr' & Hi').
  rewrite length_app in Hu. cbn [length] in Hu.
  eapply wp_seq; [apply (lex_scan_sound fuel x3 rest'); [done|done|lia]|]. intros k4 x4 (_ & Hv4 & H4). rewrite Hv3 in Hv4.
  eapply wp_mono; [apply (member_value x x4 a us A key rest'); try done; lia|]. intros [more| |] x5 H5; [|done..].
  destruct H5 as (w3 & t & v & A' & Hw3 & Ht & Hown & Hg & Hi5 & Hmore). exists key, v, A'. split_and!; try done.
  destruct more.
  - destruct Hmore as (w4 & r & -> & Hw4 & H5). exists r. split; [|done]. by exists w1, tk, w2, w3, t, w4.
  - intros E5. destruct (Hmore E5) as (w4 & r & -> & Hw4 & H5). exists r. split; [|done]. by exists w1, tk, w2, w3, t, w4.
Qed.

Definition object_end (a : Z) (us : list (list Z * jv)) (A : Zset) (x : context) (u : list Z)
    (o : outcome unit) (x' : context) : Prop :=
  match o with
  | Ret _ => ∃ ms A', owned (cells (values x')) 1 (Ref a) (JObject (foldl (λ ms kv, set_member kv.1 kv.2 ms) us ms)) A' ∧
      grows A A' (values x) (values x') ∧ idle x' ∧
      (token x' = 125 → ∃ ts rest, u = ts ++ 125 :: rest ∧ members_text ts ms ∧ ready x' rest ∧ input rest)
  | Fail => freed A x x'
  | Undef => False
  end.

Lemma object_loop_sound n : ∀ (x : context) u a us A,
  at_token x u → wf (values x) → owned (cells (values x)) 1 (Ref a) (JObject us) A →
  (length u ≤ N)%nat → (length u ≤ n)%nat → Z.of_nat (length us + length u) < MAX_PAIRS →
  wp (object_loop pv fuel flags n (Ref a)) x (object_end a us A x u).
Proof.
  induction n as [n IH] using lt_wf_ind. intros x u a us A Hx Hwf Ha Hu Hn Hl.
  rewrite object_loop_unfold. apply wp_bind.
  eapply wp_mono; [apply (object_member_sound x u a us A); try done; lia|]. intros [more| |] x1 H1; [|done..].
  destruct H1 as (k & v & A' & Hown & Hg & Hi & Hmore). destruct more.
  - destruct Hmore as (rest & (w1 & tk & w2 & w3 & t & w4 & -> & Hw1 & Hk & Hw2 & Hw3 & Ht & Hw4) & Hx1).
    repeat (rewrite length_app in Hu, Hn, Hl; cbn [length] in Hu, Hn, Hl). destruct n as [|n]; [lia|].
    pose proof (set_member_length k v us) as Hml.
    eapply wp_mono; [apply (IH n ltac:(lia) x1 rest a (set_member k v us) A'); try done; try lia; apply Hg|].
    intros [[]| |] x3 H3; [|by eapply freed_trans|done].
    destruct H3 as (ms & A3 & Hown3 & Hg3 & Hi3 & H125). exists ((k, v) :: ms), A3. split; [done|].
    split; [by eapply grows_trans|]. split; [done|].
    intros Htok. destruct (H125 Htok) as (ts & r & -> & Hts & Hr & Hi2).
    exists (w1 ++ 34 :: tk ++ 34 :: w2 ++ 58 :: w3 ++ t ++ w4 ++ 44 :: ts), r.
    split; [by repeat (rewrite <- ?app_assoc; cbn [app])|]. split; [by constructor|done].
  - apply wp_ret. exists [(k, v)], A'. split; [done|]. split; [done|]. split; [done|]. intros Htok.
    destruct (Hmore Htok) as (rest & (w1 & tk & w2 & w3 & t & w4 & -> & Hw1 & Hk & Hw2 & Hw3 & Ht & Hw4) & Hr & Hi2).
    exists (w1 ++ 34 :: tk ++ 34 :: w2 ++ 58 :: w3 ++ t ++ w4), rest.
    split; [by repeat (rewrite <- ?app_assoc; cbn [app])|]. split; [by constructor|done].
Qed.

Lemma parse_object_sound (x : context) u :
  ready x u → input u → wf (values x) → (length u ≤ N)%nat → Z.of_nat (length u) < MAX_PAIRS →
  wp (parse_object pv fuel flags) x (λ o x', match o with
    | Ret p => ∃ t ms rest A, u = t ++ 125 :: rest ∧ (ws t ∧ ms = [] ∨ members_text t ms) ∧ ready x' rest ∧ input rest ∧
        built (values x) p (JObject (members_of ms)) A (values x')
    | Fail => freed ∅ x x'
    | Undef => False
    end).
Proof.
  intros Hx Hi Hwf Hu Hl. unfold parse_object. eapply wp_seq; [eapply wp_heap; [by apply json_object_spec|exact Hx]|].
  intros p x1 ((A & Hb) & _ & Hr1 & _). destruct (built_cell _ _ _ _ _ Hb) as [a ->]; [by right|].
  pose proof Hb as [Hown Hg].
  eapply wp_seq; [apply (lex_scan_sound fuel x1 u); [done|done|lia]|]. intros k x2 (-> & Hv2 & Hx2).
  destruct (Z.eqb_spec (token x2) 125) as [E|E].
  { destruct (at_punctuation x2 u 125 Hx2 E eq_refl) as (w & rest & -> & Hw & Hr & Hi2). apply wp_ret.
    exists w, [], rest, A. rewrite Hv2. split; [done|]. split; [by left|]. done. }
  rewrite <- Hv2 in Hown, Hg.
  apply wp_bind. eapply wp_mono; [apply (object_loop_sound fuel x2 u a [] A); try done; [apply Hg|lia]|].
  intros [[]| |] x3 H3; [|by eapply freed_trans|done].
  destruct H3 as (ms & A3 & Hown3 & Hg3 & Hi3 & H125).
  assert (Hg' : grows ∅ A3 (values x) (values x3)) by by eapply grows_trans.
  apply wp_get_bind. destruct (Z.eqb_spec (token x3) 125) as [E3|E3]; cbn [negb].
  - destruct (H125 E3) as (ts & rest & -> & Hts & Hr & Hi4). apply wp_ret. exists ts, ms, rest, A3.
    split; [done|]. split; [by right|]. by split_and!.
  - eapply wp_mono; [eapply (error_abandon _ x3 (Ref a) _ A3); [apply Hg3|exact Hown3|done]|].
    intros o x4 (-> & H4). by eapply freed_trans.
Qed.
End nested.

(** *** Values *)

Lemma token_value (x : context) u w t kind v rest p V A (x' : context) :
  u = w ++ t ++ rest → ws w → lexeme t kind v → seen x kind v rest → input rest → value_text t V →
  kind ≠ 91 → kind ≠ 123 → built (values x) p V A (values x') → ready x' rest → value_end x u (Ret p) x'.
Proof.
  intros -> Hw Hl (Hk & _) Hi HV H1 H2 Hb Hr. exists w, t, V, rest, A. rewrite Hk. by split_and!.
Qed.

(** A scalar that is built in the heap, and one that is static. *)
Lemma heap_value (m : SM heap ref) (x : context) u w t kind v rest V :
  u = w ++ t ++ rest → ws w → lexeme t kind v → seen x kind v rest → input rest → value_text t V →
  kind ≠ 91 → kind ≠ 123 → wpr m (values x) (λ p s', ∃ A, built (values x) p V A s') →
  wp (on_heap m) x (value_end x u).
Proof.
  intros E Hw Hl Hs Hi HV H1 H2 Hm. pose proof Hs as (_ & _ & Hr).
  eapply wp_mono; [eapply wp_heap; [exact Hm|exact Hr]|]. intros [p| |] x' H; [|done..].
  destruct H as ((A & Hb) & _ & Hr' & _). by eapply token_value.
Qed.

Lemma static_value (x : context) u w t kind v rest p V :
  u = w ++ t ++ rest → ws w → lexeme t kind v → seen x kind v rest → input rest → value_text t V →
  kind ≠ 91 → kind ≠ 123 → wf (values x) → owned (cells (values x)) 1 p V ∅ → wp (mret p) x (value_end x u).
Proof.
  intros E Hw Hl Hs Hi HV H1 H2 Hwf Hp. apply wp_ret. pose proof Hs as (_ & _ & Hr).
  eapply token_value; try done. by apply built_static.
Qed.

Lemma fail_spec msg (x : context) :
  idle x → wf (values x) → wp (_ ← error_set msg; sfail : SM context ref) x (λ o x', o = Fail ∧ freed ∅ x x').
Proof.
  intros Hi Hwf. eapply wp_seq; [by apply wp_error_set|]. intros [] x' (_ & Hv & Hi'). apply wp_fail.
  split; [done|]. split; [done|]. rewrite Hv. by apply grows_refl.
Qed.

Lemma fail_value msg (x : context) u :
  idle x → wf (values x) → wp (_ ← error_set msg; sfail) x (value_end x u).
Proof. intros Hi Hwf. eapply wp_mono; [by apply fail_spec|]. by intros o x' (-> & ?). Qed.

Lemma parse_value_sound depth : ∀ fuel x u,
  at_token x u → wf (values x) → (length u ≤ depth)%nat → (length u ≤ fuel)%nat → Z.of_nat (length u) < MAX_PAIRS →
  wp (parse_value depth fuel flags) x (value_end x u).
Proof.
  induction depth as [|depth IH]; intros fuel x u Hx Hwf Hd Hf Hl; apply parse_value_unfold; cbv zeta;
    (destruct Hx as [(w & t & kind & v & rest & -> & Hw & Ht & Hs & Hi)|[Hi Ht]];
     [|destruct Ht as [->|[-> _]]; by apply fail_value]).
  { destruct w as [|? w], t as [|? t]; try (simpl in Hd; lia). destruct (lexeme_nonempty _ _ _ Ht) as (c & t' & [=]). }
  pose proof Hs as (Hk & Hv & Hr). rewrite Hk.
  destruct Ht as [t s Ht|t i Ht Hir|t r Ht Hsr| | | |c Hc].
  - cbn. rewrite (Hv _ eq_refl). eapply (heap_value _ _ _ w (34 :: t ++ [34]) TOKEN_STRING); try done;
      [by constructor|by constructor|by apply json_string_spec].
  - cbn. rewrite (Hv _ eq_refl). eapply (heap_value _ _ _ w t TOKEN_INTEGER); try done;
      [by constructor|by constructor|by apply json_integer_spec].
  - cbn. rewrite (Hv _ eq_refl). eapply (heap_value _ _ _ w t TOKEN_REAL); try done;
      [by constructor|by constructor|apply json_real_spec; [done|by eapply strtod_finite]].
  - eapply (static_value _ _ w (str "true") TOKEN_TRUE); try done; constructor.
  - eapply (static_value _ _ w (str "false") TOKEN_FALSE); try done; constructor.
  - eapply (static_value _ _ w (str "null") TOKEN_NULL); try done; constructor.
  - repeat (rewrite length_app in Hd, Hf, Hl; cbn [length] in Hd, Hf, Hl).
    assert (Hnested : ∀ (x0 : context) u0, at_token x0 u0 → wf (values x0) → (length u0 ≤ length rest)%nat →
      wp (parse_value depth fuel flags) x0 (value_end x0 u0)) by (intros; apply IH; (done || lia)).
    assert (Htok : ∀ d, d ≠ c → (c =? d) = false) by (intros; apply Z.eqb_neq; congruence).
    pose proof (punctuation_cases c Hc) as Hcases.
    unfold TOKEN_STRING, TOKEN_INTEGER, TOKEN_REAL, TOKEN_TRUE, TOKEN_FALSE, TOKEN_NULL.
    rewrite !Htok by lia. destruct (Z.eqb_spec c 123) as [->|H123]; [|destruct (Z.eqb_spec c 91) as [->|H91]].
    + eapply wp_mono; [apply (parse_object_sound _ fuel (length rest) Hnested ltac:(lia) x rest); try done; lia|].
      intros [p| |] x' H; [|done..]. destruct H as (t & ms & rest' & A & -> & Hms & Hr' & Hi' & Hb).
      exists w, (123 :: t ++ [125]), (JObject (members_of ms)), rest', A. rewrite Hk.
      split; [cbn [app]; by rewrite <- app_assoc|]. split; [done|].
      split; [destruct Hms as [[Hws ->]|Hms]; by constructor|]. split_and!; try done. by eexists.
    + eapply wp_mono; [apply (parse_array_sound _ fuel (length rest) Hnested ltac:(lia) x rest); try done; lia|].
      intros [p| |] x' H; [|done..]. destruct H as (t & vs & rest' & A & -> & Hvs & Hr' & Hi' & Hb).
      exists w, (91 :: t ++ [93]), (JArray vs), rest', A. rewrite Hk.
      split; [cbn [app]; by rewrite <- app_assoc|]. split; [done|].
      split; [destruct Hvs as [[Hws ->]|Hvs]; by constructor|]. split_and!; try done. by eexists.
    + unfold TOKEN_INVALID. rewrite Htok by lia. apply fail_value; [by eapply ready_idle|done].
Qed.

(** ** Documents *)

(** What is read of [u] and denotes [v]. *)
Definition document (u : list Z) (v : jv) : Prop :=
  ∃ t rest, u = t ++ rest ∧ json_text t v ∧ (has flags JSON_DISABLE_EOF_CHECK = true ∨ rest = [] ∧ junk = []).

Lemma parse_json_sound fuel (x : context) u :
  ready x u → input u → wf (values x) → (length u ≤ fuel)%nat → Z.of_nat (length u) < MAX_PAIRS →
  wp (parse_json fuel flags) x (λ o x', match o with
    | Ret p => ∃ v A, document u v ∧ allowed flags v ∧ built (values x) p v A (values x')
    | Fail => freed ∅ x x'
    | Undef => False
    end).
Proof.
  intros Hx Hi Hwf Hf Hl. unfold parse_json.
  eapply wp_seq; [by apply (lex_scan_sound fuel x u)|]. intros k x1 (-> & Hv1 & Hx1).
  destruct (negb (has flags JSON_DECODE_ANY) && negb (token x1 =? 91) && negb (token x1 =? 123)) eqn:Eopen.
  { eapply wp_mono; [apply (fail_spec _ x1); [by eapply at_token_idle|by rewrite Hv1]|].
    intros o x2 (-> & H2). by apply (freed_values ∅ x x1). }
  apply wp_bind. eapply wp_mono; [apply (parse_value_sound fuel fuel x1 u); try done; by rewrite Hv1|].
  intros [p| |] x2 H2; [|by apply (freed_values ∅ x x1)|done].
  destruct H2 as (w & t & v & rest & A & -> & Hw & Ht & Hr & Hi2 & H91 & H123 & Hb). rewrite Hv1 in Hb.
  assert (Hall : allowed flags v).
  { unfold allowed. destruct (has flags JSON_DECODE_ANY); [by left|]. cbn [negb andb] in Eopen.
    right. apply andb_false_iff in Eopen. rewrite !negb_false_iff, !Z.eqb_eq in Eopen. destruct Eopen; auto. }
  assert (Hend : ∀ rest', (has flags JSON_DISABLE_EOF_CHECK = true ∧ rest' = rest) ∨ (rest' = [] ∧ junk = [] ∧ ws rest) →
    document (w ++ t ++ rest) v).
  { intros rest' [[He ->]|(-> & Hj & Hws)].
    - exists (w ++ t), rest. split; [by rewrite <- app_assoc|]. split; [|by left].
      pose proof (Json_text w t v [] Hw Ht) as Hd. rewrite app_nil_r in Hd. apply Hd. constructor.
    - exists (w ++ t ++ rest), []. rewrite app_nil_r. split; [done|]. split; [by constructor|by right]. }
  apply wp_bind. apply wp_mono with (P := λ o x3, match o with
    | Ret _ => document (w ++ t ++ rest) v ∧ values x3 = values x2
    | Fail => freed ∅ x x3 | Undef => False end).
  - destruct (has flags JSON_DISABLE_EOF_CHECK) eqn:Ee; [apply wp_ret; split; [by eapply Hend; left|done]|].
    rewrite !length_app in Hf. eapply wp_seq; [apply (lex_scan_sound fuel x2 rest); [done|done|lia]|].
    intros k x3 (-> & Hv3 & H3). rewrite <- Hv3 in Hb. destruct (Z.eqb_spec (token x3) TOKEN_EOF) as [E|E]; cbn [negb].
    + apply wp_ret. split; [|done]. apply (Hend []). right. split; [done|].
      destruct H3 as [(w' & t' & kind & v' & r' & _ & _ & Hl' & (Hk & _) & _)|[_ [H3|(_ & Hws & Hj)]]];
        [|unfold TOKEN_INVALID, TOKEN_EOF in *; lia|done].
      assert (kind = 0) as -> by (unfold TOKEN_EOF in E; congruence). exfalso. inversion Hl'; subst. done.
    + destruct Hb as [Hown Hg]. eapply wp_mono; [eapply (error_abandon _ x3 p v A); [apply Hg|done|by eapply at_token_idle]|].
      intros o x4 (-> & H4). by eapply freed_trans.
  - intros [[]| |] x3 H3; [|done..]. destruct H3 as [Hdoc Hv3]. apply wp_get_bind.
    apply (wp_seq _ _ _ (λ _ x4, values x4 = values x3)); [by intros w0 Hw0|].
    intros [] x4 Hv4. apply wp_ret. exists v, A. rewrite Hv4, Hv3. done.
Qed.
End parser.

(** ** Any bytes *)

(** A text is UTF-8 up to bytes that are none. *)
Lemma split_text s : Forall text_byte s → ∃ u j, s = u ++ j ∧ clean u ∧ stuck j.
Proof.
  remember (length s) as n eqn:En. revert s En. induction (lt_wf n) as [n _ IH]. intros s -> Hs.
  destruct s as [|b s]; [exists [], []; split_and!; [done|apply clean_nil|by left]|].
  pose proof (utf8_first b s Hs) as Hdec.
  destruct Hdec as [(v & r & Hv & E)|Hno].
  - rewrite E in *. pose proof (length_utf8 v) as Hl. apply Forall_app in Hs as [Hs1 Hs2].
    destruct (IH (length r)) with (s := r) as (u & j & -> & Hu & Hj); [rewrite length_app; lia|done|done|].
    exists (utf8 v ++ u), j. split; [by rewrite app_assoc|]. split; [|done]. apply clean_app; [|done].
    exists [v]. unfold utf8s. cbn. rewrite app_nil_r. split_and!; [by apply Forall_singleton| |done].
    apply Forall_singleton. intros ->. unfold utf8 in Hs1. simpl in Hs1. apply Forall_cons in Hs1 as [[_ H0] _]. done.
  - exists [], (b :: s). split; [done|]. split; [apply clean_nil|]. by right.
Qed.

Lemma stuck_head b r : stuck (b :: r) → 0x80 ≤ b.
Proof.
  intros [|[Hb Hno]]; [done|]. apply Forall_cons in Hb as [[Hb _] _]. unfold is_byte in Hb.
  destruct (Z.leb_spec 0x80 b); [done|]. destruct (Hno b r); [apply scalar_ascii; lia|]. by rewrite utf8_ascii by lia.
Qed.

Lemma hex_value_high b : 0x80 ≤ b → hex_value b = None.
Proof. intros Hb. unfold hex_value. repeat case_bool; try lia; done. Qed.

(** A hexadecimal digit is no start of what is not UTF-8. *)
Lemma escapes_ok_prefix n : ∀ u j, (length u ≤ n)%nat → stuck j → escapes_ok (u ++ j) → escapes_ok u.
Proof.
  induction n as [|n IH]; intros u j Hn Hj He; [by destruct u; simpl in Hn; [|lia]|].
  destruct u as [|b u]; [done|]. simpl in Hn. cbn [app escapes_ok] in He |- *.
  destruct (b =? 92); [|apply (IH u j); [lia|done|done]].
  destruct u as [|c u]; [done|]. cbn [app] in He. simpl in Hn. destruct (c =? 117); [|apply (IH u j); [lia|done|done]].
  assert (Hbad : ∀ d r, j = d :: r → hex_value d = None) by (intros d r ->; by eapply hex_value_high, stuck_head).
  destruct u as [|d1 [|d2 [|d3 [|d4 u]]]]; cbn [app] in He.
  5:{ destruct He as [Hh He]. split; [done|]. apply (IH u j); [simpl in Hn; lia|done|done]. }
  all: destruct j as [|e1 [|e2 [|e3 [|e4 j]]]]; try done; destruct He as [[v Hv] _]; simpl in Hv;
    rewrite (Hbad _ _ eq_refl) in Hv; repeat (destruct (hex_value _) in Hv; simpl in Hv; try done).
Qed.

Lemma until_nul_bytes s : Forall is_byte s → Forall text_byte (until_nul s).
Proof.
  induction 1 as [|b s Hb Hs IH]; [constructor|]. cbn [until_nul]. case_bool; [constructor|]. by constructor.
Qed.

Lemma until_nul_length s : (length (until_nul s) ≤ length s)%nat.
Proof. induction s as [|b s IH]; [done|]. cbn [until_nul]. case_match; simpl; lia. Qed.

(** [json_loads] on any string. *)
Lemma json_loads_sound s flags h e :
  Forall is_byte s → escapes_ok (until_nul s) → wf h → Z.of_nat (length s) < MAX_PAIRS →
  wp (json_loads (Some s) flags) (h, e) (λ o he, match o with
    | Ret p => ∃ t rest v A, until_nul s = t ++ rest ∧ json_text t v ∧ allowed flags v ∧
        (has flags JSON_DISABLE_EOF_CHECK = true ∨ rest = []) ∧ built h p v A he.1
    | Fail => grows ∅ ∅ h he.1
    | Undef => False
    end).
Proof.
  intros Hs He Hwf Hl. destruct (split_text (until_nul s)) as (u & j & E & Hu & Hj); [by apply until_nul_bytes|].
  rewrite E in He. pose proof (escapes_ok_prefix (length u) u j ltac:(lia) Hj He) as Heu.
  pose proof (until_nul_length s) as Hlen. rewrite E, length_app in Hlen.
  unfold json_loads. apply init_error_load. set (T := {| junk := j; junk_stuck := Hj |} : Tail).
  apply (load_wp (T := T) _ u _ flags h _ (λ o h' _, match o with
    | Ret p => ∃ t rest v A, until_nul s = t ++ rest ∧ json_text t v ∧ allowed flags v ∧
        (has flags JSON_DISABLE_EOF_CHECK = true ∨ rest = []) ∧ built h p v A h'
    | Fail => grows ∅ ∅ h h'
    | Undef => False
    end)); [done|done|unfold LIMIT, MAX_PAIRS in *; lia|].
  intros x Hx _ Hv. rewrite <- Hv in Hwf.
  eapply wp_mono; [apply (parse_json_sound flags _ x u Hx); [by split|done|lia|lia]|].
  intros [p| |] x' H; [|by destruct H as [_ H]; rewrite Hv in H|done].
  destruct H as (v & A & (t & rest & -> & Ht & Hend) & Hall & Hb). exists t, (rest ++ j), v, A.
  rewrite E, <- app_assoc, <- Hv. split_and!; try done. destruct Hend as [|[-> Hjn]]; [by left|right]. exact Hjn.
Qed.
