(* ===== verification/JRender.v ===== *)
(** * The text of a value

    [render flags depth v] is the text that the encoder writes for [v], with the
    members of the objects in the order of [v]. It is a text of the grammar that
    denotes [v]; values that differ in the order of members only are equivalent
    and have texts of the same length. *)

From S2P Require Import Prelude CModel JBase JUtf JStrbuf JHash JHashTheory JValue JArray JReal.
From S2P Require Import JLex JScan JLoad JDump JSpec JLexTheory JStringTheory JTokenTheory JHeap.
From S2P Require Import JBuild JLoadTheory JParseTheory.
From stdpp Require Import strings.
From Stdlib Require Import SpecFloat.
#[local] Open Scope Z_scope.

(** ** Equivalence *)

Inductive same_value : jv → jv → Prop :=
  | Q_refl v : same_value v v
  | Q_array vs vs' : same_values vs vs' → same_value (JArray vs) (JArray vs')
  | Q_object ms ms1 ms' :
      ms ≡ₚ ms1 → ms1.*1 = ms'.*1 → same_values ms1.*2 ms'.*2 → same_value (JObject ms) (JObject ms')
with same_values : list jv → list jv → Prop :=
  | Qs_nil : same_values [] []
  | Qs_cons v v' vs vs' : same_value v v' → same_values vs vs' → same_values (v :: vs) (v' :: vs').

Scheme equiv_mind := Induction for same_value Sort Prop
  with equiv_all_mind := Induction for same_values Sort Prop.
Combined Scheme equiv_ind' from equiv_mind, equiv_all_mind.

Lemma equiv_all_refl vs : same_values vs vs.
Proof. induction vs; constructor; [constructor|done]. Qed.

Lemma equiv_all_length vs vs' : same_values vs vs' → length vs = length vs'.
Proof. induction 1; simpl; congruence. Qed.

(** The members of an object, up to the order. *)
Lemma equiv_all_perm (ks : list (list Z)) vs (ms ms' : list (list Z * jv)) :
  zip ks vs ≡ₚ ms → ms.*1 = ms'.*1 → same_values ms.*2 ms'.*2 → length ks = length vs →
  ∃ vs', same_values vs vs' ∧ ms' ≡ₚ zip ks vs'.
Proof.
  revert vs ms ms'. induction ks as [|k ks IH]; intros vs ms ms' Hp Hk He Hl; (destruct vs as [|v vs]; [try done|try done]).
  - simpl in Hp. apply Permutation_nil in Hp as ->. destruct ms' as [|[k' v'] ms']; [|done].
    exists []. split; [constructor|done].
  - simpl in Hp. assert (Hin : (k, v) ∈ ms) by (rewrite <- Hp; apply list_elem_of_here).
    apply list_elem_of_split in Hin as (m1 & m2 & ->).
    rewrite <- Permutation_middle in Hp. apply Permutation_cons_inv in Hp.
    rewrite fmap_app, fmap_cons in Hk. rewrite fmap_app, fmap_cons in He.
    assert (Hsplit : ∃ n1 v' n2, ms' = n1 ++ (k, v') :: n2 ∧ m1.*1 = n1.*1 ∧ m2.*1 = n2.*1 ∧
      same_values m1.*2 n1.*2 ∧ same_value v v' ∧ same_values m2.*2 n2.*2).
    { clear Hp IH Hl. revert ms' Hk He. induction m1 as [|[k1 v1] m1 IH]; intros ms' Hk He.
      - destruct ms' as [|[k' v'] ms']; [done|]. simpl in Hk, He. inversion He as [|w w' ws ws' Hw Hws]; subst. simplify_eq.
        exists [], v', ms'. split_and!; try done. constructor.
      - destruct ms' as [|[k' v'] ms']; [done|]. simpl in Hk, He. inversion He as [|w w' ws ws' Hw Hws]; subst. simplify_eq.
        destruct (IH ms') as (n1 & v2 & n2 & -> & H1 & H2 & H3 & H4 & H5); [done|done|].
        exists ((k', v') :: n1), v2, n2. split_and!; try done; simpl; [by f_equal|by constructor]. }
    destruct Hsplit as (n1 & v' & n2 & -> & H1 & H2 & H3 & H4 & H5).
    destruct (IH vs (m1 ++ m2) (n1 ++ n2)) as (vs' & Hvs & Hp'); [done| | |by simpl in Hl; lia|].
    + rewrite !fmap_app. by rewrite H1, H2.
    + rewrite !fmap_app. clear -H3 H5. induction H3 as [|a b vs vs' Ha Hvs IH]; [done|]. by constructor.
    + exists (v' :: vs'). split; [by constructor|]. simpl. rewrite <- Hp'. by rewrite <- Permutation_middle.
Qed.

Lemma owned_equivs m :
  (∀ n p v A, owned m n p v A → ∀ v', same_value v v' → owned m n p v' A) ∧
  (∀ b v A, denotes m b v A → ∀ v', same_value v v' → denotes m b v' A) ∧
  (∀ ps vs A, owned_all m ps vs A → ∀ vs', same_values vs vs' → owned_all m ps vs' A).
Proof.
  apply owned_ind'.
  - intros n v' H. inversion H; subst. constructor.
  - intros n v' H. inversion H; subst. constructor.
  - intros n v' H. inversion H; subst. constructor.
  - intros n a b v A Ha Hd IH HaA v' H. eapply O_cell; [done|by apply IH|done].
  - intros s v' H. inversion H; subst. constructor.
  - intros i v' H. inversion H; subst. constructor.
  - intros r v' H. inversion H; subst. constructor.
  - intros t ps vs A Ht Hv Hps IH v' H. inversion H; subst; [exact (D_array m t ps vs A Ht Hv Hps)|].
    econstructor; [done|done|by apply IH].
  - intros o l vs ms A Ht Hv Hps IH Hms v' H.
    inversion H as [|vs1 vs1' ?|ms0 ms1 ms' Hp Hk He]; subst; [exact (D_object m o l vs ms A Ht Hv Hps Hms)|].
    rewrite Hms in Hp. destruct (equiv_all_perm (keys l) vs ms1 ms') as (vs' & Hvs' & Hp'); try done.
    { rewrite <- (owned_all_length _ _ _ _ Hps). unfold keys, entry_values. by rewrite !length_fmap. }
    eapply (D_object m o l vs'); [done|done|by apply IH|done].
  - intros vs' H. inversion H; subst. constructor.
  - intros p ps v vs A B Hp IH Hps IHs HAB vs' H. inversion H; subst. constructor; auto.
Qed.

Lemma owned_equiv m n p v v' A : owned m n p v A → same_value v v' → owned m n p v' A.
Proof. intros Hp He. by eapply (proj1 (owned_equivs m)). Qed.

(** ** Texts *)

Definition indent (flags depth : Z) (space : bool) : list Z :=
  if 0 <? JSON_INDENT flags then
    10 :: concat (replicate (Z.to_nat depth) (take (Z.to_nat (JSON_INDENT flags)) whitespace))
  else if space && negb (has flags JSON_COMPACT) then [32] else [].

(** The text of a string of UTF-8. *)
Fixpoint escaped (fuel : nat) (flags : Z) (s : list Z) : list Z :=
  match fuel, s with
  | S fuel, _ :: _ =>
    match utf8_iterate s with
    | Ret (rest, Some c) => (if needs_escape flags c then escape c else utf8 c) ++ escaped fuel flags rest
    | _ => []
    end
  | _, _ => []
  end.

Definition quoted (flags : Z) (s : list Z) : list Z := 34 :: escaped (length s) flags s ++ [34].

(** Texts with a separator between them and another one behind the last. *)
Fixpoint joined (sep last : list Z) (ts : list (list Z)) : list Z :=
  match ts with
  | [] => []
  | [t] => t ++ last
  | t :: ts => t ++ sep ++ joined sep last ts
  end.

Definition enclosed (flags depth open close : Z) (ts : list (list Z)) : list Z :=
  open :: match ts with
          | [] => []
          | _ => indent flags (depth + 1) false ++
                 joined (44 :: indent flags (depth + 1) true) (indent flags depth false) ts
          end ++ [close].

Definition real_string (r : double) : list Z := default [] (jsonp_dtostr MAX_REAL_STR_LENGTH r).

Fixpoint render (flags depth : Z) (v : jv) : list Z :=
  match v with
  | JObject ms =>
    enclosed flags depth 123 125
      (map (λ kv : list Z * jv,
              match kv with (k, v) => quoted flags k ++ separator flags ++ render flags (depth + 1) v end) ms)
  | JArray vs => enclosed flags depth 91 93 (map (render flags (depth + 1)) vs)
  | JString s => quoted flags s
  | JInteger i => format_integer i
  | JReal r => real_string r
  | JTrue => str "true"
  | JFalse => str "false"
  | JNull => str "null"
  end.

Definition member_text (flags depth : Z) (kv : list Z * jv) : list Z :=
  quoted flags kv.1 ++ separator flags ++ render flags (depth + 1) kv.2.

Lemma render_object flags depth ms :
  render flags depth (JObject ms) = enclosed flags depth 123 125 (map (member_text flags depth) ms).
Proof. cbn [render]. f_equal. apply map_ext. by intros [k v]. Qed.

(** ** Lengths *)

Lemma joined_length sep last ts :
  length (joined sep last ts) =
  match ts with
  | [] => O
  | _ :: ts' => (sum_list (length <$> ts) + length ts' * length sep + length last)%nat
  end.
Proof.
  induction ts as [|t ts IH]; [done|]. cbn [joined]. destruct ts as [|t' ts].
  - rewrite length_app. simpl. lia.
  - rewrite !length_app, IH. simpl. lia.
Qed.

Lemma sum_list_perm l l' : l ≡ₚ l' → sum_list l = sum_list l'.
Proof. induction 1; simpl; lia. Qed.

Lemma enclosed_length flags depth o c ts ts' :
  length <$> ts ≡ₚ length <$> ts' → length (enclosed flags depth o c ts) = length (enclosed flags depth o c ts').
Proof.
  intros Hp. pose proof (Permutation_length Hp) as Hl. rewrite !length_fmap in Hl.
  apply sum_list_perm in Hp. unfold enclosed. cbn [length]. rewrite !length_app.
  destruct ts as [|t ts], ts' as [|t' ts']; try done. rewrite !length_app, !joined_length.
  simpl in Hl. simplify_eq. rewrite Hp, Hl. done.
Qed.

Lemma render_lengths :
  (∀ v v', same_value v v' → ∀ flags depth, length (render flags depth v) = length (render flags depth v')) ∧
  (∀ vs vs', same_values vs vs' → ∀ flags depth, length <$> map (render flags depth) vs = length <$> map (render flags depth) vs').
Proof.
  apply equiv_ind'; try done.
  - intros vs vs' He IH flags depth. cbn [render]. apply enclosed_length. by rewrite IH.
  - intros ms ms1 ms' Hp Hk He IH flags depth. rewrite !render_object. apply enclosed_length.
    transitivity (length <$> map (member_text flags depth) ms1); [by apply Permutation_map, Permutation_map|].
    assert (E : length <$> map (member_text flags depth) ms1 = length <$> map (member_text flags depth) ms').
    { specialize (IH flags (depth + 1)). clear Hp He. revert ms' Hk IH.
      induction ms1 as [|[k v] ms1 IH1]; intros [|[k' v'] ms'] Hk IH; try done. simpl in Hk, IH. simplify_eq.
      cbn [map]. rewrite !fmap_cons. f_equal; [|by apply (IH1 ms')].
      unfold member_text, quoted. cbn [fst snd length]. repeat (rewrite ?length_app; cbn [length]). lia. }
    change (length <$> map (member_text flags depth) ms1 ≡ₚ length <$> map (member_text flags depth) ms').
    by rewrite E.
  - intros v v' vs vs' Hv IHv Hvs IHvs flags depth. simpl. by rewrite IHv, IHvs.
Qed.

Lemma render_length v v' flags depth : same_value v v' → length (render flags depth v) = length (render flags depth v').
Proof. intros He. by apply render_lengths. Qed.

(** ** Strings *)

Lemma escaped_nil fuel flags : escaped fuel flags [] = [].
Proof. by destruct fuel. Qed.

Lemma escaped_utf8s flags vs fuel :
  Forall scalar vs → Forall (λ v, v ≠ 0) vs → (length (utf8s vs) ≤ fuel)%nat →
  escaped fuel flags (utf8s vs) = vs ≫= (λ v, if needs_escape flags v then escape v else utf8 v).
Proof.
  intros Hv H0. revert fuel. induction vs as [|v vs IH]; intros fuel Hf; [apply escaped_nil|].
  apply Forall_cons in Hv as [Hv Hvs]. apply Forall_cons in H0 as [H0 H0s]. rewrite utf8s_cons in *.
  pose proof (length_utf8 v) as Hl. rewrite length_app in Hf. destruct fuel as [|fuel]; [lia|]. cbn [escaped].
  destruct (utf8 v ++ utf8s vs) as [|b l] eqn:E; [apply (f_equal length) in E; rewrite length_app in E; simpl in E; lia|].
  rewrite <- E, utf8_iterate_valid by done. cbn [mbind list_bind]. f_equal. apply IH; [done|done|lia].
Qed.

Lemma hex_digit_value d : 0 ≤ d < 16 → hex_value (hex_digit 97 d) = Some d.
Proof.
  intros Hd. unfold hex_digit, hex_value. repeat case_bool; try lia; f_equal; lia.
Qed.

Lemma hex4_value_hex4 v : 0 ≤ v < 0x10000 → hex4_value (hex4 97 v) = Some v.
Proof.
  intros Hv. unfold hex4, hex4_value. rewrite !hex_digit_value by (apply Z.mod_pos_bound; lia). simpl. f_equal.
  byte_arith.
Qed.

(** [|] on numbers without a bit in common. *)
Lemma lor_low_bits a d n : 0 ≤ n → 0 ≤ d < 2 ^ n → Z.lor (a * 2 ^ n) d = a * 2 ^ n + d.
Proof.
  intros Hn Hd. pose proof (Z.add_lor_land (a * 2 ^ n) d) as E.
  assert (Hl : Z.land (a * 2 ^ n) d = 0); [|lia]. clear E. apply Z.bits_inj'. intros k Hk.
  rewrite Z.land_spec, Z.bits_0. destruct (Z.ltb_spec k n).
  - by rewrite Z.mul_pow2_bits_low by lia.
  - rewrite <- (Z.mod_small d (2 ^ n)) by done. rewrite Z.mod_pow2_bits_high by lia.
    apply andb_false_r.
Qed.

(** The two halves of a code point beyond 16 bits. *)
Lemma surrogates v :
  0x10000 ≤ v ≤ 0x10FFFF →
  let c := v - 0x10000 in
  Z.lor 0xD800 (Z.shiftr (Z.land c 0xffc00) 10) = 0xD800 + c `div` 1024 ∧
  Z.lor 0xDC00 (Z.land c 0x003ff) = 0xDC00 + c `mod` 1024.
Proof.
  intros Hv c. assert (Hc : 0 ≤ c < 2 ^ 20) by (unfold c; lia).
  change 0x003ff with (Z.ones 10). rewrite Z.land_ones by lia.
  assert (E : Z.shiftr (Z.land c 0xffc00) 10 = c `div` 1024).
  { rewrite Z.shiftr_land. change (Z.shiftr 0xffc00 10) with (Z.ones 10). rewrite Z.land_ones by lia.
    rewrite Z.shiftr_div_pow2 by lia. change (2 ^ 10) with 1024. apply Z.mod_small.
    change (2 ^ 20) with 1048576 in Hc. byte_arith. }
  rewrite E. assert (H1 : 0 ≤ c `div` 1024 < 1024) by (change (2 ^ 20) with 1048576 in Hc; byte_arith).
  assert (H2 : 0 ≤ c `mod` 1024 < 1024) by (apply Z.mod_pos_bound; lia).
  change (2 ^ 10) with 1024.
  split; [apply (lor_low_bits 54 _ 10)|apply (lor_low_bits 55 _ 10)]; simpl; lia.
Qed.

Lemma escape_text flags v :
  scalar v → v ≠ 0 → needs_escape flags v = true → char_text (escape v) (utf8 v).
Proof.
  intros Hv H0 Hn. pose proof Hv as [Hr Hs]. unfold escape.
  assert (Hshort : ∀ c e, (c, e) ∈ short_escapes → 0 ≤ e < 128 → char_text [92; c] (utf8 e)).
  { intros c e Hin He. rewrite utf8_ascii by done. by constructor. }
  destruct (Z.eqb_spec v 92) as [->|]; [apply Hshort; [set_solver|lia]|].
  destruct (Z.eqb_spec v 34) as [->|]; [apply Hshort; [set_solver|lia]|].
  destruct (Z.eqb_spec v 8) as [->|]; [apply Hshort; [set_solver|lia]|].
  destruct (Z.eqb_spec v 12) as [->|]; [apply Hshort; [set_solver|lia]|].
  destruct (Z.eqb_spec v 10) as [->|]; [apply Hshort; [set_solver|lia]|].
  destruct (Z.eqb_spec v 13) as [->|]; [apply Hshort; [set_solver|lia]|].
  destruct (Z.eqb_spec v 9) as [->|]; [apply Hshort; [set_solver|lia]|].
  destruct (Z.eqb_spec v 47) as [->|]; [apply Hshort; [set_solver|lia]|].
  destruct (Z.ltb_spec v 0x10000) as [Hlt|Hge].
  - apply C_unicode; [apply hex4_value_hex4; lia|done|done].
  - destruct (surrogates v) as [E1 E2]; [lia|]. cbv zeta. rewrite E1, E2.
    set (c := v - 0x10000) in *.
    assert (Hv' : v = 0x10000 + (0xD800 + c `div` 1024 - 0xD800) * 0x400 + (0xDC00 + c `mod` 1024 - 0xDC00)).
    { unfold c. byte_arith. }
    rewrite (f_equal utf8 Hv'). apply (C_pair (hex4 97 _) (hex4 97 _)); [apply hex4_value_hex4..| |];
      unfold high_surrogate, low_surrogate, c; byte_arith.
Qed.

Lemma escaped_text flags vs :
  Forall scalar vs → Forall (λ v, v ≠ 0) vs →
  chars_text (vs ≫= (λ v, if needs_escape flags v then escape v else utf8 v)) (utf8s vs).
Proof.
  intros Hv H0. induction vs as [|v vs IH]; [constructor|].
  apply Forall_cons in Hv as [Hv Hvs]. apply Forall_cons in H0 as [H0 H0s]. rewrite utf8s_cons.
  cbn [mbind list_bind]. apply Cs_cons; [|by apply IH].
  destruct (needs_escape flags v) eqn:E; [by eapply escape_text|].
  unfold needs_escape in E. rewrite !orb_false_iff, !Z.eqb_neq, Z.ltb_ge in E.
  destruct E as [[[[E1 E2] E3] _] _]. by apply C_plain.
Qed.

Lemma quoted_text flags s : clean s → ∃ t, quoted flags s = 34 :: t ++ [34] ∧ chars_text t s.
Proof.
  intros (vs & Hv & H0 & ->). eexists. split; [done|]. rewrite escaped_utf8s by done. by apply escaped_text.
Qed.

(** ** Numbers *)

Lemma number_snoc ds d : number (ds ++ [d]) = number ds * 10 + (d - 48).
Proof. unfold number. by rewrite foldl_app. Qed.

(** The digits of [n] in front of [acc]. *)
Lemma decimal_digits_spec fuel n acc :
  0 ≤ n < 2 ^ Z.of_nat fuel → (0 < fuel)%nat →
  ∃ ds, decimal_digits fuel n acc = ds ++ acc ∧ digits_text ds ∧ number ds = n ∧ (n ≠ 0 → hd 0 ds ≠ 48).
Proof.
  revert n acc. induction fuel as [|fuel IH]; intros n acc Hn Hf; [lia|]. cbn [decimal_digits].
  destruct (Z.ltb_spec n 10) as [Hlt|Hge].
  - exists [48 + n]. rewrite Z.mod_small by lia. split; [done|]. split; [|split; [unfold number; simpl; lia|simpl; lia]].
    destruct (decide (n = 0)) as [->|]; [constructor|]. constructor; [lia|done].
  - assert (Hf' : (0 < fuel)%nat).
    { destruct fuel; [|lia]. change (2 ^ Z.of_nat 1) with 2 in Hn. lia. }
    destruct (IH (n `div` 10) (48 + n `mod` 10 :: acc)) as (ds & E & Hd & Hv & Hh); [|done|].
    { rewrite Nat2Z.inj_succ, Z.pow_succ_r in Hn by lia. byte_arith. }
    exists (ds ++ [48 + n `mod` 10]). rewrite E, <- app_assoc. split; [done|].
    assert (Hh' : hd 0 ds ≠ 48) by (apply Hh; byte_arith).
    destruct Hd as [|d ds Hd Hds]; [done|]. split; [|split].
    + constructor; [done|]. apply Forall_app. split; [done|]. apply Forall_singleton. unfold is_digit. byte_arith.
    + rewrite number_snoc, Hv. byte_arith.
    + intros _. done.
Qed.

Lemma digits_of_spec n : 0 ≤ n → digits_text (digits_of n) ∧ number (digits_of n) = n.
Proof.
  intros Hn. unfold digits_of. destruct (decimal_digits_spec (S (Z.to_nat (Z.log2 n))) n []) as (ds & E & Hd & Hv & _);
    [|lia|by rewrite E, app_nil_r].
  split; [done|]. rewrite Nat2Z.inj_succ, Z2Nat.id by apply Z.log2_nonneg.
  destruct (decide (n = 0)) as [->|]; [done|]. apply Z.log2_spec. lia.
Qed.

Lemma format_integer_text i : int_text (format_integer i) i.
Proof.
  unfold format_integer. destruct (digits_of_spec (Z.abs i)) as [Hd Hv]; [lia|]. case_bool; simpl.
  - pose proof (I_neg _ Hd) as Hi. rewrite Hv in Hi. by replace i with (- Z.abs i) at 2 by lia.
  - pose proof (I_pos _ Hd) as Hi. rewrite Hv in Hi. by replace i with (Z.abs i) at 2 by lia.
Qed.

(** ** Values that can be read back *)

(** The text of a real number is read as the same number. *)
Definition survives (r : double) : Prop :=
  ∃ t, jsonp_dtostr MAX_REAL_STR_LENGTH r = Some t ∧ real_text t ∧ jsonp_strtod t = Ret (Some r).

(** Strings are UTF-8 without NUL, integers fit, reals survive, no object has a
    key twice. *)
Inductive dumpable : jv → Prop :=
  | P_object ms : NoDup ms.*1 → Forall clean ms.*1 → dumpable_all ms.*2 → dumpable (JObject ms)
  | P_array vs : dumpable_all vs → dumpable (JArray vs)
  | P_string s : clean s → dumpable (JString s)
  | P_integer i : in_range i → dumpable (JInteger i)
  | P_real r : survives r → dumpable (JReal r)
  | P_true : dumpable JTrue
  | P_false : dumpable JFalse
  | P_null : dumpable JNull
with dumpable_all : list jv → Prop :=
  | Ps_nil : dumpable_all []
  | Ps_cons v vs : dumpable v → dumpable_all vs → dumpable_all (v :: vs).

Scheme dumpable_mind := Induction for dumpable Sort Prop
  with dumpable_all_mind := Induction for dumpable_all Sort Prop.
Combined Scheme dumpable_ind' from dumpable_mind, dumpable_all_mind.

Lemma dumpable_all_forall vs : dumpable_all vs ↔ Forall dumpable vs.
Proof. split; induction 1; by constructor. Qed.

Lemma dumpable_equivs :
  (∀ v v', same_value v v' → dumpable v → dumpable v') ∧
  (∀ vs vs', same_values vs vs' → dumpable_all vs → dumpable_all vs').
Proof.
  apply equiv_ind'; try done.
  - intros vs vs' He IH H. inversion H; subst. constructor. auto.
  - intros ms ms1 ms' Hp Hk He IH H. inversion H as [ms2 Hnd Hc Ha| | | | | | |]; subst. rewrite dumpable_all_forall in Ha.
    constructor; [by rewrite <- Hk, <- Hp|by rewrite <- Hk, <- Hp|]. apply IH. rewrite dumpable_all_forall. by rewrite <- Hp.
  - intros v v' vs vs' Hv IHv Hvs IHvs H. inversion H; subst. constructor; auto.
Qed.

Lemma dumpable_equiv v v' : same_value v v' → dumpable v → dumpable v'.
Proof. apply dumpable_equivs. Qed.

(** ** The text is in the grammar *)

Lemma indent_ws flags depth space : ws (indent flags depth space).
Proof.
  unfold indent, ws. case_bool.
  - constructor; [unfold white; lia|]. apply Forall_concat, Forall_replicate, Forall_take.
    unfold whitespace. apply Forall_replicate. by left.
  - case_match; [|done]. apply Forall_singleton. by left.
Qed.

Lemma joined_elements flags depth w ts vs :
  ws w → Forall2 value_text ts vs → ts ≠ [] →
  elements_text (w ++ joined (44 :: indent flags (depth + 1) true) (indent flags depth false) ts) vs.
Proof.
  intros Hw Hts Hne. revert w Hw. induction Hts as [|t v ts vs Ht Hts IH]; intros w Hw; [done|].
  cbn [joined]. destruct Hts as [|t' v' ts vs Ht' Hts].
  - apply Es_one; [done|done|apply indent_ws].
  - set (rest := joined _ _ (t' :: ts)) in *.
    apply (Es_cons w t v [] (indent flags (depth + 1) true ++ rest)); [done|done|constructor|].
    apply IH; [done|apply indent_ws].
Qed.

Lemma separator_text flags : ∃ w, separator flags = 58 :: w ∧ ws w.
Proof.
  unfold separator. case_match; eexists; (split; [done|]); [constructor|]. apply Forall_singleton. by left.
Qed.

Lemma joined_members flags depth w ms :
  ws w → Forall clean ms.*1 → Forall (λ kv : list Z * jv, value_text (render flags (depth + 1) kv.2) kv.2) ms → ms ≠ [] →
  members_text (w ++ joined (44 :: indent flags (depth + 1) true) (indent flags depth false)
    (map (member_text flags depth) ms)) ms.
Proof.
  intros Hw Hk Hv Hne. revert w Hw. induction ms as [|[k v] ms IH]; intros w Hw; [done|]. clear Hne.
  rewrite fmap_cons in Hk. apply Forall_cons in Hk as [Hk Hks]. apply Forall_cons in Hv as [Hv Hvs].
  cbn [fst snd] in *. destruct (quoted_text flags k Hk) as (t & Et & Ht). destruct (separator_text flags) as (ws_ & Es & Hs).
  assert (Em : member_text flags depth (k, v) = 34 :: t ++ 34 :: 58 :: ws_ ++ render flags (depth + 1) v).
  { unfold member_text. cbn [fst snd]. rewrite Et, Es. cbn [app]. by rewrite <- app_assoc. }
  destruct ms as [|kv ms].
  - cbn [map joined]. rewrite Em. cbn [app]. rewrite <- app_assoc. cbn [app]. rewrite <- app_assoc.
    apply (Ms_one w t k [] ws_ (render flags (depth + 1) v) v (indent flags depth false)); try done;
      [constructor|apply indent_ws].
  - specialize (IH Hks Hvs ltac:(done)). set (ts := map (member_text flags depth) (kv :: ms)) in *.
    change (map (member_text flags depth) ((k, v) :: kv :: ms)) with (member_text flags depth (k, v) :: ts).
    set (rest := joined _ _ ts) in *.
    change (joined _ _ (member_text flags depth (k, v) :: ts)) with
      (member_text flags depth (k, v) ++ 44 :: indent flags (depth + 1) true ++ rest).
    rewrite Em. cbn [app]. rewrite <- app_assoc. cbn [app]. rewrite <- app_assoc.
    apply (Ms_cons w t k [] ws_ (render flags (depth + 1) v) v [] (indent flags (depth + 1) true ++ rest)); try done;
      [constructor..|]. apply IH, indent_ws.
Qed.

Lemma set_members_fresh (us ms : list (list Z * jv)) :
  NoDup (us ++ ms).*1 → foldl (λ ms kv, set_member kv.1 kv.2 ms) us ms = us ++ ms.
Proof.
  revert us. induction ms as [|[k v] ms IH]; intros us Hnd; [by rewrite app_nil_r|]. cbn [foldl fst snd].
  rewrite set_member_new.
  - rewrite IH; by rewrite <- app_assoc.
  - rewrite fmap_app, fmap_cons in Hnd. apply NoDup_app in Hnd as (_ & Hnd & _). intros Hin.
    by apply (Hnd k Hin), list_elem_of_here.
Qed.

Lemma render_texts :
  (∀ v, dumpable v → ∀ flags depth, value_text (render flags depth v) v) ∧
  (∀ vs, dumpable_all vs → ∀ flags depth, Forall2 value_text (map (render flags depth) vs) vs).
Proof.
  apply dumpable_ind'.
  - intros ms Hnd Hc Ha IH flags depth. rewrite render_object. unfold enclosed.
    destruct ms as [|kv ms]; [apply (T_empty_object []); constructor|]. set (ms' := kv :: ms) in *.
    pose proof (set_members_fresh [] ms' Hnd) as E. rewrite <- E at 2. apply T_object.
    apply joined_members; [apply indent_ws|done| |done]. specialize (IH flags (depth + 1)).
    clearbody ms'. clear -IH. induction ms' as [|[k v] l IH']; [done|]. inversion IH; subst.
    constructor; [done|]. by apply IH'.
  - intros vs Ha IH flags depth. cbn [render]. unfold enclosed.
    destruct vs as [|v vs]; [apply (T_empty_array []); constructor|].
    apply T_array, joined_elements; [apply indent_ws|apply IH|done].
  - intros s Hs flags depth. destruct (quoted_text flags s Hs) as (t & E & Ht). cbn [render]. rewrite E. by constructor.
  - intros i Hi flags depth. constructor; [apply format_integer_text|done].
  - intros r (t & E & Ht & Hr) flags depth. cbn [render]. unfold real_string. rewrite E. by constructor.
  - intros. constructor.
  - intros. constructor.
  - intros. constructor.
  - intros. constructor.
  - intros v vs Hv IHv Hvs IHvs flags depth. constructor; [apply IHv|apply IHvs].
Qed.

Lemma render_text flags v : dumpable v → json_text (render flags 0 v) v.
Proof.
  intros Hv. rewrite <- (app_nil_r (render flags 0 v)). apply (Json_text []); [constructor|by apply render_texts|constructor].
Qed.
