(* ===== verification/JDumpTheory.v ===== *)
(** * Theory of the encoder

    [do_dump] writes the text of the value that a tree denotes, in the order in
    which it visits the members, and leaves the heap as it was. *)

From S2P Require Import Prelude CModel JBase JUtf JStrbuf JHash JHashTheory JValue JArray JReal.
From S2P Require Import JLex JScan JLoad JDump JSpec JLexTheory JStringTheory JTokenTheory JHeap.
From S2P Require Import JBuild JLoadTheory JParseTheory JRender.
From stdpp Require Import strings sorting.
From Stdlib Require Import SpecFloat.
#[local] Open Scope Z_scope.

(** ** Reading the heap *)

Definition reads {A} (m : SM heap A) (h : heap) (v : A) : Prop := ∀ w, m h w = ((Ret v, h), w).

Lemma on_values_reads {S A} (m : SM heap A) h (d : S) v w :
  reads m h v → on_values m (h, d) w = ((Ret v, (h, d)), w).
Proof. intros Hm. unfold on_values, zoom. simpl. by rewrite Hm. Qed.

Lemma reads_ret {A} (a : A) h : reads (mret a) h a.
Proof. done. Qed.

Lemma reads_bind {A B} (m : SM heap A) (f : A → SM heap B) h a b :
  reads m h a → reads (f a) h b → reads (m ≫= f) h b.
Proof. intros Hm Hf w. unfold mbind, SM_bind. by rewrite Hm. Qed.

Lemma reads_lift {A} (o : outcome A) h a : o = Ret a → reads (liftS o) h a.
Proof. by intros -> w. Qed.

Lemma reads_cell a c h : cells h !! a = Some c → reads (get_cell a) h c.
Proof. intros Ha w. unfold get_cell, mbind, SM_bind, get. cbn. by rewrite Ha. Qed.

Lemma read_array a n t h ps i p :
  cells h !! a = Some (Cell n (Array t)) → array_of t ps → ps !! i = Some p →
  reads (json_array_get (Some (Ref a)) (Z.of_nat i)) h (Some p).
Proof.
  intros Ha Ht Hp. unfold json_array_get, json_to_array.
  eapply reads_bind; [eapply reads_bind; [by apply reads_cell|cbn [content]; apply reads_ret]|].
  destruct Ht as [He Hs Hm Hf Htab]. pose proof (lookup_lt_Some _ _ _ Hp) as Hl.
  rewrite (proj2 (Z.leb_gt _ _)) by lia. eapply reads_bind; [|apply reads_ret]. apply reads_lift.
  unfold table_get. rewrite (proj2 (Z.leb_le _ _)), Nat2Z.id by lia.
  assert (E : a_table t !! i = Some (Some p)).
  { rewrite <- (lookup_take_lt _ (length ps)), Htab, list_lookup_fmap by done. by rewrite Hp. }
  rewrite E. done.
Qed.

Section object.
Context (h : heap) (a n : Z) (o : json_object_t) (l : list entry).
Hypothesis object_cell : cells h !! a = Some (Cell n (Object o)).
Hypothesis object_table : table (o_hashtable o) l.

Lemma reads_object {A} (f : option (Z * json_object_t) → SM heap A) v :
  reads (f (Some (a, o))) h v → reads (json_to_object (Some (Ref a)) ≫= f) h v.
Proof.
  intros Hf. eapply reads_bind; [|exact Hf]. unfold json_to_object.
  eapply reads_bind; [by apply reads_cell|]. cbn [content]. apply reads_ret.
Qed.

Lemma read_size : reads (json_object_size (Some (Ref a))) h (Z.of_nat (length l)).
Proof.
  apply reads_object. rewrite (table_size _ _ object_table). apply reads_ret.
Qed.

Lemma read_iter : reads (json_object_iter (Some (Ref a))) h (fst <$> head l).
Proof.
  apply reads_object. destruct object_table as (k & gs & Hrep & <-). apply reads_lift. by eapply iter_spec.
Qed.

Definition suffix_of (es : list entry) : Prop := ∃ l1, l = l1 ++ es.

Lemma in_suffix (e : entry) es : suffix_of (e :: es) → e ∈ l.
Proof using. intros [l1 E]. rewrite E. apply elem_of_app. right. apply list_elem_of_here. Qed.

Lemma suffix_tail (e : entry) es : suffix_of (e :: es) → suffix_of es.
Proof using. intros [l1 E]. exists (l1 ++ [e]). by rewrite E, <- app_assoc. Qed.

Lemma read_next e es :
  suffix_of (e :: es) → reads (json_object_iter_next (Some (Ref a)) (Some e.1)) h (fst <$> head es).
Proof.
  intros [l1 E]. apply reads_object. destruct object_table as (k & gs & Hrep & Egs). apply reads_lift.
  eapply iter_next_spec; [done|]. by rewrite Egs.
Qed.

Lemma read_pair e : e ∈ l → get_pair e.1 (o_hashtable o) = Ret e.2.
Proof. by apply table_pair. Qed.

Lemma read_key e : e ∈ l → reads (json_object_iter_key (Some (Ref a)) (Some e.1)) h (Some (p_key e.2)).
Proof.
  intros He. apply reads_object. eapply reads_bind; [apply reads_lift|apply reads_ret].
  unfold hashtable_iter_key. by rewrite read_pair.
Qed.

Lemma read_value e : e ∈ l → reads (json_object_iter_value (Some (Ref a)) (Some e.1)) h (Some (p_value e.2)).
Proof.
  intros He. apply reads_object. eapply reads_bind; [apply reads_lift|apply reads_ret].
  unfold hashtable_iter_value. by rewrite read_pair.
Qed.

Lemma read_get e : e ∈ l → reads (json_object_get (Some (Ref a)) (p_key e.2)) h (Some (p_value e.2)).
Proof.
  intros He. apply reads_object. apply reads_lift. rewrite (table_lookup _ l) by done. f_equal.
  destruct (find_pair (p_key e.2) l) as [e'|] eqn:Hf.
  - apply find_pair_in in Hf as [He' Hk]. simpl. do 2 f_equal.
    pose proof (table_keys _ _ object_table) as Hnd. f_equal.
    apply list_elem_of_lookup in He as [i Hi]. apply list_elem_of_lookup in He' as [j Hj].
    assert (i = j) as ->.
    { eapply NoDup_lookup; [exact Hnd|unfold keys; rewrite list_lookup_fmap, Hi; done|].
      unfold keys. rewrite list_lookup_fmap, Hj. simpl. by f_equal. }
    by simplify_eq.
  - apply find_pair_none in Hf. destruct Hf. unfold keys. apply list_elem_of_fmap. by exists e.
Qed.

Definition object_key_of (e : entry) : object_key := ObjectKey (p_serial e.2) (p_key e.2).

Lemma collect_keys_reads k es :
  suffix_of es → (length es ≤ k)%nat →
  reads (collect_keys k (Some (Ref a)) (fst <$> head es)) h (object_key_of <$> es).
Proof.
  revert k. induction es as [|e es IH]; intros k El Hf.
  - destruct k; apply reads_ret.
  - destruct k as [|k]; [simpl in Hf; lia|]. cbn [head fmap option_fmap option_map collect_keys].
    pose proof (in_suffix e _ El) as He. apply reads_object.
    eapply reads_bind; [apply reads_lift; unfold hashtable_iter_serial; by rewrite read_pair|].
    eapply reads_bind; [by apply read_key|]. eapply reads_bind; [by apply reads_lift|].
    eapply reads_bind; [by apply (read_next e es)|].
    eapply reads_bind; [apply IH; [by eapply suffix_tail|simpl in Hf; lia]|]. apply reads_ret.
Qed.
End object.

(** ** The text that is written *)

Section dump.
Context {S : Type} (dump : list Z → SM S unit).
Abbreviation state := (heap * S)%type.

(** What the callback promises: it takes over every text as long as the total
    stays below a limit. *)
Context (written : S → list Z → Prop) (capacity : Z).
Hypothesis sink : ∀ text d l, written d l → Z.of_nat (length l + length text) < capacity →
  wpr (dump text) d (λ _ d', written d' (l ++ text)).

(** The routine writes [n] bytes, a text in [R], and the heap stays [h]. *)
Definition writes {A} (m : SM state A) (h : heap) (R : list Z → Prop) (n : nat) : Prop :=
  ∀ d l, written d l → Z.of_nat (length l + n) < capacity →
    wpr m (h, d) (λ _ s, s.1 = h ∧ ∃ t, R t ∧ length t = n ∧ written s.2 (l ++ t)).

Definition text (t : list Z) : list Z → Prop := λ u, u = t.
Definition seq (R1 R2 : list Z → Prop) : list Z → Prop := λ t, ∃ t1 t2, t = t1 ++ t2 ∧ R1 t1 ∧ R2 t2.

Lemma writes_ret {A} (a : A) h : writes (mret a) h (text []) 0.
Proof.
  intros d l Hd _. apply wp_ret. split; [done|]. exists []. by rewrite app_nil_r.
Qed.

Lemma writes_mono {A} (m : SM state A) h (R R' : list Z → Prop) n n' :
  writes m h R n → n = n' → (∀ t, R t → R' t) → writes m h R' n'.
Proof.
  intros Hm <- HR d l Hd Hc. eapply wp_mono; [by apply Hm|]. intros [a| |] s Hs; [|done..].
  destruct Hs as (Hh & t & Ht & Hn & Hw). split; [done|]. exists t. auto.
Qed.

Lemma writes_emit t h : writes (emit dump t) h (text t) (length t).
Proof.
  intros d l Hd Hc w Hw. destruct (sink t d l Hd Hc w Hw) as [Hw' H]. unfold emit, zoom. simpl.
  destruct (dump t d w) as [[[a| |] d'] w']; [|done..]. split; [done|]. split; [done|]. by exists t.
Qed.

Lemma writes_bind {A B} (m : SM state A) (f : A → SM state B) h R1 R2 n1 n2 :
  writes m h R1 n1 → (∀ a, writes (f a) h R2 n2) → writes (m ≫= f) h (seq R1 R2) (n1 + n2).
Proof.
  intros Hm Hf d l Hd Hc. eapply wp_seq; [apply Hm; [done|lia]|].
  intros a [h' d1] (E & t1 & H1 & Hn1 & Hw1). simpl in *. subst h'.
  eapply wp_mono; [apply (Hf a d1 (l ++ t1)); [done|rewrite length_app; lia]|]. intros [b| |] s Hs; [|done..].
  destruct Hs as (Hh & t2 & H2 & Hn2 & Hw2). split; [done|]. exists (t1 ++ t2).
  rewrite length_app, app_assoc. split; [by exists t1, t2|]. split; [lia|done].
Qed.

(** Text that is known. *)
Lemma writes_then {B} t (m : SM state unit) (f : unit → SM state B) h R n :
  writes m h (text t) (length t) → writes (f tt) h R n →
  writes (m ≫= f) h (λ u, ∃ v, u = t ++ v ∧ R v) (length t + n).
Proof.
  intros Hm Hf. eapply writes_mono; [apply writes_bind; [done|intros []; done]|done|].
  intros u (t1 & t2 & -> & -> & H2). by exists t2.
Qed.

(** Reading the heap. *)
Lemma writes_read {A B} (m : SM heap A) (f : A → SM state B) h v R n :
  reads m h v → writes (f v) h R n → writes (on_values m ≫= f) h R n.
Proof.
  intros Hm Hf d l Hd Hc. apply (wp_seq _ _ _ (λ a s, a = v ∧ s = (h, d))).
  - intros w Hw. by rewrite (on_values_reads m h d v w Hm).
  - intros a s (-> & ->). by apply Hf.
Qed.

(** ** Indentation *)

Lemma dump_indent_writes flags depth space h :
  0 ≤ depth → writes (dump_indent dump flags depth space) h (text (indent flags depth space)) (length (indent flags depth space)).
Proof.
  intros Hd. unfold dump_indent, indent. case_bool.
  - eapply writes_mono; [eapply (writes_then [10]); [apply (writes_emit [10])|]|done|].
    + set (u := take _ _). assert (Hloop : ∀ k lo, writes (foldM (λ _ (_ : unit), emit dump u) (range lo (lo + Z.of_nat k)) tt) h
        (text (concat (replicate k u))) (length (concat (replicate k u)))).
      { induction k as [|k IH]; intros lo.
        - rewrite range_seqZ, Z.add_0_r, Z.sub_diag. apply writes_ret.
        - rewrite range_seqZ. replace (lo + Z.of_nat (Datatypes.S k) - lo) with (Z.of_nat (Datatypes.S k)) by lia.
          rewrite seqZ_cons by lia. cbn [foldM replicate concat].
          eapply writes_mono; [eapply (writes_then u); [apply writes_emit|]|by rewrite length_app|].
          + specialize (IH (Z.succ lo)). rewrite range_seqZ in IH.
            replace (Z.succ lo + Z.of_nat k - Z.succ lo) with (Z.pred (Z.of_nat (Datatypes.S k))) in IH by lia. exact IH.
          + by intros t (v & -> & ->). }
      specialize (Hloop (Z.to_nat depth) 0). rewrite Z.add_0_l, Z2Nat.id in Hloop by lia. exact Hloop.
    + by intros t (v & -> & ->).
  - destruct (space && negb (has flags JSON_COMPACT)); [apply writes_emit|apply writes_ret].
Qed.

(** ** Strings *)

Definition shown (flags v : Z) : list Z := if needs_escape flags v then escape v else utf8 v.

Lemma plain_run_spec flags vs fuel :
  Forall scalar vs → Forall (λ v, v ≠ 0) vs → (length vs ≤ fuel)%nat →
  (Forall (λ v, needs_escape flags v = false) vs ∧ plain_run fuel flags (utf8s vs ++ [0]) = Ret ([0], [0], None)) ∨
  ∃ vs1 v vs2, vs = vs1 ++ v :: vs2 ∧ Forall (λ v, needs_escape flags v = false) vs1 ∧ needs_escape flags v = true ∧
    plain_run fuel flags (utf8s vs ++ [0]) = Ret (utf8s (v :: vs2) ++ [0], utf8s vs2 ++ [0], Some v).
Proof.
  intros Hv H0. revert fuel. induction vs as [|v vs IH]; intros fuel Hf.
  - left. split; [done|]. by destruct fuel.
  - apply Forall_cons in Hv as [Hv Hvs]. apply Forall_cons in H0 as [H0 H0s].
    simpl in Hf. destruct fuel as [|fuel]; [lia|].
    assert (E : plain_run (Datatypes.S fuel) flags (utf8s (v :: vs) ++ [0]) =
      if needs_escape flags v then Ret (utf8s (v :: vs) ++ [0], utf8s vs ++ [0], Some v)
      else plain_run fuel flags (utf8s vs ++ [0])).
    { rewrite utf8s_cons, <- app_assoc. cbn [plain_run]. destruct (utf8_cons v) as (b & l & El).
      assert (Hb : b ≠ 0).
      { intros ->. apply (f_equal (hd 1)) in El. pose proof Hv as [Hr _]. simpl in El. revert El.
        unfold utf8. repeat case_bool; simpl; byte_arith. }
      rewrite El at 1. change (readZ ((b :: l) ++ utf8s vs ++ [0]) 0) with (Ret b). cbn [mbind outcome_bind].
      rewrite (proj2 (Z.eqb_neq b 0)) by done. rewrite utf8_iterate_valid by done. cbn [mbind outcome_bind deref].
      by destruct (needs_escape flags v). }
    rewrite E. destruct (needs_escape flags v) eqn:En.
    + right. by exists [], v, vs.
    + destruct (IH Hvs H0s fuel) as [[Ha E']|(vs1 & u & vs2 & -> & H1 & H2 & E')]; [lia| |].
      * left. split; [by constructor|done].
      * right. exists (v :: vs1), u, vs2. split; [done|]. split; [by constructor|done].
Qed.

Lemma shown_plain flags vs : Forall (λ v, needs_escape flags v = false) vs → vs ≫= shown flags = utf8s vs.
Proof.
  induction 1 as [|v vs Hv Hvs IH]; [done|]. rewrite utf8s_cons. cbn [mbind list_bind].
  change (shown flags v ++ (vs ≫= shown flags) = utf8 v ++ utf8s vs). rewrite IH. unfold shown. by rewrite Hv.
Qed.

Lemma utf8s_app vs1 vs2 : utf8s (vs1 ++ vs2) = utf8s vs1 ++ utf8s vs2.
Proof. unfold utf8s. by rewrite bind_app. Qed.

Lemma utf8s_length vs : (length vs ≤ length (utf8s vs))%nat.
Proof.
  induction vs as [|v vs IH]; [done|]. rewrite utf8s_cons, length_app. pose proof (length_utf8 v). simpl. lia.
Qed.

(** The text up to [pos], when there is any. *)
Lemma emit_run u h :
  writes (if bool_decide (length u = O) then mret tt else emit dump u) h (text u) (length u).
Proof.
  case_bool_decide as Hu; [|apply writes_emit]. apply length_zero_iff_nil in Hu as ->. apply writes_ret.
Qed.

Lemma string_loop_writes flags vs fuel h :
  Forall scalar vs → Forall (λ v, v ≠ 0) vs → (length vs ≤ fuel)%nat →
  writes (string_loop dump fuel flags (utf8s vs ++ [0])) h (text (vs ≫= shown flags)) (length (vs ≫= shown flags)).
Proof.
  intros Hv H0. remember (length vs) as n eqn:En. revert vs fuel En Hv H0.
  induction (lt_wf n) as [n _ IH]. intros vs fuel -> Hv H0 Hf.
  assert (Hrun : (length vs ≤ length (utf8s vs ++ [0%Z]))%nat).
  { rewrite length_app. pose proof (utf8s_length vs). lia. }
  destruct (plain_run_spec flags vs (length (utf8s vs ++ [0])) Hv H0 Hrun)
    as [[Hp E]|(vs1 & v & vs2 & -> & H1 & H2 & E)].
  - rewrite shown_plain by done.
    assert (Eloop : string_loop dump fuel flags (utf8s vs ++ [0]) =
      (_ ← (if bool_decide (length (utf8s vs) = O) then mret tt else emit dump (utf8s vs)); mret tt)).
    { destruct fuel; cbn [string_loop]; rewrite E; unfold liftS, liftO, lift; unfold mbind, SM_bind;
        cbn [length]; rewrite length_app; cbn [length]; rewrite Nat.add_sub, take_app_length; reflexivity. }
    rewrite Eloop.
    eapply writes_mono; [eapply (writes_then (utf8s vs)); [apply emit_run|apply writes_ret]|simpl; lia|].
    intros t (u & -> & ->). by rewrite app_nil_r.
  - apply Forall_app in Hv as [Hv1 Hv]. apply Forall_cons in Hv as [Hv Hv2].
    apply Forall_app in H0 as [H01 H0]. apply Forall_cons in H0 as [H0 H02].
    rewrite length_app in Hf. simpl in Hf. destruct fuel as [|fuel]; [lia|].
    assert (Eloop : string_loop dump (Datatypes.S fuel) flags (utf8s (vs1 ++ v :: vs2) ++ [0]) =
      (_ ← (if bool_decide (length (utf8s vs1) = O) then mret tt else emit dump (utf8s vs1));
       _ ← emit dump (escape v); string_loop dump fuel flags (utf8s vs2 ++ [0]))).
    { cbn [string_loop]. rewrite E. unfold liftS, liftO, lift. unfold mbind at 1, SM_bind at 1.
      rewrite utf8s_app, <- app_assoc, !length_app, Nat.add_sub, take_app_length. reflexivity. }
    rewrite Eloop. rewrite bind_app. cbn [mbind list_bind].
    rewrite (shown_plain flags vs1 H1).
    assert (Es : shown flags v = escape v) by (unfold shown; by rewrite H2).
    change (list_bind _ _ _ vs2) with (vs2 ≫= shown flags). rewrite Es.
    eapply writes_mono.
    + eapply (writes_then (utf8s vs1)); [apply emit_run|].
      eapply (writes_then (escape v)); [apply writes_emit|].
      apply (IH (length vs2)); [rewrite length_app; simpl; lia|done|done|done|lia].
    + rewrite !length_app. lia.
    + by intros t (u & -> & u2 & -> & ->).
Qed.

Lemma dump_string_writes flags s h :
  clean s → writes (dump_string dump s flags) h (text (quoted flags s)) (length (quoted flags s)).
Proof.
  intros (vs & Hv & H0 & ->). unfold dump_string, quoted. rewrite escaped_utf8s by done.
  change (vs ≫= _) with (vs ≫= shown flags).
  eapply writes_mono.
  - eapply (writes_then [34]); [apply (writes_emit [34])|].
    eapply (writes_then (vs ≫= shown flags)); [|apply (writes_emit [34])].
    apply string_loop_writes; [done|done|apply utf8s_length].
  - simpl. rewrite length_app. simpl. lia.
  - by intros t (u & -> & u2 & -> & ->).
Qed.

(** ** Containers *)

Definition as_value (flags depth : Z) (v : jv) : list Z → Prop := λ t, ∃ v', same_value v v' ∧ t = render flags depth v'.

Definition sep_text (flags depth : Z) : list Z := 44 :: indent flags (depth + 1) true.
Definition last_text (flags depth : Z) : list Z := indent flags depth false.

Lemma separate_writes flags depth more h :
  0 ≤ depth → let t := if more : bool then sep_text flags depth else last_text flags depth in
  writes (separate dump flags depth more) h (text t) (length t).
Proof.
  intros Hd. destruct more; unfold separate, sep_text, last_text; [|by apply dump_indent_writes].
  eapply writes_mono.
  - eapply (writes_then [44]); [apply (writes_emit [44])|apply dump_indent_writes; lia].
  - done.
  - by intros t (u & -> & ->).
Qed.

Lemma joined_cons sep last t ts :
  joined sep last (t :: ts) = t ++ match ts with [] => last | _ => sep ++ joined sep last ts end.
Proof. by destruct ts. Qed.

Section nested.
Context (do_dump : option ref → Z → SM state unit) (flags depth : Z) (fuel : nat).
Hypothesis depth_pos : 0 ≤ depth.
Hypothesis nested : ∀ p v B h, unfolds (cells h) p v B → dumpable v → (size B ≤ fuel)%nat →
  writes (do_dump (Some p) (depth + 1)) h (as_value flags (depth + 1) v) (length (render flags (depth + 1) v)).

Lemma dump_elements_writes h a n t ps2 vs ps1 B :
  cells h !! a = Some (Cell n (Array t)) → array_of t (ps1 ++ ps2) → unfolds_all (cells h) ps2 vs B →
  dumpable_all vs → (size B ≤ fuel)%nat →
  let joins vs := joined (sep_text flags depth) (last_text flags depth) (map (render flags (depth + 1)) vs) in
  writes (dump_elements dump do_dump flags depth (length ps2) (Some (Ref a)) (Z.of_nat (length ps1))
            (Z.of_nat (length (ps1 ++ ps2)))) h
    (λ u, ∃ vs', same_values vs vs' ∧ u = joins vs') (length (joins vs)).
Proof.
  intros Ha Ht Hps Hv Hs joins. revert ps1 Ht Hv Hs. induction Hps as [|p ps v vs B C Hp Hps IH]; intros ps1 Ht Hv Hs.
  - eapply writes_mono; [apply writes_ret|done|]. intros u ->. exists []. split; [constructor|done].
  - inversion Hv as [|v1 vs1 Hv1 Hvs1]; subst. cbn [length dump_elements].
    assert (HsB : (size B ≤ fuel)%nat) by (etrans; [|exact Hs]; apply subseteq_size; set_solver).
    assert (HsC : (size C ≤ fuel)%nat) by (etrans; [|exact Hs]; apply subseteq_size; set_solver).
    eapply writes_read.
    { eapply read_array; [done|done|]. by apply list_lookup_middle. }
    assert (Emore : (Z.of_nat (length ps1) <? Z.of_nat (length (ps1 ++ p :: ps)) - 1) =
      match ps with [] => false | _ => true end).
    { rewrite length_app. destruct ps; simpl; [apply Z.ltb_ge|apply Z.ltb_lt]; lia. }
    rewrite Emore. specialize (IH (ps1 ++ [p])). rewrite <- app_assoc in IH. specialize (IH Ht Hvs1 HsC).
    rewrite length_app in IH. cbn [length] in IH.
    replace (Z.of_nat (length ps1 + 1)) with (Z.of_nat (length ps1) + 1) in IH by lia.
    pose proof (unfolds_all_length _ _ _ _ Hps) as Hlen.
    eapply writes_mono.
    + eapply writes_bind; [by eapply nested|]. intros []. eapply writes_bind; [by apply separate_writes|].
      intros []. exact IH.
    + unfold joins. cbn [map]. rewrite joined_cons. destruct vs as [|v2 vs], ps as [|p2 ps]; try done.
      * inversion Hps; subst. rewrite !length_app. simpl. lia.
      * cbn [map]. rewrite !length_app. lia.
    + intros u (t1 & t2 & -> & (v' & He & ->) & t3 & t4 & -> & -> & vs' & Hes & ->).
      exists (v' :: vs'). split; [by constructor|]. unfold joins. cbn [map]. rewrite joined_cons.
      pose proof (equiv_all_length _ _ Hes) as Hlen'.
      destruct vs as [|v2 vs], ps as [|p2 ps], vs' as [|v3 vs']; try done. simpl. by rewrite app_nil_r.
Qed.

(** A container without its closing bracket. *)
Definition opened (open : Z) (ts : list (list Z)) : list Z :=
  open :: match ts with
          | [] => []
          | _ => indent flags (depth + 1) false ++ joined (sep_text flags depth) (last_text flags depth) ts
          end.

Lemma enclosed_opened open close ts : enclosed flags depth open close ts = opened open ts ++ [close].
Proof. done. Qed.

Lemma dump_array_writes h a n t ps vs B :
  cells h !! a = Some (Cell n (Array t)) → array_of t ps → unfolds_all (cells h) ps vs B →
  dumpable_all vs → (size B ≤ fuel)%nat →
  writes (dump_array dump do_dump flags depth (Some (Ref a))) h
    (λ u, ∃ vs', same_values vs vs' ∧ u = opened 91 (map (render flags (depth + 1)) vs'))
    (length (opened 91 (map (render flags (depth + 1)) vs))).
Proof.
  intros Ha Ht Hps Hv Hs. unfold dump_array. pose proof (unfolds_all_length _ _ _ _ Hps) as Hlen.
  eapply writes_read.
  { unfold json_array_size, json_to_array.
    eapply reads_bind; [eapply reads_bind; [by apply reads_cell|cbn [content]; apply reads_ret]|apply reads_ret]. }
  rewrite (array_entries _ _ Ht).
  destruct ps as [|p ps], vs as [|v vs]; try done.
  - eapply writes_mono; [eapply (writes_then [91]); [apply (writes_emit [91])|apply writes_ret]|done|].
    intros u (w & -> & ->). exists []. split; [constructor|done].
  - rewrite (proj2 (Z.eqb_neq _ _)) by (simpl; lia). rewrite Nat2Z.id.
    eapply writes_mono.
    + eapply (writes_then [91]); [apply (writes_emit [91])|].
      eapply (writes_then (indent flags (depth + 1) false)); [apply dump_indent_writes; lia|].
      by apply (dump_elements_writes h a n t (p :: ps) (v :: vs) [] B).
    + unfold opened. cbn [map length]. rewrite length_app. done.
    + intros u (w & -> & w2 & -> & vs' & He & ->). exists vs'. split; [done|]. unfold opened.
      pose proof (equiv_all_length _ _ He). destruct vs' as [|v' vs']; [done|]. done.
Qed.
(** *** Members *)

Lemma writes_ignore (m : SM state unit) h R k : writes m h R k → writes (ignore m) h R k.
Proof.
  intros Hm d l Hd Hc. apply wp_ignore. eapply wp_mono; [by apply Hm|]. by intros [[]| |] s Hs.
Qed.

Lemma dump_member_writes k p v B h more :
  unfolds (cells h) p v B → dumpable v → clean k → (size B ≤ fuel)%nat →
  let t := if more : bool then sep_text flags depth else last_text flags depth in
  writes (dump_member dump do_dump flags depth k (Some p) more) h
    (λ u, ∃ v', same_value v v' ∧ u = member_text flags depth (k, v') ++ t)
    (length (member_text flags depth (k, v)) + length t).
Proof.
  intros Hp Hv Hk Hs t. unfold dump_member, member_text. cbn [fst snd]. eapply writes_mono.
  - eapply (writes_then (quoted flags k)); [by apply writes_ignore, dump_string_writes|].
    eapply (writes_then (separator flags)); [apply writes_emit|].
    eapply writes_bind; [by eapply nested|]. intros []. by apply separate_writes.
  - rewrite !length_app. fold t. lia.
  - intros u (w & -> & w2 & -> & w3 & w4 & -> & (v' & He & ->) & ->). exists v'. split; [done|].
    by rewrite <- !app_assoc.
Qed.

Section object.
Context (h : heap) (a n : Z) (o : json_object_t) (l : list entry).
Hypothesis object_cell : cells h !! a = Some (Cell n (Object o)).
Hypothesis object_table : table (o_hashtable o) l.

Definition members (es : list entry) (vs : list jv) : list Z :=
  joined (sep_text flags depth) (last_text flags depth) (map (member_text flags depth) (zip (keys es) vs)).

Lemma members_cons_text e es v vs :
  length es = length vs →
  members (e :: es) (v :: vs) =
  member_text flags depth (p_key e.2, v) ++
    match es with [] => last_text flags depth | _ => sep_text flags depth ++ members es vs end.
Proof.
  intros Hl. unfold members, keys. cbn [fmap list_fmap zip zip_with map]. rewrite joined_cons.
  by destruct es, vs.
Qed.

(** One member and the rest. *)
Lemma member_then e es v vs B C (m : SM state unit) :
  unfolds (cells h) (p_value e.2) v B → unfolds_all (cells h) (entry_values es) vs C → dumpable v → clean (p_key e.2) →
  (size B ≤ fuel)%nat →
  (match es with
   | [] => writes m h (text []) 0
   | _ => writes m h (λ u, ∃ vs', same_values vs vs' ∧ u = members es vs') (length (members es vs))
   end) →
  writes (_ ← dump_member dump do_dump flags depth (p_key e.2) (Some (p_value e.2))
                (match es with [] => false | _ => true end); m) h
    (λ u, ∃ vs', same_values (v :: vs) vs' ∧ u = members (e :: es) vs') (length (members (e :: es) (v :: vs))).
Proof.
  intros Hp Hps Hv Hk Hs Hm. pose proof (unfolds_all_length _ _ _ _ Hps) as Hlen. unfold entry_values in Hlen.
  rewrite length_fmap in Hlen. rewrite members_cons_text by done.
  destruct es as [|e2 es], vs as [|v2 vs]; try done.
  - eapply writes_mono; [eapply writes_bind; [by eapply dump_member_writes|intros []; exact Hm]|rewrite length_app; lia|].
    intros u (t1 & t2 & -> & (v' & He & ->) & ->). exists [v']. split; [by constructor; [|constructor]|].
    rewrite members_cons_text by done. by rewrite app_nil_r.
  - eapply writes_mono; [eapply writes_bind; [by eapply dump_member_writes|intros []; exact Hm]|rewrite !length_app; lia|].
    intros u (t1 & t2 & -> & (v' & He & ->) & vs' & Hes & ->). exists (v' :: vs'). split; [by constructor|].
    rewrite members_cons_text by (by rewrite <- (equiv_all_length _ _ Hes)). by rewrite <- app_assoc.
Qed.

Lemma dump_members_writes k e es vs B :
  suffix_of l (e :: es) → unfolds_all (cells h) (entry_values (e :: es)) vs B → dumpable_all vs →
  Forall clean (keys (e :: es)) → (size B ≤ fuel)%nat → (length es ≤ k)%nat →
  writes (dump_members dump do_dump flags depth k (Some (Ref a)) e.1) h
    (λ u, ∃ vs', same_values vs vs' ∧ u = members (e :: es) vs') (length (members (e :: es) vs)).
Proof.
  revert k e vs B. induction es as [|e2 es IH]; intros k e vs B El Hps Hv Hk Hs Hf;
    inversion Hps as [|p ps v vs2 B1 C Hp Hps2]; subst;
    inversion Hv as [|v1 vs1 Hv1 Hvs1]; subst; apply Forall_cons in Hk as [Hk Hks];
    pose proof (in_suffix l e _ El) as He; pose proof (suffix_tail l e _ El) as Et; 
    assert (HsB : (size B1 ≤ fuel)%nat) by (etrans; [|exact Hs]; apply subseteq_size; set_solver);
    assert (HsC : (size C ≤ fuel)%nat) by (etrans; [|exact Hs]; apply subseteq_size; set_solver).
  - assert (E : writes (next ← on_values (json_object_iter_next (Some (Ref a)) (Some e.1));
                        key ← on_values (json_object_iter_key (Some (Ref a)) (Some e.1));
                        key ← liftS (deref key);
                        value ← on_values (json_object_iter_value (Some (Ref a)) (Some e.1));
                        _ ← dump_member dump do_dump flags depth key value (match next with Some _ => true | None => false end);
                        match next, k with
                        | None, _ => mret tt
                        | Some _, O => sundef
                        | Some next, Datatypes.S k => dump_members dump do_dump flags depth k (Some (Ref a)) next
                        end) h (λ u, ∃ vs', same_values (v :: vs2) vs' ∧ u = members [e] vs') (length (members [e] (v :: vs2))));
      [|by destruct k].
    eapply writes_read; [by apply (read_next h a n o l object_cell object_table e)|]. eapply writes_read; [by apply (read_key h a n o l)|].
    change (writes (value ← on_values (json_object_iter_value (Some (Ref a)) (Some e.1));
      _ ← dump_member dump do_dump flags depth (p_key e.2) value false; mret tt) h
      (λ u, ∃ vs', same_values (v :: vs2) vs' ∧ u = members [e] vs') (length (members [e] (v :: vs2)))).
    eapply writes_read; [by apply (read_value h a n o l)|].
    eapply (member_then e [] v vs2 B1 C); try done. apply writes_ret.
  - destruct k as [|k]; [simpl in Hf; lia|]. cbn [dump_members].
    eapply writes_read; [by apply (read_next h a n o l object_cell object_table e)|]. eapply writes_read; [by apply (read_key h a n o l)|].
    change (writes (value ← on_values (json_object_iter_value (Some (Ref a)) (Some e.1));
      _ ← dump_member dump do_dump flags depth (p_key e.2) value true;
      dump_members dump do_dump flags depth k (Some (Ref a)) e2.1) h
      (λ u, ∃ vs', same_values (v :: vs2) vs' ∧ u = members (e :: e2 :: es) vs') (length (members (e :: e2 :: es) (v :: vs2)))).
    eapply writes_read; [by apply (read_value h a n o l)|].
    eapply (member_then e (e2 :: es) v vs2 B1 C); try done.
    apply (IH k e2 vs2 C); try done. simpl in Hf; lia.
Qed.

(** The members in the order of a list of keys. *)
Lemma dump_sorted_writes es ks vs B :
  k_key <$> ks = keys es → (∀ e, e ∈ es → e ∈ l) → unfolds_all (cells h) (entry_values es) vs B → dumpable_all vs →
  Forall clean (keys es) → (size B ≤ fuel)%nat →
  writes (dump_sorted dump do_dump flags depth (Some (Ref a)) ks) h
    (λ u, ∃ vs', same_values vs vs' ∧ u = members es vs') (length (members es vs)).
Proof.
  revert ks vs B. induction es as [|e es IH]; intros ks vs B Hks Hin Hps Hv Hk Hs;
    (destruct ks as [|k ks]; [try done|try done]).
  - inversion Hps; subst. eapply writes_mono; [apply writes_ret|done|]. intros u ->. exists [].
    split; [constructor|done].
  - inversion Hps as [|p ps v vs2 B1 C Hp Hps2]; subst. inversion Hv as [|v1 vs1 Hv1 Hvs1]; subst.
    apply Forall_cons in Hk as [Hk Hks']. unfold keys in Hks. rewrite !fmap_cons in Hks. injection Hks as Ek Hks.
    assert (HsB : (size B1 ≤ fuel)%nat) by (etrans; [|exact Hs]; apply subseteq_size; set_solver).
    assert (HsC : (size C ≤ fuel)%nat) by (etrans; [|exact Hs]; apply subseteq_size; set_solver).
    cbn [dump_sorted]. rewrite Ek. eapply writes_read; [apply (read_get h a n o l object_cell object_table), Hin, list_elem_of_here|].
    assert (Emore : match ks with [] => false | _ => true end = match es with [] => false | _ => true end).
    { by destruct ks, es. }
    rewrite Emore.
    change (writes (_ ← dump_member dump do_dump flags depth (p_key e.2) (Some (p_value e.2))
        (match es with [] => false | _ => true end); dump_sorted dump do_dump flags depth (Some (Ref a)) ks) h
      (λ u, ∃ vs', same_values (v :: vs2) vs' ∧ u = members (e :: es) vs') (length (members (e :: es) (v :: vs2)))).
    assert (Hrest : writes (dump_sorted dump do_dump flags depth (Some (Ref a)) ks) h
      (λ u, ∃ vs', same_values vs2 vs' ∧ u = members es vs') (length (members es vs2))).
    { apply (IH ks vs2 C); try done. intros e' He'. apply Hin. by right. }
    eapply (member_then e es v vs2 B1 C); try done. destruct es as [|e2 es]; [|done].
    destruct ks; [|done]. apply writes_ret.
Qed.
(** The members as they are visited. *)
Definition as_members (ms : list (list Z * jv)) : list Z → Prop := λ u, ∃ ms',
  same_value (JObject ms) (JObject ms') ∧ u = opened 123 (map (member_text flags depth) ms').

Lemma same_order ms ms' :
  ms ≡ₚ ms' → same_value (JObject ms) (JObject ms').
Proof. intros Hp. apply (Q_object ms ms' ms' Hp eq_refl), equiv_all_refl. Qed.

Lemma opened_length ms ms' :
  same_value (JObject ms) (JObject ms') →
  length (opened 123 (map (member_text flags depth) ms)) = length (opened 123 (map (member_text flags depth) ms')).
Proof.
  intros He. apply (render_length _ _ flags depth) in He.
  rewrite !render_object, !(enclosed_opened 123 125), !length_app in He. lia.
Qed.

Lemma zip_values (es : list entry) (vs : list jv) : length vs = length es → (zip (keys es) vs).*2 = vs.
Proof. intros Hl. apply snd_zip. unfold keys. rewrite length_fmap. lia. Qed.

(** What the loops write is the inside of an object with the same members. *)
Lemma members_object ms es vs (m : SM state unit) :
  es ≠ [] → length vs = length es → ms ≡ₚ zip (keys es) vs →
  writes m h (λ u, ∃ vs', same_values vs vs' ∧ u = members es vs') (length (members es vs)) →
  writes (_ ← dump_indent dump flags (depth + 1) false; m) h
    (λ u, ∃ ms', same_value (JObject ms) (JObject ms') ∧ 123 :: u = opened 123 (map (member_text flags depth) ms'))
    (length (opened 123 (map (member_text flags depth) ms)) - 1).
Proof.
  intros Hne Hl Hms Hm. rewrite (opened_length ms _ (same_order _ _ Hms)). eapply writes_mono.
  - eapply (writes_then (indent flags (depth + 1) false)); [apply dump_indent_writes; lia|exact Hm].
  - destruct es as [|e es], vs as [|v vs]; try done. cbn [opened keys fmap list_fmap zip zip_with map length].
    rewrite length_app. unfold members, keys. cbn [fmap list_fmap zip zip_with map]. lia.
  - intros u (w & -> & vs' & He & ->). exists (zip (keys es) vs'). pose proof (equiv_all_length _ _ He) as Hl'. split.
    + apply (Q_object ms (zip (keys es) vs)); [done|by rewrite !keys_zip by congruence|by rewrite !zip_values by congruence].
    + destruct es as [|e es], vs' as [|v' vs']; try done; simpl in *; lia.
Qed.

Lemma writes_malloc {A} k (f : unit → SM state A) R m :
  0 < k → writes (f tt) h R m → writes (lift (jsonp_malloc k) ≫= f) h R m.
Proof. intros Hk Hf d u Hd Hc. apply wp_lift_malloc; [done|]. by apply Hf. Qed.

Lemma dump_object_writes ms vs B :
  unfolds_all (cells h) (entry_values l) vs B → ms ≡ₚ zip (keys l) vs → dumpable_all vs → Forall clean (keys l) →
  (size B ≤ fuel)%nat →
  writes (dump_object dump do_dump flags depth (Some (Ref a))) h (as_members ms)
    (length (opened 123 (map (member_text flags depth) ms))).
Proof.
  intros Hps Hms Hv Hk Hs. unfold dump_object. pose proof (unfolds_all_length _ _ _ _ Hps) as Hlen.
  unfold entry_values in Hlen. rewrite length_fmap in Hlen. symmetry in Hlen.
  eapply writes_read; [by apply (read_iter h a n o l)|].
  destruct (decide (l = [])) as [El|Hne].
  { rewrite El in *. destruct vs; [|done]. simpl in Hms. apply Permutation_nil_r in Hms as ->.
    eapply writes_mono; [eapply (writes_then [123]); [apply (writes_emit [123])|apply writes_ret]|done|].
    intros u (w & -> & ->). exists []. split; [constructor|done]. }
  assert (Hhead : ∃ e, head l = Some e ∧ suffix_of l l ∧ ∃ es, l = e :: es).
  { destruct l as [|e es] eqn:E; [done|]. exists e. split; [done|]. split; [by exists []|by exists es]. }
  destruct Hhead as (e & Eh & Hsuf & es & El). rewrite Eh. cbn [fmap option_fmap option_map].
  assert (Hgoal : ∀ m : SM state unit,
    writes m h (λ u, ∃ ms', same_value (JObject ms) (JObject ms') ∧ 123 :: u = opened 123 (map (member_text flags depth) ms'))
      (length (opened 123 (map (member_text flags depth) ms)) - 1) →
    writes (_ ← emit dump [123]; m) h (as_members ms) (length (opened 123 (map (member_text flags depth) ms)))).
  { intros m Hm. eapply writes_mono; [eapply (writes_then [123]); [apply (writes_emit [123])|exact Hm]| |].
    - unfold opened. cbn [length]. lia.
    - intros u (w & -> & ms' & He & E). by exists ms'. }
  apply Hgoal. clear Hgoal.
  assert (Hind : ∀ m : SM state unit, (∃ es' vs', es' ≠ [] ∧ length vs' = length es' ∧ ms ≡ₚ zip (keys es') vs' ∧
      writes m h (λ u, ∃ vs'', same_values vs' vs'' ∧ u = members es' vs'') (length (members es' vs'))) →
    writes (_ ← dump_indent dump flags (depth + 1) false; m) h
      (λ u, ∃ ms', same_value (JObject ms) (JObject ms') ∧ 123 :: u = opened 123 (map (member_text flags depth) ms'))
      (length (opened 123 (map (member_text flags depth) ms)) - 1)).
  { intros m (es' & vs' & H1 & H2 & H3 & H4). by eapply members_object. }
  apply Hind. clear Hind.
  destruct (has flags JSON_SORT_KEYS || has flags JSON_PRESERVE_ORDER).
  - pose (ks := object_key_sort flags (object_key_of <$> l : list object_key)).
    assert (Hperm : ks ≡ₚ map object_key_of l).
    { unfold ks, object_key_sort. case_match; apply merge_sort_Permutation. }
    destruct (Permutation_map_inv _ _ Hperm) as (es' & Eks & Hp).
    destruct (unfolds_all_perm (cells h) l es' vs B Hp Hps) as (vs' & Hps' & Hz).
    pose proof (unfolds_all_length _ _ _ _ Hps') as Hlen'. unfold entry_values in Hlen'. rewrite length_fmap in Hlen'.
    exists es', vs'. split; [intros ->; by apply Permutation_nil_r in Hp|]. split; [done|]. split; [by rewrite Hms, Hz|].
    eapply writes_read; [by apply (read_size h a n o l)|]. apply writes_malloc.
    { rewrite El. unfold sizeof_object_key. simpl. lia. }
    rewrite Nat2Z.id. eapply writes_read.
    { pose proof (collect_keys_reads h a n o l object_cell object_table (length l) l Hsuf ltac:(done)) as Hc. rewrite Eh in Hc. exact Hc. }
    rewrite length_fmap, Z.eqb_refl. fold ks.
    apply (dump_sorted_writes es' ks vs' B); try done.
    + rewrite Eks. unfold keys. change (map object_key_of es') with (object_key_of <$> es').
      by rewrite <- list_fmap_compose.
    + intros e' He'. by rewrite Hp.
    + rewrite dumpable_all_forall in *. rewrite <- (zip_values es' vs'), Hz, zip_values by done. done.
    + unfold keys in *. by rewrite <- Hp.
  - exists l, vs. split; [done|]. split; [done|]. split; [done|].
    eapply writes_read; [by apply (read_size h a n o l)|]. rewrite Nat2Z.id.
    pose proof (dump_members_writes (length l) e es vs B) as Hloop. rewrite <- El in Hloop.
    apply Hloop; try done. by rewrite El; simpl; lia.
Qed.
End object.
End nested.

(** *** The flag *)

Definition flagged (v : Z) (b : body) : body :=
  match b with
  | Array t => Array (JsonArray (a_size t) (a_entries t) (a_table t) v)
  | Object o => Object (JsonObject (o_hashtable o) (o_serial o) v)
  | b => b
  end.

Definition is_container (b : body) : Prop := match b with Array _ | Object _ => True | _ => False end.

Definition marked (a n v : Z) (b : body) (h : heap) : heap := with_cells (<[a := Cell n (flagged v b)]> (cells h)) h.

Lemma set_visited_spec a n b v h :
  cells h !! a = Some (Cell n b) → is_container b → wpr (set_visited a v) h (λ _ h', h' = marked a n v b h).
Proof.
  intros Ha Hb. unfold set_visited. eapply wp_get_cell; [done|]. cbn [content].
  destruct b; try done; by eapply wp_put_content.
Qed.

Lemma wp_on_heap_of {A} (m : SM heap A) h (d : S) (Q : outcome A → state → Prop) :
  wp m h (λ o h', Q o (h', d)) → wp (on_values m) (h, d) Q.
Proof.
  intros Hm w Hw. destruct (Hm w Hw) as [Hw' HQ]. unfold on_values, zoom. simpl.
  by destruct (m h w) as [[o h'] w'].
Qed.

Definition visited_of (b : body) : Z := match b with Array t => a_visited t | Object o => o_visited o | _ => 0 end.

Lemma flagged_back b : flagged (visited_of b) (flagged 1 b) = b.
Proof. by destruct b as [[]|[]|s|i|r]. Qed.

Lemma guarded_writes a n b close (m : SM state unit) h R k :
  cells h !! a = Some (Cell n b) → is_container b → visited_of b = 0 →
  writes m (marked a n 1 b h) R k →
  writes (guarded dump a (visited_of b) close m) h (seq R (text [close])) (k + 1).
Proof.
  intros Ha Hb Hv Hm d l Hd Hc. unfold guarded. rewrite Hv. change (negb (0 =? 0)) with false. cbv iota.
  apply (wp_seq _ _ _ (λ _ s, s = (marked a n 1 b h, d))).
  { apply wp_on_heap_of. eapply wp_mono; [by apply (set_visited_spec a n b 1 h)|]. by intros [[]| |] h1 H1; [rewrite H1|..]. }
  intros [] s1 ->.
  eapply wp_or_else; [apply Hm; [done|lia]|]. intros [] [h2 d2] (E2 & t & Ht & Hn & Hw). simpl in E2. subst h2.
  assert (Ha1 : cells (marked a n 1 b h) !! a = Some (Cell n (flagged 1 b))) by (simpl; by rewrite lookup_insert_eq).
  apply (wp_seq _ _ _ (λ _ s, s = (marked a n 0 (flagged 1 b) (marked a n 1 b h), d2))).
  { apply wp_on_heap_of. eapply wp_mono; [apply (set_visited_spec a n (flagged 1 b) 0 _ Ha1); by destruct b|].
    by intros [[]| |] h3 H3; [rewrite H3|..]. }
  intros [] s3 ->.
  assert (Eh : marked a n 0 (flagged 1 b) (marked a n 1 b h) = h).
  { unfold marked, with_cells. simpl. rewrite <- Hv, flagged_back, insert_insert_eq, insert_id by done. by destruct h. }
  rewrite Eh. eapply wp_mono; [apply (writes_emit [close] h d2 (l ++ t) Hw); rewrite length_app; simpl; lia|].
  intros [[]| |] s Hs; [|done..]. destruct Hs as (Hh & u & -> & _ & Hu). split; [done|].
  exists (t ++ [close]). rewrite app_assoc. split; [by exists t, [close]|]. split; [rewrite length_app; simpl; lia|done].
Qed.

(** ** Values *)

Definition is_scalar (v : jv) : Prop := match v with JArray _ | JObject _ => False | _ => True end.

Lemma as_value_same flags depth v : as_value flags depth v (render flags depth v).
Proof. exists v. split; [constructor|done]. Qed.

Lemma writes_value (m : SM state unit) h flags depth v :
  writes m h (text (render flags depth v)) (length (render flags depth v)) →
  writes m h (as_value flags depth v) (length (render flags depth v)).
Proof. intros Hm. eapply writes_mono; [exact Hm|done|]. intros t ->. apply as_value_same. Qed.

Lemma decimal_digits_length k n acc : (length (decimal_digits k n acc) ≤ k + length acc)%nat.
Proof.
  revert n acc. induction k as [|k IH]; intros n acc; cbn [decimal_digits]; [lia|].
  case_match; [simpl; lia|]. etrans; [apply IH|]. simpl. lia.
Qed.

Lemma format_integer_short i : in_range i → Z.of_nat (length (format_integer i)) < MAX_INTEGER_STR_LENGTH.
Proof.
  intros Hi. unfold format_integer, digits_of, MAX_INTEGER_STR_LENGTH. rewrite length_app.
  pose proof (decimal_digits_length (Datatypes.S (Z.to_nat (Z.log2 (Z.abs i)))) (Z.abs i) []) as Hl.
  assert (Z.log2 (Z.abs i) ≤ 63).
  { unfold in_range in Hi. transitivity (Z.log2 (2 ^ 63)); [apply Z.log2_le_mono; lia|]. by rewrite Z.log2_pow2. }
  case_bool; simpl length in *; lia.
Qed.

Lemma do_dump_writes fuel : ∀ p v B h flags depth,
  0 ≤ depth → unfolds (cells h) p v B → dumpable v → (size B ≤ fuel)%nat →
  writes (do_dump dump fuel (Some p) flags depth) h (as_value flags depth v) (length (render flags depth v)).
Proof.
  induction fuel as [|fuel IH]; intros p v B h flags depth Hd Hp Hv Hs;
    inversion Hp as [| | |a n b v' A Ha Hb HaA]; subst;
    try (apply writes_value; apply (writes_emit (str _)));
    rewrite size_union, size_singleton in Hs by set_solver; [lia|].
  apply (writes_read (get_cell a) _ h (Cell n b)); [by apply reads_cell|]. cbn [content].
  inversion Hb as [s|i|r|t ps vs A' Ht Hvis Hps|o l vs ms A' Ht Hvis Hps Hms]; subst.
  - inversion Hv; subst. apply writes_value. by apply dump_string_writes.
  - inversion Hv; subst. apply writes_value.
    rewrite (proj2 (Z.leb_gt _ _)) by by apply format_integer_short. apply writes_emit.
  - inversion Hv as [| | | |r' (u & E & _)| | |]; subst. rewrite E. apply writes_value. cbn [render].
    unfold real_string. rewrite E. apply writes_emit.
  - inversion Hv as [|vs' Hvs| | | | | |]; subst. change (a_visited t) with (visited_of (Array t)).
    eapply writes_mono.
    + eapply guarded_writes; [done|done|done|].
      eapply (dump_array_writes _ flags depth fuel Hd) with (vs := vs);
        [|simpl; by rewrite lookup_insert_eq| | |done|].
      * intros q w C h' Hq Hw HC. apply (IH q w C h'); try done. lia.
      * by destruct Ht.
      * eapply unfolds_all_frame; [done|]. intros d Hd'. simpl. rewrite lookup_insert_ne; [done|]. by intros ->.
      * lia.
    + cbn [render]. rewrite enclosed_opened, length_app. done.
    + intros u (t1 & t2 & -> & (vs' & He & ->) & ->). exists (JArray vs'). split; [by constructor|].
      cbn [render]. by rewrite enclosed_opened.
  - inversion Hv as [ms' Hnd Hk Hvs| | | | | | |]; subst. change (o_visited o) with (visited_of (Object o)).
    pose proof (unfolds_all_length _ _ _ _ Hps) as Hlen. unfold entry_values in Hlen. rewrite length_fmap in Hlen.
    eapply writes_mono.
    + eapply guarded_writes; [done|done|done|].
      eapply (dump_object_writes _ flags depth fuel Hd) with (vs := vs) (l := l);
        [|simpl; by rewrite lookup_insert_eq|done| |exact Hms| | |].
      * intros q w C h' Hq Hw HC. apply (IH q w C h'); try done. lia.
      * eapply unfolds_all_frame; [done|]. intros d Hd'. simpl. rewrite lookup_insert_ne; [done|]. by intros ->.
      * rewrite dumpable_all_forall in *. rewrite Hms in Hvs. by rewrite zip_values in Hvs.
      * rewrite Hms in Hk. by rewrite keys_zip in Hk.
      * lia.
    + rewrite render_object, (enclosed_opened flags depth 123 125), length_app. done.
    + intros u (t1 & t2 & -> & (ms' & He & ->) & ->). exists (JObject ms'). split; [done|].
      by rewrite render_object, (enclosed_opened flags depth 123 125).
Qed.

Lemma json_dump_callback_writes p v B h flags :
  wf h → unfolds (cells h) p v B → dumpable v → has flags JSON_ENCODE_ANY = true ∨ ¬ is_scalar v →
  writes (json_dump_callback dump (Some p) flags) h (as_value flags 0 v) (length (render flags 0 v)).
Proof.
  intros Hwf Hp Hv Hany. unfold json_dump_callback.
  assert (Hdump : writes (do_dump dump (Z.to_nat (brk h)) (Some p) flags 0) h (as_value flags 0 v)
    (length (render flags 0 v))).
  { eapply do_dump_writes; [done|done|done|]. by eapply wf_unfolds_size. }
  intros d l Hd Hc. apply wp_get_bind.
  apply (wp_seq _ _ _ (λ r s, r = true ∧ s = (h, d))).
  - destruct (has flags JSON_ENCODE_ANY) eqn:Ea; [by apply wp_ret|]. destruct Hany as [|Hns]; [done|].
    inversion Hp as [| | |a n b v' A Ha Hb HaA]; subst; try by destruct Hns.
    assert (Hr : ∀ {A} (m : SM heap A) (f : A → SM state bool) x, reads m h x →
      wpr (f x) (h, d) (λ r s, r = true ∧ s = (h, d)) → wpr (on_values m ≫= f) (h, d) (λ r s, r = true ∧ s = (h, d))).
    { intros A0 m f x Hm Hf. apply (wp_seq _ _ _ (λ a s, a = x ∧ s = (h, d))).
      - intros w Hw. by rewrite (on_values_reads m h d x w Hm).
      - intros y s [-> ->]. exact Hf. }
    eapply Hr; [unfold json_to_array; eapply reads_bind; [by apply reads_cell|apply reads_ret]|].
    eapply Hr; [unfold json_to_object; eapply reads_bind; [by apply reads_cell|apply reads_ret]|].
    cbn [content]. apply wp_ret. inversion Hb; subst; try done; by destruct Hns.
  - intros r s (-> & ->). by apply Hdump.
Qed.
End dump.

(** ** Texts in a buffer *)

Lemma strbuffer_sink t b l :
  holds b l → Z.of_nat (length l + length t) < LIMIT →
  wpr (dump_to_strbuffer t) b (λ _ b', holds b' (l ++ t)).
Proof.
  intros Hb Hl. eapply wp_mono; [by apply holds_append|]. intros [[]| |] b' H'; [done| |done].
  destruct H' as [_ Hbig]. unfold LIMIT, STRBUFFER_SIZE_MAX in *. byte_arith.
Qed.

(** The buffer is copied. *)
Lemma buffer_copy b t (h : heap) w :
  holds b t → Forall (λ c, c ≠ 0) t → plenty w →
  ∃ w', plenty w' ∧
    lift (text ← liftO (a ← deref (sb_value b); cstring (Z.to_nat (sb_size b)) a 0);
          jsonp_strdup text) h w = ((Ret t, h), w').
Proof.
  intros Hb Ht Hw. destruct (holds_cstring b t Hb Ht) as (a & Ea & Ec).
  assert (Hdup : wpr (lift (jsonp_strdup t) ≫= mret) h (λ u h', u = t ∧ h' = h)).
  { apply wp_lift_strdup. by apply wp_ret. }
  destruct (Hdup w Hw) as [Hw' H]. clear Hdup. unfold lift, liftO, mbind, M_bind, SM_bind in *. rewrite Ea. cbn [deref outcome_bind].
  unfold outcome_ret. cbn. rewrite Ec. destruct (jsonp_strdup t w) as [[u| |] w']; try done. destruct H as [-> _].
  by exists w'.
Qed.

Lemma json_dumps_spec p v B h flags :
  wf h → unfolds (cells h) p v B → dumpable v → has flags JSON_ENCODE_ANY = true ∨ ¬ is_scalar v →
  Z.of_nat (length (render flags 0 v)) < LIMIT →
  wpr (json_dumps (Some p) flags) h (λ t h', h' = h ∧ as_value flags 0 v t).
Proof.
  intros Hwf Hp Hv Hany Hl w Hw. unfold json_dumps.
  destruct (holds_init (Strbuffer None 0 0) w Hw) as [Hw1 Hb]. unfold run_on.
  destruct (strbuffer_init (Strbuffer None 0 0) w) as [[[[]| |] b] w1]; try done.
  destruct (json_dump_callback_writes dump_to_strbuffer holds LIMIT strbuffer_sink p v B h flags Hwf Hp Hv Hany b []
    Hb Hl w1 Hw1) as [Hw2 H2].
  destruct (json_dump_callback dump_to_strbuffer (Some p) flags (h, b) w1) as [[[[]| |] [h' b']] w2]; try done.
  destruct H2 as (Eh & t & (v' & He & Et) & _ & Hb'). simpl in Eh, Hb'. subst h'.
  assert (Hclean : Forall (λ c, c ≠ 0) t).
  { rewrite Et. apply clean_nonzero, (json_text_clean _ v'), render_text. by eapply dumpable_equiv. }
  destruct (buffer_copy b' t h w2 Hb' Hclean Hw2) as (w3 & Hw3 & E). rewrite E. split; [done|]. split; [done|].
  by exists v'.
Qed.
