(* ===== verification/JCycles.v ===== *)
(** * The encoder on any graph of values

    Values may share parts and may contain themselves. The flags of the
    containers bound the recursion: whatever the graph, the callback and the
    allocator do, [json_dump_callback] returns and leaves the heap as it was,
    and it succeeds only for values that unfold to a finite tree. *)

From S2P Require Import Prelude CModel JBase JUtf JStrbuf JHash JHashTheory JValue JArray JReal.
From S2P Require Import JLex JScan JLoad JDump JSpec JLexTheory JStringTheory JTokenTheory JHeap.
From S2P Require Import JBuild JLoadTheory JParseTheory JRender JDumpTheory.
From stdpp Require Import strings sorting fin_map_dom.
From Stdlib Require Import SpecFloat.
#[local] Open Scope Z_scope.

(** ** Graphs *)

(** The reference is a constant or a cell of the heap. *)
Definition live (m : Zmap cell) (p : ref) : Prop := match p with Ref a => is_Some (m !! a) | _ => True end.

(** A container is well formed, is not being written, and what it refers to is
    there; texts hold no NUL. *)
Definition sound (m : Zmap cell) (b : body) : Prop :=
  match b with
  | Array t => a_visited t = 0 ∧ ∃ ps, array_of t ps ∧ Forall (live m) ps
  | Object o => o_visited o = 0 ∧ ∃ l, table (o_hashtable o) l ∧
      Forall (λ e : entry, Forall text_byte (p_key e.2) ∧ live m (p_value e.2)) l
  | String_ s => Forall text_byte s
  | _ => True
  end.

Definition closed (h : heap) : Prop := wf h ∧ ∀ a c, cells h !! a = Some c → sound (cells h) (content c).

(** The value unfolds to a finite tree, outside the cells [X]. *)
Definition finite (m : Zmap cell) (X : Zset) (p : ref) : Prop := ∃ v A, unfolds m p v A ∧ A ## X.

Lemma finite_constant m X p : (∀ a, p ≠ Ref a) → finite m X p.
Proof.
  intros Hp. destruct p as [| | |a]; [..|by destruct (Hp a)]; (do 2 eexists; split; [constructor|set_solver]).
Qed.

Lemma finite_cell m X a n b v A :
  m !! a = Some (Cell n b) → shows m b v A → A ## {[a]} ∪ X → a ∉ X → finite m X (Ref a).
Proof.
  intros Ha Hb HA HaX. exists v, ({[a]} ∪ A). split; [eapply U_cell; [done|done|set_solver]|set_solver].
Qed.

Lemma finite_all m X ps : Forall (finite m X) ps → ∃ vs A, unfolds_all m ps vs A ∧ A ## X.
Proof.
  induction 1 as [|p ps (v & A & Hv & HA) Hps (vs & B & Hvs & HB)].
  - exists [], ∅. split; [constructor|set_solver].
  - exists (v :: vs), (A ∪ B). split; [by constructor|set_solver].
Qed.

Lemma finite_scalar m X a n b :
  m !! a = Some (Cell n b) → ¬ is_container b → a ∉ X → finite m X (Ref a).
Proof.
  intros Ha Hb HaX. destruct b; [by destruct Hb|by destruct Hb|..];
    (eapply finite_cell; [done|constructor|set_solver|done]).
Qed.

Lemma finite_array m X a n t ps :
  m !! a = Some (Cell n (Array t)) → array_of t ps → a_visited t = 0 → Forall (finite m ({[a]} ∪ X)) ps → a ∉ X →
  finite m X (Ref a).
Proof.
  intros Ha Ht Hv Hps HaX. destruct (finite_all _ _ _ Hps) as (vs & A & Hvs & HA).
  eapply finite_cell; [done|by eapply W_array|done|done].
Qed.

Lemma finite_object m X a n o l :
  m !! a = Some (Cell n (Object o)) → table (o_hashtable o) l → o_visited o = 0 →
  Forall (finite m ({[a]} ∪ X)) (entry_values l) → a ∉ X → finite m X (Ref a).
Proof.
  intros Ha Ht Hv Hps HaX. destruct (finite_all _ _ _ Hps) as (vs & A & Hvs & HA).
  eapply finite_cell; [done|by eapply W_object|done|done].
Qed.

(** ** Routines that leave the heap alone *)

Section calm.
Context {S : Type} (dump : list Z → SM S unit) (I : S → Prop).
Abbreviation state := (heap * S)%type.

(** The callback may refuse any text, at any time. *)
Hypothesis sink : ∀ t d w, I d → match dump t d w with
  | ((Undef, _), _) => False
  | ((_, d'), _) => I d'
  end.

(** The routine comes back: with a result in [R] and the heap [h], or with an
    error and a heap in [F]. *)
Definition calm {A} (F : heap → Prop) (h : heap) (m : SM state A) (R : A → Prop) : Prop :=
  ∀ d w, I d → match (m (h, d) w).1 with
  | (Ret a, (h', d')) => h' = h ∧ I d' ∧ R a
  | (Fail, (h', d')) => F h' ∧ I d'
  | (Undef, _) => False
  end.

Section rules.
Context (F : heap → Prop) (h : heap).

Lemma calm_ret {A} (a : A) (R : A → Prop) : R a → calm F h (mret a) R.
Proof. intros HR d w Hd. by split. Qed.

Lemma calm_mono {A} (m : SM state A) (R R' : A → Prop) : calm F h m R → (∀ a, R a → R' a) → calm F h m R'.
Proof.
  intros Hm HR d w Hd. specialize (Hm d w Hd).
  destruct (m (h, d) w) as [[[a| |] [h' d']] w']; simpl in *; [|done..]. destruct Hm as (? & ? & ?). auto.
Qed.

Lemma calm_bind {A B} (m : SM state A) (f : A → SM state B) R R' :
  calm F h m R → (∀ a, R a → calm F h (f a) R') → calm F h (m ≫= f) R'.
Proof.
  intros Hm Hf d w Hd. specialize (Hm d w Hd). unfold mbind, SM_bind.
  destruct (m (h, d) w) as [[[a| |] [h' d']] w']; simpl in *; [|done..]. destruct Hm as (-> & Hd' & HR).
  by apply Hf.
Qed.

Lemma calm_then {A B} (m : SM state A) (f : A → SM state B) R :
  calm F h m (λ _, True) → (∀ a, calm F h (f a) R) → calm F h (m ≫= f) R.
Proof. intros Hm Hf. eapply calm_bind; [exact Hm|]. intros a _. apply Hf. Qed.

Lemma calm_get {A} (f : state → SM state A) R : (∀ d, calm F h (f (h, d)) R) → calm F h (get ≫= f) R.
Proof. intros Hf d w Hd. by apply Hf. Qed.

Lemma calm_read {A B} (m : SM heap A) (f : A → SM state B) v R :
  reads m h v → calm F h (f v) R → calm F h (on_values m ≫= f) R.
Proof.
  intros Hm Hf d w Hd. unfold mbind, SM_bind. rewrite (on_values_reads m h d v w Hm). by apply Hf.
Qed.

Hypothesis stays : F h.

Lemma calm_fail {A} (R : A → Prop) : calm F h sfail R.
Proof. intros d w Hd. by split. Qed.

Lemma calm_outcome {A B} (o : outcome A) (f : A → SM state B) R :
  match o with Ret a => calm F h (f a) R | Fail => True | Undef => False end → calm F h (liftS o ≫= f) R.
Proof. destruct o as [a| |]; intros Hf; [exact Hf|by apply calm_fail|done]. Qed.

Lemma calm_emit t : calm F h (emit dump t) (λ _, True).
Proof.
  intros d w Hd. specialize (sink t d w Hd). unfold emit, zoom. simpl.
  by destruct (dump t d w) as [[[[]| |] d'] w'].
Qed.

Lemma calm_malloc k : calm F h (lift (jsonp_malloc k)) (λ _, True).
Proof.
  intros d w Hd. unfold lift, jsonp_malloc, malloc, fail. repeat case_match; simplify_eq/=; by repeat case_match.
Qed.

Lemma calm_ignore {A} (m : SM state A) : calm (eq h) h m (λ _, True) → calm F h (ignore m) (λ _, True).
Proof.
  intros Hm d w Hd. specialize (Hm d w Hd). unfold ignore, attempt, mbind, SM_bind.
  destruct (m (h, d) w) as [[[a| |] [h' d']] w']; simpl in *; [| |done].
  - by destruct Hm as (? & ? & ?).
  - by destruct Hm as (<- & ?).
Qed.

(** *** Indentation and strings *)

Lemma dump_indent_calm flags depth space : calm F h (dump_indent dump flags depth space) (λ _, True).
Proof.
  unfold dump_indent. case_match; [|case_match; [apply calm_emit|by apply calm_ret]].
  eapply calm_then; [apply calm_emit|]. intros _. unfold for_range. generalize tt.
  induction (range 0 depth) as [|i l IH]; intros u; [by apply calm_ret|]. cbn [foldM].
  eapply calm_then; [apply calm_emit|]. exact IH.
Qed.

Lemma plain_run_total flags s fuel :
  Forall text_byte s → (length s ≤ fuel)%nat →
  match plain_run fuel flags (s ++ [0]) with
  | Ret (pos, end_, codepoint) => match codepoint with
      | Some _ => ∃ s', end_ = s' ++ [0] ∧ (length s' < length s)%nat ∧ Forall text_byte s'
      | None => True
      end
  | Fail => True
  | Undef => False
  end.
Proof.
  revert s. induction fuel as [|fuel IH]; intros [|b s] Hs Hf; try done; [simpl in Hf; lia|].
  pose proof Hs as [[Hb Hb0] Ht]%Forall_cons. cbn [plain_run app].
  change (readZ (b :: s ++ [0]) 0) with (Ret b). cbn [mbind outcome_bind].
  rewrite (proj2 (Z.eqb_neq b 0)) by done.
  destruct (utf8_first b s Hs) as [(v & r & Hv & E)|Hno].
  - change (b :: s ++ [0]) with ((b :: s) ++ [0]). rewrite E in *. pose proof (length_utf8 v) as Hl.
    apply Forall_app in Hs as [Hs1 Hs2]. rewrite <- app_assoc.
    assert (H0 : v ≠ 0) by (intros ->; by apply Forall_cons in Hs1 as [[_ ?] _]).
    rewrite utf8_iterate_valid by done. cbn [mbind outcome_bind deref].
    rewrite length_app in Hf. destruct (needs_escape flags v).
    + cbn [mret outcome_ret]. exists r. split; [done|]. split; [rewrite length_app; lia|done].
    + specialize (IH r Hs2 ltac:(lia)). destruct (plain_run fuel flags (r ++ [0])) as [[[pos end_] [u|]]| |]; try done.
      destruct IH as (s' & ? & ? & ?). exists s'. rewrite length_app. split_and!; [done|lia|done].
  - by rewrite utf8_iterate_invalid.
Qed.

Lemma string_loop_calm flags fuel s :
  Forall text_byte s → (length s ≤ fuel)%nat → calm F h (string_loop dump fuel flags (s ++ [0])) (λ _, True).
Proof.
  revert s. induction fuel as [|fuel IH]; intros s Hs Hf; cbn [string_loop]; apply calm_outcome;
    pose proof (plain_run_total flags s (length (s ++ [0])) Hs ltac:(rewrite length_app; lia)) as Hrun;
    (destruct (plain_run _ flags (s ++ [0])) as [[[pos end_] [v|]]| |]; [| |done..]);
    (eapply calm_then; [case_match; [by apply calm_ret|apply calm_emit]|]); intros _; try by apply calm_ret.
  - destruct Hrun as (s' & _ & Hl & _). lia.
  - destruct Hrun as (s' & -> & Hl & Hs'). eapply calm_then; [apply calm_emit|]. intros _. apply IH; [done|lia].
Qed.

Lemma dump_string_calm flags s : Forall text_byte s → calm F h (dump_string dump s flags) (λ _, True).
Proof.
  intros Hs. unfold dump_string. eapply calm_then; [apply calm_emit|]. intros _.
  eapply calm_then; [by apply string_loop_calm|]. intros _. apply calm_emit.
Qed.

Lemma separate_calm flags depth more : calm F h (separate dump flags depth more) (λ _, True).
Proof.
  unfold separate. case_match; [|apply dump_indent_calm]. eapply calm_then; [apply calm_emit|].
  intros _. apply dump_indent_calm.
Qed.
End rules.

(** ** Containers *)

Section nested.
Context (m : Zmap cell) (X : Zset) (F : heap → Prop) (h : heap) (do_dump : option ref → Z → SM state unit) (flags depth : Z).
Hypothesis stays : F h.
Hypothesis nested : ∀ p, live m p → calm F h (do_dump (Some p) (depth + 1)) (λ _, finite m X p).

Lemma dump_elements_calm a n t ps1 ps2 k :
  cells h !! a = Some (Cell n (Array t)) → array_of t (ps1 ++ ps2) → Forall (live m) ps2 →
  calm F h (dump_elements dump do_dump flags depth (length ps2) (Some (Ref a)) (Z.of_nat (length ps1)) k)
    (λ _, Forall (finite m X) ps2).
Proof.
  intros Ha Ht Hps. revert ps1 Ht. induction Hps as [|p ps Hp Hps IH]; intros ps1 Ht; [by apply calm_ret|].
  cbn [length dump_elements]. eapply calm_read; [eapply read_array; [done|done|by apply list_lookup_middle]|].
  eapply calm_bind; [by apply nested|]. intros [] Hfin. eapply calm_then; [by apply separate_calm|]. intros _.
  specialize (IH (ps1 ++ [p])). rewrite <- app_assoc, length_app in IH. cbn [length] in IH.
  replace (Z.of_nat (length ps1) + 1) with (Z.of_nat (length ps1 + 1)) by lia.
  eapply calm_mono; [by apply IH|]. intros [] Hfins. by constructor.
Qed.

Lemma dump_array_calm a n t ps :
  cells h !! a = Some (Cell n (Array t)) → array_of t ps → Forall (live m) ps →
  calm F h (dump_array dump do_dump flags depth (Some (Ref a))) (λ _, Forall (finite m X) ps).
Proof.
  intros Ha Ht Hps. unfold dump_array. eapply calm_read.
  { unfold json_array_size, json_to_array.
    eapply reads_bind; [eapply reads_bind; [by apply reads_cell|cbn [content]; apply reads_ret]|apply reads_ret]. }
  rewrite (array_entries _ _ Ht). eapply calm_then; [by apply calm_emit|]. intros _.
  destruct (Z.eqb_spec (Z.of_nat (length ps)) 0) as [E|E].
  - destruct ps; [by apply calm_ret|done].
  - eapply calm_then; [by apply dump_indent_calm|]. intros _. rewrite Nat2Z.id.
    by apply (dump_elements_calm a n t [] ps).
Qed.

Section object.
Context (a n : Z) (o : json_object_t) (l : list entry).
Hypothesis object_cell : cells h !! a = Some (Cell n (Object o)).
Hypothesis object_table : table (o_hashtable o) l.

Definition member_ok (e : entry) : Prop := Forall text_byte (p_key e.2) ∧ live m (p_value e.2).
Hypothesis members_ok : Forall member_ok l.

Lemma dump_member_calm e more :
  member_ok e → calm F h (dump_member dump do_dump flags depth (p_key e.2) (Some (p_value e.2)) more)
    (λ _, finite m X (p_value e.2)).
Proof.
  intros [Hk Hv]. unfold dump_member. eapply calm_then; [by apply calm_ignore, dump_string_calm|]. intros _.
  eapply calm_then; [by apply calm_emit|]. intros _. eapply calm_bind; [by apply nested|]. intros [] Hfin.
  eapply calm_mono; [by apply separate_calm|done].
Qed.

(** A member and the others. *)
Lemma member_then_calm e es more (k : SM state unit) :
  member_ok e → calm F h k (λ _, Forall (finite m X) (entry_values es)) →
  calm F h (_ ← dump_member dump do_dump flags depth (p_key e.2) (Some (p_value e.2)) more; k)
    (λ _, Forall (finite m X) (entry_values (e :: es))).
Proof.
  intros He Hk. eapply calm_bind; [by apply dump_member_calm|]. intros [] Hfin.
  eapply calm_mono; [exact Hk|]. intros [] Hfins. by constructor.
Qed.

Lemma dump_members_calm k e es :
  suffix_of l (e :: es) → (length es ≤ k)%nat →
  calm F h (dump_members dump do_dump flags depth k (Some (Ref a)) e.1)
    (λ _, Forall (finite m X) (entry_values (e :: es))).
Proof.
  revert k e. induction es as [|e2 es IH]; intros k e El Hk; pose proof (in_suffix l e _ El) as He;
    pose proof (proj1 (Forall_forall _ _) members_ok e He) as Hok;
    (destruct k as [|k]; [simpl in Hk; try lia|]); cbn [dump_members];
    (eapply calm_read; [by apply (read_next h a n o l object_cell object_table e)|]);
    (eapply calm_read; [by apply (read_key h a n o l object_cell object_table)|]);
    apply calm_outcome; try done; cbn [deref];
    (eapply calm_read; [by apply (read_value h a n o l object_cell object_table)|]);
    cbn [head fmap option_fmap option_map]; apply member_then_calm; try done; try by apply calm_ret.
  apply IH; [by eapply suffix_tail|simpl in Hk; lia].
Qed.

Lemma dump_sorted_calm ks es :
  k_key <$> ks = keys es → (∀ e, e ∈ es → e ∈ l) →
  calm F h (dump_sorted dump do_dump flags depth (Some (Ref a)) ks) (λ _, Forall (finite m X) (entry_values es)).
Proof.
  revert ks. induction es as [|e es IH]; intros [|k ks] Hks Hin; try done; try by apply calm_ret.
  unfold keys in Hks. rewrite !fmap_cons in Hks. injection Hks as Ek Hks. cbn [dump_sorted]. rewrite Ek.
  assert (He : e ∈ l) by (apply Hin, list_elem_of_here).
  eapply calm_read; [by apply (read_get h a n o l object_cell object_table)|].
  apply member_then_calm; [by apply (proj1 (Forall_forall _ _) members_ok)|].
  apply IH; [done|]. intros e' He'. apply Hin. by right.
Qed.

Lemma dump_object_calm :
  calm F h (dump_object dump do_dump flags depth (Some (Ref a))) (λ _, Forall (finite m X) (entry_values l)).
Proof.
  unfold dump_object. eapply calm_read; [by apply (read_iter h a n o l)|].
  eapply calm_then; [by apply calm_emit|]. intros _.
  assert (Hl : l = [] ∨ ∃ e es, l = e :: es) by (destruct l; eauto).
  destruct Hl as [El|(e & es & El)]; [rewrite El; by apply calm_ret|].
  assert (Eh : head l = Some e) by by rewrite El.
  rewrite Eh. cbn [fmap option_fmap option_map].
  assert (Hsuf : suffix_of l (e :: es)) by (exists []; by rewrite El).
  eapply calm_then; [by apply dump_indent_calm|]. intros _.
  eapply calm_read; [by apply (read_size h a n o l)|]. rewrite Nat2Z.id.
  destruct (has flags JSON_SORT_KEYS || has flags JSON_PRESERVE_ORDER).
  - eapply calm_then; [by apply calm_malloc|]. intros _.
    pose (ks := object_key_sort flags (object_key_of <$> l : list object_key)).
    assert (Hperm : ks ≡ₚ map object_key_of l).
    { unfold ks, object_key_sort. case_match; apply merge_sort_Permutation. }
    destruct (Permutation_map_inv _ _ Hperm) as (es' & Eks & Hp).
    eapply calm_read.
    { apply (collect_keys_reads h a n o l object_cell object_table (length l) (e :: es)); [done|by rewrite El]. }
    rewrite <- El, length_fmap, Z.eqb_refl. fold ks.
    eapply calm_mono; [apply (dump_sorted_calm ks es')|].
    + rewrite Eks. unfold keys. change (map object_key_of es') with (object_key_of <$> es').
      by rewrite <- list_fmap_compose.
    + intros e' He'. by rewrite Hp.
    + intros [] Hfin. unfold entry_values in *. by rewrite Hp.
  - eapply calm_mono; [apply (dump_members_calm (length l) e es); [done|rewrite El; simpl; lia]|].
    intros [] Hfin. by rewrite El.
Qed.
End object.
End nested.

(** ** The flags *)

Section graph.
Context (h0 : heap).
Hypothesis graph : closed h0.

Definition visiting (X : Zset) (a : Z) (c : cell) : cell :=
  if decide (a ∈ X) then Cell (refcount c) (flagged 1 (content c)) else c.

(** The heap while the containers in [X] are being written. *)
Definition during (X : Zset) : heap := with_cells (map_imap (λ a c, Some (visiting X a c)) (cells h0)) h0.

(** Some of the flags were cleared, since an error unwinds the recursion. *)
Definition lower (X : Zset) (h : heap) : Prop := ∃ X', X' ⊆ X ∧ h = during X'.

Lemma lower_refl X : lower X (during X).
Proof. by exists X. Qed.

Lemma during_lookup X a : cells (during X) !! a = visiting X a <$> cells h0 !! a.
Proof. unfold during. cbn [cells with_cells]. rewrite map_lookup_imap. by destruct (cells h0 !! a). Qed.

Lemma during_cell X a c : cells h0 !! a = Some c → cells (during X) !! a = Some (visiting X a c).
Proof. intros Ha. by rewrite during_lookup, Ha. Qed.

Lemma during_ext X h :
  brk h = brk h0 → (∀ a, cells h !! a = visiting X a <$> cells h0 !! a) → h = during X.
Proof.
  intros Hb Hc. destruct h as [m b]. simpl in *. subst b. unfold during, with_cells. f_equal.
  apply map_eq. intros a. by rewrite Hc, map_lookup_imap.
Qed.

Lemma during_none : during ∅ = h0.
Proof.
  symmetry. apply during_ext; [done|]. intros a. unfold visiting. destruct (cells h0 !! a); [|done].
  simpl. by rewrite decide_False by set_solver.
Qed.

Lemma unvisited a c : cells h0 !! a = Some c → visited_of (content c) = 0.
Proof. intros Ha. pose proof (proj2 graph a c Ha) as Hc. by destruct (content c); try destruct Hc. Qed.

Lemma flagged_again b v : flagged v (flagged 1 b) = flagged v b.
Proof. by destruct b as [[]|[]|s|i|r]. Qed.

Lemma flagged_none b : visited_of b = 0 → flagged 0 b = b.
Proof. intros <-. by destruct b as [[]|[]|s|i|r]. Qed.

Lemma set_visited_run h a c v w :
  cells h !! a = Some c → is_container (content c) →
  set_visited a v h w = ((Ret tt, with_cells (<[a := Cell (refcount c) (flagged v (content c))]> (cells h)) h), w).
Proof.
  intros Ha Hc. destruct c as [n b]. destruct b; try done;
    unfold set_visited, put_content, put_cell, get_cell, mbind, SM_bind, get, put; cbn;
    repeat (rewrite Ha; cbn); done.
Qed.

Lemma visiting_same X Y a c : (a ∈ X ↔ a ∈ Y) → visiting X a c = visiting Y a c.
Proof. intros H. unfold visiting. by rewrite (decide_ext _ _ _ _ H). Qed.

(** A flag that is written makes or removes a container. *)
Lemma set_visited_during X Y v a c w :
  cells h0 !! a = Some c → is_container (content c) →
  (∀ d, d ≠ a → d ∈ X ↔ d ∈ Y) → (a ∈ Y ∧ v = 1 ∨ a ∉ Y ∧ v = 0) →
  set_visited a v (during X) w = ((Ret tt, during Y), w).
Proof.
  intros Ha Hc Hother Hv. pose proof (during_cell X a c Ha) as Hd.
  assert (Hc' : is_container (content (visiting X a c))) by (unfold visiting; case_decide; [by destruct (content c)|done]).
  assert (E : Cell (refcount (visiting X a c)) (flagged v (content (visiting X a c))) = visiting Y a c).
  { assert (E : Cell (refcount c) (flagged v (content c)) = visiting Y a c).
    { unfold visiting. destruct Hv as [[Hv ->]|[Hv ->]]; [by rewrite decide_True|].
      rewrite decide_False, flagged_none by (done || by apply (unvisited a)). by destruct c. }
    rewrite <- E. unfold visiting at 1 2. case_decide; [|done]. cbn [content refcount]. by rewrite flagged_again. }
  rewrite (set_visited_run _ a _ _ w Hd Hc'), E. do 3 f_equal. apply during_ext; [done|]. intros d.
  cbn [cells with_cells]. destruct (decide (d = a)) as [->|Hne]; [by rewrite lookup_insert_eq, Ha|].
  rewrite lookup_insert_ne, during_lookup by done. destruct (cells h0 !! d) as [c'|]; [|done]. simpl. f_equal.
  by apply visiting_same, Hother.
Qed.

Lemma on_values_run {A} (k : SM heap A) h (d : S) (a : A) h' w :
  k h w = ((Ret a, h'), w) → on_values k (h, d) w = ((Ret a, (h', d)), w).
Proof. intros E. unfold on_values, zoom. simpl. by rewrite E. Qed.

(** A container that contains itself is found out. *)
Lemma guarded_again X a c close k R :
  cells h0 !! a = Some c → is_container (content c) → calm (lower X) (during X) (guarded dump a 1 close k) R.
Proof.
  intros Ha Hc d w Hd. unfold guarded. change (negb (1 =? 0)) with true. cbv iota. unfold mbind at 1, SM_bind at 1.
  rewrite (on_values_run _ _ d tt (during (X ∖ {[a]})) w) by (apply (set_visited_during _ _ _ a c); set_solver).
  split; [|done]. exists (X ∖ {[a]}). split; [set_solver|done].
Qed.

(** Otherwise it is marked while its parts are written. *)
Lemma guarded_first X a c close k (R : Prop) :
  cells h0 !! a = Some c → is_container (content c) → a ∉ X →
  calm (lower ({[a]} ∪ X)) (during ({[a]} ∪ X)) k (λ _, R) →
  calm (lower X) (during X) (guarded dump a 0 close k) (λ _, R).
Proof.
  intros Ha Hc HaX Hk d w Hd. unfold guarded. change (negb (0 =? 0)) with false. cbv iota. unfold mbind at 1, SM_bind at 1.
  rewrite (on_values_run _ _ d tt (during ({[a]} ∪ X)) w) by (apply (set_visited_during _ _ _ a c); set_solver).
  specialize (Hk d w Hd). unfold or_else, attempt, mbind, SM_bind.
  assert (Hclear : ∀ Y (d : S) w, Y ⊆ {[a]} ∪ X → on_values (set_visited a 0) (during Y, d) w = ((Ret tt, (during (Y ∖ {[a]}), d)), w)).
  { intros Y d' w' HY. apply on_values_run, (set_visited_during _ _ _ a c); set_solver. }
  destruct (k (during ({[a]} ∪ X), d) w) as [[[[]| |] [h' d']] w']; simpl in Hk; [| |done].
  - destruct Hk as (-> & Hd' & HR). cbn [mret SM_ret]. unfold SM_ret, mret. rewrite Hclear by done.
    replace (({[a]} ∪ X) ∖ {[a]}) with X by set_solver.
    eapply (calm_mono _ _ (emit dump [close])); [apply calm_emit; apply lower_refl|done|done].
  - destruct Hk as ((Y & HY & ->) & Hd'). rewrite Hclear by done. split; [|done].
    exists (Y ∖ {[a]}). split; [set_solver|done].
Qed.

(** ** Values *)

Lemma sound_cell a c : cells h0 !! a = Some c → sound (cells h0) (content c).
Proof. apply graph. Qed.

Lemma visiting_in X a n b : a ∈ X → visiting X a (Cell n b) = Cell n (flagged 1 b).
Proof. intros Ha. unfold visiting. by rewrite decide_True. Qed.

Lemma visiting_out X a n b : a ∉ X → visiting X a (Cell n b) = Cell n b.
Proof. intros Ha. unfold visiting. by rewrite decide_False. Qed.

Lemma visiting_scalar X a n b : ¬ is_container b → visiting X a (Cell n b) = Cell n b.
Proof. intros Hb. unfold visiting. case_decide; [|done]. destruct b; [by destruct Hb|by destruct Hb|done..]. Qed.

(** Only containers are marked. *)
Definition containers (X : Zset) : Prop := ∀ a c, a ∈ X → cells h0 !! a = Some c → is_container (content c).

Lemma containers_add X a c :
  cells h0 !! a = Some c → is_container (content c) → containers X → containers ({[a]} ∪ X).
Proof. intros Ha Hc HX d c' Hd Hd'. destruct (decide (d = a)) as [->|]; [by simplify_eq|]. apply (HX d); set_solver. Qed.

Section value.
(** Everything outside [X] can be written with [fuel]. *)
Context (fuel : nat).
Hypothesis deeper : ∀ p flags depth X,
  live (cells h0) p → containers X → (size (dom (cells h0) ∖ X) ≤ fuel)%nat →
  calm (lower X) (during X) (do_dump dump fuel (Some p) flags depth) (λ _, finite (cells h0) X p).

Lemma fewer a c X :
  cells h0 !! a = Some c → a ∉ X → (size (dom (cells h0) ∖ X) ≤ Datatypes.S fuel)%nat →
  (size (dom (cells h0) ∖ ({[a]} ∪ X)) ≤ fuel)%nat.
Proof.
  intros Ha HaX Hs. assert (a ∈ dom (cells h0)) by (apply elem_of_dom; eauto).
  assert (E : dom (cells h0) ∖ X ≡ {[a]} ∪ dom (cells h0) ∖ ({[a]} ∪ X)).
  { intros d. destruct (decide (d = a)); set_solver. }
  rewrite E, size_union, size_singleton in Hs by set_solver. lia.
Qed.

Lemma array_calm a n t flags depth X :
  cells h0 !! a = Some (Cell n (Array t)) → a ∉ X → containers X →
  (size (dom (cells h0) ∖ X) ≤ Datatypes.S fuel)%nat →
  calm (lower X) (during X) (guarded dump a (a_visited t) 93
    (dump_array dump (λ p d, do_dump dump fuel p flags d) flags depth (Some (Ref a)))) (λ _, finite (cells h0) X (Ref a)).
Proof.
  intros Ha HaX HX Hs. destruct (sound_cell a _ Ha) as (Hv & ps & Ht & Hps). rewrite Hv.
  eapply guarded_first; [done|done|done|]. eapply calm_mono.
  - eapply (dump_array_calm (cells h0) _ _ _ _ flags depth (lower_refl _)) with (ps := ps).
    + intros q Hq. apply deeper; [done|by eapply containers_add|by eapply fewer].
    + rewrite (during_cell _ a _ Ha), visiting_in by set_solver. done.
    + by destruct Ht.
    + done.
  - intros [] Hfin. by eapply finite_array.
Qed.

Lemma object_calm a n o flags depth X :
  cells h0 !! a = Some (Cell n (Object o)) → a ∉ X → containers X →
  (size (dom (cells h0) ∖ X) ≤ Datatypes.S fuel)%nat →
  calm (lower X) (during X) (guarded dump a (o_visited o) 125
    (dump_object dump (λ p d, do_dump dump fuel p flags d) flags depth (Some (Ref a)))) (λ _, finite (cells h0) X (Ref a)).
Proof.
  intros Ha HaX HX Hs. destruct (sound_cell a _ Ha) as (Hv & l & Ht & Hl). rewrite Hv.
  eapply guarded_first; [done|done|done|]. eapply calm_mono.
  - eapply (dump_object_calm (cells h0) _ _ _ _ flags depth (lower_refl _)) with (l := l).
    + intros q Hq. apply deeper; [done|by eapply containers_add|by eapply fewer].
    + rewrite (during_cell _ a _ Ha), visiting_in by set_solver. done.
    + done.
    + done.
  - intros [] Hfin. by eapply finite_object.
Qed.
End value.

Lemma do_dump_calm fuel : ∀ p flags depth X,
  live (cells h0) p → containers X → (size (dom (cells h0) ∖ X) ≤ fuel)%nat →
  calm (lower X) (during X) (do_dump dump fuel (Some p) flags depth) (λ _, finite (cells h0) X p).
Proof.
  induction fuel as [|fuel IH]; intros p flags depth X Hp HX Hs; pose proof (lower_refl X) as Hlow;
    (destruct p as [| | |a];
      [eapply calm_mono; [apply (calm_emit _ _ Hlow)|intros; by apply finite_constant]..|]);
    destruct Hp as [[n b] Ha]; pose proof (sound_cell a _ Ha) as Hb; pose proof (during_cell X a _ Ha) as Hd;
    (eapply (calm_read _ _ (get_cell a)); [by apply reads_cell|]);
    (destruct b as [o|t|s|i|r];
      [| |rewrite visiting_scalar by (by intros []); cbn [content];
          (eapply calm_mono; [|intros; eapply finite_scalar; [exact Ha|by intros []|by intros HaX; destruct (HX a _ HaX Ha)]]);
          repeat case_match; by (apply calm_fail || apply (calm_emit _ _ Hlow) || apply (dump_string_calm _ _ Hlow))..]);
    (destruct (decide (a ∈ X)) as [Hin|Hin];
      [rewrite visiting_in by done; by eapply guarded_again|rewrite visiting_out by done]);
    try by (apply (object_calm fuel IH _ n) || apply (array_calm fuel IH _ n)).
  all: assert (a ∈ dom (cells h0) ∖ X) by (apply elem_of_difference; split; [by eapply elem_of_dom_2|done]).
  all: apply Nat.le_0_r, size_empty_inv in Hs; set_solver.
Qed.

Lemma json_dump_callback_calm p flags :
  live (cells h0) p → calm (eq h0) h0 (json_dump_callback dump (Some p) flags) (λ _, finite (cells h0) ∅ p).
Proof.
  intros Hp. unfold json_dump_callback.
  assert (Hdump : calm (eq h0) h0 (do_dump dump (Z.to_nat (brk h0)) (Some p) flags 0) (λ _, finite (cells h0) ∅ p)).
  { intros d w Hd. pose proof (do_dump_calm (Z.to_nat (brk h0)) p flags 0 ∅ Hp ltac:(intros ? ?; set_solver)) as H. rewrite during_none in H.
    assert (Hs : (size (dom (cells h0) ∖ ∅) ≤ Z.to_nat (brk h0))%nat).
    { apply interval_size. intros a Ha. apply (proj1 graph). apply elem_of_difference in Ha as [Ha _].
      by apply elem_of_dom. }
    specialize (H Hs d w Hd). destruct (do_dump _ _ _ _ _ _ _) as [[[u| |] [h' d']] w']; simpl in *; try done.
    destruct H as ((Y & HY & ->) & Hd'). split; [|done]. replace Y with (∅ : Zset) by set_solver.
    by rewrite during_none. }
  apply calm_get. intros d. eapply (calm_bind _ _ _ _ (λ _, True)).
  - destruct (has flags JSON_ENCODE_ANY); [by apply calm_ret|]. destruct p as [| | |a].
    1-3: do 2 (eapply calm_read; [apply reads_ret|]); by apply calm_ret.
    destruct Hp as [[n b] Ha]. unfold json_to_array, json_to_object.
    destruct b; do 2 (eapply calm_read; [eapply reads_bind; [by apply reads_cell|apply reads_ret]|]);
      by apply calm_ret.
  - intros [|] _; [exact Hdump|by apply calm_fail].
Qed.
End graph.
End calm.
