(* ===== verification/JHashProps.v ===== *)
(** * Properties of the hash table of Jansson *)

From S2P Require Import Prelude CModel JBase JHash JHashTheory.
From stdpp Require Import strings gmap fin_maps.
#[local] Open Scope Z_scope.

Section calls.
Context {V : Type}.
Abbreviation entry := (Z * pair_t V)%type.

(** Calls of a client. *)
Inductive call :=
  | Set_ (key : list Z) (serial : Z) (value : V)
  | Del (key : list Z)
  | Clear.

(** The values that were released, the last one first. *)
Definition release (v : V) : SM (list V) unit := s ← get; put (v :: s).

Definition run_call (c : call) : SM (hashtable_t V * list V) unit :=
  match c with
  | Set_ key serial value => hashtable_set release key serial value
  | Del key => _ ← hashtable_del release key; mret tt
  | Clear => hashtable_clear release
  end.

Fixpoint run_calls (cs : list call) : SM (hashtable_t V * list V) unit :=
  match cs with
  | [] => mret tt
  | c :: cs => _ ← run_call c; run_calls cs
  end.

(** What the calls mean for a finite map, and the values that they hand over. *)
Definition map_call (m : gmap (list Z) V) (c : call) : gmap (list Z) V :=
  match c with
  | Set_ key _ value => <[key := value]> m
  | Del key => delete key m
  | Clear => ∅
  end.

Definition given (c : call) : list V := match c with Set_ _ _ value => [value] | _ => [] end.

(** The pairs from [iter] on, as the iterator functions deliver them. *)
Fixpoint walk (fuel : nat) (h : hashtable_t V) (iter : option Z) : outcome (list (list Z * V)) :=
  match iter, fuel with
  | None, _ => mret []
  | Some _, O => Undef
  | Some i, S fuel =>
    key ← hashtable_iter_key h i;
    value ← hashtable_iter_value h i;
    iter ← hashtable_iter_next h i;
    rest ← walk fuel h iter;
    mret ((key, value) :: rest)
  end.

Definition walk_all (h : hashtable_t V) : outcome (list (list Z * V)) :=
  iter ← hashtable_iter h; walk (Z.to_nat (h_size h)) h iter.

(** ** The map of a table *)

Definition kv (e : entry) : list Z * V := (p_key e.2, p_value e.2).
Definition map_of (l : list entry) : gmap (list Z) V := list_to_map (kv <$> l).
Definition values_of (l : list entry) : list V := (λ e : entry, p_value e.2) <$> l.

Lemma kv_keys l : (kv <$> l).*1 = keys l.
Proof. unfold keys. by rewrite <- list_fmap_compose. Qed.

Lemma kv_values l : (kv <$> l).*2 = values_of l.
Proof. unfold values_of. by rewrite <- list_fmap_compose. Qed.

Lemma map_of_perm l l' : NoDup (keys l) → l ≡ₚ l' → map_of l = map_of l'.
Proof. intros Hnd Hp. apply list_to_map_proper; [by rewrite kv_keys|by rewrite Hp]. Qed.

Lemma find_map key l : NoDup (keys l) → (λ e : entry, p_value e.2) <$> find_pair key l = map_of l !! key.
Proof.
  intros Hnd. destruct (find_pair key l) as [e|] eqn:Hf.
  - apply find_pair_in in Hf as [He <-]. symmetry. apply elem_of_list_to_map_1; [by rewrite kv_keys|].
    apply list_elem_of_fmap. by exists e.
  - apply find_pair_none in Hf. symmetry. apply not_elem_of_list_to_map_1. by rewrite kv_keys.
Qed.

Lemma map_replace l1 (e : entry) l2 v :
  NoDup (keys (l1 ++ e :: l2)) → NoDup (addrs (l1 ++ e :: l2)) →
  map_of (set_value e.1 v <$> (l1 ++ e :: l2)) = <[p_key e.2 := v]> (map_of (l1 ++ e :: l2)) ∧
  p_value e.2 :: values_of (set_value e.1 v <$> (l1 ++ e :: l2)) ≡ₚ v :: values_of (l1 ++ e :: l2).
Proof.
  intros Hk Ha.
  assert (Ho : ∀ l, e.1 ∉ addrs l → set_value e.1 v <$> l = l).
  { induction l as [|e' l IH]; [done|]. intros H. unfold addrs in *. rewrite fmap_cons in *.
    rewrite IH by set_solver. unfold set_value. by rewrite decide_False by set_solver. }
  assert (Hp : l1 ++ e :: l2 ≡ₚ e :: l1 ++ l2) by by rewrite Permutation_middle.
  assert (Ha' : e.1 ∉ addrs (l1 ++ l2)) by by apply addrs_nodup_split.
  assert (Es : set_value e.1 v e = (e.1, Pair (p_hash e.2) (p_serial e.2) v (p_key e.2))).
  { unfold set_value. by rewrite decide_True. }
  rewrite fmap_app, fmap_cons, Es. rewrite !Ho by (rewrite addrs_app in Ha'; set_solver).
  set (e' := (e.1, _) : entry).
  assert (Hk' : NoDup (keys (l1 ++ e' :: l2))).
  { unfold keys in *. rewrite fmap_app, fmap_cons in *. done. }
  split.
  - rewrite (map_of_perm (l1 ++ e' :: l2) (e' :: l1 ++ l2)) by (done || by rewrite Permutation_middle).
    rewrite (map_of_perm _ _ Hk Hp). unfold map_of. rewrite !fmap_cons. simpl. by rewrite insert_insert_eq.
  - unfold values_of. rewrite !fmap_app, !fmap_cons. simpl. rewrite <- !Permutation_middle. apply Permutation_swap.
Qed.

(** ** One call *)

Definition holds_map (hs : hashtable_t V * list V) (m : gmap (list Z) V) (vs : list V) : Prop :=
  ∃ l, table hs.1 l ∧ map_of l = m ∧ hs.2 ++ values_of l ≡ₚ vs.

Lemma release_spec v s : wpr (release v) s (λ _ s', s' = v :: s).
Proof. apply wp_get_bind, wp_put. done. Qed.

Lemma map_of_size l : NoDup (keys l) → size (map_of l) = length l.
Proof.
  intros Hnd. unfold map_of. rewrite <- (length_map_to_list (list_to_map _)).
  rewrite (Permutation_length (map_to_list_to_map _ ltac:(by rewrite kv_keys))). by rewrite length_fmap.
Qed.

Lemma run_call_spec c hs m vs :
  holds_map hs m vs → Z.of_nat (size m) < MAX_PAIRS →
  wpr (run_call c) hs (λ _ hs', holds_map hs' (map_call m c) (given c ++ vs)).
Proof.
  destruct hs as [h s]. intros (l & Ht & <- & Hvs) Hm. simpl in *. pose proof (table_keys _ _ Ht) as Hnd.
  pose proof (table_addrs _ _ Ht) as Hna. rewrite map_of_size in Hm by done.
  destruct Ht as (n & gs & Hrep & <-). destruct c as [key serial v|key|]; simpl.
  - destruct (find_pair key (flat gs)) as [e|] eqn:Hf.
    + eapply wp_mono; [eapply (hashtable_set_old release h n gs s key serial v e (λ s', s' = p_value e.2 :: s)); try done; apply release_spec|].
      intros [[]| |] [h' s'] H'; [|done..]. simpl in H'. destruct H' as (-> & n' & gs' & Hrep' & Hp). simpl in *.
      apply find_pair_in in Hf as [He <-]. apply list_elem_of_split in He as (l1 & l2 & El).
      rewrite El in *. destruct (map_replace l1 e l2 v Hnd Hna) as [Em Ev].
      exists (flat gs'). split; [by exists n', gs'|]. split.
      * rewrite <- Em. apply map_of_perm; [|done]. by apply (table_keys h'); exists n', gs'.
      * unfold values_of in *. simpl. rewrite Hp, <- Hvs, Permutation_middle, Ev. by rewrite <- Permutation_middle.
    + eapply wp_mono; [by apply (hashtable_set_new release h n gs s key serial v)|].
      intros [[]| |] [h' s'] H'; [|done..]. simpl in H'. destruct H' as (-> & n' & gs' & Hrep' & Hp). simpl in *.
      exists (flat gs'). split; [by exists n', gs'|]. split.
      * rewrite (map_of_perm _ _ (table_keys h' _ ltac:(by exists n', gs')) Hp). done.
      * unfold values_of in *. simpl. rewrite Hp, <- Hvs. simpl. by rewrite <- Permutation_middle.
  - apply (wp_seq _ _ _ (λ _ hs', holds_map hs' (delete key (map_of (flat gs))) vs)).
    + destruct (find_pair key (flat gs)) as [e|] eqn:Hf.
      * eapply wp_mono; [eapply (hashtable_del_some release h n gs s key e (λ s', s' = p_value e.2 :: s)); try done; apply release_spec|].
        intros [b| |] [h' s'] H'; [|done..]. simpl in H'. destruct H' as (-> & -> & gs' & l1 & l2 & Hrep' & El & El'). simpl in *.
        apply find_pair_in in Hf as [_ <-]. exists (flat gs'). split; [by exists n, gs'|].
        assert (Hp : flat gs ≡ₚ e :: flat gs') by (rewrite El, El'; by rewrite Permutation_middle). split.
        -- rewrite (map_of_perm _ _ Hnd Hp). unfold map_of. rewrite fmap_cons. simpl. rewrite delete_insert_id; [done|].
           apply not_elem_of_list_to_map_1. rewrite kv_keys. unfold keys in *. rewrite Hp, fmap_cons in Hnd.
           by apply NoDup_cons in Hnd as [? _].
        -- unfold values_of in *. rewrite <- Hvs, Hp. simpl. by rewrite <- Permutation_middle.
      * eapply wp_mono; [by apply (hashtable_del_none release h n gs s key)|].
        intros [b| |] hs' H'; [|done..]. destruct H' as (_ & ->). exists (flat gs). split; [by exists n, gs|].
        split; [|done]. rewrite delete_id; [done|]. rewrite <- find_map, Hf by done. done.
    + intros b hs' H'. by apply wp_ret.
  - eapply wp_mono; [apply (hashtable_clear_spec release (λ l s', s' ++ values_of l ≡ₚ vs)) with (gs := gs) (n := n)|].
    + intros e rest s' Hs'. eapply wp_mono; [apply release_spec|]. intros [[]| |] s2 H2; [|done..]. rewrite H2.
      simpl. rewrite <- Hs'. unfold values_of. simpl. by rewrite <- Permutation_middle.
    + done.
    + done.
    + intros [[]| |] [h' s'] H'; [|done..]. simpl in H'. destruct H' as (Hs' & Hrep'). exists []. split; [by exists n, []|done].
Qed.

Lemma given_size cs m : (size (foldl map_call m cs) ≤ size m + length cs)%nat.
Proof.
  revert m. induction cs as [|c cs IH]; intros m; simpl; [lia|]. etrans; [apply IH|].
  assert (size (map_call m c) ≤ size m + 1)%nat; [|lia]. destruct c as [key serial v|key|]; simpl.
  - rewrite map_size_insert. case_match; simpl; lia.
  - rewrite map_size_delete. case_match; simpl; lia.
  - rewrite map_size_empty. lia.
Qed.

Lemma run_calls_spec cs hs m vs :
  holds_map hs m vs → Z.of_nat (size m + length cs) ≤ MAX_PAIRS →
  wpr (run_calls cs) hs (λ _ hs', holds_map hs' (foldl map_call m cs) (concat (given <$> cs) ++ vs)).
Proof.
  revert hs m vs. induction cs as [|c cs IH]; intros hs m vs Hhs Hm; cbn [run_calls]; [by apply wp_ret|].
  pose proof (given_size [c] m) as Hg. simpl in Hg, Hm. eapply wp_seq; [apply run_call_spec; [done|lia]|].
  intros [] hs' Hhs'. eapply wp_mono; [apply (IH hs' _ _ Hhs'); lia|].
  intros [[]| |] h2 Hh2; [|done..]. destruct Hh2 as (l & Hl & Hm2 & Hv). exists l. split; [done|]. split; [done|]. rewrite Hv.
  cbn [fmap list_fmap concat]. by rewrite (Permutation_app_comm (given c)), app_assoc, (Permutation_app_comm _ (given c)), app_assoc.
Qed.

(** ** Iteration *)

Lemma walk_spec h n gs l1 l2 fuel :
  rep h n gs → flat gs = l1 ++ l2 → (length l2 ≤ fuel)%nat →
  walk fuel h (fst <$> head l2) = Ret (kv <$> l2).
Proof.
  revert l1 l2. induction fuel as [|fuel IH]; intros l1 l2 Hrep E Hf; (destruct l2 as [|e l2]; [done|]); [simpl in Hf; lia|].
  assert (Hp : get_pair e.1 h = Ret e.2) by (apply (get_pair_spec h n gs); [done|]; rewrite E; set_solver).
  cbn [head fmap option_fmap option_map walk]. unfold hashtable_iter_key, hashtable_iter_value. rewrite Hp.
  cbn [mbind outcome_bind mret outcome_ret]. rewrite (iter_next_spec h n gs l1 e l2 Hrep E). cbn [mbind outcome_bind].
  rewrite (IH (l1 ++ [e]) l2 Hrep); [done|by rewrite <- app_assoc|simpl in Hf; lia].
Qed.

Lemma walk_all_spec h l : table h l → walk_all h = Ret (kv <$> l).
Proof.
  intros (n & gs & Hrep & <-). unfold walk_all. rewrite (iter_spec h n gs Hrep). cbn [mbind outcome_bind].
  apply (walk_spec h n gs []); [done|done|]. rewrite (rep_size _ _ _ Hrep). lia.
Qed.
End calls.

(** ** The properties *)

(** A table from its initialisation. *)
Definition session {V} (cs : list call) : SM (hashtable_t V * list V) unit :=
  _ ← on_table hashtable_init; run_calls cs.

Lemma session_spec {V} (cs : list (@call V)) (h0 : hashtable_t V) :
  Z.of_nat (length cs) ≤ MAX_PAIRS →
  wpr (session cs) (h0, []) (λ _ hs, holds_map hs (foldl map_call ∅ cs) (concat (given <$> cs))).
Proof.
  intros Hcs. unfold session. apply (wp_seq _ _ _ (λ _ hs, hs.2 = [] ∧ rep hs.1 5 [])).
  { apply wp_on_table. eapply wp_mono; [apply hashtable_init_spec|]. by intros [[]| |]. }
  intros [] [h s] [E Hrep]. simpl in E, Hrep. subst s. rewrite <- (app_nil_r (concat _)).
  apply run_calls_spec; [by exists []; split; [exists 5, []|]|by rewrite map_size_empty].
Qed.

(** C6: every sequence of calls of hashtable_set, hashtable_del and
    hashtable_clear on a fresh table leaves a table that is the finite map of
    the calls: hashtable_get finds exactly its members, the iterator delivers
    every pair once, the size is the number of keys, and of the values that were
    handed over each one is either in the table or was released exactly once. *)
Theorem hashtable_refines_map {V} (cs : list (@call V)) (h0 : hashtable_t V) :
  Z.of_nat (length cs) ≤ MAX_PAIRS →
  wpr (session cs) (h0, []) (λ _ hs,
    let m := foldl map_call ∅ cs in
    (∀ key, hashtable_get hs.1 key = Ret (m !! key)) ∧ h_size hs.1 = Z.of_nat (size m) ∧
    (∃ ps, walk_all hs.1 = Ret ps ∧ ps ≡ₚ map_to_list m) ∧
    hs.2 ++ (map_to_list m).*2 ≡ₚ concat (given <$> cs)).
Proof.
  intros Hcs. eapply wp_mono; [by apply session_spec|].
  intros [[]| |] [h' s'] H; [|done..]. destruct H as (l & Ht & Hm & Hv). simpl in *. cbv zeta.
  rewrite <- Hm. pose proof (table_keys _ _ Ht) as Hnd. split_and!.
  - intros key. rewrite <- find_map by done. destruct Ht as (n & gs & Hr & <-). by apply (hashtable_get_spec h' n gs).
  - rewrite map_of_size by done. by apply table_size.
  - exists (kv <$> l). split; [by apply walk_all_spec|]. symmetry. apply map_to_list_to_map. by rewrite kv_keys.
  - unfold map_of. rewrite map_to_list_to_map by by rewrite kv_keys. by rewrite kv_values.
Qed.

Lemma hashtable_refines_map_witness :
  let cs := [Set_ [97] 0 1; Set_ [98] 1 2; Set_ [97] 2 3; Del [98]] in
  wpr (session cs) (Hashtable 0 None 0 ∅ ∅ 1, []) (λ _ hs,
    let m := foldl map_call ∅ cs in
    (∀ key, hashtable_get hs.1 key = Ret (m !! key)) ∧ h_size hs.1 = Z.of_nat (size m) ∧
    (∃ ps, walk_all hs.1 = Ret ps ∧ ps ≡ₚ map_to_list m) ∧
    hs.2 ++ (map_to_list m).*2 ≡ₚ concat (given <$> cs)).
Proof. intros cs. apply (hashtable_refines_map cs). unfold MAX_PAIRS. simpl. lia. Defined.

Lemma malloc_refused n w :
  0 < n → alloc_ok w (allocs w) = false → jsonp_malloc n w = (Fail, set_errno ENOMEM (set_allocs (S (allocs w)) w)).
Proof.
  intros Hn Hw. unfold jsonp_malloc. rewrite (proj2 (Z.eqb_neq _ _)) by lia. unfold malloc.
  by rewrite Hw, andb_false_r.
Qed.

Lemma get_without_buckets {V} (h : hashtable_t V) key : h_buckets h = None → hashtable_get h key = Undef.
Proof.
  intros Hb. unfold hashtable_get, lookup_pair, num_buckets, get_bucket, readZ. rewrite Hb.
  case_match; [|done]. by destruct (primes !! _).
Qed.

Lemma rehash_refused {V} (h : hashtable_t V) n gs w :
  rep h n gs → Z.of_nat (length (flat gs)) < MAX_PAIRS → n ≤ h_size h → alloc_ok w (allocs w) = false →
  ∃ h' w', hashtable_do_rehash h w = ((Fail, h'), w') ∧ h_buckets h' = None.
Proof.
  intros Hrep Hl Hn Hw. unfold hashtable_do_rehash, mbind, SM_bind, get, put.
  assert (Hi : ∃ n', num_buckets (Hashtable (h_size h) None (h_num_buckets h + 1) (h_links h) (h_pairs h) (h_brk h)) = Ret n' ∧ 0 < n').
  { destruct (rep_n _ _ _ Hrep) as [Hnb _]. unfold num_buckets in *. cbn [h_num_buckets].
    rewrite (rep_size _ _ _ Hrep) in Hn. destruct (decide (28 ≤ h_num_buckets h)) as [Hd|Hd].
    { pose proof (readZ_nth _ _ Hnb Hd). lia. }
    assert (H0 : 0 ≤ h_num_buckets h). { unfold readZ in Hnb. destruct (0 <=? _) eqn:E; [by apply Z.leb_le in E|done]. }
    assert (∃ n', readZ primes (h_num_buckets h + 1) = Ret n') as [n' E].
    { unfold readZ. rewrite (proj2 (Z.leb_le _ _)) by lia.
      destruct (lookup_lt_is_Some_2 primes (Z.to_nat (h_num_buckets h + 1))) as [x ->]; [|by exists x].
      change (length primes) with 29%nat. lia. }
    exists n'. split; [done|by eapply prime_pos]. }
  destruct Hi as (n' & E & Hn'). unfold liftS, lift at 1, liftO at 1. rewrite E. unfold lift.
  rewrite malloc_refused by (unfold sizeof_bucket; (lia || done)). by eexists _, _.
Qed.

(** C29: hashtable_set fails when the memory that it asks for is refused. As
    long as the table need not grow, nothing has changed then. A table that
    had to grow is lost: its buckets were freed before the new ones were
    requested, so that already the next lookup follows a null pointer. *)
Theorem hashtable_set_refused {V S} (json_decref : V → SM S unit) (h : hashtable_t V) l n key serial value s w :
  table h l → Z.of_nat (length l) < MAX_PAIRS → num_buckets h = Ret n → key ∉ keys l →
  alloc_ok w (allocs w) = false →
  ∃ h' w', hashtable_set json_decref key serial value (h, s) w = ((Fail, (h', s)), w') ∧
    if h_size h <? n then h' = h else ∀ k, hashtable_get h' k = Undef.
Proof.
  intros (n' & gs & Hrep & <-) Hl Hn Hk Hw. destruct (rep_n _ _ _ Hrep) as [Hn' Hpos].
  assert (n' = n) as -> by congruence.
  unfold hashtable_set, mbind, SM_bind, get_table, on_table, zoom, get. cbn [fst snd]. rewrite Hn. unfold liftS at 1, lift at 1, liftO.
  destruct (Z.ltb_spec (h_size h) n) as [Hs|Hs].
  - rewrite (proj2 (Z.leb_gt _ _)) by lia. unfold mret, SM_ret, liftS, lift at 1, liftO. cbn [fst snd].
    rewrite (lookup_pair_spec h n gs key Hrep), (proj2 (find_pair_none _ _) Hk).
    cbn [fmap option_fmap option_map]. unfold lift. rewrite malloc_refused by (unfold offsetof_key; (lia || done)).
    by eexists _, _.
  - rewrite (proj2 (Z.leb_le _ _)) by lia. cbn [fst snd].
    destruct (rehash_refused h n gs w) as (h' & w' & E & Hb); [done|done|done|done|]. rewrite E. cbn [fst snd].
    exists h', w'. split; [done|]. intros k. by apply get_without_buckets.
Qed.

Definition five : list (@call Z) := (λ k, Set_ [k] k k) <$> [1; 2; 3; 4; 5].

Lemma table_after {V} (cs : list (@call V)) h0 :
  Z.of_nat (length cs) ≤ MAX_PAIRS →
  let m := foldl map_call ∅ cs in
  ∃ l, table (run (session cs) (h0, [])).2.1 l ∧ map_of l = m.
Proof.
  intros Hcs m. pose proof (wp_run _ _ _ (session_spec cs h0 Hcs)) as H.
  destruct (run (session cs) (h0, [])).1 as [[]| |]; [|done..]. destruct H as (l & Ht & Hm & _). by exists l.
Qed.

Lemma hashtable_set_refused_witness :
  let h := (run (session five) (Hashtable 0 None 0 ∅ ∅ 1, [])).2.1 in
  let w := World (λ _, false) 0 None (Statics [] ∅ ∅) in
  ∃ h' w', hashtable_set release [6] 6 6 (h, []) w = ((Fail, (h', [])), w') ∧ ∀ k, hashtable_get h' k = Undef.
Proof.
  intros h w. destruct (table_after five (Hashtable 0 None 0 ∅ ∅ 1)) as (l & Ht & Hm); [vm_compute; congruence|].
  pose proof (hashtable_set_refused release h l 5 [6] 6 6 [] w Ht) as H.
  change (h_size h <? 5) with false in H. cbv iota in H. apply H.
  - pose proof (table_size _ _ Ht) as E. change (h_size _) with 5 in E. rewrite <- E. vm_compute. congruence.
  - reflexivity.
  - apply find_pair_none. pose proof (find_map [6] l (table_keys _ _ Ht)) as E. rewrite Hm in E.
    change (foldl map_call ∅ five !! [6]) with (@None Z) in E. by destruct (find_pair [6] l).
  - reflexivity.
Defined.
