(* ===== verification/JValueProps.v ===== *)
(** * Properties of the values of Jansson: reference counts, objects, arrays *)

From S2P Require Import Prelude CModel JBase JUtf JHash JHashTheory JValue JArray JReal JLex JSpec JHeap JBuild.
From stdpp Require Import strings.
From Stdlib Require Import SpecFloat.
#[local] Open Scope Z_scope.

(** ** Reference counts *)

(** C8: json_decref on the last reference to a tree frees exactly its cells,
    each of them once; with other references left it only counts down. A
    json_incref that json_decref follows changes nothing. *)
Theorem json_decref_frees_tree s n p v A :
  wf s → owned (cells s) n p v A → 0 < n < STATIC_COUNT - 1 →
  wpr (json_decref (Some p)) s (λ _ s',
    if n =? 1 then removed A s s' else recounted p (n - 1) s s' ∧ owned (cells s') (n - 1) p v A) ∧
  wpr (_ ← json_incref (Some p); json_decref (Some p)) s (λ _ s', s' = s).
Proof.
  intros Hwf Hp Hn. split.
  - destruct (Z.eqb_spec n 1) as [->|Hne]; [by apply (json_decref_spec s p v A)|].
    eapply wp_mono; [apply (json_decref_shared s n p v A Hp); lia|]. intros [[]| |] s' H; [|done..].
    split; [done|]. by eapply recounted_owned.
  - eapply wp_seq; [by apply (json_incref_spec s n p v A)|]. intros r s1 (_ & H1).
    assert (Hp1 : owned (cells s1) (n + 1) p v A) by by eapply recounted_owned.
    eapply wp_mono; [apply (json_decref_shared s1 (n + 1) p v A Hp1); lia|]. intros [[]| |] s2 H2; [|done..].
    rewrite Z.add_simpl_r in H2. destruct s as [m b], s1 as [m1 b1], s2 as [m2 b2], H1 as [E1 H1], H2 as [E2 H2].
    simpl in *. subst b1 b2. f_equal. inversion Hp as [k|k|k|k a b' v' A' Hc Hd HA]; subst; [congruence..|].
    destruct H1 as (c & Hc1 & ->), H2 as (c2 & Hc2 & ->). rewrite lookup_insert_eq in Hc2. simplify_eq. simpl.
    by rewrite insert_insert_eq, insert_id.
Qed.

(** An array of an integer, in two cells. *)
Definition pair_heap : heap :=
  Heap (<[0 := Cell 1 (Array (JsonArray 8 1 (Some (Ref 1) :: replicate 7 None) 0))]>
        (<[1 := Cell 1 (Integer 7)]> (<[2 := Cell 1 (Integer 8)]> ∅))) 3.

Lemma pair_tree : owned (cells pair_heap) 1 (Ref 0) (JArray [JInteger 7]) ({[0]} ∪ (({[1]} ∪ ∅) ∪ ∅)).
Proof.
  eapply O_cell; [reflexivity| |set_solver].
  apply (D_array _ _ [Ref 1]); [by split|done|].
  constructor; [|constructor|set_solver]. eapply O_cell; [reflexivity|constructor|set_solver].
Qed.

Lemma pair_other : owned (cells pair_heap) 1 (Ref 2) (JInteger 8) ({[2]} ∪ ∅).
Proof. eapply O_cell; [reflexivity|constructor|set_solver]. Qed.

Lemma pair_wf : wf pair_heap.
Proof.
  split; [simpl; lia|]. intros a [x Hx]. unfold pair_heap in *. cbn [cells brk] in *.
  destruct (decide (a = 0)) as [->|]; [lia|]. destruct (decide (a = 1)) as [->|]; [lia|].
  destruct (decide (a = 2)) as [->|]; [lia|]. by rewrite !lookup_insert_ne, lookup_empty in Hx by done.
Qed.

Lemma json_decref_frees_tree_witness :
  wpr (json_decref (Some (Ref 0))) pair_heap (λ _ s', removed ({[0]} ∪ (({[1]} ∪ ∅) ∪ ∅)) pair_heap s').
Proof. apply (json_decref_frees_tree pair_heap 1 (Ref 0) _ _ pair_wf pair_tree). unfold STATIC_COUNT. lia. Defined.

(** ** Arrays and objects as trees *)

(** C25: json_array_append adds a value at the end of an array, growing its
    table when it is full; when the caller gives its own reference up, the
    value belongs to the tree of the array. *)
Theorem json_array_append_tree s a vs A p v B :
  owned (cells s) 1 (Ref a) (JArray vs) A → owned (cells s) 1 p v B → A ## B →
  wpr (json_array_append (Some (Ref a)) (Some p)) s (λ _ s1,
    wpr (json_decref (Some p)) s1 (λ _ s', owned (cells s') 1 (Ref a) (JArray (vs ++ [v])) (A ∪ B) ∧
      brk s' = brk s ∧ ∀ d, d ≠ a → cells s' !! d = cells s !! d)).
Proof. by apply array_append_spec. Qed.

Lemma json_array_append_tree_witness :
  wpr (json_array_append (Some (Ref 0)) (Some (Ref 2))) pair_heap (λ _ s1,
    wpr (json_decref (Some (Ref 2))) s1 (λ _ s',
      owned (cells s') 1 (Ref 0) (JArray [JInteger 7; JInteger 8]) ({[0]} ∪ (({[1]} ∪ ∅) ∪ ∅) ∪ ({[2]} ∪ ∅)) ∧
      brk s' = 3 ∧ ∀ d, d ≠ 0 → cells s' !! d = cells pair_heap !! d)).
Proof.
  apply (json_array_append_tree pair_heap 0 [JInteger 7] _ (Ref 2) (JInteger 8) _ pair_tree pair_other). set_solver.
Defined.

(** An object of no members, and a value. *)
Definition object_heap : heap :=
  Heap (<[0 := Cell 1 (Object (JsonObject (run hashtable_init (Hashtable 0 None 0 ∅ ∅ 0)).2 0 0))]>
        (<[1 := Cell 1 (Integer 8)]> ∅)) 2.

Lemma object_tree : owned (cells object_heap) 1 (Ref 0) (JObject []) ({[0]} ∪ ∅).
Proof.
  eapply O_cell; [reflexivity| |set_solver].
  apply (D_object _ _ [] []); [|done|constructor|done].
  pose proof (wp_run _ _ _ (hashtable_init_spec (V := ref) (Hashtable 0 None 0 ∅ ∅ 0))) as H.
  exists 5, []. split; [|done]. exact H.
Qed.

Lemma object_other : owned (cells object_heap) 1 (Ref 1) (JInteger 8) ({[1]} ∪ ∅).
Proof. eapply O_cell; [reflexivity|constructor|set_solver]. Qed.

Lemma object_wf : wf object_heap.
Proof.
  split; [simpl; lia|]. intros a [x Hx]. unfold object_heap in *. cbn [cells brk] in *.
  destruct (decide (a = 0)) as [->|]; [lia|]. destruct (decide (a = 1)) as [->|]; [lia|].
  by rewrite !lookup_insert_ne, lookup_empty in Hx by done.
Qed.

(** C24: json_object_set_nocheck adds a member to an object, or replaces the
    value of the key and frees the tree of the old one; it does not touch
    anything outside the two trees. *)
Theorem json_object_set_tree s a ms A key p v B :
  wf s → owned (cells s) 1 (Ref a) (JObject ms) A → owned (cells s) 1 p v B → A ## B →
  Z.of_nat (length ms) < MAX_PAIRS →
  wpr (json_object_set_nocheck (Some (Ref a)) (Some key) (Some p)) s (λ _ s1,
    wpr (json_decref (Some p)) s1 (λ _ s', ∃ C, C ⊆ A ∖ {[a]} ∧
      owned (cells s') 1 (Ref a) (JObject (set_member key v ms)) ((A ∖ C) ∪ B) ∧ brk s' = brk s ∧
      ∀ d, d ≠ a → cells s' !! d = if decide (d ∈ C) then None else cells s !! d)).
Proof.
  intros Hwf Ha Hp HAB Hl. eapply wp_mono; [by apply (object_set_spec s a ms A key p v B)|].
  intros [[]| |] s1 H1; [|done..]. eapply wp_mono; [exact H1|]. intros [[]| |] s2 H2; [|done..].
  destruct H2 as (C & [[HC HaC] Ho Hb Hd]). exists C. split; [|done]. set_solver.
Qed.

Lemma json_object_set_tree_witness :
  wpr (json_object_set_nocheck (Some (Ref 0)) (Some [107]) (Some (Ref 1))) object_heap (λ _ s1,
    wpr (json_decref (Some (Ref 1))) s1 (λ _ s', ∃ C, C ⊆ ({[0]} ∪ ∅) ∖ {[0]} ∧
      owned (cells s') 1 (Ref 0) (JObject [([107], JInteger 8)]) ((({[0]} ∪ ∅) ∖ C) ∪ ({[1]} ∪ ∅)) ∧ brk s' = 2 ∧
      ∀ d, d ≠ 0 → cells s' !! d = if decide (d ∈ C) then None else cells object_heap !! d)).
Proof.
  apply (json_object_set_tree object_heap 0 [] _ [107] (Ref 1) (JInteger 8) _ object_wf object_tree object_other).
  - set_solver.
  - vm_compute. reflexivity.
Defined.

(** ** Removing an element *)

Lemma array_block t ps :
  array_of t ps → ∃ rest, a_table t = (Some <$> ps) ++ rest ∧ a_size t = a_entries t + Z.of_nat (length rest).
Proof.
  intros [He Hs Hm Hf Ht]. exists (drop (length ps) (a_table t)). rewrite <- Ht, take_drop. split; [done|].
  rewrite length_drop. lia.
Qed.

Lemma table_get_middle (ps1 ps2 : list ref) p rest :
  table_get ((Some <$> (ps1 ++ p :: ps2)) ++ rest) (Z.of_nat (length ps1)) = Ret p.
Proof.
  unfold table_get. rewrite (proj2 (Z.leb_le _ _)), Nat2Z.id by lia.
  rewrite fmap_app, <- app_assoc, lookup_app_r by (by rewrite length_fmap). rewrite length_fmap, Nat.sub_diag. done.
Qed.

(** The pointers behind a removed one move down, with one more behind them. *)
Lemma move_down (ps1 ps2 : list ref) p rest :
  let t := (Some <$> (ps1 ++ p :: ps2)) ++ rest in
  let n := Z.of_nat (length (ps1 ++ p :: ps2)) in
  let i := Z.of_nat (length ps1) in
  match rest with
  | [] => array_move t i (i + 1) (n - i) = Undef
  | r :: _ => array_move t i (i + 1) (n - i) = Ret ((Some <$> (ps1 ++ ps2)) ++ r :: rest)
  end.
Proof.
  intros t n i. assert (Hn : n - i = Z.of_nat (S (length ps2))) by (unfold n, i; rewrite length_app; simpl; lia).
  assert (Hb : blen t = n + Z.of_nat (length rest)).
  { unfold blen, t, n. rewrite length_app, length_fmap. lia. }
  unfold array_move. rewrite Hn, Hb. rewrite (proj2 (Z.leb_le 0 _)) by lia. destruct rest as [|r rest].
  - rewrite (proj2 (Z.leb_gt (i + 1 + _) _)) by (simpl; lia). by rewrite andb_false_r.
  - rewrite !(proj2 (Z.leb_le _ _)) by (simpl length; lia). cbn [andb].
    replace (Z.to_nat (i + 1)) with (length ps1 + 1)%nat by lia. unfold i. rewrite <- Nat2Z.inj_add, !Nat2Z.id.
    replace t with ((Some <$> ps1) ++ (Some p :: (Some <$> ps2) ++ r :: rest))
      by (unfold t; by rewrite fmap_app, fmap_cons, <- app_assoc).
    assert (E1 : length (Some <$> ps1) = length ps1) by apply length_fmap.
    assert (E2 : length (Some <$> ps2) = length ps2) by apply length_fmap.
    rewrite take_app_length' by done. rewrite !drop_app_ge by (rewrite E1; lia). rewrite E1.
    replace (length ps1 + 1 - length ps1)%nat with 1%nat by lia.
    replace (length ps1 + S (length ps2) - length ps1)%nat with (S (length ps2)) by lia.
    cbn [drop]. rewrite drop_0, drop_app_length' by by rewrite E2.
    change (r :: rest) with ([r] ++ rest) at 1. rewrite (app_assoc (Some <$> ps2)).
    rewrite take_app_length' by (rewrite length_app, E2; simpl; lia). by rewrite fmap_app, <- !app_assoc.
Qed.

Lemma array_of_removed t ps1 p ps2 r rest :
  array_of t (ps1 ++ p :: ps2) → a_table t = (Some <$> (ps1 ++ p :: ps2)) ++ r :: rest →
  array_of (with_entries (a_entries t - 1) ((Some <$> (ps1 ++ ps2)) ++ r :: r :: rest) t) (ps1 ++ ps2).
Proof.
  intros [He Hs Hmin Hf _] Etab. rewrite Etab in Hs. rewrite !length_app, length_fmap, length_app in *. simpl in *.
  split; simpl; rewrite ?length_app, ?length_fmap, ?length_app; simpl; [lia..|].
  by rewrite take_app_length' by (by rewrite length_fmap, length_app).
Qed.

(** The tree of an element, and the others. *)
Lemma array_element m ps vs A (i : nat) :
  owned_all m ps vs A → (i < length vs)%nat →
  ∃ ps1 p ps2 vs1 v vs2 A1 B A2, ps = ps1 ++ p :: ps2 ∧ length ps1 = i ∧ delete i vs = vs1 ++ vs2 ∧
    A = A1 ∪ (B ∪ A2) ∧ A1 ## B ∪ A2 ∧ B ## A2 ∧
    owned_all m ps1 vs1 A1 ∧ owned m 1 p v B ∧ owned_all m ps2 vs2 A2.
Proof.
  intros Hps Hi. pose proof (owned_all_length _ _ _ _ Hps) as Hlen.
  destruct (lookup_lt_is_Some_2 ps i) as [p Hp]; [lia|]. rewrite <- (take_drop_middle ps i p Hp) in Hps.
  assert (Hl1 : length (take i ps) = i) by (rewrite length_take; lia).
  apply owned_all_app in Hps as (vs1 & vs2 & A1 & A2 & -> & -> & Hd12 & Hlv & H1 & H2).
  inversion H2 as [|p' ps' v vs2' B B2 Hpv Hps2 HB]; subst.
  exists (take i ps), p, (drop (S i) ps), vs1, v, vs2', A1, B, B2. split_and!; try done.
  - by rewrite take_drop_middle.
  - rewrite <- Hl1, <- Hlv. by rewrite delete_middle.
Qed.

(** C30: json_array_remove takes an element out of an array, with the ones
    behind it moving down, and frees its tree; but it moves one pointer too
    many: when the table of the array is full, it reads behind the table. *)
Theorem json_array_remove_tree s a t vs A i :
  wf s → cells s !! a = Some (Cell 1 (Array t)) → owned (cells s) 1 (Ref a) (JArray vs) A →
  (i < length vs)%nat →
  wp (json_array_remove (Some (Ref a)) (Z.of_nat i)) s (λ o s',
    if a_entries t <? a_size t then
      o = Ret tt ∧ ∃ C, C ⊆ A ∖ {[a]} ∧ owned (cells s') 1 (Ref a) (JArray (delete i vs)) (A ∖ C) ∧
      brk s' = brk s ∧ ∀ d, d ≠ a → cells s' !! d = if decide (d ∈ C) then None else cells s !! d
    else o = Undef).
Proof.
  intros Hwf Ha Ho Hi. apply owned_inv in Ho as (b & A' & -> & HaA & Hc & Hd). rewrite Ha in Hc. simplify_eq.
  inversion Hd as [| | |t' ps vs' A2 Ht Hv Hps|]; subst.
  destruct (array_element _ _ _ _ i Hps Hi) as (ps1 & p & ps2 & vs1 & v & vs2 & A1 & B & A2 & -> & Hl1 & Edel & -> & Hd1 & Hd2 & H1 & Hp & H2).
  destruct (array_block _ _ Ht) as (rest & Etab & Esz). pose proof (array_entries _ _ Ht) as He.
  unfold json_array_remove, json_to_array. apply wp_bind. eapply wp_get_cell; [done|]. cbn [content]. apply wp_ret.
  rewrite (proj2 (Z.leb_gt _ _)) by (rewrite He, length_app; simpl; lia). rewrite <- Hl1.
  eapply wp_liftS_bind; [rewrite Etab; apply table_get_middle|].
  eapply wp_seq; [by apply (json_decref_spec s p v B)|]. intros [] s1 Hr. unfold reload.
  assert (Ha1 : cells s1 !! a = Some (Cell 1 (Array t))) by (by rewrite (removed_out B s s1) by set_solver).
  apply wp_bind. eapply wp_get_cell; [done|]. cbn [content]. apply wp_ret. rewrite Etab.
  pose proof (move_down ps1 ps2 p rest) as Hm. cbv zeta in Hm. rewrite <- He in Hm. rewrite Esz. destruct rest as [|r rest].
  { rewrite Hm. rewrite (proj2 (Z.ltb_ge _ _)) by (simpl; lia). by apply wp_bind, wp_undef. }
  eapply wp_liftS_bind; [exact Hm|]. rewrite (proj2 (Z.ltb_lt _ _)) by (simpl; lia).
  pose proof (array_of_removed t ps1 p ps2 r rest Ht Etab) as Ht'. set (t' := with_entries _ _ t) in *.
  eapply wp_put_content; [done|]. split; [done|]. exists B. rewrite Hl1, Edel. split; [set_solver|].
  assert (Hout : ∀ d, d ≠ a → d ∉ B → <[a:=Cell 1 (Array t')]> (cells s1) !! d = cells s !! d).
  { intros d Hda HdB. rewrite lookup_insert_ne by done. by apply (removed_out B s s1). }
  split; [|split; [by destruct Hr|]].
  - assert (({[a]} ∪ (A1 ∪ (B ∪ A2))) ∖ B = {[a]} ∪ (A1 ∪ A2)) as ->.
    { apply set_eq. intros d. destruct (decide (d ∈ B)); set_solver. }
    eapply O_cell; [apply lookup_insert_eq| |set_solver].
    apply (D_array _ _ (ps1 ++ ps2)); [done|done|]. apply owned_all_join; [| |set_solver].
    + eapply owned_all_frame; [exact H1|]. intros d Hd'. apply Hout; set_solver.
    + eapply owned_all_frame; [exact H2|]. intros d Hd'. apply Hout; set_solver.
  - intros d Hda. simpl. rewrite lookup_insert_ne by done. by destruct Hr as [_ ->].
Qed.

Lemma json_array_remove_tree_witness :
  let t := JsonArray 8 1 (Some (Ref 1) :: replicate 7 None) 0 in
  wp (json_array_remove (Some (Ref 0)) 0) pair_heap (λ o s',
    if a_entries t <? a_size t then
      o = Ret tt ∧ ∃ C, C ⊆ ({[0]} ∪ (({[1]} ∪ ∅) ∪ ∅)) ∖ {[0]} ∧
      owned (cells s') 1 (Ref 0) (JArray []) (({[0]} ∪ (({[1]} ∪ ∅) ∪ ∅)) ∖ C) ∧
      brk s' = 3 ∧ ∀ d, d ≠ 0 → cells s' !! d = if decide (d ∈ C) then None else cells pair_heap !! d
    else o = Undef).
Proof.
  intros t. apply (json_array_remove_tree pair_heap 0 t [JInteger 7] _ 0 pair_wf); [reflexivity|exact pair_tree|].
  simpl. lia.
Defined.
