(* ===== verification/JTextProps.v ===== *)
(** * Properties of the texts of Jansson

    UTF-8, string buffers, and the errors of the loader: integers that do not
    fit, escapes. *)

From S2P Require Import Prelude CModel JBase JUtf JStrbuf JHash JHashTheory JValue JArray JReal.
From S2P Require Import JLex JScan JLoad JSpec JLexTheory JStringTheory JTokenTheory JHeap.
From S2P Require Import JLoadTheory JParseTheory.
From stdpp Require Import strings.
From Stdlib Require Import SpecFloat.
#[local] Open Scope Z_scope.

(** ** UTF-8 *)



(** All code points of a string, by [utf8_iterate]. *)
Fixpoint iterate_all (fuel : nat) (buffer : list Z) : outcome (list Z) :=
  '(rest, codepoint) ← utf8_iterate buffer;
  match codepoint, fuel with
  | None, _ => mret []
  | Some _, O => Undef
  | Some v, S fuel => vs ← iterate_all fuel rest; mret (v :: vs)
  end.

(** what utf8_encode writes for a sequence of scalar values without NUL is
    read back by utf8_iterate, code point by code point, and ends at the NUL. *)
Lemma utf8_iterate_encode vs :
  Forall scalar vs → Forall (λ v, v ≠ 0) vs →
  ∃ bytes, mapM utf8_encode vs = Some bytes ∧ iterate_all (length vs) (concat bytes ++ [0]) = Ret vs.
Proof.
  intros Hvs H0. exists (utf8 <$> vs). split.
  - apply mapM_fmap_Forall2_Some || apply mapM_Some. apply Forall2_fmap_r, Forall_Forall2_diag.
    eapply Forall_impl; [exact Hvs|]. intros v [Hv _]. by apply utf8_encode_spec.
  - induction Hvs as [|v vs Hv Hvs IH]; [done|]. apply Forall_cons in H0 as [Hv0 H0].
    cbn [fmap list_fmap concat length iterate_all]. rewrite <- app_assoc, utf8_iterate_valid by done.
    cbn [mbind outcome_bind]. by rewrite IH.
Qed.

Lemma utf8_iterate_encode_witness :
  ∃ bytes, mapM utf8_encode [97; 0x20AC; 0x1F600] = Some bytes ∧
    iterate_all 3 (concat bytes ++ [0]) = Ret [97; 0x20AC; 0x1F600].
Proof.
  apply (utf8_iterate_encode [97; 0x20AC; 0x1F600]); repeat constructor; vm_compute; try congruence;
    intros [H1 H2]; by apply H1 || by apply H2.
Defined.

(** ** String buffers *)

(** Calls on a buffer, and what they do to a list of bytes: the list and the
    characters that were popped. *)
Inductive text_call :=
  | Append (data : list Z)
  | AppendByte (c : Z)
  | Pop
  | ClearText.

Definition run_text_call (c : text_call) : SM strbuffer_t (list Z) :=
  match c with
  | Append data => _ ← strbuffer_append_bytes data; mret []
  | AppendByte c => _ ← strbuffer_append_byte c; mret []
  | Pop => c ← strbuffer_pop; mret [c]
  | ClearText => _ ← strbuffer_clear; mret []
  end.

Fixpoint run_text_calls (cs : list text_call) : SM strbuffer_t (list Z) :=
  match cs with
  | [] => mret []
  | c :: cs => p ← run_text_call c; ps ← run_text_calls cs; mret (p ++ ps)
  end.

Definition list_call (l : list Z) (c : text_call) : list Z :=
  match c with
  | Append data => l ++ data
  | AppendByte c => l ++ [u8 c]
  | Pop => take (pred (length l)) l
  | ClearText => []
  end.

Definition popped (l : list Z) (c : text_call) : list Z :=
  match c with Pop => [match last l with Some b => s8 b | None => 0 end] | _ => [] end.

Fixpoint all_popped (l : list Z) (cs : list text_call) : list Z :=
  match cs with [] => [] | c :: cs => popped l c ++ all_popped (list_call l c) cs end.

(** The bytes that the calls append. *)
Definition appended (c : text_call) : nat :=
  match c with Append data => length data | AppendByte _ => 1 | _ => 0 end.

Lemma append_holds s l data :
  holds s l → Z.of_nat (length l + length data) < 2 ^ 62 →
  wpr (strbuffer_append_bytes data) s (λ _ s', holds s' (l ++ data)).
Proof.
  intros Hs Hl. eapply wp_mono; [by apply holds_append|]. intros [[]| |] s' H; [done| |done].
  destruct H as [_ H]. unfold STRBUFFER_SIZE_MAX in H. byte_arith.
Qed.

Lemma run_text_call_spec c s l :
  holds s l → Z.of_nat (length l + appended c) < 2 ^ 62 →
  wpr (run_text_call c) s (λ p s', p = popped l c ∧ holds s' (list_call l c)).
Proof.
  intros Hs Hl. destruct c as [data|c| |]; simpl in *.
  - eapply wp_seq; [by apply (append_holds s l data)|]. intros [] s' Hs'. by apply wp_ret.
  - eapply wp_seq; [by apply (append_holds s l [u8 c])|]. intros [] s' Hs'. by apply wp_ret.
  - destruct (decide (l = [])) as [->|Hne].
    + eapply wp_seq; [by apply holds_pop_empty|]. intros c s' (-> & ->). by apply wp_ret.
    + destruct (exists_last Hne) as (l' & b & ->). eapply wp_seq; [by apply (holds_pop s l' b)|].
      intros c s' (-> & Hs'). apply wp_ret. rewrite last_snoc, length_app. split; [done|].
      replace (pred (length l' + length [b])) with (length l') by (simpl; lia). by rewrite take_app_length.
  - eapply wp_seq; [by apply (holds_clear s l)|]. intros [] s' Hs'. by apply wp_ret.
Qed.

Lemma list_call_length l c : (length (list_call l c) ≤ length l + appended c)%nat.
Proof. destruct c; cbn [list_call appended]; rewrite ?length_app, ?length_take; cbn [length]; lia. Qed.

Lemma run_text_calls_spec cs s l :
  holds s l → Z.of_nat (length l + sum_list (appended <$> cs)) < 2 ^ 62 →
  wpr (run_text_calls cs) s (λ p s', p = all_popped l cs ∧ holds s' (foldl list_call l cs)).
Proof.
  revert s l. induction cs as [|c cs IH]; intros s l Hs Hl; cbn [run_text_calls]; [by apply wp_ret|].
  change (Z.of_nat (length l + (appended c + sum_list (appended <$> cs))) < 2 ^ 62) in Hl.
  pose proof (list_call_length l c) as Hc.
  eapply wp_seq; [apply (run_text_call_spec c s l); [done|lia]|]. intros p s1 (-> & Hs1).
  eapply wp_seq; [apply IH; [exact Hs1|lia]|]. intros ps s2 (-> & Hs2). by apply wp_ret.
Qed.

(** C28: with memory, a buffer under any sequence of appends, pops and clears
    holds exactly the bytes that a list would hold, with a NUL behind them
    within its block; pops hand out the last bytes, as [char]s. *)
Theorem strbuffer_refines_list cs s0 :
  Z.of_nat (sum_list (appended <$> cs)) < 2 ^ 62 →
  wpr (_ ← strbuffer_init; run_text_calls cs) s0 (λ p s,
    let l := foldl list_call [] cs in
    p = all_popped [] cs ∧ sb_length s = Z.of_nat (length l) ∧ Z.of_nat (length l) < sb_size s ∧
    ∃ a, sb_value s = Some a ∧ alen a = sb_size s ∧
      ∀ i, (i ≤ length l)%nat → aget a (Z.of_nat i) = deref ((l ++ [0]) !! i)).
Proof.
  intros Hcs. eapply wp_seq; [apply holds_init|]. intros [] s Hs.
  eapply wp_mono; [by apply (run_text_calls_spec cs s [])|]. intros [p| |] s' H; [|done..].
  destruct H as (-> & [Hl [_ Hsz] (a & Ha & Hla & Hb)]). split; [done|]. split; [done|]. split; [by apply Hsz|].
  exists a. split; [done|]. split; [done|]. intros i Hi. unfold aget. rewrite Hb; [done|].
  rewrite length_app. simpl. lia.
Qed.

Lemma strbuffer_refines_list_witness :
  let cs := [Append [1; 2; 3]; Pop; AppendByte (-1); Pop; ClearText; Append (replicate 20 7); Pop] in
  wpr (_ ← strbuffer_init; run_text_calls cs) (Strbuffer None 0 0) (λ p s,
    let l := foldl list_call [] cs in
    p = all_popped [] cs ∧ sb_length s = Z.of_nat (length l) ∧ Z.of_nat (length l) < sb_size s ∧
    ∃ a, sb_value s = Some a ∧ alen a = sb_size s ∧
      ∀ i, (i ≤ length l)%nat → aget a (Z.of_nat i) = deref ((l ++ [0]) !! i)).
Proof. intros cs. apply (strbuffer_refines_list cs). vm_compute. reflexivity. Defined.

(** ** Messages *)

(** The error structure, if any, has got a message that starts with [msg],
    unless it had one before. *)
Definition says (msg : list Z) (e e' : option json_error_t) : Prop :=
  ∃ line column position near, e' = jsonp_error_set line column position (msg ++ near) e.

Definition text_length : Z := JSON_ERROR_TEXT_LENGTH - 1.

Lemma truncated_twice s : truncated JSON_ERROR_TEXT_LENGTH (truncated JSON_ERROR_TEXT_LENGTH s) = truncated JSON_ERROR_TEXT_LENGTH s.
Proof. unfold truncated. by rewrite take_take, Nat.min_id. Qed.

Lemma truncated_short s : Z.of_nat (length s) ≤ text_length → truncated JSON_ERROR_TEXT_LENGTH s = s.
Proof. intros Hs. unfold truncated, text_length in *. apply take_ge. lia. Qed.

Lemma error_set_truncated l c p s e :
  jsonp_error_set l c p (truncated JSON_ERROR_TEXT_LENGTH s) e = jsonp_error_set l c p s e.
Proof. unfold jsonp_error_set. destruct e as [e|]; [|done]. simpl. by rewrite truncated_twice. Qed.

(** The first message stays. *)
Lemma says_first msg msg' e e1 e2 : msg ≠ [] → says msg e e1 → says msg' e1 e2 → says msg e e2.
Proof.
  intros Hm (l & c & p & near & ->) (l' & c' & p' & near' & ->). exists l, c, p, near.
  destruct e as [e|]; [|done]. simpl. f_equal. destruct (e_text e) eqn:Et; simpl; [|by rewrite Et].
  destruct msg as [|b msg]; [done|]. done.
Qed.

Section errors.
Context {D : Type} {HS : Source D} {HL : SourceLaws D}.
Abbreviation context := (context D).
#[local] Existing Instance no_tail.

Lemma error_set_spec msg l (x : context) :
  holds (saved_text x) l → Forall (λ b, b ≠ 0) l → Z.of_nat (length msg) ≤ text_length →
  wpr (error_set msg) x (λ _ x', ∃ e, says msg (error x) e ∧
    x' = Context (stream x) (saved_text x) (token x) (value x) e (values x)).
Proof.
  intros Hh Hl Hm. unfold error_set. apply wp_get_bind. destruct (error x) as [er|] eqn:Ee.
  - destruct (holds_cstring _ _ Hh Hl) as (a & Ea & Ec). rewrite Ea.
    eapply wp_liftS_bind; [exact Ec|]. apply wp_get_bind, wp_put. eexists. split; [|done].
    rewrite truncated_short by done.
    destruct l as [|b l]; repeat case_match; rewrite ?error_set_truncated;
      (eexists _, _, _, _; reflexivity) || (eexists _, _, _, []; by rewrite app_nil_r).
  - apply wp_ret. exists None. split; [by exists 0, 0, 0, []|]. rewrite <- Ee. by destruct x.
Qed.

(** ** Integers that do not fit *)

Definition too_big (i : Z) : list Z := if i <? 0 then str "too big negative integer" else str "too big integer".

Lemma scan_integer_overflow (x : context) t i rest :
  look x t rest → int_text t i → ¬ in_range i →
  wpr (scan_integer (cur rest)) x (λ ok x', ok = false ∧ token x' = token x ∧ values x' = values x ∧
    says (too_big i) (error x) (error x') ∧ at_ x' t None rest).
Proof.
  intros Hx Ht Hi. unfold scan_integer.
  eapply wp_seq; [by apply (lex_unget_unsave_spec x t rest)|]. intros _ x1 [Hx1 (Ek & _ & Ee & Ev)]. change (error x1 = error x) in Ee.
  apply (wp_seq _ _ _ (λ s x', s = t ∧ x' = x1)).
  { eapply saved_string_spec; [done|by eapply int_text_bytes|done]. }
  intros s x2 (-> & ->). rewrite (strtoll_text t i) by done.
  assert (∃ v, (if LLONG_MAX <? i then (LLONG_MAX, true, Z.of_nat (length t))
    else if i <? LLONG_MIN then (LLONG_MIN, true, Z.of_nat (length t)) else (i, false, Z.of_nat (length t))) =
    (v, true, Z.of_nat (length t)) ∧ (v <? 0) = (i <? 0)) as (v & -> & Hv).
  { unfold in_range, LLONG_MAX, LLONG_MIN in *. destruct (Z.ltb_spec (2 ^ 63 - 1) i) as [H|H].
    - eexists. split; [done|]. by rewrite !(proj2 (Z.ltb_ge _ 0)) by lia.
    - rewrite (proj2 (Z.ltb_lt _ _)) by lia. eexists. split; [done|]. by rewrite !(proj2 (Z.ltb_lt _ 0)) by lia. }
  rewrite Hv. fold (too_big i).
  eapply wp_seq; [apply (error_set_spec (too_big i) t x1)|].
  - by destruct Hx1.
  - apply int_text_bytes in Ht. eapply Forall_impl; [exact Ht|]. unfold char_byte. lia.
  - unfold too_big. by case_match.
  - intros [] x2 (e & He & ->). apply wp_ret. cbn. rewrite <- Ee. split; [done|]. split; [done|]. split; [done|].
    split; [done|]. by destruct Hx1.
Qed.

Lemma lex_scan_overflow w t i rest fuel (x : context) :
  ready x (w ++ t ++ rest) → ws w → int_text t i → ¬ in_range i → delimits rest → (length w + length t ≤ fuel)%nat →
  wpr (lex_scan fuel) x (λ k x', k = TOKEN_INVALID ∧ token x' = k ∧ values x' = values x ∧
    says (too_big i) (error x) (error x') ∧ at_ x' t None rest).
Proof.
  intros Hx Hw Ht Hi Hd Hf. destruct (int_text_start t i Ht) as (c & t' & Et & Hc).
  destruct (number_start_tests c Hc) as (E & Hsp & Hp & Hq & Hn).
  apply (lex_scan_start w (t ++ rest) fuel x (λ c, _ ← scan_token fuel c; x ← get; mret (token x))); try done; [by rewrite Et; simpl; rewrite E|lia|].
  intros x1 [Ho1 Ho2] Hx1.
  apply (wp_seq _ _ _ (λ _ x', token x' = TOKEN_INVALID ∧ values x' = values x ∧ says (too_big i) (error x) (error x') ∧ at_ x' t None rest)).
  - assert (Ec : cur (t ++ rest) = s8 c) by by rewrite Et. rewrite Ec. rewrite Et in Hx1.
    apply (scan_token_save c (t' ++ rest)); [done|]. intros x2 (_ & _ & Hk1 & Hk2) Hx2.
    rewrite E, Hp, Hq, Hn. apply (wp_seq _ _ _ (λ _ x', token x' = TOKEN_INVALID ∧ values x' = values x ∧ says (too_big i) (error x) (error x') ∧ at_ x' t None rest)); [|intros _ x3 H3; by apply wp_ret].
    change (c :: t' ++ rest) with ((c :: t') ++ rest) in Hx2. rewrite <- Et in Hx2.
    rewrite E in Ec. rewrite <- Ec. unfold lex_scan_number.
    apply (scan_number_start t i fuel x2 rest
      (λ c, if negb (c =? 46) && negb (c =? 69) && negb (c =? 101) then scan_integer c else scan_real fuel c)); try done; [by apply Hd|lia|].
    intros x3 [Ho3 Ho4] Hk3 Hx3. pose proof (delimits_exp rest Hd) as [E1 E2]%orb_false_iff. destruct Hd as (_ & _ & H46).
    rewrite E1, E2, (proj2 (Z.eqb_neq _ _) H46). cbn [negb andb].
    eapply wp_mono; [by apply (scan_integer_overflow x3 t i rest)|].
    intros [ok| |] x4 H4; [|done..]. destruct H4 as (-> & Ht4 & Hv4 & Hs4 & Hr4).
    change (error x3 = error x2) in Ho3. change (error x2 = error x1) in Hk1. change (error x1 = error x) in Ho1.
    rewrite Ho3, Hk1, Ho1 in Hs4. split_and!; [by rewrite Ht4|by rewrite Hv4, Ho4, Hk2, Ho2|done|done].
  - intros [] x2 (H1 & H2). apply wp_get_bind, wp_ret. by rewrite H1.
Qed.

(** A number that is followed by nothing but white space. *)
Lemma load_overflow (d : D) w1 t i w2 fuel flags h e :
  upcoming d = w1 ++ t ++ w2 → ws w1 → int_text t i → ¬ in_range i → ws w2 →
  Z.of_nat (length (w1 ++ t ++ w2)) < LIMIT → (length w1 + length t ≤ fuel)%nat →
  wp (load fuel d flags) (h, e) (λ o he, o = Fail ∧ he.1 = h ∧ says (too_big i) e he.2).
Proof.
  intros Hd Hw1 Ht Hi Hw2 Hl Hf.
  eapply (load_wp d (w1 ++ t ++ w2) fuel flags h e (λ o h' e', o = Fail ∧ h' = h ∧ says (too_big i) e e')); [by rewrite app_nil_r| |done|].
  { apply clean_app, clean_app; eauto using clean_ws, clean_ascii, int_ascii. }
  intros x Hr <- <-. unfold parse_json.
  eapply wp_seq; [apply (lex_scan_overflow w1 t i w2 fuel x Hr Hw1 Ht Hi); [by apply delimits_end|done]|].
  intros k x1 (-> & Hk & Hv1 & Hs1 & Hx1).
  assert (Herr : ∀ {A} msg, Z.of_nat (length msg) ≤ text_length →
    wp (_ ← error_set msg; sfail : SM context A) x1 (λ o x', o = Fail ∧ values x' = values x ∧ says (too_big i) (error x) (error x'))).
  { intros A msg Hm. eapply wp_seq; [apply (error_set_spec msg t x1); [by destruct Hx1| |done]|].
    - apply int_text_bytes in Ht. eapply Forall_impl; [exact Ht|]. unfold char_byte. lia.
    - intros [] x2 (e' & He' & ->). apply wp_fail. cbn. split; [done|]. split; [done|].
      eapply says_first; [|exact Hs1|exact He']. unfold too_big. by case_match. }
  change (negb (TOKEN_INVALID =? 91)) with true. change (negb (TOKEN_INVALID =? 123)) with true. rewrite !andb_true_r.
  destruct (has flags JSON_DECODE_ANY); cbn [negb]; [|by apply Herr].
  apply wp_bind. eapply wp_mono with (P := λ o x', o = Fail ∧ values x' = values x ∧ says (too_big i) (error x) (error x')).
  - destruct fuel; cbn [parse_value]; apply wp_get_bind; rewrite Hk; by apply Herr.
  - by intros o x' (-> & ?).
Qed.
End errors.

(** C26: integers are read exactly or not at all: of an integer of any number of
    digits, with white space around it, json_loads builds its value when it fits
    64 bits; otherwise it fails with the message for integers that are too big
    or too small, and the heap of values is as before. *)
Theorem integers_exact_or_rejected w1 t i w2 flags h e :
  ws w1 → int_text t i → ws w2 → wf h → has flags JSON_DECODE_ANY = true → has flags JSON_REJECT_DUPLICATES = false →
  Z.of_nat (length (w1 ++ t ++ w2)) < MAX_PAIRS →
  wp (json_loads (Some (w1 ++ t ++ w2)) flags) (h, e) (λ o he,
    if bool_decide (in_range i) then ∃ p A, o = Ret p ∧ built h p (JInteger i) A he.1
    else o = Fail ∧ he.1 = h ∧ says (too_big i) (jsonp_error_init (str "<string>") e) he.2).
Proof.
  intros Hw1 Ht Hw2 Hwf Hany Hdup Hl. case_bool_decide as Hi.
  - eapply wp_mono; [apply (json_loads_spec _ (JInteger i)); try done; [|by left]|].
    + apply Json_text; [done|by apply T_integer|done].
    + intros [p| |] he H; [|done..]. destruct H as ((A & HA) & _). by exists p, A.
  - unfold json_loads. apply init_error_load. apply (load_overflow _ w1 t i w2); try done.
    + simpl. apply until_nul_all, clean_nonzero, clean_app, clean_app; eauto using clean_ws, clean_ascii, int_ascii.
    + unfold LIMIT, MAX_PAIRS in *. lia.
    + rewrite !length_app. lia.
Qed.

(** [9223372036854775808], 2 to the power of 63. *)
Lemma integers_exact_or_rejected_witness :
  let t := str "9223372036854775808" in
  wp (json_loads (Some ([32] ++ t ++ [10])) JSON_DECODE_ANY) (Heap ∅ 0, None) (λ o he,
    if bool_decide (in_range (2 ^ 63)) then ∃ p A, o = Ret p ∧ built (Heap ∅ 0) p (JInteger (2 ^ 63)) A he.1
    else o = Fail ∧ he.1 = Heap ∅ 0 ∧ says (too_big (2 ^ 63)) (jsonp_error_init (str "<string>") None) he.2).
Proof.
  intros t. apply (integers_exact_or_rejected [32] t (2 ^ 63) [10]).
  - constructor; [by left|constructor].
  - apply (I_pos t), (D_many 57); [lia|]. repeat constructor; vm_compute; congruence.
  - constructor; [by right; right; left|constructor].
  - split; [reflexivity|]. intros a [x Hx]. simpl in Hx. by rewrite lookup_empty in Hx.
  - reflexivity.
  - reflexivity.
  - vm_compute. reflexivity.
Defined.

(** ** Escapes *)

(** C31: the test for hexadecimal digits is true of every character, since it
    joins its comparisons with the wrong operator, so that any four characters
    pass for the digits of an escape: [\u00-1] stops the program at the
    assertion of decode_unicode_escape. *)
Theorem hex_digits_unchecked :
  (∀ c, l_isxdigit c = true) ∧
  (∀ h e, (run (json_loads (Some (str "[" ++ 34 :: str "\u00-1" ++ 34 :: str "]")) 0) (h, e)).1 = Undef).
Proof.
  split; [|intros [m b] e; reflexivity].
  intros c. unfold l_isxdigit. rewrite !orb_true_iff, !Z.leb_le. lia.
Qed.
