(* ===== verification/JsonProps.v ===== *)
(** * Properties of Jansson *)

From S2P Require Import Prelude CModel JBase JUtf JStrbuf JHash JHashTheory JValue JArray JReal.
From S2P Require Import JLex JScan JLoad JDump JSpec JLexTheory JFile JStringTheory JTokenTheory.
From S2P Require Import JHeap JBuild JLoadTheory JParseTheory JSound JAccept JRender JDumpTheory JCycles.
From stdpp Require Import strings sorting.
From Stdlib Require Import SpecFloat.
#[local] Open Scope Z_scope.

(** An empty heap, and the structure for errors. *)
Definition no_values : heap := Heap ∅ 0.
Definition no_error : option json_error_t := Some (JsonError 0 0 0 [] []).

Lemma wf_no_values : wf no_values.
Proof. split; [done|]. intros a [x Hx]. simpl in Hx. by rewrite lookup_empty in Hx. Qed.

(** ** Loading *)

(** C4: json_loads accepts every text of the grammar of JSON, and returns a
    tree of new cells, each with one reference, that denotes the value of the
    text; everything else in the heap stays as it was. *)
Theorem json_loads_accepts t v flags h e :
  json_text t v → wf h → has flags JSON_REJECT_DUPLICATES = false → allowed flags v →
  Z.of_nat (length t) < MAX_PAIRS →
  wpr (json_loads (Some t) flags) (h, e) (λ p he, (∃ A, built h p v A he.1) ∧ success (str "<string>") e he.2).
Proof. by apply json_loads_spec. Qed.

(** [[1, true]] *)
Definition small_text : list Z := [91; 49; 44; 32; 116; 114; 117; 101; 93].
Definition small_value : jv := JArray [JInteger 1; JTrue].

Lemma small_json : json_text small_text small_value.
Proof.
  apply (Json_text [] small_text small_value []); [constructor| |constructor].
  apply (T_array [49; 44; 32; 116; 114; 117; 101]).
  apply (Es_cons [] [49] (JInteger 1) [] [32; 116; 114; 117; 101] [JTrue]); [constructor| |constructor|].
  - apply (T_integer [49] 1); [apply (I_pos [49])|done]. apply (D_many 49 []); [lia|constructor].
  - apply (Es_one [32] [116; 114; 117; 101] JTrue []); [|apply T_true|constructor].
    constructor; [by left|constructor].
Qed.

Lemma json_loads_accepts_witness :
  wpr (json_loads (Some small_text) 0) (no_values, no_error)
    (λ p he, (∃ A, built no_values p small_value A he.1) ∧ success (str "<string>") no_error he.2).
Proof.
  apply json_loads_accepts; [exact small_json|exact wf_no_values|reflexivity|right; left; by eexists|].
  vm_compute. reflexivity.
Defined.



(** C22: the sources are interchangeable: json_loadb on the first [buflen] bytes
    of a buffer, and json_load_callback on a text that a callback hands out in
    pieces of at most 1024 bytes, which may cut characters in two, and json_loadf
    on a file of these bytes build the value that json_loads builds from the
    text. *)
Theorem json_sources_agree t v buffer results flags h e :
  json_text t v → wf h → has flags JSON_REJECT_DUPLICATES = false → allowed flags v →
  Z.of_nat (length t) < MAX_PAIRS →
  take (length t) buffer = t → callback_bytes results = t →
  Forall (λ r : option (list Z), (length (default [] r) ≤ 1024)%nat) results →
  wpr (json_loadb (Some buffer) (Z.of_nat (length t)) flags) (h, e)
    (λ p he, (∃ A, built h p v A he.1) ∧ success (str "<buffer>") e he.2) ∧
  wpr (json_load_callback (Some results) flags) (h, e)
    (λ p he, (∃ A, built h p v A he.1) ∧ success (str "<callback>") e he.2) ∧
  wpr (json_loadf (Some (File false t)) flags) (h, e)
    (λ p he, (∃ A, built h p v A he.1) ∧ success (str "<stream>") e he.2).
Proof.
  intros Ht Hwf Hdup Hall Hmax Hb Hr Hlen. split_and!.
  - apply json_loadb_spec; [by rewrite Nat2Z.id, Hb| |done..]. split; [lia|].
    rewrite <- Hb, length_take. lia.
  - apply json_load_callback_spec; by rewrite ?Hr.
  - apply (init_error_load (str "<stream>")). apply (load_spec (File false t) t v); try done. simpl. lia.
Qed.

Lemma json_sources_agree_witness :
  wpr (json_loadb (Some (small_text ++ [0])) 9 0) (no_values, no_error)
    (λ p he, (∃ A, built no_values p small_value A he.1) ∧ success (str "<buffer>") no_error he.2) ∧
  wpr (json_load_callback (Some [Some (take 4 small_text); Some (drop 4 small_text)]) 0) (no_values, no_error)
    (λ p he, (∃ A, built no_values p small_value A he.1) ∧ success (str "<callback>") no_error he.2) ∧
  wpr (json_loadf (Some (File false small_text)) 0) (no_values, no_error)
    (λ p he, (∃ A, built no_values p small_value A he.1) ∧ success (str "<stream>") no_error he.2).
Proof.
  apply (json_sources_agree small_text small_value (small_text ++ [0])
    [Some (take 4 small_text); Some (drop 4 small_text)]);
    [exact small_json|exact wf_no_values|reflexivity|right; left; by eexists|vm_compute; reflexivity|reflexivity|
     reflexivity|].
  repeat constructor; vm_compute; lia.
Defined.

(** ** Dumping *)


(** [[1, 1]] in two cells: the elements are the same cell. *)
Definition shared_heap : heap :=
  Heap (<[0 := Cell 1 (Array (JsonArray 8 2 ([Some (Ref 1); Some (Ref 1)] ++ replicate 6 None) 0))]>
        (<[1 := Cell 2 (Integer 1)]> ∅)) 2.
Definition shared_value : jv := JArray [JInteger 1; JInteger 1].

Lemma shared_unfolds :
  unfolds (cells shared_heap) (Ref 0) shared_value ({[0]} ∪ (({[1]} ∪ ∅) ∪ (({[1]} ∪ ∅) ∪ ∅))).
Proof.
  assert (H1 : unfolds (cells shared_heap) (Ref 1) (JInteger 1) ({[1]} ∪ ∅)).
  { eapply U_cell; [reflexivity|constructor|set_solver]. }
  eapply U_cell; [reflexivity| |set_solver].
  apply (W_array _ _ [Ref 1; Ref 1]); [by split|done|]. by repeat constructor.
Qed.

Lemma shared_wf : wf shared_heap.
Proof.
  split; [simpl; lia|]. intros a [x Hx]. unfold shared_heap in *. cbn [cells brk] in *.
  destruct (decide (a = 0)) as [->|]; [lia|]. destruct (decide (a = 1)) as [->|]; [lia|].
  by rewrite !lookup_insert_ne, lookup_empty in Hx by done.
Qed.

Lemma shared_dumpable : dumpable shared_value.
Proof. constructor. repeat constructor; unfold in_range; lia. Qed.

Definition append_text (text : list Z) : SM (list Z) unit := l ← get; put (l ++ text).



(** An array that holds the integer 1 and an array that holds the first one. *)
Definition cyclic_heap : heap :=
  Heap (<[0 := Cell 2 (Array (JsonArray 8 2 ([Some (Ref 1); Some (Ref 2)] ++ replicate 6 None) 0))]>
        (<[1 := Cell 1 (Integer 1)]>
        (<[2 := Cell 1 (Array (JsonArray 8 1 ([Some (Ref 0)] ++ replicate 7 None) 0))]> ∅))) 3.

Lemma cyclic_closed : closed cyclic_heap.
Proof.
  split.
  - split; [simpl; lia|]. intros a [x Hx]. unfold cyclic_heap in *. cbn [cells brk] in *.
    destruct (decide (a = 0)) as [->|]; [lia|]. destruct (decide (a = 1)) as [->|]; [lia|].
    destruct (decide (a = 2)) as [->|]; [lia|]. by rewrite !lookup_insert_ne, lookup_empty in Hx by done.
  - intros a c Ha. unfold cyclic_heap in Ha. cbn [cells] in Ha.
    apply lookup_insert_Some in Ha as [[<- <-]|[_ Ha]].
    { split; [done|]. exists [Ref 1; Ref 2]. split; [by split|]. repeat constructor; by eexists. }
    apply lookup_insert_Some in Ha as [[<- <-]|[_ Ha]]; [done|].
    apply lookup_insert_Some in Ha as [[<- <-]|[_ Ha]]; [|by rewrite lookup_empty in Ha].
    split; [done|]. exists [Ref 0]. split; [by split|]. repeat constructor; by eexists.
Qed.


(** ** Round trip *)

Lemma same_values_sym vs vs' :
  Forall (λ v, ∀ v', same_value v v' → same_value v' v) vs → same_values vs vs' → same_values vs' vs.
Proof.
  intros Hall H. revert Hall. induction H as [|v v' vs vs' Hv Hvs IH]; intros Hall; [constructor|].
  apply Forall_cons in Hall as [H1 H2]. constructor; auto.
Qed.

Lemma same_value_sym v : ∀ v', same_value v v' → same_value v' v.
Proof.
  induction v as [ms IH|vs IH|s|i|r| | |] using jv_induction; intros v' H;
    inversion H as [|vs0 vs1 Hvs|ms0 ms1 ms' Hp Hk He]; subst; try by constructor.
  - destruct (equiv_all_perm ms.*1 ms.*2 ms1 ms') as (vs' & Hvs' & Hp'); try done.
    { rewrite zip_fst_snd. done. }
    { by rewrite !length_fmap. }
    apply (Q_object ms' (zip ms.*1 vs') ms).
    + done.
    + rewrite fst_zip; [done|]. rewrite <- (equiv_all_length _ _ Hvs'), !length_fmap. lia.
    + rewrite snd_zip; [|rewrite <- (equiv_all_length _ _ Hvs'), !length_fmap; lia].
      apply same_values_sym; [|done]. by apply Forall_fmap.
  - constructor. by apply same_values_sym.
Qed.

(** C3: what json_dumps writes, json_loads reads back: the text of a
    value, whose parts may be shared, with any flags for the layout, is accepted
    and builds a new tree that denotes the same value; the old cells are
    untouched. *)
Theorem json_round_trip p v B h flags dflags e :
  wf h → unfolds (cells h) p v B → dumpable v → has flags JSON_ENCODE_ANY = true ∨ ¬ is_scalar v →
  has dflags JSON_REJECT_DUPLICATES = false → allowed dflags v →
  Z.of_nat (length (render flags 0 v)) < MAX_PAIRS →
  wpr (json_dumps (Some p) flags) h (λ t h', h' = h ∧
    wpr (json_loads (Some t) dflags) (h, e) (λ q he, ∃ A, built h q v A he.1)).
Proof.
  intros Hwf Hp Hv Hany Hdup Hall Hl.
  eapply wp_mono; [apply (json_dumps_spec p v B h flags); try done; unfold LIMIT, MAX_PAIRS in *; lia|].
  intros [t| |] h' H; [|done..]. destruct H as (-> & v' & He & ->). split; [done|].
  eapply wp_mono; [apply (json_loads_spec (render flags 0 v') v')|].
  - apply render_text. by eapply dumpable_equiv.
  - done.
  - done.
  - destruct Hall as [Ha|[[vs ->]|[ms ->]]]; [by left|right; left|right; right]; inversion He; subst; by eexists.
  - by rewrite <- (render_length v v' flags 0 He).
  - intros [q| |] he H; [|done..]. destruct H as ((A & Ho & Hg) & _). exists A. split; [|done].
    eapply owned_equiv; [exact Ho|]. by apply same_value_sym.
Qed.

Lemma json_round_trip_witness :
  wpr (json_dumps (Some (Ref 0)) 0) shared_heap (λ t h', h' = shared_heap ∧
    wpr (json_loads (Some t) 0) (shared_heap, no_error) (λ q he, ∃ A, built shared_heap q shared_value A he.1)).
Proof.
  eapply (json_round_trip (Ref 0) shared_value _ shared_heap 0 0 no_error shared_wf shared_unfolds shared_dumpable).
  - right. intros [].
  - reflexivity.
  - right. left. by eexists.
  - vm_compute. reflexivity.
Defined.
